(* ===== verification/_CoqProject ===== *)
-Q . S2P
Prelude.v
BTree.v
RustStr.v
Wire.v
Volume.v
NetAddr.v
Ipam.v
PbAddr.v
Peer.v
Port.v
Config.v
ServiceSpec.v
Machine.v
Scheduler.v
Propagate.v
SchedulePlan.v
SchedulePlace.v
ScheduleProps.v
SchedulerNew.v
Deploy.v
Time.v
TimeProps.v
Container.v
Secret.v
MachineName.v
GoQuote.v
Chars.v
ClusterDns.v
Cluster.v
ClusterSpec.v
ClusterProps.v
ClusterTheorems.v
Store.v
StoreJson.v
StoreProps.v
StoreTheorems.v
ClusterStore.v
StoreContainers.v
StoreTime.v
StoreContainersProps.v
StoreChanges.v
StoreChangesProps.v
Shell.v
ProxyMap.v
ProxyRoute.v
ProxyRouteProps.v
ProxyCall.v
ProxyCallProps.v
ProxyConn.v
ProxyConnProps.v
Caddy.v
CaddyProps.v
CorroClient.v
CorroQuery.v
CorroClientProps.v
CorroQueryProps.v
CorroTheorems.v
CorroTransport.v
GrpcVersion.v
GrpcVersionProps.v
GrpcVersionTheorems.v
PdqSort.v
PdqSortProps.v
PdqSortSteps.v
PdqSortTheorems.v
Float.v
MetricsNegotiate.v
MetricsNegotiateProps.v
MetricsEncode.v
MetricsEncodeProps.v
MetricsEncodeTheorems.v
MetricsServer.v
MetricsServerProps.v
CorroAdmin.v
CorroAdminProps.v
Log.v
LogProps.v
WireGuard.v
WireGuardProps.v
WireGuardTheorems.v
