(* ===== verification/Prelude.v ===== *)
(** * Verification of the Ployz Rust port

    Ployz runs containers on a cluster of machines joined by a WireGuard network.
    A machine daemon serves a gRPC API, keeps the cluster's state (machines,
    containers, configuration) in corrosion's replicated SQLite database, allocates a
    subnet to every machine and keeps its network peers connected; a client library
    describes services and decides where volumes and containers go.  This library
    models the parts that decide something, at the level of the Rust functions (the
    crates under src/crates/), and proves what makes them correct.

    ** How code is modelled

    A fallible function returns [result E A]: [Ok], [Err], or [Panic] for a failed
    [expect], [unwrap] or index.  Machine integers are [Z] with their width written
    out; strings are byte strings, with Rust's UTF-8 invariant as a hypothesis
    ([utf8_valid]) where it matters; [BTreeMap] and [BTreeSet] are finite maps read in
    key order (BTree.v), hash maps are finite maps with an arbitrary order
    ([HashOrder]).  A mutable receiver is returned with the result.  Clock readings,
    random bytes and the answers of remote services are arguments.  Third-party code
    is a class whose laws, if any, state its documented behaviour, each with an instance
    that shows the laws can hold: [OciLib] (image references), [UnicodeLib] (debug
    escapes), [HashOrder] (iteration order), [JsonLib], [JsonDecode], [SerdeJson] and
    [JsonText] (serde), [Base64], [HexLib], [NetLib] (prefixes and keys a
    peer only carries), [StatusText] (the text of a status), [ContainerJson],
    [ContainerTable] and [SubscribeBackend] (containers as JSON and in the database,
    subscriptions), [Backend]/[SqlBackend] (the database), [Prost] (protobuf messages),
    [MetadataLib] (gRPC metadata values), [Gotmpl] (templates), and for the corrosion
    client [QueryJson] with [Delimited] (serde_json and its streams), [GzipLib],
    [HttpLib] and [Hyper] (addresses and HTTP), [Retries] (backon) and [QueryDebug];
    [SemverLib] reads versions; [PrometheusLib], [MetricsHttp] and [Powi] are the metrics'
    encoders, header values and compression, and the power function of floats;
    [IpNetLib], [X25519] and [Kernel] with [KernelLaws] are the networks of ipnet, public
    keys, and the kernel behind netlink and the WireGuard protocol.

    ** Files

    - Prelude.v: outcomes, loops with early return, their rules and the tactic
      [result_inv].  BTree.v: ordered iteration.  RustStr.v: [str] and integer
      parsing and printing, UTF-8, splitting and joining; Chars.v: the characters of a
      text; Float.v: [f32] and [f64] with their texts.  Wire.v: Go-like nil-able slices and maps
      (ployz-pkg-api wire.rs, error.rs).
    - NetAddr.v, Ipam.v: IP addresses and their texts; [IpPrefix] and the first-fit
      subnet allocator (ployz-internal-machine-cluster ipam.rs).
    - PbAddr.v: the wire form of addresses and the validation of a network
      configuration (ployz-internal-machine-api-pb lib.rs, generated messages).
    - Peer.v: WireGuard peers, their status and the rotation of their endpoints
      (ployz-internal-machine-network peer.rs).
    - Volume.v, Port.v, Config.v, ServiceSpec.v, Machine.v, Container.v, Time.v: the
      client API's specifications and records (ployz-pkg-api volume.rs, port.rs,
      config.rs, service.rs, machine.rs, container.rs), with validation, defaults,
      equivalence, look-ups, durations and timestamps; Config.v also has the lemmas on
      comparisons; TimeProps.v the theorems on times.
    - Scheduler.v: the deploy scheduler (ployz-pkg-client-deploy-scheduler):
      constraints, eligible machines, and the volume scheduler with its propagation
      loop and placement; Propagate.v, SchedulePlan.v, SchedulePlace.v,
      ScheduleProps.v, SchedulerNew.v the lemmas, Deploy.v the theorems.
    - Secret.v, MachineName.v, GoQuote.v, ClusterDns.v: secrets and random
      identifiers (ployz-internal-secret), machine names and addresses
      (machine.rs, ip.rs), Go's quoting (go_printable.rs), the stored domain and DNS
      records (dns.rs).
    - Cluster.v: the cluster service (ployz-internal-machine-cluster service.rs).  A
      handler is a program ([prog]) of calls to the store, the admin socket and the
      DNS service.  ClusterSpec.v: what a call may answer and change ([call_spec]),
      all runs of a program ([wp], [runs]), interleaving ([pool_step]) and a store in
      memory; ClusterProps.v the lemmas, ClusterTheorems.v the theorems.
    - Store.v: the cluster store (ployz-internal-machine-store lib.rs) over a SQL
      backend, machines as JSON; StoreJson.v: reading back what is written;
      StoreProps.v: tables, statements and the refinement of [call_spec];
      StoreTheorems.v: the theorems and instances of the parameters.
    - ClusterStore.v: the cluster service over the store.
    - StoreContainers.v: the store's containers, timestamps and versions; StoreTime.v
      and StoreContainersProps.v their theorems.  StoreChanges.v: subscriptions, the
      change worker and its handle as interleaved steps; StoreChangesProps.v.
    - Shell.v: shell quoting (ployz-internal-sshexec shell.rs) against the words, the
      assignments and the reserved words of a POSIX shell.
    - ProxyMap.v: the API proxy's targets, payloads and backends
      (ployz-internal-machine-api-proxy mapper.rs, payload.rs, backend.rs); ProxyRoute.v:
      the director, its calls as steps between the locks, and deadlines (lib.rs),
      ProxyRouteProps.v its theorems; ProxyCall.v:
      broadcasts and relays (lib.rs), ProxyCallProps.v; ProxyConn.v: the connection state
      of a backend as interleaved locked sections (backend.rs), ProxyConnProps.v.
    - Caddy.v: the Caddyfile, the JSON configuration and the controller that loads them
      (ployz-internal-machine-caddyconfig caddyfile.rs, template.rs, json_config.rs,
      controller.rs); CaddyProps.v its theorems.
    - CorroClient.v: the corrosion client's errors, bodies, values, decoder and events
      (ployz-internal-corrosion transport.rs, json.rs, query.rs); CorroQuery.v:
      statements, rows, subscriptions and change streams over the interface [Http];
      CorroTransport.v: requests with retries and redirects, which implement it.
      CorroClientProps.v, CorroQueryProps.v: the lemmas,
      CorroTheorems.v: the theorems and concrete parameters.
    - GrpcVersion.v: versions, their order and the policy of clients and servers
      (ployz-internal-grpcversion lib.rs); GrpcVersionProps.v, GrpcVersionTheorems.v.
    - PdqSort.v: the hand-written quicksort of the metrics' Accept clauses
      (ployz-internal-machine-metrics encoding.rs), over any comparison; PdqSortProps.v,
      PdqSortSteps.v: its routines, PdqSortTheorems.v.  MetricsNegotiate.v: the
      negotiation of format, escaping and compression, MetricsNegotiateProps.v its
      theorems; MetricsEncode.v: validation, escaping and the text formats,
      MetricsEncodeProps.v: names, literals and their readers, MetricsEncodeTheorems.v;
      MetricsServer.v: routes, accept loop, handler with its rendering task and the
      instrumentation of scrapes (routing.rs, lib.rs), MetricsServerProps.v.
    - CorroAdmin.v: corrosion's admin client, its frames, responses and commands
      (ployz-internal-corrosion admin.rs); CorroAdminProps.v its theorems.
    - Log.v: the text format of log records, the handler and the layer
      (ployz-internal-log lib.rs, unicode_print.rs); LogProps.v its theorems.
    - WireGuard.v: the WireGuard network (ployz-internal-machine-network
      wireguard_linux.rs, config.rs, ip.rs, mtu.rs, wireguard.rs, address.rs) in a monad
      [net] over its [State] and a system [W]: configuration of device, addresses and
      routes, the tick, watchers, keys, MTU, addresses of the machine.  WireGuardProps.v:
      prefixes, the laws of the kernel and what each step does; WireGuardTheorems.v: the
      theorems, and a simulated kernel on which the network runs.

    ** What is shown

    - Deploy: [schedule] finds a placement exactly when one exists and no volume is
      shared between global and replicated services, its plan is a valid placement, its
      errors are true, propagation ends at the greatest consistent family, and scheduled
      services whose volume drivers are named can be deployed.
    - Addresses: allocated subnets are disjoint, first fit, and exhaustion is
      reported exactly; binary and text forms round-trip; validation is exact.
    - Cluster: from initialisation on, every sequence of requests, one after the
      other, with any store calls that answer an error, keeps machines' subnets disjoint
      and keys distinct; adding, removing and listing machines do what they promise, and
      an addition that fails tells its cause; the domain handlers refine a small abstract
      machine; the store refines what the cluster service relies on but for a listing
      that breaks off ([listing_cut]), so that without one a machine added over the SQL
      tables is one the next request reads, and a machine's JSON is read back as the
      machine.
    - Store: storing a container is stable under what may differ between reports,
      timestamps are ordered by time, a subscription reports every change once and in
      order and leaves no thread behind.
    - API proxy: names resolve to exactly the machines meant, routes lead to their
      addresses over connections that only a flush or a close since then has closed, in
      every interleaving of calls, flushes and close; forwarded requests are not forwarded
      again, a broadcast merges one message per reply whatever the order of its tasks, a
      relay loses nothing, a lost connection is noticed and made again unless a call to
      start reconnecting is overtaken by the task itself.
    - Caddy: both configurations route exactly what containers publish, users'
      configurations are included only validated, the text does not depend on the order
      of listing, and Caddy is given what the containers call for unless it has restarted
      since and they are as before.
    - Corrosion client: values, rows and changes are read in order and without loss
      however a body is cut, a change stream follows the service's log over
      reconnections, statements fail exactly when the service says so, redirects are
      bounded and never resend a body under another method.  The admin client loses
      nothing when a call is cancelled, answers what the frames say however the socket
      cuts them, keeps one latest state per member, and its statistics do not depend on
      the samples' order.
    - Versions: their order is that of Semantic Versioning, their texts are read back,
      and a client and a server understand each other exactly when neither is too old.
    - Metrics: the quicksort ends and permutes whatever the comparison answers, and sorts
      when it is an order; the negotiation answers every header and prefers the highest
      quality; the encoder does not panic on what was negotiated unless a library does,
      escaped names are legacy names and are read back, literals are read back; every
      scrape is in flight, counted once, or one whose handler was dropped or whose
      rendering failed, over every interleaving; redirects settle, the delays of the
      accept loop are exactly those of a bounded backoff, bodies are drained up to exact
      limits.
    - Log: a record's line is read back as its attributes whatever characters they hold,
      its printable characters are those of the cluster service, an event's attributes
      come under the groups of its spans, and records are written exactly when enabled.
    - Peers: endpoints are tried in rotation, statuses follow the intervals.
    - WireGuard network: routed prefixes are compacted without gaining or losing an
      address and cannot be merged further; a configuration whose peers have different
      keys and networks establishes exactly the peers, the address and the routes it
      describes, and succeeds when the kernel answers; the MTU stays in its bounds.
    - Times, containers, names, secrets, shell words, timeouts: round trips, exact
      look-ups, freshness, bounds.  A quoted command is read as its words, and run as a
      command exactly when its first word is no assignment and no reserved word.
    - Shown defects: concurrent additions can share a subnet, a derived management
      address is not checked, a broken-off listing is taken as complete, a block
      larger than the network is accepted, a driver without name is not deployable,
      signs are accepted inside timestamps, a delayed start of a reconnecting task can
      lose a connection, a restarted Caddy can be left without users' configurations,
      an error of several lines leaves its comment, a short write loses a part of a log
      record, a change stream without a change yet skips changes on reconnecting, one
      behind a gap subscribes for ever, a watcher that is gone silences those after it, and
      an absent key is read back as an empty one.

    ** Fuel

    Loops that are not structural take fuel and the theorems show it is enough: the
    allocator one step more than the network has subnets ([alloc_fuel]); propagation
    one round per machine and service that can be dropped; machine names one suffix
    more than there are names; text scanners the length of the text; a body one read per
    byte and one for its end; the quicksort one turn per element of the slice and its
    loops one per place; the admin client one turn per read and byte;
    the compaction of prefixes one turn per prefix and one.  A change stream may have to reconnect any number of times,
    so its loop has a number of turns, and the theorems say when two are enough.  Sampling random
    characters has no bound: it consumes a given list of bytes and says when it needs
    more.

    ** Assumptions on concurrency

    Handlers of the cluster service are programs of atomic calls; the theorems on
    sequences run them one after the other, which [add_machine_unserialised] shows to
    be necessary.  The store is one replica: replication delay is not modelled.
    Threads and tasks that share a lock or a channel (subscriptions, broadcasts, a
    backend's connection, the director's calls) are interleaved at their locked sections
    and channel operations, in every order; the handler of a scrape, its rendering task
    and its body are interleaved at the points where one of them can be dropped.

    ** Not modelled

    Sockets, processes, file systems and terminals (the docker, DNS and Caddy
    admin clients, the tunnel, the TCP proxy, the CLI); generated protobuf and gRPC
    code beyond the messages used; derived serde implementations; floating-point
    backoff. *)

From stdpp Require Export prelude strings gmap sorting list.
From Stdlib Require Export ZArith Lia.

(** ** Outcomes of fallible code

    A Rust function either returns [Ok], returns [Err], or panics ([expect],
    [unwrap] or indexing out of range).  The error type comes first, so that
    [result E] is a monad and stdpp's [x ← m; k] stands for the [?] operator. *)
Inductive result (E A : Type) : Type :=
| Ok (a : A)
| Err (e : E)
| Panic (msg : string).
Arguments Ok {E A} a.
Arguments Err {E A} e.
Arguments Panic {E A} msg.

#[export] Instance result_ret E : MRet (result E) := fun A a => Ok a.
#[export] Instance result_bind E : MBind (result E) := fun A B f r =>
  match r with Ok a => f a | Err e => Err e | Panic m => Panic m end.
#[export] Instance result_fmap E : FMap (result E) := fun A B f r =>
  match r with Ok a => Ok (f a) | Err e => Err e | Panic m => Panic m end.

(** [Result::map_err]. *)
Definition map_err {E E' A} (f : E → E') (r : result E A) : result E' A :=
  match r with Ok a => Ok a | Err e => Err (f e) | Panic m => Panic m end.

(** [Option::ok_or] and [Option::expect]. *)
Definition ok_or {E A} (e : E) (o : option A) : result E A :=
  match o with Some a => Ok a | None => Err e end.
Definition expect {E A} (msg : string) (o : option A) : result E A :=
  match o with Some a => Ok a | None => Panic msg end.

(** [Result::ok], for a result whose panic has been excluded: a panic still
    propagates. *)
Definition result_ok {E E' A} (r : result E A) : result E' (option A) :=
  match r with Ok a => Ok (Some a) | Err _ => Ok None | Panic m => Panic m end.

(** A [for] loop over a finite sequence whose body may return early: the loop
    state is threaded, [Err] and [Panic] leave the loop. *)
Fixpoint foldM {E A B} (f : B → A → result E B) (b : B) (l : list A) : result E B :=
  match l with
  | [] => Ok b
  | x :: l => match f b x with
              | Ok b' => foldM f b' l
              | Err e => Err e
              | Panic m => Panic m
              end
  end.

(** [forM_ l f]: the loop without a state. *)
Definition forM_ {E A} (l : list A) (f : A → result E ()) : result E () :=
  foldM (fun _ x => f x) () l.

(** [result_spec r Q R]: [r] does not panic, its value satisfies [Q] and its
    error satisfies [R]. *)
Definition result_spec {E A} (r : result E A) (Q : A → Prop) (R : E → Prop) : Prop :=
  match r with Ok a => Q a | Err e => R e | Panic _ => False end.

Section result_spec.
Context {E : Type}.

Lemma result_spec_mono {A} (r : result E A) (Q Q' : A → Prop) (R R' : E → Prop) :
  result_spec r Q R →
  (∀ a, r = Ok a → Q a → Q' a) → (∀ e, r = Err e → R e → R' e) →
  result_spec r Q' R'.
Proof. destruct r; simpl; eauto. Qed.

Lemma result_spec_bind {A B} (r : result E A) (k : A → result E B) Q' Q (R : E → Prop) :
  result_spec r Q' R →
  (∀ a, r = Ok a → Q' a → result_spec (k a) Q R) →
  result_spec (r ≫= k) Q R.
Proof. destruct r; simpl; eauto. Qed.

Lemma result_spec_map_err {E' A} (f : E → E') (r : result E A) Q (R : E' → Prop) :
  result_spec r Q (fun e => R (f e)) → result_spec (map_err f r) Q R.
Proof. destruct r; simpl; eauto. Qed.

Lemma result_spec_ok {A} (r : result E A) Q R a :
  result_spec r Q R → r = Ok a → Q a.
Proof. by intros H ->. Qed.

Lemma result_spec_err {A} (r : result E A) Q R e :
  result_spec r Q R → r = Err e → R e.
Proof. by intros H ->. Qed.

Lemma result_spec_no_panic {A} (r : result E A) Q R m :
  result_spec r Q R → r ≠ Panic m.
Proof. by intros H ->. Qed.

(** The loop rule: an invariant indexed by the elements already visited. *)
Lemma foldM_spec {A B} (f : B → A → result E B) (I : list A → B → Prop)
    (R : E → Prop) (l : list A) (b : B) :
  I [] b →
  (∀ pre x post b', l = pre ++ x :: post → I pre b' →
     result_spec (f b' x) (I (pre ++ [x])) R) →
  result_spec (foldM f b l) (I l) R.
Proof.
  intros H0 Hstep.
  assert (∀ pre suf b', l = pre ++ suf → I pre b' →
            result_spec (foldM f b' suf) (I l) R) as Hgen.
  { intros pre suf. revert pre.
    induction suf as [|x suf IH]; intros pre b' -> HI; simpl.
    - by rewrite app_nil_r in *.
    - pose proof (Hstep pre x suf b' eq_refl HI) as Hx.
      destruct (f b' x) as [b''| |]; simpl in *; [|done..].
      apply (IH (pre ++ [x])); [|done]. by rewrite <-app_assoc. }
  by apply (Hgen []).
Qed.

(** The loop rule for an invariant that does not mention the position. *)
Lemma foldM_inv {A B} (f : B → A → result E B) (I : B → Prop)
    (R : E → Prop) (l : list A) (b : B) :
  I b →
  (∀ x b', x ∈ l → I b' → result_spec (f b' x) I R) →
  result_spec (foldM f b l) I R.
Proof.
  intros H0 Hstep. apply (foldM_spec f (fun _ => I)); [done|].
  intros pre x post b' -> HI. apply Hstep; [set_solver|done].
Qed.

Lemma foldM_app {A B} (f : B → A → result E B) l1 l2 b :
  foldM f b (l1 ++ l2) = (b' ← foldM f b l1; foldM f b' l2).
Proof.
  revert b. induction l1 as [|x l1 IH]; intros b; simpl; [done|].
  destruct (f b x); simpl; [apply IH|done..].
Qed.

Lemma forM_Ok {A} (l : list A) (f : A → result E ()) :
  forM_ l f = Ok () ↔ Forall (fun x => f x = Ok ()) l.
Proof.
  unfold forM_. induction l as [|x l IH]; simpl; [done|].
  rewrite Forall_cons, <-IH.
  destruct (f x) as [[]| |]; naive_solver.
Qed.
End result_spec.

(** Reduces a hypothesis that a chain of binds gave [Ok]. *)
Lemma bind_Ok {E A B} (r : result E A) (k : A → result E B) b :
  (r ≫= k) = Ok b ↔ ∃ a, r = Ok a ∧ k a = Ok b.
Proof. destruct r; naive_solver. Qed.

Lemma map_err_Ok {E E' A} (f : E → E') (r : result E A) a :
  map_err f r = Ok a ↔ r = Ok a.
Proof. destruct r; naive_solver. Qed.

Lemma expect_Ok {E A} msg (o : option A) a :
  @expect E A msg o = Ok a ↔ o = Some a.
Proof. destruct o; naive_solver. Qed.

(** [result_inv] takes apart every hypothesis that equates a chain of binds,
    [map_err]s, [expect]s or conditionals with [Ok]. *)
Ltac result_inv :=
  repeat match goal with
  | H : Ok _ = Ok _ |- _ => injection H as H; subst
  | H : Err _ = Ok _ |- _ => discriminate H
  | H : Panic _ = Ok _ |- _ => discriminate H
  | H : (_ ≫= _) = Ok _ |- _ => apply bind_Ok in H; destruct H as (? & ? & H)
  | H : map_err _ _ = Ok _ |- _ => apply map_err_Ok in H
  | H : expect _ _ = Ok _ |- _ => apply expect_Ok in H
  | H : (if ?b then _ else _) = Ok _ |- _ => destruct b eqn:?
  | H : match ?x with _ => _ end = Ok _ |- _ => destruct x eqn:?
  end; simplify_eq/=.
