(* ===== verification/BTree.v ===== *)
(** * Ordered and unordered collections of the Rust standard library

    [BTreeMap<String, V>] is a [gmap string V] whose iteration visits the keys
    in ascending byte order, [BTreeSet<String>] a [gset string] with the same
    order, and [HashMap]/[HashSet] a [gmap]/[gset] whose iteration order is
    unspecified: it is a parameter, the class [HashOrder]. *)

From S2P Require Import Prelude.

(** ** [BTreeMap] *)

Definition entry_le {V} (p q : string * V) : Prop := String.le p.1 q.1.

#[export] Instance entry_le_dec {V} : RelDecision (@entry_le V) :=
  fun p q => String.le_dec p.1 q.1.
#[export] Instance entry_le_total {V} : Total (@entry_le V).
Proof. intros p q. unfold entry_le. apply String.le_total. Qed.
#[export] Instance entry_le_trans {V} : Transitive (@entry_le V).
Proof. intros p q r. unfold entry_le. intros; by etrans. Qed.

(** [BTreeMap::iter]: the entries in ascending key order. *)
Definition btree_iter {V} (m : gmap string V) : list (string * V) :=
  merge_sort entry_le (map_to_list m).

(** [BTreeMap::keys]. *)
Definition btree_keys {V} (m : gmap string V) : list string := (btree_iter m).*1.

(** [map[key]], which panics when the key is absent. *)
Definition btree_index {E V} (m : gmap string V) (k : string) : result E V :=
  expect "no entry found for key" (m !! k).

(** [map.entry(key).or_default().push(x)]. *)
Definition entry_push {A} (m : gmap string (list A)) (k : string) (x : A) :
    gmap string (list A) :=
  <[k := default [] (m !! k) ++ [x]]> m.

(** [map.entry(key).or_default().insert(x)] for a map of sets. *)
Definition entry_insert (m : gmap string (gset string)) (k x : string) :
    gmap string (gset string) :=
  <[k := default ∅ (m !! k) ∪ {[x]}]> m.

(** ** [BTreeSet] *)

(** [BTreeSet::iter]. *)
Definition bset_iter (s : gset string) : list string :=
  merge_sort String.le (elements s).

(** [BTreeSet::first]. *)
Definition bset_first (s : gset string) : option string := head (bset_iter s).

(** ** [HashMap] *)

(** The iteration order of a [HashMap], which the standard library leaves
    unspecified (and randomises): some order of the entries. *)
Class HashOrder := {
  hash_iter : ∀ {V : Type}, gmap string V → list (string * V);
  hash_iter_perm : ∀ {V : Type} (m : gmap string V), hash_iter m ≡ₚ map_to_list m
}.

(** One possible order, used to run the model on concrete inputs. *)
Definition sorted_hash_order : HashOrder := {|
  hash_iter V m := btree_iter m;
  hash_iter_perm V m := merge_sort_Permutation entry_le (map_to_list m)
|}.

Section btree_lemmas.
Context {V : Type}.
Implicit Types (m : gmap string V).

Lemma btree_iter_perm m : btree_iter m ≡ₚ map_to_list m.
Proof. apply merge_sort_Permutation. Qed.

Lemma elem_of_btree_iter m k v : (k, v) ∈ btree_iter m ↔ m !! k = Some v.
Proof. rewrite btree_iter_perm. apply elem_of_map_to_list. Qed.

Lemma elem_of_btree_keys m k : k ∈ btree_keys m ↔ is_Some (m !! k).
Proof.
  unfold btree_keys. rewrite list_elem_of_fmap. split.
  - intros ([k' v] & -> & Hin). apply elem_of_btree_iter in Hin. eauto.
  - intros [v Hv]. exists (k, v). by rewrite elem_of_btree_iter.
Qed.

Lemma NoDup_btree_keys m : NoDup (btree_keys m).
Proof. unfold btree_keys. rewrite btree_iter_perm. apply NoDup_fst_map_to_list. Qed.

Lemma btree_iter_sorted m : StronglySorted entry_le (btree_iter m).
Proof. apply StronglySorted_merge_sort; apply _. Qed.

Lemma elem_of_hash_iter `{HashOrder} m k v : (k, v) ∈ hash_iter m ↔ m !! k = Some v.
Proof. rewrite hash_iter_perm. apply elem_of_map_to_list. Qed.
End btree_lemmas.

Section bset_lemmas.
Implicit Types (s : gset string).

Lemma elem_of_bset_iter s x : x ∈ bset_iter s ↔ x ∈ s.
Proof. unfold bset_iter. by rewrite merge_sort_Permutation, elem_of_elements. Qed.

Lemma NoDup_bset_iter s : NoDup (bset_iter s).
Proof. unfold bset_iter. rewrite merge_sort_Permutation. apply NoDup_elements. Qed.

Lemma bset_first_elem s x : bset_first s = Some x → x ∈ s.
Proof.
  unfold bset_first. intros H. apply elem_of_bset_iter.
  destruct (bset_iter s); simplify_eq/=. set_solver.
Qed.

Lemma bset_first_least s x y : bset_first s = Some x → y ∈ s → String.le x y.
Proof.
  unfold bset_first. intros Hx Hy.
  assert (StronglySorted String.le (bset_iter s)) as Hs
    by (apply StronglySorted_merge_sort; apply _).
  apply elem_of_bset_iter in Hy.
  destruct (bset_iter s) as [|z l]; simplify_eq/=.
  apply StronglySorted_inv in Hs as [_ Hall].
  apply elem_of_cons in Hy as [->|Hy]; [done|].
  rewrite Forall_forall in Hall. by apply Hall.
Qed.

Lemma bset_first_None s : bset_first s = None ↔ s = ∅.
Proof.
  unfold bset_first. split.
  - intros H. apply set_eq. intros x. rewrite <-elem_of_bset_iter.
    destruct (bset_iter s); [set_solver|done].
  - intros ->. done.
Qed.
End bset_lemmas.

Lemma entry_push_eq {A} (m : gmap string (list A)) k x :
  entry_push m k x !! k = Some (default [] (m !! k) ++ [x]).
Proof. apply lookup_insert_eq. Qed.

Lemma entry_push_ne {A} (m : gmap string (list A)) k k' x :
  k ≠ k' → entry_push m k x !! k' = m !! k'.
Proof. apply lookup_insert_ne. Qed.

Lemma btree_index_Ok {E V} (m : gmap string V) k v :
  @btree_index E V m k = Ok v ↔ m !! k = Some v.
Proof. apply expect_Ok. Qed.

Create HintDb btree.
#[export] Hint Resolve bset_first_elem bset_first_least NoDup_btree_keys
  NoDup_bset_iter btree_iter_sorted : btree.
#[export] Hint Rewrite @elem_of_btree_iter @elem_of_btree_keys elem_of_bset_iter
  @entry_push_eq : btree.
