(* ===== verification/RustStr.v ===== *)
(** * Strings and integer parsing of the Rust standard library

    A Rust [str] is a sequence of UTF-8 bytes; here it is a [string], whose
    characters are bytes.  Lengths and indices count bytes, and the byte order
    of [String.le] is the order of [str]. *)

From Stdlib Require Export Ascii.
From S2P Require Import Prelude.

(** ** Bytes *)

Definition byte_val (c : ascii) : Z := Z.of_N (Ascii.N_of_ascii c).

Definition is_ascii_digit (c : ascii) : bool :=
  (48 <=? byte_val c)%Z && (byte_val c <=? 57)%Z.
Definition is_ascii_lowercase (c : ascii) : bool :=
  (97 <=? byte_val c)%Z && (byte_val c <=? 122)%Z.
Definition is_ascii_uppercase (c : ascii) : bool :=
  (65 <=? byte_val c)%Z && (byte_val c <=? 90)%Z.
Definition is_ascii_alphanumeric (c : ascii) : bool :=
  is_ascii_digit c || is_ascii_lowercase c || is_ascii_uppercase c.
Definition is_ascii_byte (c : ascii) : bool := (byte_val c <? 128)%Z.
(** [(b'a'..=b'f').contains(&byte)]. *)
Definition is_af (c : ascii) : bool :=
  (97 <=? byte_val c)%Z && (byte_val c <=? 102)%Z.

Definition ascii_eqb (a b : ascii) : bool := Ascii.eqb a b.

(** [char::to_ascii_lowercase] and [u8::make_ascii_uppercase]. *)
Definition to_lower (c : ascii) : ascii :=
  if is_ascii_uppercase c then Ascii.ascii_of_N (Ascii.N_of_ascii c + 32) else c.
Definition to_upper (c : ascii) : ascii :=
  if is_ascii_lowercase c then Ascii.ascii_of_N (Ascii.N_of_ascii c - 32) else c.

(** ** Byte sequences *)

Definition str_len (s : string) : nat := String.length s.
Definition str_is_empty (s : string) : bool :=
  match s with EmptyString => true | _ => false end.
Definition bytes (s : string) : list ascii := String.list_ascii_of_string s.
Definition of_bytes (l : list ascii) : string := String.string_of_list_ascii l.

(** [s.contains(c)]. *)
Fixpoint str_contains (c : ascii) (s : string) : bool :=
  match s with
  | EmptyString => false
  | String d s => ascii_eqb c d || str_contains c s
  end.

(** [s.matches(c).count()]. *)
Fixpoint str_count (c : ascii) (s : string) : nat :=
  match s with
  | EmptyString => 0
  | String d s => (if ascii_eqb c d then 1 else 0) + str_count c s
  end.

(** [s.find(c)], the byte index of the first occurrence. *)
Fixpoint str_find_by (p : ascii → bool) (s : string) : option nat :=
  match s with
  | EmptyString => None
  | String d s => if p d then Some 0 else S <$> str_find_by p s
  end.
Definition str_find (c : ascii) (s : string) : option nat := str_find_by (ascii_eqb c) s.

(** [&s[..n]] and [&s[n..]] at a character boundary. *)
Fixpoint str_take (n : nat) (s : string) : string :=
  match n, s with
  | S n, String c s => String c (str_take n s)
  | _, _ => EmptyString
  end.
Fixpoint str_drop (n : nat) (s : string) : string :=
  match n, s with
  | S n, String _ s => str_drop n s
  | _, _ => s
  end.

(** [s.split_once(c)]: around the first occurrence. *)
Fixpoint split_once (c : ascii) (s : string) : option (string * string) :=
  match s with
  | EmptyString => None
  | String d s =>
      if ascii_eqb c d then Some (EmptyString, s)
      else (fun p => (String d p.1, p.2)) <$> split_once c s
  end.

(** [s.rsplit_once(c)]: around the last occurrence. *)
Fixpoint rsplit_once (c : ascii) (s : string) : option (string * string) :=
  match s with
  | EmptyString => None
  | String d s' =>
      match rsplit_once c s' with
      | Some (a, b) => Some (String d a, b)
      | None => if ascii_eqb c d then Some (EmptyString, s') else None
      end
  end.

(** [s.split(c)]: always at least one piece. *)
Fixpoint str_split (c : ascii) (s : string) : list string :=
  match s with
  | EmptyString => [EmptyString]
  | String d s =>
      if ascii_eqb c d then EmptyString :: str_split c s
      else match str_split c s with
           | p :: ps => String d p :: ps
           | [] => [String d EmptyString]
           end
  end.

(** [parts.join(sep)]. *)
Fixpoint str_join (sep : string) (l : list string) : string :=
  match l with
  | [] => EmptyString
  | [s] => s
  | s :: l => s +:+ sep +:+ str_join sep l
  end.

(** [s.strip_prefix(p)] and [s.starts_with(p)]. *)
Fixpoint strip_prefix (p s : string) : option string :=
  match p, s with
  | EmptyString, _ => Some s
  | String c p, String d s => if ascii_eqb c d then strip_prefix p s else None
  | _, EmptyString => None
  end.
Definition starts_with (p s : string) : bool :=
  match strip_prefix p s with Some _ => true | None => false end.

(** ** [str::trim]

    The characters with the Unicode property White_Space, by their UTF-8
    encodings: U+0009..U+000D, U+0020, U+0085, U+00A0, U+1680, U+2000..U+200A,
    U+2028, U+2029, U+202F, U+205F and U+3000. *)
Definition is_ws1 (a : Z) : bool := (9 <=? a)%Z && (a <=? 13)%Z || (a =? 32)%Z.
Definition is_ws2 (a b : Z) : bool := (a =? 194)%Z && ((b =? 133)%Z || (b =? 160)%Z).
Definition is_ws3 (a b c : Z) : bool :=
  (a =? 225)%Z && (b =? 154)%Z && (c =? 128)%Z
  || (a =? 226)%Z && (b =? 128)%Z &&
       ((128 <=? c)%Z && (c <=? 138)%Z || (c =? 168)%Z || (c =? 169)%Z || (c =? 175)%Z)
  || (a =? 226)%Z && (b =? 129)%Z && (c =? 159)%Z
  || (a =? 227)%Z && (b =? 128)%Z && (c =? 128)%Z.

Fixpoint trim_start_bytes (l : list ascii) : list ascii :=
  match l with
  | [] => []
  | a :: l1 =>
      if is_ws1 (byte_val a) then trim_start_bytes l1
      else match l1 with
           | b :: l2 =>
               if is_ws2 (byte_val a) (byte_val b) then trim_start_bytes l2
               else match l2 with
                    | c :: l3 => if is_ws3 (byte_val a) (byte_val b) (byte_val c)
                                 then trim_start_bytes l3 else l
                    | [] => l
                    end
           | [] => l
           end
  end.

(** Works on the reversed bytes, so a character's last byte comes first. *)
Fixpoint trim_end_rev (l : list ascii) : list ascii :=
  match l with
  | [] => []
  | a :: l1 =>
      if is_ws1 (byte_val a) then trim_end_rev l1
      else match l1 with
           | b :: l2 =>
               if is_ws2 (byte_val b) (byte_val a) then trim_end_rev l2
               else match l2 with
                    | c :: l3 => if is_ws3 (byte_val c) (byte_val b) (byte_val a)
                                 then trim_end_rev l3 else l
                    | [] => l
                    end
           | [] => l
           end
  end.

Definition str_trim (s : string) : string :=
  of_bytes (rev (trim_end_rev (rev (trim_start_bytes (bytes s))))).

(** ** Integers to and from text *)

(** [core::num::IntErrorKind] of a [ParseIntError], with its message. *)
Inductive ParseIntError : Set :=
| IntEmpty | InvalidDigit | PosOverflow | NegOverflow.

Definition parse_int_error_display (e : ParseIntError) : string :=
  match e with
  | IntEmpty => "cannot parse integer from empty string"
  | InvalidDigit => "invalid digit found in string"
  | PosOverflow => "number too large to fit in target type"
  | NegOverflow => "number too small to fit in target type"
  end.

Definition digit_val (c : ascii) : option Z :=
  if is_ascii_digit c then Some (byte_val c - 48)%Z else None.

(** The digit loop of [from_str_radix(_, 10)]: an invalid digit is reported
    before the overflow of the same step; [neg] subtracts instead of adding. *)
Fixpoint parse_digits (neg : bool) (lo hi acc : Z) (s : string) : result ParseIntError Z :=
  match s with
  | EmptyString => Ok acc
  | String c s =>
      match digit_val c with
      | None => Err InvalidDigit
      | Some d =>
          let acc' := if neg then (acc * 10 - d)%Z else (acc * 10 + d)%Z in
          if neg then
            if (acc' <? lo)%Z then Err NegOverflow else parse_digits neg lo hi acc' s
          else
            if (hi <? acc')%Z then Err PosOverflow else parse_digits neg lo hi acc' s
      end
  end.

(** [str::parse] for an integer type with range [lo..=hi]; a leading [+] is
    accepted by every integer type, a leading [-] only by the signed ones. *)
Definition parse_int (signed : bool) (lo hi : Z) (s : string) : result ParseIntError Z :=
  match s with
  | EmptyString => Err IntEmpty
  | String c rest =>
      if ascii_eqb c "+" then
        match rest with
        | EmptyString => Err InvalidDigit
        | _ => parse_digits false lo hi 0 rest
        end
      else if ascii_eqb c "-" then
        match rest with
        | EmptyString => Err InvalidDigit
        | _ => if signed then parse_digits true lo hi 0 rest else Err InvalidDigit
        end
      else parse_digits false lo hi 0 s
  end.

Definition u_max (w : Z) : Z := (2 ^ w - 1)%Z.
Definition i_max (w : Z) : Z := (2 ^ (w - 1) - 1)%Z.
Definition i_min (w : Z) : Z := (- 2 ^ (w - 1))%Z.
Definition parse_u (w : Z) (s : string) : result ParseIntError Z :=
  parse_int false 0 (u_max w) s.
Definition parse_i (w : Z) (s : string) : result ParseIntError Z :=
  parse_int true (i_min w) (i_max w) s.

(** [to_string] of an integer: the digits from the least significant one. *)
Definition dec_digit (d : Z) : ascii := Ascii.ascii_of_N (Z.to_N (48 + d)).
Fixpoint dec_aux (fuel : nat) (n : Z) (acc : string) : string :=
  match fuel with
  | O => acc
  | S fuel =>
      let acc' := String (dec_digit (n mod 10)) acc in
      if (n / 10 =? 0)%Z then acc' else dec_aux fuel (n / 10) acc'
  end.
(** A number of [b] bits has at most [b] digits. *)
Definition dec_nat (n : Z) : string := dec_aux (S (Z.to_nat (Z.log2 n))) n "".
Definition dec (z : Z) : string :=
  if (z <? 0)%Z then "-" +:+ dec_nat (- z) else dec_nat z.

Definition hex_digit (d : Z) : ascii :=
  Ascii.ascii_of_N (Z.to_N (if (d <? 10)%Z then 48 + d else 87 + d)).
Fixpoint hex_aux (fuel : nat) (z : Z) (acc : string) : string :=
  match fuel with
  | O => acc
  | S fuel =>
      let acc' := String (hex_digit (z mod 16)) acc in
      if (z / 16 =? 0)%Z then acc' else hex_aux fuel (z / 16) acc'
  end.
(** [{:x}] of a [u16]. *)
Definition hex_u16 (z : Z) : string := hex_aux 4 z "".

(** ** UTF-8 *)

(** The length of the character a sequence starts with, and whether it is
    well-formed; of an ill-formed one, the bytes [Utf8Chunks] passes over. *)
Definition continuation (c : ascii) : bool :=
  (128 <=? byte_val c)%Z && (byte_val c <=? 191)%Z.
Definition second_of_three (a b : Z) : bool :=
  ((a =? 224) && (160 <=? b) && (b <=? 191)
   || (225 <=? a) && (a <=? 236) && (128 <=? b) && (b <=? 191)
   || (a =? 237) && (128 <=? b) && (b <=? 159)
   || (238 <=? a) && (a <=? 239) && (128 <=? b) && (b <=? 191))%Z.
Definition second_of_four (a b : Z) : bool :=
  ((a =? 240) && (144 <=? b) && (b <=? 191)
   || (241 <=? a) && (a <=? 243) && (128 <=? b) && (b <=? 191)
   || (a =? 244) && (128 <=? b) && (b <=? 143))%Z.

(** The number of continuation bytes at the head of [l], at most [n]. *)
Fixpoint continuations (n : nat) (l : list ascii) : nat :=
  match n, l with
  | S n, c :: l => if continuation c then S (continuations n l) else 0
  | _, _ => 0
  end.

Definition utf8_char (l : list ascii) : nat * bool :=
  match l with
  | [] => (0, true)
  | c :: rest =>
      let a := byte_val c in
      let second (p : Z → Z → bool) := match rest with
                                       | d :: _ => p a (byte_val d)
                                       | [] => false
                                       end in
      if (a <? 128)%Z then (1, true)
      else if (194 <=? a)%Z && (a <=? 223)%Z then
        match continuations 1 rest with 1 => (2, true) | _ => (1, false) end
      else if (224 <=? a)%Z && (a <=? 239)%Z then
        if second second_of_three then
          match continuations 2 rest with 2 => (3, true) | n => (1 + n, false) end
        else (1, false)
      else if (240 <=? a)%Z && (a <=? 244)%Z then
        if second second_of_four then
          match continuations 3 rest with 3 => (4, true) | n => (1 + n, false) end
        else (1, false)
      else (1, false)
  end.

(** U+FFFD. *)
Definition replacement_character : list ascii :=
  [Ascii.ascii_of_nat 239; Ascii.ascii_of_nat 191; Ascii.ascii_of_nat 189].

(** [String::from_utf8_lossy]; every step consumes a byte, so the length is
    enough fuel. *)
Fixpoint utf8_lossy_aux (fuel : nat) (l : list ascii) : list ascii :=
  match fuel, l with
  | S fuel, _ :: _ =>
      let '(n, valid) := utf8_char l in
      (if valid then take n l else replacement_character) ++ utf8_lossy_aux fuel (drop n l)
  | _, _ => []
  end.
Definition from_utf8_lossy (l : list ascii) : list ascii := utf8_lossy_aux (length l) l.

(** Valid UTF-8, the invariant of [str]. *)
Fixpoint utf8_valid_aux (fuel : nat) (l : list ascii) : bool :=
  match fuel, l with
  | _, [] => true
  | O, _ => false
  | S fuel, _ => let '(n, valid) := utf8_char l in valid && utf8_valid_aux fuel (drop n l)
  end.
Definition utf8_valid (l : list ascii) : bool := utf8_valid_aux (length l) l.

Lemma utf8_lossy_valid l : utf8_valid l = true → from_utf8_lossy l = l.
Proof.
  unfold utf8_valid, from_utf8_lossy. generalize (length l) as fuel. intros fuel.
  revert l. induction fuel as [|fuel IH]; intros [|c l]; try done.
  cbn [utf8_valid_aux utf8_lossy_aux].
  destruct (utf8_char (c :: l)) as [n valid]. intros [-> H]%andb_true_iff.
  by rewrite IH, take_drop.
Qed.

(** ** [{:?}] of a [str]

    How a character outside ASCII is shown depends on the Unicode tables of the
    standard library, which are a parameter. *)
Class UnicodeLib := { char_escape_debug : list ascii → string }.

Definition ascii_escape_debug (c : ascii) : string :=
  let v := byte_val c in
  if (v =? 0)%Z then "\0" else if (v =? 9)%Z then "\t" else if (v =? 10)%Z then "\n"
  else if (v =? 13)%Z then "\r"
  else if (v =? 34)%Z then "\" +:+ String c ""
  else if (v =? 92)%Z then "\\"
  else if (32 <=? v)%Z && (v <=? 126)%Z then String c ""
  else "\u{" +:+ hex_u16 v +:+ "}".

Fixpoint escape_debug_aux `{UnicodeLib} (fuel : nat) (l : list ascii) : string :=
  match fuel, l with
  | S fuel, c :: rest =>
      if is_ascii_byte c then ascii_escape_debug c +:+ escape_debug_aux fuel rest
      else let n := (utf8_char l).1 in
           char_escape_debug (take n l) +:+ escape_debug_aux fuel (drop n l)
  | _, _ => ""
  end.
Definition double_quote : string := String (Ascii.ascii_of_nat 34) "".
Definition str_debug `{UnicodeLib} (s : string) : string :=
  double_quote +:+ escape_debug_aux (str_len s) (bytes s) +:+ double_quote.

(** ** Printing and parsing are inverse *)

Section dec_lemmas.
Local Open Scope Z_scope.

Lemma dec_digit_val d : 0 <= d < 10 → digit_val (dec_digit d) = Some d.
Proof.
  intros H. unfold digit_val, dec_digit, is_ascii_digit, byte_val.
  rewrite Ascii.N_ascii_embedding by lia.
  rewrite Z2N.id by lia. rewrite !(proj2 (Z.leb_le _ _)) by lia. simpl. f_equal. lia.
Qed.

Lemma dec_fuel n : 0 <= n → n < 10 ^ Z.of_nat (S (Z.to_nat (Z.log2 n))).
Proof.
  intros H. rewrite Nat2Z.inj_succ, Z2Nat.id by apply Z.log2_nonneg.
  destruct (decide (n = 0)) as [->|]; [done|].
  pose proof (Z.log2_spec n ltac:(lia)) as [_ Hlt]. eapply Z.lt_le_trans; [exact Hlt|].
  apply Z.pow_le_mono_l. pose proof (Z.log2_nonneg n). lia.
Qed.

(** Parsing consumes the printed digits and continues with the rest. *)
Lemma parse_digits_dec_aux lo hi fuel n acc :
  0 <= n <= hi → n < 10 ^ Z.of_nat fuel → fuel ≠ 0%nat →
  parse_digits false lo hi 0 (dec_aux fuel n acc) = parse_digits false lo hi n acc.
Proof.
  revert n acc. induction fuel as [|fuel IH]; intros n acc Hn Hlt Hf; [done|].
  cbn [dec_aux]. pose proof (Z.mod_pos_bound n 10 ltac:(lia)) as Hm.
  pose proof (Z.div_mod n 10 ltac:(lia)) as Hd.
  assert (∀ a, a * 10 + n mod 10 = n →
    parse_digits false lo hi a (String (dec_digit (n mod 10)) acc)
    = parse_digits false lo hi n acc) as Hone.
  { intros a Ha. cbn [parse_digits]. rewrite dec_digit_val by done.
    cbv zeta. rewrite Ha. by rewrite (proj2 (Z.ltb_ge _ _)) by lia. }
  destruct (Z.eqb_spec (n / 10) 0) as [E|E]; [apply Hone; lia|].
  assert (0 <= n / 10) by (apply Z.div_pos; lia).
  destruct fuel as [|fuel].
  { exfalso. rewrite Z.pow_1_r in Hlt. apply E, Z.div_small. lia. }
  rewrite IH; [apply Hone; lia|nia| |done].
  apply Z.div_lt_upper_bound; [lia|].
  rewrite <-Z.pow_succ_r by lia. by rewrite <-Nat2Z.inj_succ.
Qed.

Lemma dec_aux_head fuel n acc :
  0 <= n → fuel ≠ 0%nat → ∃ d s, 0 <= d < 10 ∧ dec_aux fuel n acc = String (dec_digit d) s.
Proof.
  revert n acc. induction fuel as [|fuel IH]; intros n acc Hn Hf; [done|]. cbn [dec_aux].
  pose proof (Z.mod_pos_bound n 10 ltac:(lia)).
  destruct (Z.eqb_spec (n / 10) 0); [eauto|].
  destruct fuel as [|fuel]; [eauto|]. apply IH; [apply Z.div_pos; lia|done].
Qed.

Lemma dec_digit_not_sign d :
  0 <= d < 10 → ascii_eqb (dec_digit d) "+" = false ∧ ascii_eqb (dec_digit d) "-" = false.
Proof.
  intros H.
  assert (d = 0 ∨ d = 1 ∨ d = 2 ∨ d = 3 ∨ d = 4 ∨ d = 5 ∨ d = 6 ∨ d = 7 ∨ d = 8 ∨ d = 9)
    as Hd by lia.
  by repeat (destruct Hd as [->|Hd]; [done|]); subst.
Qed.

(** Every value of an unsigned type is printed and parsed back. *)
Lemma parse_u_dec w n : 0 <= n <= u_max w → parse_u w (dec n) = Ok n.
Proof.
  intros Hn. unfold dec. rewrite (proj2 (Z.ltb_ge _ _)) by lia. unfold dec_nat, parse_u.
  destruct (dec_aux_head (S (Z.to_nat (Z.log2 n))) n "") as (d & s & Hd & E); [lia|done|].
  destruct (dec_digit_not_sign d Hd) as [E1 E2].
  unfold parse_int. rewrite E, E1, E2, <-E.
  rewrite parse_digits_dec_aux; [done|done|apply dec_fuel; lia|done].
Qed.
End dec_lemmas.

(** ** Splitting what was joined *)

Lemma str_contains_app c a b : str_contains c (a +:+ b) = str_contains c a || str_contains c b.
Proof. induction a as [|d a IH]; [done|]. simpl. by rewrite IH, orb_assoc. Qed.

Lemma rsplit_once_none c s : str_contains c s = false → rsplit_once c s = None.
Proof.
  induction s as [|d s IH]; [done|]. simpl. intros [E H]%orb_false_iff. by rewrite IH, E.
Qed.

Lemma rsplit_once_app c a b :
  str_contains c b = false → rsplit_once c (a +:+ String c b) = Some (a, b).
Proof.
  intros Hb. induction a as [|d a IH]; simpl.
  - rewrite (rsplit_once_none _ _ Hb). unfold ascii_eqb. by rewrite Ascii.eqb_refl.
  - change (String.append a (String c b)) with (a +:+ String c b). by rewrite IH.
Qed.

Lemma split_once_app c a b :
  str_contains c a = false → split_once c (a +:+ String c b) = Some (a, b).
Proof.
  induction a as [|d a IH]; simpl.
  - intros _. unfold ascii_eqb. by rewrite Ascii.eqb_refl.
  - intros [E H]%orb_false_iff. rewrite E.
    change (String.append a (String c b)) with (a +:+ String c b). by rewrite IH.
Qed.

Lemma split_once_none c s : str_contains c s = false → split_once c s = None.
Proof. induction s as [|d s IH]; [done|]. simpl. intros [-> H]%orb_false_iff. by rewrite IH. Qed.

(** ** Concatenation, prefixes and suffixes *)

Lemma str_len_cons c s : str_len (String c s) = S (str_len s).
Proof. done. Qed.

Lemma str_app_assoc p f r : p +:+ f +:+ r = (p +:+ f) +:+ r.
Proof. induction p as [|c p IH]; [done|]. exact (f_equal (String c) IH). Qed.

Lemma str_len_app p s : str_len (p +:+ s) = (str_len p + str_len s)%nat.
Proof. induction p as [|c p IH]; [done|]. exact (f_equal S IH). Qed.

Lemma str_take_app p s : str_take (str_len p) (p +:+ s) = p.
Proof. induction p as [|c p IH]; [by destruct s|]. cbn in *. by f_equal. Qed.

Lemma str_drop_app p s : str_drop (str_len p) (p +:+ s) = s.
Proof. induction p as [|c p IH]; [by destruct s|]. exact IH. Qed.

Lemma str_len_take b s : (str_len (str_take b s) <= b)%nat.
Proof.
  revert s. induction b as [|b IH]; intros [|c s]; cbn [str_take]; rewrite ?str_len_cons;
  try (change (str_len "") with 0%nat); try lia. specialize (IH s). lia.
Qed.

Lemma str_len_drop a s : str_len (str_drop a s) = (str_len s - a)%nat.
Proof. revert s. induction a as [|a IH]; intros [|c s]; try done. apply IH. Qed.

Lemma length_bytes s : length (bytes s) = str_len s.
Proof. induction s as [|c s IH]; [done|]. exact (f_equal S IH). Qed.

Lemma bytes_drop n s : bytes (str_drop n s) = drop n (bytes s).
Proof. revert s. induction n as [|n IH]; intros [|c s]; try done. apply IH. Qed.

Lemma str_take_all s : str_take (str_len s) s = s.
Proof. induction s as [|c s IH]; [done|]. exact (f_equal (String c) IH). Qed.

Lemma bytes_app a b : bytes (a +:+ b) = bytes a ++ bytes b.
Proof. induction a as [|c a IH]; [done|]. exact (f_equal (cons c) IH). Qed.

Lemma str_app_nil s : s +:+ "" = s.
Proof. induction s as [|c s IH]; [done|]. exact (f_equal (String c) IH). Qed.

(** ** Splitting and joining texts

    Lemmas on [str_split], [str_join] and [split_once] that several components share. *)

(** ** [str_split] and [str_join] *)

Lemma str_split_parts c s : Forall (fun part => str_contains c part = false) (str_split c s).
Proof.
  induction s as [|d s IH]; cbn [str_split]; [by repeat constructor|].
  destruct (ascii_eqb c d) eqn:E; [by constructor|].
  destruct (str_split c s) as [|p ps]; inversion IH; constructor; try done; cbn; by rewrite E.
Qed.

Lemma str_split_plain c s : str_contains c s = false → str_split c s = [s].
Proof.
  induction s as [|d s IH]; [done|]. cbn. destruct (ascii_eqb c d) eqn:E; [done|]. intros H. by rewrite IH.
Qed.

Lemma str_split_app c a b : str_contains c a = false → str_split c (a +:+ String c b) = a :: str_split c b.
Proof.
  induction a as [|d a IH]; intros H.
  - change (str_split c (String c b) = "" :: str_split c b). cbn [str_split]. unfold ascii_eqb. by rewrite Ascii.eqb_refl.
  - change (str_split c (String d (a +:+ String c b)) = String d a :: str_split c b). cbn in H |- *.
    destruct (ascii_eqb c d) eqn:E; [done|]. by rewrite IH.
Qed.

Lemma str_split_join (c : ascii) l : l ≠ [] → Forall (fun part => str_contains c part = false) l →
  str_split c (str_join (String c "") l) = l.
Proof.
  intros Hne H. induction H as [|a l Ha Hl IH]; [done|]. destruct l as [|b l]; [by apply str_split_plain|].
  change (str_join (String c "") (a :: b :: l)) with (a +:+ String c (str_join (String c "") (b :: l))).
  by rewrite str_split_app, IH.
Qed.

Lemma str_split_without c d s : str_contains d s = false → Forall (fun part => str_contains d part = false) (str_split c s).
Proof.
  induction s as [|e s IH]; cbn; [by repeat constructor|]. destruct (ascii_eqb d e) eqn:E; [done|]. intros Hs.
  destruct (ascii_eqb c e); [by constructor; [|apply IH]|].
  destruct (str_split c s) as [|p ps]; [by repeat constructor; cbn; rewrite E|].
  destruct (Forall_cons_1 _ _ _ (IH Hs)). constructor; [cbn; by rewrite E|done].
Qed.

Lemma str_join_without d sep l : str_contains d sep = false → Forall (fun s => str_contains d s = false) l →
  str_contains d (str_join sep l) = false.
Proof.
  intros Hs Hl. induction Hl as [|a l Ha Hl IH]; [done|]. destruct l as [|b l]; [done|].
  change (str_join sep (a :: b :: l)) with (a +:+ sep +:+ str_join sep (b :: l)).
  rewrite !str_contains_app, Ha, Hs, IH. done.
Qed.

(** ** [split_once] *)

Lemma split_once_before c s a b : split_once c s = Some (a, b) → str_contains c a = false.
Proof.
  revert a. induction s as [|d s IH]; intros a; [done|]. cbn. destruct (ascii_eqb c d) eqn:E; [by intros [= <- _]|].
  destruct (split_once c s) as [[a' b']|]; [|done]. intros [= <- <-]. cbn. rewrite E. by apply IH.
Qed.

Lemma split_once_absent c s : split_once c s = None → str_contains c s = false.
Proof.
  induction s as [|d s IH]; [done|]. cbn. destruct (ascii_eqb c d) eqn:E; [done|].
  destruct (split_once c s) as [[a' b']|]; [done|]. auto.
Qed.

Lemma split_once_join c s a b : split_once c s = Some (a, b) → s = a +:+ String c b.
Proof.
  revert a. induction s as [|d s IH]; intros a; [done|]. cbn. destruct (ascii_eqb c d) eqn:E.
  - apply Ascii.eqb_eq in E as <-. by intros [= <- <-].
  - destruct (split_once c s) as [[a' b']|]; [|done]. intros [= <- <-]. by rewrite (IH a').
Qed.
