(* ===== verification/Wire.v ===== *)
(** * Foundations of the client API: [wire.rs] and [error.rs] of ployz-pkg-api

    [GoSlice] and [GoMap] are Rust collections that remember whether the Go
    value they stand for was [nil]; [ApiError] is the crate's error type. *)

From S2P Require Import Prelude.

(** ** [ApiError]

    The dynamic errors of [Cancelled] and [Operational] are kept as the text
    their [Display] renders, the only thing the crate takes from them. *)
Inductive ApiError : Set :=
| NotFound
| Invalid (message : string)
| Cancelled (error : string)
| Operational (error : string).

#[export] Instance ApiError_eq_dec : EqDecision ApiError.
Proof. solve_decision. Defined.

(** [impl Display for ApiError]. *)
Definition api_error_display (e : ApiError) : string :=
  match e with
  | NotFound => "not found"
  | Invalid message => message
  | Cancelled error | Operational error => error
  end.

(** [ApiError::invalid] as an early return. *)
Definition invalid {A} (message : string) : result ApiError A := Err (Invalid message).

(** [.map_err(|error| ApiError::invalid(format!("{prefix}{error}")))]. *)
Definition with_context {A} (prefix : string) (r : result ApiError A) : result ApiError A :=
  map_err (fun e => Invalid (prefix +:+ api_error_display e)) r.

(** ** [GoSlice] *)
Record GoSlice (T : Type) := mk_slice { slice_nil : bool; slice_values : list T }.
Arguments mk_slice {T} _ _.
Arguments slice_nil {T} _.
Arguments slice_values {T} _.

#[export] Instance GoSlice_eq_dec {T} `{EqDecision T} : EqDecision (GoSlice T).
Proof. solve_decision. Defined.

Definition slice_default {T} : GoSlice T := mk_slice true [].
Definition slice_is_nil {T} (s : GoSlice T) : bool := slice_nil s.
Definition slice_is_empty {T} (s : GoSlice T) : bool :=
  match slice_values s with [] => true | _ => false end.
Definition slice_make_non_nil {T} (s : GoSlice T) : GoSlice T :=
  mk_slice false (slice_values s).
(** [DerefMut]: any mutable access clears the [nil] mark, whatever it does to
    the elements. *)
Definition slice_deref_mut {T} (f : list T → list T) (s : GoSlice T) : GoSlice T :=
  mk_slice false (f (slice_values s)).
Definition slice_from_vec {T} (l : list T) : GoSlice T := mk_slice false l.
Definition slice_from_iter {T} (l : list T) : GoSlice T := mk_slice false l.

(** The JSON value of a slice: [None] is [null]. *)
Definition slice_serialize {T} (s : GoSlice T) : option (list T) :=
  if slice_nil s then None else Some (slice_values s).
Definition slice_deserialize {T} (j : option (list T)) : GoSlice T :=
  match j with Some values => mk_slice false values | None => slice_default end.

(** ** [GoMap], always keyed by [String] *)
Record GoMap (V : Type) := mk_map { map_nil : bool; map_values : gmap string V }.
Arguments mk_map {V} _ _.
Arguments map_nil {V} _.
Arguments map_values {V} _.

#[export] Instance GoMap_eq_dec {V} `{EqDecision V} : EqDecision (GoMap V).
Proof. solve_decision. Defined.

Definition map_default {V} : GoMap V := mk_map true ∅.
Definition map_is_nil {V} (m : GoMap V) : bool := map_nil m.
Definition map_is_empty {V} (m : GoMap V) : bool := bool_decide (map_values m = ∅).
Definition map_make_non_nil {V} (m : GoMap V) : GoMap V := mk_map false (map_values m).
Definition map_deref_mut {V} (f : gmap string V → gmap string V) (m : GoMap V) : GoMap V :=
  mk_map false (f (map_values m)).
Definition map_from_btree {V} (m : gmap string V) : GoMap V := mk_map false m.
Definition map_get {V} (m : GoMap V) (k : string) : option V := map_values m !! k.

Definition map_serialize {V} (m : GoMap V) : option (gmap string V) :=
  if map_nil m then None else Some (map_values m).
Definition map_deserialize {V} (j : option (gmap string V)) : GoMap V :=
  match j with Some values => mk_map false values | None => map_default end.

(** ** The representation invariant: a [nil] value has no elements *)
Definition slice_wf {T} (s : GoSlice T) : Prop := slice_nil s = true → slice_values s = [].
Definition map_wf {V} (m : GoMap V) : Prop := map_nil m = true → map_values m = ∅.

Lemma slice_default_wf {T} : slice_wf (@slice_default T).
Proof. done. Qed.
Lemma slice_deserialize_wf {T} (j : option (list T)) : slice_wf (slice_deserialize j).
Proof. by destruct j. Qed.
Lemma slice_deref_mut_wf {T} f (s : GoSlice T) : slice_wf (slice_deref_mut f s).
Proof. done. Qed.
Lemma map_deserialize_wf {V} (j : option (gmap string V)) : map_wf (map_deserialize j).
Proof. by destruct j. Qed.

(** Two well-formed slices that agree after [make_non_nil] differ at most in
    the [nil] mark. *)
Lemma slice_make_non_nil_eq {T} (s t : GoSlice T) :
  slice_make_non_nil s = slice_make_non_nil t ↔ slice_values s = slice_values t.
Proof. destruct s, t; unfold slice_make_non_nil; naive_solver. Qed.
Lemma map_make_non_nil_eq {V} (s t : GoMap V) :
  map_make_non_nil s = map_make_non_nil t ↔ map_values s = map_values t.
Proof. destruct s, t; unfold map_make_non_nil; naive_solver. Qed.
