(* ===== verification/Volume.v ===== *)
(** * Volume specifications: [volume.rs] of ployz-pkg-api

    The data of volume specs, mounts and existing Docker volumes, defaulting,
    validation, the equivalence of two specs and the test whether a spec can
    mount an existing volume. *)

From S2P Require Import Prelude BTree RustStr Wire.

Definition VOLUME_TYPE_BIND : string := "bind".
Definition VOLUME_TYPE_VOLUME : string := "volume".
Definition VOLUME_TYPE_TMPFS : string := "tmpfs".
Definition VOLUME_DRIVER_LOCAL : string := "local".

(** The values of [serde_json::Value], which the program stores but never
    looks into. *)
Class JsonLib := { JsonValue : Set }.

Record Driver := mk_Driver {
  driver_name : string;
  driver_options : GoMap string
}.

Record BindOptions := mk_BindOptions {
  bind_host_path : string;
  bind_create_host_path : bool;
  bind_propagation : string;
  bind_recursive : string
}.

Record TmpfsOptions := mk_TmpfsOptions {
  tmpfs_size_bytes : Z;
  tmpfs_mode : Z;
  tmpfs_opts : GoSlice (GoSlice string)
}.

Record VolumeOptions := mk_VolumeOptions {
  vo_driver : option Driver;
  vo_labels : GoMap string;
  vo_name : string;
  vo_no_copy : bool;
  vo_sub_path : string
}.

Record VolumeSpec := mk_VolumeSpec {
  vs_name : string;
  vs_kind : string;
  vs_bind_options : option BindOptions;
  vs_tmpfs_options : option TmpfsOptions;
  vs_volume_options : option VolumeOptions
}.

Record VolumeMount := mk_VolumeMount {
  vm_volume_name : string;
  vm_container_path : string;
  vm_read_only : bool
}.

#[export] Instance Driver_eq_dec : EqDecision Driver.
Proof. solve_decision. Defined.
#[export] Instance BindOptions_eq_dec : EqDecision BindOptions.
Proof. solve_decision. Defined.
#[export] Instance TmpfsOptions_eq_dec : EqDecision TmpfsOptions.
Proof. solve_decision. Defined.
#[export] Instance VolumeOptions_eq_dec : EqDecision VolumeOptions.
Proof. solve_decision. Defined.
#[export] Instance VolumeSpec_eq_dec : EqDecision VolumeSpec.
Proof. solve_decision. Defined.
#[export] Instance VolumeMount_eq_dec : EqDecision VolumeMount.
Proof. solve_decision. Defined.

(** [VolumeOptions::default()]. *)
Definition VolumeOptions_default : VolumeOptions :=
  mk_VolumeOptions None map_default "" false "".

(** [VolumeSpec::docker_volume_name]. *)
Definition docker_volume_name (self : VolumeSpec) : string :=
  if bool_decide (vs_kind self ≠ VOLUME_TYPE_VOLUME) then ""
  else match vs_volume_options self with
       | Some options => if str_is_empty (vo_name options) then vs_name self
                         else vo_name options
       | None => vs_name self
       end.

(** The driver part of [VolumeSpec::with_defaults]. *)
Definition driver_with_defaults (d : Driver) : Driver :=
  if str_is_empty (driver_name d) then mk_Driver VOLUME_DRIVER_LOCAL (driver_options d)
  else d.

(** [VolumeSpec::with_defaults]. *)
Definition volume_with_defaults (self : VolumeSpec) : VolumeSpec :=
  if bool_decide (vs_kind self = VOLUME_TYPE_VOLUME) then
    let options := default VolumeOptions_default (vs_volume_options self) in
    let name := if str_is_empty (vo_name options) then vs_name self else vo_name options in
    mk_VolumeSpec (vs_name self) (vs_kind self) (vs_bind_options self)
      (vs_tmpfs_options self)
      (Some (mk_VolumeOptions (driver_with_defaults <$> vo_driver options)
               (vo_labels options) name (vo_no_copy options) (vo_sub_path options)))
  else self.

(** [VolumeSpec::validate]. *)
Definition volume_validate (self : VolumeSpec) : result ApiError () :=
  if str_is_empty (vs_name self) then invalid "volume name must not be empty"
  else if bool_decide (vs_kind self = VOLUME_TYPE_BIND)
          && bool_decide (vs_bind_options self = None)
  then invalid "bind volume must have bind options"
  else if bool_decide (vs_kind self = VOLUME_TYPE_BIND)
          || bool_decide (vs_kind self = VOLUME_TYPE_VOLUME)
          || bool_decide (vs_kind self = VOLUME_TYPE_TMPFS)
  then Ok ()
  else invalid ("invalid volume type: '" +:+ vs_kind self +:+
                "', must be one of 'bind', 'volume', 'tmpfs')").

(** [VolumeSpec::equate_empty_collections]. *)
Definition volume_equate_empty_collections (self : VolumeSpec) : VolumeSpec :=
  let tmpfs := (fun o => mk_TmpfsOptions (tmpfs_size_bytes o) (tmpfs_mode o)
                  (slice_deref_mut (map slice_make_non_nil)
                     (slice_make_non_nil (tmpfs_opts o)))) <$> vs_tmpfs_options self in
  let options := (fun o => mk_VolumeOptions
                    ((fun d => mk_Driver (driver_name d)
                                 (map_make_non_nil (driver_options d))) <$> vo_driver o)
                    (map_make_non_nil (vo_labels o)) (vo_name o) (vo_no_copy o)
                    (vo_sub_path o)) <$> vs_volume_options self in
  mk_VolumeSpec (vs_name self) (vs_kind self) (vs_bind_options self) tmpfs options.

(** [VolumeSpec::equivalent]. *)
Definition volume_equivalent (self other : VolumeSpec) : bool :=
  let left := volume_equate_empty_collections (volume_with_defaults self) in
  let right := volume_equate_empty_collections (volume_with_defaults other) in
  bool_decide (left = right).

(** [Path::is_absolute] on Unix. *)
Definition path_is_absolute (p : string) : bool := starts_with "/" p.

(** [VolumeMount::validate]. *)
Definition mount_validate (self : VolumeMount) : result ApiError () :=
  if str_is_empty (vm_volume_name self) then invalid "volume name must not be empty"
  else if negb (path_is_absolute (vm_container_path self))
  then invalid ("invalid container path: '" +:+ vm_container_path self +:+
                "', must be an absolute path in the container")
  else Ok ().

(** ** Existing Docker volumes *)

Record DockerVolumeUsageData := mk_DockerVolumeUsageData {
  usage_ref_count : Z;
  usage_size : Z
}.

Record DockerVolume `{JsonLib} := mk_DockerVolume {
  dv_name : string;
  dv_created_at : string;
  dv_driver : string;
  dv_mountpoint : string;
  dv_options : GoMap string;
  dv_labels : GoMap string;
  dv_scope : string;
  dv_status : GoMap JsonValue;
  dv_usage_data : option DockerVolumeUsageData;
  dv_cluster_volume : option JsonValue;
  dv_extra : gmap string JsonValue
}.

Record MachineVolume `{JsonLib} := mk_MachineVolume {
  mv_machine_id : string;
  mv_machine_name : string;
  mv_volume : DockerVolume
}.

Record VolumeFilter := mk_VolumeFilter {
  vf_driver : string;
  vf_labels : gmap string string;
  vf_machines : list string;
  vf_names : list string
}.

(** [volume_options.as_ref().and_then(|options| options.driver.as_ref())]. *)
Definition spec_driver (v : VolumeSpec) : option Driver := vs_volume_options v ≫= vo_driver.

(** [VolumeSpec::matches_docker_volume]. *)
Definition matches_docker_volume `{JsonLib} (self : VolumeSpec) (volume : DockerVolume) : bool :=
  if bool_decide (vs_kind self ≠ VOLUME_TYPE_VOLUME) then false
  else
    let spec := volume_with_defaults self in
    if bool_decide (docker_volume_name spec ≠ dv_name volume) then false
    else match spec_driver spec with
         | None => true
         | Some driver =>
             let volume_driver := if str_is_empty (dv_driver volume)
                                  then VOLUME_DRIVER_LOCAL else dv_driver volume in
             bool_decide (driver_name driver = volume_driver)
             && bool_decide (driver_options driver = dv_options volume)
         end.

(** [MachineVolume::matches_filter]. *)
Definition matches_filter `{JsonLib} (self : MachineVolume) (filter : option VolumeFilter) : bool :=
  match filter with
  | None => true
  | Some f =>
      (bool_decide (vf_names f = []) || bool_decide (dv_name (mv_volume self) ∈ vf_names f))
      && (str_is_empty (vf_driver f) || bool_decide (vf_driver f = dv_driver (mv_volume self)))
      && forallb (fun kv => bool_decide (map_get (dv_labels (mv_volume self)) kv.1 = Some kv.2))
           (btree_iter (vf_labels f))
      && (bool_decide (vf_machines f = [])
          || existsb (fun value => bool_decide (value = mv_machine_id self)
                                   || bool_decide (value = mv_machine_name self))
               (vf_machines f))
  end.

(** ** Defaults *)

Lemma str_is_empty_spec s : str_is_empty s = true ↔ s = "".
Proof. by destruct s. Qed.
Lemma str_is_empty_false s : str_is_empty s = false ↔ s ≠ "".
Proof. by destruct s. Qed.

Lemma driver_with_defaults_named d : driver_name (driver_with_defaults d) ≠ "".
Proof. unfold driver_with_defaults. by destruct (driver_name d) eqn:E; cbn; rewrite ?E. Qed.

Lemma driver_with_defaults_id d : driver_name d ≠ "" → driver_with_defaults d = d.
Proof. intros Hn. unfold driver_with_defaults. by rewrite (proj2 (str_is_empty_false _) Hn). Qed.

Lemma with_defaults_kind v : vs_kind (volume_with_defaults v) = vs_kind v.
Proof. unfold volume_with_defaults. by case_bool_decide. Qed.

Lemma with_defaults_name v : vs_name (volume_with_defaults v) = vs_name v.
Proof. unfold volume_with_defaults. by case_bool_decide. Qed.

Lemma docker_name_with_defaults v : docker_volume_name (volume_with_defaults v) = docker_volume_name v.
Proof.
  unfold docker_volume_name. rewrite with_defaults_kind. case_bool_decide as Hk; [done|].
  unfold volume_with_defaults. rewrite bool_decide_true by done. cbn.
  destruct (vs_volume_options v) as [o|]; cbn.
  - destruct (str_is_empty (vo_name o)) eqn:E; cbn; [|by rewrite E].
    by destruct (str_is_empty (vs_name v)).
  - by destruct (str_is_empty (vs_name v)).
Qed.

Lemma with_defaults_driver v :
  vs_kind v = VOLUME_TYPE_VOLUME →
  spec_driver (volume_with_defaults v) = driver_with_defaults <$> spec_driver v.
Proof.
  intros Hk. unfold volume_with_defaults, spec_driver. rewrite bool_decide_true by done. cbn.
  by destruct (vs_volume_options v).
Qed.

Lemma with_defaults_idemp v : volume_with_defaults (volume_with_defaults v) = volume_with_defaults v.
Proof.
  unfold volume_with_defaults at 1. rewrite with_defaults_kind. case_bool_decide as Hk; [|done].
  unfold volume_with_defaults. rewrite bool_decide_true by done. cbn.
  set (o := default _ _). f_equal. f_equal. f_equal.
  - destruct (vo_driver o) as [d|]; [|done]. cbn. f_equal.
    apply driver_with_defaults_id, driver_with_defaults_named.
  - destruct (str_is_empty (vo_name o)) eqn:E; [|by rewrite E].
    by destruct (str_is_empty (vs_name v)).
Qed.

(** ** Equivalence *)

Definition volume_normal (v : VolumeSpec) : VolumeSpec :=
  volume_equate_empty_collections (volume_with_defaults v).

Lemma volume_equivalent_spec v w : volume_equivalent v w = true ↔ volume_normal v = volume_normal w.
Proof. unfold volume_equivalent. cbn zeta. by rewrite bool_decide_eq_true. Qed.

(** A driver as the API sends it: named, and with an options object. *)
Definition canonical_driver (v : VolumeSpec) : Prop :=
  match spec_driver v with
  | Some d => driver_name d ≠ "" ∧ map_nil (driver_options d) = false
  | None => True
  end.

Lemma equivalent_drivers v w :
  vs_kind v = VOLUME_TYPE_VOLUME → vs_kind w = VOLUME_TYPE_VOLUME →
  volume_equivalent v w = true → canonical_driver v → canonical_driver w →
  spec_driver v = spec_driver w.
Proof.
  intros Hkv Hkw Heq%volume_equivalent_spec Hv Hw.
  apply (f_equal spec_driver) in Heq.
  assert (∀ u, spec_driver (volume_normal u) = (fun d => mk_Driver (driver_name d)
    (map_make_non_nil (driver_options d))) <$> spec_driver (volume_with_defaults u)) as Hn.
  { intros u. unfold spec_driver, volume_normal, volume_equate_empty_collections. cbn.
    by destruct (vs_volume_options (volume_with_defaults u)). }
  rewrite !Hn, !with_defaults_driver in Heq by done.
  unfold canonical_driver in *.
  destruct (spec_driver v) as [d1|], (spec_driver w) as [d2|]; cbn in Heq; [|done..].
  destruct Hv as [Hv1 Hv2], Hw as [Hw1 Hw2].
  rewrite !driver_with_defaults_id in Heq by done. simplify_eq.
  destruct d1 as [n1 [b1 m1]], d2 as [n2 [b2 m2]]; cbn in *. by subst.
Qed.
