(* ===== verification/NetAddr.v ===== *)
(** * IP addresses of the Rust standard library: [std::net]

    [IpAddr] with its numeric value, its byte representation, its [Display]
    and its [FromStr].  A value of [V4] is a [u32], of [V6] a [u128]. *)

From Stdlib Require Export Strings.Byte.
From S2P Require Import Prelude RustStr.
Open Scope Z_scope.

Inductive IpAddr : Set :=
| V4 (a : Z)
| V6 (a : Z).

#[export] Instance IpAddr_eq_dec : EqDecision IpAddr.
Proof. solve_decision. Defined.

#[export] Instance byte_eq_decision : EqDecision byte := Byte.byte_eq_dec.

Definition ip_wf (a : IpAddr) : Prop :=
  match a with V4 v => 0 <= v < 2 ^ 32 | V6 v => 0 <= v < 2 ^ 128 end.

Definition is_ipv4 (a : IpAddr) : bool := match a with V4 _ => true | V6 _ => false end.
Definition is_ipv6 (a : IpAddr) : bool := match a with V4 _ => false | V6 _ => true end.

(** ** Octets, big endian *)

Definition u8 (b : byte) : Z := Z.of_N (Byte.to_N b).
Definition byte_of (z : Z) : byte :=
  match Byte.of_N (Z.to_N (z mod 256)) with Some b => b | None => Byte.x00 end.

Fixpoint be_octets (n : nat) (z : Z) : list byte :=
  match n with
  | O => []
  | S n => byte_of (Z.shiftr z (8 * Z.of_nat n)) :: be_octets n z
  end.
Definition be_value (l : list byte) : Z := fold_left (fun acc b => acc * 256 + u8 b) l 0.

(** [octets()]. *)
Definition octets (a : IpAddr) : list byte :=
  match a with V4 v => be_octets 4 v | V6 v => be_octets 16 v end.

(** ** [Display] *)

Definition ipv4_display (v : Z) : string :=
  str_join "." (map (fun b => dec (u8 b)) (be_octets 4 v)).

(** [Ipv6Addr::segments]. *)
Definition segments (v : Z) : list Z :=
  map (fun i => Z.shiftr v (16 * i) mod 65536) [7; 6; 5; 4; 3; 2; 1; 0].

(** The longest run of zero segments, the first of the longest: its start and
    its length. *)
Fixpoint zero_run (i cur_start cur_len best_start best_len : nat) (l : list Z) : nat * nat :=
  match l with
  | [] => (best_start, best_len)
  | s :: l =>
      if s =? 0 then
        let cs := if (cur_len =? 0)%nat then i else cur_start in
        let cl := S cur_len in
        if (best_len <? cl)%nat then zero_run (S i) cs cl cs cl l
        else zero_run (S i) cs cl best_start best_len l
      else zero_run (S i) 0 0 best_start best_len l
  end.

Definition fmt_subslice (l : list Z) : string := str_join ":" (map hex_u16 l).

Definition ipv6_display (v : Z) : string :=
  if Z.shiftr v 32 =? 65535 then "::ffff:" +:+ ipv4_display (v mod 2 ^ 32)
  else
    let segs := segments v in
    let '(start, len) := zero_run 0 0 0 0 0 segs in
    if (1 <? len)%nat
    then fmt_subslice (take start segs) +:+ "::" +:+ fmt_subslice (drop (start + len) segs)
    else fmt_subslice segs.

Definition ip_display (a : IpAddr) : string :=
  match a with V4 v => ipv4_display v | V6 v => ipv6_display v end.

(** ** [FromStr] *)

Inductive AddrParseError : Set := ParseIp | ParseIpv6.
Definition addr_parse_error_display (e : AddrParseError) : string :=
  match e with
  | ParseIp => "invalid IP address syntax"
  | ParseIpv6 => "invalid IPv6 address syntax"
  end.

(** [char::to_digit(radix)] for radix 10 and 16. *)
Definition to_digit (radix : Z) (c : ascii) : option Z :=
  let v := byte_val c in
  let d := if is_ascii_digit c then v - 48
           else if is_af c then v - 87
           else if (65 <=? v) && (v <=? 70) then v - 55 else 255 in
  if d <? radix then Some d else None.

Fixpoint read_digits (radix : Z) (max : nat) (s : string) (acc : Z) (count : nat) :
    option (Z * nat * string) :=
  match s with
  | EmptyString => Some (acc, count, s)
  | String c s' =>
      match to_digit radix c with
      | Some d => if (max <? S count)%nat then None
                  else read_digits radix max s' (acc * radix + d) (S count)
      | None => Some (acc, count, s)
      end
  end.

(** [Parser::read_number] for a type whose greatest value is [hi]. *)
Definition read_number (radix : Z) (max : nat) (zero_prefix : bool) (hi : Z) (s : string) :
    option (Z * string) :=
  match read_digits radix max s 0 0 with
  | None => None
  | Some (v, count, rest) =>
      if (count =? 0)%nat then None
      else if negb zero_prefix && starts_with "0" s && (1 <? count)%nat then None
      else if hi <? v then None else Some (v, rest)
  end.

Definition read_given_char (c : ascii) (s : string) : option string :=
  match s with
  | EmptyString => None
  | String d s => if ascii_eqb c d then Some s else None
  end.

(** [Parser::read_separator]: the separator precedes every item but the first. *)
Definition read_separator {A} (c : ascii) (first : bool) (inner : string → option (A * string))
    (s : string) : option (A * string) :=
  if first then inner s else read_given_char c s ≫= inner.

Fixpoint read_octets (n : nat) (first : bool) (acc : Z) (s : string) : option (Z * string) :=
  match n with
  | O => Some (acc, s)
  | S n =>
      '(v, rest) ← read_separator "." first (read_number 10 3 false 255) s;
      read_octets n false (acc * 256 + v) rest
  end.
Definition read_ipv4 (s : string) : option (Z * string) := read_octets 4 true 0 s.

(** [read_groups]: the groups read (at most [left]), whether the last two came
    from an embedded IPv4 address, and the rest. *)
Fixpoint read_groups (left : nat) (first : bool) (s : string) : list Z * bool * string :=
  match left with
  | O => ([], false, s)
  | S left' =>
      let embedded := if (0 <? left')%nat then read_separator ":" first read_ipv4 s else None in
      match embedded with
      | Some (a, rest) => ([a / 65536; a mod 65536], true, rest)
      | None =>
          match read_separator ":" first (read_number 16 4 true 65535) s with
          | Some (g, rest) =>
              let '(gs, v4, rest') := read_groups left' false rest in (g :: gs, v4, rest')
          | None => ([], false, s)
          end
      end
  end.

Definition groups_value (l : list Z) : Z := fold_left (fun acc g => acc * 65536 + g) l 0.

Definition read_ipv6 (s : string) : option (Z * string) :=
  let '(head, head_v4, rest) := read_groups 8 true s in
  if (length head =? 8)%nat then Some (groups_value head, rest)
  else if head_v4 then None
  else
    rest ← read_given_char ":" rest;
    rest ← read_given_char ":" rest;
    let limit := (8 - (length head + 1))%nat in
    let '(tail, _, rest) := read_groups limit true rest in
    Some (groups_value (head ++ replicate (8 - length head - length tail) 0 ++ tail), rest).

Definition ip_from_str (s : string) : result AddrParseError IpAddr :=
  match read_ipv4 s with
  | Some (v, rest) => if str_is_empty rest then Ok (V4 v) else Err ParseIp
  | None =>
      match read_ipv6 s with
      | Some (v, rest) => if str_is_empty rest then Ok (V6 v) else Err ParseIp
      | None => Err ParseIp
      end
  end.

Definition ipv6_from_str (s : string) : result AddrParseError Z :=
  match read_ipv6 s with
  | Some (v, rest) => if str_is_empty rest then Ok v else Err ParseIpv6
  | None => Err ParseIpv6
  end.

(** ** Octets and values *)

Lemma u8_bound b : 0 <= u8 b < 256.
Proof. unfold u8. pose proof (Byte.to_N_bounded b). lia. Qed.

Lemma u8_byte_of z : u8 (byte_of z) = z mod 256.
Proof.
  unfold u8, byte_of. pose proof (Z.mod_pos_bound z 256 ltac:(lia)).
  destruct (Byte.of_N _) as [b|] eqn:E.
  - apply Byte.to_of_N in E. rewrite E. lia.
  - apply Byte.of_N_None_iff in E. lia.
Qed.

Lemma byte_of_u8 b : byte_of (u8 b) = b.
Proof.
  unfold byte_of, u8. pose proof (Byte.to_N_bounded b).
  rewrite Z.mod_small, N2Z.id by lia. by rewrite Byte.of_to_N.
Qed.

Lemma length_be_octets n z : length (be_octets n z) = n.
Proof. induction n; simpl; auto. Qed.

Lemma be_value_app l r : be_value (l ++ r) = fold_left (fun acc b => acc * 256 + u8 b) r (be_value l).
Proof. apply fold_left_app. Qed.

Lemma be_fold_shift l acc :
  fold_left (fun acc b => acc * 256 + u8 b) l acc = acc * 256 ^ Z.of_nat (length l) + be_value l.
Proof.
  unfold be_value. revert acc. induction l as [|b l IH]; intros acc; cbn [fold_left length].
  - rewrite Z.pow_0_r. lia.
  - rewrite IH, (IH (0 * 256 + u8 b)), Nat2Z.inj_succ, Z.pow_succ_r by lia. ring.
Qed.

Lemma be_value_octets n z : be_value (be_octets n z) = z mod 256 ^ Z.of_nat n.
Proof.
  induction n as [|n IH]; cbn [be_octets].
  - by rewrite Z.pow_0_r, Z.mod_1_r.
  - unfold be_value at 1. cbn [fold_left]. rewrite be_fold_shift, length_be_octets.
    rewrite IH, u8_byte_of, Z.shiftr_div_pow2 by lia.
    replace (2 ^ (8 * Z.of_nat n)) with (256 ^ Z.of_nat n) by (rewrite Z.pow_mul_r by lia; done).
    rewrite Nat2Z.inj_succ, Z.pow_succ_r, (Z.mul_comm 256), Z.rem_mul_r by lia. ring.
Qed.

Lemma be_value_bound l : 0 <= be_value l < 256 ^ Z.of_nat (length l).
Proof.
  induction l as [|b l IH] using rev_ind; [done|].
  rewrite be_value_app, length_app. cbn [fold_left length].
  pose proof (u8_bound b).
  rewrite Nat2Z.inj_add, Z.pow_add_r, Z.pow_1_r by lia. nia.
Qed.

Lemma be_octets_value l n : length l = n → be_octets n (be_value l) = l.
Proof.
  revert n. induction l as [|b l IH] using rev_ind; intros n Hn.
  { simpl in Hn. by subst. }
  rewrite length_app in Hn. cbn in Hn. rewrite be_value_app. cbn [fold_left].
  pose proof (u8_bound b).
  assert (∀ m v, be_octets (m + 1) (v * 256 + u8 b) = be_octets m v ++ [b]) as Hsnoc.
  { intros m v. induction m as [|m IHm]; cbn [be_octets Nat.add app].
    - rewrite Z.shiftr_0_r. f_equal. rewrite <-(byte_of_u8 b) at 2. unfold byte_of.
      by rewrite Z.add_comm, Z.mod_add by lia.
    - rewrite IHm. f_equal. f_equal. rewrite !Z.shiftr_div_pow2 by lia.
      replace (8 * Z.of_nat (m + 1)) with (8 + 8 * Z.of_nat m) by lia.
      rewrite Z.pow_add_r, <-Z.div_div by lia. change (2 ^ 8) with 256.
      by rewrite Z.div_add_l, (Z.div_small (u8 b)), Z.add_0_r by lia. }
  subst n. rewrite Hsnoc, IH; done.
Qed.

(** ** IPv4: display and parse are inverse *)

Lemma read_number_octet b r :
  read_number 10 3 false 255 (dec (u8 b) +:+ "." +:+ r) = Some (u8 b, "." +:+ r).
Proof. by destruct b. Qed.
Lemma read_dot r : read_given_char "." ("." +:+ r) = Some r.
Proof. done. Qed.
Lemma read_number_octet_end b : read_number 10 3 false 255 (dec (u8 b)) = Some (u8 b, "").
Proof. by destruct b. Qed.

Lemma be_octets_4 v : ∃ a b c d, be_octets 4 v = [a; b; c; d].
Proof. cbn. eauto. Qed.

Lemma read_ipv4_display v : 0 <= v < 2 ^ 32 → read_ipv4 (ipv4_display v) = Some (v, "").
Proof.
  intros Hv. pose proof (be_value_octets 4 v) as Hval.
  change (256 ^ Z.of_nat 4) with (2 ^ 32) in Hval. rewrite Z.mod_small in Hval by done.
  unfold ipv4_display. destruct (be_octets_4 v) as (a & b & c & d & E). rewrite E in *.
  unfold be_value in Hval. cbn [fold_left] in Hval. cbn [map str_join].
  unfold read_ipv4. cbn [read_octets read_separator].
  do 3 (rewrite read_number_octet; cbn; rewrite read_dot; cbn).
  rewrite read_number_octet_end. cbn. do 2 f_equal. lia.
Qed.

Lemma ip_from_str_display_v4 v : 0 <= v < 2 ^ 32 → ip_from_str (ip_display (V4 v)) = Ok (V4 v).
Proof. intros Hv. unfold ip_from_str. cbn [ip_display]. by rewrite read_ipv4_display. Qed.
