(* ===== verification/Ipam.v ===== *)
(** * The subnet allocator: [ipam.rs] of ployz-internal-machine-cluster

    [IpPrefix] with its mask arithmetic at machine width, and [Ipam], the
    first-fit allocator of machine subnets in one cluster network. *)

From S2P Require Import Prelude RustStr NetAddr.
Open Scope Z_scope.

Record IpPrefix := mk_IpPrefix { address : IpAddr; bits : Z }.

#[export] Instance IpPrefix_eq_dec : EqDecision IpPrefix.
Proof. solve_decision. Defined.

Inductive IpPrefixError : Set :=
| InvalidNetwork
| InvalidSubnetSize
| SubnetNotInNetwork
| SubnetOverlap
| NoAvailableSubnet
| InvalidPrefix
| AllocatedSubnet (subnet : IpPrefix) (source : IpPrefixError).

Definition DEFAULT_SUBNET_BITS : Z := 24.
Definition DEFAULT_NETWORK : IpPrefix :=
  mk_IpPrefix (V4 (10 * 2 ^ 24 + 210 * 2 ^ 16)) 16.

(** ** Address arithmetic *)

Definition bit_len (address : IpAddr) : Z :=
  match address with V4 _ => 32 | V6 _ => 128 end.

Definition same_family (left right : IpAddr) : bool :=
  match left, right with V4 _, V4 _ | V6 _, V6 _ => true | _, _ => false end.

Definition address_mask (address : IpAddr) : Z :=
  match address with V4 _ => 2 ^ 32 - 1 | V6 _ => 2 ^ 128 - 1 end.

(** [u32::MAX << (32 - bits)] keeps the low 32 bits, likewise for [u128]. *)
Definition prefix_mask (address : IpAddr) (bits : Z) : Z :=
  match address with
  | V4 _ => if bits =? 0 then 0 else Z.shiftl (2 ^ 32 - 1) (32 - bits) mod 2 ^ 32
  | V6 _ => if bits =? 0 then 0 else Z.shiftl (2 ^ 128 - 1) (128 - bits) mod 2 ^ 128
  end.

Definition to_u128 (address : IpAddr) : Z :=
  match address with V4 a => a | V6 a => a end.

(** [from_u128]: [u32::try_from] panics when the value needs more than 32 bits. *)
Definition from_u128 {E} (family : IpAddr) (value : Z) : result E IpAddr :=
  match family with
  | V4 _ => if value <? 2 ^ 32 then Ok (V4 value)
            else Panic "IPv4 arithmetic stays within 32 bits"
  | V6 _ => Ok (V6 value)
  end.

Definition network_value (prefix : IpPrefix) : Z :=
  Z.land (to_u128 (address prefix)) (prefix_mask (address prefix) (bits prefix)).

(** ** [IpPrefix] *)

Definition prefix_new (addr : IpAddr) (b : Z) : result IpPrefixError IpPrefix :=
  if bit_len addr <? b then Err InvalidPrefix else Ok (mk_IpPrefix addr b).

Definition masked {E} (self : IpPrefix) : result E IpPrefix :=
  a ← from_u128 (address self) (network_value self);
  Ok (mk_IpPrefix a (bits self)).

Definition contains (self : IpPrefix) (addr : IpAddr) : bool :=
  same_family (address self) addr
  && (Z.land (to_u128 addr) (prefix_mask (address self) (bits self)) =? network_value self).

(** [!mask] on [u128]. *)
Definition not_u128 (z : Z) : Z := 2 ^ 128 - 1 - z.

Definition last_address {E} (self : IpPrefix) : result E IpAddr :=
  let host_mask := Z.land (not_u128 (prefix_mask (address self) (bits self)))
                     (address_mask (address self)) in
  from_u128 (address self) (Z.lor (network_value self) host_mask).

(** [overlaps]: Rust's [&&] binds tighter than [||] and both are lazy. *)
Definition overlaps {E} (self other : IpPrefix) : result E bool :=
  (if same_family (address self) (address other)
   then m ← masked other; Ok (contains self (address m)) else Ok false) ≫= fun left : bool =>
  if left then Ok true
  else if same_family (address self) (address other)
       then m ← masked self; Ok (contains other (address m)) else Ok false.

(** [iter().any(|used| used.overlaps(subnet))]. *)
Fixpoint any_overlaps {E} (allocated : list IpPrefix) (subnet : IpPrefix) : result E bool :=
  match allocated with
  | [] => Ok false
  | used :: rest => overlaps used subnet ≫= fun b : bool =>
                    if b then Ok true else any_overlaps rest subnet
  end.

(** [impl Display for IpPrefix]. *)
Definition prefix_display (p : IpPrefix) : string :=
  ip_display (address p) +:+ "/" +:+ dec (bits p).

(** [impl Display for IpPrefixError]. *)
Fixpoint prefix_error_display (e : IpPrefixError) : string :=
  match e with
  | InvalidNetwork => "invalid network"
  | InvalidSubnetSize => "invalid subnet size"
  | SubnetNotInNetwork => "subnet not in network"
  | SubnetOverlap => "subnet overlaps with allocated subnets"
  | NoAvailableSubnet => "no available subnet"
  | InvalidPrefix => "invalid prefix"
  | AllocatedSubnet subnet source =>
      "allocate subnet " +:+ prefix_display subnet +:+ ": " +:+ prefix_error_display source
  end.

(** [impl FromStr for IpPrefix]. *)
Definition prefix_from_str (value : string) : result IpPrefixError IpPrefix :=
  match rsplit_once "/" value with
  | None => Err InvalidPrefix
  | Some (addr, b) =>
      if str_is_empty b
         || negb (forallb is_ascii_digit (RustStr.bytes b))
         || ((1 <? str_len b)%nat && starts_with "0" b)
      then Err InvalidPrefix
      else
        a ← map_err (fun _ => InvalidPrefix) (ip_from_str addr);
        n ← map_err (fun _ => InvalidPrefix) (parse_u 8 b);
        prefix_new a n
  end.

(** ** [Ipam] *)

Record Ipam := mk_Ipam { network : IpPrefix; allocated : list IpPrefix }.

Definition ipam_new (net : IpPrefix) : result IpPrefixError Ipam :=
  if bits net =? 0 then Err InvalidNetwork
  else m ← masked net; Ok (mk_Ipam m []).

(** [allocate_subnet(&mut self, subnet)]: the state is returned, unchanged when
    the call fails. *)
Definition allocate_subnet (self : Ipam) (subnet : IpPrefix) : result IpPrefixError Ipam :=
  (if contains (network self) (address subnet)
   then last ← last_address subnet;
        if contains (network self) last then Ok () else Err SubnetNotInNetwork
   else Err SubnetNotInNetwork) ≫= fun _ =>
  any_overlaps (allocated self) subnet ≫= fun used : bool =>
  if used then Err SubnetOverlap
  else Ok (mk_Ipam (network self) (allocated self ++ [subnet])).

(** [with_allocated]. *)
Definition with_allocated (net : IpPrefix) (subnets : list IpPrefix) : result IpPrefixError Ipam :=
  allocator ← ipam_new net;
  foldM (fun allocator subnet =>
           map_err (AllocatedSubnet subnet) (allocate_subnet allocator subnet))
    allocator subnets.

(** The [while] loop of [allocate_subnet_len].  [None] means that the fuel ran
    out before the loop ended. *)
Fixpoint alloc_loop (fuel : nat) (self : Ipam) (b : Z) (addr : IpAddr) :
    option (result IpPrefixError IpPrefix) :=
  match fuel with
  | O => None
  | S fuel =>
      if contains (network self) addr then
        let subnet := mk_IpPrefix addr b in
        match any_overlaps (allocated self) subnet with
        | Err e => Some (Err e)
        | Panic m => Some (Panic m)
        | Ok false => Some (Ok subnet)
        | Ok true =>
            match last_address subnet with
            | Err e => Some (Err e)
            | Panic m => Some (Panic m)
            | Ok last =>
                let next := to_u128 last + 1 in
                if (next <? 2 ^ 128) && (next <=? address_mask addr) then
                  match from_u128 addr next with
                  | Ok addr' => alloc_loop fuel self b addr'
                  | Err e => Some (Err e)
                  | Panic m => Some (Panic m)
                  end
                else Some (Err NoAvailableSubnet)
            end
        end
      else Some (Err NoAvailableSubnet)
  end.

(** One more iteration than the network has subnets of length [b]. *)
Definition alloc_fuel (self : Ipam) (b : Z) : nat :=
  S (Z.to_nat (2 ^ (b - bits (network self)))).

(** [allocate_subnet_len(&mut self, bits)]: the subnet and the new state. *)
Definition allocate_subnet_len (self : Ipam) (b : Z) : result IpPrefixError (IpPrefix * Ipam) :=
  if (b <? bits (network self)) || (bit_len (address (network self)) <? b)
  then Err InvalidSubnetSize
  else match alloc_loop (alloc_fuel self b) self b (address (network self)) with
       | Some (Ok subnet) => Ok (subnet, mk_Ipam (network self) (allocated self ++ [subnet]))
       | Some (Err e) => Err e
       | Some (Panic m) => Panic m
       | None => Panic "fuel"
       end.

(** ** What a prefix denotes: an aligned block of addresses *)

Definition prefix_wf (p : IpPrefix) : Prop :=
  ip_wf (address p) ∧ 0 <= bits p <= bit_len (address p).
Definition block_size (p : IpPrefix) : Z := 2 ^ (bit_len (address p) - bits p).
Definition block_start (p : IpPrefix) : Z :=
  to_u128 (address p) / block_size p * block_size p.
Definition block_end (p : IpPrefix) : Z := block_start p + block_size p.

(** [in_block p a]: [a] is one of the addresses of the block [p]. *)
Definition in_block (p : IpPrefix) (a : IpAddr) : Prop :=
  same_family (address p) a = true ∧ block_start p <= to_u128 a < block_end p.

(** Two prefixes share no address. *)
Definition disjoint_blocks (p q : IpPrefix) : Prop :=
  ∀ a, ip_wf a → in_block p a → in_block q a → False.

Lemma ip_wf_bound a : ip_wf a → 0 <= to_u128 a < 2 ^ bit_len a.
Proof. by destruct a. Qed.

Lemma bit_len_cases a : bit_len a = 32 ∨ bit_len a = 128.
Proof. destruct a; simpl; auto. Qed.

Lemma same_family_bit_len a b : same_family a b = true → bit_len a = bit_len b.
Proof. by destruct a, b. Qed.

Lemma same_family_sym a b : same_family a b = same_family b a.
Proof. by destruct a, b. Qed.

Lemma same_family_trans a b c :
  same_family a b = true → same_family b c = true → same_family a c = true.
Proof. by destruct a, b, c. Qed.

Lemma land_high_mask W k a :
  0 <= k <= W → 0 <= a < 2 ^ W →
  Z.land a (Z.shiftl (2 ^ W - 1) k mod 2 ^ W) = a / 2 ^ k * 2 ^ k.
Proof.
  intros Hk Ha. rewrite <-Z.shiftr_div_pow2, <-Z.shiftl_mul_pow2 by lia.
  replace (2 ^ W - 1) with (Z.ones W) by (rewrite Z.ones_equiv; lia).
  apply Z.bits_inj'. intros i Hi.
  rewrite Z.land_spec, Z.testbit_mod_pow2, !Z.shiftl_spec by lia.
  destruct (decide (i < k)) as [Hlt|Hge].
  { rewrite !(Z.testbit_neg_r _ (i - k)) by lia. by rewrite !andb_false_r. }
  rewrite Z.shiftr_spec by lia. replace (i - k + k) with i by lia.
  destruct (decide (i < W)) as [HiW|HiW].
  - rewrite Z.testbit_ones_nonneg by lia.
    rewrite (proj2 (Z.ltb_lt i W)), (proj2 (Z.ltb_lt (i - k) W)) by lia.
    by rewrite !andb_true_r.
  - assert (Z.testbit a i = false) as ->; [|done].
    destruct (decide (a = 0)) as [->|]; [apply Z.bits_0|].
    apply Z.bits_above_log2; [lia|].
    apply Z.lt_le_trans with W; [|lia]. apply Z.log2_lt_pow2; lia.
Qed.

Lemma prefix_mask_land ad b a :
  0 <= b <= bit_len ad → 0 <= a < 2 ^ bit_len ad →
  Z.land a (prefix_mask ad b) = a / 2 ^ (bit_len ad - b) * 2 ^ (bit_len ad - b).
Proof.
  intros Hb Ha. destruct ad; cbn [prefix_mask bit_len] in *.
  all: destruct (Z.eqb_spec b 0) as [->|]; [|apply land_high_mask; lia].
  all: rewrite Z.land_0_r, Z.div_small by lia; done.
Qed.

Lemma prefix_mask_value ad b :
  0 <= b <= bit_len ad → prefix_mask ad b = 2 ^ bit_len ad - 2 ^ (bit_len ad - b).
Proof.
  intros Hb.
  assert (∀ W, 0 < W → 0 < b <= W →
    Z.shiftl (2 ^ W - 1) (W - b) mod 2 ^ W = 2 ^ W - 2 ^ (W - b)) as Hgen.
  { intros W HW HbW. rewrite Z.shiftl_mul_pow2 by lia.
    assert (2 ^ W = 2 ^ (W - b) * 2 ^ b) as E by (rewrite <-Z.pow_add_r; [f_equal; lia|lia..]).
    assert (0 < 2 ^ (W - b)) by (apply Z.pow_pos_nonneg; lia).
    assert (2 ^ 1 <= 2 ^ b) by (apply Z.pow_le_mono_r; lia).
    symmetry. apply Z.mod_unique with (2 ^ (W - b) - 1); [left; nia|nia]. }
  destruct ad; cbn [prefix_mask bit_len] in *.
  all: destruct (Z.eqb_spec b 0) as [->|]; [by rewrite Z.sub_0_r, Z.sub_diag|].
  all: apply Hgen; lia.
Qed.

Section blocks.
Variable p : IpPrefix.
Hypothesis Hp : prefix_wf p.
Let W := bit_len (address p).
Let k := W - bits p.

Lemma block_size_pos : 0 < block_size p.
Proof. destruct Hp. apply Z.pow_pos_nonneg; lia. Qed.

Lemma block_size_mul : 2 ^ W = block_size p * 2 ^ bits p.
Proof. destruct Hp. unfold block_size. rewrite <-Z.pow_add_r; [f_equal; lia|lia..]. Qed.

Lemma network_value_start : network_value p = block_start p.
Proof.
  destruct Hp as [Hip Hb]. apply prefix_mask_land; [done|]. by apply ip_wf_bound.
Qed.

Lemma block_start_le : 0 <= block_start p <= to_u128 (address p).
Proof.
  pose proof block_size_pos. destruct Hp as [Hip _]. apply ip_wf_bound in Hip.
  unfold block_start.
  pose proof (Z.div_mod (to_u128 (address p)) (block_size p)).
  pose proof (Z.mod_pos_bound (to_u128 (address p)) (block_size p)).
  pose proof (Z.div_pos (to_u128 (address p)) (block_size p)). nia.
Qed.

Lemma block_end_le : block_end p <= 2 ^ W.
Proof.
  pose proof block_size_pos as Hpos. pose proof block_size_mul as E.
  destruct Hp as [Hip _]. apply ip_wf_bound in Hip. fold W in Hip.
  assert (to_u128 (address p) / block_size p < 2 ^ bits p).
  { apply Z.div_lt_upper_bound; lia. }
  unfold block_end, block_start. nia.
Qed.

Lemma in_block_self : in_block p (address p).
Proof.
  pose proof block_size_pos as Hpos. pose proof block_start_le. split.
  - by destruct (address p).
  - unfold block_end, block_start in *.
    pose proof (Z.div_mod (to_u128 (address p)) (block_size p)).
    pose proof (Z.mod_pos_bound (to_u128 (address p)) (block_size p)). nia.
Qed.

Lemma contains_in_block a : ip_wf a → contains p a = true ↔ in_block p a.
Proof.
  intros Ha. unfold contains, in_block.
  rewrite andb_true_iff, Z.eqb_eq, network_value_start.
  destruct (same_family (address p) a) eqn:Hf; [|naive_solver].
  apply same_family_bit_len in Hf. apply ip_wf_bound in Ha.
  pose proof block_size_pos as Hpos. destruct Hp as [Hip Hb].
  rewrite prefix_mask_land; [|done|by rewrite Hf]. fold (block_size p).
  unfold block_end, block_start.
  set (x := to_u128 a) in *. set (y := to_u128 (address p)) in *.
  set (s := block_size p) in *.
  pose proof (Z.div_mod x s). pose proof (Z.mod_pos_bound x s).
  split; [intros [_ E]; split; [done|nia]|].
  intros [_ E]. split; [done|].
  assert (x / s = y / s) as ->; [|done].
  symmetry. apply (Z.div_unique_pos _ _ _ (x - y / s * s)); nia.
Qed.

(** [masked] clears the host bits and never panics. *)
Lemma masked_spec {E} :
  ∃ m, @masked E p = Ok m ∧ prefix_wf m ∧ to_u128 (address m) = block_start p ∧
       same_family (address p) (address m) = true ∧ bits m = bits p.
Proof.
  pose proof network_value_start as Hn. pose proof block_start_le as Hs.
  unfold masked. rewrite Hn. destruct Hp as [Hip Hb].
  destruct p as [[v|v] b]; cbn in *.
  - rewrite (proj2 (Z.ltb_lt _ _)) by lia. cbn.
    eexists; unfold prefix_wf; split_and!; try done; cbn in *; lia.
  - eexists; unfold prefix_wf; split_and!; try done; cbn in *; lia.
Qed.

(** [last_address] is the last address of the block and never panics. *)
Lemma last_address_spec {E} :
  ∃ l, @last_address E p = Ok l ∧ ip_wf l ∧ to_u128 l = block_end p - 1 ∧
       same_family (address p) l = true.
Proof.
  pose proof block_size_pos as Hpos. pose proof block_end_le as He.
  pose proof block_start_le as Hs. pose proof block_size_mul as Hm.
  assert (Z.land (not_u128 (prefix_mask (address p) (bits p))) (address_mask (address p))
          = block_size p - 1) as Hmask.
  { destruct Hp as [Hip Hb]. rewrite prefix_mask_value by done. fold (block_size p).
    assert (block_size p <= 2 ^ W) by (pose proof (Z.pow_pos_nonneg 2 (bits p)); nia).
    unfold not_u128. subst W. destruct (address p); cbn [address_mask bit_len] in *.
    - change (2 ^ 32 - 1) with (Z.ones 32). rewrite Z.land_ones by lia.
      symmetry. apply Z.mod_unique with (2 ^ 96 - 1); lia.
    - change (2 ^ 128 - 1) with (Z.ones 128). rewrite Z.land_ones by lia.
      rewrite Z.mod_small; rewrite ?Z.ones_equiv; lia. }
  unfold last_address. rewrite Hmask, network_value_start.
  assert (Z.lor (block_start p) (block_size p - 1) = block_end p - 1) as ->.
  { unfold block_end, block_start. change (block_size p) with (2 ^ k).
    assert (0 <= k) by (destruct Hp as [_ Hb]; unfold k, W; lia).
    replace (2 ^ k - 1) with (Z.ones k) by (rewrite Z.ones_equiv; lia).
    set (q := to_u128 (address p) / 2 ^ k).
    assert (Z.land (q * 2 ^ k) (Z.ones k) = 0) as Hz.
    { rewrite Z.land_ones by lia. apply Z.mod_mul. lia. }
    rewrite <-Z.lxor_lor, <-Z.add_nocarry_lxor by done. rewrite Z.ones_equiv. lia. }
  unfold W in *. unfold block_end in *. destruct (address p); cbn [from_u128 bit_len] in *.
  - rewrite (proj2 (Z.ltb_lt _ _)) by lia. eexists; split_and!; try done; cbn; lia.
  - eexists; split_and!; try done; cbn; lia.
Qed.
End blocks.

(** ** Overlap *)

Definition meets (p q : IpPrefix) : Prop := ∃ a, ip_wf a ∧ in_block p a ∧ in_block q a.

Lemma disjoint_not_meets p q : disjoint_blocks p q ↔ ¬ meets p q.
Proof. unfold disjoint_blocks, meets. naive_solver. Qed.

Lemma meets_sym p q : meets p q → meets q p.
Proof. unfold meets. naive_solver. Qed.

Lemma in_block_iff p q :
  same_family (address p) (address q) = true →
  block_start p = block_start q → block_size p = block_size q →
  ∀ a, in_block p a ↔ in_block q a.
Proof.
  intros Hf Hs Hz a. unfold in_block, block_end. rewrite Hs, Hz.
  by destruct (address p), (address q).
Qed.

(** [overlaps] decides whether two blocks share an address. *)
Lemma overlaps_meets {E} p q :
  prefix_wf p → prefix_wf q →
  ∃ b, @overlaps E p q = Ok b ∧ (b = true ↔ meets p q).
Proof.
  intros Hp Hq. unfold overlaps.
  destruct (same_family (address p) (address q)) eqn:Hf; cbn.
  2: { exists false. split; [done|]. split; [done|].
       intros (a & _ & [H1 _] & [H2 _]). exfalso.
       rewrite same_family_sym in H2.
       by rewrite (same_family_trans _ _ _ H1 H2) in Hf. }
  destruct (@masked_spec q Hq E) as (m & -> & [Hmw _] & Hms & Hmf & _). cbn.
  destruct (@masked_spec p Hp E) as (n & -> & [Hnw _] & Hns & Hnf & _). cbn.
  pose proof (block_size_pos p Hp). pose proof (block_size_pos q Hq).
  assert (in_block q (address m)) as Hqm by (split; [done|unfold block_end; lia]).
  assert (in_block p (address n)) as Hpn by (split; [done|unfold block_end; lia]).
  destruct (contains p (address m)) eqn:Hc.
  { exists true. split; [done|]. split; [|done]. intros _. exists (address m).
    split_and!; [done|by apply contains_in_block|done]. }
  exists (contains q (address n)). split; [done|]. split.
  { intros Hc'. exists (address n).
    split_and!; [done|done|by apply contains_in_block]. }
  intros (a & Ha & [Hpf Hpa] & [Hqf Hqa]).
  apply contains_in_block; [done..|]. split.
  { rewrite same_family_sym in Hf. exact (same_family_trans _ _ _ Hf Hnf). }
  destruct (decide (block_start q <= block_start p)); [lia|].
  exfalso. apply not_true_iff_false in Hc. apply Hc.
  apply contains_in_block; [done..|]. split; [|lia].
  exact (same_family_trans _ _ _ Hf Hmf).
Qed.

Lemma any_overlaps_meets {E} l q :
  Forall prefix_wf l → prefix_wf q →
  ∃ b, @any_overlaps E l q = Ok b ∧ (b = true ↔ ∃ u, u ∈ l ∧ meets u q).
Proof.
  intros Hl Hq. induction Hl as [|u l Hu Hl IH]; cbn.
  { exists false. split; [done|]. set_solver. }
  destruct (overlaps_meets (E:=E) u q Hu Hq) as (b & -> & Hb). cbn.
  destruct b; cbn.
  - exists true. split; [done|]. split; [|done]. intros _.
    exists u. split; [set_solver|naive_solver].
  - destruct IH as (b & -> & Hb'). exists b. split; [done|]. rewrite Hb'.
    setoid_rewrite elem_of_cons. split; [naive_solver|].
    intros (u' & [->|Hin] & Hm); [naive_solver|eauto].
Qed.

(** ** The allocator's invariant *)

Definition pairwise_disjoint (l : list IpPrefix) : Prop :=
  ∀ i j p q, i ≠ j → l !! i = Some p → l !! j = Some q → disjoint_blocks p q.

Definition ipam_wf (self : Ipam) : Prop :=
  prefix_wf (network self) ∧ 0 < bits (network self) ∧
  to_u128 (address (network self)) = block_start (network self) ∧
  Forall prefix_wf (allocated self) ∧ pairwise_disjoint (allocated self).

Lemma pairwise_disjoint_snoc l q :
  pairwise_disjoint l → (∀ u, u ∈ l → ¬ meets u q) → pairwise_disjoint (l ++ [q]).
Proof.
  intros Hl Hq i j p r Hij Hi Hj.
  apply lookup_app_Some in Hi as [Hi|[Hi Hi']]; apply lookup_app_Some in Hj as [Hj|[Hj Hj']].
  - by eapply Hl.
  - apply list_lookup_singleton_Some in Hj' as [? <-].
    apply disjoint_not_meets, Hq. by eapply list_elem_of_lookup_2.
  - apply list_lookup_singleton_Some in Hi' as [? <-].
    apply disjoint_not_meets. intros Hm%meets_sym. revert Hm. apply Hq.
    by eapply list_elem_of_lookup_2.
  - apply list_lookup_singleton_Some in Hi' as [? <-].
    apply list_lookup_singleton_Some in Hj' as [? <-]. lia.
Qed.

Lemma ipam_wf_snoc self q :
  ipam_wf self → prefix_wf q → (∀ u, u ∈ allocated self → ¬ meets u q) →
  ipam_wf (mk_Ipam (network self) (allocated self ++ [q])).
Proof.
  intros (Hn & Hb & Ha & Hw & Hd) Hq Hm. split_and!; cbn; try done.
  - apply Forall_app_2; [done|]. by apply Forall_singleton.
  - by apply pairwise_disjoint_snoc.
Qed.

Lemma ipam_new_wf net self :
  prefix_wf net → ipam_new net = Ok self → ipam_wf self ∧ allocated self = [].
Proof.
  intros Hn H. unfold ipam_new in H. destruct (Z.eqb_spec (bits net) 0); [done|].
  destruct (masked_spec (E:=IpPrefixError) net Hn) as (m & Hm & Hmw & Hms & Hmf & Hmb).
  rewrite Hm in H. cbn in H. injection H as <-. split; [|done]. split_and!; cbn; try done.
  - destruct Hn as [_ Hnb]. lia.
  - assert (block_size m = block_size net) as E.
    { unfold block_size. rewrite Hmb. by rewrite (same_family_bit_len _ _ Hmf). }
    unfold block_start. rewrite E, Hms. unfold block_start.
    rewrite Z.div_mul; [done|]. pose proof (block_size_pos net Hn). lia.
Qed.

(** [allocate_subnet]: it succeeds exactly when the two ends of the subnet lie in
    the network and no allocated subnet meets it. *)
Lemma allocate_subnet_spec self subnet :
  ipam_wf self → prefix_wf subnet →
  let inside := in_block (network self) (address subnet) ∧
                ∀ l, @last_address IpPrefixError subnet = Ok l → in_block (network self) l in
  let free := ∀ u, u ∈ allocated self → ¬ meets u subnet in
  result_spec (allocate_subnet self subnet)
    (fun self' => inside ∧ free ∧ self' = mk_Ipam (network self) (allocated self ++ [subnet]))
    (fun e => (¬ inside ∧ e = SubnetNotInNetwork) ∨ (inside ∧ ¬ free ∧ e = SubnetOverlap)).
Proof.
  intros (Hn & _ & _ & Hw & _) Hs inside free. unfold allocate_subnet.
  destruct (last_address_spec (E:=IpPrefixError) subnet Hs) as (l & Hl & Hlw & _ & _).
  destruct (any_overlaps_meets (E:=IpPrefixError) _ _ Hw Hs) as (b & Hb & Hbm).
  assert (inside ↔ contains (network self) (address subnet) = true
                   ∧ contains (network self) l = true) as Hin.
  { unfold inside. rewrite Hl, !contains_in_block by (done || by destruct Hs). naive_solver. }
  rewrite Hl, Hb.
  destruct (contains (network self) (address subnet)) eqn:E1; cbn; [|left; naive_solver].
  destruct (contains (network self) l) eqn:E2; cbn; [|left; naive_solver].
  destruct b; cbn.
  - right. split; [naive_solver|]. split; [|done]. unfold free.
    destruct (proj1 Hbm eq_refl) as (u & Hu & Hm). naive_solver.
  - split_and!; [naive_solver| |done]. intros u Hu Hm.
    assert (false = true); [|done]. apply Hbm. eauto.
Qed.

(** ** The first-fit search *)

Definition ip_like (family : IpAddr) (v : Z) : IpAddr :=
  match family with V4 _ => V4 v | V6 _ => V6 v end.

(** The [j]-th block of prefix length [b] in the network, from below. *)
Definition candidate (net : IpPrefix) (b j : Z) : IpPrefix :=
  mk_IpPrefix (ip_like (address net) (block_start net + j * 2 ^ (bit_len (address net) - b))) b.
Definition n_candidates (net : IpPrefix) (b : Z) : Z := 2 ^ (b - bits net).

(** Some allocated subnet meets [q]. *)
Definition occupied (self : Ipam) (q : IpPrefix) : Prop :=
  ∃ u, u ∈ allocated self ∧ meets u q.

Lemma ip_like_family f v : same_family f (ip_like f v) = true.
Proof. by destruct f. Qed.
Lemma ip_like_value f v : to_u128 (ip_like f v) = v.
Proof. by destruct f. Qed.
Lemma ip_like_bit_len f v : bit_len (ip_like f v) = bit_len f.
Proof. by destruct f. Qed.
Lemma ip_like_id f g : same_family f g = true → ip_like f (to_u128 g) = g.
Proof. by destruct f, g. Qed.
Lemma ip_like_ip_like f v w : ip_like (ip_like f v) w = ip_like f w.
Proof. by destruct f. Qed.
Lemma ip_like_wf f v : 0 <= v < 2 ^ bit_len f → ip_wf (ip_like f v).
Proof. by destruct f. Qed.
Lemma from_u128_like {E} f v : 0 <= v < 2 ^ bit_len f → @from_u128 E f v = Ok (ip_like f v).
Proof. destruct f; simpl; intros; [by rewrite (proj2 (Z.ltb_lt _ _)) by lia|done]. Qed.
Lemma address_mask_max f : address_mask f = 2 ^ bit_len f - 1.
Proof. by destruct f. Qed.

Section search.
Variables (self : Ipam) (b : Z).
Hypothesis Hself : ipam_wf self.
Local Notation net := (network self).
Local Notation W := (bit_len (address (network self))).
Hypothesis Hb : bits net <= b <= W.
Local Notation step := (2 ^ (bit_len (address (network self)) - b)).
Local Notation n := (n_candidates (network self) b).

Lemma step_pos : 0 < step.
Proof. apply Z.pow_pos_nonneg; lia. Qed.
Lemma n_pos : 0 < n.
Proof. apply Z.pow_pos_nonneg; lia. Qed.
Lemma net_size : block_size net = n * step.
Proof.
  unfold block_size, n_candidates. rewrite <-Z.pow_add_r by lia. f_equal. lia.
Qed.
Lemma net_bounds : 0 <= block_start net ∧ block_start net + n * step <= 2 ^ W.
Proof.
  destruct Hself as (Hn & _). pose proof (block_start_le _ Hn).
  pose proof (block_end_le _ Hn) as H1. unfold block_end in H1.
  rewrite <-net_size. lia.
Qed.
Lemma net_start_aligned : block_start net mod step = 0.
Proof.
  unfold block_start. rewrite net_size.
  replace (to_u128 (address net) / (n * step) * (n * step))
    with (to_u128 (address net) / (n * step) * n * step) by ring.
  apply Z.mod_mul. pose proof step_pos. lia.
Qed.

Lemma candidate_wf j : 0 <= j < n → prefix_wf (candidate net b j).
Proof.
  intros Hj. pose proof net_bounds. pose proof step_pos.
  destruct Hself as (Hn & Hnb & _). split; cbn; rewrite ?ip_like_bit_len.
  - apply ip_like_wf. nia.
  - lia.
Qed.

Lemma candidate_start j : block_start (candidate net b j) = block_start net + j * step.
Proof.
  pose proof step_pos. pose proof net_start_aligned as Hal.
  unfold block_start at 1, block_size. cbn. rewrite ip_like_bit_len, ip_like_value.
  apply Z.mod_divide in Hal as [q ->]; [|lia].
  replace (q * step + j * step) with ((q + j) * step) by ring.
  rewrite Z.div_mul by lia. ring.
Qed.
Lemma candidate_size j : block_size (candidate net b j) = step.
Proof. unfold block_size. cbn. by rewrite ip_like_bit_len. Qed.

Lemma candidate_contains j :
  0 <= j → block_start net + j * step < 2 ^ W →
  contains net (address (candidate net b j)) = true ↔ j < n.
Proof.
  intros Hj Hlt. pose proof step_pos. pose proof net_bounds. destruct Hself as (Hn & _).
  rewrite contains_in_block; [|done|].
  2: { apply ip_like_wf. nia. }
  unfold in_block, block_end. cbn.
  rewrite ip_like_value, ip_like_family, net_size. split; [intros [_ ?]; nia|nia].
Qed.

(** Every block of length [b] inside the network is a candidate. *)
Lemma candidate_complete q :
  prefix_wf q → bits q = b → in_block net (address q) →
  ∃ j, 0 <= j < n ∧ ∀ a, in_block q a ↔ in_block (candidate net b j) a.
Proof.
  intros Hq Hqb [Hf Hin]. pose proof step_pos as Hsp. pose proof net_start_aligned as Hal.
  apply Z.mod_divide in Hal as [s Hs]; [|lia].
  assert (block_size q = step) as Hsz.
  { unfold block_size. rewrite Hqb. by rewrite <-(same_family_bit_len _ _ Hf). }
  set (v := to_u128 (address q)) in *. unfold block_end in Hin. rewrite net_size in Hin.
  pose proof (Z.div_mod v step ltac:(lia)) as Hd.
  pose proof (Z.mod_pos_bound v step ltac:(lia)).
  exists (v / step - s). split; [nia|].
  apply in_block_iff.
  - cbn. rewrite same_family_sym in Hf. eapply same_family_trans; [exact Hf|].
    apply ip_like_family.
  - rewrite candidate_start. unfold block_start at 1. rewrite Hsz. fold v. nia.
  - by rewrite candidate_size.
Qed.

Lemma alloc_loop_spec fuel i :
  0 <= i <= n → n - i < Z.of_nat fuel → block_start net + i * step < 2 ^ W →
  (∀ j, 0 <= j < i → occupied self (candidate net b j)) →
  (∃ j, i <= j < n ∧
     alloc_loop fuel self b (address (candidate net b i)) = Some (Ok (candidate net b j)) ∧
     ¬ occupied self (candidate net b j) ∧
     ∀ j', 0 <= j' < j → occupied self (candidate net b j')) ∨
  (alloc_loop fuel self b (address (candidate net b i)) = Some (Err NoAvailableSubnet) ∧
   ∀ j, 0 <= j < n → occupied self (candidate net b j)).
Proof.
  destruct Hself as (Hn & _ & _ & Hw & _). pose proof step_pos.
  revert i. induction fuel as [|fuel IH]; intros i Hi Hfuel Hlt Hocc; [lia|]. simpl.
  pose proof (candidate_contains i ltac:(lia) Hlt) as Hc. simpl in Hc.
  destruct (contains net _) eqn:Ec.
  2: { right. split; [done|]. intros j Hj. apply Hocc.
       assert (¬ i < n) by (intros ?; by apply Hc in H0). lia. }
  assert (i < n) as Hin by (by apply Hc). clear Hc Ec.
  pose proof (candidate_wf i ltac:(lia)) as Hcw.
  destruct (any_overlaps_meets (E:=IpPrefixError) _ _ Hw Hcw) as (used & Hu & Hum).
  unfold candidate in Hu. rewrite Hu. destruct used.
  2: { left. exists i. split_and!; [lia..|done| |done].
       intros Ho. by apply Hum in Ho. }
  destruct (last_address_spec (E:=IpPrefixError) _ Hcw) as (l & Hl & Hlw & Hlv & _).
  unfold candidate in Hl. rewrite Hl.
  assert (to_u128 l + 1 = block_start net + (i + 1) * step) as ->.
  { rewrite Hlv. unfold block_end. rewrite candidate_start, candidate_size. ring. }
  assert (∀ j, 0 <= j < i + 1 → occupied self (candidate net b j)) as Hocc'.
  { intros j Hj. destruct (decide (j = i)) as [->|]; [by apply Hum|]. apply Hocc. lia. }
  rewrite address_mask_max, ip_like_bit_len.
  assert (2 ^ W <= 2 ^ 128) by (apply Z.pow_le_mono_r; destruct (bit_len_cases (address net)); lia).
  pose proof net_bounds.
  destruct (Z.ltb_spec (block_start net + (i + 1) * step) (2 ^ 128)); simpl.
  2: { right. split; [done|]. intros j Hj. apply Hocc'. nia. }
  destruct (Z.leb_spec (block_start net + (i + 1) * step) (2 ^ W - 1)); simpl.
  2: { right. split; [done|]. intros j Hj. apply Hocc'. nia. }
  rewrite from_u128_like by (rewrite ip_like_bit_len; nia).
  rewrite ip_like_ip_like.
  destruct (IH (i + 1)) as [(j & Hj & E & Hfree & Hlow)|[E Hall]]; [lia..|done| |].
  - left. exists j. split_and!; [lia..|exact E|done|done].
  - right. split; [exact E|done].
Qed.
End search.

Lemma allocate_subnet_len_spec self b :
  ipam_wf self →
  let net := network self in
  let in_range := bits net <= b <= bit_len (address net) in
  result_spec (allocate_subnet_len self b)
    (fun r => in_range ∧ ∃ j, 0 <= j < n_candidates net b ∧ r.1 = candidate net b j ∧
       r.2 = mk_Ipam net (allocated self ++ [r.1]) ∧
       ¬ occupied self (candidate net b j) ∧
       ∀ j', 0 <= j' < j → occupied self (candidate net b j'))
    (fun e => (¬ in_range ∧ e = InvalidSubnetSize) ∨
       (in_range ∧ e = NoAvailableSubnet ∧
        ∀ j, 0 <= j < n_candidates net b → occupied self (candidate net b j))).
Proof.
  intros Hself net in_range. unfold allocate_subnet_len. subst net.
  destruct (Z.ltb_spec b (bits (network self))); [left; split; [unfold in_range; lia|done]|].
  destruct (Z.ltb_spec (bit_len (address (network self))) b); [left; split; [unfold in_range; lia|done]|].
  cbn [orb]. assert (in_range) as Hr by (unfold in_range; lia).
  pose proof Hself as (Hn & Hnb & Hal & Hrest).
  assert (address (candidate (network self) b 0) = address (network self)) as Ea.
  { cbn. rewrite Z.mul_0_l, Z.add_0_r. rewrite <-Hal. apply ip_like_id.
    by destruct (address (network self)). }
  pose proof (n_pos self b Hr) as Hnp. 
  destruct (alloc_loop_spec self b Hself Hr (alloc_fuel self b) 0)
    as [(j & Hj & E & Hfree & Hlow)|[E Hall]].
  - lia.
  - unfold alloc_fuel, n_candidates in *. rewrite Nat2Z.inj_succ, Z2Nat.id; lia.
  - rewrite Z.mul_0_l, Z.add_0_r. rewrite <-Hal. destruct Hn as [Hip _].
    apply ip_wf_bound in Hip. lia.
  - lia.
  - rewrite Ea in E. rewrite E. cbn. split; [done|]. exists j. split_and!; [lia..|done|done|done|done].
  - rewrite Ea in E. rewrite E. cbn. by right.
Qed.

(** The states an allocator of network [net] goes through. *)
Inductive ipam_reach (net : IpPrefix) : Ipam → Prop :=
| reach_new self : ipam_new net = Ok self → ipam_reach net self
| reach_subnet self subnet self' :
    ipam_reach net self → prefix_wf subnet →
    allocate_subnet self subnet = Ok self' → ipam_reach net self'
| reach_len self b subnet self' :
    ipam_reach net self →
    allocate_subnet_len self b = Ok (subnet, self') → ipam_reach net self'.

Lemma ipam_reach_wf net self : prefix_wf net → ipam_reach net self → ipam_wf self.
Proof.
  intros Hnet. induction 1 as [self H|self s self' _ IH Hs H|self b s self' _ IH H].
  - by apply ipam_new_wf in H as [? _].
  - pose proof (result_spec_ok _ _ _ _ (allocate_subnet_spec self s IH Hs) H) as (_ & Hf & ->).
    by apply ipam_wf_snoc.
  - pose proof (result_spec_ok _ _ _ _ (allocate_subnet_len_spec self b IH) H)
      as (Hr & j & Hj & E1 & E2 & Hf & _). cbn in E1, E2. subst.
    apply ipam_wf_snoc; [done|by apply candidate_wf|].
    intros u Hu Hm. apply Hf. by exists u.
Qed.

Lemma with_allocated_reach_aux net subnets self self' :
  ipam_reach net self → Forall prefix_wf subnets →
  foldM (fun a s => map_err (AllocatedSubnet s) (allocate_subnet a s)) self subnets = Ok self' →
  ipam_reach net self'.
Proof.
  intros Hr Hw. revert self Hr. induction Hw as [|s subnets Hs Hw IH]; intros self Hr H; cbn in H.
  { by simplify_eq. }
  destruct (allocate_subnet self s) as [self1| |] eqn:E; cbn in H; try done.
  apply (IH self1); [|done]. by eapply reach_subnet.
Qed.

Lemma with_allocated_reach net subnets self :
  Forall prefix_wf subnets → with_allocated net subnets = Ok self → ipam_reach net self.
Proof.
  intros Hw H. unfold with_allocated in H.
  destruct (ipam_new net) as [self0| |] eqn:E; cbn in H; try done.
  eapply with_allocated_reach_aux; [by apply reach_new|done|done].
Qed.

Lemma ipam_reach_network net self :
  prefix_wf net → ipam_reach net self →
  bits (network self) = bits net ∧ ∀ a, in_block (network self) a ↔ in_block net a.
Proof.
  intros Hnet. induction 1 as [self H|self s self' Hr IH Hs H|self b s self' Hr IH H].
  - unfold ipam_new in H. destruct (bits net =? 0); [done|].
    destruct (masked_spec (E:=IpPrefixError) net Hnet) as (m & Hm & Hmw & Hms & Hmf & Hmb).
    rewrite Hm in H. cbn in H. injection H as <-. cbn. split; [done|].
    assert (block_size m = block_size net) as E.
    { unfold block_size. by rewrite Hmb, (same_family_bit_len _ _ Hmf). }
    apply in_block_iff; [by rewrite same_family_sym| |done].
    unfold block_start at 1. rewrite E, Hms. unfold block_start.
    rewrite Z.div_mul; [done|]. pose proof (block_size_pos net Hnet). lia.
  - pose proof (ipam_reach_wf _ _ Hnet Hr) as Hw.
    by pose proof (result_spec_ok _ _ _ _ (allocate_subnet_spec self s Hw Hs) H) as (_ & _ & ->).
  - pose proof (ipam_reach_wf _ _ Hnet Hr) as Hw.
    pose proof (result_spec_ok _ _ _ _ (allocate_subnet_len_spec self b Hw) H)
      as (_ & j & _ & _ & E2 & _). cbn in E2. by subst.
Qed.

(** A block meeting the network at both ends and no larger than it lies inside. *)
Lemma subnet_inside net subnet :
  prefix_wf net → prefix_wf subnet → in_block net (address subnet) →
  bits net <= bits subnet → ∀ a, in_block subnet a → in_block net a.
Proof.
  intros Hn Hs [Hf Hin] Hb a [Hfa Ha]. split; [by eapply same_family_trans|].
  pose proof (same_family_bit_len _ _ Hf) as HW.
  pose proof (block_size_pos _ Hn). pose proof (block_size_pos _ Hs) as Hsp.
  assert (block_size net = 2 ^ (bits subnet - bits net) * block_size subnet) as Esz.
  { unfold block_size. rewrite HW. destruct Hs as [_ Hs].
    rewrite <-Z.pow_add_r by lia. f_equal. lia. }
  assert (0 < 2 ^ (bits subnet - bits net)) as Hkp by (apply Z.pow_pos_nonneg; lia).
  unfold block_end, block_start in *. rewrite Esz in *.
  set (k := 2 ^ _) in *. set (z := block_size subnet) in *.
  set (v := to_u128 (address subnet)) in *. set (w := to_u128 (address net)) in *.
  set (x := w / (k * z)) in *.
  pose proof (Z.div_mod v z ltac:(lia)). pose proof (Z.mod_pos_bound v z ltac:(lia)).
  assert (x * k <= v / z < x * k + k) by nia. nia.
Qed.

(** ** Properties *)

(** C8: In every state an allocator reaches from [Ipam::new] through
    [allocate_subnet] and [allocate_subnet_len], no two allocated subnets share an
    address, every one is a valid prefix, and the network still denotes the
    configured block. *)
Theorem ipam_allocations_disjoint net self :
  prefix_wf net → ipam_reach net self →
  pairwise_disjoint (allocated self) ∧ Forall prefix_wf (allocated self) ∧
  (∀ a, in_block (network self) a ↔ in_block net a).
Proof.
  intros Hn Hr. pose proof (ipam_reach_wf _ _ Hn Hr) as (_ & _ & _ & Hw & Hd).
  split_and!; [done..|]. by apply ipam_reach_network.
Qed.

(** The subnet found is the lowest free one. *)
Lemma allocate_len_first_fit net self b p self' :
  prefix_wf net → ipam_reach net self → allocate_subnet_len self b = Ok (p, self') →
  bits p = b ∧ (∀ a, in_block p a → in_block net a) ∧
  (∀ u, u ∈ allocated self → disjoint_blocks u p) ∧
  allocated self' = allocated self ++ [p] ∧
  (∀ q, prefix_wf q → bits q = b → in_block net (address q) →
        (∀ u, u ∈ allocated self → disjoint_blocks u q) → block_start p <= block_start q).
Proof.
  intros Hn Hr H. pose proof (ipam_reach_wf _ _ Hn Hr) as Hw.
  destruct (ipam_reach_network _ _ Hn Hr) as [Hbits Hnet].
  pose proof (result_spec_ok _ _ _ _ (allocate_subnet_len_spec self b Hw) H)
    as (Hrange & j & Hj & Ep & Es & Hfree & Hlow). cbn in Ep, Es. subst.
  pose proof (candidate_wf self b Hw Hrange j Hj) as Hcw.
  assert (∀ q, (∀ u, u ∈ allocated self → disjoint_blocks u q) ↔ ¬ occupied self q) as Hocc.
  { intros q. setoid_rewrite disjoint_not_meets. unfold occupied. naive_solver. }
  split_and!; [done| |by apply Hocc|done|].
  - intros a Ha. apply Hnet. pose proof Hw as (Hnw & _).
    eapply subnet_inside; [done|exact Hcw| |cbn; lia|done].
    apply contains_in_block; [done|by destruct Hcw|].
    apply (candidate_contains self b Hw Hrange j); [lia| |lia].
    pose proof (net_bounds self b Hw Hrange). pose proof (step_pos self b Hrange). nia.
  - intros q Hq Hqb Hqin Hqfree%Hocc. apply Hnet in Hqin.
    destruct (candidate_complete self b Hrange q Hq Hqb Hqin) as (i & Hi & Heq).
    destruct (decide (i < j)) as [Hlt|Hge].
    { exfalso. apply Hqfree. destruct (Hlow i ltac:(lia)) as (u & Hu & a & Ha & Ha1 & Ha2).
      exists u. split; [done|]. exists a. by rewrite Heq. }
    pose proof (in_block_self q Hq) as Hself. pose proof (step_pos self b Hrange).
    rewrite candidate_start by done.
    pose proof (candidate_wf self b Hw Hrange i Hi) as Hciw.
    destruct Hqin as [Hqf _]. pose proof (same_family_bit_len _ _ Hqf) as HW.
    assert (in_block q (ip_like (address q) (block_start q))) as [_ Hst]%Heq.
    { split; [apply ip_like_family|]. rewrite ip_like_value. unfold block_end.
      pose proof (block_size_pos q Hq). lia. }
    rewrite ip_like_value, candidate_start in Hst by done. nia.
Qed.

(** C9. First fit: the subnet [allocate_subnet_len] returns has the requested
    length, lies inside the network, shares no address with an allocated subnet, is
    appended to the allocations, and no free subnet of that length starts lower. *)
Theorem ipam_first_fit net self b p self' :
  prefix_wf net → ipam_reach net self → allocate_subnet_len self b = Ok (p, self') →
  bits p = b ∧ (∀ a, in_block p a → in_block net a) ∧
  (∀ u, u ∈ allocated self → disjoint_blocks u p) ∧
  allocated self' = allocated self ++ [p] ∧
  (∀ q, prefix_wf q → bits q = b → in_block net (address q) →
        (∀ u, u ∈ allocated self → disjoint_blocks u q) → block_start p <= block_start q).
Proof. apply allocate_len_first_fit. Qed.

(** The errors mean what they say. *)
Lemma allocate_len_exhaustion net self b :
  prefix_wf net → ipam_reach net self →
  match allocate_subnet_len self b with
  | Ok _ => bits net <= b <= bit_len (address net)
  | Err InvalidSubnetSize => ¬ (bits net <= b <= bit_len (address net))
  | Err e => e = NoAvailableSubnet ∧ bits net <= b <= bit_len (address net) ∧
      ∀ q, prefix_wf q → bits q = b → in_block net (address q) →
           ∃ u, u ∈ allocated self ∧ ¬ disjoint_blocks u q
  | Panic _ => False
  end.
Proof.
  intros Hn Hr. pose proof (ipam_reach_wf _ _ Hn Hr) as Hw.
  destruct (ipam_reach_network _ _ Hn Hr) as [Hbits Hnet].
  assert (bit_len (address (network self)) = bit_len (address net)) as HW.
  { apply same_family_bit_len. destruct Hw as (Hnw & _).
    pose proof (in_block_self _ Hnw) as Hi. apply Hnet in Hi as [Hf _].
    by rewrite same_family_sym. }
  pose proof (allocate_subnet_len_spec self b Hw) as Hs. cbn zeta in Hs.
  rewrite <-Hbits, <-HW.
  destruct (allocate_subnet_len self b) as [r|e|m]; [exact (proj1 Hs)| |done].
  destruct Hs as [[Hout ->]|(Hin & -> & Hall)]; [done|]. split; [done|]. split; [done|].
  intros q Hq Hqb Hqin%Hnet.
  destruct (candidate_complete self b Hin q Hq Hqb Hqin) as (i & Hi & Heq).
  destruct (Hall i Hi) as (u & Hu & a & Ha & Ha1 & Ha2). exists u. split; [done|].
  intros Hd. apply (Hd a); [done..|]. by apply Heq.
Qed.

(** C10. Completeness of the errors: [allocate_subnet_len] ends without panicking;
    it fails with [InvalidSubnetSize] exactly when the length is outside the
    network's range, and otherwise only with [NoAvailableSubnet], and then every
    subnet of that length inside the network shares an address with an allocated
    one. *)
Theorem ipam_exhaustion_complete net self b :
  prefix_wf net → ipam_reach net self →
  match allocate_subnet_len self b with
  | Ok _ => bits net <= b <= bit_len (address net)
  | Err InvalidSubnetSize => ¬ (bits net <= b <= bit_len (address net))
  | Err e => e = NoAvailableSubnet ∧ bits net <= b <= bit_len (address net) ∧
      ∀ q, prefix_wf q → bits q = b → in_block net (address q) →
           ∃ u, u ∈ allocated self ∧ ¬ disjoint_blocks u q
  | Panic _ => False
  end.
Proof. apply allocate_len_exhaustion. Qed.

(** C27. [allocate_subnet] never panics and accepts a subnet exactly when the
    network contains its address and its last address and no allocated subnet
    shares an address with it; a subnet that is no larger than the network is then
    inside it. *)
Theorem ipam_allocate_subnet_exact net self subnet :
  prefix_wf net → ipam_reach net self → prefix_wf subnet →
  let ends_inside := in_block net (address subnet) ∧
      in_block net (ip_like (address subnet) (block_end subnet - 1)) in
  let free := ∀ u, u ∈ allocated self → disjoint_blocks u subnet in
  match allocate_subnet self subnet with
  | Ok self' => ends_inside ∧ free ∧ allocated self' = allocated self ++ [subnet] ∧
      (bits net <= bits subnet → ∀ a, in_block subnet a → in_block net a)
  | Err SubnetNotInNetwork => ¬ ends_inside
  | Err e => e = SubnetOverlap ∧ ends_inside ∧ ¬ free
  | Panic _ => False
  end.
Proof.
  intros Hn Hr Hs. pose proof (ipam_reach_wf _ _ Hn Hr) as Hw.
  destruct (ipam_reach_network _ _ Hn Hr) as [Hbits Hnet].
  pose proof (allocate_subnet_spec self subnet Hw Hs) as Hspec. cbn zeta in Hspec |- *.
  destruct (last_address_spec (E:=IpPrefixError) subnet Hs) as (l & Hl & _ & Hlv & Hlf).
  assert (l = ip_like (address subnet) (block_end subnet - 1)) as El.
  { rewrite <-Hlv. symmetry. by apply ip_like_id. }
  assert ((∀ u, u ∈ allocated self → disjoint_blocks u subnet) ↔
          (∀ u, u ∈ allocated self → ¬ meets u subnet)) as Hfree.
  { split; intros Hd u Hu; apply disjoint_not_meets, Hd, Hu. }
  rewrite Hl in Hspec. rewrite <-El.
  destruct (allocate_subnet self subnet) as [self'|e|m]; [| |done].
  - destruct Hspec as ([H1 H2] & H3 & ->). rewrite Hfree, <-!Hnet.
    split; [by split; [|apply H2]|]. split; [done|]. split; [done|].
    intros Hb. apply subnet_inside; [done..|by apply Hnet|done].
  - destruct Hspec as [[H1 ->]|([H1 H2] & H3 & ->)]; rewrite ?Hfree, <-!Hnet.
    + intros [H2 H3]. apply H1. naive_solver.
    + split; [done|]. split; [by split; [|apply H2]|done].
Qed.

(** C38. The containment test of [allocate_subnet] looks at two addresses only: a
    block twice the size of the network whose second half is the network is
    accepted, although half of its addresses are outside the network. *)
Theorem ipam_accepts_block_outside_network :
  ∃ net subnet self a,
    prefix_wf net ∧ prefix_wf subnet ∧ with_allocated net [subnet] = Ok self ∧
    ip_wf a ∧ in_block subnet a ∧ ¬ in_block net a.
Proof.
  exists (mk_IpPrefix (V4 181600256) 16), (mk_IpPrefix (V4 181600256) 15),
    (mk_Ipam (mk_IpPrefix (V4 181600256) 16) [mk_IpPrefix (V4 181600256) 15]), (V4 181534720).
  unfold prefix_wf, in_block.
  split_and!; try (by vm_compute). intros [_ [H _]]. by vm_compute in H.
Qed.

Lemma prefix_bits_text b :
  0 <= b < 256 →
  str_is_empty (dec b) = false ∧ forallb is_ascii_digit (RustStr.bytes (dec b)) = true ∧
  (1 <? str_len (dec b))%nat && starts_with "0" (dec b) = false ∧
  str_contains "/" (dec b) = false.
Proof.
  intros Hb. assert (b = u8 (byte_of b)) as -> by (rewrite u8_byte_of, Z.mod_small; lia).
  by destruct (byte_of b).
Qed.

(** Reading back the text of an IPv4 prefix. *)
Lemma prefix_text_v4 p :
  prefix_wf p → is_ipv4 (address p) = true → prefix_from_str (prefix_display p) = Ok p.
Proof.
  destruct p as [[v|v] b]; [|done]. intros [Hv Hb] _. cbn in Hv, Hb.
  unfold prefix_from_str, prefix_display. cbn [address bits].
  destruct (prefix_bits_text b ltac:(lia)) as (E1 & E2 & E3 & E4).
  change ("/" +:+ dec b) with (String "/" (dec b)). rewrite rsplit_once_app by done.
  rewrite E1, E2, E3. cbn [negb orb]. rewrite ip_from_str_display_v4 by done.
  rewrite parse_u_dec by (unfold u_max; lia). cbn. unfold prefix_new.
  by rewrite (proj2 (Z.ltb_ge _ _)) by (cbn; lia).
Qed.

(** C28. Text round trip of the persisted network: for every valid IPv4 prefix,
    host bits included, [from_str] of its [Display] gives the prefix back. *)
Theorem prefix_text_round_trip_v4 p :
  prefix_wf p → is_ipv4 (address p) = true → prefix_from_str (prefix_display p) = Ok p.
Proof. apply prefix_text_v4. Qed.

(** ** Witnesses: the default network, empty and with one /24 taken *)

Lemma default_network_wf : prefix_wf DEFAULT_NETWORK.
Proof. unfold prefix_wf. cbn. lia. Qed.

Lemma default_reach : ipam_reach DEFAULT_NETWORK (mk_Ipam DEFAULT_NETWORK []).
Proof. apply reach_new. by vm_compute. Qed.

Definition first_subnet : IpPrefix := mk_IpPrefix (V4 181534720) 24.

Lemma first_subnet_reach :
  ipam_reach DEFAULT_NETWORK (mk_Ipam DEFAULT_NETWORK [first_subnet]).
Proof. eapply (reach_len _ _ 24 first_subnet); [apply default_reach|]. by vm_compute. Qed.

Lemma ipam_allocations_disjoint_witness :
  pairwise_disjoint [first_subnet] ∧ Forall prefix_wf [first_subnet] ∧
  (∀ a, in_block DEFAULT_NETWORK a ↔ in_block DEFAULT_NETWORK a).
Proof.
  apply (ipam_allocations_disjoint DEFAULT_NETWORK (mk_Ipam DEFAULT_NETWORK [first_subnet])).
  - apply default_network_wf.
  - apply first_subnet_reach.
Defined.

Lemma ipam_first_fit_witness :
  let p := mk_IpPrefix (V4 181534976) 24 in
  disjoint_blocks first_subnet p ∧
  ∀ a, in_block p a → in_block DEFAULT_NETWORK a.
Proof.
  pose proof (ipam_first_fit DEFAULT_NETWORK (mk_Ipam DEFAULT_NETWORK [first_subnet]) 24
    (mk_IpPrefix (V4 181534976) 24)
    (mk_Ipam DEFAULT_NETWORK [first_subnet; mk_IpPrefix (V4 181534976) 24])
    default_network_wf first_subnet_reach ltac:(vm_compute; reflexivity)) as (_ & H1 & H2 & _).
  split; [apply H2; cbn; left|exact H1].
Defined.

Lemma ipam_exhaustion_complete_witness :
  match allocate_subnet_len (mk_Ipam DEFAULT_NETWORK []) 15 with
  | Err InvalidSubnetSize => ¬ (bits DEFAULT_NETWORK <= 15 <= 32)
  | _ => False
  end.
Proof.
  exact (ipam_exhaustion_complete DEFAULT_NETWORK (mk_Ipam DEFAULT_NETWORK []) 15
           default_network_wf default_reach).
Defined.

Lemma ipam_allocate_subnet_exact_witness :
  let free := ∀ u, u ∈ [first_subnet] → disjoint_blocks u first_subnet in
  allocate_subnet (mk_Ipam DEFAULT_NETWORK [first_subnet]) first_subnet = Err SubnetOverlap ∧
  ¬ free.
Proof.
  split; [vm_compute; reflexivity|].
  exact (proj2 (proj2 (ipam_allocate_subnet_exact DEFAULT_NETWORK
    (mk_Ipam DEFAULT_NETWORK [first_subnet]) first_subnet default_network_wf
    first_subnet_reach ltac:(unfold prefix_wf; cbn; lia)))).
Defined.

Lemma prefix_text_round_trip_v4_witness :
  prefix_from_str (prefix_display DEFAULT_NETWORK) = Ok DEFAULT_NETWORK.
Proof.
  apply (prefix_text_round_trip_v4 DEFAULT_NETWORK); [apply default_network_wf|reflexivity].
Defined.
