(* ===== verification/PbAddr.v ===== *)
(** * Binary addresses of the machine API: [lib.rs] of ployz-internal-machine-api-pb

    The protobuf messages [Ip], [IpPort], [IpPrefix] and [NetworkConfig], their
    conversions to and from addresses, and the validation of a network
    configuration. *)

From S2P Require Import Prelude RustStr NetAddr.
Open Scope Z_scope.

(** ** gRPC statuses *)
Inductive Code : Set :=
| CodeOk | CodeCancelled | CodeUnknown | CodeInvalidArgument | CodeDeadlineExceeded | CodeNotFound
| CodeAlreadyExists | CodePermissionDenied | CodeResourceExhausted | CodeFailedPrecondition | CodeAborted
| CodeOutOfRange | CodeUnimplemented | CodeInternal | CodeUnavailable | CodeDataLoss | CodeUnauthenticated.
Record Status := mk_Status { status_code : Code; status_message : string }.

Definition invalid_argument {A} (message : string) : result Status A :=
  Err (mk_Status CodeInvalidArgument message).

(** WireGuard keys are 32 bytes. *)
Definition KEY_LEN : nat := 32.

(** ** [Address] and [AddrPort]: an IP address with an IPv6 zone *)
Record Address := mk_Address { addr_ip : IpAddr; addr_zone : list byte }.
Record AddrPort := mk_AddrPort { ap_address : Address; ap_port : Z }.

#[export] Instance Address_eq_dec : EqDecision Address.
Proof. solve_decision. Defined.
#[export] Instance AddrPort_eq_dec : EqDecision AddrPort.
Proof. solve_decision. Defined.

Inductive AddressError : Set :=
| InvalidIp | UnexpectedSliceSize | InvalidPrefixErr | ScopedIp.

Definition address_error_display (e : AddressError) : string :=
  match e with
  | InvalidIp => "invalid IP"
  | UnexpectedSliceSize => "unmarshal IP: unexpected slice size"
  | InvalidPrefixErr => "invalid prefix"
  | ScopedIp => "scoped IP has no std::net representation"
  end.

(** [Address::scoped], [From<IpAddr> for Address]. *)
Definition address_scoped (v6 : Z) (zone : list byte) : Address := mk_Address (V6 v6) zone.
Definition address_from (ip : IpAddr) : Address := mk_Address ip [].

(** [Address::to_std]. *)
Definition address_to_std (self : Address) : result AddressError IpAddr :=
  match addr_zone self with [] => Ok (addr_ip self) | _ => Err ScopedIp end.

(** [AddrPort::to_std]: a socket address. *)
Definition addr_port_to_std (self : AddrPort) : result AddressError (IpAddr * Z) :=
  ip ← address_to_std (ap_address self); Ok (ip, ap_port self).

(** [From<SocketAddr> for AddrPort]. *)
Definition addr_port_from (socket : IpAddr * Z) : AddrPort :=
  mk_AddrPort (address_from socket.1) socket.2.

(** ** The messages *)
Record Ip := mk_Ip { ip_bytes : list byte }.
Record IpPort := mk_IpPort { ipp_ip : option Ip; ipp_port : Z }.
Record PbIpPrefix := mk_PbIpPrefix { pfx_ip : option Ip; pfx_bits : Z }.
Record NetworkConfig := mk_NetworkConfig {
  nc_subnet : option PbIpPrefix;
  nc_management_ip : option Ip;
  nc_endpoints : list IpPort;
  nc_public_key : list byte
}.

#[export] Instance Ip_eq_dec : EqDecision Ip.
Proof. solve_decision. Defined.
#[export] Instance IpPort_eq_dec : EqDecision IpPort.
Proof. solve_decision. Defined.
#[export] Instance PbIpPrefix_eq_dec : EqDecision PbIpPrefix.
Proof. solve_decision. Defined.

(** [Ip::new]. *)
Definition Ip_new (address : Address) : Ip :=
  mk_Ip (octets (addr_ip address) ++ addr_zone address).

(** [Ip::to_addr]. *)
Definition Ip_to_addr (self : Ip) : result AddressError Address :=
  match ip_bytes self with
  | [] => Err InvalidIp
  | [a; b; c; d] => Ok (address_from (V4 (be_value [a; b; c; d])))
  | bytes =>
      if (length bytes =? 16)%nat then Ok (address_from (V6 (be_value bytes)))
      else if (16 <? length bytes)%nat
      then Ok (mk_Address (V6 (be_value (take 16 bytes))) (drop 16 bytes))
      else Err UnexpectedSliceSize
  end.

(** [IpPort::new]. *)
Definition IpPort_new (address : AddrPort) : IpPort :=
  mk_IpPort (Some (Ip_new (ap_address address))) (ap_port address).

(** [IpPort::to_addr_port]: [port as u16] keeps the low 16 bits. *)
Definition IpPort_to_addr_port (self : IpPort) : result AddressError AddrPort :=
  ip ← expect "IP not set" (ipp_ip self);
  address ← Ip_to_addr ip;
  Ok (mk_AddrPort address (ipp_port self mod 2 ^ 16)).

(** [IpPort::to_socket_addr]. *)
Definition IpPort_to_socket_addr (self : IpPort) : result AddressError (IpAddr * Z) :=
  ap ← IpPort_to_addr_port self; addr_port_to_std ap.

(** [IpPrefix::new]. *)
Definition PbIpPrefix_new (address : IpAddr) (bits : Z) : PbIpPrefix :=
  mk_PbIpPrefix (Some (Ip_new (address_from address))) bits.

(** [IpPrefix::to_prefix]. *)
Definition PbIpPrefix_to_prefix (self : PbIpPrefix) : result AddressError (IpAddr * Z) :=
  ip ← expect "IP not set" (pfx_ip self);
  address ← Ip_to_addr ip;
  address ← map_err (fun _ => InvalidPrefixErr) (address_to_std address);
  let maximum := if is_ipv4 address then 32 else 128 in
  if maximum <? pfx_bits self then Err InvalidPrefixErr
  else Ok (address, pfx_bits self mod 2 ^ 8).

(** [x.map_err(|error| invalid_argument(format!("{prefix}{error}")))?;] *)
Definition checked {A} (prefix : string) (r : result AddressError A) : result Status () :=
  _ ← map_err (fun error => mk_Status CodeInvalidArgument
                              (prefix +:+ address_error_display error)) r;
  Ok ().
(** The same under [if let Some(x) = o]. *)
Definition checked_opt {A B} (prefix : string) (g : A → result AddressError B) (o : option A) :
    result Status () :=
  match o with Some x => checked prefix (g x) | None => Ok () end.

(** [NetworkConfig::validate]. *)
Definition NetworkConfig_validate (self : NetworkConfig) : result Status () :=
  _ ← checked_opt "invalid subnet: " PbIpPrefix_to_prefix (nc_subnet self);
  _ ← checked_opt "invalid management IP: " Ip_to_addr (nc_management_ip self);
  _ ← forM_ (nc_endpoints self) (fun endpoint =>
        checked "invalid endpoint: " (IpPort_to_addr_port endpoint));
  if (length (nc_public_key self) =? 0)%nat then invalid_argument "public key not set"
  else if negb (length (nc_public_key self) =? KEY_LEN)%nat
  then invalid_argument ("invalid public key length: " +:+ dec (Z.of_nat (length (nc_public_key self))))
  else Ok ().

(** ** Well-formed values *)

(** Only IPv6 addresses have a zone. *)
Definition address_wf (a : Address) : Prop :=
  ip_wf (addr_ip a) ∧ (is_ipv4 (addr_ip a) = true → addr_zone a = []).
Definition addr_port_wf (a : AddrPort) : Prop :=
  address_wf (ap_address a) ∧ 0 <= ap_port a < 2 ^ 16.

Lemma octets_length a : length (octets a) = if is_ipv4 a then 4%nat else 16%nat.
Proof. destruct a; apply length_be_octets. Qed.

Lemma octets_value a : ip_wf a → be_value (octets a) = match a with V4 v => v | V6 v => v end.
Proof.
  intros H. destruct a; unfold octets; rewrite be_value_octets; apply Z.mod_small; exact H.
Qed.

(** The byte lengths [to_addr] accepts, and what it makes of them. *)
Lemma Ip_to_addr_cases self :
  Ip_to_addr self =
    let n := length (ip_bytes self) in
    if (n =? 0)%nat then Err InvalidIp
    else if (n =? 4)%nat then Ok (address_from (V4 (be_value (ip_bytes self))))
    else if (16 <=? n)%nat
    then Ok (mk_Address (V6 (be_value (take 16 (ip_bytes self)))) (drop 16 (ip_bytes self)))
    else Err UnexpectedSliceSize.
Proof.
  destruct self as [l]. unfold Ip_to_addr. cbn [ip_bytes].
  destruct l as [|a [|b [|c [|d [|e l]]]]]; try reflexivity. cbn zeta.
  set (m := a :: b :: c :: d :: e :: l).
  assert (length m = S (S (S (S (S (length l)))))) as Hm by done.
  assert (length m =? 0 = false)%nat as -> by (apply Nat.eqb_neq; lia).
  assert (length m =? 4 = false)%nat as -> by (apply Nat.eqb_neq; lia).
  destruct (Nat.eqb_spec (length m) 16) as [E|E].
  - rewrite (proj2 (Nat.leb_le _ _)) by lia.
    rewrite take_ge, drop_ge by lia. done.
  - destruct (Nat.ltb_spec 16 (length m)).
    + by rewrite (proj2 (Nat.leb_le _ _)) by lia.
    + by rewrite (proj2 (Nat.leb_gt _ _)) by lia.
Qed.

Lemma Ip_new_to_addr a : address_wf a → Ip_to_addr (Ip_new a) = Ok a.
Proof.
  intros [Hip Hz]. destruct a as [ip zone]. cbn in Hip, Hz. rewrite Ip_to_addr_cases.
  unfold Ip_new. cbn [ip_bytes addr_ip addr_zone]. rewrite length_app, octets_length.
  destruct ip as [v|v]; cbn [is_ipv4] in *.
  - rewrite Hz by done. cbn [length Nat.add Nat.eqb]. rewrite app_nil_r.
    cbn zeta. by rewrite octets_value.
  - cbn zeta. assert (16 + length zone =? 0 = false)%nat as -> by (apply Nat.eqb_neq; lia).
    assert (16 + length zone =? 4 = false)%nat as -> by (apply Nat.eqb_neq; lia).
    rewrite (proj2 (Nat.leb_le _ _)) by lia.
    rewrite take_app_length' , drop_app_length' by (by rewrite octets_length).
    by rewrite octets_value.
Qed.

Lemma Ip_to_addr_wf self a : Ip_to_addr self = Ok a → address_wf a ∧ Ip_new a = self.
Proof.
  rewrite Ip_to_addr_cases. destruct self as [l]. cbn zeta. cbn [ip_bytes].
  destruct (Nat.eqb_spec (length l) 0); [done|].
  pose proof (be_value_bound l) as Hb.
  destruct (Nat.eqb_spec (length l) 4) as [E|E].
  { intros [= <-]. rewrite E in Hb. split; [split; [exact Hb|done]|].
    unfold Ip_new, address_from. cbn [addr_ip addr_zone octets].
    rewrite app_nil_r. f_equal. by apply be_octets_value. }
  destruct (Nat.leb_spec 16 (length l)); [|done]. intros [= <-].
  assert (length (take 16 l) = 16%nat) as Ht by (rewrite length_take; lia).
  pose proof (be_value_bound (take 16 l)) as Hb'. rewrite Ht in Hb'.
  split; [split; [exact Hb'|done]|].
  unfold Ip_new. cbn [addr_ip addr_zone octets]. rewrite be_octets_value by done.
  by rewrite take_drop.
Qed.

(** ** Properties *)

(** C24. Encoding is a bijection between the well-formed addresses and the byte
    strings of length 4 or at least 16: [to_addr] inverts [Ip::new], and whatever
    [to_addr] accepts is re-encoded to the same bytes. *)
Theorem ip_encoding_bijective :
  (∀ a, address_wf a → Ip_to_addr (Ip_new a) = Ok a) ∧
  (∀ self a, Ip_to_addr self = Ok a → address_wf a ∧ Ip_new a = self) ∧
  (∀ self, (∃ a, Ip_to_addr self = Ok a) ↔
     length (ip_bytes self) = 4%nat ∨ (16 <= length (ip_bytes self))%nat).
Proof.
  split_and!; [apply Ip_new_to_addr|apply Ip_to_addr_wf|].
  intros self. rewrite Ip_to_addr_cases. cbn zeta. set (n := length (ip_bytes self)).
  destruct (Nat.eqb_spec n 0); [naive_solver lia|].
  destruct (Nat.eqb_spec n 4); [naive_solver|].
  destruct (Nat.leb_spec 16 n); [naive_solver|naive_solver lia].
Qed.

(** C25. An [IpPort] made from a valid socket address converts back to it; for an
    arbitrary message the port is the wire value modulo 2^16 and the only failures
    are those of the address, while an absent address panics. *)
Theorem ip_port_conversions :
  (∀ ap, addr_port_wf ap → IpPort_to_addr_port (IpPort_new ap) = Ok ap) ∧
  (∀ self, IpPort_to_addr_port self =
     match ipp_ip self with
     | None => Panic "IP not set"
     | Some ip => match Ip_to_addr ip with
                  | Ok a => Ok (mk_AddrPort a (ipp_port self mod 2 ^ 16))
                  | Err e => Err e
                  | Panic m => Panic m
                  end
     end).
Proof.
  split.
  - intros [a port] [Ha Hp]. cbn in Ha, Hp. unfold IpPort_to_addr_port, IpPort_new.
    cbn [ipp_ip ipp_port ap_address ap_port expect]. cbn. rewrite Ip_new_to_addr by done. cbn.
    by rewrite Z.mod_small.
  - intros self. unfold IpPort_to_addr_port. destruct (ipp_ip self); [|done]. cbn.
    by destruct (Ip_to_addr _).
Qed.

(** A valid prefix message: an unscoped address and a length within its family. *)
Definition prefix_msg_ok (p : PbIpPrefix) : Prop :=
  ∃ ip a, pfx_ip p = Some ip ∧ Ip_to_addr ip = Ok (address_from a) ∧
          pfx_bits p <= (if is_ipv4 a then 32 else 128).

Lemma to_prefix_ok p :
  0 <= pfx_bits p →
  (∃ r, PbIpPrefix_to_prefix p = Ok r) ↔ prefix_msg_ok p.
Proof.
  intros H0. unfold PbIpPrefix_to_prefix, prefix_msg_ok.
  destruct (pfx_ip p) as [ip|]; cbn; [|naive_solver].
  destruct (Ip_to_addr ip) as [[a z]| |] eqn:E; cbn.
  2, 3: split; [by intros [? [=]]|]; intros (? & ? & [= <-] & Ha & _); congruence.
  destruct z as [|z zs]; cbn.
  - destruct (Z.ltb_spec (if is_ipv4 a then 32 else 128) (pfx_bits p)).
    + split; [by intros [? [=]]|]. intros (ip' & a' & [= <-] & Ha & Hle).
      rewrite E in Ha. injection Ha as <-. lia.
    + split; [|eauto]. intros _. exists ip, a. split_and!; [done..|lia].
  - split; [by intros [? [=]]|]. intros (ip' & a' & [= <-] & Ha & Hle). by rewrite E in Ha.
Qed.

Lemma checked_ok {A} prefix (r : result AddressError A) u :
  checked prefix r = Ok u ↔ ∃ a, r = Ok a.
Proof. unfold checked. destruct r, u; cbn; naive_solver. Qed.

Lemma checked_opt_ok {A B} prefix (g : A → result AddressError B) o u :
  checked_opt prefix g o = Ok u ↔ ∀ x, o = Some x → ∃ a, g x = Ok a.
Proof. destruct o as [x|]; simpl; [rewrite checked_ok|destruct u]; naive_solver. Qed.

Lemma checked_list_ok {A B} prefix (g : A → result AddressError B) l u :
  forM_ l (fun x => checked prefix (g x)) = Ok u ↔ ∀ x, x ∈ l → ∃ a, g x = Ok a.
Proof.
  destruct u. rewrite forM_Ok, Forall_forall.
  split; intros H x Hx; specialize (H x Hx); [by apply checked_ok in H|by apply checked_ok].
Qed.

(** C26. [NetworkConfig::validate] accepts a configuration exactly when its subnet (if
    any) is an unscoped address with a length of its family, its management IP (if
    any) and every endpoint's IP decode, and the public key has 32 bytes. *)
Theorem network_config_validate_exact self :
  (∀ p, nc_subnet self = Some p → 0 <= pfx_bits p) →
  NetworkConfig_validate self = Ok () ↔
    (∀ p, nc_subnet self = Some p → prefix_msg_ok p) ∧
    (∀ ip, nc_management_ip self = Some ip → ∃ a, Ip_to_addr ip = Ok a) ∧
    (∀ e, e ∈ nc_endpoints self → ∃ a, IpPort_to_addr_port e = Ok a) ∧
    length (nc_public_key self) = KEY_LEN.
Proof.
  intros H0. unfold NetworkConfig_validate, KEY_LEN. split.
  - intros (? & Hs & (? & Hm & (? & He & Hk)%bind_Ok)%bind_Ok)%bind_Ok.
    rewrite checked_opt_ok in Hs. rewrite checked_opt_ok in Hm. rewrite checked_list_ok in He.
    split_and!; [|done|done|].
    + intros p Hp. apply to_prefix_ok; auto.
    + destruct (Nat.eqb_spec (length (nc_public_key self)) 0); [done|].
      by destruct (Nat.eqb_spec (length (nc_public_key self)) 32).
  - intros (Hs & Hm & He & Hk). rewrite Hk.
    apply bind_Ok. exists (). split.
    { apply checked_opt_ok. intros p Hp. apply to_prefix_ok; auto. }
    apply bind_Ok. exists (). split; [by apply checked_opt_ok|].
    apply bind_Ok. exists (). split; [by apply checked_list_ok|done].
Qed.

(** ** Witness *)
Lemma network_config_validate_exact_witness :
  NetworkConfig_validate
    (mk_NetworkConfig (Some (PbIpPrefix_new (V4 181534720) 24)) None
       [mk_IpPort (Some (mk_Ip (be_octets 4 16909060))) 51820] (replicate 32 Byte.x01)) = Ok ().
Proof.
  apply (network_config_validate_exact (mk_NetworkConfig (Some (PbIpPrefix_new (V4 181534720) 24))
       None [mk_IpPort (Some (mk_Ip (be_octets 4 16909060))) 51820] (replicate 32 Byte.x01))).
  - intros p [= <-]. cbn. lia.
  - split_and!; [|done| |done].
    + intros p [= <-]. exists (mk_Ip (be_octets 4 181534720)), (V4 181534720).
      split_and!; [done|reflexivity|cbn; lia].
    + intros e ->%list_elem_of_singleton. eexists. reflexivity.
Defined.
