(* ===== verification/Peer.v ===== *)
(** * WireGuard peers: [peer.rs] of ployz-internal-machine-network

    The status of one remote machine and the rotation among its endpoints, with
    the device poll and the rotation tick of [wireguard_linux.rs] that drive it.

    An [Arc<SocketAddr>] is its address together with the identity of its
    allocation, because the code compares endpoints by pointer in some places and
    by value in others.  Points in time and durations are in nanoseconds. *)

From S2P Require Import Prelude NetAddr.
Open Scope Z_scope.

Record SocketAddr := mk_SocketAddr { sa_ip : IpAddr; sa_port : Z }.
#[export] Instance SocketAddr_eq_dec : EqDecision SocketAddr.
Proof. solve_decision. Defined.

(** [Arc<SocketAddr>]. *)
Record ArcAddr := mk_Arc { arc_ptr : nat; arc_val : SocketAddr }.
Definition ptr_eq (a b : ArcAddr) : bool := bool_decide (arc_ptr a = arc_ptr b).

(** [ipnet::IpNet] and [Secret] are stored and never inspected here. *)
Class NetLib := { IpNet : Set; Secret : Set }.

Definition second : Z := 1000000000.
Definition ENDPOINT_CONNECTION_TIMEOUT : Z := 15 * second.
Definition PEER_DOWN_INTERVAL : Z := (180 + 5 + 90) * second.
(** [Duration::MAX]. *)
Definition DURATION_MAX : Z := (2 ^ 64 - 1) * second + 999999999.

Inductive PeerStatus : Set := Unknown | Up | Down.
#[export] Instance PeerStatus_eq_dec : EqDecision PeerStatus.
Proof. solve_decision. Defined.

Section peer.
Context `{NetLib}.

Record PeerConfig := mk_PeerConfig {
  pc_subnet : option IpNet;
  pc_management_ip : option IpAddr;
  pc_endpoint : option ArcAddr;
  pc_all_endpoints : list ArcAddr;
  pc_public_key : option Secret
}.

Record DevicePeerSnapshot := mk_Snapshot {
  dp_endpoint : option SocketAddr;
  dp_last_handshake_time : option Z;
  dp_receive_bytes : Z;
  dp_transmit_bytes : Z
}.

Record Peer := mk_Peer {
  peer_config : PeerConfig;
  last_endpoint_change_time : option Z;
  last_handshake_time : option Z;
  receive_bytes : Z;
  transmit_bytes : Z;
  peer_status : PeerStatus
}.

(** [u64 as i64]. *)
Definition as_i64 (v : Z) : Z := if v <? 2 ^ 63 then v else v - 2 ^ 64.

(** [Peer::new_at]. *)
Definition peer_new_at (config : PeerConfig) (device_peer : option DevicePeerSnapshot)
    (now : Z) : Peer :=
  let change := pc_endpoint config ≫= fun endpoint =>
    if bool_decide ((device_peer ≫= dp_endpoint) = Some (arc_val endpoint)) then None
    else Some now in
  mk_Peer config change None 0 0 Unknown.

(** [same_endpoint_pointer]. *)
Definition same_endpoint_pointer (l r : option ArcAddr) : bool :=
  match l, r with
  | Some l, Some r => ptr_eq l r
  | None, None => true
  | _, _ => false
  end.

(** [elapsed_since] and [is_after]. *)
Definition elapsed_since (now : Z) (instant : option Z) : Z :=
  match instant with
  | Some instant => if instant <=? now then now - instant else 0
  | None => DURATION_MAX
  end.
Definition is_after (l r : option Z) : bool :=
  match l, r with
  | Some l, Some r => r <? l
  | Some _, None => true
  | _, _ => false
  end.

(** [Peer::update_config_at]. *)
Definition update_config_at (self : Peer) (config : PeerConfig) (now : Z) : Peer :=
  if same_endpoint_pointer (pc_endpoint (peer_config self)) (pc_endpoint config)
  then mk_Peer config (last_endpoint_change_time self) (last_handshake_time self)
         (receive_bytes self) (transmit_bytes self) (peer_status self)
  else mk_Peer config (Some now) (last_handshake_time self)
         (receive_bytes self) (transmit_bytes self) Unknown.

(** [Peer::calculate_status_at]; the log line is left out. *)
Definition calculate_status_at (self : Peer) (now : Z) : Peer :=
  let since_last_handshake := elapsed_since now (last_handshake_time self) in
  let since_endpoint_change := elapsed_since now (last_endpoint_change_time self) in
  let handshake_after_endpoint :=
    is_after (last_handshake_time self) (last_endpoint_change_time self) in
  let status :=
    if PEER_DOWN_INTERVAL <? since_endpoint_change then
      if since_last_handshake <? PEER_DOWN_INTERVAL then Up else Down
    else if since_endpoint_change <? ENDPOINT_CONNECTION_TIMEOUT then
      if handshake_after_endpoint then Up else Unknown
    else if handshake_after_endpoint then Up
    else Down in
  let status :=
    if bool_decide (status = Down) && bool_decide (pc_endpoint (peer_config self) = None)
    then Unknown else status in
  mk_Peer (peer_config self) (last_endpoint_change_time self) (last_handshake_time self)
    (receive_bytes self) (transmit_bytes self) status.

Definition with_endpoint (c : PeerConfig) (e : option ArcAddr) : PeerConfig :=
  mk_PeerConfig (pc_subnet c) (pc_management_ip c) e (pc_all_endpoints c) (pc_public_key c).

(** [Peer::update_from_device] at time [now]; [fresh] is the identity of the
    [Arc] it may allocate. *)
Definition update_from_device (self : Peer) (device_peer : DevicePeerSnapshot) (now : Z)
    (fresh : nat) : Peer * bool :=
  let '(config, change, endpoint_changed) :=
    match dp_endpoint device_peer with
    | Some endpoint =>
        if bool_decide ((arc_val <$> pc_endpoint (peer_config self)) ≠ Some endpoint)
        then (with_endpoint (peer_config self) (Some (mk_Arc fresh endpoint)), None, true)
        else (peer_config self, last_endpoint_change_time self, false)
    | None => (peer_config self, last_endpoint_change_time self, false)
    end in
  (calculate_status_at
     (mk_Peer config change (dp_last_handshake_time device_peer)
        (as_i64 (dp_receive_bytes device_peer)) (as_i64 (dp_transmit_bytes device_peer))
        (peer_status self)) now,
   endpoint_changed).

(** [iter().position(|endpoint| **endpoint == **current)]. *)
Fixpoint position (v : SocketAddr) (l : list ArcAddr) : option nat :=
  match l with
  | [] => None
  | a :: l => if bool_decide (arc_val a = v) then Some 0%nat else S <$> position v l
  end.

(** [Peer::should_change_endpoint]; the index is in range because the list is not
    empty, and is looked up with [expect]. *)
Definition should_change_endpoint (self : Peer) : result () (option SocketAddr) :=
  let config := peer_config self in
  if bool_decide (is_Some (pc_endpoint config)) && bool_decide (peer_status self ≠ Down)
  then Ok None
  else match pc_all_endpoints config with
       | [] => Ok None
       | first :: _ =>
           match pc_endpoint config with
           | None => Ok (Some (arc_val first))
           | Some current =>
               if bool_decide (length (pc_all_endpoints config) = 1%nat) && ptr_eq current first
               then Ok None
               else
                 let index := position (arc_val current) (pc_all_endpoints config) in
                 let next := match index with Some value => (value + 1)%nat | None => 0%nat end in
                 a ← expect "index out of bounds"
                       (pc_all_endpoints config !! (next mod length (pc_all_endpoints config))%nat);
                 Ok (Some (arc_val a))
           end
       end.

(** One peer's part of [change_wire_guard_endpoints]: rotate if due. *)
Definition rotate (self : Peer) (now : Z) (fresh : nat) : result () (Peer * option SocketAddr) :=
  change ← should_change_endpoint self;
  match change with
  | None => Ok (self, None)
  | Some endpoint =>
      Ok (update_config_at self
            (with_endpoint (peer_config self) (Some (mk_Arc fresh endpoint))) now,
          Some endpoint)
  end.

(** ** Lemmas *)

Lemma forall_Some {A} (y : A) (P : A → Prop) : (∀ x, Some y = Some x → P x) ↔ P y.
Proof. naive_solver. Qed.
Lemma exists_Some {A} (y : A) (P : A → Prop) : (∃ x, Some y = Some x ∧ P x) ↔ P y.
Proof. naive_solver. Qed.
Lemma forall_None {A} (P : A → Prop) : (∀ x, None = Some x → P x) ↔ True.
Proof. naive_solver. Qed.
Lemma exists_None {A} (P : A → Prop) : (∃ x, None = Some x ∧ P x) ↔ False.
Proof. naive_solver. Qed.

Lemma is_Some_Some {A} (x : A) : is_Some (Some x) ↔ True.
Proof. naive_solver. Qed.
Lemma is_Some_None_False {A} : is_Some (@None A) ↔ False.
Proof. split; [by intros []|done]. Qed.

Lemma duration_max_gt : PEER_DOWN_INTERVAL < DURATION_MAX.
Proof. done. Qed.

Lemma elapsed_since_some now t :
  elapsed_since now (Some t) = Z.max 0 (now - t).
Proof. unfold elapsed_since. destruct (Z.leb_spec t now); lia. Qed.

Lemma position_Some v l i :
  position v l = Some i → ∃ a, l !! i = Some a ∧ arc_val a = v.
Proof.
  revert i. induction l as [|a l IH]; intros i Hi; simpl in Hi; [done|].
  case_bool_decide; [naive_solver|].
  destruct (position v l) as [j|]; simplify_eq/=. eauto.
Qed.

Lemma position_NoDup l i a :
  NoDup (arc_val <$> l) → l !! i = Some a → position (arc_val a) l = Some i.
Proof.
  revert i. induction l as [|b l IH]; intros i Hnd Hi; [done|].
  apply NoDup_cons in Hnd as [Hb Hnd]. destruct i as [|i]; simplify_eq/=.
  - by rewrite bool_decide_true.
  - rewrite bool_decide_false.
    + by rewrite (IH i).
    + intros E. apply Hb. rewrite E. apply list_elem_of_fmap_2.
      by eapply list_elem_of_lookup_2.
Qed.

Lemma next_index_in_range {A} (l : list A) k : l ≠ [] → is_Some (l !! (k mod length l)%nat).
Proof.
  intros Hl. apply lookup_lt_is_Some, Nat.mod_upper_bound. by destruct l.
Qed.

Lemma should_change_endpoint_spec self :
  result_spec (should_change_endpoint self)
    (fun r => ∀ e, r = Some e → e ∈ (arc_val <$> pc_all_endpoints (peer_config self)))
    (fun _ => False).
Proof.
  unfold should_change_endpoint.
  destruct (_ && _); [done|].
  destruct (pc_all_endpoints (peer_config self)) as [|first l] eqn:El; [done|].
  destruct (pc_endpoint (peer_config self)) as [cur|]; cbn [result_spec].
  2: { intros e [= <-]. set_solver. }
  destruct (_ && _); [done|]. rewrite <-El.
  destruct (next_index_in_range (pc_all_endpoints (peer_config self))
    match position (arc_val cur) (pc_all_endpoints (peer_config self)) with
    | Some value => (value + 1)%nat | None => 0%nat end) as [a Ha]; [by rewrite El|].
  rewrite Ha. cbn. intros e [= <-]. apply list_elem_of_fmap_2. by eapply list_elem_of_lookup_2.
Qed.

(** A peer that is down and whose endpoint is number [i] moves to number [i+1]. *)
Lemma rotate_down_next self cur i a now fresh p e :
  peer_status self = Down → pc_endpoint (peer_config self) = Some cur →
  NoDup (arc_val <$> pc_all_endpoints (peer_config self)) →
  pc_all_endpoints (peer_config self) !! i = Some a → arc_val cur = arc_val a →
  rotate self now fresh = Ok (p, Some e) →
  ∃ b, pc_all_endpoints (peer_config self)
         !! ((i + 1) mod length (pc_all_endpoints (peer_config self)))%nat = Some b ∧
       e = arc_val b ∧
       p = update_config_at self (with_endpoint (peer_config self) (Some (mk_Arc fresh e))) now.
Proof.
  intros Hdown Hcur Hnd Hi Ha Hrot. unfold rotate, should_change_endpoint in Hrot.
  rewrite Hcur, Hdown in Hrot. rewrite (bool_decide_eq_false_2 (Down ≠ Down)) in Hrot by naive_solver.
  rewrite andb_false_r in Hrot.
  destruct (pc_all_endpoints (peer_config self)) as [|first l] eqn:El; [done|].
  destruct (_ && _) in Hrot; [by simplify_eq/=|].
  rewrite Ha, (position_NoDup _ i a) in Hrot by done. cbn zeta in Hrot.
  destruct ((first :: l) !! _) as [b|] eqn:Hb in Hrot; cbn in Hrot; simplify_eq/=.
  exists b. by split_and!.
Qed.

(** Rotations that all fail: between two of them the device reports the endpoint
    just configured and the peer is found down again. *)
Inductive failing_rotations : Peer → list SocketAddr → Prop :=
| failing_nil p : failing_rotations p []
| failing_cons p now fresh p1 e dev later fresh' es :
    peer_status p = Down →
    rotate p now fresh = Ok (p1, Some e) →
    dp_endpoint dev = Some e →
    peer_status (update_from_device p1 dev later fresh').1 = Down →
    failing_rotations (update_from_device p1 dev later fresh').1 es →
    failing_rotations p (e :: es).

Lemma update_same_endpoint self dev now fresh e cur :
  pc_endpoint (peer_config self) = Some cur → arc_val cur = e → dp_endpoint dev = Some e →
  peer_config (update_from_device self dev now fresh).1 = peer_config self.
Proof.
  intros Hcur He Hdev. unfold update_from_device. rewrite Hdev, Hcur. cbn.
  by rewrite bool_decide_false by naive_solver.
Qed.

Lemma failing_rotations_order p es cur i a :
  failing_rotations p es → pc_endpoint (peer_config p) = Some cur →
  NoDup (arc_val <$> pc_all_endpoints (peer_config p)) →
  pc_all_endpoints (peer_config p) !! i = Some a → arc_val cur = arc_val a →
  ∀ k e, es !! k = Some e →
    ∃ b, pc_all_endpoints (peer_config p)
           !! ((i + 1 + k) mod length (pc_all_endpoints (peer_config p)))%nat = Some b ∧
         e = arc_val b.
Proof.
  intros Hf. revert cur i a.
  induction Hf as [p|p now fresh p1 e dev later fresh' es Hd Hr Hdev Hd' Hf IH];
    intros cur i a Hcur Hnd Hi Ha k e' Hk; [done|].
  destruct (rotate_down_next _ _ _ _ _ _ _ _ Hd Hcur Hnd Hi Ha Hr) as (b & Hb & -> & ->).
  destruct k as [|k]; simplify_eq/=.
  { exists b. by rewrite Nat.add_0_r. }
  set (p1 := update_config_at _ _ _) in *.
  assert (peer_config p1 = with_endpoint (peer_config p) (Some (mk_Arc fresh (arc_val b)))) as Hc1.
  { unfold p1, update_config_at. by destruct (same_endpoint_pointer _ _). }
  assert (peer_config (update_from_device p1 dev later fresh').1 = peer_config p1) as Hc2.
  { eapply update_same_endpoint; [by rewrite Hc1|done|done]. }
  set (l := pc_all_endpoints (peer_config p)) in *. set (n := length l) in *.
  destruct (IH (mk_Arc fresh (arc_val b)) ((i + 1) mod n)%nat b) with (k := k) (e := e')
    as (b' & Hb' & ->); rewrite ?Hc2, ?Hc1; try done.
  rewrite Hc2, Hc1 in Hb'. exists b'. split; [|done]. cbn in Hb'. fold l n in Hb'.
  rewrite <-Hb'. f_equal.
  replace ((i + 1) mod n + 1 + k)%nat with ((i + 1) mod n + (1 + k))%nat by lia.
  by rewrite Nat.Div0.add_mod_idemp_l.
Qed.

(** The decision in terms of the times themselves. *)
Lemma status_cases self now :
  let p := calculate_status_at self now in
  let change := last_endpoint_change_time self in
  let old_change := ∀ c, change = Some c → PEER_DOWN_INTERVAL < now - c in
  let alive := ∃ h, last_handshake_time self = Some h ∧
       ((old_change ∧ now - h < PEER_DOWN_INTERVAL) ∨
        (∃ c, change = Some c ∧ ¬ old_change ∧ c < h)) in
  let expired := ∀ c, change = Some c → ENDPOINT_CONNECTION_TIMEOUT <= now - c in
  (peer_status p = Up ↔ alive) ∧
  (peer_status p = Down ↔ ¬ alive ∧ expired ∧ is_Some (pc_endpoint (peer_config self))) ∧
  peer_config p = peer_config self ∧ last_endpoint_change_time p = change ∧
  last_handshake_time p = last_handshake_time self.
Proof.
  cbn zeta. split; [|split; [|done]]; unfold calculate_status_at; cbn [peer_status].
  all: pose proof duration_max_gt.
  all: assert (PEER_DOWN_INTERVAL = 275000000000) as Ed by done.
  all: assert (ENDPOINT_CONNECTION_TIMEOUT = 15000000000) as Et by done.
  all: destruct (last_endpoint_change_time self) as [c|], (last_handshake_time self) as [h|],
    (pc_endpoint (peer_config self)) as [ep|].
  all: rewrite ?elapsed_since_some; cbn [elapsed_since is_after].
  all: rewrite ?exists_Some, ?exists_None; rewrite ?exists_Some, ?exists_None.
  all: rewrite ?forall_Some, ?forall_None, ?is_Some_Some, ?is_Some_None_False.
  all: repeat match goal with |- context [?a <? ?b] => destruct (Z.ltb_spec a b) end; simpl.
  all: split; [first [discriminate|intros _; lia]|first [done|intros; exfalso; lia]].
Qed.

(** A rotation installs a fresh endpoint and stamps the time. *)
Lemma rotate_Ok self t fresh p e :
  rotate self t fresh = Ok (p, Some e) →
  (∀ old, pc_endpoint (peer_config self) = Some old → arc_ptr old ≠ fresh) →
  pc_endpoint (peer_config p) = Some (mk_Arc fresh e) ∧ last_endpoint_change_time p = Some t.
Proof.
  intros Hrot Hfresh. unfold rotate in Hrot.
  destruct (should_change_endpoint self) as [[e'|]| |]; cbn in Hrot; simplify_eq.
  unfold update_config_at. cbn [pc_endpoint with_endpoint].
  destruct (same_endpoint_pointer _ _) eqn:Hp; [|done]. exfalso.
  destruct (pc_endpoint (peer_config self)) as [old|]; [|done]. cbn in Hp. unfold ptr_eq in Hp.
  apply bool_decide_eq_true in Hp. by eapply Hfresh.
Qed.

(** A device report that confirms the endpoint only refreshes the counters. *)
Lemma update_confirmed self dev now fresh cur :
  pc_endpoint (peer_config self) = Some cur → dp_endpoint dev = Some (arc_val cur) →
  ∃ q, (update_from_device self dev now fresh).1 = calculate_status_at q now ∧
    peer_config q = peer_config self ∧
    last_endpoint_change_time q = last_endpoint_change_time self ∧
    last_handshake_time q = dp_last_handshake_time dev.
Proof.
  intros Hcur Hdev. unfold update_from_device. rewrite Hdev, Hcur. cbn [fmap option_fmap option_map].
  rewrite bool_decide_false by naive_solver. by eexists.
Qed.

(** ** Properties *)

(** C20. The status decision: a peer is up exactly when it has completed a handshake
    that is recent (endpoint unchanged for longer than 275 s) or newer than the last
    endpoint change (otherwise); it is down exactly when it is not up, has an
    endpoint, and that endpoint has had at least 15 s; nothing else of the peer
    changes. *)
Theorem peer_status_exact self now :
  let p := calculate_status_at self now in
  let change := last_endpoint_change_time self in
  let old_change := ∀ c, change = Some c → PEER_DOWN_INTERVAL < now - c in
  let alive := ∃ h, last_handshake_time self = Some h ∧
       ((old_change ∧ now - h < PEER_DOWN_INTERVAL) ∨
        (∃ c, change = Some c ∧ ¬ old_change ∧ c < h)) in
  let expired := ∀ c, change = Some c → ENDPOINT_CONNECTION_TIMEOUT <= now - c in
  (peer_status p = Up ↔ alive) ∧
  (peer_status p = Down ↔ ¬ alive ∧ expired ∧ is_Some (pc_endpoint (peer_config self))) ∧
  peer_config p = peer_config self ∧ last_endpoint_change_time p = change ∧
  last_handshake_time p = last_handshake_time self.
Proof. apply status_cases. Qed.

(** C18. Rotation is round robin: when the peer's endpoints are distinct and every
    attempt fails, the [k]-th rotation tries the endpoint [k+1] places after the
    current one, so as many rotations as there are endpoints try each of them. *)
Theorem rotation_round_robin p es cur i a :
  failing_rotations p es → pc_endpoint (peer_config p) = Some cur →
  NoDup (arc_val <$> pc_all_endpoints (peer_config p)) →
  pc_all_endpoints (peer_config p) !! i = Some a → arc_val cur = arc_val a →
  let l := pc_all_endpoints (peer_config p) in
  (∀ k e, es !! k = Some e →
     ∃ b, l !! ((i + 1 + k) mod length l)%nat = Some b ∧ e = arc_val b) ∧
  ((length l <= length es)%nat → ∀ b, b ∈ l → arc_val b ∈ es).
Proof.
  intros Hf Hcur Hnd Hi Ha l.
  pose proof (failing_rotations_order p es cur i a Hf Hcur Hnd Hi Ha) as Hord.
  split; [exact Hord|]. intros Hlen b [j Hj]%list_elem_of_lookup_1.
  pose proof (lookup_lt_Some _ _ _ Hj) as Hjl. fold l in Hord.
  assert (i < length l)%nat as Hil by (by eapply lookup_lt_Some).
  (* the rotation that reaches place j *)
  set (k := ((j + 2 * length l - i - 1) mod length l)%nat).
  assert (k < length l)%nat as Hk by (apply Nat.mod_upper_bound; lia).
  destruct (lookup_lt_is_Some_2 es k ltac:(lia)) as [e He].
  destruct (Hord k e He) as (b' & Hb' & ->).
  assert ((i + 1 + k) mod length l = j)%nat as Ej.
  { unfold k. rewrite Nat.Div0.add_mod_idemp_r.
    replace (i + 1 + (j + 2 * length l - i - 1))%nat with (j + 2 * length l)%nat by lia.
    rewrite Nat.Div0.mod_add. by apply Nat.mod_small. }
  rewrite Ej, Hj in Hb'. simplify_eq. by eapply list_elem_of_lookup_2.
Qed.

(** C19. The 15-second grace period: after a rotation at time [t], as long as the
    device reports the chosen endpoint and no handshake later than [t], a poll
    leaves the peer's endpoint alone before [t] + 15 s and finds the peer down from
    then on. *)
Theorem rotation_grace_period self t fresh p e dev now fresh' :
  rotate self t fresh = Ok (p, Some e) →
  (∀ old, pc_endpoint (peer_config self) = Some old → arc_ptr old ≠ fresh) →
  dp_endpoint dev = Some e → (∀ h, dp_last_handshake_time dev = Some h → h <= t) → t <= now →
  let p' := (update_from_device p dev now fresh').1 in
  (now - t < ENDPOINT_CONNECTION_TIMEOUT →
     peer_status p' = Unknown ∧ should_change_endpoint p' = Ok None) ∧
  (ENDPOINT_CONNECTION_TIMEOUT <= now - t → peer_status p' = Down).
Proof.
  intros Hrot Hfresh Hdev Hh Hnow p'.
  destruct (rotate_Ok _ _ _ _ _ Hrot Hfresh) as [Hep Hct].
  destruct (update_confirmed p dev now fresh' _ Hep Hdev) as (q & Hq & Hqc & Hqt & Hqh).
  fold p' in Hq. destruct (status_cases q now) as (Hup & Hdown & Hc & _). rewrite <-Hq in Hup, Hdown, Hc.
  cbn zeta in Hup, Hdown. rewrite ?Hqc, ?Hqt, ?Hqh, ?Hep, ?Hct in Hup, Hdown. rewrite Hqc in Hc.
  assert (PEER_DOWN_INTERVAL = 275000000000) as Ed by done.
  assert (ENDPOINT_CONNECTION_TIMEOUT = 15000000000) as Et by done.
  assert (peer_status p' ≠ Up) as Hnup.
  { intros (h & Hhs & [[Hold Hrec]|(c & [= <-] & _ & Hlt)])%Hup; apply Hh in Hhs; [|lia].
    specialize (Hold t eq_refl). lia. }
  split.
  - intros Hlt. assert (peer_status p' = Unknown) as Hs.
    { destruct (peer_status p') eqn:E; [done|done|].
      destruct (proj1 Hdown eq_refl) as (_ & Hex & _). specialize (Hex t eq_refl). lia. }
    split; [done|]. unfold should_change_endpoint. by rewrite Hs, Hc, Hep.
  - intros Hge. apply Hdown. rewrite <-Hup. split; [done|]. split.
    + by intros c [= <-].
    + rewrite Hqc, Hep. by eexists.
Qed.

End peer.

(** ** Witnesses: two endpoints, the first current and down *)

Definition unit_net : NetLib := {| IpNet := unit; Secret := unit |}.
#[local] Existing Instance unit_net.

Definition ep_a : SocketAddr := mk_SocketAddr (V4 1) 51820.
Definition ep_b : SocketAddr := mk_SocketAddr (V4 2) 51820.
Definition down_peer : Peer :=
  mk_Peer (mk_PeerConfig None None (Some (mk_Arc 0 ep_a)) [mk_Arc 0 ep_a; mk_Arc 1 ep_b] None)
    (Some 0) None 0 0 Down.
Definition silent (e : SocketAddr) : DevicePeerSnapshot := mk_Snapshot (Some e) None 0 0.

Lemma rotation_round_robin_witness :
  failing_rotations down_peer [ep_b; ep_a] ∧ arc_val (mk_Arc 1 ep_b) ∈ [ep_b; ep_a].
Proof.
  assert (failing_rotations down_peer [ep_b; ep_a]) as Hf; [|split; [exact Hf|]].
  2: { refine (proj2 (rotation_round_robin down_peer [ep_b; ep_a] (mk_Arc 0 ep_a) 0 (mk_Arc 0 ep_a)
         Hf eq_refl _ eq_refl eq_refl) _ (mk_Arc 1 ep_b) _).
       - by apply (bool_decide_unpack _); vm_compute.
       - reflexivity.
       - by right; left. }
  - eapply (failing_cons down_peer (20 * second) 2 _ ep_b (silent ep_b) (40 * second) 3);
      [reflexivity..|].
    eapply (failing_cons _ (40 * second) 4 _ ep_a (silent ep_a) (60 * second) 5);
      [reflexivity..|constructor].
Defined.

Lemma rotation_grace_period_witness :
  peer_status (update_from_device
    (update_config_at down_peer (with_endpoint (peer_config down_peer) (Some (mk_Arc 2 ep_b)))
       (20 * second)) (silent ep_b) (36 * second) 3).1 = Down.
Proof.
  refine (proj2 (rotation_grace_period down_peer (20 * second) 2 _ ep_b (silent ep_b)
    (36 * second) 3 _ _ _ _ _) _).
  - reflexivity.
  - intros old [= <-]. done.
  - reflexivity.
  - done.
  - done.
  - done.
Defined.
