(* ===== verification/Port.v ===== *)
(** * Published ports: [port.rs] of ployz-pkg-api, and the scoped addresses of
    its [machine.rs]

    A port specification, its validation, its text form and the parser of that
    form. *)

From S2P Require Import Prelude RustStr Wire NetAddr.

Definition PORT_MODE_INGRESS : string := "ingress".
Definition PORT_MODE_HOST : string := "host".
Definition PROTOCOL_HTTP : string := "http".
Definition PROTOCOL_HTTPS : string := "https".
Definition PROTOCOL_TCP : string := "tcp".
Definition PROTOCOL_UDP : string := "udp".

(** ** [ScopedIpAddr] *)

Record ScopedIpAddr := mk_ScopedIpAddr { sa_address : IpAddr; sa_zone : list byte }.

#[export] Instance ScopedIpAddr_eq_dec : EqDecision ScopedIpAddr.
Proof. solve_decision. Defined.

Definition bytes_of_str (s : string) : list byte := map Ascii.byte_of_ascii (bytes s).
Definition chars_of_bytes (l : list byte) : list ascii := map Ascii.ascii_of_byte l.

(** [impl Display for ScopedIpAddr]. *)
Definition scoped_display (self : ScopedIpAddr) : string :=
  ip_display (sa_address self) +:+
  match sa_zone self with
  | [] => ""
  | zone => "%" +:+ of_bytes (from_utf8_lossy (chars_of_bytes zone))
  end.

(** [impl From<IpAddr> for ScopedIpAddr]. *)
Definition scoped_from_ip (a : IpAddr) : ScopedIpAddr := mk_ScopedIpAddr a [].

(** [impl FromStr for ScopedIpAddr]. *)
Definition scoped_from_str (value : string) : result AddrParseError ScopedIpAddr :=
  let plain := a ← ip_from_str value; Ok (scoped_from_ip a) in
  match split_once "%" value with
  | Some (address, zone) =>
      a ← ip_from_str address;
      if is_ipv6 a && negb (str_is_empty zone)
      then Ok (mk_ScopedIpAddr a (bytes_of_str zone)) else plain
  | None => plain
  end.

(** ** The crate's own [IpPrefix] *)

Record HostPrefix := mk_HostPrefix { hp_address : IpAddr; hp_bits : Z }.

#[export] Instance HostPrefix_eq_dec : EqDecision HostPrefix.
Proof. solve_decision. Defined.

Definition host_prefix_new (address : IpAddr) (bits : Z) : result ApiError HostPrefix :=
  let maximum := if is_ipv4 address then 32 else 128 in
  if maximum <? bits then invalid "invalid prefix" else Ok (mk_HostPrefix address bits).

Definition host_prefix_display (self : HostPrefix) : string :=
  ip_display (hp_address self) +:+ "/" +:+ dec (hp_bits self).

Definition host_prefix_from_str (value : string) : result ApiError HostPrefix :=
  '(address, bits) ← ok_or (Invalid "invalid prefix") (split_once "/" value);
  address ← map_err (fun e => Invalid ("invalid IP address: " +:+ addr_parse_error_display e))
              (ip_from_str address);
  bits ← map_err (fun e => Invalid ("invalid prefix length: " +:+ parse_int_error_display e))
           (parse_u 8 bits);
  host_prefix_new address bits.

(** ** [PortSpec] *)

Record PortSpec := mk_PortSpec {
  ps_hostname : string;
  ps_host_ip : option ScopedIpAddr;
  ps_host_prefix : option HostPrefix;
  ps_published_port : Z;
  ps_container_port : Z;
  ps_protocol : string;
  ps_mode : string
}.

#[export] Instance PortSpec_eq_dec : EqDecision PortSpec.
Proof. solve_decision. Defined.

Definition is_one_of (s : string) (l : list string) : bool := bool_decide (s ∈ l).

Definition validate_hostname (hostname : string) : result ApiError () :=
  if negb (str_contains "." hostname)
  then invalid ("invalid hostname '" +:+ hostname +:+
                "': must be a valid domain name containing at least one dot")
  else Ok ().

(** The mode part of [PortSpec::validate]. *)
Definition validate_ingress (self : PortSpec) : result ApiError () :=
  if bool_decide (is_Some (ps_host_ip self))
  then invalid "host IP cannot be specified in ingress mode"
  else if bool_decide (is_Some (ps_host_prefix self))
  then invalid "host prefix cannot be specified in ingress mode"
  else if negb (str_is_empty (ps_hostname self)) then
    if negb (is_one_of (ps_protocol self) [PROTOCOL_HTTP; PROTOCOL_HTTPS])
    then invalid "hostname is only valid with 'http' or 'https' protocols"
    else validate_hostname (ps_hostname self)
  else Ok ().

Definition validate_host (self : PortSpec) : result ApiError () :=
  if bool_decide (is_Some (ps_host_ip self)) && bool_decide (is_Some (ps_host_prefix self))
  then invalid "host IP and prefix cannot both be specified in host mode"
  else if ps_published_port self =? 0
  then invalid "published port is required in host mode"
  else if negb (is_one_of (ps_protocol self) [PROTOCOL_TCP; PROTOCOL_UDP])
  then invalid ("unsupported protocol '" +:+ ps_protocol self +:+
                "' in host mode, only 'tcp' and 'udp' are supported")
  else if negb (str_is_empty (ps_hostname self))
  then invalid "hostname cannot be specified in host mode"
  else Ok ().

(** [PortSpec::validate]. *)
Definition port_validate (self : PortSpec) : result ApiError () :=
  if ps_container_port self =? 0 then invalid "container port must be non-zero"
  else if str_is_empty (ps_protocol self) then invalid "protocol must be specified"
  else if negb (is_one_of (ps_protocol self)
                  [PROTOCOL_HTTP; PROTOCOL_HTTPS; PROTOCOL_TCP; PROTOCOL_UDP])
  then invalid ("invalid protocol '" +:+ ps_protocol self +:+
                "', supported protocols: 'http', 'https', 'tcp', 'udp'")
  else if str_is_empty (ps_mode self) then invalid "mode must be specified"
  else if bool_decide (ps_mode self = PORT_MODE_INGRESS) then validate_ingress self
  else if bool_decide (ps_mode self = PORT_MODE_HOST) then validate_host self
  else invalid ("invalid mode: '" +:+ ps_mode self +:+ "'").

(** The parts [PortSpec::format] joins with colons. *)
Definition ingress_parts (self : PortSpec) : list string :=
  (if negb (str_is_empty (ps_hostname self)) then [ps_hostname self] else []) ++
  (if negb (ps_published_port self =? 0) then [dec (ps_published_port self)] else []) ++
  [dec (ps_container_port self)].

Definition host_ip_part (a : ScopedIpAddr) : string :=
  if is_ipv6 (sa_address a) then "[" +:+ scoped_display a +:+ "]" else scoped_display a.
Definition host_prefix_part (p : HostPrefix) : string :=
  match hp_address p with
  | V6 a => "[" +:+ ipv6_display a +:+ "]/" +:+ dec (hp_bits p)
  | V4 _ => host_prefix_display p
  end.
Definition host_parts (self : PortSpec) : list string :=
  match ps_host_ip self with Some a => [host_ip_part a] | None => [] end ++
  match ps_host_prefix self with Some p => [host_prefix_part p] | None => [] end ++
  [dec (ps_published_port self); dec (ps_container_port self)].

(** [PortSpec::format]. *)
Definition port_format (self : PortSpec) : result ApiError string :=
  port_validate self;;
  if bool_decide (ps_mode self = PORT_MODE_INGRESS)
  then Ok (str_join ":" (ingress_parts self) +:+ "/" +:+ ps_protocol self)
  else if bool_decide (ps_mode self = PORT_MODE_HOST)
  then Ok (str_join ":" (host_parts self) +:+ "/" +:+ ps_protocol self +:+ "@host")
  else invalid ("not implemented for mode: '" +:+ ps_mode self +:+ "'").

(** [impl Display for PortSpec]. *)
Definition port_display (self : PortSpec) : string :=
  match port_format self with
  | Ok value => value
  | Err e => "<invalid port: " +:+ api_error_display e +:+ ">"
  | Panic m => m
  end.

(** ** The parser *)

Definition split_port_parts (port : string) : list string :=
  let parts := str_split ":" port in
  if (3 <? length parts)%nat then
    let split := (length parts - 2)%nat in
    str_join ":" (take split parts) :: drop split parts
  else parts.

Definition parse_port (value : string) : result ParseIntError Z := parse_u 16 value.

(** The terminal part: the mode, the protocol, the protocol as written (empty
    in host mode, as in the source) and the text of the container port. *)
Definition parse_terminal (terminal : string) :
    result ApiError (string * string * string * string) :=
  match split_once "@" terminal with
  | Some (before, mode) =>
      if bool_decide (mode ≠ PORT_MODE_HOST) then invalid ("invalid mode: '" +:+ mode +:+ "'")
      else match split_once "/" before with
           | Some (port_value, protocol) =>
               if negb (is_one_of protocol [PROTOCOL_TCP; PROTOCOL_UDP])
               then invalid ("unsupported protocol '" +:+ protocol +:+
                             "' in host mode, only 'tcp' and 'udp' are supported")
               else Ok (PORT_MODE_HOST, protocol, "", port_value)
           | None => Ok (PORT_MODE_HOST, PROTOCOL_TCP, "", before)
           end
  | None =>
      match split_once "/" terminal with
      | Some (port_value, protocol) =>
          if negb (is_one_of protocol [PROTOCOL_TCP; PROTOCOL_UDP; PROTOCOL_HTTP; PROTOCOL_HTTPS])
          then invalid ("unsupported protocol: '" +:+ protocol +:+ "'")
          else Ok (PORT_MODE_INGRESS, protocol, protocol, port_value)
      | None => Ok (PORT_MODE_INGRESS, PROTOCOL_TCP, "", terminal)
      end
  end.

(** The host address of a three-part specification in host mode. *)
Definition unbracket (host : string) : result ApiError string :=
  let error := Invalid ("invalid host IP '" +:+ host +:+
                        "': IPv6 address must be enclosed in square brackets") in
  if str_contains ":" host then
    end_ ← ok_or error (str_find "]" host);
    if negb (starts_with "[" host) then Err error
    else Ok (str_drop 1 (str_take end_ host) +:+ str_drop (end_ + 1) host)
  else Ok host.

Definition parse_host (part : string) :
    result ApiError (option ScopedIpAddr * option HostPrefix) :=
  host ← unbracket part;
  if str_contains "/" host then
    p ← with_context ("invalid host prefix '" +:+ part +:+ "': ") (host_prefix_from_str host);
    Ok (None, Some p)
  else
    a ← map_err (fun e => Invalid ("invalid host IP '" +:+ part +:+ "': " +:+
                                   addr_parse_error_display e)) (scoped_from_str host);
    Ok (Some a, None).

(** [parse_port_spec]; [parts] is never empty, and its number selects what
    precedes the container port. *)
Definition parse_port_spec (port : string) : result ApiError PortSpec :=
  if (1 <? str_count "@" port)%nat then invalid "too many '@' symbols"
  else
    let parts := split_port_parts port in
    '(mode, protocol, specified_protocol, terminal) ← parse_terminal (default "" (last parts));
    container_port ← map_err (fun e => Invalid ("invalid container port '" +:+ terminal +:+
                                "': " +:+ parse_int_error_display e)) (parse_port terminal);
    '(hostname, host_ip, host_prefix, published_port) ←
      match parts with
      | [_] => Ok ("", None, None, 0)
      | [first; _] =>
          if str_is_empty first
          then invalid "hostname or published port must be specified, format: hostname:container_port or published_port:container_port"
          else match parse_port first with
               | Ok value => Ok ("", None, None, value)
               | _ => if bool_decide (mode = PORT_MODE_HOST)
                      then invalid "hostname cannot be specified in host mode"
                      else Ok (first, None, None, 0)
               end
      | [first; second; _] =>
          published ← map_err (fun e => Invalid ("invalid published port '" +:+ second +:+
                                "': " +:+ parse_int_error_display e)) (parse_port second);
          if bool_decide (mode = PORT_MODE_HOST) then
            '(host_ip, host_prefix) ← parse_host first;
            Ok ("", host_ip, host_prefix, published)
          else Ok (first, None, None, published)
      | _ => invalid ("unexpected number of parts in port spec: " +:+
                      dec (Z.of_nat (length parts)))
      end;
    protocol ←
      (if negb (str_is_empty hostname) then
         if str_is_empty specified_protocol then Ok PROTOCOL_HTTPS
         else if negb (is_one_of specified_protocol [PROTOCOL_HTTP; PROTOCOL_HTTPS])
         then invalid ("hostname is only valid with 'http' or 'https' protocols, specified: '"
                       +:+ specified_protocol +:+ "'")
         else Ok protocol
       else Ok protocol);
    let spec := mk_PortSpec hostname host_ip host_prefix published_port container_port
                  protocol mode in
    port_validate spec;;
    Ok spec.

(** [ports_equal]: the same specifications in any order. *)
Definition serialise (ports : list PortSpec) : option (list string) :=
  match foldM (fun acc p => s ← port_format p; Ok (acc ++ [s])) [] ports with
  | Ok values => Some (merge_sort String.le values)
  | _ => None
  end.

Definition ports_equal (left_ right_ : list PortSpec) : bool :=
  if negb (length left_ =? length right_)%nat then false
  else match serialise left_, serialise right_ with
       | Some l, Some r => bool_decide (l = r)
       | _, _ => false
       end.
