(* ===== verification/Config.v ===== *)
(** * Configs and their mounts: [config.rs] of ployz-pkg-api *)

From S2P Require Import Prelude RustStr Wire Volume NetAddr.

Record ConfigSpec := mk_ConfigSpec {
  cs_name : string;
  cs_content : list byte
}.

Record ConfigMount := mk_ConfigMount {
  cm_config_name : string;
  cm_container_path : string;
  cm_uid : string;
  cm_gid : string;
  cm_mode : option Z
}.

#[export] Instance ConfigSpec_eq_dec : EqDecision ConfigSpec.
Proof. solve_decision. Defined.
#[export] Instance ConfigMount_eq_dec : EqDecision ConfigMount.
Proof. solve_decision. Defined.

(** [ConfigSpec::validate]. *)
Definition config_validate (self : ConfigSpec) : result ApiError () :=
  if str_is_empty (cs_name self) then invalid "config name is required" else Ok ().

(** [isize::MAX] on the 64-bit targets of the program. *)
Definition isize_max : Z := i_max 64.

Definition parse_numeric_id (field value : string) : result ApiError (option Z) :=
  if str_is_empty value then Ok None
  else
    parsed ← map_err (fun e => Invalid ("invalid " +:+ field +:+ " '" +:+ value +:+ "': "
                                        +:+ parse_int_error_display e)) (parse_u 64 value);
    if isize_max <? parsed
    then invalid ("invalid " +:+ field +:+ " '" +:+ value +:+ "': value too high")
    else Ok (Some parsed).

Definition numeric_uid (self : ConfigMount) : result ApiError (option Z) :=
  parse_numeric_id "Uid" (cm_uid self).
Definition numeric_gid (self : ConfigMount) : result ApiError (option Z) :=
  parse_numeric_id "Gid" (cm_gid self).

(** [ConfigMount::validate]. *)
Definition config_mount_validate (self : ConfigMount) : result ApiError () :=
  if str_is_empty (cm_config_name self) then invalid "config mount source is required"
  else
    numeric_uid self;;
    numeric_gid self;;
    if negb (str_is_empty (cm_container_path self))
       && negb (path_is_absolute (cm_container_path self))
    then invalid "container path must be absolute"
    else Ok ().

(** [impl Ord for ConfigMount]: the tuple of the fields, [None] before [Some]. *)
Definition str_cmp (a b : string) : comparison := String.compare a b.
Definition option_cmp (a b : option Z) : comparison :=
  match a, b with
  | None, None => Eq
  | None, Some _ => Lt
  | Some _, None => Gt
  | Some x, Some y => x ?= y
  end.
Definition then_cmp (c d : comparison) : comparison := match c with Eq => d | _ => c end.
Definition config_mount_cmp (a b : ConfigMount) : comparison :=
  then_cmp (str_cmp (cm_config_name a) (cm_config_name b))
  (then_cmp (str_cmp (cm_container_path a) (cm_container_path b))
  (then_cmp (str_cmp (cm_uid a) (cm_uid b))
  (then_cmp (str_cmp (cm_gid a) (cm_gid b))
            (option_cmp (cm_mode a) (cm_mode b))))).

(** [validate_configs_and_mounts]. *)
Definition validate_configs_and_mounts (configs : list ConfigSpec) (mounts : list ConfigMount) :
    result ApiError () :=
  names ← foldM (fun (names : gset string) config =>
      with_context "invalid config: " (config_validate config);;
      if bool_decide (cs_name config ∈ names)
      then invalid ("duplicate config name: '" +:+ cs_name config +:+ "'")
      else Ok ({[cs_name config]} ∪ names)) ∅ configs;
  forM_ mounts (fun mount =>
      with_context "invalid config mount: " (config_mount_validate mount);;
      if negb (bool_decide (cm_config_name mount ∈ names))
      then invalid ("config mount source '" +:+ cm_config_name mount +:+
                    "' does not refer to any defined config")
      else Ok ()).

(** ** Comparisons that are total preorders *)

Section order.
Local Open Scope Z_scope.

(** A comparison that is a total preorder. *)
Record CmpOrder {A} (cmp : A → A → comparison) : Prop := {
  co_sym x y : cmp y x = CompOpp (cmp x y);
  co_lt x y z : cmp x y = Lt → cmp y z = Lt → cmp x z = Lt;
  co_eq x y z : cmp x y = Eq → cmp x z = cmp y z
}.

Lemma cmp_order_Z {A} (f : A → Z) : CmpOrder (fun x y => f x ?= f y).
Proof.
  split; intros x y; [apply Z.compare_antisym|intros z; rewrite !Z.compare_lt_iff; lia|].
  intros z ->%Z.compare_eq. done.
Qed.

Lemma cmp_order_str {A} (f : A → string) : CmpOrder (fun x y => str_cmp (f x) (f y)).
Proof.
  assert (∀ s t, str_cmp t s = CompOpp (str_cmp s t)) as Hs by (intros; apply String.compare_antisym).
  split; intros x y; [apply Hs| |].
  - intros z H1 H2.
    assert (∀ s t, str_cmp s t = Lt → String.le s t) as Hle.
    { intros s t E. unfold String.le, String.leb. unfold str_cmp in E. by rewrite E. }
    pose proof (transitivity (Hle _ _ H1) (Hle _ _ H2)) as H3. unfold String.le, String.leb in H3.
    destruct (str_cmp (f x) (f z)) eqn:E; [|done|].
    + apply String.compare_eq_iff in E. rewrite E in H1. rewrite Hs, H2 in H1. done.
    + unfold str_cmp in E. by rewrite E in H3.
  - intros z Heq. apply String.compare_eq_iff in Heq. by rewrite Heq.
Qed.

Lemma cmp_order_then {A} (c d : A → A → comparison) : CmpOrder c → CmpOrder d →
  CmpOrder (fun x y => then_cmp (c x y) (d x y)).
Proof.
  intros [S1 L1 E1] [S2 L2 E2]. split; intros x y.
  - rewrite S1, S2. by destruct (c x y), (d x y).
  - intros z. destruct (c x y) eqn:Exy; cbn; [|intros _|done].
    + rewrite (E1 _ _ z Exy). destruct (c y z) eqn:Eyz; cbn; [|done..]. apply L2.
    + destruct (c y z) eqn:Eyz; cbn; [|by rewrite (L1 _ _ _ Exy Eyz)|done].
      by rewrite (S1 z x), <-(E1 y z x Eyz), (S1 x y), Exy.
  - intros z. destruct (c x y) eqn:Exy; [|done|done]. cbn. intros Ed.
    by rewrite (E1 _ _ z Exy), (E2 _ _ z Ed).
Qed.
End order.
