(* ===== verification/ServiceSpec.v ===== *)
(** * Service specifications: [service.rs] of ployz-pkg-api

    The specification of a service and of its container, defaulting,
    validation, equivalence, and the volumes a service mounts.  The parser of
    image references is the crate [oci_spec], a parameter. *)

From S2P Require Import Prelude BTree RustStr Wire Volume NetAddr Port Config.

Definition SERVICE_MODE_REPLICATED : string := "replicated".
Definition SERVICE_MODE_GLOBAL : string := "global".
Definition PULL_POLICY_MISSING : string := "missing".

(** [oci_spec::distribution::Reference]: the tag and the digest of an image
    reference, or the text of the error. *)
Class OciLib := { reference_try_from : string → string + option string * option string }.

Definition is_lower_hex (c : ascii) : bool := is_ascii_digit c || is_af c.

(** [validate_service_id]. *)
Definition validate_service_id (id : string) : bool :=
  (str_len id =? 32)%nat && forallb is_lower_hex (bytes id).

(** ** Data *)

Record CaddySpec := mk_CaddySpec { caddy_text : string }.
Record Placement := mk_Placement { pl_machines : GoSlice string }.

Record HealthcheckSpec := mk_HealthcheckSpec {
  hc_test : GoSlice string;
  hc_interval : Z;
  hc_timeout : Z;
  hc_start_period : Z;
  hc_start_interval : Z;
  hc_retries : Z;
  hc_disable : bool
}.

Record LogDriver := mk_LogDriver { log_name : string; log_options : GoMap string }.

Record DeviceMapping := mk_DeviceMapping {
  dm_host_path : string;
  dm_container_path : string;
  dm_cgroup_permissions : string
}.

Record DeviceRequest := mk_DeviceRequest {
  dr_driver : string;
  dr_count : Z;
  dr_device_ids : GoSlice string;
  dr_capabilities : GoSlice (GoSlice string);
  dr_options : GoMap string
}.

Record Ulimit := mk_Ulimit { ulimit_soft : Z; ulimit_hard : Z }.

Record ContainerResources := mk_ContainerResources {
  res_cpu : Z;
  res_memory : Z;
  res_memory_reservation : Z;
  res_devices : GoSlice DeviceMapping;
  res_device_reservations : GoSlice DeviceRequest;
  res_shared_memory : Z;
  res_ulimits : GoMap Ulimit
}.

Record ContainerSpec := mk_ContainerSpec {
  ct_cap_add : GoSlice string;
  ct_cap_drop : GoSlice string;
  ct_command : GoSlice string;
  ct_entrypoint : GoSlice string;
  ct_env : GoMap string;
  ct_healthcheck : option HealthcheckSpec;
  ct_image : string;
  ct_init : option bool;
  ct_log_driver : option LogDriver;
  ct_pid_mode : string;
  ct_tty : bool;
  ct_open_stdin : bool;
  ct_privileged : bool;
  ct_pull_policy : string;
  ct_resources : ContainerResources;
  ct_stop_grace_period : option Z;
  ct_sysctls : GoMap string;
  ct_user : string;
  ct_volume_mounts : GoSlice VolumeMount;
  ct_config_mounts : GoSlice ConfigMount;
  ct_volumes : GoSlice string
}.

Record PreDeployHook := mk_PreDeployHook {
  hook_command : GoSlice string;
  hook_env : GoMap string;
  hook_privileged : option bool;
  hook_timeout : option Z;
  hook_user : string
}.

Record UpdateConfig := mk_UpdateConfig {
  uc_order : string;
  uc_monitor_period : option Z
}.

Record ServiceSpec := mk_ServiceSpec {
  ss_caddy : option CaddySpec;
  ss_configs : GoSlice ConfigSpec;
  ss_container : ContainerSpec;
  ss_mode : string;
  ss_name : string;
  ss_placement : Placement;
  ss_ports : GoSlice PortSpec;
  ss_pre_deploy : option PreDeployHook;
  ss_replicas : Z;
  ss_update_config : UpdateConfig;
  ss_volumes : GoSlice VolumeSpec
}.

#[export] Instance CaddySpec_eq_dec : EqDecision CaddySpec.
Proof. solve_decision. Defined.
#[export] Instance Placement_eq_dec : EqDecision Placement.
Proof. solve_decision. Defined.
#[export] Instance HealthcheckSpec_eq_dec : EqDecision HealthcheckSpec.
Proof. solve_decision. Defined.
#[export] Instance LogDriver_eq_dec : EqDecision LogDriver.
Proof. solve_decision. Defined.
#[export] Instance DeviceMapping_eq_dec : EqDecision DeviceMapping.
Proof. solve_decision. Defined.
#[export] Instance DeviceRequest_eq_dec : EqDecision DeviceRequest.
Proof. solve_decision. Defined.
#[export] Instance Ulimit_eq_dec : EqDecision Ulimit.
Proof. solve_decision. Defined.
#[export] Instance ContainerResources_eq_dec : EqDecision ContainerResources.
Proof. solve_decision. Defined.
#[export] Instance ContainerSpec_eq_dec : EqDecision ContainerSpec.
Proof. solve_decision. Defined.
#[export] Instance PreDeployHook_eq_dec : EqDecision PreDeployHook.
Proof. solve_decision. Defined.
#[export] Instance UpdateConfig_eq_dec : EqDecision UpdateConfig.
Proof. solve_decision. Defined.

(** [ContainerSpec::default()] and [ServiceSpec::default()]. *)
Definition ContainerResources_default : ContainerResources :=
  mk_ContainerResources 0 0 0 slice_default slice_default 0 map_default.
Definition ContainerSpec_default : ContainerSpec :=
  mk_ContainerSpec slice_default slice_default slice_default slice_default map_default
    None "" None None "" false false false "" ContainerResources_default None map_default ""
    slice_default slice_default slice_default.
Definition ServiceSpec_default : ServiceSpec :=
  mk_ServiceSpec None slice_default ContainerSpec_default "" "" (mk_Placement slice_default)
    slice_default None 0 (mk_UpdateConfig "" None) slice_default.

(** ** Look-ups *)

(** [CaddySpec::equivalent]. *)
Definition caddy_equivalent (left_ right_ : option CaddySpec) : bool :=
  bool_decide (default "" ((fun c => str_trim (caddy_text c)) <$> left_) =
               default "" ((fun c => str_trim (caddy_text c)) <$> right_)).

Definition caddy_config (self : ServiceSpec) : string :=
  default "" ((fun c => str_trim (caddy_text c)) <$> ss_caddy self).

(** [iter().find(..)]. *)
Definition find_first {A} (p : A → bool) (l : list A) : option A := List.find p l.

(** [ServiceSpec::volume] and [ServiceSpec::config]. *)
Definition spec_volume (self : ServiceSpec) (name : string) : option VolumeSpec :=
  find_first (fun v => bool_decide (vs_name v = name)) (slice_values (ss_volumes self)).
Definition spec_config (self : ServiceSpec) (name : string) : option ConfigSpec :=
  find_first (fun c => bool_decide (cs_name c = name)) (slice_values (ss_configs self)).

(** The named Docker volumes among the mounted ones, in mount order. *)
Definition mounted_volume_list (self : ServiceSpec) : list VolumeSpec :=
  filter (fun v => vs_kind v = VOLUME_TYPE_VOLUME)
    (omap (fun m => spec_volume self (vm_volume_name m))
       (slice_values (ct_volume_mounts (ss_container self)))).

(** [ServiceSpec::mounted_docker_volumes]: collected in a [HashMap] by name, so
    each volume once and in no particular order. *)
Definition mounted_docker_volumes `{HashOrder} (self : ServiceSpec) : list VolumeSpec :=
  (hash_iter (foldl (fun (m : gmap string VolumeSpec) v => <[vs_name v := v]> m) ∅
                (mounted_volume_list self))).*2.

(** ** Defaults *)

(** [ContainerSpec::with_defaults]. *)
Definition container_with_defaults (self : ContainerSpec) : ContainerSpec :=
  mk_ContainerSpec (ct_cap_add self) (ct_cap_drop self) (ct_command self) (ct_entrypoint self)
    (ct_env self) (ct_healthcheck self) (ct_image self) (ct_init self)
    (match ct_log_driver self with
     | Some d => Some d
     | None => Some (mk_LogDriver "local" (map_from_btree ∅))
     end)
    (ct_pid_mode self) (ct_tty self) (ct_open_stdin self) (ct_privileged self)
    (if str_is_empty (ct_pull_policy self) then PULL_POLICY_MISSING else ct_pull_policy self)
    (ct_resources self) (ct_stop_grace_period self) (ct_sysctls self) (ct_user self)
    (ct_volume_mounts self) (ct_config_mounts self) (ct_volumes self).

(** [ServiceSpec::with_defaults]. *)
Definition spec_with_defaults (self : ServiceSpec) : ServiceSpec :=
  let mode := if str_is_empty (ss_mode self) then SERVICE_MODE_REPLICATED else ss_mode self in
  let replicas := if bool_decide (mode = SERVICE_MODE_REPLICATED) && (ss_replicas self =? 0)
                  then 1 else ss_replicas self in
  let volumes := if negb (slice_is_nil (ss_volumes self))
                 then slice_from_iter (map volume_with_defaults (slice_values (ss_volumes self)))
                 else ss_volumes self in
  mk_ServiceSpec (ss_caddy self) (ss_configs self) (container_with_defaults (ss_container self))
    mode (ss_name self) (ss_placement self) (ss_ports self) (ss_pre_deploy self) replicas
    (ss_update_config self) volumes.

(** ** Validation *)

Definition invalid_image {A} (input message : string) : result ApiError A :=
  invalid ("invalid image '" +:+ input +:+ "': " +:+ message).

(** The bracketed IPv6 registry of an image reference, which [oci_spec] does not
    know, is replaced by a name. *)
Definition bracketed_registry (input : string) : result ApiError string :=
  let error := Invalid ("invalid image '" +:+ input +:+ "': invalid bracketed registry") in
  slash ← ok_or error (str_find "/" input);
  let authority := str_take slash input in
  close ← ok_or error (str_find "]" authority);
  map_err (fun e => Invalid ("invalid image '" +:+ input +:+ "': "
                             +:+ addr_parse_error_display e))
    (ipv6_from_str (str_drop 1 (str_take close authority)));;
  let port := str_drop (close + 1) authority in
  if negb (str_is_empty port) &&
     match strip_prefix ":" port with
     | None => true
     | Some value => str_is_empty value || negb (forallb is_ascii_digit (bytes value))
     end
  then invalid_image input "invalid registry port"
  else Ok ("ipv6.invalid" +:+ port +:+ str_drop slash input).

Fixpoint tag_bytes_ok (first : bool) (l : list ascii) : bool :=
  match l with
  | [] => true
  | c :: l => (is_ascii_alphanumeric c || ascii_eqb c "_"
               || negb first && (ascii_eqb c "." || ascii_eqb c "-"))
              && tag_bytes_ok false l
  end.
Definition tag_ok (tag : string) : bool :=
  negb (negb (forallb is_ascii_byte (bytes tag)) || str_is_empty tag || (128 <? str_len tag)%nat
        || negb (tag_bytes_ok true (bytes tag))).

Definition digest_length (algorithm : string) : option nat :=
  if bool_decide (algorithm = "sha256") then Some 64%nat
  else if bool_decide (algorithm = "sha384") then Some 96%nat
  else if bool_decide (algorithm = "sha512") then Some 128%nat
  else None.

Definition validate_digest (input digest : string) : result ApiError () :=
  match split_once ":" digest with
  | None => invalid_image input "invalid digest"
  | Some (algorithm, encoded) =>
      match digest_length algorithm with
      | None => invalid_image input "unsupported digest algorithm"
      | Some expected =>
          if negb (str_len encoded =? expected)%nat || negb (forallb is_lower_hex (bytes encoded))
          then invalid_image input "invalid digest" else Ok ()
      end
  end.

(** [validate_docker_reference]. *)
Definition validate_docker_reference `{OciLib} (input : string) : result ApiError () :=
  parse_input ← (if starts_with "[" input then bracketed_registry input else Ok input);
  match reference_try_from parse_input with
  | inl error => invalid_image input error
  | inr (tag, digest) =>
      if match tag with Some tag => negb (tag_ok tag) | None => false end
      then invalid_image input "invalid tag"
      else match digest with
           | Some digest => validate_digest input digest
           | None => Ok ()
           end
  end.

(** [ContainerSpec::validate]. *)
Definition container_validate `{OciLib} (self : ContainerSpec) : result ApiError () :=
  validate_docker_reference (ct_image self);;
  forM_ (slice_values (ct_volume_mounts self)) (fun mount =>
    with_context "invalid volume mount: " (mount_validate mount)).

(** [PreDeployHook::validate]. *)
Definition hook_validate (self : PreDeployHook) : result ApiError () :=
  if slice_is_empty (hook_command self)
  then invalid "pre-deploy hook command is required" else Ok ().

Definition first_or_last_ok (o : option ascii) : bool :=
  match o with Some c => is_ascii_alphanumeric c | None => false end.

(** The name rules of [ServiceSpec::validate]. *)
Definition validate_service_name `{UnicodeLib} (name : string) : result ApiError () :=
  if negb (str_is_empty name) then
    if (63 <? str_len name)%nat
    then invalid ("service name too long (max 63 characters): " +:+ str_debug name)
    else
      let valid := first_or_last_ok (head (bytes name)) && first_or_last_ok (last (bytes name))
        && forallb (fun c => is_ascii_lowercase c || is_ascii_digit c || ascii_eqb c "-")
             (bytes name) in
      if negb valid
      then invalid ("invalid service name: " +:+ str_debug name +:+
        ". must be 1-63 characters, lowercase letters, numbers, and dashes only; must start and end with a letter or number")
      else Ok ()
  else Ok ().

Definition is_ingress (port : PortSpec) : bool :=
  str_is_empty (ps_mode port) || bool_decide (ps_mode port = PORT_MODE_INGRESS).

(** The volume rules of [ServiceSpec::validate]: valid and uniquely named. *)
Definition validate_volumes (volumes : list VolumeSpec) : result ApiError (gset string) :=
  foldM (fun (names : gset string) volume =>
    with_context "invalid volume: " (volume_validate volume);;
    if bool_decide (vs_name volume ∈ names)
    then invalid ("duplicate volume name: '" +:+ vs_name volume +:+ "'")
    else Ok ({[vs_name volume]} ∪ names)) ∅ volumes.

(** [ServiceSpec::validate]. *)
Definition spec_validate `{OciLib, UnicodeLib} (self : ServiceSpec) : result ApiError () :=
  container_validate (ss_container self);;
  (if negb (is_one_of (ss_mode self) [""; SERVICE_MODE_GLOBAL; SERVICE_MODE_REPLICATED])
   then invalid ("invalid mode: " +:+ str_debug (ss_mode self)) else Ok ());;
  validate_service_name (ss_name self);;
  forM_ (slice_values (ss_ports self)) (fun port =>
    if is_ingress port && negb (is_one_of (ps_protocol port) [PROTOCOL_HTTP; PROTOCOL_HTTPS])
    then invalid ("unsupported protocol for ingress port " +:+ dec (ps_container_port port) +:+
                  ": " +:+ ps_protocol port) else Ok ());;
  (if negb (str_is_empty (caddy_config self)) && existsb is_ingress (slice_values (ss_ports self))
   then invalid "ingress ports and Caddy configuration cannot be specified simultaneously: Caddy config is auto-generated from ingress ports, use only one of them. Host mode ports can be used with Caddy config"
   else Ok ());;
  volume_names ← validate_volumes (slice_values (ss_volumes self));
  forM_ (slice_values (ct_volume_mounts (ss_container self))) (fun mount =>
    if negb (bool_decide (vm_volume_name mount ∈ volume_names))
    then invalid ("volume mount references a volume that doesn't exist in the service spec: '"
                  +:+ vm_volume_name mount +:+ "'") else Ok ());;
  with_context "validate service configs and mounts: "
    (validate_configs_and_mounts (slice_values (ss_configs self))
       (slice_values (ct_config_mounts (ss_container self))));;
  match ss_pre_deploy self with
  | Some hook => hook_validate hook
  | None => Ok ()
  end.

(** ** Equivalence *)

(** [VolumeMount] derives its order from its fields. *)
Definition bool_cmp (a b : bool) : comparison :=
  match a, b with false, true => Lt | true, false => Gt | _, _ => Eq end.
Definition volume_mount_cmp (a b : VolumeMount) : comparison :=
  then_cmp (str_cmp (vm_volume_name a) (vm_volume_name b))
  (then_cmp (str_cmp (vm_container_path a) (vm_container_path b))
            (bool_cmp (vm_read_only a) (vm_read_only b))).

Definition volume_mount_le (a b : VolumeMount) : Prop := volume_mount_cmp a b ≠ Gt.
Definition config_mount_le (a b : ConfigMount) : Prop := config_mount_cmp a b ≠ Gt.
#[export] Instance volume_mount_le_dec : RelDecision volume_mount_le.
Proof. intros a b. unfold volume_mount_le. apply _. Defined.
#[export] Instance config_mount_le_dec : RelDecision config_mount_le.
Proof. intros a b. unfold config_mount_le. apply _. Defined.

Definition request_equate_empty_collections (r : DeviceRequest) : DeviceRequest :=
  mk_DeviceRequest (dr_driver r) (dr_count r) (slice_make_non_nil (dr_device_ids r))
    (slice_deref_mut (map slice_make_non_nil) (slice_make_non_nil (dr_capabilities r)))
    (map_make_non_nil (dr_options r)).

Definition resources_equate_empty_collections (r : ContainerResources) : ContainerResources :=
  mk_ContainerResources (res_cpu r) (res_memory r) (res_memory_reservation r)
    (slice_make_non_nil (res_devices r))
    (slice_deref_mut (map request_equate_empty_collections)
       (slice_make_non_nil (res_device_reservations r)))
    (res_shared_memory r) (map_make_non_nil (res_ulimits r)).

(** [ContainerSpec::equate_empty_collections]. *)
Definition container_equate_empty_collections (c : ContainerSpec) : ContainerSpec :=
  mk_ContainerSpec (slice_make_non_nil (ct_cap_add c)) (slice_make_non_nil (ct_cap_drop c))
    (slice_make_non_nil (ct_command c)) (slice_make_non_nil (ct_entrypoint c))
    (map_make_non_nil (ct_env c))
    ((fun h => mk_HealthcheckSpec (slice_make_non_nil (hc_test h)) (hc_interval h) (hc_timeout h)
                 (hc_start_period h) (hc_start_interval h) (hc_retries h) (hc_disable h))
       <$> ct_healthcheck c)
    (ct_image c) (ct_init c)
    ((fun d => mk_LogDriver (log_name d) (map_make_non_nil (log_options d))) <$> ct_log_driver c)
    (ct_pid_mode c) (ct_tty c) (ct_open_stdin c) (ct_privileged c) (ct_pull_policy c)
    (resources_equate_empty_collections (ct_resources c))
    (ct_stop_grace_period c) (map_make_non_nil (ct_sysctls c)) (ct_user c)
    (slice_make_non_nil (ct_volume_mounts c)) (slice_make_non_nil (ct_config_mounts c))
    (slice_make_non_nil (ct_volumes c)).

(** The sorting steps of [ContainerSpec::equivalent]. *)
Definition container_sorted (c : ContainerSpec) : ContainerSpec :=
  mk_ContainerSpec (ct_cap_add c) (ct_cap_drop c) (ct_command c) (ct_entrypoint c) (ct_env c)
    (ct_healthcheck c) (ct_image c) (ct_init c) (ct_log_driver c) (ct_pid_mode c) (ct_tty c)
    (ct_open_stdin c) (ct_privileged c) (ct_pull_policy c) (ct_resources c)
    (ct_stop_grace_period c) (ct_sysctls c) (ct_user c)
    (slice_deref_mut (merge_sort volume_mount_le) (ct_volume_mounts c))
    (slice_deref_mut (merge_sort config_mount_le) (ct_config_mounts c))
    (slice_deref_mut (merge_sort String.le) (ct_volumes c)).

(** [ContainerSpec::equivalent]. *)
Definition container_equivalent (self other : ContainerSpec) : bool :=
  let normal c := container_equate_empty_collections (container_sorted (container_with_defaults c)) in
  bool_decide (normal self = normal other).

(** [PreDeployHook::equivalent]. *)
Definition hook_equivalent (left_ right_ : option PreDeployHook) : bool :=
  let normal h := mk_PreDeployHook (slice_make_non_nil (hook_command h))
                    (map_make_non_nil (hook_env h)) (hook_privileged h) (hook_timeout h)
                    (hook_user h) in
  match left_, right_ with
  | Some l, Some r => bool_decide (normal l = normal r)
  | None, None => true
  | _, _ => false
  end.

(** [EnvVars::to_env]. *)
Definition to_env (self : GoMap string) : list string :=
  map (fun kv => kv.1 +:+ "=" +:+ kv.2)
    (filter (fun kv => kv.1 ≠ "") (btree_iter (map_values self))).
