(* ===== verification/Machine.v ===== *)
(** * Machines as the API shows them: [machine.rs] of ployz-pkg-api and the
    messages [MachineInfo] and [MachineMember] *)

From S2P Require Import Prelude RustStr Wire NetAddr PbAddr Port.

(** ** The messages *)

Record MachineInfo := mk_MachineInfo {
  mi_id : string;
  mi_name : string;
  mi_network : option NetworkConfig;
  mi_public_ip : option Ip;
  mi_daemon_version : string;
  mi_docker_version : string;
  mi_hostname : string;
  mi_arch : string;
  mi_os_pretty_name : string;
  mi_kernel_version : string
}.

Inductive MembershipState : Set := MS_Unknown | MS_Up | MS_Suspect | MS_Down.

Definition membership_state_try_from (v : Z) : option MembershipState :=
  if v =? 0 then Some MS_Unknown else if v =? 1 then Some MS_Up
  else if v =? 2 then Some MS_Suspect else if v =? 3 then Some MS_Down else None.
Definition membership_state_name (s : MembershipState) : string :=
  match s with
  | MS_Unknown => "UNKNOWN" | MS_Up => "UP" | MS_Suspect => "SUSPECT" | MS_Down => "DOWN"
  end.

(** [pb::MachineMember]; its state is a bare [i32]. *)
Record PbMachineMember := mk_PbMachineMember {
  pm_machine : option MachineInfo;
  pm_state : Z
}.

(** ** The native view *)

Record MachineFilter := mk_MachineFilter {
  mf_available : bool;
  mf_names_or_ids : list string
}.

Record ScopedAddrPort := mk_ScopedAddrPort { sap_address : ScopedIpAddr; sap_port : Z }.

Record MachineNetwork := mk_MachineNetwork {
  mn_subnet : option (IpAddr * Z);
  mn_management_ip : option ScopedIpAddr;
  mn_endpoints : list ScopedAddrPort;
  mn_public_key : list byte
}.

Record MachineMember := mk_MachineMember {
  mm_id : string;
  mm_name : string;
  mm_state : string;
  mm_network : MachineNetwork;
  mm_public_ip : option ScopedIpAddr;
  mm_daemon_version : string;
  mm_docker_version : string;
  mm_hostname : string;
  mm_arch : string;
  mm_os_pretty_name : string;
  mm_kernel_version : string
}.

(** [impl Display for ScopedAddrPort]. *)
Definition scoped_addr_port_display (self : ScopedAddrPort) : string :=
  if is_ipv6 (sa_address (sap_address self))
  then "[" +:+ scoped_display (sap_address self) +:+ "]:" +:+ dec (sap_port self)
  else scoped_display (sap_address self) +:+ ":" +:+ dec (sap_port self).

(** [MachineMembersList::find_by_name_or_id]. *)
Definition find_by_name_or_id (members : list PbMachineMember) (name_or_id : string) :
    option PbMachineMember :=
  List.find (fun member =>
    match pm_machine member with
    | Some machine => bool_decide (mi_id machine = name_or_id)
                      || bool_decide (mi_name machine = name_or_id)
    | None => false
    end) members.

Fixpoint map_bytes (f : ascii → ascii) (s : string) : string :=
  match s with EmptyString => "" | String c s => String (f c) (map_bytes f s) end.

Definition capitalise (value : string) : string :=
  match map_bytes to_lower value with
  | EmptyString => ""
  | String c s => String (to_upper c) s
  end.

Definition scoped_of_address (a : Address) : ScopedIpAddr :=
  mk_ScopedIpAddr (addr_ip a) (addr_zone a).

Definition result_to_option {E A} (r : result E A) : option A :=
  match r with Ok a => Some a | _ => None end.

(** [machine_member_from_proto]: fields that do not decode are left empty. *)
Definition machine_member_from_proto {E} (member : PbMachineMember) : result E MachineMember :=
  machine ← expect "Machine not set" (pm_machine member);
  let network :=
    match mi_network machine with
    | Some network =>
        mk_MachineNetwork
          (nc_subnet network ≫= fun p => result_to_option (PbIpPrefix_to_prefix p))
          (scoped_of_address <$>
             (nc_management_ip network ≫= fun ip => result_to_option (Ip_to_addr ip)))
          (map (fun e => mk_ScopedAddrPort (scoped_of_address (ap_address e)) (ap_port e))
             (omap (fun e => result_to_option (IpPort_to_addr_port e)) (nc_endpoints network)))
          (nc_public_key network)
    | None => mk_MachineNetwork None None [] []
    end in
  Ok (mk_MachineMember (mi_id machine) (mi_name machine)
        (capitalise (membership_state_name
           (default MS_Unknown (membership_state_try_from (pm_state member)))))
        network
        (scoped_of_address <$>
           (mi_public_ip machine ≫= fun ip => result_to_option (Ip_to_addr ip)))
        (mi_daemon_version machine) (mi_docker_version machine) (mi_hostname machine)
        (mi_arch machine) (mi_os_pretty_name machine) (mi_kernel_version machine)).

(** [MachineMembersList::to_native]. *)
Definition to_native {E} (members : list PbMachineMember) : result E (list MachineMember) :=
  foldM (fun acc member => m ← machine_member_from_proto member; Ok (acc ++ [m])) [] members.
