(* ===== verification/Scheduler.v ===== *)
(** * Deployment scheduling: the crate ployz-pkg-client-deploy-scheduler

    The cluster snapshot ([state.rs]), placement and volume constraints
    ([constraint.rs]), the machines eligible for a service ([service.rs]) and
    the scheduler that places missing volumes ([volume.rs]).  This file has the
    definitions; [SchedulerProps] has the theorems. *)

From S2P Require Import Prelude BTree RustStr Wire Volume NetAddr PbAddr Port Config ServiceSpec Machine.
#[local] Open Scope nat_scope.

Section scheduler.
Context `{JsonLib, HashOrder, OciLib, UnicodeLib}.

(** ** [state.rs] *)

Record Machine := mk_Machine {
  m_info : MachineInfo;
  m_volumes : list DockerVolume;
  m_scheduled_volumes : list VolumeSpec
}.

Record ClusterState := mk_ClusterState { cl_machines : list Machine }.

Inductive InspectError :=
| ListMachines (e : ApiError)
| ListVolumes (e : ApiError).

Definition inspect_error_display (e : InspectError) : string :=
  match e with
  | ListMachines e => "list machines: " +:+ api_error_display e
  | ListVolumes e => "list volumes: " +:+ api_error_display e
  end.

(** [inspect_cluster_state]: the two queries of the client are its answers. *)
Definition inspect_cluster_state
    (list_machines : option MachineFilter → result ApiError (list PbMachineMember))
    (list_volumes : option VolumeFilter → result ApiError (list MachineVolume)) :
    result InspectError ClusterState :=
  members ← map_err ListMachines (list_machines (Some (mk_MachineFilter true [])));
  volumes ← map_err ListVolumes (list_volumes None);
  machines ← foldM (fun acc member =>
      info ← expect "Machine not set" (pm_machine member);
      let machine_volumes := map mv_volume
        (filter (fun v => mv_machine_id v = mi_id info) volumes) in
      Ok (acc ++ [mk_Machine info machine_volumes []])) [] members;
  Ok (mk_ClusterState machines).

Definition name_or_id_is (name_or_id : string) (m : Machine) : bool :=
  bool_decide (mi_id (m_info m) = name_or_id) || bool_decide (mi_name (m_info m) = name_or_id).

(** [ClusterState::machine] and [machine_name]. *)
Definition cluster_machine (self : ClusterState) (name_or_id : string) : option Machine :=
  List.find (name_or_id_is name_or_id) (cl_machines self).
Definition cluster_machine_name (self : ClusterState) (id : string) : option string :=
  (fun m => mi_name (m_info m)) <$> cluster_machine self id.

(** ** [constraint.rs] *)

(** The implementations of the trait [Constraint]. *)
Inductive Constraint :=
| PlacementConstraint (machines : list string)
| VolumesConstraint (volumes : list VolumeSpec).

(** The test whether a volume planned for a machine serves a required one. *)
Definition scheduled_satisfies (required scheduled : VolumeSpec) : bool :=
  if bool_decide (docker_volume_name required ≠ docker_volume_name scheduled) then false
  else match spec_driver required with
       | None => true
       | Some required_driver =>
           let scheduled_driver := spec_driver (volume_with_defaults scheduled) in
           let default_driver := mk_Driver VOLUME_DRIVER_LOCAL map_default in
           bool_decide (required_driver = default default_driver scheduled_driver)
       end.

Definition volume_available (machine : Machine) (required : VolumeSpec) : bool :=
  if bool_decide (vs_kind required ≠ VOLUME_TYPE_VOLUME) then true
  else if existsb (fun existing =>
            bool_decide (docker_volume_name required = dv_name existing)
            && matches_docker_volume required existing) (m_volumes machine)
  then true
  else existsb (scheduled_satisfies required) (m_scheduled_volumes machine).

(** [Constraint::evaluate]. *)
Definition evaluate (self : Constraint) (machine : Machine) : bool :=
  match self with
  | PlacementConstraint machines =>
      existsb (fun candidate => bool_decide (candidate = mi_id (m_info machine))
                                || bool_decide (candidate = mi_name (m_info machine))) machines
  | VolumesConstraint volumes => forallb (volume_available machine) volumes
  end.

(** [Constraint::description]: the text and the constraint afterwards, whose
    machines the description of a placement sorts in place. *)
Definition description (self : Constraint) : string * Constraint :=
  match self with
  | PlacementConstraint machines =>
      let sorted := merge_sort String.le machines in
      ("Placement constraint by machines: " +:+ str_join ", " sorted,
       PlacementConstraint sorted)
  | VolumesConstraint volumes =>
      let names := merge_sort String.le
        (map docker_volume_name (filter (fun v => vs_kind v = VOLUME_TYPE_VOLUME) volumes)) in
      (match names with
       | [] => "No volumes constraint"
       | _ => "Volumes: " +:+ str_join ", " names
       end, self)
  end.

Definition constraints_from_spec (spec : ServiceSpec) : list Constraint :=
  let placement := slice_values (pl_machines (ss_placement spec)) in
  let volumes := mounted_volume_list spec in
  (if negb (slice_is_empty (pl_machines (ss_placement spec)))
   then [PlacementConstraint placement] else []) ++
  match volumes with [] => [] | _ => [VolumesConstraint volumes] end.

(** ** [ScheduleError] *)

Inductive ScheduleError :=
| InvalidServiceSpec (e : ApiError)
| DuplicateServiceName (name : string)
| ConflictingVolumeDefinitions (name : string)
| ExistingVolumeMismatch (volume machine : string)
| NoEligibleMachines
| ServiceScheduling (service : string) (source : ScheduleError)
| ExistingVolumesConflict (service : string) (volumes : list string)
| SharedServicePlacement (services : list string) (volume : string)
| MixedGlobalAndReplicated (volume : string)
| Internal (message : string)
| PropagationAfterScheduling (volume machine : string) (source : ScheduleError)
| ContainerSchedulingUnsupported.

Definition quote_list (names : list string) : string :=
  str_join ", " (map (fun name => "'" +:+ name +:+ "'") names).

Fixpoint schedule_error_display (e : ScheduleError) : string :=
  match e with
  | InvalidServiceSpec e => "invalid service spec: " +:+ api_error_display e
  | DuplicateServiceName name => "duplicate service name: '" +:+ name +:+ "'"
  | ConflictingVolumeDefinitions name =>
      "volume '" +:+ name +:+ "' is defined multiple times with different options"
  | ExistingVolumeMismatch volume machine =>
      "volume '" +:+ volume +:+ "' specification does not match the existing volume on machine '"
      +:+ machine +:+ "'. Use a different volume name or adjust the volume options to match the existing volume. You can also remove the existing volume from the machine(s) with 'uc volume rm' (WARNING: the data will be lost) and run the deployment again to create a new volume with the correct specification"
  | NoEligibleMachines => "no machines available that satisfy all constraints"
  | ServiceScheduling service source =>
      "schedule service '" +:+ service +:+ "': " +:+ schedule_error_display source
  | ExistingVolumesConflict service volumes =>
      "unable to find a machine that satisfies service '" +:+ service +:+
      "' placement constraints and has all required volumes: " +:+ quote_list volumes
  | SharedServicePlacement services volume =>
      "unable to find a machine that satisfies placement constraints for services "
      +:+ quote_list services +:+ " that must be placed together to share volume '"
      +:+ volume +:+ "'"
  | MixedGlobalAndReplicated volume =>
      "volume '" +:+ volume +:+ "' cannot be shared between global and replicated services: global services require the volume on all machines while replicated services require co-location with the volume"
  | Internal message => message
  | PropagationAfterScheduling volume machine source =>
      "unexpected error while propagating constraints after scheduling volume '" +:+ volume +:+
      "' on machine '" +:+ machine +:+ "': " +:+ schedule_error_display source
  | ContainerSchedulingUnsupported => "not implemented"
  end.

(** ** [service.rs] *)

(** [ServiceScheduler::eligible_machines] of [ServiceScheduler::new(state, spec)]. *)
Definition eligible_machines (state : ClusterState) (spec : ServiceSpec) :
    result ScheduleError (list Machine) :=
  let constraints := constraints_from_spec spec in
  let available := filter (fun machine =>
    forallb (fun c => evaluate c machine) constraints = true) (cl_machines state) in
  match available with [] => Err NoEligibleMachines | _ => Ok available end.

Definition schedule_container (state : ClusterState) (spec : ServiceSpec) :
    result ScheduleError (list MachineInfo) :=
  Err ContainerSchedulingUnsupported.

(** ** [volume.rs] *)

Record VolumeScheduler := mk_VolumeScheduler {
  sched_state : ClusterState;
  service_specs : list ServiceSpec;
  volume_specs : gmap string VolumeSpec;
  volume_services : gmap string (list string);
  existing_volume_machines : gmap string (gset string)
}.

(** The volume a scheduler keeps: defaults set and named as Docker names it. *)
Definition normalise_volume (v : VolumeSpec) : VolumeSpec :=
  let v := volume_with_defaults v in
  mk_VolumeSpec (docker_volume_name v) (vs_kind v) (vs_bind_options v) (vs_tmpfs_options v)
    (vs_volume_options v).

Record new_acc := mk_new_acc {
  acc_specs : list ServiceSpec;
  acc_volume_specs : gmap string VolumeSpec;
  acc_volume_services : gmap string (list string);
  acc_names : gset string
}.

(** One mounted volume of one service. *)
Definition new_volume (service : string)
    (acc : gmap string VolumeSpec * gmap string (list string)) (mounted : VolumeSpec) :
    result ScheduleError (gmap string VolumeSpec * gmap string (list string)) :=
  let '(specs, services) := acc in
  let volume := normalise_volume mounted in
  specs' ← match specs !! vs_name volume with
           | Some seen => if negb (volume_equivalent seen volume)
                          then Err (ConflictingVolumeDefinitions (vs_name volume))
                          else Ok specs
           | None => Ok (<[vs_name volume := volume]> specs)
           end;
  Ok (specs', entry_push services (vs_name volume) service).

(** One service. *)
Definition new_service (acc : new_acc) (spec : ServiceSpec) : result ScheduleError new_acc :=
  map_err InvalidServiceSpec (spec_validate spec);;
  if bool_decide (ss_name spec ∈ acc_names acc) then Err (DuplicateServiceName (ss_name spec))
  else
    let names := {[ss_name spec]} ∪ acc_names acc in
    match mounted_docker_volumes spec with
    | [] => Ok (mk_new_acc (acc_specs acc) (acc_volume_specs acc) (acc_volume_services acc) names)
    | mounted =>
        '(vspecs, vservices) ← foldM (new_volume (ss_name spec))
          (acc_volume_specs acc, acc_volume_services acc) mounted;
        Ok (mk_new_acc (acc_specs acc ++ [spec]) vspecs vservices names)
    end.

(** One existing volume of one machine. *)
Definition new_existing (vspecs : gmap string VolumeSpec) (info : MachineInfo)
    (acc : gmap string (gset string)) (existing : DockerVolume) :
    result ScheduleError (gmap string (gset string)) :=
  match vspecs !! dv_name existing with
  | Some spec =>
      if negb (matches_docker_volume spec existing)
      then Err (ExistingVolumeMismatch (dv_name existing) (mi_name info))
      else Ok (entry_insert acc (dv_name existing) (mi_id info))
  | None => Ok acc
  end.

(** [VolumeScheduler::new]. *)
Definition scheduler_new (state : ClusterState) (specs : list ServiceSpec) :
    result ScheduleError VolumeScheduler :=
  acc ← foldM new_service (mk_new_acc [] ∅ ∅ ∅) specs;
  existing ← foldM (fun m machine =>
      foldM (new_existing (acc_volume_specs acc) (m_info machine)) m (m_volumes machine))
    ∅ (cl_machines state);
  Ok (mk_VolumeScheduler state (acc_specs acc) (acc_volume_specs acc) (acc_volume_services acc)
        existing).

(** [is_volume_for_global_service]. *)
Definition is_volume_for_global_service (self : VolumeScheduler) (volume : string) :
    result ScheduleError bool :=
  services ← btree_index (volume_services self) volume;
  Ok (existsb (fun service =>
        existsb (fun spec => bool_decide (ss_name spec = service)
                             && bool_decide (ss_mode spec = SERVICE_MODE_GLOBAL))
          (service_specs self)) services).

(** The body of the mixed test: one spec updates the two flags. *)
Definition mixed_step (service : string) (flags : bool * bool) (spec : ServiceSpec) : bool * bool :=
  let '(global, replicated) := flags in
  if bool_decide (ss_name spec = service) then
    if bool_decide (ss_mode spec = SERVICE_MODE_GLOBAL) then (true, replicated)
    else (global, true)
  else (global, replicated).

(** [is_volume_shared_between_global_and_replicated]. *)
Definition is_volume_shared_between_global_and_replicated (self : VolumeScheduler)
    (volume : string) : result ScheduleError bool :=
  services ← btree_index (volume_services self) volume;
  let '(global, replicated) :=
    foldl (fun flags service => foldl (mixed_step service) flags (service_specs self))
      (false, false) services in
  Ok (global && replicated).

Notation eligible_map := (gmap string (gset string)).

(** The sets of the services of a volume, by [eligible[service]]. *)
Fixpoint eligible_sets (eligible : eligible_map) (services : list string) :
    result ScheduleError (list (gset string)) :=
  match services with
  | [] => Ok []
  | service :: services =>
      s ← btree_index eligible service;
      rest ← eligible_sets eligible services;
      Ok (s :: rest)
  end.

(** The body of the loop over a volume's services: [eligible[service].len()] is
    compared before the set is replaced. *)
Definition narrow_service (intersection : gset string) (acc : eligible_map * bool)
    (service : string) : result ScheduleError (eligible_map * bool) :=
  let '(eligible, changed) := acc in
  s ← btree_index eligible service;
  Ok (<[service := intersection]> eligible,
      if negb (size s =? size intersection) then true else changed).

(** One volume of one round of [propagate_constraints]. *)
Definition propagate_volume (skipped : gset string) (acc : eligible_map * bool)
    (entry : string * list string) : result ScheduleError (eligible_map * bool) :=
  let '(volume, services) := entry in
  if bool_decide (volume ∈ skipped) || bool_decide (services = []) then Ok acc
  else
    sets ← eligible_sets acc.1 services;
    intersection ← match sets with
                   | s :: rest => Ok (foldl (∩) s rest)
                   | [] => Panic "non-empty services were checked"
                   end;
    if bool_decide (intersection = ∅) then Err (SharedServicePlacement services volume)
    else foldM (narrow_service intersection) acc services.

(** One round over all volumes. *)
Definition propagate_round (self : VolumeScheduler) (skipped : gset string)
    (eligible : eligible_map) : result ScheduleError (eligible_map * bool) :=
  foldM (propagate_volume skipped) (eligible, false) (btree_iter (volume_services self)).

(** The loop of [propagate_constraints]; [None] when the fuel is used up. *)
Fixpoint propagate_loop (fuel : nat) (self : VolumeScheduler) (skipped : gset string)
    (eligible : eligible_map) : option (result ScheduleError eligible_map) :=
  match fuel with
  | O => None
  | S fuel =>
      match propagate_round self skipped eligible with
      | Ok (eligible', changed) =>
          if changed then propagate_loop fuel self skipped eligible'
          else Some (Ok eligible')
      | Err e => Some (Err e)
      | Panic m => Some (Panic m)
      end
  end.

(** A round that changes something shrinks some set, so the loop runs at most
    once more than the sizes of all sets add up to. *)
Definition total_size (eligible : eligible_map) : nat :=
  map_fold (fun _ s n => size s + n) 0 eligible.
Definition propagate_constraints (self : VolumeScheduler) (eligible : eligible_map)
    (skipped : gset string) : result ScheduleError eligible_map :=
  default (Panic "out of fuel")
    (propagate_loop (S (total_size eligible)) self skipped eligible).

(** *** [schedule] *)

Definition without_mounts (spec : ServiceSpec) : ServiceSpec :=
  let c := ss_container spec in
  mk_ServiceSpec (ss_caddy spec) (ss_configs spec)
    (mk_ContainerSpec (ct_cap_add c) (ct_cap_drop c) (ct_command c) (ct_entrypoint c) (ct_env c)
       (ct_healthcheck c) (ct_image c) (ct_init c) (ct_log_driver c) (ct_pid_mode c) (ct_tty c)
       (ct_open_stdin c) (ct_privileged c) (ct_pull_policy c) (ct_resources c)
       (ct_stop_grace_period c) (ct_sysctls c) (ct_user c) (slice_from_vec [])
       (ct_config_mounts c) (ct_volumes c))
    (ss_mode spec) (ss_name spec) (ss_placement spec) (ss_ports spec) (ss_pre_deploy spec)
    (ss_replicas spec) (ss_update_config spec) (ss_volumes spec).

(** First loop: the machines each service may run on, by placement alone. *)
Definition initial_eligible (self : VolumeScheduler) : result ScheduleError eligible_map :=
  foldM (fun eligible spec =>
    machines ← map_err (ServiceScheduling (ss_name spec))
                 (eligible_machines (sched_state self) (without_mounts spec));
    Ok (<[ss_name spec := list_to_set (map (fun m => mi_id (m_info m)) machines)]> eligible))
    ∅ (service_specs self).

(** Second loop: services of an existing volume go where it exists. *)
Definition narrow_existing_service (volume_name : string) (volume_machines : gset string)
    (acc : eligible_map * gmap string (list string)) (service_name : string) :
    result ScheduleError (eligible_map * gmap string (list string)) :=
  let '(eligible, quoted) := acc in
  let quoted := entry_push quoted service_name volume_name in
  s ← btree_index eligible service_name;
  let narrowed := s ∩ volume_machines in
  if bool_decide (narrowed = ∅) then
    volumes ← btree_index quoted service_name;
    Err (ExistingVolumesConflict service_name volumes)
  else Ok (<[service_name := narrowed]> eligible, quoted).

Definition narrow_existing (self : VolumeScheduler) (eligible : eligible_map) :
    result ScheduleError eligible_map :=
  acc ← foldM (fun (acc : eligible_map * gmap string (list string))
                   (entry : string * gset string) =>
      let '(volume_name, volume_machines) := entry in
      global ← is_volume_for_global_service self volume_name;
      if (global : bool) then Ok acc
      else
        services ← btree_index (volume_services self) volume_name;
        foldM (narrow_existing_service volume_name volume_machines) acc services)
    (eligible, ∅) (btree_iter (existing_volume_machines self));
  Ok acc.1.

(** Third part: the volumes that need no co-location. *)
Definition initially_placed (self : VolumeScheduler) : result ScheduleError (gset string) :=
  placed ← foldM (fun (placed : gset string) volume =>
      global ← is_volume_for_global_service self volume;
      Ok (if negb global then placed ∪ {[volume]} else placed))
    ∅ (btree_keys (existing_volume_machines self));
  foldM (fun (placed : gset string) volume =>
      mixed ← is_volume_shared_between_global_and_replicated self volume;
      if (mixed : bool) then Err (MixedGlobalAndReplicated volume)
      else
        global ← is_volume_for_global_service self volume;
        Ok (if (global : bool) then placed ∪ {[volume]} else placed))
    placed (btree_keys (volume_specs self)).

(** The state of the placing loop. *)
Record place_acc := mk_place_acc {
  pa_eligible : eligible_map;
  pa_placed : gset string;
  pa_scheduled : gmap string (list VolumeSpec)
}.

(** The machines a volume may go to. *)
Definition volume_eligible (global : bool) (eligible : eligible_map) (services : list string) :
    result ScheduleError (gset string) :=
  if global then
    sets ← eligible_sets eligible services;
    Ok (⋃ sets)
  else
    first ← expect "index out of bounds" (head services);
    btree_index eligible first.

(** A volume of global services goes to every eligible machine without it. *)
Definition place_global (self : VolumeScheduler) (volume_name : string)
    (volume_spec : VolumeSpec) (machines : gset string) (acc : place_acc) : place_acc :=
  let existing := existing_volume_machines self !! volume_name in
  let scheduled := foldl (fun scheduled machine =>
      if match existing with Some ms => bool_decide (machine ∈ ms) | None => false end
      then scheduled else entry_push scheduled machine volume_spec)
    (pa_scheduled acc) (bset_iter machines) in
  mk_place_acc (pa_eligible acc) (pa_placed acc ∪ {[volume_name]}) scheduled.

(** A missing volume of replicated services goes to the first eligible machine. *)
Definition place_replicated (self : VolumeScheduler) (volume_name : string)
    (volume_spec : VolumeSpec) (services : list string) (machines : gset string)
    (acc : place_acc) : result ScheduleError place_acc :=
  if match existing_volume_machines self !! volume_name with
     | Some ms => negb (bool_decide (ms = ∅))
     | None => false
     end
  then Ok acc
  else
    machine ← expect "non-empty set was checked" (bset_first machines);
    let eligible := foldl (fun eligible service => <[service := {[machine]}]> eligible)
                      (pa_eligible acc) services in
    let placed := pa_placed acc ∪ {[volume_name]} in
    let scheduled := entry_push (pa_scheduled acc) machine volume_spec in
    eligible ← map_err (PropagationAfterScheduling volume_name machine)
                 (propagate_constraints self eligible placed);
    Ok (mk_place_acc eligible placed scheduled).

(** One volume of the placing loop. *)
Definition place_volume (self : VolumeScheduler) (acc : place_acc)
    (entry : string * VolumeSpec) : result ScheduleError place_acc :=
  let '(volume_name, volume_spec) := entry in
  services ← btree_index (volume_services self) volume_name;
  if bool_decide (services = [])
  then Err (Internal ("bug detected: no services using volume '" +:+ volume_name +:+ "'"))
  else
    global ← is_volume_for_global_service self volume_name;
    machines ← volume_eligible global (pa_eligible acc) services;
    if bool_decide (machines = ∅)
    then Err (Internal ("bug detected: no eligible machines for volume '"
                        +:+ volume_name +:+ "'"))
    else if (global : bool)
    then Ok (place_global self volume_name volume_spec machines acc)
    else place_replicated self volume_name volume_spec services machines acc.

(** Last loop: the first machine with the id remembers the planned volumes. *)
Fixpoint add_scheduled (machine_id : string) (volumes : list VolumeSpec) (l : list Machine) :
    list Machine :=
  match l with
  | [] => []
  | m :: l =>
      if bool_decide (mi_id (m_info m) = machine_id)
      then mk_Machine (m_info m) (m_volumes m) (m_scheduled_volumes m ++ volumes) :: l
      else m :: add_scheduled machine_id volumes l
  end.

Definition commit (scheduled : gmap string (list VolumeSpec)) (state : ClusterState) :
    ClusterState :=
  mk_ClusterState
    (foldl (fun ms entry => add_scheduled entry.1 entry.2 ms) (cl_machines state)
       (btree_iter scheduled)).

(** [VolumeScheduler::schedule]: the plan and the cluster state it leaves. *)
Definition schedule (self : VolumeScheduler) :
    result ScheduleError (gmap string (list VolumeSpec) * ClusterState) :=
  if bool_decide (length (service_specs self) = 0) then Ok (∅, sched_state self)
  else
    eligible ← initial_eligible self;
    eligible ← narrow_existing self eligible;
    placed ← initially_placed self;
    eligible ← propagate_constraints self eligible placed;
    acc ← foldM (place_volume self) (mk_place_acc eligible placed ∅)
            (btree_iter (volume_specs self));
    Ok (pa_scheduled acc, commit (pa_scheduled acc) (sched_state self)).

End scheduler.
