(* ===== verification/Propagate.v ===== *)
(** * Constraint propagation: [propagate_constraints] of the deploy scheduler

    Services that share a volume must run on one machine.  The scheduler keeps,
    for each service, the set of machines it may still use, and narrows the sets
    of the services of a volume to their intersection until nothing changes.
    This file shows that the loop terminates, that its result is the greatest
    family below the given one whose sets agree along every volume, and that it
    fails exactly when no assignment of machines to services respects the sets
    and the shared volumes. *)

From S2P Require Import Prelude BTree RustStr Wire Volume NetAddr PbAddr Port Config ServiceSpec Machine Scheduler.
#[local] Open Scope nat_scope.

Notation eligible_map := (gmap string (gset string)).

(** ** Families of sets *)

(** [e' ⊑ₑ e]: the same services, each with a smaller set. *)
Definition narrows (e' e : eligible_map) : Prop :=
  dom e' = dom e ∧ ∀ s S', e' !! s = Some S' → ∃ S, e !! s = Some S ∧ S' ⊆ S.
Infix "⊑ₑ" := narrows (at level 70).

(** An assignment of machines to services that respects the family. *)
Definition feasible (e : eligible_map) (a : string → string) : Prop :=
  ∀ s S, e !! s = Some S → a s ∈ S.

Definition all_nonempty (e : eligible_map) : Prop := map_Forall (fun _ S => S ≠ ∅) e.

#[export] Instance narrows_preorder : PreOrder narrows.
Proof.
  split.
  - intros e. split; [done|]. eauto.
  - intros e1 e2 e3 [D12 H12] [D23 H23]. split; [congruence|]. intros s S1 HS1.
    destruct (H12 _ _ HS1) as (S2 & HS2 & ?), (H23 s S2 HS2) as (S3 & HS3 & ?).
    exists S3. split; [done|set_solver].
Qed.

Lemma feasible_narrows e e' a : e' ⊑ₑ e → feasible e' a → feasible e a.
Proof.
  intros [D H] Hf s S HS.
  assert (s ∈ dom e') as [S' HS']%elem_of_dom by (rewrite D; by apply elem_of_dom_2 in HS).
  destruct (H _ _ HS') as (S2 & ? & ?). simplify_eq. apply Hf in HS'. set_solver.
Qed.

Lemma narrows_insert e s S S' :
  e !! s = Some S → S' ⊆ S → <[s := S']> e ⊑ₑ e.
Proof.
  intros HS Hsub. split.
  - rewrite dom_insert_L. apply elem_of_dom_2 in HS. set_solver.
  - intros t T. rewrite lookup_insert_Some. naive_solver.
Qed.

Lemma total_size_insert (e : eligible_map) s S :
  e !! s = None → total_size (<[s := S]> e) = size S + total_size e.
Proof. intros Hs. unfold total_size. rewrite map_fold_insert_L; [done| |done]. intros; lia. Qed.

Lemma total_size_delete (e : eligible_map) s S :
  e !! s = Some S → total_size e = size S + total_size (delete s e).
Proof.
  intros Hs. rewrite <-(insert_delete_id e s S) at 1 by done.
  apply total_size_insert, lookup_delete_eq.
Qed.

Lemma narrows_delete e e' s : e' ⊑ₑ e → delete s e' ⊑ₑ delete s e.
Proof.
  intros [D H]. split; [by rewrite !dom_delete_L, D|].
  intros t T. rewrite lookup_delete_Some. intros [Hne HT].
  destruct (H _ _ HT) as (T' & ? & ?). exists T'. by rewrite lookup_delete_ne.
Qed.

(** Narrowing never adds up to more, and adds up to less unless it changes
    nothing. *)
Lemma total_size_narrows e e' :
  e' ⊑ₑ e → total_size e' <= total_size e ∧ (total_size e' = total_size e → e' = e).
Proof.
  revert e'. induction e as [|s S e Hs IH] using map_ind; intros e' Hn.
  { destruct Hn as [D _]. rewrite dom_empty_L in D. apply dom_empty_inv_L in D as ->. done. }
  assert (s ∈ dom e') as [S' HS']%elem_of_dom by (rewrite (proj1 Hn), dom_insert_L; set_solver).
  destruct (proj2 Hn _ _ HS') as (T & HT & Hsub). rewrite lookup_insert_eq in HT. simplify_eq.
  apply (narrows_delete _ _ s) in Hn. rewrite delete_insert_id in Hn by done.
  destruct (IH _ Hn) as [Hle Heq].
  rewrite (total_size_delete e' s S' HS'), total_size_insert by done.
  pose proof (subseteq_size _ _ Hsub). split; [lia|]. intros E.
  rewrite <-(insert_delete_id e' s S') by done. rewrite Heq by lia. f_equal.
  apply set_eq. intros x. split; [set_solver|]. intros Hx.
  destruct (decide (x ∈ S')) as [|Hn']; [done|].
  assert (S' ⊂ T) as Hlt by set_solver. apply subset_size in Hlt. lia.
Qed.

(** The least member of each set is an assignment. *)
Definition least_choice (e : eligible_map) (s : string) : string :=
  default "" (e !! s ≫= bset_first).

Lemma least_choice_feasible e : all_nonempty e → feasible e (least_choice e).
Proof.
  intros Hne s S HS. unfold least_choice. rewrite HS. cbn.
  destruct (bset_first S) as [x|] eqn:E; [by apply bset_first_elem|].
  apply bset_first_None in E. by apply Hne in HS.
Qed.

Section propagate.
Context `{JsonLib, HashOrder, OciLib, UnicodeLib}.

(** ** One volume *)

Definition constant_on (a : string → string) (services : list string) : Prop :=
  ∀ s1 s2, s1 ∈ services → s2 ∈ services → a s1 = a s2.
Definition uniform_on (e : eligible_map) (services : list string) : Prop :=
  ∃ I, ∀ s, s ∈ services → e !! s = Some I.

Lemma eligible_sets_Ok e services :
  Forall (.∈ dom e) services →
  ∃ sets, eligible_sets e services = Ok sets ∧
    Forall2 (fun s S => e !! s = Some S) services sets.
Proof.
  induction 1 as [|s services [S HS]%elem_of_dom _ IH]; [by exists []|].
  destruct IH as (sets & Hsets & Hall). exists (S :: sets). cbn [eligible_sets].
  split; [|by constructor]. unfold btree_index. rewrite HS. cbn. by rewrite Hsets.
Qed.

Lemma elem_of_foldl_inter (sets : list (gset string)) S x :
  x ∈ foldl (∩) S sets ↔ x ∈ S ∧ Forall (x ∈.) sets.
Proof.
  revert S. induction sets as [|T sets IH]; intros S; cbn [foldl].
  - split; [by split|by intros []].
  - rewrite IH, Forall_cons, elem_of_intersection. tauto.
Qed.

Lemma narrow_services_spec (I : gset string) e c services :
  (∀ s, s ∈ services → ∃ S, e !! s = Some S ∧ I ⊆ S) →
  result_spec (foldM (narrow_service I) (e, c) services)
    (fun '(e', c') =>
       (∀ s, e' !! s = if decide (s ∈ services) then Some I else e !! s) ∧
       (c' = true ↔ c = true ∨ e' ≠ e)) (fun _ => False).
Proof.
  intros Hsub.
  eapply result_spec_mono;
    [apply (foldM_spec _ (fun pre '(e', c') =>
       (∀ s, e' !! s = if decide (s ∈ pre) then Some I else e !! s) ∧
       (c' = true ↔ c = true ∨ ∃ s, s ∈ pre ∧ e !! s ≠ Some I)) (fun _ => False))| |done].
  - split; [intros s; by rewrite decide_False by set_solver|]. set_solver.
  - intros pre x post [e' c'] -> [He' Hc']. unfold narrow_service.
    destruct (Hsub x ltac:(set_solver)) as (S & HS & HIS).
    assert (∃ T, e' !! x = Some T ∧ (T = I ∨ e !! x = Some T) ∧ (x ∈ pre → T = I)) as (T & HT & HTI & Hp).
    { rewrite He'. case_decide; [by exists I; auto|]. exists S. naive_solver. }
    unfold btree_index. rewrite HT. cbn. split.
    + intros s. destruct (decide (s = x)) as [->|Hne].
      * rewrite lookup_insert_eq, decide_True by set_solver. done.
      * rewrite lookup_insert_ne, He' by done.
        destruct (decide (s ∈ pre)), (decide (s ∈ pre ++ [x])); set_solver.
    + destruct (Nat.eqb_spec (size T) (size I)) as [E|E]; cbn [negb].
      * assert (e !! x = Some I ∨ x ∈ pre) as Hx.
        { destruct HTI as [->|HeT].
          - rewrite He' in HT. destruct (decide (x ∈ pre)); [by right|by left].
          - left. rewrite HeT in HS. simplify_eq. rewrite HeT. f_equal.
            apply set_eq. intros y. split; [|set_solver]. intros Hy.
            destruct (decide (y ∈ I)); [done|].
            assert (I ⊂ S) as Hlt%subset_size by set_solver. lia. }
        rewrite Hc'. split; [set_solver|]. intros [?|(s & Hs & ?)]; [by left|].
        apply elem_of_app in Hs as [?|Hs%list_elem_of_singleton]; [set_solver|subst s].
        destruct Hx; [done|set_solver].
      * split; [|done]. intros _. right. exists x. split; [set_solver|].
        destruct HTI as [->|HeT]; [done|]. rewrite HeT. intros [= ->]. done.
  - intros [e' c'] _ [He' Hc']. split; [done|]. rewrite Hc'. split; (intros [?|Hx]; [by left|right]).
    + destruct Hx as (s & Hs & Hne). intros ->. apply Hne. rewrite (He' s). by rewrite decide_True.
    + apply Exists_exists, dec_stable. intros Hno. apply Hx, map_eq. intros s. rewrite He'.
      case_decide; [|done]. rewrite Exists_exists in Hno.
      destruct (decide (e !! s = Some I)); [done|]. naive_solver.
Qed.

Definition active (skipped : gset string) (volume : string) (services : list string) : Prop :=
  volume ∉ skipped ∧ services ≠ [].

Lemma intersection_spec (e : eligible_map) services S0 sets (I := foldl (∩) S0 sets) :
  Forall2 (fun s S => e !! s = Some S) services (S0 :: sets) →
  (∀ s, s ∈ services → ∃ S, e !! s = Some S ∧ I ⊆ S) ∧
  (∀ x, (∀ s S, s ∈ services → e !! s = Some S → x ∈ S) → x ∈ I).
Proof.
  intros Hall. inversion_clear Hall as [|s S services' sets' HS Hall']. rename Hall' into Hall.
  split.
  - intros t Ht.
    assert (∃ T, e !! t = Some T ∧ (T = S0 ∨ T ∈ sets)) as (T & HT & Hin).
    { apply elem_of_cons in Ht as [->|Ht]; [by exists S0; auto|].
      apply list_elem_of_lookup in Ht as [i Hi].
      destruct (Forall2_lookup_l _ _ _ _ _ Hall Hi) as (T & HTi & HT).
      exists T. split; [done|right]. by eapply list_elem_of_lookup_2. }
    exists T. split; [done|]. intros x [Hx Hxs]%elem_of_foldl_inter.
    destruct Hin as [->|Hin]; [done|]. rewrite Forall_forall in Hxs. by apply Hxs.
  - intros x Hx. apply elem_of_foldl_inter. split; [apply (Hx s); [set_solver|done]|].
    apply Forall_forall. intros T [i Hi]%list_elem_of_lookup.
    destruct (Forall2_lookup_r _ _ _ _ _ Hall Hi) as (t & Hti & HT).
    apply (Hx t); [|done]. apply elem_of_cons. right. by eapply list_elem_of_lookup_2.
Qed.

Lemma propagate_volume_spec skipped e c volume services :
  Forall (.∈ dom e) services →
  result_spec (propagate_volume skipped (e, c) (volume, services))
    (fun '(e', c') => e' ⊑ₑ e ∧ (active skipped volume services → uniform_on e' services) ∧
       (all_nonempty e → all_nonempty e') ∧
       (∀ a, feasible e a → (active skipped volume services → constant_on a services) →
          feasible e' a) ∧
       (c' = true ↔ c = true ∨ e' ≠ e))
    (fun err => err = SharedServicePlacement services volume ∧ active skipped volume services ∧
       ∀ a, feasible e a → ¬ constant_on a services).
Proof.
  intros Hdom. unfold propagate_volume.
  destruct (bool_decide (volume ∈ skipped) || bool_decide (services = [])) eqn:Eskip.
  { cbn. apply orb_true_iff in Eskip as [E%bool_decide_eq_true|E%bool_decide_eq_true];
      unfold active; naive_solver. }
  apply orb_false_iff in Eskip as [E1%bool_decide_eq_false E2%bool_decide_eq_false].
  assert (active skipped volume services) as Hact by done.
  destruct (eligible_sets_Ok e services Hdom) as (sets & Hsets & Hall). cbn [fst].
  rewrite Hsets. cbn [mbind result_bind].
  destruct sets as [|S0 sets]; [by apply Forall2_nil_inv_r in Hall|].
  destruct (intersection_spec _ _ _ _ Hall) as [Hsub Hgreat].
  set (I := foldl (∩) S0 sets) in *. cbn [mbind result_bind].
  assert (∀ a s, feasible e a → constant_on a services → s ∈ services → a s ∈ I) as HaI.
  { intros a s Ha Hconst Hs. apply Hgreat. intros t T Ht HT.
    rewrite (Hconst s t) by done. by apply (Ha t). }
  case_bool_decide as EI.
  { cbn. split_and!; [done..|]. intros a Ha Hconst.
    destruct services as [|s services]; [done|].
    assert (a s ∈ I) as Hin by (apply HaI; set_solver). rewrite EI in Hin. set_solver. }
  eapply result_spec_mono; [by apply narrow_services_spec| |done].
  intros [e' c'] _ [He' Hc']. split_and!.
  - split.
    + apply set_eq. intros s. rewrite !elem_of_dom, He'.
      case_decide as Hs; [|done]. destruct (Hsub s Hs) as (S & HS & _). rewrite HS.
      split; intros _; eauto.
    + intros s S'. rewrite He'. case_decide as Hs; [|by eauto]. intros [= <-]. by apply Hsub.
  - intros _. exists I. intros s Hs. by rewrite He', decide_True.
  - intros Hne s S'. rewrite He'. case_decide; [by intros [= <-]|apply Hne].
  - intros a Ha Hconst s S'. rewrite He'. case_decide; [|apply Ha].
    intros [= <-]. apply HaI; auto.
  - done.
Qed.

(** ** One round, and the loop *)

Context (self : VolumeScheduler) (skipped : gset string).

(** An assignment that puts services of a shared volume together. *)
Definition colocated (a : string → string) : Prop :=
  ∀ v services, volume_services self !! v = Some services → active skipped v services →
    constant_on a services.
Definition uniform (e : eligible_map) : Prop :=
  ∀ v services, volume_services self !! v = Some services → active skipped v services →
    uniform_on e services.
(** Every service of a volume has a set. *)
Definition covers (e : eligible_map) : Prop :=
  ∀ v services, volume_services self !! v = Some services → Forall (.∈ dom e) services.

Lemma covers_narrows e e' : e' ⊑ₑ e → covers e → covers e'.
Proof. intros [D _] Hc v services Hv. rewrite D. by eapply Hc. Qed.

Lemma propagate_round_spec e :
  covers e →
  result_spec (propagate_round self skipped e)
    (fun '(e', c') => e' ⊑ₑ e ∧ (all_nonempty e → all_nonempty e') ∧
       (∀ a, feasible e a → colocated a → feasible e' a) ∧
       (c' = false → e' = e ∧ uniform e) ∧ (c' = true → total_size e' < total_size e))
    (fun err => (∃ services v, err = SharedServicePlacement services v ∧
                   volume_services self !! v = Some services ∧ v ∉ skipped) ∧
       ∀ a, feasible e a → ¬ colocated a).
Proof.
  intros Hcov. unfold propagate_round.
  eapply result_spec_mono; [apply (foldM_spec _ (fun pre '(e', c') =>
    e' ⊑ₑ e ∧ (all_nonempty e → all_nonempty e') ∧
    (∀ a, feasible e a → colocated a → feasible e' a) ∧
    (c' = false → e' = e ∧ ∀ v services, (v, services) ∈ pre → active skipped v services →
       uniform_on e services) ∧
    (c' = true → total_size e' < total_size e))
    (fun err => (∃ services v, err = SharedServicePlacement services v ∧
                   volume_services self !! v = Some services ∧ v ∉ skipped) ∧
       ∀ a, feasible e a → ¬ colocated a))| |done].
  - split_and!; [done..| |done]. intros _. split; [done|]. set_solver.
  - intros pre [v services] post [e1 c1] Hit (Hn & Hne & Hfe & Hf & Ht).
    assert (volume_services self !! v = Some services) as Hv
      by (apply elem_of_btree_iter; rewrite Hit; set_solver).
    assert (Forall (.∈ dom e1) services) as Hdom by (by eapply covers_narrows).
    eapply result_spec_mono; [by apply propagate_volume_spec| |].
    + intros [e2 c2] _ (Hn2 & Hu2 & Hne2 & Hfe2 & Hc2).
      pose proof (total_size_narrows _ _ Hn2) as [Hle Heq].
      split_and!; [by etrans|by auto|by eauto| |].
      * intros ->. destruct c1; [naive_solver|].
        destruct (Hf eq_refl) as [-> Hpre].
        assert (e2 = e) as -> by (destruct (decide (e2 = e)); [done|naive_solver]).
        split; [done|]. intros v' services' [Hin|Hin]%elem_of_app; [by eauto|].
        apply list_elem_of_singleton in Hin. simplify_eq. done.
      * intros ->. destruct (proj1 Hc2 eq_refl) as [->|Hne']; [specialize (Ht eq_refl); lia|].
        pose proof (total_size_narrows _ _ Hn) as [? _].
        assert (total_size e2 ≠ total_size e1) by auto. lia.
    + intros err _ (-> & Hact & Hno). split; [exists services, v; split_and!; [done..|apply Hact]|].
      intros a Ha Hcol. apply (Hno a); [by auto|]. by eapply Hcol.
  - intros [e' c'] _ (? & ? & ? & Hf & ?). split_and!; [done..| |done].
    intros ->. destruct (Hf eq_refl) as [-> Hall]. split; [done|].
    intros v services Hv. apply Hall. by apply elem_of_btree_iter.
Qed.

(** The outcome of the propagation from [e]: the greatest uniform family below
    [e], or the proof that there is none. *)
Definition propagated (e : eligible_map) (r : result ScheduleError eligible_map) : Prop :=
  result_spec r
    (fun e' => e' ⊑ₑ e ∧ (all_nonempty e → all_nonempty e') ∧ uniform e' ∧
       ∀ a, feasible e a → colocated a → feasible e' a)
    (fun err => (∃ services v, err = SharedServicePlacement services v ∧
                   volume_services self !! v = Some services ∧ v ∉ skipped) ∧
       ∀ a, feasible e a → ¬ colocated a).

Lemma propagate_loop_spec fuel e :
  covers e → total_size e < fuel →
  ∃ r, propagate_loop fuel self skipped e = Some r ∧ propagated e r.
Proof.
  revert e. induction fuel as [|fuel IH]; intros e Hcov Hfuel; [lia|]. cbn [propagate_loop].
  pose proof (propagate_round_spec e Hcov) as Hr.
  destruct (propagate_round self skipped e) as [[e' [|]]|err|] eqn:E; cbn in Hr; [| | |done].
  - destruct Hr as (Hn & Hne & Hfe & _ & Ht). specialize (Ht eq_refl).
    destruct (IH e') as (r & Hr & Hp); [by eapply covers_narrows|lia|].
    exists r. split; [done|]. eapply result_spec_mono; [exact Hp| |].
    + intros e'' _ (Hn' & Hne' & Hu & Hfe'). split_and!; [by etrans|by auto|done|by eauto].
    + intros err _ [? Hno]. split; [done|]. intros a Ha Hcol. by apply (Hno a); auto.
  - destruct Hr as (Hn & Hne & Hfe & Hf & _). destruct (Hf eq_refl) as [-> Hu].
    eexists. split; [done|]. cbn. by split_and!.
  - eexists. split; [done|]. done.
Qed.

Lemma propagate_constraints_spec e :
  covers e → propagated e (propagate_constraints self e skipped).
Proof.
  intros Hcov. destruct (propagate_loop_spec (S (total_size e)) e Hcov) as (r & Hr & Hp); [lia|].
  unfold propagate_constraints. by rewrite Hr.
Qed.

(** Sets that agree along the volumes have the same least member there. *)
Lemma uniform_least_colocated e : uniform e → colocated (least_choice e).
Proof.
  intros Hu v services Hv Hact s1 s2 Hs1 Hs2. destruct (Hu v services Hv Hact) as [I HI].
  unfold least_choice. by rewrite (HI s1 Hs1), (HI s2 Hs2).
Qed.

(** A service of no shared volume keeps its set. *)
Lemma propagated_untouched e e' s :
  propagated e (Ok e') → all_nonempty e →
  (∀ v services, volume_services self !! v = Some services → active skipped v services →
     s ∉ services) →
  e' !! s = e !! s.
Proof.
  intros (Hn & Hne & Hu & Hgreat) Hne0 Hfree. specialize (Hne Hne0).
  destruct (e' !! s) as [S'|] eqn:HS'.
  2: { symmetry. apply not_elem_of_dom. rewrite <-(proj1 Hn). by apply not_elem_of_dom. }
  destruct (proj2 Hn _ _ HS') as (S & HS & Hsub). rewrite HS. f_equal.
  apply set_eq. intros x. split; [set_solver|]. intros Hx.
  set (a t := if decide (t = s) then x else least_choice e' t).
  assert (a s = x) as Hax by (unfold a; by rewrite decide_True). rewrite <-Hax.
  refine (Hgreat a _ _ s S' HS').
  - intros t T HT. unfold a. case_decide; [by simplify_eq|].
    by eapply feasible_narrows; [done|apply least_choice_feasible|].
  - intros v services Hv Hact s1 s2 Hs1 Hs2. unfold a.
    assert (s ∉ services) as Hs by eauto.
    rewrite !decide_False by set_solver. by eapply uniform_least_colocated.
Qed.

(** The loop succeeds as soon as one assignment is left. *)
Lemma propagated_feasible e a r :
  propagated e r → feasible e a → colocated a → ∃ e', r = Ok e'.
Proof.
  intros Hp Hf Hc. destruct r as [e'|err|]; [by eauto| |done].
  destruct Hp as [_ Hno]. by destruct (Hno a).
Qed.

End propagate.
