(* ===== verification/SchedulePlan.v ===== *)
(** * The phases of [VolumeScheduler::schedule]

    The well-formedness of a scheduler, the abstract notion of a placement it
    has to find, and what each phase of [schedule] computes. *)

From S2P Require Import Prelude BTree RustStr Wire Volume NetAddr PbAddr Port Config ServiceSpec Machine Scheduler.
From S2P Require Import Propagate.
#[local] Open Scope nat_scope.

Section plan.
Context `{JsonLib, HashOrder, OciLib, UnicodeLib}.

(** ** Well-formed schedulers *)

Definition service_names (self : VolumeScheduler) : list string := ss_name <$> service_specs self.

Record sched_wf (self : VolumeScheduler) : Prop := {
  wf_dom : dom (volume_services self) = dom (volume_specs self);
  wf_services : ∀ v services, volume_services self !! v = Some services →
    services ≠ [] ∧ ∀ s, s ∈ services → s ∈ service_names self;
  wf_names : NoDup (service_names self);
  wf_existing : ∀ v ms, existing_volume_machines self !! v = Some ms →
    ms ≠ ∅ ∧ v ∈ dom (volume_specs self)
}.

(** ** The specification: placements of services on machines *)

(** The machines the placement of a spec names, all machines if it names none. *)
Definition placement_allows (spec : ServiceSpec) (m : Machine) : Prop :=
  let names := slice_values (pl_machines (ss_placement spec)) in
  names = [] ∨ mi_id (m_info m) ∈ names ∨ mi_name (m_info m) ∈ names.
#[local] Instance placement_allows_dec spec m : Decision (placement_allows spec m).
Proof. unfold placement_allows. apply _. Defined.

Definition machine_id (m : Machine) : string := mi_id (m_info m).
Definition placement_ids (self : VolumeScheduler) (spec : ServiceSpec) : gset string :=
  list_to_set (machine_id <$> filter (placement_allows spec) (cl_machines (sched_state self))).

Definition services_of (self : VolumeScheduler) (v : string) : list string :=
  default [] (volume_services self !! v).

Definition is_mode_global (self : VolumeScheduler) (service : string) : Prop :=
  Exists (fun spec => ss_name spec = service ∧ ss_mode spec = SERVICE_MODE_GLOBAL)
    (service_specs self).
Definition is_mode_replicated (self : VolumeScheduler) (service : string) : Prop :=
  Exists (fun spec => ss_name spec = service ∧ ss_mode spec ≠ SERVICE_MODE_GLOBAL)
    (service_specs self).
Definition global_volume (self : VolumeScheduler) (v : string) : Prop :=
  Exists (is_mode_global self) (services_of self v).
Definition mixed_volume (self : VolumeScheduler) (v : string) : Prop :=
  global_volume self v ∧ Exists (is_mode_replicated self) (services_of self v).

#[local] Instance is_mode_global_dec self s : Decision (is_mode_global self s).
Proof. unfold is_mode_global. apply _. Defined.
#[local] Instance is_mode_replicated_dec self s : Decision (is_mode_replicated self s).
Proof. unfold is_mode_replicated. apply _. Defined.
#[local] Instance global_volume_dec self v : Decision (global_volume self v).
Proof. unfold global_volume. apply _. Defined.
#[local] Instance mixed_volume_dec self v : Decision (mixed_volume self v).
Proof. unfold mixed_volume. apply _. Defined.

(** A machine holds every existing volume that replicated services, among them
    this one, share. *)
Definition fits_existing (self : VolumeScheduler) (s x : string) : Prop :=
  ∀ v ms, existing_volume_machines self !! v = Some ms → s ∈ services_of self v →
    ¬ global_volume self v → x ∈ ms.

(** A placement: one machine per service, allowed by its placement, with its
    existing volumes, and the same for services that share a missing volume. *)
Definition valid_placement (self : VolumeScheduler) (a : string → string) : Prop :=
  (∀ spec, spec ∈ service_specs self → a (ss_name spec) ∈ placement_ids self spec) ∧
  (∀ s, s ∈ service_names self → fits_existing self s (a s)) ∧
  (∀ v services, volume_services self !! v = Some services → ¬ global_volume self v →
     existing_volume_machines self !! v = None → constant_on a services).

(** ** The flags of a volume *)

Lemma is_volume_for_global_service_Ok self v services :
  volume_services self !! v = Some services →
  is_volume_for_global_service self v = Ok (bool_decide (global_volume self v)).
Proof.
  intros Hv. unfold is_volume_for_global_service, btree_index. rewrite Hv. cbn. f_equal.
  apply eq_true_iff_eq. rewrite bool_decide_eq_true. unfold global_volume, services_of. rewrite Hv. cbn.
  rewrite existsb_exists, Exists_exists. apply exist_proper. intros s.
  rewrite list_elem_of_In. apply and_iff_compat_l. unfold is_mode_global.
  rewrite existsb_exists, Exists_exists. apply exist_proper. intros spec.
  rewrite list_elem_of_In. apply and_iff_compat_l.
  by rewrite andb_true_iff, !bool_decide_eq_true.
Qed.

(** What the two nested loops of the mixed test compute. *)
Lemma mixed_inner_loop specs service flags (flags' := foldl (mixed_step service) flags specs) :
  (flags'.1 = true ↔ flags.1 = true ∨
     Exists (fun spec => ss_name spec = service ∧ ss_mode spec = SERVICE_MODE_GLOBAL) specs) ∧
  (flags'.2 = true ↔ flags.2 = true ∨
     Exists (fun spec => ss_name spec = service ∧ ss_mode spec ≠ SERVICE_MODE_GLOBAL) specs).
Proof.
  subst flags'. revert flags. induction specs as [|spec specs IH]; intros flags; cbn [foldl].
  { rewrite !Exists_nil. tauto. }
  destruct (IH (mixed_step service flags spec)) as [IH1 IH2]. rewrite IH1, IH2, !Exists_cons.
  destruct flags as [g r]. unfold mixed_step.
  repeat case_bool_decide; cbn [fst snd]; naive_solver.
Qed.

Lemma mixed_outer_loop specs services flags
    (flags' := foldl (fun flags service => foldl (mixed_step service) flags specs) flags services) :
  (flags'.1 = true ↔ flags.1 = true ∨ Exists (fun service =>
     Exists (fun spec => ss_name spec = service ∧ ss_mode spec = SERVICE_MODE_GLOBAL) specs)
     services) ∧
  (flags'.2 = true ↔ flags.2 = true ∨ Exists (fun service =>
     Exists (fun spec => ss_name spec = service ∧ ss_mode spec ≠ SERVICE_MODE_GLOBAL) specs)
     services).
Proof.
  subst flags'. revert flags. induction services as [|service services IH]; intros flags; cbn [foldl].
  { rewrite !Exists_nil. tauto. }
  destruct (IH (foldl (mixed_step service) flags specs)) as [IH1 IH2].
  destruct (mixed_inner_loop specs service flags) as [Hi1 Hi2].
  rewrite IH1, IH2, Hi1, Hi2, !Exists_cons. tauto.
Qed.

Lemma mixed_test_Ok self v services :
  volume_services self !! v = Some services →
  is_volume_shared_between_global_and_replicated self v = Ok (bool_decide (mixed_volume self v)).
Proof.
  intros Hv. unfold is_volume_shared_between_global_and_replicated, btree_index. rewrite Hv.
  cbn [expect mbind result_bind].
  destruct (mixed_outer_loop (service_specs self) services (false, false)) as [H1' H2'].
  destruct (foldl _ _ services) as [g r]. cbn [fst snd] in *. f_equal. apply eq_true_iff_eq.
  rewrite andb_true_iff, H1', H2', bool_decide_eq_true.
  unfold mixed_volume, global_volume, services_of. rewrite Hv. cbn.
  unfold is_mode_global, is_mode_replicated. naive_solver.
Qed.

(** ** Placement alone *)

Lemma without_mounts_constraints spec m :
  forallb (fun c => evaluate c m) (constraints_from_spec (without_mounts spec)) = true ↔
  placement_allows spec m.
Proof.
  unfold constraints_from_spec, placement_allows, slice_is_empty. cbn.
  destruct (slice_values (pl_machines (ss_placement spec))) as [|name names]; cbn [negb app].
  { cbn. naive_solver. }
  cbn [app forallb evaluate]. rewrite andb_true_r, existsb_exists.
  split.
  - intros (x & Hx%list_elem_of_In & Hor%orb_true_iff). rewrite !bool_decide_eq_true in Hor.
    naive_solver.
  - intros [|[Hin|Hin]]; [done|..]; apply list_elem_of_In in Hin;
      (eexists; split; [exact Hin|]); rewrite orb_true_iff, !bool_decide_eq_true; auto.
Qed.

Lemma eligible_machines_placement state spec :
  let allowed := filter (placement_allows spec) (cl_machines state) in
  eligible_machines state (without_mounts spec) =
    match allowed with [] => Err NoEligibleMachines | _ => Ok allowed end.
Proof.
  cbn zeta. unfold eligible_machines.
  by rewrite (list_filter_iff _ (placement_allows spec) _ (without_mounts_constraints spec)).
Qed.

Lemma initial_eligible_spec self :
  NoDup (service_names self) →
  result_spec (initial_eligible self)
    (fun e => dom e = list_to_set (service_names self) ∧ all_nonempty e ∧
       ∀ spec, spec ∈ service_specs self → e !! ss_name spec = Some (placement_ids self spec))
    (fun err => ∃ spec, spec ∈ service_specs self ∧
       err = ServiceScheduling (ss_name spec) NoEligibleMachines ∧ placement_ids self spec = ∅).
Proof.
  intros Hnd. unfold initial_eligible.
  apply (foldM_spec _ (fun pre e => dom e = list_to_set (ss_name <$> pre) ∧ all_nonempty e ∧
     ∀ spec, spec ∈ pre → e !! ss_name spec = Some (placement_ids self spec))).
  { cbn. split_and!; [by rewrite dom_empty_L|apply map_Forall_empty|set_solver]. }
  intros pre spec post e Hl (Hdom & Hne & Hpre). rewrite eligible_machines_placement.
  unfold service_names in Hnd. rewrite Hl, fmap_app, fmap_cons in Hnd.
  apply NoDup_app in Hnd as (_ & Hfresh & _).
  destruct (filter (placement_allows spec) (cl_machines (sched_state self))) as [|m ms] eqn:Ef.
  - cbn. exists spec. split; [rewrite Hl; set_solver|]. split; [done|].
    unfold placement_ids. by rewrite Ef.
  - cbn [map_err mbind result_bind result_spec].
    assert (list_to_set (map (fun m => mi_id (m_info m)) (m :: ms)) = placement_ids self spec)
      as Hids by (unfold placement_ids; by rewrite Ef).
    rewrite Hids. split_and!.
    + rewrite dom_insert_L, Hdom, fmap_app, list_to_set_app_L. set_solver.
    + apply map_Forall_insert_2; [|done]. unfold placement_ids. rewrite Ef. set_solver.
    + intros spec' Hin. apply elem_of_app in Hin as [Hin|Hin%list_elem_of_singleton].
      * rewrite lookup_insert_ne; [by auto|]. intros E.
        apply (Hfresh (ss_name spec')); [by apply list_elem_of_fmap_2|]. rewrite <-E. set_solver.
      * subst. apply lookup_insert_eq.
Qed.

(** ** Existing volumes *)

Lemma services_of_Some self v services :
  volume_services self !! v = Some services → services_of self v = services.
Proof. intros Hv. unfold services_of. by rewrite Hv. Qed.

(** The constraint of the existing volumes in a list. *)
Definition fits_list (self : VolumeScheduler) (l : list (string * gset string)) (s x : string) : Prop :=
  ∀ v ms, (v, ms) ∈ l → s ∈ services_of self v → ¬ global_volume self v → x ∈ ms.

Definition narrowed_by (self : VolumeScheduler) (l : list (string * gset string))
    (e e' : eligible_map) : Prop :=
  dom e' = dom e ∧
  ∀ s S S', e !! s = Some S → e' !! s = Some S' → ∀ x, x ∈ S' ↔ x ∈ S ∧ fits_list self l s x.

Lemma narrow_existing_services_spec v ms e quoted services :
  Forall (.∈ dom e) services → all_nonempty e →
  result_spec (foldM (narrow_existing_service v ms) (e, quoted) services)
    (fun '(e', _) => dom e' = dom e ∧ all_nonempty e' ∧
       ∀ s S S', e !! s = Some S → e' !! s = Some S' →
         ∀ x, x ∈ S' ↔ x ∈ S ∧ (s ∈ services → x ∈ ms))
    (fun err => ∃ s S volumes, s ∈ services ∧ e !! s = Some S ∧
       err = ExistingVolumesConflict s volumes ∧ ∀ x, x ∈ S → x ∉ ms).
Proof.
  intros Hdom Hne.
  eapply result_spec_mono; [apply (foldM_spec _ (fun pre '(e', _) =>
    dom e' = dom e ∧ all_nonempty e' ∧
       ∀ s S S', e !! s = Some S → e' !! s = Some S' →
         ∀ x, x ∈ S' ↔ x ∈ S ∧ (s ∈ pre → x ∈ ms)))| |by intros err _ Hx; exact Hx].
  - split_and!; [done..|]. intros s S S' HS HS'. simplify_eq. set_solver.
  - intros pre s post [e1 q1] -> (Hd1 & Hne1 & Hx1). unfold narrow_existing_service.
    apply Forall_app in Hdom as [_ [HsD _]%Forall_cons].
    apply elem_of_dom in HsD as [S HS].
    assert (s ∈ dom e1) as [S1 HS1]%elem_of_dom by (rewrite Hd1; by apply elem_of_dom_2 in HS).
    pose proof (Hx1 s S S1 HS HS1) as Hs1.
    rewrite (proj2 (btree_index_Ok e1 s S1) HS1). cbn [mbind result_bind].
    case_bool_decide as E.
    + rewrite (proj2 (btree_index_Ok _ _ _) (entry_push_eq q1 s v)). cbn. eexists s, S, _.
      split_and!; [set_solver|done|done|]. intros x Hx Hms.
      assert (x ∈ S1 ∩ ms) as Hin by (rewrite elem_of_intersection, Hs1; auto).
      rewrite E in Hin. set_solver.
    + cbn. split_and!.
      * rewrite dom_insert_L. apply elem_of_dom_2 in HS1. set_solver.
      * by apply map_Forall_insert_2.
      * intros t T T' HT HT' x. destruct (decide (t = s)) as [->|Hts].
        -- rewrite lookup_insert_eq in HT'. simplify_eq. rewrite elem_of_intersection, Hs1. set_solver.
        -- rewrite lookup_insert_ne in HT' by done. rewrite (Hx1 t T T' HT HT' x). set_solver.
  - intros [e' q'] _ Hx. exact Hx.
Qed.

Lemma fits_list_iter self s x :
  fits_list self (btree_iter (existing_volume_machines self)) s x ↔ fits_existing self s x.
Proof.
  unfold fits_list, fits_existing. split; intros Hf v ms Hv.
  - apply Hf. by apply elem_of_btree_iter.
  - apply Hf. by apply elem_of_btree_iter in Hv.
Qed.

Lemma fits_list_snoc self l v ms s x :
  fits_list self (l ++ [(v, ms)]) s x ↔
  fits_list self l s x ∧ (s ∈ services_of self v → ¬ global_volume self v → x ∈ ms).
Proof.
  unfold fits_list. split.
  - intros Hf. split; intros; eapply Hf; eauto; set_solver.
  - intros [Hl Hv] v' ms' [Hin|Hin]%elem_of_app; [by eauto|].
    apply list_elem_of_singleton in Hin. by simplify_eq.
Qed.

Lemma existing_services self v ms :
  sched_wf self → existing_volume_machines self !! v = Some ms →
  ∃ services, volume_services self !! v = Some services.
Proof.
  intros Hwf Hv. apply elem_of_dom. rewrite (wf_dom _ Hwf). by apply (wf_existing _ Hwf v ms).
Qed.

Lemma narrow_existing_spec self e :
  sched_wf self → covers self e → all_nonempty e →
  result_spec (narrow_existing self e)
    (fun e' => all_nonempty e' ∧ dom e' = dom e ∧
       ∀ s S S', e !! s = Some S → e' !! s = Some S' →
         ∀ x, x ∈ S' ↔ x ∈ S ∧ fits_existing self s x)
    (fun err => ∃ s S volumes, err = ExistingVolumesConflict s volumes ∧ e !! s = Some S ∧
       ∀ x, x ∈ S → ¬ fits_existing self s x).
Proof.
  intros Hwf Hcov Hne. unfold narrow_existing. set (l := btree_iter (existing_volume_machines self)).
  eapply result_spec_bind; [apply (foldM_spec _ (fun pre '(e', _) =>
    all_nonempty e' ∧ narrowed_by self pre e e'))|].
  - split; [done|]. split; [done|]. intros s S S' HS HS' x. simplify_eq. unfold fits_list. set_solver.
  - intros pre [v ms] post [e1 q1] Hl (Hne1 & Hd1 & Hn1).
    assert ((v, ms) ∈ l) as Hin by (rewrite Hl; set_solver).
    unfold l in Hin. rewrite elem_of_btree_iter in Hin.
    destruct (existing_services _ _ _ Hwf Hin) as [services Hv].
    rewrite (is_volume_for_global_service_Ok _ _ _ Hv). cbn [mbind result_bind].
    case_bool_decide as Hg.
    { cbn. split; [done|]. split; [done|]. intros s S S' HS HS' x.
      rewrite (Hn1 s S S' HS HS' x), fits_list_snoc. naive_solver. }
    rewrite (proj2 (btree_index_Ok _ _ _) Hv). cbn [mbind result_bind].
    eapply result_spec_mono; [apply narrow_existing_services_spec; [|done]|..].
    + rewrite Hd1. by eapply Hcov.
    + intros [e2 q2] _ (Hd2 & Hne2 & Hn2). split; [done|]. split; [congruence|].
      intros s S S' HS HS' x.
      assert (s ∈ dom e1) as [S1 HS1]%elem_of_dom by (rewrite Hd1; by apply elem_of_dom_2 in HS).
      rewrite (Hn2 s S1 S' HS1 HS' x), (Hn1 s S S1 HS HS1 x), fits_list_snoc.
      rewrite (services_of_Some _ _ _ Hv). naive_solver.
    + intros err _ (s & S1 & volumes & Hs & HS1 & -> & Hno). 
      assert (s ∈ dom e) as [S HS]%elem_of_dom by (rewrite <-Hd1; by apply elem_of_dom_2 in HS1).
      exists s, S, volumes. split_and!; [done..|]. intros x Hx Hfit.
      apply (Hno x).
      * rewrite (Hn1 s S S1 HS HS1 x). split; [done|]. intros v' ms' Hin'.
        apply Hfit. apply elem_of_btree_iter. fold l. rewrite Hl. set_solver.
      * apply (Hfit v ms); [done| |done]. by rewrite (services_of_Some _ _ _ Hv).
  - intros [e' q'] _ (Hne' & Hd' & Hn'). cbn. split_and!; [done..|].
    intros s S S' HS HS' x. rewrite (Hn' s S S' HS HS' x). unfold l. by rewrite fits_list_iter.
Qed.

(** ** Volumes that need no co-location *)

Definition needs_colocation (self : VolumeScheduler) (v : string) : Prop :=
  ¬ global_volume self v ∧ existing_volume_machines self !! v = None.

Lemma initially_placed_spec self :
  sched_wf self →
  result_spec (initially_placed self)
    (fun placed => (∀ v, v ∈ dom (volume_specs self) → ¬ mixed_volume self v) ∧
       ∀ v, v ∈ dom (volume_specs self) → (v ∉ placed ↔ needs_colocation self v))
    (fun err => ∃ v, v ∈ dom (volume_specs self) ∧ err = MixedGlobalAndReplicated v ∧
       mixed_volume self v).
Proof.
  intros Hwf. unfold initially_placed.
  eapply result_spec_bind; [apply (foldM_spec _ (fun pre (placed : gset string) =>
    ∀ v, v ∈ placed ↔ v ∈ pre ∧ ¬ global_volume self v))|].
  - set_solver.
  - intros pre v post placed Hl Hp.
    assert (v ∈ btree_keys (existing_volume_machines self)) as Hv by (rewrite Hl; set_solver).
    apply elem_of_btree_keys in Hv as [ms Hv].
    destruct (existing_services _ _ _ Hwf Hv) as [services Hs].
    rewrite (is_volume_for_global_service_Ok _ _ _ Hs). cbn.
    intros v'. case_bool_decide; cbn; set_solver.
  - intros placed0 _ Hp0. cbn beta in Hp0.
    eapply result_spec_mono; [apply (foldM_spec _ (fun pre (placed : gset string) =>
      (∀ v, v ∈ pre → ¬ mixed_volume self v) ∧
      ∀ v, v ∈ placed ↔ v ∈ placed0 ∨ (v ∈ pre ∧ global_volume self v)))|
      |by intros err _ Hx; exact Hx].
    + set_solver.
    + intros pre v post placed Hl (Hm & Hp).
      assert (v ∈ btree_keys (volume_specs self)) as Hv by (rewrite Hl; set_solver).
      rewrite elem_of_btree_keys, <-elem_of_dom in Hv. pose proof Hv as Hv'.
      rewrite <-(wf_dom _ Hwf) in Hv. apply elem_of_dom in Hv as [services Hs].
      rewrite (mixed_test_Ok _ _ _ Hs). cbn [mbind result_bind].
      case_bool_decide as Hmix; [by exists v|].
      rewrite (is_volume_for_global_service_Ok _ _ _ Hs). cbn. split; [set_solver|].
      intros v'. case_bool_decide; set_solver.
    + intros placed _ (Hm & Hp). split; intros v Hv.
      * apply Hm. by rewrite elem_of_btree_keys, <-elem_of_dom.
      * rewrite Hp, Hp0, !elem_of_btree_keys. unfold needs_colocation. rewrite eq_None_not_Some.
        rewrite elem_of_dom in Hv. destruct (decide (global_volume self v)); tauto.
Qed.

End plan.
