(* ===== verification/SchedulePlace.v ===== *)
(** * The placing loop of [VolumeScheduler::schedule]

    The loop visits the volumes in the order of their names, fixes a machine for
    each missing volume of replicated services and propagates that choice.  The
    invariant below says what the plan holds after any prefix of the volumes. *)

From S2P Require Import Prelude BTree RustStr Wire Volume NetAddr PbAddr Port Config ServiceSpec Machine Scheduler.
From S2P Require Import Propagate SchedulePlan.
#[local] Open Scope nat_scope.

#[export] Existing Instance global_volume_dec.
#[export] Existing Instance mixed_volume_dec.
#[export] Existing Instance placement_allows_dec.

(** ** What the plan should hold *)

Section wanted.
Context `{JsonLib, HashOrder, OciLib, UnicodeLib} (self : VolumeScheduler).

(** The machines the placements of the services of a volume allow. *)
Definition global_targets (v : string) : gset string :=
  ⋃ (placement_ids self <$> filter (fun spec => ss_name spec ∈ services_of self v)
                              (service_specs self)).

Definition first_service (v : string) : string := default "" (head (services_of self v)).

(** Whether machine [m] gets volume [v] when services are placed by [a]: a
    volume of global services where one of them may run and it is missing, a
    volume of replicated services where they are placed, if it exists nowhere. *)
Definition wants (a : string → string) (m v : string) : Prop :=
  (global_volume self v ∧ m ∈ global_targets v ∧ m ∉ default ∅ (existing_volume_machines self !! v))
  ∨ (needs_colocation self v ∧ a (first_service v) = m).

#[export] Instance needs_colocation_dec v : Decision (needs_colocation self v).
Proof. unfold needs_colocation. apply _. Defined.
#[export] Instance wants_dec a m v : Decision (wants a m v).
Proof. unfold wants. apply _. Defined.

(** The volumes of a machine, in the order of their names. *)
Definition planned_on (a : string → string) (m : string) (l : list (string * VolumeSpec)) :
    list VolumeSpec :=
  (filter (fun entry => wants a m entry.1) l).*2.

Lemma planned_on_snoc a m l v spec :
  planned_on a m (l ++ [(v, spec)]) =
  planned_on a m l ++ (if decide (wants a m v) then [spec] else []).
Proof.
  unfold planned_on. rewrite filter_app, fmap_app. f_equal.
  rewrite filter_cons. cbn. by case_decide.
Qed.

Lemma planned_on_ext a a' m l :
  (∀ v, v ∈ l.*1 → needs_colocation self v → a (first_service v) = a' (first_service v)) →
  planned_on a m l = planned_on a' m l.
Proof.
  induction l as [|[v spec] l IH] using rev_ind; intros Hext; [done|].
  rewrite !planned_on_snoc, IH by (intros; apply Hext; [rewrite fmap_app|]; set_solver).
  f_equal. assert (wants a m v ↔ wants a' m v) as Hw.
  { unfold wants. destruct (decide (needs_colocation self v)) as [Hn|Hn]; [|tauto].
    rewrite (Hext v); [done| |done]. rewrite fmap_app. set_solver. }
  repeat case_decide; tauto.
Qed.

Lemma first_service_in v services :
  sched_wf self → volume_services self !! v = Some services → first_service v ∈ services.
Proof.
  intros Hwf Hv. destruct (wf_services _ Hwf _ _ Hv) as [Hne _].
  unfold first_service. rewrite (services_of_Some _ _ _ Hv). destruct services; [done|set_solver].
Qed.
End wanted.

(** ** Helpers *)

Lemma singleton_stays e e' s m :
  e' ⊑ₑ e → all_nonempty e' → e !! s = Some {[m]} → e' !! s = Some {[m]}.
Proof.
  intros [D Hn] Hne HS.
  assert (s ∈ dom e') as [S' HS']%elem_of_dom by (rewrite D; by apply elem_of_dom_2 in HS).
  destruct (Hn _ _ HS') as (T & HT & Hsub). simplify_eq. rewrite HS'. f_equal.
  pose proof (Hne _ _ HS') as Hne'. cbn in Hne'.
  assert (∃ x, x ∈ S') as [x Hx] by (by apply set_choose_L).
  assert (x = m) as -> by set_solver. set_solver.
Qed.

Lemma least_choice_singleton e s m : e !! s = Some {[m]} → least_choice e s = m.
Proof.
  intros HS. unfold least_choice. rewrite HS. cbn.
  destruct (bset_first {[m]}) as [x|] eqn:E.
  - apply bset_first_elem in E. set_solver.
  - apply bset_first_None in E. set_solver.
Qed.

(** Fixing one machine for a list of services. *)
Lemma lookup_fix_services (m : string) (e : eligible_map) services s :
  foldl (fun e s => <[s := {[m]}]> e) e services !! s =
  if decide (s ∈ services) then Some {[m]} else e !! s.
Proof.
  revert e. induction services as [|t services IH]; intros e; cbn [foldl].
  { by rewrite decide_False by set_solver. }
  rewrite IH. destruct (decide (s = t)) as [->|Hne].
  - rewrite lookup_insert_eq, (decide_True (P := t ∈ t :: services)) by set_solver. by case_decide.
  - rewrite lookup_insert_ne by done. repeat case_decide; set_solver.
Qed.

(** Pushing one volume for each machine of a list. *)
Lemma lookup_push_all (skip : string → bool) (spec : VolumeSpec)
    (plan : gmap string (list VolumeSpec)) ms m :
  NoDup ms →
  default [] (foldl (fun plan x => if skip x then plan else entry_push plan x spec) plan ms !! m) =
  default [] (plan !! m) ++ (if decide (m ∈ ms ∧ skip m = false) then [spec] else []).
Proof.
  intros Hnd. revert plan. induction Hnd as [|x ms Hx Hnd IH]; intros plan; cbn [foldl].
  { rewrite decide_False by set_solver. by rewrite app_nil_r. }
  rewrite IH. destruct (decide (m = x)) as [->|Hne].
  - rewrite (decide_False (P := x ∈ ms ∧ _)) by tauto. rewrite app_nil_r.
    destruct (skip x) eqn:Es.
    + rewrite decide_False by naive_solver. by rewrite app_nil_r.
    + rewrite decide_True by set_solver. by rewrite entry_push_eq.
  - assert (default [] ((if skip x then plan else entry_push plan x spec) !! m) = default [] (plan !! m))
      as -> by (destruct (skip x); [done|]; by rewrite entry_push_ne).
    f_equal. repeat case_decide; set_solver.
Qed.

(** ** The invariant *)

Section place.
Context `{JsonLib, HashOrder, OciLib, UnicodeLib} (self : VolumeScheduler).
Context (Hwf : sched_wf self).
Context (Hmix : ∀ v, v ∈ dom (volume_specs self) → ¬ mixed_volume self v).
Context (E0 : eligible_map) (Hcov : covers self E0).

Record place_inv (pre : list (string * VolumeSpec)) (acc : place_acc) : Prop := {
  pi_narrows : pa_eligible acc ⊑ₑ E0;
  pi_nonempty : all_nonempty (pa_eligible acc);
  pi_uniform : uniform self (pa_placed acc) (pa_eligible acc);
  pi_placed : ∀ v, v ∈ dom (volume_specs self) →
    (v ∉ pa_placed acc ↔ needs_colocation self v ∧ v ∉ pre.*1);
  pi_done : ∀ v services, v ∈ pre.*1 → needs_colocation self v →
    volume_services self !! v = Some services →
    ∃ m, ∀ s, s ∈ services → pa_eligible acc !! s = Some {[m]};
  pi_global : ∀ spec, spec ∈ service_specs self → ss_mode spec = SERVICE_MODE_GLOBAL →
    pa_eligible acc !! ss_name spec = Some (placement_ids self spec);
  pi_plan : ∀ m, default [] (pa_scheduled acc !! m) =
    planned_on self (least_choice (pa_eligible acc)) m pre
}.

(** The services of a volume of global services are all global, and only such
    volumes have a global service. *)
Lemma global_volume_services v services spec :
  volume_services self !! v = Some services → global_volume self v →
  spec ∈ service_specs self → ss_name spec ∈ services → ss_mode spec = SERVICE_MODE_GLOBAL.
Proof.
  intros Hv Hg Hspec Hs. destruct (decide (ss_mode spec = SERVICE_MODE_GLOBAL)); [done|].
  exfalso. apply (Hmix v).
  - rewrite <-(wf_dom _ Hwf). by apply elem_of_dom_2 in Hv.
  - split; [done|]. rewrite (services_of_Some _ _ _ Hv). apply Exists_exists.
    exists (ss_name spec). split; [done|]. apply Exists_exists. by exists spec.
Qed.

Lemma global_service_volumes v services spec :
  volume_services self !! v = Some services → spec ∈ service_specs self →
  ss_name spec ∈ services → ss_mode spec = SERVICE_MODE_GLOBAL → global_volume self v.
Proof.
  intros Hv Hspec Hs Hm. unfold global_volume. rewrite (services_of_Some _ _ _ Hv).
  apply Exists_exists. exists (ss_name spec). split; [done|].
  apply Exists_exists. by exists spec.
Qed.

Lemma inv_covers pre acc : place_inv pre acc → covers self (pa_eligible acc).
Proof. intros Hinv. eapply covers_narrows; [apply (pi_narrows _ _ Hinv)|done]. Qed.

(** Growing the set of placed volumes keeps the sets uniform. *)
Lemma uniform_mono placed placed' e :
  placed ⊆ placed' → uniform self placed e → uniform self placed' e.
Proof. intros Hsub Hu v services Hv [Hp Hne]. apply (Hu v services Hv). split; [set_solver|done]. Qed.

(** The sets of the services of a global volume make up its targets. *)
Lemma union_global_targets pre acc v services :
  place_inv pre acc → volume_services self !! v = Some services → global_volume self v →
  ∃ sets, eligible_sets (pa_eligible acc) services = Ok sets ∧ ⋃ sets = global_targets self v.
Proof.
  intros Hinv Hv Hg.
  destruct (eligible_sets_Ok (pa_eligible acc) services) as (sets & Hsets & Hall).
  { by eapply inv_covers. }
  exists sets. split; [done|]. unfold global_targets. rewrite (services_of_Some _ _ _ Hv).
  apply set_eq. intros x. rewrite !elem_of_union_list. split.
  - intros (S & [i Hi]%list_elem_of_lookup & Hx).
    destruct (Forall2_lookup_r _ _ _ _ _ Hall Hi) as (s & Hsi & HS).
    assert (s ∈ services) as Hs by (by eapply list_elem_of_lookup_2).
    pose proof (proj2 (wf_services _ Hwf _ _ Hv) s Hs) as Hname.
    unfold service_names in Hname. apply list_elem_of_fmap in Hname as (spec & -> & Hspec).
    exists S. split; [|done].
    rewrite (pi_global _ _ Hinv spec Hspec) in HS by (by eapply global_volume_services).
    simplify_eq. apply list_elem_of_fmap_2, list_elem_of_filter. done.
  - intros (S & (spec & -> & [Hs Hspec]%list_elem_of_filter)%list_elem_of_fmap & Hx).
    exists (placement_ids self spec). split; [|done].
    apply list_elem_of_lookup in Hs as [i Hi].
    destruct (Forall2_lookup_l _ _ _ _ _ Hall Hi) as (S & HSi & HS).
    rewrite (pi_global _ _ Hinv spec Hspec) in HS.
    + simplify_eq. by eapply list_elem_of_lookup_2.
    + eapply global_volume_services; eauto. by eapply list_elem_of_lookup_2.
Qed.

(** ** One volume *)

Lemma wants_global a m v :
  global_volume self v →
  wants self a m v ↔ m ∈ global_targets self v ∧ m ∉ default ∅ (existing_volume_machines self !! v).
Proof. unfold wants, needs_colocation. tauto. Qed.

Lemma place_global_step pre acc v spec :
  place_inv pre acc → v ∈ dom (volume_specs self) → global_volume self v →
  place_inv (pre ++ [(v, spec)]) (place_global self v spec (global_targets self v) acc).
Proof.
  intros Hinv Hv Hg. destruct Hinv as [Hn Hne Hu Hp Hd Hgl Hplan].
  constructor; cbn [place_global pa_eligible pa_placed pa_scheduled]; [done|done| | | |done|].
  - eapply uniform_mono; [|done]. set_solver.
  - intros v' Hv'. rewrite fmap_app. cbn. rewrite not_elem_of_union, (Hp v' Hv'), not_elem_of_app.
    rewrite not_elem_of_singleton, list_elem_of_singleton. split; [tauto|].
    intros (Hnc & ? & ?). done.
  - intros v' services. rewrite fmap_app. cbn.
    intros [Hin|Hin%list_elem_of_singleton]%elem_of_app Hnc; [by apply Hd|].
    subst v'. by destruct Hnc.
  - intros m. rewrite planned_on_snoc, lookup_push_all by apply NoDup_bset_iter.
    rewrite Hplan. f_equal. apply decide_ext. rewrite elem_of_bset_iter, wants_global by done.
    destruct (existing_volume_machines self !! v); cbn; [rewrite bool_decide_eq_false|]; set_solver.
Qed.

Lemma place_existing_step pre acc v spec :
  place_inv pre acc → v ∈ dom (volume_specs self) → ¬ global_volume self v →
  ¬ needs_colocation self v → place_inv (pre ++ [(v, spec)]) acc.
Proof.
  intros Hinv Hv Hg Hnc. destruct Hinv as [Hn Hne Hu Hp Hd Hgl Hplan].
  constructor; [done|done|done| | |done|].
  - intros v' Hv'. rewrite fmap_app, (Hp v' Hv'), not_elem_of_app. cbn.
    rewrite list_elem_of_singleton. split; [|tauto]. intros [Hnc' ?]. split_and!; [done..|congruence].
  - intros v' services. rewrite fmap_app. cbn.
    intros [Hin|Hin%list_elem_of_singleton]%elem_of_app Hnc'; [by apply Hd|congruence].
  - intros m. rewrite planned_on_snoc, Hplan, decide_False; [by rewrite app_nil_r|].
    unfold wants. tauto.
Qed.

(** *** Fixing the machine of a missing volume *)

Section fix_machine.
Context (pre : list (string * VolumeSpec)) (acc : place_acc) (Hinv : place_inv pre acc).
Context (v : string) (spec : VolumeSpec) (services : list string).
Context (Hv : v ∈ dom (volume_specs self)) (Hsv : volume_services self !! v = Some services).
Context (Hnc : needs_colocation self v) (Hpre : v ∉ pre.*1).
Context (Hpre_dom : ∀ v', v' ∈ pre.*1 → v' ∈ dom (volume_specs self)).
Context (I : gset string) (HI : ∀ s, s ∈ services → pa_eligible acc !! s = Some I).
Context (m : string) (Hm : m ∈ I).

Let e := pa_eligible acc.
Let fixed : eligible_map := foldl (fun e s => <[s := {[m]}]> e) e services.
Let placed' : gset string := pa_placed acc ∪ {[v]}.

Lemma fixed_narrows : fixed ⊑ₑ e.
Proof.
  split.
  - apply set_eq. intros s. rewrite !elem_of_dom. unfold fixed. rewrite lookup_fix_services.
    case_decide as Hs; [|done]. unfold e. rewrite (HI s Hs). split; intros _; eauto.
  - intros s S'. unfold fixed. rewrite lookup_fix_services. case_decide as Hs; [|by eauto].
    intros [= <-]. exists I. split; [by apply HI|set_solver].
Qed.

Lemma fixed_nonempty : all_nonempty fixed.
Proof.
  intros s S. unfold fixed. rewrite lookup_fix_services. case_decide.
  - intros [= <-]. set_solver.
  - apply (pi_nonempty _ _ Hinv).
Qed.

(** The services whose sets agree with those of the volume follow it to [m]. *)
Definition follow (s : string) : string :=
  if decide (e !! s = Some I) then m else least_choice e s.

Lemma follow_feasible : feasible fixed follow.
Proof.
  intros s S. unfold fixed. rewrite lookup_fix_services. unfold follow. case_decide as Hs.
  - intros [= <-]. rewrite decide_True by (by apply HI). set_solver.
  - intros HS. case_decide as E; [by simplify_eq|].
    by eapply least_choice_feasible; [apply (pi_nonempty _ _ Hinv)|].
Qed.

Lemma follow_colocated : colocated self placed' follow.
Proof.
  intros v' services' Hv' [Hp Hne] s1 s2 Hs1 Hs2.
  destruct (pi_uniform _ _ Hinv v' services' Hv') as [J HJ].
  { split; [|done]. unfold placed' in Hp. set_solver. }
  unfold follow, least_choice, e. by rewrite (HJ s1 Hs1), (HJ s2 Hs2).
Qed.

Lemma fix_propagates :
  ∃ e', propagate_constraints self fixed placed' = Ok e' ∧
    place_inv (pre ++ [(v, spec)])
      (mk_place_acc e' placed' (entry_push (pa_scheduled acc) m spec)).
Proof.
  assert (covers self fixed) as Hcf.
  { eapply covers_narrows; [apply fixed_narrows|by eapply inv_covers]. }
  pose proof (propagate_constraints_spec self placed' fixed Hcf) as Hp.
  destruct (propagated_feasible _ _ _ _ _ Hp follow_feasible follow_colocated) as [e' He'].
  exists e'. split; [done|]. rewrite He' in Hp. pose proof Hp as (Hn & Hne & Hu & _).
  specialize (Hne fixed_nonempty).
  assert (e' ⊑ₑ e) as Hn' by (etrans; [done|apply fixed_narrows]).
  assert (∀ s, s ∈ services → e' !! s = Some {[m]}) as Hfix.
  { intros s Hs. apply (singleton_stays fixed); [done..|]. unfold fixed.
    by rewrite lookup_fix_services, decide_True. }
  destruct Hinv as [Hn0 Hne0 Hu0 Hp0 Hd0 Hgl0 Hplan0].
  constructor; cbn [pa_eligible pa_placed pa_scheduled].
  - by etrans.
  - done.
  - done.
  - intros v' Hv'. rewrite fmap_app. cbn. unfold placed'.
    rewrite not_elem_of_union, (Hp0 v' Hv'), not_elem_of_app, not_elem_of_singleton,
      list_elem_of_singleton. tauto.
  - intros v' services'. rewrite fmap_app. cbn.
    intros [Hin|Hin%list_elem_of_singleton]%elem_of_app Hnc' Hv'; [|subst; naive_solver].
    destruct (Hd0 v' services' Hin Hnc' Hv') as [m' Hm']. exists m'.
    intros s Hs. by eapply singleton_stays; [..|apply Hm'].
  - intros spec' Hspec' Hmode. rewrite <-(Hgl0 spec' Hspec' Hmode).
    assert (ss_name spec' ∉ services) as Hns.
    { intros Hs. apply (proj1 Hnc). by eapply global_service_volumes. }
    rewrite (propagated_untouched _ _ _ _ _ Hp fixed_nonempty).
    + unfold fixed. by rewrite lookup_fix_services, decide_False.
    + intros v' services' Hv' [Hnp _] Hs.
      assert (v' ∈ dom (volume_specs self)) as Hdom'
        by (rewrite <-(wf_dom _ Hwf); by apply elem_of_dom_2 in Hv').
      assert (v' ∉ pa_placed acc) as [[Hng _] _]%Hp0 by (unfold placed' in Hnp; set_solver); [|done].
      apply Hng. by eapply global_service_volumes.
  - intros m'. rewrite planned_on_snoc.
    rewrite (planned_on_ext self (least_choice e') (least_choice e)).
    2: { intros v' Hin Hnc'.
         assert (v' ∈ dom (volume_services self)) as [services' Hv']%elem_of_dom
           by (rewrite (wf_dom _ Hwf); auto).
         destruct (Hd0 v' services' Hin Hnc' Hv') as [m2 Hm2].
         pose proof (first_service_in self _ _ Hwf Hv') as Hf.
         rewrite !(least_choice_singleton _ _ m2); [done|by apply Hm2|].
         by eapply singleton_stays; [..|apply Hm2]. }
    unfold e. rewrite <-Hplan0.
    assert (least_choice e' (first_service self v) = m) as Hfirst
      by (by apply least_choice_singleton, Hfix, first_service_in).
    destruct (decide (m' = m)) as [->|Hne'].
    + rewrite entry_push_eq, decide_True by (by right). done.
    + rewrite entry_push_ne by done. rewrite decide_False; [by rewrite app_nil_r|].
      unfold wants. intros [[Hg _]|[_ Hx]]; [by apply (proj1 Hnc)|congruence].
Qed.
End fix_machine.

(** ** The loop *)

Lemma place_volume_step pre acc v spec :
  place_inv pre acc → volume_specs self !! v = Some spec → v ∉ pre.*1 →
  (∀ v', v' ∈ pre.*1 → v' ∈ dom (volume_specs self)) →
  result_spec (place_volume self acc (v, spec)) (place_inv (pre ++ [(v, spec)])) (fun _ => False).
Proof.
  intros Hinv Hspec Hpre Hpre_dom.
  assert (v ∈ dom (volume_specs self)) as Hv by (by apply elem_of_dom_2 in Hspec).
  assert (v ∈ dom (volume_services self)) as [services Hsv]%elem_of_dom by (by rewrite (wf_dom _ Hwf)).
  destruct (wf_services _ Hwf _ _ Hsv) as [Hne Hnames].
  pose proof (inv_covers _ _ Hinv v services Hsv) as Hdom.
  unfold place_volume. rewrite (proj2 (btree_index_Ok _ _ _) Hsv). cbn [mbind result_bind].
  rewrite bool_decide_false, (is_volume_for_global_service_Ok _ _ _ Hsv) by done.
  cbn [mbind result_bind]. case_bool_decide as Hg; unfold volume_eligible.
  - destruct (union_global_targets _ _ _ _ Hinv Hsv Hg) as (sets & Hsets & Hun).
    rewrite Hsets. cbn [mbind result_bind]. rewrite Hun, bool_decide_false.
    + by apply place_global_step.
    + destruct (eligible_sets_Ok _ _ Hdom) as (sets' & Hsets' & Hall).
      rewrite Hsets in Hsets'. injection Hsets' as <-. intros E. rewrite <-Hun in E.
      inversion Hall as [|s S ss SS HS Hall' E1 E2]; subst; [done|].
      apply (pi_nonempty _ _ Hinv s S HS). cbn in E. by apply empty_union_L in E as [-> _].
  - pose proof (first_service_in self _ _ Hwf Hsv) as Hfirst. unfold first_service in Hfirst.
    rewrite (services_of_Some _ _ _ Hsv) in Hfirst.
    destruct services as [|s0 services]; [done|]. cbn [head expect mbind result_bind default] in *.
    apply Forall_cons in Hdom as [[I HI]%elem_of_dom Hdom].
    rewrite (proj2 (btree_index_Ok _ _ _) HI). cbn [mbind result_bind].
    pose proof (pi_nonempty _ _ Hinv s0 I HI) as HIne. cbn in HIne.
    rewrite bool_decide_false by done. unfold place_replicated.
    destruct (existing_volume_machines self !! v) as [ms|] eqn:Hex.
    + rewrite bool_decide_false by (by apply (wf_existing _ Hwf v ms)). cbn.
      apply place_existing_step; try done. unfold needs_colocation. naive_solver.
    + assert (needs_colocation self v) as Hnc by done.
      assert (∀ s, s ∈ s0 :: services → pa_eligible acc !! s = Some I) as HIs.
      { destruct (pi_uniform _ _ Hinv v _ Hsv) as [J HJ].
        - split; [|done]. by apply (pi_placed _ _ Hinv).
        - intros s Hs. rewrite (HJ s Hs). by rewrite (HJ s0 Hfirst) in HI. }
      destruct (bset_first I) as [m|] eqn:Em; [|by apply bset_first_None in Em].
      apply bset_first_elem in Em. cbn [expect mbind result_bind].
      destruct (fix_propagates _ _ Hinv v spec _ Hv Hsv Hnc Hpre Hpre_dom I HIs m Em)
        as (e' & He' & Hinv'). rewrite He'. exact Hinv'.
Qed.

Lemma place_loop_spec acc :
  place_inv [] acc →
  result_spec (foldM (place_volume self) acc (btree_iter (volume_specs self)))
    (place_inv (btree_iter (volume_specs self))) (fun _ => False).
Proof.
  intros Hinv. apply (foldM_spec _ place_inv); [done|].
  intros pre [v spec] post acc' Hl Hinv'.
  pose proof (NoDup_btree_keys (volume_specs self)) as Hnd. unfold btree_keys in Hnd.
  assert (∀ v' spec', (v', spec') ∈ pre ++ (v, spec) :: post → volume_specs self !! v' = Some spec')
    as Hlook by (intros v' spec'; rewrite <-Hl; apply elem_of_btree_iter).
  apply place_volume_step; [done|apply Hlook; set_solver| |].
  - rewrite Hl, fmap_app, fmap_cons in Hnd. apply NoDup_app in Hnd as (_ & Hd & _).
    intros Hin. apply (Hd v Hin). set_solver.
  - intros v' ([v2 spec2] & -> & Hin)%list_elem_of_fmap. cbn.
    apply (elem_of_dom_2 _ _ spec2), Hlook, elem_of_app. by left.
Qed.

End place.
