(* ===== verification/ScheduleProps.v ===== *)
(** * Correctness of [propagate_constraints] and [VolumeScheduler::schedule]

    [schedule] refines the abstract problem of [SchedulePlan]: it succeeds exactly
    when no volume mixes global and replicated services and a valid placement
    exists, and then its plan is the one of a valid placement. *)

From S2P Require Import Prelude BTree RustStr Wire Volume NetAddr PbAddr Port Config ServiceSpec Machine Scheduler.
From S2P Require Import Propagate SchedulePlan SchedulePlace.
#[local] Open Scope nat_scope.

Section schedule.
Context `{JsonLib, HashOrder, OciLib, UnicodeLib} (self : VolumeScheduler).

(** ** Assembling the phases *)

Definition no_mixed : Prop := ∀ v, v ∈ dom (volume_specs self) → ¬ mixed_volume self v.

(** The plan and the state of a placement. *)
Definition realises (a : string → string) (plan : gmap string (list VolumeSpec)) : Prop :=
  ∀ m, default [] (plan !! m) = planned_on self a m (btree_iter (volume_specs self)).

(** Why [schedule] fails. *)
Definition schedule_error_ok (err : ScheduleError) : Prop :=
  match err with
  | ServiceScheduling service NoEligibleMachines =>
      ∃ spec, spec ∈ service_specs self ∧ ss_name spec = service ∧ placement_ids self spec = ∅
  | ExistingVolumesConflict service _ =>
      ∃ spec, spec ∈ service_specs self ∧ ss_name spec = service ∧
        ∀ x, x ∈ placement_ids self spec → ¬ fits_existing self service x
  | MixedGlobalAndReplicated v => v ∈ dom (volume_specs self) ∧ mixed_volume self v
  | SharedServicePlacement services v =>
      volume_services self !! v = Some services ∧ needs_colocation self v ∧
        ¬ ∃ a, valid_placement self a
  | _ => False
  end.

Lemma covers_names e :
  sched_wf self → dom e = list_to_set (service_names self) → covers self e.
Proof.
  intros Hwf Hd v services Hv. apply Forall_forall. intros s Hs. rewrite Hd, elem_of_list_to_set.
  by apply (wf_services _ Hwf _ _ Hv).
Qed.

Lemma no_services_no_volumes : sched_wf self → service_specs self = [] → volume_specs self = ∅.
Proof.
  intros Hwf Hs. apply map_empty. intros v. apply not_elem_of_dom. rewrite <-(wf_dom _ Hwf).
  intros [services Hv]%elem_of_dom. destruct (wf_services _ Hwf _ _ Hv) as [Hne Hnames].
  destruct services as [|s services]; [done|]. specialize (Hnames s ltac:(set_solver)).
  unfold service_names in Hnames. rewrite Hs in Hnames. set_solver.
Qed.

(** The sets before propagation, in terms of valid placements. *)
Section narrowed.
Context (Hwf : sched_wf self) (e1 e2 : eligible_map).
Context (Hd1 : dom e1 = list_to_set (service_names self)).
Context (He1 : ∀ spec, spec ∈ service_specs self → e1 !! ss_name spec = Some (placement_ids self spec)).
Context (Hd2 : dom e2 = dom e1).
Context (He2 : ∀ s S S', e1 !! s = Some S → e2 !! s = Some S' →
  ∀ x, x ∈ S' ↔ x ∈ S ∧ fits_existing self s x).

Lemma narrowed_lookup spec :
  spec ∈ service_specs self →
  ∃ S', e2 !! ss_name spec = Some S' ∧
    ∀ x, x ∈ S' ↔ x ∈ placement_ids self spec ∧ fits_existing self (ss_name spec) x.
Proof.
  intros Hspec. pose proof (He1 spec Hspec) as HS.
  assert (ss_name spec ∈ dom e2) as [S' HS']%elem_of_dom
    by (rewrite Hd2; by apply elem_of_dom_2 in HS).
  exists S'. split; [done|]. by apply He2.
Qed.

Lemma service_of_name s : s ∈ dom e2 → ∃ spec, spec ∈ service_specs self ∧ s = ss_name spec.
Proof.
  rewrite Hd2, Hd1, elem_of_list_to_set. unfold service_names.
  intros (spec & -> & ?)%list_elem_of_fmap. eauto.
Qed.

Lemma feasible_narrowed a :
  feasible e2 a ↔
  (∀ spec, spec ∈ service_specs self → a (ss_name spec) ∈ placement_ids self spec) ∧
  (∀ s, s ∈ service_names self → fits_existing self s (a s)).
Proof.
  split.
  - intros Hf. split.
    + intros spec Hspec. destruct (narrowed_lookup spec Hspec) as (S' & HS' & Hx).
      by apply Hx, (Hf _ _ HS').
    + intros s (spec & -> & Hspec)%list_elem_of_fmap.
      destruct (narrowed_lookup spec Hspec) as (S' & HS' & Hx). by apply Hx, (Hf _ _ HS').
  - intros [Hp Hfit] s S' HS'.
    destruct (service_of_name s) as (spec & Hspec & ->); [by apply elem_of_dom_2 in HS'|].
    destruct (narrowed_lookup spec Hspec) as (T & HT & Hx). simplify_eq. apply Hx.
    split; [by apply Hp|]. apply Hfit. by apply list_elem_of_fmap_2.
Qed.

(** A global service has no volume that narrows its set. *)
Lemma global_unnarrowed spec :
  spec ∈ service_specs self → ss_mode spec = SERVICE_MODE_GLOBAL →
  e2 !! ss_name spec = Some (placement_ids self spec).
Proof.
  intros Hspec Hm. destruct (narrowed_lookup spec Hspec) as (S' & HS' & Hx). rewrite HS'. f_equal.
  apply set_eq. intros x. rewrite Hx. split; [tauto|]. intros Hp. split; [done|].
  intros v ms Hv Hs Hng. destruct Hng. destruct (existing_services _ _ _ Hwf Hv) as [services Hsv].
  rewrite (services_of_Some _ _ _ Hsv) in Hs. by eapply global_service_volumes.
Qed.
End narrowed.
(** With the volumes that need co-location left to propagate, a placement is an
    assignment that respects the narrowed sets and the shared volumes. *)
Lemma colocated_placed placed a :
  sched_wf self →
  (∀ v, v ∈ dom (volume_specs self) → (v ∉ placed ↔ needs_colocation self v)) →
  colocated self placed a ↔
  (∀ v services, volume_services self !! v = Some services → ¬ global_volume self v →
     existing_volume_machines self !! v = None → constant_on a services).
Proof.
  intros Hwf Hp. unfold colocated, active.
  assert (∀ v services, volume_services self !! v = Some services →
    (v ∉ placed ↔ needs_colocation self v)) as Hp'.
  { intros v services Hv. apply Hp. rewrite <-(wf_dom _ Hwf). by apply elem_of_dom_2 in Hv. }
  unfold needs_colocation in Hp'. split; intros Hc v services Hv.
  - intros Hg He. apply (Hc v services Hv). split; [by apply (Hp' v services Hv)|].
    by apply (wf_services _ Hwf _ _ Hv).
  - intros [Hnp _]. apply (Hp' v services Hv) in Hnp as [? ?]. by eapply Hc.
Qed.

Lemma start_inv placed e3 e2 :
  sched_wf self →
  (∀ v, v ∈ dom (volume_specs self) → (v ∉ placed ↔ needs_colocation self v)) →
  (∀ spec, spec ∈ service_specs self → ss_mode spec = SERVICE_MODE_GLOBAL →
     e2 !! ss_name spec = Some (placement_ids self spec)) →
  all_nonempty e2 → propagated self placed e2 (Ok e3) →
  place_inv self e3 [] (mk_place_acc e3 placed ∅).
Proof.
  intros Hwf Hp Hg Hne2 Hprop. pose proof Hprop as (Hn & Hne & Hu & _).
  constructor; cbn [pa_eligible pa_placed pa_scheduled].
  - done.
  - by apply Hne.
  - done.
  - intros v Hv. rewrite (Hp v Hv). set_solver.
  - set_solver.
  - intros spec Hspec Hm. rewrite <-(Hg spec Hspec Hm).
    eapply propagated_untouched; [done..|]. intros v services Hv [Hnp _] Hs.
    apply (Hp v) in Hnp; [|rewrite <-(wf_dom _ Hwf); by apply elem_of_dom_2 in Hv].
    apply (proj1 Hnp). by eapply global_service_volumes.
  - done.
Qed.

(** The loop ends with the plan of a valid placement. *)
Lemma finish_inv e1 e2 e3 acc :
  sched_wf self → no_mixed →
  (∀ a, feasible e2 a ↔
     (∀ spec, spec ∈ service_specs self → a (ss_name spec) ∈ placement_ids self spec) ∧
     (∀ s, s ∈ service_names self → fits_existing self s (a s))) →
  e3 ⊑ₑ e2 → place_inv self e1 (btree_iter (volume_specs self)) acc → pa_eligible acc ⊑ₑ e3 →
  valid_placement self (least_choice (pa_eligible acc)).
Proof.
  intros Hwf Hmix Hfeas H32 Hinv Hn.
  assert (feasible e2 (least_choice (pa_eligible acc))) as Hf.
  { eapply feasible_narrows; [exact H32|]. eapply feasible_narrows; [exact Hn|].
    apply least_choice_feasible, (pi_nonempty _ _ _ _ Hinv). }
  apply Hfeas in Hf as [Hp Hfit]. split_and!; [done..|].
  intros v services Hv Hg He s1 s2 Hs1 Hs2.
  destruct (pi_done _ _ _ _ Hinv v services) as [m Hm]; [|done..|].
  - change (v ∈ btree_keys (volume_specs self)).
    rewrite elem_of_btree_keys, <-elem_of_dom, <-(wf_dom _ Hwf). by apply elem_of_dom_2 in Hv.
  - by rewrite !(least_choice_singleton _ _ m) by auto.
Qed.

Lemma schedule_spec :
  sched_wf self →
  result_spec (schedule self)
    (fun '(plan, state') => no_mixed ∧ state' = commit plan (sched_state self) ∧
       ∃ a, valid_placement self a ∧ realises a plan)
    schedule_error_ok.
Proof.
  intros Hwf. unfold schedule. case_bool_decide as Hnil.
  { apply nil_length_inv in Hnil. pose proof (no_services_no_volumes Hwf Hnil) as Hvs.
    cbn. unfold no_mixed, realises, valid_placement, service_names. rewrite Hvs, Hnil. split_and!.
    - set_solver.
    - unfold commit. by destruct (sched_state self).
    - exists (fun _ => ""). split_and!; [set_solver..| |done].
      intros v services Hv. apply elem_of_dom_2 in Hv. rewrite (wf_dom _ Hwf), Hvs in Hv. set_solver. }
  eapply result_spec_bind; [eapply result_spec_mono;
    [apply initial_eligible_spec, (wf_names _ Hwf)|intros e1 _ Hx; exact Hx|]|].
  { intros err _ (spec & Hspec & -> & Hempty). cbn. eauto. }
  intros e1 _ (Hd1 & Hne1 & He1). pose proof (covers_names e1 Hwf Hd1) as Hc1.
  eapply result_spec_bind; [eapply result_spec_mono;
    [by apply narrow_existing_spec|intros e2 _ Hx; exact Hx|]|].
  { intros err _ (s & S & volumes & -> & HS & Hno). cbn.
    assert (s ∈ service_names self) as (spec & -> & Hspec)%list_elem_of_fmap
      by (apply elem_of_dom_2 in HS; rewrite Hd1 in HS; by apply elem_of_list_to_set in HS).
    exists spec. split_and!; [done..|]. rewrite (He1 spec Hspec) in HS. by simplify_eq. }
  intros e2 _ (Hne2 & Hd2 & He2).
  assert (covers self e2) as Hc2 by (apply covers_names; [done|congruence]).
  eapply result_spec_bind; [eapply result_spec_mono;
    [by apply initially_placed_spec|intros placed _ Hx; exact Hx|]|].
  { intros err _ (v & Hv & -> & Hm). cbn. auto. }
  intros placed _ [Hmix Hplaced].
  pose proof (fun a => colocated_placed placed a Hwf Hplaced) as Hcol.
  pose proof (feasible_narrowed e1 e2 Hd1 He1 Hd2 He2) as Hfeas.
  pose proof (propagate_constraints_spec self placed e2 Hc2) as Hprop.
  destruct (propagate_constraints self e2 placed) as [e3|err|m] eqn:E3; [| |done].
  2: { destruct Hprop as [(services & v & -> & Hv & Hnp) Hno]. cbn. split; [done|].
       split; [by apply Hplaced; [rewrite <-(wf_dom _ Hwf); apply elem_of_dom_2 in Hv|]|].
       intros (a & Hp & Hfit & Hconst). apply (Hno a); [by apply Hfeas|by apply Hcol]. }
  cbn [mbind result_bind].
  assert (e3 ⊑ₑ e2) as H32 by apply Hprop.
  eapply result_spec_bind; [eapply result_spec_mono; [apply place_loop_spec with (E0 := e3)| |done]|].
  - done.
  - done.
  - eapply covers_narrows; [exact H32|done].
  - eapply start_inv; [done|done| |done|done].
    intros spec Hspec Hm. by eapply global_unnarrowed.
  - intros acc _ Hinv. exact Hinv.
  - intros acc _ Hinv. cbn. split; [done|]. split; [done|].
    exists (least_choice (pa_eligible acc)). split.
    + by eapply finish_inv; [..|apply (pi_narrows _ _ _ _ Hinv)].
    + exact (pi_plan _ _ _ _ Hinv).
Qed.

(** A failure is never due to a placement that was overlooked. *)
Lemma schedule_error_no_placement err :
  schedule_error_ok err → no_mixed → ¬ ∃ a, valid_placement self a.
Proof.
  intros Herr Hmix (a & Hp & Hfit & Hconst).
  destruct err as [| | | | |service err|service volumes|services v|v| | |]; cbn in Herr; try done.
  - destruct err; try done. destruct Herr as (spec & Hspec & <- & Hempty).
    specialize (Hp spec Hspec). rewrite Hempty in Hp. set_solver.
  - destruct Herr as (spec & Hspec & <- & Hno). apply (Hno (a (ss_name spec))); [by apply Hp|].
    apply Hfit. by apply list_elem_of_fmap_2.
  - destruct Herr as (_ & _ & Hno). apply Hno. by exists a.
  - destruct Herr as [Hv Hm]. by apply (Hmix v).
Qed.

End schedule.
