(* ===== verification/SchedulerNew.v ===== *)
(** * [VolumeScheduler::new]

    What the constructor collects from the services and from the machines, and
    when it refuses to. *)

From S2P Require Import Prelude BTree RustStr Wire Volume NetAddr PbAddr Port Config ServiceSpec Machine Scheduler.
From S2P Require Import Propagate SchedulePlan.
#[local] Open Scope nat_scope.

(** ** Validation does not panic *)

Section no_panic.
Context `{OciLib, UnicodeLib}.

Definition no_panic {E A} (r : result E A) : Prop := ∀ m, r ≠ Panic m.

Lemma no_panic_spec {E A} (r : result E A) : no_panic r ↔ result_spec r (fun _ => True) (fun _ => True).
Proof. unfold no_panic. destruct r; cbn; naive_solver. Qed.

Lemma no_panic_bind {E A B} (r : result E A) (k : A → result E B) :
  no_panic r → (∀ a, no_panic (k a)) → no_panic (r ≫= k).
Proof. destruct r; cbn; [auto|done|]. intros Hp. by destruct (Hp msg). Qed.

Lemma no_panic_map_err {E E' A} (f : E → E') (r : result E A) : no_panic r → no_panic (map_err f r).
Proof. destruct r; cbn; [done..|]. intros Hp. by destruct (Hp msg). Qed.

Lemma no_panic_foldM {E A B} (f : B → A → result E B) b l :
  (∀ b x, no_panic (f b x)) → no_panic (foldM f b l).
Proof.
  intros Hf. apply no_panic_spec, (foldM_inv f (fun _ => True)); [done|].
  intros x b' _ _. by apply no_panic_spec.
Qed.

Lemma no_panic_forM {E A} (l : list A) (f : A → result E ()) :
  (∀ x, no_panic (f x)) → no_panic (forM_ l f).
Proof. intros Hf. apply no_panic_foldM. auto. Qed.

Lemma no_panic_ok_or {E A} (e : E) (o : option A) : no_panic (ok_or e o).
Proof. by destruct o. Qed.
Lemma no_panic_Ok {E A} (a : A) : no_panic (@Ok E A a).
Proof. done. Qed.
Lemma no_panic_Err {E A} (e : E) : no_panic (@Err E A e).
Proof. done. Qed.
End no_panic.

(** Walks through binds, conditionals and loops down to values and errors. *)
Create HintDb no_panic.
Ltac solve_no_panic :=
  repeat first
    [ solve [auto 1 with no_panic nocore] | progress unfold invalid, with_context, invalid_image
    | apply no_panic_Ok | apply no_panic_Err | apply no_panic_ok_or
    | apply no_panic_bind; [|intros ?] | apply no_panic_map_err
    | apply no_panic_forM; intros ? | apply no_panic_foldM; intros ? ?
    | match goal with |- no_panic (match ?x with _ => _ end) => destruct x end ].

Section validate.
Context `{OciLib, UnicodeLib}.

Lemma parse_digits_no_panic neg lo hi acc s : no_panic (parse_digits neg lo hi acc s).
Proof. revert acc. induction s as [|c s IH]; intros acc; cbn; solve_no_panic; apply IH. Qed.
#[local] Hint Resolve parse_digits_no_panic : no_panic.
Lemma parse_int_no_panic signed lo hi s : no_panic (parse_int signed lo hi s).
Proof. unfold parse_int. solve_no_panic. Qed.
#[local] Hint Resolve parse_int_no_panic : no_panic.
Lemma parse_numeric_id_no_panic field value : no_panic (parse_numeric_id field value).
Proof. unfold parse_numeric_id, parse_u. solve_no_panic. Qed.
#[local] Hint Resolve parse_numeric_id_no_panic : no_panic.

Lemma container_validate_no_panic c : no_panic (container_validate c).
Proof.
  unfold container_validate, validate_docker_reference, bracketed_registry, mount_validate,
    validate_digest, ipv6_from_str.
  solve_no_panic.
Qed.
#[local] Hint Resolve container_validate_no_panic : no_panic.

Lemma spec_validate_no_panic spec : no_panic (spec_validate spec).
Proof.
  unfold spec_validate, validate_service_name, validate_volumes, volume_validate,
    validate_configs_and_mounts, config_validate, config_mount_validate, hook_validate,
    numeric_uid, numeric_gid.
  solve_no_panic.
Qed.
End validate.

(** ** The mounted volumes *)

Section mounted.
Context `{JsonLib, HashOrder, OciLib, UnicodeLib}.

Lemma normalise_name vol : vs_name (normalise_volume vol) = docker_volume_name vol.
Proof. cbn. apply docker_name_with_defaults. Qed.

Lemma spec_volume_Some spec name vol :
  spec_volume spec name = Some vol → vs_name vol = name.
Proof. unfold spec_volume, find_first. intros [_ Hn]%List.find_some. by apply bool_decide_eq_true in Hn. Qed.

Lemma mounted_by_name spec vol :
  vol ∈ mounted_volume_list spec → spec_volume spec (vs_name vol) = Some vol.
Proof.
  unfold mounted_volume_list. rewrite list_elem_of_filter, list_elem_of_omap.
  intros (_ & mount & _ & Hm). by rewrite (spec_volume_Some _ _ _ Hm).
Qed.

Lemma mounted_kind spec vol : vol ∈ mounted_volume_list spec → vs_kind vol = VOLUME_TYPE_VOLUME.
Proof. unfold mounted_volume_list. by intros [? _]%list_elem_of_filter. Qed.

Lemma lookup_collect (l : list VolumeSpec) (m : gmap string VolumeSpec) k v :
  (∀ x y, x ∈ l → y ∈ l → vs_name x = vs_name y → x = y) →
  foldl (fun m v => <[vs_name v := v]> m) m l !! k = Some v ↔
  (v ∈ l ∧ vs_name v = k) ∨ (m !! k = Some v ∧ ∀ x, x ∈ l → vs_name x ≠ k).
Proof.
  revert m. induction l as [|w l IH]; intros m Hinj; cbn [foldl]; [set_solver|].
  rewrite IH by set_solver. rewrite lookup_insert_Some. split.
  - intros [?|[[[<- ->]|[Hne Hm]] Hno]]; [set_solver..|].
    right. split; [done|]. intros x [->|Hx]%elem_of_cons; [done|by apply Hno].
  - intros [[[->|Hv]%elem_of_cons Hk]|[Hm Hno]]; [|by left|].
    + destruct (decide (w ∈ l)) as [|Hnin]; [by left|]. right. split; [by left|].
      intros x Hx Hxk. apply Hnin. assert (w = x) as -> by (apply Hinj; set_solver). done.
    + right. split; [right; split; [apply Hno; set_solver|done]|]. set_solver.
Qed.

(** Each mounted volume once. *)
Lemma elem_of_mounted spec vol : vol ∈ mounted_docker_volumes spec ↔ vol ∈ mounted_volume_list spec.
Proof.
  unfold mounted_docker_volumes. rewrite list_elem_of_fmap.
  assert (∀ x y, x ∈ mounted_volume_list spec → y ∈ mounted_volume_list spec →
    vs_name x = vs_name y → x = y) as Hinj.
  { intros x y Hx%mounted_by_name Hy%mounted_by_name E. rewrite E in Hx. by simplify_eq. }
  split.
  - intros ([k v] & -> & Hin). rewrite elem_of_hash_iter, lookup_collect in Hin by done.
    cbn. destruct Hin as [[? _]|[? _]]; [done|]. by rewrite lookup_empty in *.
  - intros Hin. exists (vs_name vol, vol). split; [done|].
    rewrite elem_of_hash_iter, lookup_collect by done. by left.
Qed.

End mounted.

(** ** The services *)

Section services.
Context `{JsonLib, HashOrder, OciLib, UnicodeLib}.

(** Volume [vol], known to Docker as [v], is mounted by service [spec]. *)
Definition mounts (spec : ServiceSpec) (vol : VolumeSpec) (v : string) : Prop :=
  vol ∈ mounted_volume_list spec ∧ docker_volume_name vol = v.
Definition has_volumes (spec : ServiceSpec) : Prop := mounted_volume_list spec ≠ [].
#[export] Instance has_volumes_dec spec : Decision (has_volumes spec).
Proof. unfold has_volumes. apply _. Defined.

(** After the volumes [vols] of one service. *)
Record volumes_inv (service : string) (vs0 : gmap string VolumeSpec)
    (sv0 : gmap string (list string)) (vols : list VolumeSpec)
    (acc : gmap string VolumeSpec * gmap string (list string)) : Prop := {
  vi_keep : vs0 ⊆ acc.1;
  vi_source : ∀ v seen, acc.1 !! v = Some seen → vs0 !! v = Some seen ∨
    ∃ vol, vol ∈ vols ∧ docker_volume_name vol = v ∧ seen = normalise_volume vol;
  vi_seen : ∀ vol, vol ∈ vols → ∃ seen, acc.1 !! docker_volume_name vol = Some seen ∧
    volume_equivalent seen (normalise_volume vol) = true;
  vi_services : ∀ v s, s ∈ default [] (acc.2 !! v) ↔ s ∈ default [] (sv0 !! v) ∨
    (s = service ∧ ∃ vol, vol ∈ vols ∧ docker_volume_name vol = v);
  vi_dom : ∀ v, is_Some (acc.2 !! v) ↔ is_Some (sv0 !! v) ∨
    ∃ vol, vol ∈ vols ∧ docker_volume_name vol = v
}.

(** Two definitions of one volume that do not agree. *)
Definition conflict_in (vs0 : gmap string VolumeSpec) (vols : list VolumeSpec)
    (err : ScheduleError) : Prop :=
  ∃ vol seen, vol ∈ vols ∧ err = ConflictingVolumeDefinitions (docker_volume_name vol) ∧
    (vs0 !! docker_volume_name vol = Some seen ∨
     ∃ vol', vol' ∈ vols ∧ docker_volume_name vol' = docker_volume_name vol ∧
       seen = normalise_volume vol') ∧
    volume_equivalent seen (normalise_volume vol) = false.

Lemma volumes_inv_push service vs0 sv0 pre vol vs sv vs' :
  volumes_inv service vs0 sv0 pre (vs, sv) → vs ⊆ vs' →
  (∀ v seen, vs' !! v = Some seen → vs !! v = Some seen ∨
     docker_volume_name vol = v ∧ seen = normalise_volume vol) →
  (∃ seen, vs' !! docker_volume_name vol = Some seen ∧
     volume_equivalent seen (normalise_volume vol) = true) →
  volumes_inv service vs0 sv0 (pre ++ [vol])
    (vs', entry_push sv (docker_volume_name vol) service).
Proof.
  intros [Hkeep Hsrc Hseen Hsv Hdom] Hsub Hnew Hvol. cbn in *. constructor; cbn.
  - by etrans.
  - intros v seen [Hs|[<- ->]]%Hnew; [apply Hsrc in Hs|]; set_solver.
  - intros w [Hw|Hw%list_elem_of_singleton]%elem_of_app; [|by subst].
    destruct (Hseen w Hw) as (seen & Hs & Heq). exists seen. split; [|done].
    by eapply lookup_weaken.
  - intros v s. destruct (decide (docker_volume_name vol = v)) as [<-|Hne].
    + rewrite entry_push_eq. cbn. rewrite elem_of_app, Hsv, list_elem_of_singleton. set_solver.
    + rewrite entry_push_ne, Hsv by done. set_solver.
  - intros v. destruct (decide (docker_volume_name vol = v)) as [<-|Hne].
    + rewrite entry_push_eq. split; [|by eauto]. intros _. right. set_solver.
    + rewrite entry_push_ne, Hdom by done. set_solver.
Qed.

Lemma volume_equivalent_refl v : volume_equivalent v v = true.
Proof. by apply volume_equivalent_spec. Qed.

Lemma new_volumes_spec service vs0 sv0 vols :
  result_spec (foldM (new_volume service) (vs0, sv0) vols)
    (volumes_inv service vs0 sv0 vols) (conflict_in vs0 vols).
Proof.
  apply (foldM_spec _ (volumes_inv service vs0 sv0)).
  { constructor; cbn; [done|by left|set_solver|set_solver|]. intros v. set_solver. }
  intros pre vol post [vs sv] -> Hinv. unfold new_volume. rewrite normalise_name.
  destruct (vs !! docker_volume_name vol) as [seen|] eqn:Hlook.
  - destruct (volume_equivalent seen (normalise_volume vol)) eqn:Heq; cbn.
    + eapply volumes_inv_push; eauto.
    + exists vol, seen. split_and!; [set_solver|done| |done].
      destruct (vi_source _ _ _ _ _ Hinv _ _ Hlook) as [?|(w & ? & ? & ?)]; [by left|right].
      exists w. set_solver.
  - cbn. eapply volumes_inv_push; [done|by apply insert_subseteq| |].
    + intros v seen. rewrite lookup_insert_Some. naive_solver.
    + exists (normalise_volume vol). rewrite lookup_insert_eq. split; [done|].
      apply volume_equivalent_refl.
Qed.

(** After the services [pre]. *)
Record services_inv (pre : list ServiceSpec) (acc : new_acc) : Prop := {
  si_specs : acc_specs acc = filter has_volumes pre;
  si_names : acc_names acc = list_to_set (ss_name <$> pre);
  si_nodup : NoDup (ss_name <$> pre);
  si_valid : Forall (fun spec => spec_validate spec = Ok ()) pre;
  si_source : ∀ v seen, acc_volume_specs acc !! v = Some seen →
    ∃ spec vol, spec ∈ pre ∧ mounts spec vol v ∧ seen = normalise_volume vol;
  si_seen : ∀ spec vol v, spec ∈ pre → mounts spec vol v →
    ∃ seen, acc_volume_specs acc !! v = Some seen ∧
      volume_equivalent seen (normalise_volume vol) = true;
  si_services : ∀ v s, s ∈ default [] (acc_volume_services acc !! v) ↔
    ∃ spec vol, spec ∈ pre ∧ mounts spec vol v ∧ ss_name spec = s;
  si_dom : ∀ v, is_Some (acc_volume_services acc !! v) ↔ ∃ spec vol, spec ∈ pre ∧ mounts spec vol v
}.

(** Why the services are refused. *)
Definition services_error_ok (specs : list ServiceSpec) (err : ScheduleError) : Prop :=
  match err with
  | InvalidServiceSpec e => ∃ spec, spec ∈ specs ∧ spec_validate spec = Err e
  | DuplicateServiceName name => ¬ NoDup (ss_name <$> specs) ∧ name ∈ ss_name <$> specs
  | ConflictingVolumeDefinitions v =>
      ∃ spec1 vol1 spec2 vol2, spec1 ∈ specs ∧ spec2 ∈ specs ∧ mounts spec1 vol1 v ∧
        mounts spec2 vol2 v ∧
        volume_equivalent (normalise_volume vol1) (normalise_volume vol2) = false
  | _ => False
  end.

Lemma services_inv_push pre acc spec vs sv :
  services_inv pre acc → spec_validate spec = Ok () → ss_name spec ∉ acc_names acc →
  volumes_inv (ss_name spec) (acc_volume_specs acc) (acc_volume_services acc)
    (mounted_docker_volumes spec) (vs, sv) →
  services_inv (pre ++ [spec])
    (mk_new_acc (filter has_volumes (pre ++ [spec])) vs sv ({[ss_name spec]} ∪ acc_names acc)).
Proof.
  intros [Hspecs Hnames Hnd Hvalid Hsrc Hseen Hsv Hdom] Hok Hfresh Hvi.
  pose proof (elem_of_mounted spec) as Hmem.
  constructor; cbn [acc_specs acc_names acc_volume_specs acc_volume_services].
  - done.
  - rewrite Hnames, fmap_app, list_to_set_app_L. set_solver.
  - rewrite fmap_app. apply NoDup_app. split_and!; [done| |apply NoDup_singleton].
    intros x Hx Hx'%list_elem_of_singleton. subst x. apply Hfresh. rewrite Hnames. by apply elem_of_list_to_set.
  - apply Forall_app. by rewrite Forall_singleton.
  - intros v seen Hs. apply (vi_source _ _ _ _ _ Hvi) in Hs as [Hs|(vol & Hvol & Hn & ->)].
    + apply Hsrc in Hs as (spec' & vol & ? & ? & ?). exists spec', vol. set_solver.
    + exists spec, vol. split; [set_solver|]. split; [|done]. split; [by apply Hmem|done].
  - intros spec' vol v [Hin|Hin%list_elem_of_singleton]%elem_of_app Hm.
    + destruct (Hseen spec' vol v Hin Hm) as (seen & Hs & Heq). exists seen. split; [|done].
      eapply lookup_weaken; [done|apply (vi_keep _ _ _ _ _ Hvi)].
    + subst spec'. destruct Hm as [Hm <-]. apply (vi_seen _ _ _ _ _ Hvi). by apply Hmem.
  - intros v s. rewrite (vi_services _ _ _ _ _ Hvi), Hsv. unfold mounts. split.
    + intros [(spec' & vol & ? & ? & ?)|[-> (vol & Hvol%Hmem & ?)]].
      * exists spec', vol. set_solver.
      * exists spec, vol. set_solver.
    + intros (spec' & vol & [Hin|Hin%list_elem_of_singleton]%elem_of_app & [Hm Hn] & Hs).
      * left. by exists spec', vol.
      * subst. right. split; [done|]. exists vol. by rewrite Hmem.
  - intros v. rewrite (vi_dom _ _ _ _ _ Hvi), Hdom. unfold mounts. split.
    + intros [(spec' & vol & ? & ?)|(vol & Hvol%Hmem & ?)].
      * exists spec', vol. set_solver.
      * exists spec, vol. set_solver.
    + intros (spec' & vol & [Hin|Hin%list_elem_of_singleton]%elem_of_app & [Hm Hn]).
      * left. by exists spec', vol.
      * subst. right. exists vol. by rewrite Hmem.
Qed.

Lemma new_service_step specs pre spec post acc :
  specs = pre ++ spec :: post → services_inv pre acc →
  result_spec (new_service acc spec) (services_inv (pre ++ [spec])) (services_error_ok specs).
Proof.
  intros Hl Hinv. unfold new_service.
  destruct (spec_validate spec) as [[]|e|m] eqn:Hval; cbn [map_err mbind result_bind].
  2: { cbn. exists spec. split; [|done]. rewrite Hl. set_solver. }
  2: { by destruct (spec_validate_no_panic spec m). }
  case_bool_decide as Hname.
  { cbn. rewrite (si_names _ _ Hinv), elem_of_list_to_set in Hname.
    rewrite Hl, fmap_app, fmap_cons. split; [|set_solver].
    intros (_ & Hd & _)%NoDup_app. apply (Hd _ Hname). set_solver. }
  assert (has_volumes spec ↔ mounted_docker_volumes spec ≠ []) as Hhas.
  { unfold has_volumes. split; intros Hne E; apply Hne; apply elem_of_nil_inv; intros vol Hvol.
    - apply elem_of_mounted in Hvol. rewrite E in Hvol. set_solver.
    - apply elem_of_mounted in Hvol. rewrite E in Hvol. set_solver. }
  pose proof (new_volumes_spec (ss_name spec) (acc_volume_specs acc) (acc_volume_services acc)
    (mounted_docker_volumes spec)) as Hvols.
  pose proof (fun vs sv => services_inv_push pre acc spec vs sv Hinv Hval Hname) as Hpush.
  rewrite filter_app, filter_cons, <-(si_specs _ _ Hinv) in Hpush.
  destruct (mounted_docker_volumes spec) as [|vol0 vols] eqn:Hm.
  { rewrite decide_False, filter_nil, app_nil_r in Hpush by naive_solver. cbn in Hvols. by apply Hpush. }
  rewrite decide_True, filter_nil in Hpush by (by apply Hhas).
  destruct (foldM _ _ (vol0 :: vols)) as [[vs sv]|err|] eqn:E; cbn [mbind result_bind] in *; [|..|done].
  - by apply Hpush.
  - destruct Hvols as (vol & seen & Hvol & -> & Hsrc & Hne). cbn.
    assert (∀ w, w ∈ vol0 :: vols → mounts spec w (docker_volume_name w)) as Hmounts.
    { intros w Hw. split; [|done]. apply elem_of_mounted. by rewrite Hm. }
    assert (spec ∈ specs) as Hspec by (rewrite Hl; set_solver).
    destruct Hsrc as [Hs|(vol' & Hvol' & En & ->)].
    + apply (si_source _ _ Hinv) in Hs as (spec' & vol' & Hin & Hm' & ->).
      exists spec', vol', spec, vol. split_and!; auto. rewrite Hl. set_solver.
    + exists spec, vol', spec, vol. split_and!; auto. rewrite <-En. auto.
Qed.

Lemma new_services_spec specs :
  result_spec (foldM new_service (mk_new_acc [] ∅ ∅ ∅) specs) (services_inv specs)
    (services_error_ok specs).
Proof.
  apply (foldM_spec _ services_inv).
  - constructor; cbn; try set_solver; [constructor|]. intros v. rewrite lookup_empty.
    split; [by intros []|set_solver].
  - intros. by eapply new_service_step.
Qed.
End services.

(** ** The existing volumes *)

Section existing.
Context `{JsonLib, HashOrder, OciLib, UnicodeLib} (vspecs : gmap string VolumeSpec).

(** The volumes on machines, with the machine. *)
Definition volumes_on (machines : list Machine) : list (MachineInfo * DockerVolume) :=
  machines ≫= fun m => pair (m_info m) <$> m_volumes m.

Record existing_inv (seen : list (MachineInfo * DockerVolume)) (ex : gmap string (gset string)) :
    Prop := {
  ei_elem : ∀ v x, x ∈ default ∅ (ex !! v) ↔ is_Some (vspecs !! v) ∧
    ∃ info dv, (info, dv) ∈ seen ∧ dv_name dv = v ∧ mi_id info = x;
  ei_nonempty : ∀ v ms, ex !! v = Some ms → ms ≠ ∅ ∧ is_Some (vspecs !! v);
  ei_match : ∀ info dv spec, (info, dv) ∈ seen → vspecs !! dv_name dv = Some spec →
    matches_docker_volume spec dv = true
}.

Definition existing_error_ok (l : list (MachineInfo * DockerVolume)) (err : ScheduleError) : Prop :=
  ∃ info dv spec, (info, dv) ∈ l ∧ vspecs !! dv_name dv = Some spec ∧
    matches_docker_volume spec dv = false ∧
    err = ExistingVolumeMismatch (dv_name dv) (mi_name info).

Lemma new_existing_step l seen info dv post ex :
  l = seen ++ (info, dv) :: post → existing_inv seen ex →
  result_spec (new_existing vspecs info ex dv) (existing_inv (seen ++ [(info, dv)]))
    (existing_error_ok l).
Proof.
  intros Hl [Hel Hne Hm]. unfold new_existing.
  destruct (vspecs !! dv_name dv) as [spec|] eqn:Hspec; [destruct (matches_docker_volume spec dv) eqn:Hmatch|];
    cbn.
  - constructor.
    + intros v x. unfold entry_insert. destruct (decide (dv_name dv = v)) as [<-|Hv].
      * rewrite lookup_insert_eq. cbn. rewrite elem_of_union, Hel, elem_of_singleton, Hspec. split.
        -- intros [[? (i & d & ? & ? & ?)]| ->]; (split; [by eauto|]).
           ++ exists i, d. set_solver.
           ++ exists info, dv. set_solver.
        -- intros [? (i & d & [Hin|Hin%list_elem_of_singleton]%elem_of_app & ? & ?)].
           ++ left. split; [done|]. eauto.
           ++ simplify_eq. by right.
      * rewrite lookup_insert_ne, Hel by done. apply and_iff_compat_l. split.
        -- intros (i & d & ? & ? & ?). exists i, d. set_solver.
        -- intros (i & d & [Hin|Hin%list_elem_of_singleton]%elem_of_app & ? & ?); [by eauto|].
           by simplify_eq.
    + intros v ms. unfold entry_insert. rewrite lookup_insert_Some.
      intros [[<- <-]|[_ Hv]]; [|by apply Hne]. split; [set_solver|by rewrite Hspec].
    + intros i d s [Hin|Hin%list_elem_of_singleton]%elem_of_app Hs; [by eapply Hm|]. by simplify_eq.
  - exists info, dv, spec. split_and!; [|done..]. rewrite Hl. set_solver.
  - constructor; [| done|].
    + intros v x. rewrite Hel. split.
      * intros [? (i & d & ? & ? & ?)]. split; [done|]. exists i, d. set_solver.
      * intros [Hv (i & d & [Hin|Hin%list_elem_of_singleton]%elem_of_app & ? & ?)].
        -- split; [done|]. eauto.
        -- simplify_eq. rewrite Hspec in Hv. by destruct Hv.
    + intros i d s [Hin|Hin%list_elem_of_singleton]%elem_of_app Hs; [by eapply Hm|]. by simplify_eq.
Qed.

Lemma existing_machine_spec l seen m post ex :
  l = seen ++ (pair (m_info m) <$> m_volumes m) ++ post → existing_inv seen ex →
  result_spec (foldM (new_existing vspecs (m_info m)) ex (m_volumes m))
    (existing_inv (seen ++ (pair (m_info m) <$> m_volumes m))) (existing_error_ok l).
Proof.
  intros Hl Hinv.
  apply (foldM_spec _ (fun pre => existing_inv (seen ++ (pair (m_info m) <$> pre)))).
  { by rewrite fmap_nil, app_nil_r. }
  intros pre dv rest ex' Hv Hinv'. rewrite fmap_app, app_assoc.
  eapply new_existing_step; [|exact Hinv']. rewrite Hl, Hv, fmap_app, fmap_cons.
  by rewrite <-!app_assoc.
Qed.

Lemma existing_loop_spec machines :
  result_spec (foldM (fun ex machine => foldM (new_existing vspecs (m_info machine)) ex
                                          (m_volumes machine)) ∅ machines)
    (existing_inv (volumes_on machines)) (existing_error_ok (volumes_on machines)).
Proof.
  apply (foldM_spec _ (fun pre => existing_inv (volumes_on pre))).
  { constructor; [|by intros v ms; rewrite lookup_empty|by intros ??? ?%elem_of_nil].
    intros v x. rewrite lookup_empty. cbn. split; [set_solver|].
    intros [_ (? & ? & ?%elem_of_nil & _)]. done. }
  intros pre m post ex -> Hinv. unfold volumes_on. rewrite bind_app. cbn. rewrite app_nil_r.
  eapply existing_machine_spec; [|exact Hinv]. unfold volumes_on. by rewrite bind_app.
Qed.
End existing.

(** ** The constructor *)

Section new.
Context `{JsonLib, HashOrder, OciLib, UnicodeLib}.

Record collected (state : ClusterState) (specs : list ServiceSpec) (self : VolumeScheduler) : Prop := {
  co_state : sched_state self = state;
  co_specs : service_specs self = filter has_volumes specs;
  co_services : services_inv specs
    (mk_new_acc (service_specs self) (volume_specs self) (volume_services self)
       (list_to_set (ss_name <$> specs)));
  co_existing : existing_inv (volume_specs self) (volumes_on (cl_machines state))
    (existing_volume_machines self)
}.

Definition new_error_ok (state : ClusterState) (specs : list ServiceSpec) (err : ScheduleError) : Prop :=
  match err with
  | ExistingVolumeMismatch v name =>
      ∃ info dv spec vol, (info, dv) ∈ volumes_on (cl_machines state) ∧ mi_name info = name ∧
        spec ∈ specs ∧ mounts spec vol v ∧ dv_name dv = v ∧
        matches_docker_volume (normalise_volume vol) dv = false
  | err => services_error_ok specs err
  end.

Lemma scheduler_new_spec state specs :
  result_spec (scheduler_new state specs) (collected state specs) (new_error_ok state specs).
Proof.
  unfold scheduler_new. eapply result_spec_bind; [eapply result_spec_mono;
    [apply new_services_spec|intros acc _ Hx; exact Hx|]|].
  { intros err _ Hx. destruct err; done. }
  intros acc _ Hsi.
  eapply result_spec_bind; [eapply result_spec_mono;
    [apply existing_loop_spec|intros ex _ Hx; exact Hx|]|].
  { intros err _ (info & dv & seen & Hin & Hseen & Hm & ->). cbn.
    apply (si_source _ _ Hsi) in Hseen as (spec & vol & Hs & Hv & ->).
    exists info, dv, spec, vol. split_and!; auto. }
  intros ex _ Hex. cbn. constructor; cbn; [done|apply (si_specs _ _ Hsi)| |done].
  rewrite <-(si_names _ _ Hsi). by destruct acc.
Qed.

(** What the constructor collects is well-formed. *)
Lemma collected_wf state specs self : collected state specs self → sched_wf self.
Proof.
  intros [Hst Hspecs Hsi Hex].
  assert (∀ v, is_Some (volume_services self !! v) ↔ is_Some (volume_specs self !! v)) as Hdom.
  { intros v. rewrite (si_dom _ _ Hsi v). split.
    - intros (spec & vol & Hin & Hm). destruct (si_seen _ _ Hsi _ _ _ Hin Hm) as (seen & ? & _). eauto.
    - intros [seen Hs]. apply (si_source _ _ Hsi) in Hs as (spec & vol & ? & ? & _). eauto. }
  pose proof (si_services _ _ Hsi) as Hserv. cbn in Hserv.
  constructor.
  - apply set_eq. intros v. by rewrite !elem_of_dom.
  - intros v services Hv. specialize (Hserv v). rewrite Hv in Hserv. cbn in Hserv. split.
    + intros ->. assert (is_Some (volume_services self !! v)) as Hs by (rewrite Hv; eauto).
      apply (si_dom _ _ Hsi v) in Hs as (spec & vol & Hin & Hm).
      assert (ss_name spec ∈ @nil string) as ?%elem_of_nil by (apply Hserv; eauto). done.
    + intros s (spec & vol & Hin & Hm & <-)%Hserv. unfold service_names. rewrite Hspecs.
      apply list_elem_of_fmap_2, list_elem_of_filter. split; [|done]. unfold has_volumes.
      destruct Hm as [Hm _]. intros E. rewrite E in Hm. by apply elem_of_nil in Hm.
  - unfold service_names. rewrite Hspecs. eapply sublist_NoDup; [apply (si_nodup _ _ Hsi)|].
    apply fmap_sublist, sublist_filter.
  - intros v ms Hv. rewrite elem_of_dom. by apply (ei_nonempty _ _ _ Hex).
Qed.
End new.
