(* ===== verification/Deploy.v ===== *)
(** * Scheduling a deployment end to end

    The properties of the deploy scheduler, from the specifications of the
    services and the snapshot of the cluster to the machines that
    [ServiceScheduler] then finds for each service. *)

From S2P Require Import Prelude BTree RustStr Wire Volume NetAddr PbAddr Port Config ServiceSpec Machine Scheduler.
From S2P Require Import Propagate SchedulePlan SchedulePlace ScheduleProps SchedulerNew.
#[local] Open Scope nat_scope.

(** ** Committing a plan *)

Section commit.
Context `{JsonLib}.

Definition with_scheduled (extra : list VolumeSpec) (m : Machine) : Machine :=
  mk_Machine (m_info m) (m_volumes m) (m_scheduled_volumes m ++ extra).

Lemma with_scheduled_nil m : with_scheduled [] m = m.
Proof. unfold with_scheduled. rewrite app_nil_r. by destruct m. Qed.

Lemma add_scheduled_map id volumes machines :
  NoDup (machine_id <$> machines) →
  add_scheduled id volumes machines =
  (fun m => with_scheduled (if decide (machine_id m = id) then volumes else []) m) <$> machines.
Proof.
  induction machines as [|m machines IH]; intros Hnd; [done|].
  rewrite fmap_cons in Hnd. apply NoDup_cons in Hnd as [Hm Hnd]. cbn [add_scheduled].
  change (mi_id (m_info m)) with (machine_id m). case_bool_decide as E; rewrite fmap_cons.
  - rewrite decide_True by done. f_equal. rewrite <-(list_fmap_id machines) at 1.
    apply list_fmap_ext. intros i m' Hm'. rewrite decide_False, with_scheduled_nil; [done|].
    intros E'. apply Hm. rewrite E, <-E'. apply list_elem_of_fmap_2. by eapply list_elem_of_lookup_2.
  - rewrite decide_False, with_scheduled_nil, IH by done. done.
Qed.

(** The volumes a list of plan entries adds to a machine. *)
Definition extra_of (l : list (string * list VolumeSpec)) (id : string) : list VolumeSpec :=
  l ≫= fun entry => if decide (id = entry.1) then entry.2 else [].

Lemma add_all_scheduled l machines :
  NoDup (machine_id <$> machines) →
  foldl (fun ms entry => add_scheduled entry.1 entry.2 ms) machines l =
  (fun m => with_scheduled (extra_of l (machine_id m)) m) <$> machines.
Proof.
  revert machines. induction l as [|[id volumes] l IH]; intros machines Hnd; cbn [foldl fst snd].
  - rewrite <-(list_fmap_id machines) at 1. apply list_fmap_ext. intros i m _. by rewrite with_scheduled_nil.
  - rewrite add_scheduled_map by done. rewrite IH.
    + rewrite <-list_fmap_compose. apply list_fmap_ext. intros i m _. cbn.
      unfold with_scheduled. cbn. f_equal. rewrite <-app_assoc. do 2 f_equal.
    + rewrite <-list_fmap_compose. exact Hnd.
Qed.

Lemma extra_of_absent l id : id ∉ l.*1 → extra_of l id = [].
Proof.
  intros Hn. unfold extra_of. induction l as [|[i vs] l IH]; [done|].
  cbn in *. rewrite decide_False by set_solver. apply IH. set_solver.
Qed.

Lemma extra_of_nodup l id :
  NoDup l.*1 → ∀ volumes, (id, volumes) ∈ l → extra_of l id = volumes.
Proof.
  induction l as [|[id' vs] l IH]; intros Hnd volumes Hin; [by apply elem_of_nil in Hin|].
  rewrite fmap_cons in Hnd. apply NoDup_cons in Hnd as [Hid Hnd]. unfold extra_of. cbn.
  change (l ≫= _) with (extra_of l id).
  apply elem_of_cons in Hin as [Hin|Hin].
  - simplify_eq. rewrite decide_True, extra_of_absent by done. apply app_nil_r.
  - rewrite decide_False; [by apply IH|]. intros ->. apply Hid.
    apply (list_elem_of_fmap_2 fst) in Hin. exact Hin.
Qed.

(** Every machine gets what the plan has for it, and nothing else changes. *)
Lemma commit_machines plan state :
  NoDup (machine_id <$> cl_machines state) →
  cl_machines (commit plan state) =
  (fun m => with_scheduled (default [] (plan !! machine_id m)) m) <$> cl_machines state.
Proof.
  intros Hnd. unfold commit. cbn [cl_machines]. rewrite add_all_scheduled by done.
  apply list_fmap_ext. intros i m _. f_equal.
  destruct (plan !! machine_id m) as [volumes|] eqn:E; cbn.
  - apply extra_of_nodup; [apply NoDup_btree_keys|by apply elem_of_btree_iter].
  - apply extra_of_absent. change (machine_id m ∉ btree_keys plan).
    rewrite elem_of_btree_keys, E. by intros [].
Qed.
End commit.

(** ** The volumes of a service on its machine *)

Section available.
Context `{JsonLib, HashOrder, OciLib, UnicodeLib}.

Lemma normalise_kind vol : vs_kind (normalise_volume vol) = vs_kind vol.
Proof. cbn. apply with_defaults_kind. Qed.

Lemma normalise_driver vol :
  vs_kind vol = VOLUME_TYPE_VOLUME → canonical_driver vol →
  spec_driver (normalise_volume vol) = spec_driver vol.
Proof.
  intros Hk Hc. change (spec_driver (normalise_volume vol)) with (spec_driver (volume_with_defaults vol)).
  rewrite with_defaults_driver by done. unfold canonical_driver in Hc.
  destruct (spec_driver vol) as [d|]; [|done]. cbn. by rewrite driver_with_defaults_id by apply Hc.
Qed.

Lemma normalise_canonical vol :
  vs_kind vol = VOLUME_TYPE_VOLUME → canonical_driver vol → canonical_driver (normalise_volume vol).
Proof. intros Hk Hc. unfold canonical_driver. by rewrite normalise_driver. Qed.

(** The normalised volume is named after the Docker volume in both places. *)
Lemma docker_name_normalise vol :
  vs_kind vol = VOLUME_TYPE_VOLUME →
  docker_volume_name (normalise_volume vol) = docker_volume_name vol.
Proof.
  intros Hk. rewrite <-(docker_name_with_defaults vol). unfold normalise_volume, docker_volume_name.
  cbn [vs_kind vs_name vs_volume_options]. rewrite with_defaults_kind, bool_decide_false by naive_solver.
  destruct (vs_volume_options (volume_with_defaults vol)) as [o|]; [|done].
  by destruct (str_is_empty (vo_name o)).
Qed.

Section same_volume.
Context (vol vol' : VolumeSpec) (v : string).
Context (Hk : vs_kind vol = VOLUME_TYPE_VOLUME) (Hk' : vs_kind vol' = VOLUME_TYPE_VOLUME).
Context (Hn : docker_volume_name vol = v) (Hn' : docker_volume_name vol' = v).
Context (Hc : canonical_driver vol) (Hc' : canonical_driver vol').
Context (Heq : volume_equivalent (normalise_volume vol') (normalise_volume vol) = true).

Lemma same_driver : spec_driver vol = spec_driver vol'.
Proof.
  rewrite <-(normalise_driver vol), <-(normalise_driver vol') by done. symmetry.
  apply equivalent_drivers; rewrite ?normalise_kind; auto using normalise_canonical.
Qed.

Lemma defaults_same_driver u : vs_kind u = VOLUME_TYPE_VOLUME → canonical_driver u →
  spec_driver (volume_with_defaults u) = spec_driver u.
Proof. intros Hu Hcu. by apply (normalise_driver u). Qed.

(** An existing volume that serves one serves the other. *)
Lemma matches_same dv :
  dv_name dv = v → matches_docker_volume (normalise_volume vol') dv = true →
  matches_docker_volume vol dv = true.
Proof.
  intros Hdv. unfold matches_docker_volume. rewrite normalise_kind.
  rewrite (bool_decide_eq_false_2 (vs_kind vol ≠ _)), (bool_decide_eq_false_2 (vs_kind vol' ≠ _))
    by naive_solver.
  rewrite !docker_name_with_defaults, docker_name_normalise, Hn, Hn', Hdv by done.
  rewrite bool_decide_false by naive_solver.
  rewrite (defaults_same_driver (normalise_volume vol')), (defaults_same_driver vol)
    by (rewrite ?normalise_kind; auto using normalise_canonical).
  by rewrite normalise_driver, same_driver by done.
Qed.

(** A planned volume that serves one serves the other. *)
Lemma scheduled_same : scheduled_satisfies vol (normalise_volume vol') = true.
Proof.
  unfold scheduled_satisfies. rewrite docker_name_normalise, Hn, Hn', bool_decide_false by naive_solver.
  destruct (spec_driver vol) as [d|] eqn:Ed; [|done].
  rewrite (defaults_same_driver (normalise_volume vol')), normalise_driver, <-same_driver, Ed
    by (rewrite ?normalise_kind; auto using normalise_canonical).
  cbn. by apply bool_decide_eq_true.
Qed.
End same_volume.

(** A machine that holds the volume, or will, satisfies the constraint. *)
Lemma volume_available_ok m vol vol' v :
  vs_kind vol = VOLUME_TYPE_VOLUME → vs_kind vol' = VOLUME_TYPE_VOLUME →
  docker_volume_name vol = v → docker_volume_name vol' = v →
  canonical_driver vol → canonical_driver vol' →
  volume_equivalent (normalise_volume vol') (normalise_volume vol) = true →
  (∃ dv, dv ∈ m_volumes m ∧ dv_name dv = v ∧
     matches_docker_volume (normalise_volume vol') dv = true) ∨
  normalise_volume vol' ∈ m_scheduled_volumes m →
  volume_available m vol = true.
Proof.
  intros Hk Hk' Hn Hn' Hc Hc' Heq Hwhere. unfold volume_available.
  rewrite bool_decide_false by naive_solver.
  destruct (existsb _ (m_volumes m)) eqn:E; [done|]. apply existsb_exists.
  destruct Hwhere as [(dv & Hin & Hdv & Hm)|Hin].
  - apply not_true_iff_false in E. destruct E. apply existsb_exists. exists dv.
    rewrite <-list_elem_of_In. split; [done|]. apply andb_true_iff.
    rewrite bool_decide_eq_true. split; [congruence|]. by eapply matches_same.
  - exists (normalise_volume vol'). rewrite <-list_elem_of_In. split; [done|].
    by eapply scheduled_same.
Qed.
(** An eligible machine is one the placement allows. *)
Lemma eligible_placement spec m :
  forallb (fun c => evaluate c m) (constraints_from_spec spec) = true → placement_allows spec m.
Proof.
  intros He. apply without_mounts_constraints. unfold constraints_from_spec in *.
  rewrite forallb_app, andb_true_iff in He. destruct He as [He _].
  rewrite forallb_app, andb_true_iff. split; [exact He|]. done.
Qed.
End available.

(** ** What a plan promises a service *)

Section serve.
Context `{JsonLib, HashOrder, OciLib, UnicodeLib} (self : VolumeScheduler).

(** Machine [m] has volume [v], or the plan creates it there. *)
Definition volume_on (plan : gmap string (list VolumeSpec)) (m v : string) : Prop :=
  (∃ ms, existing_volume_machines self !! v = Some ms ∧ m ∈ ms) ∨
  (∃ spec, volume_specs self !! v = Some spec ∧ spec ∈ default [] (plan !! m)).

Lemma planned_elem a m v spec :
  volume_specs self !! v = Some spec → wants self a m v →
  spec ∈ planned_on self a m (btree_iter (volume_specs self)).
Proof.
  intros Hv Hw. unfold planned_on. apply list_elem_of_fmap. exists (v, spec). split; [done|].
  apply list_elem_of_filter. split; [done|]. by apply elem_of_btree_iter.
Qed.

Lemma volume_spec_of v services :
  sched_wf self → volume_services self !! v = Some services → ∃ spec, volume_specs self !! v = Some spec.
Proof. intros Hwf Hv. apply elem_of_dom. rewrite <-(wf_dom _ Hwf). by apply elem_of_dom_2 in Hv. Qed.

Lemma services_of_lookup v s :
  s ∈ services_of self v → ∃ services, volume_services self !! v = Some services ∧ s ∈ services.
Proof.
  unfold services_of. destruct (volume_services self !! v) as [services|]; cbn; [by eauto|].
  by intros ?%elem_of_nil.
Qed.

Lemma plan_serves plan a spec :
  sched_wf self → no_mixed self → valid_placement self a → realises self a plan →
  spec ∈ service_specs self →
  (ss_mode spec ≠ SERVICE_MODE_GLOBAL →
     a (ss_name spec) ∈ placement_ids self spec ∧
     ∀ v, ss_name spec ∈ services_of self v → volume_on plan (a (ss_name spec)) v) ∧
  (ss_mode spec = SERVICE_MODE_GLOBAL →
     ∀ m, m ∈ placement_ids self spec → ∀ v, ss_name spec ∈ services_of self v → volume_on plan m v).
Proof.
  intros Hwf Hmix (Hp & Hfit & Hconst) Hreal Hspec. split.
  - intros Hmode. split; [by apply Hp|]. intros v Hs.
    destruct (services_of_lookup v _ Hs) as (services & Hv & Hin).
    destruct (volume_spec_of _ _ Hwf Hv) as [vspec Hvs].
    assert (¬ global_volume self v) as Hng.
    { intros Hg. apply Hmode. by eapply global_volume_services. }
    destruct (existing_volume_machines self !! v) as [ms|] eqn:Hex.
    + left. exists ms. split; [done|]. eapply Hfit; [|done..]. by apply list_elem_of_fmap_2.
    + right. exists vspec. split; [done|]. rewrite Hreal. apply (planned_elem _ _ v); [done|].
      right. split; [done|]. apply (Hconst v services); [done..| |done].
      by apply first_service_in.
  - intros Hmode m Hm v Hs. destruct (services_of_lookup v _ Hs) as (services & Hv & Hin).
    destruct (volume_spec_of _ _ Hwf Hv) as [vspec Hvs].
    assert (global_volume self v) as Hg by (by eapply global_service_volumes).
    destruct (decide (m ∈ default ∅ (existing_volume_machines self !! v))) as [Hex|Hex].
    + left. destruct (existing_volume_machines self !! v) as [ms|]; [by eauto|set_solver].
    + right. exists vspec. split; [done|]. rewrite Hreal. apply (planned_elem _ _ v); [done|].
      left. split_and!; [done| |done]. unfold global_targets. apply elem_of_union_list.
      exists (placement_ids self spec). split; [|done].
      apply list_elem_of_fmap_2, list_elem_of_filter. done.
Qed.
End serve.

(** ** Eligible machines after scheduling *)

Section after.
Context `{JsonLib, HashOrder, OciLib, UnicodeLib}.
Context (state : ClusterState) (specs : list ServiceSpec) (self : VolumeScheduler).
Context (Hco : collected state specs self).
Context (Hids : NoDup (machine_id <$> cl_machines state)).
Context (Hcan : ∀ spec vol, spec ∈ specs → vol ∈ mounted_volume_list spec → canonical_driver vol).
Context (plan : gmap string (list VolumeSpec)).

Lemma machine_by_id m m' :
  m ∈ cl_machines state → m' ∈ cl_machines state → machine_id m = machine_id m' → m = m'.
Proof.
  intros [i Hi]%list_elem_of_lookup [j Hj]%list_elem_of_lookup E.
  assert (i = j) as ->; [|by simplify_eq].
  eapply (NoDup_lookup _ i j (machine_id m)); [exact Hids|..].
  - by rewrite list_lookup_fmap, Hi.
  - by rewrite list_lookup_fmap, Hj, E.
Qed.

Lemma volume_on_available spec vol m :
  spec ∈ specs → vol ∈ mounted_volume_list spec → m ∈ cl_machines state →
  volume_on self plan (machine_id m) (docker_volume_name vol) →
  volume_available (with_scheduled (default [] (plan !! machine_id m)) m) vol = true.
Proof.
  intros Hspec Hvol Hm Hon. set (v := docker_volume_name vol) in *.
  destruct (si_seen _ _ (co_services _ _ _ Hco) spec vol v Hspec (conj Hvol eq_refl))
    as (seen & Hseen & Heq). cbn in Hseen.
  destruct (si_source _ _ (co_services _ _ _ Hco) v seen Hseen)
    as (spec' & vol' & Hspec' & [Hvol' Hn'] & ->).
  eapply (volume_available_ok _ vol vol' v); eauto using mounted_kind.
  destruct Hon as [(ms & Hms & Hin)|(vs & Hvs & Hin)].
  - left. pose proof (co_existing _ _ _ Hco) as Hex.
    assert (machine_id m ∈ default ∅ (existing_volume_machines self !! v)) as Hel by (by rewrite Hms).
    apply (ei_elem _ _ _ Hex) in Hel as (_ & info & dv & Hdv & Hname & Hid).
    pose proof (ei_match _ _ _ Hex _ _ (normalise_volume vol') Hdv ltac:(by rewrite Hname)) as Hmatch.
    unfold volumes_on in Hdv. apply list_elem_of_bind in Hdv as (m' & Hdv & Hm').
    apply list_elem_of_fmap in Hdv as (dv' & [= -> ->] & Hdv').
    assert (m = m') as <- by (by apply machine_by_id). by exists dv'.
  - right. cbn. rewrite elem_of_app. right. rewrite Hvs in Hseen. by simplify_eq.
Qed.

(** A machine the placement allows and that has the volumes is eligible. *)
Lemma machine_eligible spec m :
  spec ∈ specs → m ∈ cl_machines state → placement_allows spec m →
  (∀ vol, vol ∈ mounted_volume_list spec → volume_on self plan (machine_id m) (docker_volume_name vol)) →
  forallb (fun c => evaluate c (with_scheduled (default [] (plan !! machine_id m)) m))
    (constraints_from_spec spec) = true.
Proof.
  intros Hspec Hm Hpl Hvols. unfold constraints_from_spec. rewrite forallb_app, andb_true_iff. split.
  - unfold placement_allows in Hpl. unfold slice_is_empty.
    destruct (slice_values (pl_machines (ss_placement spec))) as [|n names] eqn:En; [done|].
    cbn [negb forallb evaluate]. rewrite andb_true_r. apply existsb_exists.
    destruct Hpl as [|[Hin|Hin]]; [done|..]; apply list_elem_of_In in Hin;
      (eexists; split; [exact Hin|]); rewrite orb_true_iff, !bool_decide_eq_true; auto.
  - destruct (mounted_volume_list spec) as [|vol0 vols] eqn:Em; [done|]. rewrite <-Em in *.
    cbn [forallb evaluate]. rewrite andb_true_r. apply forallb_forall.
    intros vol Hvol%list_elem_of_In. by eapply volume_on_available; [..|apply Hvols].
Qed.

Lemma services_of_mounted spec vol :
  spec ∈ specs → vol ∈ mounted_volume_list spec →
  ss_name spec ∈ services_of self (docker_volume_name vol).
Proof.
  intros Hspec Hvol. apply (si_services _ _ (co_services _ _ _ Hco)). by exists spec, vol.
Qed.

Lemma placement_ids_machine spec x :
  x ∈ placement_ids self spec ↔
  ∃ m, m ∈ cl_machines state ∧ placement_allows spec m ∧ machine_id m = x.
Proof.
  unfold placement_ids. rewrite (co_state _ _ _ Hco), elem_of_list_to_set, list_elem_of_fmap.
  split.
  - intros (m & -> & [? ?]%list_elem_of_filter). eauto.
  - intros (m & ? & ? & <-). exists m. rewrite list_elem_of_filter. auto.
Qed.

(** The machines as the plan leaves them, and those eligible for a service. *)
Definition planned_machine (m : Machine) : Machine :=
  with_scheduled (default [] (plan !! machine_id m)) m.
Definition eligible_for (spec : ServiceSpec) (m : Machine) : Prop :=
  forallb (fun c => evaluate c m) (constraints_from_spec spec) = true.
#[export] Instance eligible_for_dec spec m : Decision (eligible_for spec m).
Proof. unfold eligible_for. apply _. Defined.

Lemma eligible_after spec :
  let available := filter (eligible_for spec) (planned_machine <$> cl_machines state) in
  eligible_machines (commit plan state) spec =
    match available with [] => Err NoEligibleMachines | _ => Ok available end.
Proof. cbn zeta. unfold eligible_machines. by rewrite commit_machines. Qed.

Lemma eligible_after_Ok spec m :
  m ∈ cl_machines state → eligible_for spec (planned_machine m) →
  eligible_machines (commit plan state) spec =
    Ok (filter (eligible_for spec) (planned_machine <$> cl_machines state)).
Proof.
  intros Hm He. rewrite eligible_after.
  destruct (filter _ _) as [|x l] eqn:E; [|done]. exfalso.
  assert (planned_machine m ∈ filter (eligible_for spec) (planned_machine <$> cl_machines state)) as Hin
    by (apply list_elem_of_filter; split; [done|by apply list_elem_of_fmap_2]).
  rewrite E in Hin. by apply elem_of_nil in Hin.
Qed.

(** When eligibility is the placement alone, no machine is lost. *)
Lemma eligible_after_ids spec (l : list Machine) :
  (∀ m, m ∈ l → (eligible_for spec (planned_machine m) ↔ placement_allows spec m)) →
  machine_id <$> filter (eligible_for spec) (planned_machine <$> l) =
  machine_id <$> filter (placement_allows spec) l.
Proof.
  clear Hco Hids Hcan self specs state. induction l as [|m l IH]; intros Hiff; [done|]. rewrite fmap_cons, !filter_cons.
  pose proof (Hiff m ltac:(set_solver)) as Hm.
  repeat case_decide; try tauto; rewrite ?fmap_cons, IH by set_solver; done.
Qed.
End after.

(** ** Properties *)

Section properties.
Context `{JsonLib, HashOrder, OciLib, UnicodeLib}.

(** C36: Constraint propagation computes the greatest solution: when every service
    starts with some machine, it ends with families of machines that are smaller,
    non-empty and equal along every volume still to be placed, and that allow
    exactly the co-located assignments the given ones allow; it fails only when
    there is no such assignment at all, naming a volume that is still to be placed.
    The loop terminates and never panics. *)
Theorem propagate_greatest (self : VolumeScheduler) (skipped : gset string) (e : eligible_map) :
  covers self e → all_nonempty e →
  match propagate_constraints self e skipped with
  | Ok e' => e' ⊑ₑ e ∧ all_nonempty e' ∧ uniform self skipped e' ∧
      ∀ a, colocated self skipped a → (feasible e a ↔ feasible e' a)
  | Err err => (∃ services v, err = SharedServicePlacement services v ∧
                  volume_services self !! v = Some services ∧ v ∉ skipped) ∧
      ¬ ∃ a, feasible e a ∧ colocated self skipped a
  | Panic _ => False
  end.
Proof.
  intros Hcov Hne. pose proof (propagate_constraints_spec self skipped e Hcov) as Hp.
  destruct (propagate_constraints self e skipped) as [e'|err|]; [| |done].
  - destruct Hp as (Hn & Hne' & Hu & Hg). split_and!; [done|by apply Hne'|done|].
    intros a Ha. split; [by auto|by apply feasible_narrows].
  - destruct Hp as [Herr Hno]. split; [done|]. intros (a & Ha & Hc). by apply (Hno a).
Qed.

(** C17. The constructor collects exactly the named volumes the services mount:
    it keeps the services with such volumes, records for each volume the services
    that mount it and the machines that have it, and its result is well-formed; it
    refuses only an invalid service, a duplicate service name, two definitions of
    one volume that disagree, or a volume that exists with other options. *)
Theorem scheduler_new_collects (state : ClusterState) (specs : list ServiceSpec) :
  match scheduler_new state specs with
  | Ok self => collected state specs self ∧ sched_wf self
  | Err err => new_error_ok state specs err
  | Panic _ => False
  end.
Proof.
  pose proof (scheduler_new_spec state specs) as Hn.
  destruct (scheduler_new state specs) as [self|err|]; [|done..].
  split; [done|]. by eapply collected_wf.
Qed.

(** C2: A plan is the plan of a valid placement: when scheduling succeeds there is
    an assignment of one machine to each service, allowed by its placement, holding
    its existing volumes and shared by services with a common missing volume, such
    that each machine is planned exactly the volumes the assignment asks for there
    (missing volumes where their services are placed, volumes of global services
    wherever they may run and are missing), in the order of their names. *)
Theorem schedule_refines_placement (self : VolumeScheduler) plan state' :
  sched_wf self → schedule self = Ok (plan, state') →
  state' = commit plan (sched_state self) ∧
  ∃ a, valid_placement self a ∧
    ∀ m, default [] (plan !! m) = planned_on self a m (btree_iter (volume_specs self)).
Proof.
  intros Hwf Hs. pose proof (schedule_spec self Hwf) as Hspec. rewrite Hs in Hspec.
  destruct Hspec as (_ & -> & a & Ha & Hr). eauto.
Qed.

(** C1: Scheduling is complete: for a scheduler as [VolumeScheduler::new] builds
    it, it succeeds if and only if no volume, missing or existing, is shared between
    global and replicated services and some valid placement exists.  Every error it
    returns names a true obstacle, the errors marked as bugs are never returned, and
    it never panics. *)
Theorem schedule_complete (self : VolumeScheduler) :
  sched_wf self →
  ((∃ r, schedule self = Ok r) ↔ no_mixed self ∧ ∃ a, valid_placement self a) ∧
  (∀ err, schedule self = Err err → schedule_error_ok self err) ∧
  ∀ msg, schedule self ≠ Panic msg.
Proof.
  intros Hwf. pose proof (schedule_spec self Hwf) as Hspec. split_and!.
  - split.
    + intros [[plan state'] Hs]. rewrite Hs in Hspec. destruct Hspec as (? & _ & a & ? & _). eauto.
    + intros [Hmix Ha]. destruct (schedule self) as [r|err|]; [by eauto| |done].
      by destruct (schedule_error_no_placement _ _ Hspec Hmix).
  - intros err Hs. by rewrite Hs in Hspec.
  - intros msg. by eapply result_spec_no_panic.
Qed.

(** What a plan promises: after scheduling, every replicated service has a
    machine that its placement allows and that has, or is planned to get, every
    volume it mounts; a global service has all its volumes on every machine its
    placement allows. *)
Theorem schedule_serves_services (self : VolumeScheduler) plan state' spec :
  sched_wf self → schedule self = Ok (plan, state') → spec ∈ service_specs self →
  (ss_mode spec ≠ SERVICE_MODE_GLOBAL →
     ∃ m, m ∈ placement_ids self spec ∧
       ∀ v, ss_name spec ∈ services_of self v → volume_on self plan m v) ∧
  (ss_mode spec = SERVICE_MODE_GLOBAL →
     ∀ m, m ∈ placement_ids self spec →
       ∀ v, ss_name spec ∈ services_of self v → volume_on self plan m v).
Proof.
  intros Hwf Hs Hspec. pose proof (schedule_spec self Hwf) as Hr. rewrite Hs in Hr.
  destruct Hr as (Hmix & _ & a & Ha & Hreal).
  destruct (plan_serves _ _ _ _ Hwf Hmix Ha Hreal Hspec) as [Hrep Hglob].
  split; [|done]. intros Hm. eexists. by apply Hrep.
Qed.

(** C3: Scheduling volumes makes services deployable: for services of which
    the drivers of mounted volumes are named and carry an options object, on a cluster
    of machines with distinct ids, the state the scheduler leaves has
    eligible machines for every service that mounts volumes, all of them allowed by
    its placement, and for a global service they are all the machines its placement
    allows.  (A volume whose driver has no name is scheduled and then found on no
    machine: services with one are left out.) *)
Theorem scheduled_services_deployable (state : ClusterState) (specs : list ServiceSpec)
    (self : VolumeScheduler) plan state' spec :
  scheduler_new state specs = Ok self → schedule self = Ok (plan, state') →
  NoDup (machine_id <$> cl_machines state) →
  (∀ spec vol, spec ∈ specs → vol ∈ mounted_volume_list spec → canonical_driver vol) →
  spec ∈ specs → has_volumes spec →
  ∃ machines, eligible_machines state' spec = Ok machines ∧
    (∀ m, m ∈ machines → placement_allows spec m) ∧
    (ss_mode spec = SERVICE_MODE_GLOBAL →
       machine_id <$> machines = machine_id <$> filter (placement_allows spec) (cl_machines state)).
Proof.
  intros Hnew Hs Hids Hcan Hin Hhas.
  pose proof (result_spec_ok _ _ _ _ (scheduler_new_spec state specs) Hnew) as Hco.
  pose proof (collected_wf _ _ _ Hco) as Hwf.
  pose proof (schedule_spec self Hwf) as Hr. rewrite Hs in Hr.
  destruct Hr as (Hmix & -> & a & Ha & Hreal).
  assert (spec ∈ service_specs self) as Hspec
    by (rewrite (co_specs _ _ _ Hco), list_elem_of_filter; done).
  destruct (plan_serves _ _ _ _ Hwf Hmix Ha Hreal Hspec) as [Hrep Hglob].
  rewrite (co_state _ _ _ Hco).
  assert (∀ m, m ∈ cl_machines state → placement_allows spec m →
    (∀ v, ss_name spec ∈ services_of self v → volume_on self plan (machine_id m) v) →
    eligible_for spec (planned_machine plan m)) as Hok.
  { intros m Hm Hpl Hvols. eapply machine_eligible; [done..|]. intros vol Hvol.
    by eapply Hvols, services_of_mounted. }
  pose proof (placement_ids_machine _ _ _ Hco spec) as Hpid.
  assert (∃ m, m ∈ cl_machines state ∧ eligible_for spec (planned_machine plan m)) as (m0 & Hm0 & Hok0).
  { pose proof (proj1 Ha spec Hspec) as Hx. destruct (proj1 (Hpid _) Hx) as (m & Hm & Hpl & Hid).
    exists m. split; [done|]. apply Hok; [done..|].
    destruct (decide (ss_mode spec = SERVICE_MODE_GLOBAL)) as [Hg|Hg]; rewrite Hid; [|by apply Hrep].
    by apply Hglob. }
  eexists. split; [by eapply eligible_after_Ok|]. split.
  - intros m [Hm _]%list_elem_of_filter. by apply eligible_placement.
  - intros Hg. apply eligible_after_ids. intros m Hm. split.
    + intros He. by apply eligible_placement in He.
    + intros Hpl. apply Hok; [done..|]. apply Hglob; [done|]. apply Hpid. eauto.
Qed.
End properties.

(** ** Witnesses: two machines, a service pinned to the second that shares a
    volume with another service, and a global service *)

Definition demo_json : JsonLib := {| JsonValue := unit |}.
Definition demo_oci : OciLib := {| reference_try_from _ := inr (None, None) |}.
Definition demo_unicode : UnicodeLib := {| char_escape_debug := of_bytes |}.
#[local] Existing Instances demo_json demo_oci demo_unicode sorted_hash_order.

Definition demo_machine (id name : string) : Machine :=
  mk_Machine (mk_MachineInfo id name None None "" "" "" "" "" "") [] [].
Definition demo_state : ClusterState :=
  mk_ClusterState [demo_machine "m1" "one"; demo_machine "m2" "two"].

Definition demo_volume (name driver : string) : VolumeSpec :=
  mk_VolumeSpec name VOLUME_TYPE_VOLUME None None
    (Some (mk_VolumeOptions (Some (mk_Driver driver (map_from_btree ∅))) map_default "" false "")).

Definition demo_service (name mode : string) (machines : list string) (volume : VolumeSpec) : ServiceSpec :=
  let c := ContainerSpec_default in
  mk_ServiceSpec None slice_default
    (mk_ContainerSpec (ct_cap_add c) (ct_cap_drop c) (ct_command c) (ct_entrypoint c) (ct_env c)
       None "image" None None "" false false false "" (ct_resources c) None (ct_sysctls c) ""
       (slice_from_vec [mk_VolumeMount (vs_name volume) "/data" false]) slice_default slice_default)
    mode name (mk_Placement (slice_from_vec machines)) slice_default None 0
    (mk_UpdateConfig "" None) (slice_from_vec [volume]).

Definition demo_specs : list ServiceSpec :=
  [demo_service "db" "" [] (demo_volume "data" "local");
   demo_service "web" "replicated" ["two"] (demo_volume "data" "local");
   demo_service "agent" "global" [] (demo_volume "cache" "local")].

Definition demo_self : VolumeScheduler :=
  match scheduler_new demo_state demo_specs with
  | Ok self => self
  | _ => mk_VolumeScheduler demo_state [] ∅ ∅ ∅
  end.
Definition demo_result : gmap string (list VolumeSpec) * ClusterState :=
  match schedule demo_self with Ok r => r | _ => (∅, demo_state) end.

Lemma demo_new : scheduler_new demo_state demo_specs = Ok demo_self.
Proof. vm_compute. reflexivity. Qed.
Lemma demo_schedule : schedule demo_self = Ok demo_result.
Proof. vm_compute. reflexivity. Qed.
Lemma demo_wf : sched_wf demo_self.
Proof. eapply collected_wf, result_spec_ok; [apply scheduler_new_spec|apply demo_new]. Qed.

(** The shared volume goes to the second machine, the global one to both. *)
Lemma schedule_refines_placement_witness :
  map vs_name (default [] (demo_result.1 !! "m1")) = ["cache"] ∧
  map vs_name (default [] (demo_result.1 !! "m2")) = ["cache"; "data"] ∧
  ∃ a, valid_placement demo_self a ∧
    ∀ m, default [] (demo_result.1 !! m) =
         planned_on demo_self a m (btree_iter (volume_specs demo_self)).
Proof.
  split; [vm_compute; reflexivity|]. split; [vm_compute; reflexivity|].
  refine (proj2 (schedule_refines_placement demo_self demo_result.1 demo_result.2 demo_wf _)).
  rewrite demo_schedule. by destruct demo_result.
Defined.

Lemma schedule_complete_witness : no_mixed demo_self ∧ ∃ a, valid_placement demo_self a.
Proof.
  apply (proj1 (proj1 (schedule_complete demo_self demo_wf))). exists demo_result.
  apply demo_schedule.
Defined.

Lemma schedule_serves_services_witness :
  ∃ m, m ∈ placement_ids demo_self (demo_service "web" "replicated" ["two"] (demo_volume "data" "local")) ∧
    ∀ v, "web" ∈ services_of demo_self v → volume_on demo_self demo_result.1 m v.
Proof.
  refine (proj1 (schedule_serves_services demo_self demo_result.1 demo_result.2
    (demo_service "web" "replicated" ["two"] (demo_volume "data" "local")) demo_wf _ _) _).
  - rewrite demo_schedule. by destruct demo_result.
  - vm_compute. apply list_elem_of_further, list_elem_of_here.
  - done.
Defined.

Lemma scheduled_services_deployable_witness :
  ∃ machines, eligible_machines demo_result.2
      (demo_service "agent" "global" [] (demo_volume "cache" "local")) = Ok machines ∧
    machine_id <$> machines = ["m1"; "m2"].
Proof.
  destruct (scheduled_services_deployable demo_state demo_specs demo_self demo_result.1 demo_result.2
    (demo_service "agent" "global" [] (demo_volume "cache" "local"))) as (machines & He & _ & Hg).
  - apply demo_new.
  - rewrite demo_schedule. by destruct demo_result.
  - apply (bool_decide_unpack _). vm_compute. exact I.
  - intros spec vol Hspec Hvol. unfold demo_specs in Hspec.
    apply list_elem_of_In in Hspec. apply list_elem_of_In in Hvol.
    destruct Hspec as [<-|[<-|[<-|[]]]]; destruct Hvol as [<-|[]]; split; done.
  - apply list_elem_of_further, list_elem_of_further, list_elem_of_here.
  - discriminate.
  - exists machines. split; [exact He|]. rewrite Hg; reflexivity.
Defined.

Definition demo_eligible : eligible_map :=
  {["db" := {["m1"; "m2"]}; "web" := {["m2"]}; "agent" := {["m1"; "m2"]}]}.

Definition demo_narrowed : eligible_map :=
  {["db" := {["m2"]}; "web" := {["m2"]}; "agent" := {["m1"; "m2"]}]}.

Lemma demo_propagate :
  propagate_constraints demo_self demo_eligible {["cache"]} = Ok demo_narrowed.
Proof. vm_compute. reflexivity. Qed.
Lemma demo_covers : covers demo_self demo_eligible.
Proof. apply covers_names; [apply demo_wf|]. vm_compute. reflexivity. Qed.

Lemma propagate_greatest_witness :
  demo_narrowed ⊑ₑ demo_eligible ∧
  ∀ a, colocated demo_self {["cache"]} a → (feasible demo_eligible a ↔ feasible demo_narrowed a).
Proof.
  assert (all_nonempty demo_eligible) as Hne.
  { apply (bool_decide_unpack _). vm_compute. exact I. }
  pose proof (propagate_greatest demo_self {["cache"]} demo_eligible demo_covers Hne) as Hp.
  rewrite demo_propagate in Hp. split; apply Hp.
Defined.

(** C39. Where the promise of C18 stops: a service whose only volume names no driver is
    given its volume on a machine, and then no machine is eligible for it, because
    the volumes constraint compares the driver as written with the planned volume's
    driver after its name was defaulted. *)
Theorem unnamed_driver_not_deployable :
  let spec := demo_service "db" "" [] (demo_volume "data" "") in
  match scheduler_new demo_state [spec] with
  | Ok self =>
      match schedule self with
      | Ok (plan, state') =>
          map vs_name (default [] (plan !! "m1")) = ["data"] ∧
          eligible_machines state' spec = Err NoEligibleMachines
      | _ => False
      end
  | _ => False
  end.
Proof. vm_compute. by split. Qed.
