(* ===== verification/Time.v ===== *)
(** * Dates and times: the time functions of [container.rs] of ployz-pkg-api and
    the timestamp of [service.rs] of ployz-internal-machine-cluster

    A [SystemTime] is its distance from the Unix epoch in nanoseconds.  Rust's
    [/] and [%] truncate, so they are [Z.quot] and [Z.rem]; [div_euclid] by a
    positive number is [Z.div]. *)

From Stdlib Require Import SpecFloat.
From S2P Require Import Prelude RustStr NetAddr.

(** ** The calendar *)

(** [days_in_month]. *)
Definition is_leap (year : Z) : bool :=
  (Z.rem year 4 =? 0) && (negb (Z.rem year 100 =? 0) || (Z.rem year 400 =? 0)).
Definition days_in_month (year month : Z) : Z :=
  if (month =? 1) || (month =? 3) || (month =? 5) || (month =? 7) || (month =? 8)
     || (month =? 10) || (month =? 12) then 31
  else if (month =? 4) || (month =? 6) || (month =? 9) || (month =? 11) then 30
  else if (month =? 2) && is_leap year then 29
  else if month =? 2 then 28 else 0.

(** [days_from_civil]. *)
Definition days_from_civil (year month day : Z) : Z :=
  let adjusted_year := year - (if month <=? 2 then 1 else 0) in
  let era := Z.quot (if 0 <=? adjusted_year then adjusted_year else adjusted_year - 399) 400 in
  let year_of_era := adjusted_year - era * 400 in
  let shifted_month := month + (if 2 <? month then -3 else 9) in
  let day_of_year := Z.quot (153 * shifted_month + 2) 5 + day - 1 in
  let day_of_era := year_of_era * 365 + Z.quot year_of_era 4 - Z.quot year_of_era 100
                    + day_of_year in
  era * 146097 + day_of_era - 719468.

(** [civil_date]; the conversions of the month and the day to [u64] cannot fail. *)
Definition civil_date (days_since_epoch : Z) : Z * Z * Z :=
  let days := days_since_epoch + 719468 in
  let era := Z.quot (if 0 <=? days then days else days - 146096) 146097 in
  let day_of_era := days - era * 146097 in
  let year_of_era := Z.quot (day_of_era - Z.quot day_of_era 1460 + Z.quot day_of_era 36524
                             - Z.quot day_of_era 146096) 365 in
  let year := year_of_era + era * 400 in
  let day_of_year := day_of_era - (365 * year_of_era + Z.quot year_of_era 4
                                   - Z.quot year_of_era 100) in
  let month_prime := Z.quot (5 * day_of_year + 2) 153 in
  let day := day_of_year - Z.quot (153 * month_prime + 2) 5 + 1 in
  let month := month_prime + (if month_prime <? 10 then 3 else -9) in
  (year + (if month <=? 2 then 1 else 0), month, day).

(** ** [Rfc3339Time] *)

Record Rfc3339Time := mk_Rfc3339Time { unix_seconds : Z; nanos : Z; year : Z }.

Definition is_go_zero (self : Rfc3339Time) : bool :=
  (year self =? 1) && (unix_seconds self =? -62135596800) && (nanos self =? 0).
Definition seconds_since (self earlier : Rfc3339Time) : Z :=
  unix_seconds self - unix_seconds earlier.

(** [Rfc3339Time::now] at a time not before the epoch. *)
Definition rfc3339_now (now : Z) : Rfc3339Time :=
  mk_Rfc3339Time (if now <? 0 then 0 else now / 1000000000)
    (if now <? 0 then 0 else now mod 1000000000) 1970.

(** [str::is_char_boundary], [str::get(a..b)] and the indexing [&s[a..b]]. *)
Definition nth_byte (n : nat) (s : string) : option ascii := bytes s !! n.
Definition is_char_boundary (n : nat) (s : string) : bool :=
  if (n =? 0)%nat then true
  else match nth_byte n s with
       | None => (n =? str_len s)%nat
       | Some c => negb (continuation c)
       end.
Definition str_get (a b : nat) (s : string) : option string :=
  if (a <=? b)%nat && is_char_boundary a s && is_char_boundary b s
  then Some (str_drop a (str_take b s)) else None.
Definition str_slice {E} (a b : nat) (s : string) : result E string :=
  expect "byte index is not a char boundary" (str_get a b s).

(** One numeric field of [parse_rfc3339]. *)
Definition time_field (signed : bool) (w : Z) (name : string) (a b : nat) (value : string) :
    result string Z :=
  field ← ok_or ("invalid " +:+ name) (str_get a b value);
  map_err (fun _ => "invalid " +:+ name)
    (if signed then parse_i w field else parse_u w field).

Definition byte_is (n : nat) (c : ascii) (s : string) : bool :=
  bool_decide (nth_byte n s = Some c).

(** The offset of [parse_rfc3339] from its zone text. *)
Definition parse_zone (zone : string) : result string Z :=
  if bool_decide (zone = "Z") then Ok 0
  else
    sign ← match zone with
           | String "+" _ => Ok 1
           | String "-" _ => Ok (-1)
           | _ => Err "invalid timezone"
           end;
    if negb (str_len zone =? 6)%nat || negb (byte_is 3 ":" zone) then Err "invalid timezone"
    else
      hours ← (field ← str_slice 1 3 zone; map_err (fun _ => "invalid timezone") (parse_i 64 field));
      minutes ← (field ← str_slice 4 6 zone; map_err (fun _ => "invalid timezone") (parse_i 64 field));
      if (24 <? hours) || (59 <? minutes) then Err "invalid timezone"
      else Ok (sign * (hours * 3600 + minutes * 60)).

Definition is_zone_start (c : ascii) : bool :=
  ascii_eqb c "Z" || ascii_eqb c "+" || ascii_eqb c "-".

(** The fraction and the zone of the text after the seconds. *)
Definition split_fraction (tail : string) : result string (string * string) :=
  match strip_prefix "." tail with
  | Some rest =>
      end_ ← ok_or "missing timezone" (str_find_by is_zone_start rest);
      Ok (str_take end_ rest, str_drop end_ rest)
  | None => Ok ("", tail)
  end.

Definition in_range (lo x hi : Z) : bool := (lo <=? x) && (x <=? hi).

(** [parse_rfc3339]. *)
Definition parse_rfc3339 (value : string) : result string Rfc3339Time :=
  if (str_len value <? 20)%nat then Err "cannot parse as RFC3339Nano"
  else
    year ← time_field true 32 "year" 0 4 value;
    month ← time_field false 32 "month" 5 7 value;
    day ← time_field false 32 "day" 8 10 value;
    hour ← time_field true 64 "hour" 11 13 value;
    minute ← time_field true 64 "minute" 14 16 value;
    second ← time_field true 64 "second" 17 19 value;
    if negb (byte_is 4 "-" value) || negb (byte_is 7 "-" value) || negb (byte_is 10 "T" value)
       || negb (byte_is 13 ":" value) || negb (byte_is 16 ":" value)
    then Err "cannot parse as RFC3339Nano"
    else if negb (in_range 1 month 12) || (day =? 0) || (days_in_month year month <? day)
            || negb (in_range 0 hour 23) || negb (in_range 0 minute 59)
            || negb (in_range 0 second 59)
    then Err "cannot parse as RFC3339Nano"
    else
      tail ← str_slice 19 (str_len value) value;
      '(fraction, zone) ← split_fraction tail;
      if (9 <? str_len fraction)%nat || (starts_with "." tail && str_is_empty fraction)
         || negb (forallb is_ascii_digit (bytes fraction))
      then Err "invalid fractional second"
      else
        nanos ← (if str_is_empty fraction then Ok 0
                 else n ← map_err (fun _ => "invalid fractional second") (parse_u 32 fraction);
                      Ok (n * 10 ^ (9 - Z.of_nat (str_len fraction))));
        offset ← parse_zone zone;
        let days := days_from_civil year month day in
        Ok (mk_Rfc3339Time (days * 86400 + hour * 3600 + minute * 60 + second - offset)
              nanos year).

(** ** Printing *)

(** [{n:0width}] of a number: the sign, then zeros, then the digits. *)
Fixpoint zeros (n : nat) : string := match n with O => "" | S n => String "0" (zeros n) end.
Definition pad (width : nat) (n : Z) : string :=
  let digits := dec (Z.abs n) in
  if n <? 0 then "-" +:+ zeros (width - 1 - str_len digits) +:+ digits
  else zeros (width - str_len digits) +:+ digits.

(** [rfc3339_utc]. *)
Definition rfc3339_utc (time : Z) : string :=
  let seconds := if 0 <=? time then time / 1000000000
                 else - ((- time) / 1000000000)
                      - (if (- time) mod 1000000000 =? 0 then 0 else 1) in
  let days := seconds / 86400 in
  let day_seconds := seconds mod 86400 in
  let '(year, month, day) := civil_date days in
  let hour := day_seconds / 3600 in
  let minute := day_seconds mod 3600 / 60 in
  let second := day_seconds mod 60 in
  pad 4 year +:+ "-" +:+ pad 2 month +:+ "-" +:+ pad 2 day +:+ "T" +:+
  pad 2 hour +:+ ":" +:+ pad 2 minute +:+ ":" +:+ pad 2 second +:+ "Z".

(** ** [human_duration]

    [seconds as f64 / 3600.0 + 0.5] in IEEE double precision, truncated. *)
Definition f64_of_Z (z : Z) : spec_float := binary_normalize 53 1024 z 0 false.
Definition f64_to_i64 (f : spec_float) : Z :=
  match f with
  | S754_finite s m e =>
      let magnitude := if 0 <=? e then Z.pos m * 2 ^ e else Z.pos m / 2 ^ (- e) in
      let v := if s then - magnitude else magnitude in
      Z.max (i_min 64) (Z.min (i_max 64) v)
  | S754_infinity s => if s then i_min 64 else i_max 64
  | _ => 0
  end.
Definition rounded_hours (seconds : Z) : Z :=
  f64_to_i64 (SFadd 53 1024 (SFdiv 53 1024 (f64_of_Z seconds) (f64_of_Z 3600))
                (binary_normalize 53 1024 1 (-1) false)).

Definition human_duration (seconds : Z) : string :=
  if seconds <? 1 then "Less than a second"
  else if seconds =? 1 then "1 second"
  else if seconds <? 60 then dec seconds +:+ " seconds"
  else if Z.quot seconds 60 =? 1 then "About a minute"
  else if Z.quot seconds 60 <? 60 then dec (Z.quot seconds 60) +:+ " minutes"
  else
    let hours := rounded_hours seconds in
    if hours =? 1 then "About an hour"
    else if hours <? 48 then dec hours +:+ " hours"
    else if hours <? 24 * 7 * 2 then dec (Z.quot hours 24) +:+ " days"
    else if hours <? 24 * 30 * 2 then dec (Z.quot (Z.quot hours 24) 7) +:+ " weeks"
    else if hours <? 24 * 365 * 2 then dec (Z.quot (Z.quot hours 24) 30) +:+ " months"
    else dec (Z.quot (Z.quot (Z.quot seconds 3600) 24) 365) +:+ " years".

(** ** [parse_go_duration] *)

Definition checked_i128 (z : Z) : option Z :=
  if in_range (i_min 128) z (i_max 128) then Some z else None.

(** The two spellings of the micro sign in UTF-8. *)
Definition micro_sign : string := of_bytes [Ascii.ascii_of_nat 194; Ascii.ascii_of_nat 181].
Definition greek_mu : string := of_bytes [Ascii.ascii_of_nat 206; Ascii.ascii_of_nat 188].

Definition duration_unit (rest : string) : option (Z * nat) :=
  if starts_with "ns" rest then Some (1, 2%nat)
  else if starts_with "us" rest then Some (1000, 2%nat)
  else if starts_with (micro_sign +:+ "s") rest then Some (1000, 3%nat)
  else if starts_with (greek_mu +:+ "s") rest then Some (1000, 3%nat)
  else if starts_with "ms" rest then Some (1000000, 2%nat)
  else if starts_with "s" rest then Some (1000000000, 1%nat)
  else if starts_with "m" rest then Some (60000000000, 1%nat)
  else if starts_with "h" rest then Some (3600000000000, 1%nat)
  else None.

Fixpoint add_fraction (digits : list ascii) (decimal_place total : Z) : option Z :=
  match digits with
  | [] => Some total
  | d :: digits =>
      let decimal_place := Z.quot decimal_place 10 in
      if decimal_place =? 0 then Some total
      else part ← checked_i128 ((byte_val d - 48) * decimal_place);
           total ← checked_i128 (total + part);
           add_fraction digits decimal_place total
  end.

Definition is_number_char (c : ascii) : bool := is_ascii_digit c || ascii_eqb c ".".

(** One number with its unit: the new total and the rest. *)
Definition duration_step (rest : string) (total : Z) : option (Z * string) :=
  let number_end := default (str_len rest) (str_find_by (fun c => negb (is_number_char c)) rest) in
  if (number_end =? 0)%nat then None
  else
    let number := str_take number_end rest in
    let '(whole, fraction) := default (number, "") (split_once "." number) in
    if (1 <? str_count "." number)%nat || (str_is_empty whole && str_is_empty fraction) then None
    else
      whole ← (if str_is_empty whole then Some 0
               else match parse_i 128 whole with Ok v => Some v | _ => None end);
      if negb (forallb is_ascii_digit (bytes fraction)) then None
      else
        let rest := str_drop number_end rest in
        '(unit, consumed) ← duration_unit rest;
        part ← checked_i128 (whole * unit);
        total ← checked_i128 (total + part);
        total ← add_fraction (bytes fraction) unit total;
        Some (total, str_drop consumed rest).

(** The loop: every step consumes a character, so the length is enough fuel. *)
Fixpoint duration_loop (fuel : nat) (rest : string) (total : Z) : option Z :=
  if str_is_empty rest then Some total
  else match fuel with
       | O => None
       | S fuel => '(total, rest) ← duration_step rest total; duration_loop fuel rest total
       end.

Definition parse_go_duration (value : string) : option Z :=
  if bool_decide (value = "0") then Some 0
  else
    let '(sign, rest) :=
      match strip_prefix "-" value with
      | Some rest => (-1, rest)
      | None => match strip_prefix "+" value with Some rest => (1, rest) | None => (1, value) end
      end in
    if str_is_empty rest then None
    else
      total ← duration_loop (str_len rest) rest 0;
      v ← checked_i128 (total * sign);
      if in_range (i_min 64) v (i_max 64) then Some v else None.
