(* ===== verification/TimeProps.v ===== *)
(** * Correctness of the calendar and of timestamps

    The two calendar routines are inverse bijections between day numbers and
    calendar dates; both repeat every 400 years, so one period is checked by
    evaluation.  A printed timestamp is parsed back to the same instant. *)

From S2P Require Import Prelude RustStr NetAddr Time.

(** ** Truncating division as the code uses it *)

Lemma quot_floor a n : 0 < n → Z.quot (if 0 <=? a then a else a - (n - 1)) n = a / n.
Proof.
  intros Hn. destruct (Z.leb_spec 0 a); [by apply Z.quot_div_nonneg|].
  rewrite <-(Z.opp_involutive (a - (n - 1))), Z.quot_opp_l, Z.quot_div_nonneg by lia.
  apply (Z.div_unique _ _ _ (a + n * ((- (a - (n - 1))) / n))); [|lia].
  pose proof (Z.div_mod (- (a - (n - 1))) n). pose proof (Z.mod_pos_bound (- (a - (n - 1))) n). lia.
Qed.

Lemma rem_zero a n : 0 < n → (Z.rem a n =? 0) = (a mod n =? 0).
Proof.
  intros Hn. apply eq_true_iff_eq. rewrite !Z.eqb_eq, Z.rem_divide, Z.mod_divide by lia. done.
Qed.

Lemma is_leap_mod y : is_leap y = (y mod 4 =? 0) && (negb (y mod 100 =? 0) || (y mod 400 =? 0)).
Proof. unfold is_leap. by rewrite !rem_zero. Qed.

Lemma is_leap_period y k : is_leap (y + k * 400) = is_leap y.
Proof.
  rewrite !is_leap_mod.
  replace (y + k * 400) with (y + (k * 100) * 4) at 1 by lia. rewrite Z.mod_add by lia.
  replace (y + k * 400) with (y + (k * 4) * 100) at 1 by lia. rewrite Z.mod_add by lia.
  by rewrite Z.mod_add by lia.
Qed.

Lemma days_in_month_period y k m : days_in_month (y + k * 400) m = days_in_month y m.
Proof. unfold days_in_month. by rewrite is_leap_period. Qed.

(** ** Day numbers

    [days_from_civil] counts the days of the years before the date's year, which
    begins in March, and adds the day within that year. *)

Definition valid_date (y m d : Z) : Prop := 1 <= m <= 12 ∧ 1 <= d <= days_in_month y m.

Definition year_start (a : Z) : Z := 365 * a + a / 4 - a / 100 + a / 400.
Definition month_start (mp : Z) : Z := (153 * mp + 2) / 5.
Definition shifted (m : Z) : Z := m + (if 2 <? m then -3 else 9).
Definition march_year (y m : Z) : Z := y - (if m <=? 2 then 1 else 0).

Ltac div_lia := Z.to_euclidean_division_equations; lia.

Lemma days_from_civil_closed y m d : 1 <= m <= 12 →
  days_from_civil y m d
  = year_start (march_year y m) + month_start (shifted m) + (d - 1) - 719468.
Proof.
  intros Hm. unfold days_from_civil, march_year, month_start, shifted, year_start.
  cbv zeta. set (adj := y - _). change 399 with (400 - 1). rewrite (quot_floor adj 400) by lia.
  set (mp := m + _). assert (0 <= mp) by (unfold mp; destruct (Z.ltb_spec 2 m); lia). clearbody mp adj. div_lia.
Qed.

Lemma is_leap_spec y :
  is_leap y = true ↔ y mod 4 = 0 ∧ (y mod 100 ≠ 0 ∨ y mod 400 = 0).
Proof.
  rewrite is_leap_mod, andb_true_iff, orb_true_iff, negb_true_iff, !Z.eqb_eq, Z.eqb_neq. done.
Qed.

(** The year that begins in March ends with the February of the next year. *)
Lemma year_start_step a : year_start (a + 1) = year_start a + (if is_leap (a + 1) then 366 else 365).
Proof.
  pose proof (is_leap_spec (a + 1)) as Hl. unfold year_start.
  destruct (is_leap (a + 1)).
  - destruct Hl as [Hl _]. specialize (Hl eq_refl). div_lia.
  - assert (¬ ((a + 1) mod 4 = 0 ∧ ((a + 1) mod 100 ≠ 0 ∨ (a + 1) mod 400 = 0))) as Hn
      by (intros H; by apply Hl in H). clear Hl. div_lia.
Qed.

(** The months of a year, from March on, follow each other; February ends the year. *)
Lemma month_start_step y m : 1 <= m <= 12 → m ≠ 2 →
  month_start (shifted m) + days_in_month y m
  = (if m =? 12 then 306 else month_start (shifted (m + 1))).
Proof.
  intros Hm Hne. assert (m = 1 ∨ m = 3 ∨ m = 4 ∨ m = 5 ∨ m = 6 ∨ m = 7 ∨ m = 8 ∨ m = 9 ∨ m = 10
    ∨ m = 11 ∨ m = 12) as Hc by lia. clear Hm Hne.
  by repeat (destruct Hc as [->|Hc]; [vm_compute|]); subst; vm_compute.
Qed.

Lemma days_in_february y : days_in_month y 2 = if is_leap y then 29 else 28.
Proof. unfold days_in_month. cbn. by destruct (is_leap y). Qed.

Definition next_date (date : Z * Z * Z) : Z * Z * Z :=
  let '(y, m, d) := date in
  if d <? days_in_month y m then (y, m, d + 1)
  else if m <? 12 then (y, m + 1, 1) else (y + 1, 1, 1).

Lemma days_in_month_pos y m : 1 <= m <= 12 → 1 <= days_in_month y m.
Proof.
  intros Hm. unfold days_in_month. repeat case_match; lia.
Qed.

Lemma next_date_valid y m d : valid_date y m d →
  let '(y', m', d') := next_date (y, m, d) in valid_date y' m' d'.
Proof.
  intros [Hm Hd]. unfold next_date. destruct (Z.ltb_spec d (days_in_month y m)); [by split; lia|].
  destruct (Z.ltb_spec m 12); split; try lia; split; try lia; apply days_in_month_pos; lia.
Qed.

(** The next date has the next number. *)
Lemma days_next y m d : valid_date y m d →
  let '(y', m', d') := next_date (y, m, d) in days_from_civil y' m' d' = days_from_civil y m d + 1.
Proof.
  intros [Hm Hd]. unfold next_date. destruct (Z.ltb_spec d (days_in_month y m)) as [|Hlast].
  { rewrite !days_from_civil_closed by done. lia. }
  assert (d = days_in_month y m) as -> by lia. clear Hd Hlast.
  destruct (decide (m = 2)) as [->|Hne].
  { cbn [Z.ltb Z.compare Pos.compare Pos.compare_cont Z.add Pos.add Pos.succ].
    rewrite !days_from_civil_closed, days_in_february by lia.
    unfold march_year. cbn. pose proof (year_start_step (y - 1)) as E.
    replace (y - 1 + 1) with y in E by lia. rewrite Z.sub_0_r, E.
    change (month_start (shifted (2 + 1))) with 0. change (month_start (shifted 2)) with 337.
    destruct (is_leap y); lia. }
  pose proof (month_start_step y m Hm Hne) as E. destruct (Z.ltb_spec m 12).
  - rewrite (proj2 (Z.eqb_neq _ _)) in E by lia. rewrite !days_from_civil_closed by lia.
    assert (march_year y (m + 1) = march_year y m) as ->; [|lia].
    unfold march_year. destruct (Z.leb_spec (m + 1) 2), (Z.leb_spec m 2); lia.
  - assert (m = 12) as -> by lia. rewrite !days_from_civil_closed by lia.
    change (march_year y 12) with (y - 0). change (march_year (y + 1) 1) with (y + 1 - 1).
    rewrite Z.add_simpl_r, Z.sub_0_r. change (month_start (shifted 12) + 31 = 306) in E.
    change (days_in_month y 12) with 31. change (month_start (shifted 1)) with 306. lia.
Qed.

(** ** Dates of day numbers *)

(** The year and the month of a day within a period of 400 years. *)
Lemma era_year_spec doe : 0 <= doe < 146097 →
  let yoe := (doe - doe / 1460 + doe / 36524 - doe / 146096) / 365 in
  let yday := doe - (365 * yoe + yoe / 4 - yoe / 100) in
  0 <= yoe <= 399 ∧ 0 <= yday <= 365 ∧ (yday = 365 → is_leap (yoe + 1) = true).
Proof.
  intros Hd. cbv zeta. split; [div_lia|]. split; [split; div_lia|].
  intros H. apply is_leap_spec. split; [div_lia|].
  set (yoe := (_ - doe / 146096) / 365) in *.
  destruct (decide ((yoe + 1) mod 100 = 0)) as [E|]; [right|by left].
  assert (yoe + 1 = 400) as ->; [|done]. unfold yoe in *. div_lia.
Qed.

Lemma year_month_spec yday : 0 <= yday <= 365 →
  let mp := (5 * yday + 2) / 153 in
  let day := yday - (153 * mp + 2) / 5 + 1 in
  0 <= mp <= 11 ∧ 1 <= day ∧
  (mp = 11 → day <= 29 ∧ (day = 29 → yday = 365)) ∧
  (mp < 11 → day <= month_start (mp + 1) - month_start mp).
Proof. intros Hy. cbv zeta. unfold month_start. split_and!; div_lia. Qed.

Definition month_of (mp : Z) : Z := mp + (if mp <? 10 then 3 else -9).

Lemma month_of_shift mp : 0 <= mp <= 11 → 1 <= month_of mp <= 12 ∧ shifted (month_of mp) = mp.
Proof.
  intros Hm. unfold month_of, shifted. destruct (Z.ltb_spec mp 10).
  - destruct (Z.ltb_spec 2 (mp + 3)); lia.
  - destruct (Z.ltb_spec 2 (mp + -9)); lia.
Qed.

Lemma month_length mp y : 0 <= mp < 11 →
  month_start (mp + 1) - month_start mp = days_in_month y (month_of mp).
Proof.
  intros Hm. assert (mp = 0 ∨ mp = 1 ∨ mp = 2 ∨ mp = 3 ∨ mp = 4 ∨ mp = 5 ∨ mp = 6 ∨ mp = 7 ∨ mp = 8
    ∨ mp = 9 ∨ mp = 10) as Hc by lia. clear Hm.
  by repeat (destruct Hc as [->|Hc]; [vm_compute|]); subst; vm_compute.
Qed.

Lemma civil_date_days days :
  let '(y, m, d) := civil_date days in valid_date y m d ∧ days_from_civil y m d = days.
Proof.
  unfold civil_date. cbv zeta. set (n := days + 719468).
  change (n - 146096) with (n - (146097 - 1)). rewrite (quot_floor n 146097) by lia.
  replace (n - n / 146097 * 146097) with (n mod 146097) by (rewrite Z.mod_eq; lia).
  pose proof (Z.mod_pos_bound n 146097 ltac:(lia)) as Hdoe.
  pose proof (Z.div_mod n 146097 ltac:(lia)) as Hn. set (doe := n mod 146097) in *.
  pose proof (era_year_spec doe Hdoe) as Hy. cbv zeta in Hy.
  rewrite !(Z.quot_div_nonneg doe) by lia.
  rewrite (Z.quot_div_nonneg _ 365) by (div_lia || lia).
  set (yoe := (_ - doe / 146096) / 365) in *. destruct Hy as (Hyoe & Hyday & Hleap).
  rewrite !(Z.quot_div_nonneg yoe) by lia. set (yday := doe - (365 * yoe + _ - _)) in *.
  pose proof (year_month_spec yday Hyday) as Hmd. cbv zeta in Hmd.
  rewrite (Z.quot_div_nonneg _ 153) by lia. set (mp := (5 * yday + 2) / 153) in *.
  destruct Hmd as (Hmp & Hd1 & Hfeb & Hother).
  rewrite (Z.quot_div_nonneg _ 5) by lia. set (d := yday - _ + 1) in *.
  fold (month_of mp). destruct (month_of_shift mp Hmp) as [Hmr Hms].
  set (y := yoe + n / 146097 * 400 + _). split.
  - split; [done|]. split; [done|]. destruct (decide (mp = 11)) as [E|].
    + assert (y = yoe + 1 + n / 146097 * 400) as ->.
      { unfold y. rewrite E. change (month_of 11 <=? 2) with true. cbv iota. lia. }
      rewrite E. change (month_of 11) with 2. rewrite days_in_february, is_leap_period.
      destruct (Hfeb E) as [Hle H29].
      destruct (is_leap (yoe + 1)) eqn:El; [lia|].
      destruct (decide (d = 29)) as [e|]; [|lia]. pose proof (Hleap (H29 e)). congruence.
    + rewrite <-month_length by lia. apply Hother. lia.
  - rewrite days_from_civil_closed, Hms by done.
    replace (march_year y (month_of mp)) with (yoe + n / 146097 * 400)
      by (unfold march_year, y; lia).
    unfold year_start, month_start. clear Hfeb Hother Hleap Hd1 Hdoe y. subst d yday.
    clearbody mp yoe. set (q := n / 146097) in *. clearbody q doe. unfold n in Hn. div_lia.
Qed.

(** A valid date lies within its month and its month within its year. *)
Lemma date_in_year y m d : valid_date y m d →
  0 <= shifted m <= 11 ∧ month_start (shifted m) + (d - 1) < month_start (shifted m + 1) ∧
  0 <= month_start (shifted m) + (d - 1)
    < year_start (march_year y m + 1) - year_start (march_year y m).
Proof.
  intros [Hm Hd]. rewrite year_start_step.
  destruct (decide (m = 2)) as [->|Hne].
  - rewrite days_in_february in Hd. unfold march_year. cbn [Z.leb Z.compare Pos.compare Pos.compare_cont].
    replace (y - 1 + 1) with y by lia. change (shifted 2) with 11.
    change (month_start 11) with 337. change (month_start (11 + 1)) with 367.
    destruct (is_leap y); lia.
  - pose proof (month_length (shifted m) y). pose proof (days_in_month_pos y m Hm).
    assert (0 <= shifted m < 11 ∧ month_of (shifted m) = m) as [Hs Hmo].
    { unfold month_of, shifted. destruct (Z.ltb_spec 2 m).
      - rewrite (proj2 (Z.ltb_lt _ _)); lia.
      - rewrite (proj2 (Z.ltb_ge _ _)); lia. }
    rewrite Hmo in H. specialize (H Hs).
    assert (month_start (shifted m + 1) <= 337) by (unfold month_start; div_lia).
    assert (0 <= month_start (shifted m)) by (unfold month_start; div_lia).
    destruct (is_leap _); lia.
Qed.

Lemma year_start_mono a b : a <= b → year_start a <= year_start b.
Proof. intros H. unfold year_start. div_lia. Qed.

Lemma march_date_inj y m y' m' : 1 <= m <= 12 → 1 <= m' <= 12 →
  shifted m = shifted m' → march_year y m = march_year y' m' → y = y' ∧ m = m'.
Proof.
  unfold shifted, march_year. intros Hm Hm'.
  destruct (Z.ltb_spec 2 m), (Z.ltb_spec 2 m'), (Z.leb_spec m 2), (Z.leb_spec m' 2); lia.
Qed.

(** Distinct valid dates have distinct numbers. *)
Lemma days_from_civil_inj y m d y' m' d' :
  valid_date y m d → valid_date y' m' d' →
  days_from_civil y m d = days_from_civil y' m' d' → (y, m, d) = (y', m', d').
Proof.
  intros H H' E. rewrite !days_from_civil_closed in E by apply H || apply H'.
  destruct (date_in_year _ _ _ H) as (Hs & Hmn & Hyr).
  destruct (date_in_year _ _ _ H') as (Hs' & Hmn' & Hyr').
  assert (march_year y m = march_year y' m') as Ea.
  { destruct (Z.lt_total (march_year y m) (march_year y' m')) as [Hlt|[|Hlt]]; [|done|].
    - pose proof (year_start_mono (march_year y m + 1) (march_year y' m')). lia.
    - pose proof (year_start_mono (march_year y' m' + 1) (march_year y m)). lia. }
  rewrite Ea in E. destruct H as [Hm Hd], H' as [Hm' Hd'].
  assert (shifted m = shifted m') as Es by (unfold month_start in *; div_lia).
  destruct (march_date_inj _ _ _ _ Hm Hm' Es Ea) as [-> ->]. repeat f_equal. lia.
Qed.

Lemma days_civil_date y m d : valid_date y m d → civil_date (days_from_civil y m d) = (y, m, d).
Proof.
  intros Hv. pose proof (civil_date_days (days_from_civil y m d)) as Hc.
  destruct (civil_date _) as [[y' m'] d']. destruct Hc. by apply days_from_civil_inj.
Qed.

Lemma civil_date_next days : civil_date (days + 1) = next_date (civil_date days).
Proof.
  pose proof (civil_date_days days) as Hc. destruct (civil_date days) as [[y m] d].
  destruct Hc as [Hv <-]. pose proof (days_next _ _ _ Hv) as E. pose proof (next_date_valid _ _ _ Hv).
  destruct (next_date (y, m, d)) as [[y' m'] d']. rewrite <-E. by apply days_civil_date.
Qed.

(** [civil_date] and [days_from_civil] implement the proleptic Gregorian
    calendar for every day number and every year, negative ones included: day 0
    is 1970-01-01, the date of the next day is the next date of the calendar,
    every date is valid (its day exists in its month), and the two functions are
    inverse to each other on day numbers and valid dates. *)
Theorem civil_calendar_correct :
  civil_date 0 = (1970, 1, 1) ∧
  (∀ days, civil_date (days + 1) = next_date (civil_date days)) ∧
  (∀ days, let '(y, m, d) := civil_date days in
     valid_date y m d ∧ days_from_civil y m d = days) ∧
  (∀ y m d, valid_date y m d → civil_date (days_from_civil y m d) = (y, m, d)).
Proof.
  split_and!; [done|exact civil_date_next|exact civil_date_days|exact days_civil_date].
Qed.

(** ** Timestamps *)

Definition all_digits (s : string) : Prop := forallb is_ascii_digit (bytes s) = true.

Lemma all_digits_cons c s : all_digits (String c s) ↔ is_ascii_digit c = true ∧ all_digits s.
Proof. unfold all_digits. cbn. by rewrite andb_true_iff. Qed.

Lemma dec_aux_digits fuel n acc (k : nat) :
  0 <= n < 10 ^ Z.of_nat k → (0 < k)%nat → all_digits acc →
  (str_len (dec_aux fuel n acc) <= k + str_len acc)%nat ∧ all_digits (dec_aux fuel n acc).
Proof.
  revert n acc k. induction fuel as [|fuel IH]; intros n acc k Hn Hk Hacc.
  { split; [|done]. change (dec_aux 0 n acc) with acc. lia. }
  cbn [dec_aux]. pose proof (Z.mod_pos_bound n 10 ltac:(lia)) as Hm.
  assert (all_digits (String (dec_digit (n mod 10)) acc)) as Hacc'.
  { apply all_digits_cons. split; [|done]. pose proof (dec_digit_val (n mod 10) Hm) as E.
    unfold digit_val in E. by destruct (is_ascii_digit _). }
  destruct (Z.eqb_spec (n / 10) 0) as [|Hne]; [rewrite str_len_cons; split; [lia|done]|].
  destruct k as [|[|k]]; [lia| |].
  { exfalso. apply Hne, Z.div_small. lia. }
  destruct (IH (n / 10) (String (dec_digit (n mod 10)) acc) (S k)) as [Hl Hd].
  - rewrite Nat2Z.inj_succ, Z.pow_succ_r in Hn by lia.
    split; [apply Z.div_pos; lia|apply Z.div_lt_upper_bound; lia].
  - lia.
  - done.
  - rewrite str_len_cons in Hl. split; [lia|done].
Qed.

Lemma zeros_spec k s : all_digits s → str_len (zeros k +:+ s) = (k + str_len s)%nat ∧
  all_digits (zeros k +:+ s) ∧
  ∀ lo hi, 0 <= hi → parse_digits false lo hi 0 (zeros k +:+ s) = parse_digits false lo hi 0 s.
Proof.
  intros Hs. induction k as [|k (Hl & Hd & Hp)]; [done|].
  change (zeros (S k) +:+ s) with (String "0" (zeros k +:+ s)).
  split_and!; [rewrite str_len_cons, Hl; lia|by apply all_digits_cons|].
  intros lo hi Hhi. cbn [parse_digits]. change (digit_val "0") with (Some 0). cbv zeta iota.
  change (0 * 10 + 0) with 0. rewrite (proj2 (Z.ltb_ge hi 0)) by lia. by apply Hp.
Qed.

(** A number printed with [width] digits. *)
Lemma pad_spec (width : nat) n : (0 < width)%nat → 0 <= n < 10 ^ Z.of_nat width →
  str_len (pad width n) = width ∧ all_digits (pad width n) ∧
  ∀ lo hi, n <= hi → parse_digits false lo hi 0 (pad width n) = Ok n.
Proof.
  intros Hw Hn. unfold pad. rewrite (proj2 (Z.ltb_ge _ _)), Z.abs_eq by lia.
  unfold dec. rewrite (proj2 (Z.ltb_ge _ _)) by lia. unfold dec_nat.
  set (fuel := S _). destruct (dec_aux_digits fuel n "" width Hn Hw) as [Hl Hd]; [done|].
  destruct (zeros_spec (width - str_len (dec_aux fuel n "")) _ Hd) as (Hl' & Hd' & Hp).
  split_and!; [rewrite Hl'; change (str_len "") with 0%nat in Hl; lia|done|]. intros lo hi Hhi. rewrite Hp by lia.
  rewrite parse_digits_dec_aux; [done|lia|apply dec_fuel; lia|done].
Qed.

Lemma digit_facts c : is_ascii_digit c = true →
  ascii_eqb c "+" = false ∧ ascii_eqb c "-" = false ∧ continuation c = false.
Proof. destruct c as [[] [] [] [] [] [] [] []]; vm_compute; done. Qed.

Lemma parse_int_digits signed lo hi c s : is_ascii_digit c = true →
  parse_int signed lo hi (String c s) = parse_digits false lo hi 0 (String c s).
Proof. intros (E1 & E2 & _)%digit_facts. unfold parse_int. by rewrite E1, E2. Qed.

Lemma pad2 n : 0 <= n < 100 →
  ∃ a b, pad 2 n = String a (String b "") ∧ continuation a = false ∧
    ∀ signed lo hi, n <= hi → parse_int signed lo hi (String a (String b "")) = Ok n.
Proof.
  intros Hn. destruct (pad_spec 2 n) as (Hl & Hd & Hp); [lia|lia|].
  destruct (pad 2 n) as [|a [|b []]]; try done.
  apply all_digits_cons in Hd as [Ha _]. exists a, b.
  split_and!; [done|by apply digit_facts|]. intros. rewrite parse_int_digits by done. by apply Hp.
Qed.

Lemma pad4 n : 0 <= n < 10000 →
  ∃ a b c d, pad 4 n = String a (String b (String c (String d ""))) ∧ continuation a = false ∧
    ∀ signed lo hi, n <= hi →
      parse_int signed lo hi (String a (String b (String c (String d "")))) = Ok n.
Proof.
  intros Hn. destruct (pad_spec 4 n) as (Hl & Hd & Hp); [lia|lia|].
  destruct (pad 4 n) as [|a [|b [|c [|d []]]]]; try done.
  apply all_digits_cons in Hd as [Ha _]. exists a, b, c, d.
  split_and!; [done|by apply digit_facts|]. intros. rewrite parse_int_digits by done. by apply Hp.
Qed.

Lemma days_in_month_le y m : days_in_month y m <= 31.
Proof. unfold days_in_month. repeat case_match; lia. Qed.

Lemma in_range_spec lo x hi : in_range lo x hi = true ↔ lo <= x <= hi.
Proof. unfold in_range. rewrite andb_true_iff, !Z.leb_le. done. Qed.

(** [starts_char s]: [s] begins with a character of its own. *)
Definition starts_char (s : string) : Prop :=
  match s with "" => True | String c _ => continuation c = false end.

Lemma boundary_app p s : starts_char s → is_char_boundary (str_len p) (p +:+ s) = true.
Proof.
  intros Hs. unfold is_char_boundary. destruct (Nat.eqb_spec (str_len p) 0) as [|Hp]; [done|].
  clear Hp. unfold nth_byte, bytes, str_len. induction p as [|c p IH].
  - destruct s as [|c s]; [done|]. change (negb (continuation c) = true).
    change (continuation c = false) in Hs. by rewrite Hs.
  - exact IH.
Qed.

Lemma str_get_app p f r : starts_char (f +:+ r) → starts_char r →
  str_get (str_len p) (str_len (p +:+ f)) (p +:+ f +:+ r) = Some f.
Proof.
  intros Hf Hr. unfold str_get. rewrite boundary_app by done.
  rewrite str_app_assoc. rewrite boundary_app, str_take_app, str_drop_app by done.
  rewrite str_len_app. rewrite (proj2 (Nat.leb_le _ _)) by lia. done.
Qed.

Lemma time_field_at signed w name f r n p : starts_char (f +:+ r) → starts_char r →
  parse_int signed (if signed then i_min w else 0) (if signed then i_max w else u_max w) f = Ok n →
  time_field signed w name (str_len p) (str_len (p +:+ f)) (p +:+ f +:+ r) = Ok n.
Proof.
  intros Hf Hr E. unfold time_field. rewrite str_get_app by done. cbn.
  unfold parse_i, parse_u. destruct signed; by rewrite E.
Qed.

Lemma time_field_slice signed w name a b v n :
  a = str_len (str_take a v) → b = str_len (str_take a v +:+ str_drop a (str_take b v)) →
  v = str_take a v +:+ str_drop a (str_take b v) +:+ str_drop b v →
  starts_char (str_drop a (str_take b v) +:+ str_drop b v) → starts_char (str_drop b v) →
  parse_int signed (if signed then i_min w else 0) (if signed then i_max w else u_max w)
    (str_drop a (str_take b v)) = Ok n →
  time_field signed w name a b v = Ok n.
Proof.
  intros Ea Eb Ev Hf Hr E. pose proof (time_field_at signed w name _ _ _ (str_take a v) Hf Hr E) as Ht.
  by rewrite <-Ev, <-Eb, <-Ea in Ht.
Qed.

Definition floor_seconds (time : Z) : Z := time / 1000000000.

Lemma rfc3339_seconds time :
  (if 0 <=? time then time / 1000000000
   else - ((- time) / 1000000000) - (if (- time) mod 1000000000 =? 0 then 0 else 1))
  = floor_seconds time.
Proof.
  unfold floor_seconds. destruct (Z.leb_spec 0 time); [done|].
  destruct (Z.eqb_spec ((- time) mod 1000000000) 0); div_lia.
Qed.

Definition time_year (time : Z) : Z := (civil_date (floor_seconds time / 86400)).1.1.

Lemma parse_rfc3339_utc time : 0 <= time_year time < 10000 →
  parse_rfc3339 (rfc3339_utc time) = Ok (mk_Rfc3339Time (floor_seconds time) 0 (time_year time)).
Proof.
  unfold time_year, rfc3339_utc. rewrite rfc3339_seconds. set (secs := floor_seconds time).
  pose proof (civil_date_days (secs / 86400)) as Hc.
  destruct (civil_date (secs / 86400)) as [[y m] d]. cbn [fst snd]. intros Hy.
  destruct Hc as [[Hm Hd] Hdays]. pose proof (days_in_month_le y m).
  pose proof (Z.mod_pos_bound secs 86400 ltac:(lia)) as Hs.
  pose proof (Z.div_mod secs 86400 ltac:(lia)) as Hdm. set (ds := secs mod 86400) in *.
  destruct (pad4 y Hy) as (y1 & y2 & y3 & y4 & -> & Cy & Ey).
  destruct (pad2 m) as (m1 & m2 & -> & Cm & Em); [lia|].
  destruct (pad2 d) as (d1 & d2 & -> & Cd & Ed); [lia|].
  destruct (pad2 (ds / 3600)) as (h1 & h2 & -> & Ch & Eh); [div_lia|].
  destruct (pad2 (ds mod 3600 / 60)) as (i1 & i2 & -> & Ci & Ei); [div_lia|].
  destruct (pad2 (ds mod 60)) as (s1 & s2 & -> & Cs & Es); [div_lia|].
  unfold parse_rfc3339.
  pose (v := String y1 (String y2 (String y3 (String y4 (String "-" (String m1 (String m2 (String "-"
    (String d1 (String d2 (String "T" (String h1 (String h2 (String ":" (String i1 (String i2
    (String ":" (String s1 (String s2 "Z"))))))))))))))))))).
  match goal with |- context [str_len ?x] => change x with v end.
  assert (time_field true 32 "year" 0 4 v = Ok y) as ->
    by (apply time_field_slice; [done|done|done|exact Cy|done|apply Ey; cbv iota; unfold i_max, u_max; lia]).
  assert (time_field false 32 "month" 5 7 v = Ok m) as ->
    by (apply time_field_slice; [done|done|done|exact Cm|done|apply Em; cbv iota; unfold i_max, u_max; lia]).
  assert (time_field false 32 "day" 8 10 v = Ok d) as ->
    by (apply time_field_slice; [done|done|done|exact Cd|done|apply Ed; cbv iota; unfold i_max, u_max; lia]).
  assert (time_field true 64 "hour" 11 13 v = Ok (ds / 3600)) as ->
    by (apply time_field_slice; [done|done|done|exact Ch|done|apply Eh; cbv iota; unfold i_max, u_max; div_lia]).
  assert (time_field true 64 "minute" 14 16 v = Ok (ds mod 3600 / 60)) as ->
    by (apply time_field_slice; [done|done|done|exact Ci|done|apply Ei; cbv iota; unfold i_max, u_max; div_lia]).
  assert (time_field true 64 "second" 17 19 v = Ok (ds mod 60)) as ->
    by (apply time_field_slice; [done|done|done|exact Cs|done|apply Es; cbv iota; unfold i_max, u_max; div_lia]).
  change (str_len v <? 20)%nat with false. cbn [mbind result_bind].
  change (byte_is 4 "-" v) with true. change (byte_is 7 "-" v) with true.
  change (byte_is 10 "T" v) with true. change (byte_is 13 ":" v) with true.
  change (byte_is 16 ":" v) with true. cbn [negb orb].
  rewrite (proj2 (in_range_spec 1 m 12)), (proj2 (Z.eqb_neq d 0)), (proj2 (Z.ltb_ge _ d)),
    (proj2 (in_range_spec 0 (ds / 3600) 23)), (proj2 (in_range_spec 0 (ds mod 3600 / 60) 59)),
    (proj2 (in_range_spec 0 (ds mod 60) 59)) by div_lia.
  change (str_slice 19 (str_len v) v) with (Ok (E := string) "Z").
  cbn [mbind result_bind negb orb]. change (split_fraction "Z") with (Ok (E := string) ("", "Z")).
  cbv -[days_from_civil Z.mul Z.add Z.sub Z.div Z.modulo floor_seconds ds]. rewrite Hdays.
  do 2 f_equal. clear -Hs Hdm. clearbody ds. div_lia.
Qed.

(** a timestamp printed by [rfc3339_utc] is parsed by [parse_rfc3339] to
    the same instant, to the second, for every time (before the epoch included)
    of the years 0 to 9999. *)
Theorem rfc3339_round_trip time :
  0 <= time_year time < 10000 →
  parse_rfc3339 (rfc3339_utc time) = Ok (mk_Rfc3339Time (floor_seconds time) 0 (time_year time)).
Proof. exact (parse_rfc3339_utc time). Qed.

Lemma rfc3339_round_trip_witness :
  rfc3339_utc (-1) = "1969-12-31T23:59:59Z" ∧
  parse_rfc3339 (rfc3339_utc (-1)) = Ok (mk_Rfc3339Time (-1) 0 1969).
Proof. split; [vm_compute; reflexivity|]. apply (rfc3339_round_trip (-1)). vm_compute. done. Defined.

(** ** Characters of a valid text *)

Lemma continuations_spec n l k : continuations n l = k →
  (k <= length l)%nat ∧ Forall (fun c => continuation c = true) (take k l).
Proof.
  revert l k. induction n as [|n IH]; intros [|c l] k; cbn; try (intros <-; split; [lia|constructor]).
  destruct (continuation c) eqn:E; [|intros <-; split; [lia|constructor]].
  intros <-. destruct (IH l _ eq_refl). split; [cbn; lia|by constructor].
Qed.

(** A well-formed character: a first byte that is no continuation, then continuations. *)
Lemma utf8_char_shape c l n : utf8_char (c :: l) = (n, true) →
  ∃ k, n = S k ∧ (k <= length l)%nat ∧ Forall (fun c => continuation c = true) (take k l) ∧
    continuation c = false ∧ (byte_val c < 128 → k = 0%nat).
Proof.
  unfold utf8_char, continuation at 2. cbv zeta.
  destruct (Z.ltb_spec (byte_val c) 128).
  { intros [= <-]. exists 0%nat. rewrite (proj2 (Z.leb_gt _ _)) by lia. split_and!; (done || lia). }
  assert (∀ m a, 192 <= byte_val c → continuations m l = a → n = S a →
    ∃ k, n = S k ∧ (k <= length l)%nat ∧ Forall (fun c => continuation c = true) (take k l) ∧
    ((128 <=? byte_val c) && (byte_val c <=? 191)) = false ∧ (byte_val c < 128 → k = 0%nat)) as Hm.
  { intros m a Hb Em ->. destruct (continuations_spec _ _ _ Em). exists a.
    rewrite (proj2 (Z.leb_gt _ 191)), andb_false_r by lia. split_and!; (done || lia). }
  intros E.
  repeat match type of E with
  | context [if ?b then _ else _] => let Eb := fresh "Eb" in destruct b eqn:Eb
  | context [match continuations ?m l with _ => _ end] =>
      let Ec := fresh "Ec" in destruct (continuations m l) as [|[|[|[|?]]]] eqn:Ec
  end; try discriminate E; injection E as <-; (eapply Hm; [|exact Ec|done]);
  rewrite ?andb_true_iff, ?Z.leb_le in *; lia.
Qed.

(** In valid text a byte that follows an ASCII byte begins a character. *)
Lemma ascii_boundary l i a b : utf8_valid l = true →
  l !! i = Some a → l !! S i = Some b → byte_val a < 128 → continuation b = false.
Proof.
  unfold utf8_valid. generalize (length l) as fuel. intros fuel. revert l i.
  induction fuel as [|fuel IH]; intros [|c l] i Hv Ha Hb Hlt; try done.
  cbn [utf8_valid_aux] in Hv. destruct (utf8_char (c :: l)) as [n valid] eqn:Ec.
  apply andb_true_iff in Hv as [-> Hv].
  destruct (utf8_char_shape c l n Ec) as (k & -> & Hk & Hcont & Hc & Hascii).
  cbn [drop] in Hv. destruct (decide (S k <= i)%nat) as [Hi|Hi].
  { apply (IH (drop k l) (i - S k)%nat); [done|rewrite lookup_drop..|done].
    - destruct i as [|i]; [lia|]. cbn in Ha. by replace (k + (S i - S k))%nat with i by lia.
    - cbn in Hb. by replace (k + S (i - S k))%nat with i by lia. }
  destruct i as [|i].
  - injection Ha as ->. rewrite (Hascii Hlt) in Hv. cbn in Hb. destruct l as [|b' l]; [done|].
    injection Hb as ->. cbn [drop] in Hv. destruct fuel as [|fuel]; [done|].
    cbn [utf8_valid_aux] in Hv. destruct (utf8_char (b :: l)) as [n valid] eqn:Eb.
    apply andb_true_iff in Hv as [-> _]. by destruct (utf8_char_shape b l n Eb) as (? & ? & ? & ? & ? & ?).
  - exfalso. cbn in Ha. rewrite Forall_lookup in Hcont. specialize (Hcont i a).
    rewrite lookup_take_lt in Hcont by lia. specialize (Hcont Ha).
    unfold continuation in Hcont. rewrite andb_true_iff, !Z.leb_le in Hcont. lia.
Qed.

(** ** What [parse_rfc3339] returns *)

Lemma parse_digits_bound (neg : bool) lo hi acc s n (j : nat) :
  (if neg then - 10 ^ Z.of_nat j < acc <= 0 else 0 <= acc < 10 ^ Z.of_nat j) →
  parse_digits neg lo hi acc s = Ok n →
  if neg then - 10 ^ Z.of_nat (j + str_len s) < n <= 0 else 0 <= n < 10 ^ Z.of_nat (j + str_len s).
Proof.
  revert acc j. induction s as [|c s IH]; intros acc j Hacc E.
  { injection E as <-. by rewrite Nat.add_0_r. }
  cbn [parse_digits] in E. unfold digit_val in E. destruct (is_ascii_digit c) eqn:Ec; [|done].
  assert (0 <= byte_val c - 48 <= 9) as Hd.
  { unfold is_ascii_digit in Ec. rewrite andb_true_iff, !Z.leb_le in Ec. lia. }
  rewrite str_len_cons, <-Nat.add_succ_comm.
  pose proof (Z.pow_succ_r 10 (Z.of_nat j) ltac:(lia)) as Ep. rewrite <-Nat2Z.inj_succ in Ep.
  destruct neg; cbv zeta in E; case_match; try done; eapply IH; try done; rewrite Ep; lia.
Qed.

Lemma parse_int_bound signed lo hi s n : parse_int signed lo hi s = Ok n →
  Z.abs n < 10 ^ Z.of_nat (str_len s) ∧ (signed = false → 0 <= n).
Proof.
  assert (∀ (neg : bool) t, (str_len t <= str_len s)%nat → parse_digits neg lo hi 0 t = Ok n →
    Z.abs n < 10 ^ Z.of_nat (str_len s) ∧ (neg = false → 0 <= n)) as Hd.
  { intros neg t Ht E.
    pose proof (Z.pow_le_mono_r 10 (Z.of_nat (str_len t)) (Z.of_nat (str_len s)) ltac:(lia) ltac:(lia)).
    pose proof (parse_digits_bound neg lo hi 0 t n 0) as Hb. rewrite Nat.add_0_l in Hb.
    change (10 ^ Z.of_nat 0) with 1 in Hb.
    destruct neg; (specialize (Hb ltac:(lia) E); split; [lia|intros; (discriminate || lia)]). }
  unfold parse_int. destruct s as [|c s]; [discriminate|].
  destruct (ascii_eqb c "+"); [destruct s; [discriminate|]|destruct (ascii_eqb c "-")].
  - intros E. apply Hd in E as [? ?]; [auto|]. rewrite (str_len_cons c). lia.
  - destruct s; [discriminate|]. destruct signed; [|discriminate].
    intros E. apply Hd in E as [? ?]; [done|]. rewrite (str_len_cons c). lia.
  - intros E. apply Hd in E as [? ?]; [auto|done].
Qed.

Lemma parse_digits_total neg lo hi acc s m : parse_digits neg lo hi acc s ≠ Panic m.
Proof.
  revert acc. induction s as [|c s IH]; intros acc; cbn [parse_digits]; [done|].
  destruct (digit_val c); [|done]. cbv zeta. destruct neg; case_match; done.
Qed.

Lemma parse_int_spec signed lo hi s :
  result_spec (parse_int signed lo hi s)
    (fun n => Z.abs n < 10 ^ Z.of_nat (str_len s) ∧ (signed = false → 0 <= n)) (fun _ => True).
Proof.
  destruct (parse_int signed lo hi s) as [n| |m] eqn:E; cbn; [by eapply parse_int_bound|done|].
  revert E. unfold parse_int. repeat case_match; try done; apply parse_digits_total.
Qed.

Lemma time_field_bound signed w name a b value :
  result_spec (time_field signed w name a b value)
    (fun n => is_char_boundary b value = true ∧ Z.abs n < 10 ^ Z.of_nat (b - a) ∧
       (signed = false → 0 <= n)) (fun _ => True).
Proof.
  unfold time_field, str_get.
  destruct (_ && _ && _) eqn:Eb; cbn [ok_or mbind result_bind]; [|done].
  apply andb_true_iff in Eb as [_ Eb]. set (f := str_drop a (str_take b value)).
  apply result_spec_map_err.
  apply (result_spec_mono _ (fun n => Z.abs n < 10 ^ Z.of_nat (str_len f) ∧ (signed = false → 0 <= n))
    _ (fun _ => True)); [|intros n _ [Hn Hs]|done].
  - unfold parse_i, parse_u. destruct signed; apply parse_int_spec.
  - split_and!; [done| |done]. eapply Z.lt_le_trans; [exact Hn|]. apply Z.pow_le_mono_r; [lia|].
    unfold f. rewrite str_len_drop. pose proof (str_len_take b value). lia.
Qed.

Lemma byte_is_lookup n c s : byte_is n c s = true → bytes s !! n = Some c.
Proof. apply bool_decide_eq_true. Qed.

(** A slice of a valid text that starts after an ASCII byte. *)
Lemma boundary_after value zone k n c :
  utf8_valid (bytes value) = true → bytes zone = drop k (bytes value) →
  bytes zone !! n = Some c → byte_val c < 128 → is_char_boundary (S n) zone = true.
Proof.
  intros Hv Ez Hn Hc. unfold is_char_boundary, nth_byte. change (S n =? 0)%nat with false. cbv iota.
  destruct (bytes zone !! S n) as [d|] eqn:Ed.
  - rewrite Ez, lookup_drop in Hn, Ed. rewrite Nat.add_succ_r in Ed.
    by rewrite (ascii_boundary _ _ _ _ Hv Hn Ed Hc).
  - apply Nat.eqb_eq. rewrite <-length_bytes. apply lookup_ge_None in Ed.
    apply lookup_lt_Some in Hn. lia.
Qed.

Lemma slice_spec a b s : (a <= b)%nat → is_char_boundary a s = true → is_char_boundary b s = true →
  str_slice (E := string) a b s = Ok (str_drop a (str_take b s)).
Proof.
  intros Hab Ha Hb. unfold str_slice, str_get. rewrite Ha, Hb.
  by rewrite (proj2 (Nat.leb_le _ _)) by done.
Qed.

Lemma zone_number_spec s (n : nat) : (str_len s <= n)%nat →
  result_spec (map_err (fun _ => "invalid timezone") (parse_i 64 s))
    (fun v => Z.abs v < 10 ^ Z.of_nat n) (fun _ => True).
Proof.
  intros Hn. apply result_spec_map_err. eapply result_spec_mono; [apply parse_int_spec|intros v _ [Hv _]|done].
  eapply Z.lt_le_trans; [exact Hv|]. apply Z.pow_le_mono_r; lia.
Qed.

Lemma parse_zone_spec value zone k :
  utf8_valid (bytes value) = true → bytes zone = drop k (bytes value) →
  result_spec (parse_zone zone) (fun offset => Z.abs offset < 400000) (fun _ => True).
Proof.
  intros Hv Ez. unfold parse_zone. case_bool_decide; [done|].
  assert (∀ c rest, zone = String c rest → byte_val c < 128 → is_char_boundary 1 zone = true) as Hb1.
  { intros c rest E Hc. apply (boundary_after value zone k 0 c Hv Ez); [|done]. by rewrite E. }
  apply (result_spec_bind _ _ (fun sign => Z.abs sign = 1 ∧ is_char_boundary 1 zone = true)).
  { destruct zone as [|c rest]; [done|].
    destruct c as [[] [] [] [] [] [] [] []]; cbn; try done; (split; [done|by eapply Hb1]). }
  intros sign _ [Hsign H1]. destruct (_ || _) eqn:Ec; [done|].
  apply orb_false_iff in Ec as [El Eb]. apply negb_false_iff in El, Eb. apply Nat.eqb_eq in El.
  apply byte_is_lookup in Eb.
  assert (is_char_boundary 4 zone = true) as H4 by by eapply (boundary_after value zone k 3).
  assert (is_char_boundary 3 zone = true) as H3 by (unfold is_char_boundary, nth_byte; by rewrite Eb).
  assert (is_char_boundary 6 zone = true) as H6.
  { unfold is_char_boundary, nth_byte. rewrite (lookup_ge_None_2 (bytes zone)).
    - by rewrite El.
    - rewrite length_bytes. lia. }
  rewrite !slice_spec by (done || lia). cbn [mbind result_bind].
  apply (result_spec_bind _ _ (fun v => Z.abs v < 100)).
  { apply (zone_number_spec _ 2). rewrite str_len_drop. pose proof (str_len_take 3 zone). lia. }
  intros hours _ Hh. apply (result_spec_bind _ _ (fun v => Z.abs v < 100)).
  { apply (zone_number_spec _ 2). rewrite str_len_drop. pose proof (str_len_take 6 zone). lia. }
  intros minutes _ Hm. destruct (_ || _); cbn [result_spec]; [done|].
  assert (sign = 1 ∨ sign = -1) as [-> | ->] by lia; lia.
Qed.

Lemma boundary_end s : is_char_boundary (str_len s) s = true.
Proof.
  unfold is_char_boundary, nth_byte. destruct (Nat.eqb_spec (str_len s) 0); [done|].
  rewrite (lookup_ge_None_2 (bytes s)) by (by rewrite length_bytes). apply Nat.eqb_refl.
Qed.

Lemma boundary_le n s : is_char_boundary n s = true → (n <= str_len s)%nat.
Proof.
  unfold is_char_boundary, nth_byte. destruct (Nat.eqb_spec n 0) as [->|]; [lia|].
  destruct (bytes s !! n) eqn:E; intros H.
  - apply lookup_lt_Some in E. rewrite length_bytes in E. lia.
  - apply Nat.eqb_eq in H. lia.
Qed.

Lemma strip_prefix_dot s rest : strip_prefix "." s = Some rest → s = String "." rest.
Proof.
  destruct s as [|c s]; [done|]. cbn [strip_prefix]. destruct (ascii_eqb "." c) eqn:E; [|done].
  apply Ascii.eqb_eq in E as <-. destruct s; by intros [= <-].
Qed.

(** The zone is what remains of the text. *)
Lemma split_fraction_spec tail :
  result_spec (split_fraction tail) (fun '(_, zone) => ∃ k, bytes zone = drop k (bytes tail))
    (fun _ => True).
Proof.
  unfold split_fraction. destruct (strip_prefix "." tail) as [rest|] eqn:E; [|by exists 0%nat].
  apply strip_prefix_dot in E as ->. destruct (str_find_by _ rest) as [e|]; [|done]. cbn [ok_or mbind result_bind result_spec].
  exists (S e). by rewrite bytes_drop.
Qed.

Lemma fraction_spec fraction : (str_len fraction <= 9)%nat →
  result_spec (E := string)
    (if str_is_empty fraction then Ok 0
     else n ← map_err (fun _ => "invalid fractional second") (parse_u 32 fraction);
          Ok (n * 10 ^ (9 - Z.of_nat (str_len fraction))))
    (fun nanos => 0 <= nanos < 10 ^ 9) (fun _ => True).
Proof.
  intros Hl. destruct (str_is_empty fraction); [cbn; lia|].
  apply (result_spec_bind _ _ (fun n => 0 <= n < 10 ^ Z.of_nat (str_len fraction))).
  - apply result_spec_map_err. eapply result_spec_mono; [apply parse_int_spec| |done].
    intros n _ [Hn Hp]. specialize (Hp eq_refl). lia.
  - intros n _ Hn. cbn [result_spec].
    replace 9 with (Z.of_nat (str_len fraction) + (9 - Z.of_nat (str_len fraction))) at 3 by lia.
    rewrite Z.pow_add_r by lia.
    assert (0 < 10 ^ (9 - Z.of_nat (str_len fraction))) by (apply Z.pow_pos_nonneg; lia). nia.
Qed.

Lemma days_from_civil_bound y m d : Z.abs y < 10000 → 1 <= m <= 12 → 1 <= d <= 31 →
  Z.abs (days_from_civil y m d) < 4400000.
Proof.
  intros Hy Hm Hd. rewrite days_from_civil_closed by done.
  assert (0 <= shifted m <= 11) by (unfold shifted; destruct (Z.ltb_spec 2 m); lia).
  assert (- 10000 <= march_year y m < 10000) by (unfold march_year; destruct (Z.leb_spec m 2); lia).
  unfold year_start, month_start. div_lia.
Qed.

Lemma parse_rfc3339_spec value : utf8_valid (bytes value) = true →
  result_spec (parse_rfc3339 value)
    (fun t => Z.abs (year t) < 10000 ∧ 0 <= nanos t < 1000000000 ∧
       Z.abs (unix_seconds t) < 400000000000) (fun _ => True).
Proof.
  intros Hv. unfold parse_rfc3339. destruct (_ <? 20)%nat; [done|].
  do 6 (eapply result_spec_bind; [apply time_field_bound|]; intros ? _ (? & ? & ?)).
  destruct (_ || _); [done|]. destruct (_ || _) eqn:Ec; [done|].
  rewrite !orb_false_iff, !negb_false_iff, !in_range_spec, Z.eqb_neq, Z.ltb_ge in Ec.
  rewrite slice_spec; [|by apply boundary_le|done|apply boundary_end].
  cbn [mbind result_bind]. rewrite str_take_all.
  eapply result_spec_bind; [apply split_fraction_spec|]. intros [fraction zone] _ [k Ez].
  rewrite bytes_drop, drop_drop in Ez.
  destruct (_ || _) eqn:Ef; [done|]. rewrite !orb_false_iff, Nat.ltb_ge in Ef.
  eapply result_spec_bind; [apply fraction_spec; tauto|]. intros n _ Hn.
  eapply result_spec_bind; [by eapply parse_zone_spec|]. intros offset _ Ho.
  cbn [result_spec year nanos unix_seconds].
  change (10 ^ Z.of_nat (4 - 0)) with 10000 in *. cbv beta in *.
  destruct Ec as (((((Hm & Hd0) & Hd) & Hh) & Hi) & Hs).
  match goal with H : false = false → 0 <= ?d, _ : ?d ≠ 0 |- _ => specialize (H eq_refl) end.
  match goal with |- context [days_from_civil ?y ?m ?d] =>
    pose proof (days_in_month_le y m); pose proof (days_from_civil_bound y m d ltac:(lia) ltac:(lia) ltac:(lia))
  end. split_and!; lia.
Qed.

(** [parse_rfc3339] is total on valid UTF-8 text: it never panics on a slice
    index, and what it returns keeps its machine types: a year of at most four
    digits, nanoseconds below a second, and a number of seconds whose computation
    stays far within [i64]. *)
Theorem parse_rfc3339_total value :
  utf8_valid (bytes value) = true →
  match parse_rfc3339 value with
  | Ok t => Z.abs (year t) < 10000 ∧ 0 <= nanos t < 1000000000 ∧
            Z.abs (unix_seconds t) < 400000000000
  | Err _ => True
  | Panic _ => False
  end.
Proof. exact (parse_rfc3339_spec value). Qed.

Lemma parse_rfc3339_total_witness :
  parse_rfc3339 "2024-02-29T23:59:59.123+02:00" = Ok (mk_Rfc3339Time 1709243999 123000000 2024) ∧
  Z.abs 1709243999 < 400000000000.
Proof.
  assert (parse_rfc3339 "2024-02-29T23:59:59.123+02:00"
    = Ok (mk_Rfc3339Time 1709243999 123000000 2024)) as E by (vm_compute; reflexivity).
  split; [exact E|].
  pose proof (parse_rfc3339_total "2024-02-29T23:59:59.123+02:00" ltac:(vm_compute; reflexivity)) as H.
  rewrite E in H. apply H.
Defined.

(** [parse_rfc3339] accepts texts that are not RFC 3339: its fields are read
    with [str::parse], which takes a leading sign, so the year [+024], the month
    [+1] and the zone offset [+-5:00] are read as 24, 1 and minus five hours. *)
Theorem rfc3339_accepts_signs :
  parse_rfc3339 "+024-+1-+1T+0:+0:+0+-5:00"
  = Ok (mk_Rfc3339Time (days_from_civil 24 1 1 * 86400 + 5 * 3600) 0 24).
Proof. vm_compute. reflexivity. Qed.
