(* ===== verification/Container.v ===== *)
(** * Containers and services: [container.rs] of ployz-pkg-api and the [Service]
    of its [service.rs]

    The record Docker keeps of a container, what is derived from it (its age,
    its health, its state in words, its ports), and a service as the containers
    that run it.  [serde_json] is a parameter. *)

From S2P Require Import Prelude BTree RustStr Wire Volume NetAddr Port ServiceSpec Time TimeProps.

Definition DOCKER_NETWORK_NAME : string := "uncloud".
Definition LABEL_SERVICE_ID : string := "uncloud.service.id".
Definition LABEL_SERVICE_NAME : string := "uncloud.service.name".
Definition LABEL_SERVICE_PORTS : string := "uncloud.service.ports".
Definition LABEL_HOOK : string := "uncloud.service.hook".

(** ** Data *)

Record HealthConfig := mk_HealthConfig {
  hc_test : GoSlice string;
  hc_interval : Z;
  hc_timeout : Z;
  hc_start_period : Z;
  hc_start_interval : Z;
  hc_retries : Z
}.

Record PortBinding := mk_PortBinding { pb_host_ip : string; pb_host_port : string }.

Section data.
(** [serde_json::Value]. *)
Context (Value : Type).

Record ContainerConfig := mk_ContainerConfig {
  cc_hostname : string;
  cc_domainname : string;
  cc_user : string;
  cc_attach_stdin : bool;
  cc_attach_stdout : bool;
  cc_attach_stderr : bool;
  cc_tty : bool;
  cc_open_stdin : bool;
  cc_stdin_once : bool;
  cc_env : GoSlice string;
  cc_cmd : GoSlice string;
  cc_image : string;
  cc_working_dir : string;
  cc_entrypoint : GoSlice string;
  cc_labels : GoMap string;
  cc_healthcheck : option HealthConfig;
  cc_extra : gmap string Value
}.

Record ContainerHealth := mk_ContainerHealth { ch_status : string; ch_extra : gmap string Value }.

Record ContainerState := mk_ContainerState {
  st_status : string;
  st_running : bool;
  st_paused : bool;
  st_restarting : bool;
  st_oom_killed : bool;
  st_dead : bool;
  st_pid : Z;
  st_exit_code : Z;
  st_error : string;
  st_started_at : string;
  st_finished_at : string;
  st_health : option ContainerHealth;
  st_extra : gmap string Value
}.

Record EndpointSettings := mk_EndpointSettings {
  es_ip_address : string;
  es_extra : gmap string Value
}.

Record NetworkSettings := mk_NetworkSettings {
  ns_ports : GoMap (GoSlice PortBinding);
  ns_networks : GoMap EndpointSettings;
  ns_extra : gmap string Value
}.

Record DockerLogConfig := mk_DockerLogConfig {
  lc_kind : string;
  lc_config : GoMap string;
  lc_extra : gmap string Value
}.

Record DockerRestartPolicy := mk_DockerRestartPolicy {
  rp_name : string;
  rp_maximum_retry_count : Z;
  rp_extra : gmap string Value
}.

Record DockerMount := mk_DockerMount {
  dm_kind : string;
  dm_source : string;
  dm_target : string;
  dm_read_only : bool;
  dm_consistency : string;
  dm_extra : gmap string Value
}.

Record ContainerMountPoint := mk_ContainerMountPoint {
  mp_kind : string;
  mp_name : string;
  mp_source : string;
  mp_destination : string;
  mp_driver : string;
  mp_mode : string;
  mp_read_write : bool;
  mp_propagation : string;
  mp_extra : gmap string Value
}.

Record DockerHostResources := mk_DockerHostResources {
  hr_nano_cpus : Z;
  hr_memory : Z;
  hr_memory_reservation : Z;
  hr_devices : GoSlice Value;
  hr_device_requests : GoSlice Value;
  hr_ulimits : GoSlice Value
}.

Record ContainerHostConfig := mk_ContainerHostConfig {
  ho_binds : GoSlice string;
  ho_init : option bool;
  ho_log_config : DockerLogConfig;
  ho_mounts : GoSlice DockerMount;
  ho_pid_mode : string;
  ho_port_bindings : GoMap (GoSlice PortBinding);
  ho_privileged : bool;
  ho_restart_policy : DockerRestartPolicy;
  ho_resources : DockerHostResources;
  ho_shm_size : Z;
  ho_sysctls : GoMap string;
  ho_cap_add : GoSlice string;
  ho_cap_drop : GoSlice string;
  ho_dns : GoSlice string;
  ho_dns_options : GoSlice string;
  ho_dns_search : GoSlice string;
  ho_extra : gmap string Value
}.

(** [Container]; the [Wire] of its deserialisation has the same fields but the cache. *)
Record Container := mk_Container {
  c_id : string;
  c_created : string;
  c_path : string;
  c_args : GoSlice string;
  c_image : string;
  c_name : string;
  c_config : option ContainerConfig;
  c_state : option ContainerState;
  c_host_config : option ContainerHostConfig;
  c_mounts : GoSlice ContainerMountPoint;
  c_network_settings : option NetworkSettings;
  c_extra : gmap string Value;
  c_created_cache : option Rfc3339Time
}.

Record ServiceContainer := mk_ServiceContainer {
  sc_container : Container;
  sc_service_spec : ServiceSpec
}.

Record MachineServiceContainer := mk_MachineServiceContainer {
  mc_machine_id : string;
  mc_machine_name : string;
  mc_container : ServiceContainer
}.

Record Service := mk_Service {
  s_id : string;
  s_name : string;
  s_mode : string;
  s_containers : list MachineServiceContainer;
  s_hook_containers : list MachineServiceContainer
}.
End data.

Arguments cc_image {Value} _.
Arguments cc_labels {Value} _.
Arguments cc_healthcheck {Value} _.
Arguments ch_status {Value} _.
Arguments st_status {Value} _.
Arguments st_running {Value} _.
Arguments st_paused {Value} _.
Arguments st_restarting {Value} _.
Arguments st_dead {Value} _.
Arguments st_exit_code {Value} _.
Arguments st_started_at {Value} _.
Arguments st_finished_at {Value} _.
Arguments st_health {Value} _.
Arguments es_ip_address {Value} _.
Arguments ns_networks {Value} _.
Arguments mk_Container {Value} _ _ _ _ _ _ _ _ _ _ _ _ _.
Arguments c_id {Value} _.
Arguments c_created {Value} _.
Arguments c_path {Value} _.
Arguments c_args {Value} _.
Arguments c_image {Value} _.
Arguments c_name {Value} _.
Arguments c_config {Value} _.
Arguments c_state {Value} _.
Arguments c_host_config {Value} _.
Arguments c_mounts {Value} _.
Arguments c_network_settings {Value} _.
Arguments c_extra {Value} _.
Arguments c_created_cache {Value} _.
Arguments mk_ServiceContainer {Value} _ _.
Arguments sc_container {Value} _.
Arguments sc_service_spec {Value} _.
Arguments mk_MachineServiceContainer {Value} _ _ _.
Arguments mc_machine_id {Value} _.
Arguments mc_container {Value} _.
Arguments mk_Service {Value} _ _ _ _ _.
Arguments s_id {Value} _.
Arguments s_containers {Value} _.
Arguments s_hook_containers {Value} _.

(** [serde_json] as the code uses it.  [json_slice] reads a value and reports
    what follows it; an error is its text, and [json_custom] the text of an error
    made from a message.  [json_container] and [json_service_spec] are the derived
    deserialisations. *)
Class JsonDecode `{JsonLib} := {
  json_display : JsonValue → string;
  json_slice : list byte → string + JsonValue * option string;
  json_keys : JsonValue → option (gset string);
  json_get : string → JsonValue → option JsonValue;
  json_custom : string → string;
  json_container : JsonValue → string + Container JsonValue;
  json_service_spec : JsonValue → string + ServiceSpec
}.

Section containers.
Context {Value : Type}.
Implicit Types self : Container Value.

(** [Container::created_time]: the answer, and the container with its cache. *)
Definition created_time {E} (self : Container Value) :
    result E (option Rfc3339Time * Container Value) :=
  if bool_decide (c_created_cache self = None) && negb (str_is_empty (c_created self)) then
    cache ← result_ok (parse_rfc3339 (c_created self));
    Ok (cache, mk_Container (c_id self) (c_created self) (c_path self) (c_args self) (c_image self)
                 (c_name self) (c_config self) (c_state self) (c_host_config self) (c_mounts self)
                 (c_network_settings self) (c_extra self) cache)
  else Ok (c_created_cache self, self).

(** [Container::has_healthcheck]. *)
Definition has_healthcheck (self : Container Value) : bool :=
  match c_config self ≫= cc_healthcheck with
  | Some healthcheck =>
      match head (slice_values (hc_test healthcheck)) with
      | Some value => negb (bool_decide (value = "NONE"))
      | None => true
      end
  | None => false
  end.

(** [Container::healthy]. *)
Definition healthy (self : Container Value) : bool :=
  match c_state self with
  | Some state =>
      st_running state && negb (st_paused state) && negb (st_restarting state) &&
      match st_health state with
      | Some health => bool_decide (ch_status health = "healthy")
      | None => true
      end
  | None => false
  end.

(** [Container::human_state] at the time [now]. *)
Definition human_state (now : Z) (self : Container Value) : result ApiError string :=
  state ← ok_or (Invalid "container state is missing") (c_state self);
  started ← map_err (fun e => Invalid ("parse started time: " +:+ e))
              (parse_rfc3339 (st_started_at state));
  finished ← map_err (fun e => Invalid ("parse finished time: " +:+ e))
               (parse_rfc3339 (st_finished_at state));
  let now := rfc3339_now now in
  let up := "Up " +:+ human_duration (seconds_since now started) in
  let ago := "(" +:+ dec (st_exit_code state) +:+ ") " +:+
             human_duration (seconds_since now finished) +:+ " ago" in
  Ok (if st_running state then
        if st_paused state then up +:+ " (Paused)"
        else if st_restarting state then "Restarting " +:+ ago
        else match st_health state with
             | Some health =>
                 up +:+ " (" +:+
                 (if bool_decide (ch_status health = "starting") then "health: starting"
                  else ch_status health) +:+ ")"
             | None => up
             end
      else if bool_decide (st_status state = "removing") then "Removal In Progress"
      else if st_dead state then "Dead"
      else if is_go_zero started then "Created"
      else if is_go_zero finished then ""
      else "Exited " +:+ ago).

(** [Container::uncloud_network_ip]. *)
Definition uncloud_network_ip (self : Container Value) : option IpAddr :=
  settings ← c_network_settings self;
  endpoint ← map_get (ns_networks settings) DOCKER_NETWORK_NAME;
  match ip_from_str (es_ip_address endpoint) with Ok ip => Some ip | _ => None end.

(** ** [ServiceContainer] *)

(** [ServiceContainer::short_id]. *)
Definition short_id (self : ServiceContainer Value) : string :=
  let id := c_id (sc_container self) in
  let id := match split_once ":" id with Some (_, suffix) => suffix | None => id end in
  default id (str_get 0 12 id).

Definition container_label (label : string) (self : ServiceContainer Value) : option string :=
  c_config (sc_container self) ≫= fun config => map_get (cc_labels config) label.

(** [service_id], [service_name], [service_mode] and [is_hook]. *)
Definition service_id (self : ServiceContainer Value) : string :=
  default "" (container_label LABEL_SERVICE_ID self).
Definition service_name (self : ServiceContainer Value) : string :=
  default "" (container_label LABEL_SERVICE_NAME self).
Definition service_mode (self : ServiceContainer Value) : string := ss_mode (sc_service_spec self).
Definition is_hook (self : ServiceContainer Value) : bool :=
  bool_decide (is_Some (container_label LABEL_HOOK self)).

(** [ServiceContainer::service_ports]: the first port that does not parse is the error. *)
Definition service_ports (self : ServiceContainer Value) : result ApiError (list PortSpec) :=
  match container_label LABEL_SERVICE_PORTS self with
  | None => Ok []
  | Some encoded =>
      if str_is_empty (str_trim encoded) then Ok []
      else foldM (fun ports port => p ← parse_port_spec (str_trim port); Ok (ports ++ [p])) []
             (str_split "," encoded)
  end.

(** The condition of [conflicting_service_ports]. *)
Definition ports_conflict (service_port port : PortSpec) : bool :=
  bool_decide (ps_mode service_port = PORT_MODE_HOST) &&
  (ps_published_port service_port =? ps_published_port port) &&
  bool_decide (ps_protocol service_port = ps_protocol port) &&
  (bool_decide (ps_host_ip service_port = None) || bool_decide (ps_host_ip port = None) ||
   bool_decide (ps_host_ip service_port = ps_host_ip port)).

(** [ServiceContainer::conflicting_service_ports]. *)
Definition conflicting_service_ports (self : ServiceContainer Value) (ports : list PortSpec) :
    result ApiError (list PortSpec) :=
  service_ports ← map_err (fun e => Invalid ("get service ports: " +:+ api_error_display e))
                    (service_ports self);
  Ok (foldl (fun conflicts port =>
        foldl (fun conflicts service_port =>
          if ports_conflict service_port port then conflicts ++ [port] else conflicts)
          conflicts service_ports)
        [] (filter (fun port => ps_mode port = PORT_MODE_HOST) ports)).

(** ** [Service] *)

(** The loop of [Service::find_container]: an exact match returns at once. *)
Fixpoint find_loop (name_or_id : string) (prefixes l : list (MachineServiceContainer Value)) :
    MachineServiceContainer Value + list (MachineServiceContainer Value) :=
  match l with
  | [] => inr prefixes
  | container :: l =>
      let c := sc_container (mc_container container) in
      if bool_decide (c_id c = name_or_id) || bool_decide (c_name c = name_or_id)
      then inl container
      else find_loop name_or_id
             (if starts_with name_or_id (c_id c) then prefixes ++ [container] else prefixes) l
  end.

(** [Service::find_container]. *)
Definition find_container (self : Service Value) (name_or_id : string) :
    result ApiError (MachineServiceContainer Value) :=
  match find_loop name_or_id [] (s_containers self ++ s_hook_containers self) with
  | inl container => Ok container
  | inr [container] => Ok container
  | inr [] => Err NotFound
  | inr _ => invalid ("multiple containers found with ID prefix '" +:+ name_or_id +:+ "'")
  end.

(** [Service::machine_ids], in the order of a [HashSet]. *)
Definition machine_ids `{HashOrder} (self : Service Value) : list string :=
  (hash_iter (foldl (fun (m : gmap string ()) c => <[mc_machine_id c := ()]> m) ∅
     (s_containers self))).*1.

(** [Service::images]. *)
Definition images (self : Service Value) : list string :=
  bset_iter (list_to_set
    (omap (fun c => cc_image <$> c_config (sc_container (mc_container c))) (s_containers self))).

(** The text of one endpoint. *)
Definition endpoint_text (port : PortSpec) : string :=
  ps_protocol port +:+ "://" +:+ ps_hostname port +:+
  (if negb (ps_published_port port =? 0) &&
      negb ((bool_decide (ps_protocol port = PROTOCOL_HTTP) && (ps_published_port port =? 80))
            || (bool_decide (ps_protocol port = PROTOCOL_HTTPS) && (ps_published_port port =? 443)))
   then ":" +:+ dec (ps_published_port port) else "") +:+
  " → :" +:+ dec (ps_container_port port).

Definition has_endpoint (port : PortSpec) : bool :=
  negb (str_is_empty (ps_hostname port)
        || negb (is_one_of (ps_protocol port) [PROTOCOL_HTTP; PROTOCOL_HTTPS])).

(** [Service::endpoints]: a container whose ports do not parse is passed over. *)
Definition endpoints {E} (self : Service Value) : result E (list string) :=
  set ← foldM (fun (acc : gset string) c =>
          ports ← result_ok (service_ports (mc_container c));
          Ok (foldl (fun acc port => if has_endpoint port then {[endpoint_text port]} ∪ acc else acc)
                acc (default [] ports)))
        ∅ (s_containers self);
  Ok (bset_iter set).
End containers.

(** ** Reading a container *)

Section json.
Context `{JsonDecode}.

Fixpoint trim_start_slashes (s : string) : string :=
  match s with
  | String c rest => if ascii_eqb c "/" then trim_start_slashes rest else s
  | EmptyString => ""
  end.

Definition base_fields : list string :=
  ["Id"; "ID"; "Created"; "Path"; "Args"; "State"; "Image"; "Name"; "HostConfig"].

(** [impl Deserialize for Container], from the value that was read. *)
Definition container_deserialize (value : JsonValue) : string + Container JsonValue :=
  match json_keys value with
  | None => inl (json_custom "container must be a JSON object")
  | Some object =>
      if negb (existsb (fun field => bool_decide (field ∈ object)) base_fields)
      then inl (json_custom ("container data is missing mandatory base fields: "
                             +:+ json_display value))
      else match json_container value with
           | inl e => inl (json_custom e)
           | inr wire =>
               inr (mk_Container (c_id wire) (c_created wire) (c_path wire) (c_args wire)
                      (c_image wire) (trim_start_slashes (c_name wire)) (c_config wire)
                      (c_state wire) (c_host_config wire) (c_mounts wire)
                      (c_network_settings wire) (delete "ServiceSpec" (c_extra wire)) None)
           end
  end.

(** [serde_json::from_slice] with a deserialisation from the value. *)
Definition json_from_slice {A} (de : JsonValue → string + A) (data : list byte) : result ApiError A :=
  match json_slice data with
  | inl e => invalid e
  | inr (value, trailing) =>
      match de value, trailing with
      | inl e, _ => invalid e
      | inr _, Some e => invalid e
      | inr a, None => Ok a
      end
  end.

(** [Container::from_json]. *)
Definition container_from_json (data : list byte) : result ApiError (Container JsonValue) :=
  json_from_slice container_deserialize data.

Definition spec_of_value (value : JsonValue) : string + ServiceSpec :=
  match json_get "ServiceSpec" value with
  | Some spec => json_service_spec spec
  | None => inr ServiceSpec_default
  end.

(** [ServiceContainer::from_json]. *)
Definition service_container_from_json (data : list byte) :
    result ApiError (ServiceContainer JsonValue) :=
  container ← container_from_json data;
  value ← json_from_slice inr data;
  service_spec ← match spec_of_value value with inl e => invalid e | inr spec => Ok spec end;
  Ok (mk_ServiceContainer container service_spec).

(** [impl Deserialize for ServiceContainer]. *)
Definition service_container_deserialize (value : JsonValue) :
    string + ServiceContainer JsonValue :=
  match container_deserialize value with
  | inl e => inl (json_custom e)
  | inr container =>
      match spec_of_value value with
      | inl e => inl (json_custom e)
      | inr service_spec => inr (mk_ServiceContainer container service_spec)
      end
  end.

(** [service_from_proto], of the fields of the message. *)
Definition service_from_proto (id name mode : string) (containers : list (string * list byte)) :
    result ApiError (Service JsonValue) :=
  containers ← foldM (fun acc source =>
      container ← map_err (fun e => Invalid ("unmarshal container: " +:+ api_error_display e))
                    (container_from_json source.2);
      Ok (acc ++ [mk_MachineServiceContainer source.1 ""
                    (mk_ServiceContainer container ServiceSpec_default)]))
    [] containers;
  Ok (mk_Service id name mode containers []).
End json.

(** [DEFAULT_HEALTH_MONITOR_PERIOD], from the environment variable. *)
Definition initial_health_monitor_period (env : option string) : Z :=
  default 5000000000 (env ≫= parse_go_duration).

(** ** What is derived from containers and services *)

Section props.
Context {Value : Type}.
Implicit Types (c : MachineServiceContainer Value) (l : list (MachineServiceContainer Value)).

(** ** Looking a container up *)

Definition container_id c : string := c_id (sc_container (mc_container c)).
Definition container_name c : string := c_name (sc_container (mc_container c)).

Definition named (key : string) c : Prop := container_id c = key ∨ container_name c = key.
Definition id_prefixed (key : string) c : Prop := starts_with key (container_id c) = true.

#[export] Instance named_dec key c : Decision (named key c).
Proof. unfold named. apply _. Defined.
#[export] Instance id_prefixed_dec key c : Decision (id_prefixed key c).
Proof. unfold id_prefixed. apply _. Defined.

Lemma named_bool key c :
  bool_decide (container_id c = key) || bool_decide (container_name c = key) = bool_decide (named key c).
Proof.
  apply eq_true_iff_eq. by rewrite orb_true_iff, !bool_decide_eq_true.
Qed.

Lemma find_loop_spec key prefixes l :
  find_loop key prefixes l =
  match List.find (fun c => bool_decide (named key c)) l with
  | Some c => inl c
  | None => inr (prefixes ++ filter (id_prefixed key) l)
  end.
Proof.
  revert prefixes. induction l as [|c l IH]; intros prefixes; cbn [find_loop List.find].
  { by rewrite filter_nil, app_nil_r. }
  change (c_id _) with (container_id c). change (c_name _) with (container_name c).
  rewrite named_bool. case_bool_decide; [done|]. rewrite IH, filter_cons. destruct (List.find _ l); [done|]. f_equal.
  destruct (decide (id_prefixed key c)) as [Hp|Hp].
  - unfold id_prefixed in Hp. by rewrite Hp, <-app_assoc.
  - unfold id_prefixed in Hp. by rewrite (not_true_is_false _ Hp).
Qed.

(** A [find] that fails is a property of the whole list. *)
Lemma find_None_iff key l :
  List.find (fun c => bool_decide (named key c)) l = None ↔ ∀ c, c ∈ l → ¬ named key c.
Proof.
  split.
  - intros E c Hc Hn. pose proof (List.find_none _ _ E c (proj1 (list_elem_of_In _ _) Hc)) as Hf.
    by rewrite bool_decide_eq_false in Hf.
  - intros Hno. destruct (List.find _ l) as [c|] eqn:E; [|done].
    apply List.find_some in E as [Hc Hb]. apply bool_decide_eq_true in Hb.
    by destruct (Hno c (proj2 (list_elem_of_In _ _) Hc)).
Qed.

Lemma find_container_spec (self : Service Value) key :
  let all := s_containers self ++ s_hook_containers self in
  match find_container self key with
  | Ok c => c ∈ all ∧ (named key c ∨
              (∀ c', c' ∈ all → ¬ named key c') ∧ filter (id_prefixed key) all = [c])
  | Err NotFound => ∀ c, c ∈ all → ¬ named key c ∧ ¬ id_prefixed key c
  | Err _ => (∀ c, c ∈ all → ¬ named key c) ∧ (2 <= length (filter (id_prefixed key) all))%nat
  | Panic _ => False
  end.
Proof.
  cbv zeta. unfold find_container. rewrite find_loop_spec. set (all := _ ++ _).
  destruct (List.find _ all) as [c|] eqn:E.
  { apply List.find_some in E as [Hc Hb]. apply bool_decide_eq_true in Hb.
    split; [by apply list_elem_of_In|by left]. }
  pose proof (proj1 (find_None_iff key all) E) as Hno. rewrite app_nil_l.
  destruct (filter (id_prefixed key) all) as [|c [|c' rest]] eqn:Ef.
  - intros c Hc. split; [by apply Hno|]. intros Hp.
    assert (c ∈ filter (id_prefixed key) all) as Hin by by apply list_elem_of_filter.
    rewrite Ef in Hin. by apply not_elem_of_nil in Hin.
  - split; [|by right]. assert (c ∈ filter (id_prefixed key) all) as Hin by (rewrite Ef; set_solver).
    by apply list_elem_of_filter in Hin as [_ Hin].
  - split; [done|cbn; lia].
Qed.

(** ** Ports in conflict *)

(** Two ports want the same socket of the host. *)
Definition same_socket (p q : PortSpec) : Prop :=
  ps_mode p = PORT_MODE_HOST ∧ ps_mode q = PORT_MODE_HOST ∧
  ps_published_port p = ps_published_port q ∧ ps_protocol p = ps_protocol q ∧
  (ps_host_ip p = None ∨ ps_host_ip q = None ∨ ps_host_ip p = ps_host_ip q).

Lemma same_socket_sym p q : same_socket p q → same_socket q p.
Proof. unfold same_socket. naive_solver. Qed.

Lemma ports_conflict_spec p q :
  ps_mode q = PORT_MODE_HOST → ports_conflict p q = true ↔ same_socket p q.
Proof.
  intros Hq. unfold ports_conflict, same_socket.
  rewrite !andb_true_iff, !orb_true_iff, Z.eqb_eq, !bool_decide_eq_true. tauto.
Qed.

Lemma foldl_conflicts (acc : list PortSpec) (port : PortSpec) (ports : list PortSpec) x :
  x ∈ foldl (fun conflicts service_port =>
        if ports_conflict service_port port then conflicts ++ [port] else conflicts) acc ports ↔
  x ∈ acc ∨ x = port ∧ ∃ p, p ∈ ports ∧ ports_conflict p port = true.
Proof.
  revert acc. induction ports as [|p ports IH]; intros acc; cbn [foldl].
  { setoid_rewrite elem_of_nil. naive_solver. }
  rewrite IH. destruct (ports_conflict p port) eqn:E.
  - rewrite elem_of_app, list_elem_of_singleton. split.
    + intros [[Ha| ->]|(-> & q & Hq & Hc)]; [by left|right; split; [done|]..].
      * exists p. split; [by left|done].
      * exists q. split; [by right|done].
    + intros [Ha|[-> _]]; left; [by left|by right].
  - split.
    + intros [Ha|(-> & q & Hq & Hc)]; [by left|]. right. split; [done|]. exists q. by split; [right|].
    + intros [Ha|(-> & q & [->|Hq]%elem_of_cons & Hc)]; [by left|congruence|]. right. eauto.
Qed.

Lemma foldl_all_conflicts (acc ports service_ports : list PortSpec) x :
  x ∈ foldl (fun conflicts port =>
        foldl (fun conflicts service_port =>
          if ports_conflict service_port port then conflicts ++ [port] else conflicts)
          conflicts service_ports) acc ports ↔
  x ∈ acc ∨ x ∈ ports ∧ ∃ p, p ∈ service_ports ∧ ports_conflict p x = true.
Proof.
  revert acc. induction ports as [|port ports IH]; intros acc; cbn [foldl].
  { rewrite elem_of_nil. tauto. }
  rewrite IH, foldl_conflicts, elem_of_cons. split.
  - intros [[Ha|(-> & Hc)]|[Hx Hc]]; [by left|right; split; [by left|done]|right; split; [by right|done]].
  - intros [Ha|[[->|Hx] Hc]]; [by left; left|by left; right|by right].
Qed.

Lemma conflicting_spec (self : ServiceContainer Value) ports conflicts service :
  service_ports self = Ok service → conflicting_service_ports self ports = Ok conflicts →
  ∀ p, p ∈ conflicts ↔ p ∈ ports ∧ ∃ q, q ∈ service ∧ same_socket q p.
Proof.
  intros Es Ec p. unfold conflicting_service_ports in Ec. rewrite Es in Ec. cbn in Ec.
  injection Ec as <-. rewrite foldl_all_conflicts, list_elem_of_filter. split.
  - intros [Hn|((Hm & Hp) & q & Hq & Hc)]; [by apply not_elem_of_nil in Hn|].
    split; [done|]. exists q. split; [done|]. by apply ports_conflict_spec.
  - intros (Hp & q & Hq & Hs). right.
    assert (ps_mode p = PORT_MODE_HOST) as Hm by apply Hs.
    split; [done|]. exists q. split; [done|]. by apply ports_conflict_spec.
Qed.
End props.

(** ** The cached creation time *)

Section cache.
Context {Value : Type}.

(** The cache holds what the text of the creation time says. *)
Definition cache_ok (self : Container Value) : Prop :=
  ∀ t, c_created_cache self = Some t → parse_rfc3339 (c_created self) = Ok t.

Definition created_answer (self : Container Value) : option Rfc3339Time :=
  match parse_rfc3339 (c_created self) with Ok t => Some t | _ => None end.

Definition set_cache (self : Container Value) (cache : option Rfc3339Time) : Container Value :=
  mk_Container (c_id self) (c_created self) (c_path self) (c_args self) (c_image self)
    (c_name self) (c_config self) (c_state self) (c_host_config self) (c_mounts self)
    (c_network_settings self) (c_extra self) cache.

Lemma created_answer_empty self : c_created self = "" → created_answer self = None.
Proof. unfold created_answer. by intros ->. Qed.

Lemma created_time_spec {E} (self : Container Value) :
  cache_ok self → utf8_valid (bytes (c_created self)) = true →
  created_time (E := E) self = Ok (created_answer self, set_cache self (created_answer self)).
Proof.
  intros Hc Hu. unfold created_time. pose proof (parse_rfc3339_spec _ Hu) as Hp.
  destruct self as [id created path args image name config state host mounts net extra cache].
  unfold cache_ok in Hc. unfold created_answer, set_cache. cbn [c_created c_created_cache] in *.
  case_bool_decide as Ecache; [|].
  - subst cache. destruct (str_is_empty created) eqn:Ee; cbn [andb negb].
    { destruct created; [|done]. done. }
    by destruct (parse_rfc3339 created).
  - destruct cache as [t|]; [|done]. by rewrite (Hc t eq_refl).
Qed.
End cache.

(** [find_container] searches the service's containers and then its hook
    containers: it returns a container whose id or name is the key, and when there
    is none the only container whose id starts with the key; it reports
    [NotFound] exactly when no container matches in either way, and otherwise
    fails only because at least two ids start with the key. *)
Theorem find_container_exact {Value} (self : Service Value) key :
  let all := s_containers self ++ s_hook_containers self in
  match find_container self key with
  | Ok c => c ∈ all ∧ (named key c ∨
              (∀ c', c' ∈ all → ¬ named key c') ∧ filter (id_prefixed key) all = [c])
  | Err NotFound => ∀ c, c ∈ all → ¬ named key c ∧ ¬ id_prefixed key c
  | Err _ => (∀ c, c ∈ all → ¬ named key c) ∧ (2 <= length (filter (id_prefixed key) all))%nat
  | Panic _ => False
  end.
Proof. exact (find_container_spec self key). Qed.

(** [conflicting_service_ports] reports a requested port exactly when the
    container already publishes the same host socket: both in host mode, with the
    same published port and protocol, and with the same host address or one of
    them on every address.  The relation is symmetric. *)
Theorem conflicting_ports_exact {Value} (self : ServiceContainer Value) ports conflicts service :
  service_ports self = Ok service → conflicting_service_ports self ports = Ok conflicts →
  (∀ p, p ∈ conflicts ↔ p ∈ ports ∧ ∃ q, q ∈ service ∧ same_socket q p) ∧
  (∀ p q, same_socket p q → same_socket q p).
Proof. intros Es Ec. split; [exact (conflicting_spec self ports conflicts service Es Ec)|exact same_socket_sym]. Qed.

(** [created_time] answers from the creation text whatever its cache holds:
    on a container whose cache is empty or holds the parsed text it never panics,
    returns the parsed time (or none when the text does not parse), changes the
    cache only, keeps it right, and answers the same again without parsing. *)
Theorem created_time_cached {Value E} (self : Container Value) :
  cache_ok self → utf8_valid (bytes (c_created self)) = true →
  let self' := set_cache self (created_answer self) in
  created_time (E := E) self = Ok (created_answer self, self') ∧ cache_ok self' ∧
  created_time (E := E) self' = Ok (created_answer self, self').
Proof.
  intros Hc Hu. cbv zeta.
  assert (cache_ok (set_cache self (created_answer self))) as Hc'.
  { intros t. unfold created_answer. cbn. destruct (parse_rfc3339 _); congruence. }
  split_and!; [exact (created_time_spec self Hc Hu)|done|].
  exact (created_time_spec (set_cache self (created_answer self)) Hc' Hu).
Qed.

(** ** Witnesses *)

Definition demo_config (ports : string) : ContainerConfig () :=
  mk_ContainerConfig () "" "" "" false false false false false false slice_default slice_default
    "nginx" "" slice_default (mk_map false {["uncloud.service.ports" := ports]}) None ∅.
Definition demo_container (id name created ports : string) : Container () :=
  mk_Container id created "" slice_default "" name (Some (demo_config ports)) None None
    slice_default None ∅ None.

Definition demo_host_port : PortSpec :=
  mk_PortSpec "" None None 8080 80 "tcp" "host".

Lemma conflicting_ports_witness :
  ∃ conflicts, conflicting_service_ports
    (mk_ServiceContainer (demo_container "a" "a" "" "8080:80/tcp@host, 53:53/udp@host")
       ServiceSpec_default) [demo_host_port] = Ok conflicts ∧ demo_host_port ∈ conflicts.
Proof.
  exists [demo_host_port]. split; [vm_compute; reflexivity|].
  apply (conflicting_ports_exact
    (mk_ServiceContainer (demo_container "a" "a" "" "8080:80/tcp@host, 53:53/udp@host")
       ServiceSpec_default) [demo_host_port] [demo_host_port]
    [demo_host_port; mk_PortSpec "" None None 53 53 "udp" "host"]).
  - vm_compute. reflexivity.
  - vm_compute. reflexivity.
  - split; [by left|]. exists demo_host_port. split; [by left|].
    unfold same_socket. cbn. tauto.
Defined.

Lemma created_time_cached_witness :
  created_answer (demo_container "a" "a" "2024-01-01T00:00:00Z" "") =
    Some (mk_Rfc3339Time 1704067200 0 2024) ∧
  cache_ok (set_cache (demo_container "a" "a" "2024-01-01T00:00:00Z" "")
              (created_answer (demo_container "a" "a" "2024-01-01T00:00:00Z" ""))).
Proof.
  split; [vm_compute; reflexivity|].
  apply (created_time_cached (E := ()) (demo_container "a" "a" "2024-01-01T00:00:00Z" "")).
  - intros t. discriminate.
  - vm_compute. reflexivity.
Defined.
