(* ===== verification/Secret.v ===== *)
(** * Secrets and identifiers: the crate ployz-internal-secret

    A secret is a byte string that may be absent; its text is hexadecimal.
    Identifiers are drawn from the operating system's random bytes, which are
    the answers of successive calls given as a list. *)

From S2P Require Import Prelude RustStr NetAddr.

(** [hex::encode]: two lower-case digits for each byte. *)
Definition lower_hex (b : byte) : string :=
  String (hex_digit (u8 b / 16)) (String (hex_digit (u8 b mod 16)) "").
Class HexLib := {
  hex_encode : list byte → string;
  hex_encode_digits : ∀ l, hex_encode l = String.concat "" (map lower_hex l)
}.

(** [hex::FromHexError] and [getrandom::Error], the latter by its text. *)
Inductive FromHexError :=
| InvalidHexCharacter (c : byte) (index : nat)
| OddLength
| InvalidStringLength.

Inductive SecretError :=
| InvalidHex (source : FromHexError)
| RandomBytes (source : string)
| RandomNumber (source : string).

(** ** [Secret] *)

Definition Secret : Type := option (list byte).

Definition as_bytes (self : Secret) : list byte := default [] self.
Definition is_nil (self : Secret) : bool := match self with None => true | Some _ => false end.
Definition secret_is_empty (self : Secret) : bool :=
  match as_bytes self with [] => true | _ => false end.
(** [PartialEq for Secret] and [Secret::equal]. *)
Definition secret_eq (self other : Secret) : bool := bool_decide (as_bytes self = as_bytes other).
Definition secret_from (bytes : list byte) : Secret := Some bytes.
(** [as_mut_bytes], used to apply [f] to the bytes in place. *)
Definition modify_bytes (f : list byte → list byte) (self : Secret) : Secret := f <$> self.

(** [decode_nibble]. *)
Definition decode_nibble (c : byte) : option Z :=
  let b := u8 c in
  if (48 <=? b) && (b <=? 57) then Some (b - 48)
  else if (97 <=? b) && (b <=? 102) then Some (b - 97 + 10)
  else if (65 <=? b) && (b <=? 70) then Some (b - 65 + 10)
  else None.

Definition invalid_hex (c : byte) (index : nat) : SecretError :=
  InvalidHex (InvalidHexCharacter c index).

(** [decode_hex]: the pairs in order, then the remainder. *)
Fixpoint decode_pairs (index : nat) (input decoded : list byte) : result SecretError (list byte) :=
  match input with
  | a :: b :: rest =>
      high ← ok_or (invalid_hex a index) (decode_nibble a);
      low ← ok_or (invalid_hex b (index + 1)) (decode_nibble b);
      decode_pairs (index + 2) rest (decoded ++ [byte_of (Z.lor (Z.shiftl high 4) low)])
  | [c] => if bool_decide (decode_nibble c = None) then Err (invalid_hex c index)
           else Err (InvalidHex OddLength)
  | [] => Ok decoded
  end.
Definition decode_hex (value : string) : result SecretError (list byte) :=
  decode_pairs 0 (map Ascii.byte_of_ascii (bytes value)) [].

(** [Secret::from_hex_string] and its [FromStr]. *)
Definition from_hex_string (value : string) : result SecretError Secret :=
  bytes ← decode_hex value; Ok (Some bytes).

Section hex.
Context `{HexLib}.

(** [Secret::to_hex_string], [Display] and [Serialize]. *)
Definition to_hex_string (self : Secret) : string := hex_encode (as_bytes self).
End hex.

(** [Deserialize for Secret], from a string or null. *)
Definition secret_deserialize (value : option string) : result SecretError Secret :=
  match value with None => Ok None | Some value => from_hex_string value end.

(** ** The text of the errors *)

(** [{:04X}]. *)
Definition upper_hex_digit (d : Z) : ascii :=
  Ascii.ascii_of_N (Z.to_N (if d <? 10 then 48 + d else 55 + d)).
Definition upper_hex4 (z : Z) : string :=
  of_bytes [upper_hex_digit (z / 4096 mod 16); upper_hex_digit (z / 256 mod 16);
            upper_hex_digit (z / 16 mod 16); upper_hex_digit (z mod 16)].

(** A character below 256 in UTF-8. *)
Definition latin1_char (z : Z) : string :=
  if z <? 128 then of_bytes [Ascii.ascii_of_N (Z.to_N z)]
  else of_bytes [Ascii.ascii_of_N (Z.to_N (192 + z / 64)); Ascii.ascii_of_N (Z.to_N (128 + z mod 64))].

(** [go_printable_byte]. *)
Definition go_printable_byte (c : byte) : option string :=
  let b := u8 c in
  if (32 <=? b) && (b <=? 126) || (161 <=? b) && (b <=? 172) || (174 <=? b) && (b <=? 255)
  then Some ("'" +:+ latin1_char b +:+ "'") else None.

(** [format_go_hex_error]. *)
Definition format_go_hex_error (source : FromHexError) : string :=
  match source with
  | OddLength | InvalidStringLength => "encoding/hex: odd length hex string"
  | InvalidHexCharacter c _ =>
      "encoding/hex: invalid byte: U+" +:+ upper_hex4 (u8 c) +:+
      match go_printable_byte c with Some quoted => " " +:+ quoted | None => "" end
  end.

(** [Display for SecretError]. *)
Definition secret_error_display (e : SecretError) : string :=
  match e with
  | InvalidHex source => "invalid hex-encoded secret: " +:+ format_go_hex_error source
  | RandomBytes source => source
  | RandomNumber source => "get random number: " +:+ source
  end.

(** ** Random identifiers *)

(** [secret::new]: one call that fills [length] bytes. *)
Definition secret_new (length : nat) (fill : nat → string + list byte) : result SecretError Secret :=
  match fill length with
  | inl e => Err (RandomBytes e)
  | inr bytes => Ok (secret_from bytes)
  end.

(** [new_id]. *)
Definition new_id `{HexLib} (fill : nat → string + list byte) : result SecretError string :=
  secret ← secret_new 16 fill; Ok (to_hex_string secret).

Definition ALPHANUMERIC : string := "abcdefghijklmnopqrstuvwxyz0123456789".

(** The character of a random byte, if it is accepted. *)
Definition accept (random : byte) : option ascii :=
  bytes ALPHANUMERIC !! Z.to_nat (Z.land (u8 random) 63).

(** [random_alphanumeric_with]: [fills] are the answers of the successive calls;
    [None] when the loop still asks for more. *)
Fixpoint sample {E} (length : nat) (fills : list (E + byte)) (value : string) : option (result E string) :=
  if (length <=? str_len value)%nat then Some (Ok value)
  else match fills with
       | [] => None
       | inl e :: _ => Some (Err e)
       | inr random :: fills =>
           sample length fills
             (match accept random with Some c => value +:+ String c "" | None => value end)
       end.
Definition random_alphanumeric_with {E} (length : nat) (fills : list (E + byte)) :
    option (result E string) := sample length fills "".

(** [random_alphanumeric]. *)
Definition random_alphanumeric (length : nat) (fills : list (string + byte)) :
    option (result SecretError string) :=
  map_err RandomNumber <$> random_alphanumeric_with length fills.

(** ** Properties *)

Section hex_properties.
Context `{HexLib}.

Lemma hex_digit_nibble z : 0 <= z < 16 →
  decode_nibble (Ascii.byte_of_ascii (hex_digit z)) = Some z.
Proof.
  intros Hz.
  assert (z = 0 ∨ z = 1 ∨ z = 2 ∨ z = 3 ∨ z = 4 ∨ z = 5 ∨ z = 6 ∨ z = 7 ∨ z = 8 ∨ z = 9
    ∨ z = 10 ∨ z = 11 ∨ z = 12 ∨ z = 13 ∨ z = 14 ∨ z = 15) as Hc by lia.
  by repeat (destruct Hc as [->|Hc]; [vm_compute; reflexivity|]); subst; vm_compute.
Qed.

Lemma nibbles_byte b :
  byte_of (Z.lor (Z.shiftl (u8 b / 16) 4) (u8 b mod 16)) = b.
Proof. destruct b; vm_compute; reflexivity. Qed.

Lemma u8_nibbles b : 0 <= u8 b / 16 < 16 ∧ 0 <= u8 b mod 16 < 16.
Proof.
  pose proof (u8_bound b). split; [|by apply Z.mod_pos_bound].
  split; [apply Z.div_pos|apply Z.div_lt_upper_bound]; lia.
Qed.

(** A byte that is a digit is the digit of its value, in either case. *)
Definition byte_lower (c : byte) : byte := Ascii.byte_of_ascii (to_lower (Ascii.ascii_of_byte c)).

Lemma decode_nibble_Some c h : decode_nibble c = Some h →
  0 <= h < 16 ∧ byte_lower c = Ascii.byte_of_ascii (hex_digit h).
Proof. destruct c; vm_compute; try discriminate; intros [= <-]; done. Qed.

Lemma join_nibbles h l : 0 <= h < 16 → 0 <= l < 16 →
  u8 (byte_of (Z.lor (Z.shiftl h 4) l)) = h * 16 + l.
Proof.
  intros Hh Hl. rewrite u8_byte_of, Z.shiftl_mul_pow2 by lia.
  assert (Z.lor (h * 2 ^ 4) l = h * 16 + l) as ->; [|rewrite Z.mod_small; lia].
  assert (Z.land (h * 2 ^ 4) l = 0) as Hdis.
  { apply Z.bits_inj'. intros k Hk. rewrite Z.land_spec, Z.bits_0.
    destruct (Z.lt_ge_cases k 4); [by rewrite Z.mul_pow2_bits_low by lia|].
    rewrite <-(Z.mod_small l (2 ^ 4)) by lia. by rewrite Z.mod_pow2_bits_high, andb_false_r by lia. }
  by rewrite <-Z.lxor_lor, <-Z.add_nocarry_lxor by done.
Qed.

(** The bytes of the text of [l]. *)
Definition hex_text (l : list byte) : list byte :=
  l ≫= fun b => [Ascii.byte_of_ascii (hex_digit (u8 b / 16)); Ascii.byte_of_ascii (hex_digit (u8 b mod 16))].

Lemma concat_cons a l : String.concat "" (a :: l) = a +:+ String.concat "" l.
Proof.
  destruct l; [|done]. symmetry. apply str_app_nil.
Qed.

Lemma hex_encode_bytes l : map Ascii.byte_of_ascii (bytes (hex_encode l)) = hex_text l.
Proof.
  rewrite hex_encode_digits. induction l as [|b l IH]; [done|]. cbn [map].
  rewrite concat_cons, bytes_app, map_app, IH. done.
Qed.

Lemma decode_pairs_text i l decoded : decode_pairs i (hex_text l) decoded = Ok (decoded ++ l).
Proof.
  revert i decoded. induction l as [|b l IH]; intros i decoded; [by rewrite app_nil_r|].
  change (hex_text (b :: l)) with (Ascii.byte_of_ascii (hex_digit (u8 b / 16))
    :: Ascii.byte_of_ascii (hex_digit (u8 b mod 16)) :: hex_text l).
  destruct (u8_nibbles b). cbn [decode_pairs]. rewrite !hex_digit_nibble by done.
  cbn [ok_or mbind result_bind]. by rewrite nibbles_byte, IH, <-app_assoc.
Qed.

(** What is accepted is the text of the bytes, in any case of the letters. *)
Lemma decode_pairs_Ok i input decoded r : decode_pairs i input decoded = Ok r →
  ∃ l, r = decoded ++ l ∧ map byte_lower input = hex_text l.
Proof.
  remember (length input) as n eqn:En. revert input En i decoded.
  induction (lt_wf n) as [n _ IH]. intros input -> i decoded. destruct input as [|a [|b rest]]; cbn [decode_pairs].
  - intros [= <-]. exists []. by rewrite app_nil_r.
  - by case_bool_decide.
  - intros (h & Eh & (l & El & Hr)%bind_Ok)%bind_Ok.
    destruct (decode_nibble a) as [h'|] eqn:Ea; [|done]. injection Eh as ->.
    destruct (decode_nibble b) as [l'|] eqn:Eb; [|done]. injection El as ->.
    apply decode_nibble_Some in Ea as [Hh La]. apply decode_nibble_Some in Eb as [Hl Lb].
    destruct (IH (length rest) ltac:(cbn; lia) rest eq_refl _ _ Hr) as (t & -> & Et).
    exists (byte_of (Z.lor (Z.shiftl h 4) l) :: t). split; [by rewrite <-app_assoc|].
    cbn [map]. rewrite Et, La, Lb. unfold hex_text at 2. cbn [mbind list_bind].
    rewrite join_nibbles by done. rewrite Z.div_add_l, Z.div_small, Z.add_0_r by lia.
    by rewrite (Z.add_comm (h * 16)), Z.mod_add, Z.mod_small by lia.
Qed.
End hex_properties.

(** ** The sampler *)

Lemma accept_alphabet random c : accept random = Some c → c ∈ bytes ALPHANUMERIC.
Proof. apply list_elem_of_lookup_2. Qed.

Lemma sample_spec {E} (length : nat) (randoms : list byte) (value : string) :
  (str_len value <= length)%nat →
  sample (E := E) length (map inr randoms) value =
  if (length <=? str_len value + List.length (omap accept randoms))%nat
  then Some (Ok (value +:+ of_bytes (take (length - str_len value) (omap accept randoms))))
  else None.
Proof.
  revert value. induction randoms as [|r randoms IH]; intros value Hv; cbn [map sample].
  - cbn [omap list_omap List.length]. rewrite Nat.add_0_r, take_nil, str_app_nil. done.
  - destruct (Nat.leb_spec length (str_len value)) as [Hle|Hlt].
    { rewrite (proj2 (Nat.leb_le _ _)) by lia. replace (length - str_len value)%nat with 0%nat by lia.
      by rewrite take_0, str_app_nil. }
    change (omap accept (r :: randoms)) with
      (match accept r with Some c => c :: omap accept randoms | None => omap accept randoms end).
    destruct (accept r) as [c|] eqn:Ec; [|by apply IH].
    assert (str_len (value +:+ String c "") = S (str_len value)) as El by (rewrite str_len_app; cbn; lia).
    rewrite IH, El by lia. cbn [List.length]. rewrite Nat.add_succ_comm.
    destruct (length <=? _)%nat; [|done].
    replace (length - str_len value)%nat with (S (length - S (str_len value))) by lia.
    by rewrite <-str_app_assoc.
Qed.

Lemma sample_prefix {E} length (fills fills' : list (E + byte)) value r :
  sample length fills value = Some r → sample length (fills ++ fills') value = Some r.
Proof.
  revert value. induction fills as [|[e|b] fills IH]; intros value; cbn [sample app].
  - destruct fills'; cbn [sample]; by destruct (length <=? _)%nat.
  - done.
  - destruct (length <=? _)%nat; [done|]. apply IH.
Qed.

(** hexadecimal text is a faithful encoding of secrets: parsing the text of a
    secret gives its bytes back, and whatever [from_hex_string] accepts is, with
    its letters in lower case, the text of the bytes it returns (so the length is
    even and every character a digit); it never panics. *)
Theorem hex_text_exact `{HexLib} :
  (∀ self, from_hex_string (to_hex_string self) = Ok (Some (as_bytes self))) ∧
  (∀ value l, from_hex_string value = Ok (Some l) →
     map byte_lower (map Ascii.byte_of_ascii (bytes value))
     = map Ascii.byte_of_ascii (bytes (to_hex_string (Some l)))) ∧
  (∀ value m, from_hex_string value ≠ Panic m).
Proof.
  split_and!.
  - intros self. unfold from_hex_string, decode_hex, to_hex_string.
    by rewrite hex_encode_bytes, decode_pairs_text.
  - intros value l (l' & (t & -> & Et)%decode_pairs_Ok & [= ->])%bind_Ok.
    unfold to_hex_string. by rewrite hex_encode_bytes, Et.
  - intros value m. unfold from_hex_string, decode_hex.
    generalize (map Ascii.byte_of_ascii (bytes value)) as input, (@nil byte) as acc, 0%nat as i.
    intros input. remember (List.length input) as n eqn:En. revert input En.
    induction (lt_wf n) as [n _ IH]. intros input -> acc i.
    destruct input as [|a [|b rest]]; cbn [decode_pairs]; [done|by case_bool_decide|].
    destruct (decode_nibble a); [|done]. destruct (decode_nibble b); [|done].
    apply (IH (List.length rest) ltac:(cbn; lia) rest eq_refl).
Qed.

Definition reference_hex : HexLib.
Proof.
  refine {| hex_encode l := String.concat "" (map lower_hex l) |}. reflexivity.
Defined.

Lemma hex_text_exact_witness :
  from_hex_string "00ff10" = Ok (Some (map byte_of [0; 255; 16])) ∧
  from_hex_string (@to_hex_string reference_hex (Some (map byte_of [0; 255; 16])))
  = Ok (Some (map byte_of [0; 255; 16])).
Proof.
  split; [reflexivity|]. apply (proj1 (@hex_text_exact reference_hex)).
Defined.

(** [random_alphanumeric] draws each character uniformly and independently:
    of the 256 values of a random byte exactly 4 give each character of the
    alphabet and the other 112 are skipped, the text is the characters of the first
    accepted bytes, and it is returned as soon as enough of them have been
    drawn, whatever follows. *)
Theorem random_alphanumeric_uniform {E} (length : nat) :
  (∀ c, c ∈ bytes ALPHANUMERIC →
     List.length (filter (fun z => accept (byte_of z) = Some c) (seqZ 0 256)) = 4%nat) ∧
  (∀ (randoms : list byte) fills,
     (length <= List.length (omap accept randoms))%nat →
     random_alphanumeric_with (E := E) length (map inr randoms ++ fills)
     = Some (Ok (of_bytes (take length (omap accept randoms))))) ∧
  (∀ randoms : list byte, (List.length (omap accept randoms) < length)%nat →
     random_alphanumeric_with (E := E) length (map inr randoms) = None) ∧
  (∀ random c, accept random = Some c → c ∈ bytes ALPHANUMERIC).
Proof.
  split_and!.
  - apply Forall_forall. apply (bool_decide_unpack _). vm_compute. done.
  - intros randoms fills Hl. apply sample_prefix. rewrite sample_spec by (cbn; lia).
    change (str_len "") with 0%nat. rewrite Nat.add_0_l, Nat.sub_0_r.
    by rewrite (proj2 (Nat.leb_le _ _)).
  - intros randoms Hl. unfold random_alphanumeric_with. rewrite sample_spec by (cbn; lia).
    change (str_len "") with 0%nat. by rewrite (proj2 (Nat.leb_gt _ _)) by lia.
  - exact accept_alphabet.
Qed.
