(* ===== verification/MachineName.v ===== *)
(** * Names of machines: [machine.rs] of ployz-internal-machine-cluster and
    [ip.rs] of ployz-internal-machine-network

    A machine's id, its default name (from its host name, made distinct from the
    names in use), its address within its subnet and its management address. *)

From S2P Require Import Prelude RustStr NetAddr Ipam Secret.

(** ** Characters *)

(** The characters of a [str], as their bytes. *)
Fixpoint chars_aux (fuel : nat) (l : list ascii) : list (list ascii) :=
  match fuel, l with
  | S fuel, _ :: _ => take (utf8_char l).1 l :: chars_aux fuel (drop (utf8_char l).1 l)
  | _, _ => []
  end.
Definition str_chars (s : string) : list (list ascii) := chars_aux (str_len s) (bytes s).

(** The first character of [char::to_lowercase]: the capital letters of ASCII, and
    of the others the two whose lower case is in ASCII, the dotted capital I
    (U+0130) and the Kelvin sign (U+212A). *)
Definition lower_ascii (c : list ascii) : option ascii :=
  match c with
  | [a] => Some (to_lower a)
  | [a; b] => if (byte_val a =? 196) && (byte_val b =? 176) then Some "i"%char else None
  | [a; b; d] =>
      if (byte_val a =? 226) && (byte_val b =? 132) && (byte_val d =? 170) then Some "k"%char else None
  | _ => None
  end.

Definition is_name_char (c : ascii) : bool :=
  is_ascii_lowercase c || is_ascii_digit c || ascii_eqb c "-" || ascii_eqb c "_".

(** The closure of [machine_name_from_hostname]. *)
Definition sanitize_char (c : list ascii) : ascii :=
  match lower_ascii c with
  | Some a => if is_name_char a then a else "-"%char
  | None => "-"%char
  end.

Fixpoint trim_start_dashes (l : list ascii) : list ascii :=
  match l with
  | c :: rest => if ascii_eqb c "-" then trim_start_dashes rest else l
  | [] => []
  end.
(** [trim_matches('-')]. *)
Definition trim_dashes (l : list ascii) : list ascii :=
  rev (trim_start_dashes (rev (trim_start_dashes l))).

(** [machine_name_from_hostname]. *)
Definition machine_name_from_hostname (hostname : string) : string :=
  let first_label := match split_once "." hostname with Some (label, _) => label | None => hostname end in
  of_bytes (trim_dashes (map sanitize_char (str_chars (str_trim first_label)))).

(** ** Ids and default names *)

(** [Display for MachineNameError]. *)
Definition machine_name_error_display (e : SecretError) : string :=
  "generate random suffix: " +:+ secret_error_display e.

(** [new_machine_id]. *)
Definition new_machine_id `{HexLib} (fill : nat → string + list byte) : result SecretError string :=
  new_id fill.

(** [new_random_machine_name]; [None] while random bytes are still being drawn. *)
Definition new_random_machine_name (fills : list (string + byte)) : option (result SecretError string) :=
  (fun suffix : result SecretError string =>
     s ← suffix; Ok ("machine-" +:+ s)) <$> random_alphanumeric 4 fills.

Definition contains_name (existing : list string) (candidate : string) : bool :=
  existsb (fun name => bool_decide (name = candidate)) existing.

Definition candidate_name (name : string) (suffix : nat) : string :=
  name +:+ "-" +:+ dec (Z.of_nat suffix).

(** The loop over the suffixes; one more than the names in use is enough. *)
Fixpoint suffix_loop (fuel suffix : nat) (name : string) (existing : list string) : option string :=
  match fuel with
  | O => None
  | S fuel =>
      let candidate := candidate_name name suffix in
      if contains_name existing candidate then suffix_loop fuel (S suffix) name existing
      else Some candidate
  end.

(** [default_machine_name]. *)
Definition default_machine_name (hostname : string) (existing : list string)
    (fills : list (string + byte)) : option (result SecretError string) :=
  let name := machine_name_from_hostname hostname in
  name ← (if str_is_empty name then new_random_machine_name fills else Some (Ok name));
  match name with
  | Ok name =>
      if negb (contains_name existing name) then Some (Ok name)
      else Ok <$> suffix_loop (S (length existing)) 1 name existing
  | Err e => Some (Err e)
  | Panic m => Some (Panic m)
  end.

(** ** Addresses of a machine *)

(** [machine_ip]: the address after [subnet.trunc().network()]. *)
Definition machine_ip (subnet : IpPrefix) : option IpAddr :=
  let network := network_value subnet in
  match address subnet with
  | V4 _ => if network + 1 <=? u_max 32 then Some (V4 (network + 1)) else None
  | V6 _ => if network + 1 <=? u_max 128 then Some (V6 (network + 1)) else None
  end.

(** [management_ip]: [fdcc::/16] and the first 14 bytes of the public key. *)
Definition management_ip (public_key : Secret) : result string Z :=
  let key := as_bytes public_key in
  if (length key <? 14)%nat then Err "derive management IP: public key is shorter than 14 bytes"
  else Ok (be_value ([byte_of 253; byte_of 204] ++ take 14 key)).

(** ** Properties *)

Lemma contains_name_spec existing c : contains_name existing c = true ↔ c ∈ existing.
Proof.
  unfold contains_name. rewrite existsb_exists, list_elem_of_In. split.
  - intros (x & Hx & E%bool_decide_eq_true). by subst.
  - intros Hc. exists c. by rewrite bool_decide_eq_true.
Qed.

Lemma dec_inj a b : 0 <= a → 0 <= b → dec a = dec b → a = b.
Proof.
  intros Ha Hb E.
  pose proof (Z.log2_up_nonneg (a + b + 2)) as Hw.
  assert (a <= u_max (Z.log2_up (a + b + 2)) ∧ b <= u_max (Z.log2_up (a + b + 2))) as [Hau Hbu].
  { pose proof (Z.log2_up_spec (a + b + 2) ltac:(lia)). unfold u_max. lia. }
  pose proof (parse_u_dec (Z.log2_up (a + b + 2)) a ltac:(lia)) as Ea.
  rewrite E, parse_u_dec in Ea by lia. congruence.
Qed.

Lemma str_app_inj p a b : p +:+ a = p +:+ b → a = b.
Proof. induction p as [|c p IH]; [done|]. intros E. injection E as E. by apply IH. Qed.

Lemma candidate_inj name i j : candidate_name name i = candidate_name name j → i = j.
Proof.
  unfold candidate_name. intros E%str_app_inj%str_app_inj%dec_inj; lia.
Qed.

(** The loop returns the first candidate that is free. *)
Lemma suffix_loop_Some fuel k name existing c :
  suffix_loop fuel k name existing = Some c →
  ∃ j, (k <= j)%nat ∧ c = candidate_name name j ∧ c ∉ existing ∧
    ∀ i, (k <= i < j)%nat → candidate_name name i ∈ existing.
Proof.
  revert k. induction fuel as [|fuel IH]; intros k; [done|]. cbn [suffix_loop]. cbv zeta.
  destruct (contains_name existing (candidate_name name k)) eqn:Ec.
  - apply contains_name_spec in Ec. intros (j & Hj & -> & Hf & Hlt)%IH.
    exists j. split_and!; [lia|done|done|]. intros i Hi.
    destruct (decide (i = k)) as [->|]; [done|]. apply Hlt. lia.
  - intros [= <-]. exists k. split_and!; [lia|done| |lia].
    intros Hin%contains_name_spec. congruence.
Qed.

Lemma suffix_loop_None fuel k name existing :
  suffix_loop fuel k name existing = None →
  ∀ i, (k <= i < k + fuel)%nat → candidate_name name i ∈ existing.
Proof.
  revert k. induction fuel as [|fuel IH]; intros k; [lia|]. cbn [suffix_loop]. cbv zeta.
  destruct (contains_name existing (candidate_name name k)) eqn:Ec; [|done].
  apply contains_name_spec in Ec. intros Hn i Hi.
  destruct (decide (i = k)) as [->|]; [done|]. apply (IH _ Hn). lia.
Qed.

(** Among more candidates than names in use one is free. *)
Lemma suffix_loop_total k name existing :
  is_Some (suffix_loop (S (length existing)) k name existing).
Proof.
  destruct (suffix_loop _ _ _ _) eqn:E; [done|]. exfalso.
  pose proof (suffix_loop_None _ _ _ _ E) as Hall.
  assert (NoDup (candidate_name name <$> seq k (S (length existing)))) as Hnd.
  { apply NoDup_fmap_2; [intros ?? ?; by eapply candidate_inj|apply NoDup_seq]. }
  assert (candidate_name name <$> seq k (S (length existing)) ⊆+ existing) as Hsub.
  { apply NoDup_submseteq; [done|]. intros c (i & -> & Hi)%list_elem_of_fmap.
    apply elem_of_seq in Hi. apply Hall. lia. }
  apply submseteq_length in Hsub. rewrite length_fmap, length_seq in Hsub. lia.
Qed.

(** the default name of a machine: when the host name has a usable label, the
    search always ends with a name that is not in use, the label itself if it is
    free and otherwise the label with the least free numeric suffix from 1 on. *)
Theorem default_machine_name_fresh hostname existing fills :
  let base := machine_name_from_hostname hostname in
  str_is_empty base = false →
  ∃ name, default_machine_name hostname existing fills = Some (Ok name) ∧ name ∉ existing ∧
    (base ∉ existing → name = base) ∧
    (base ∈ existing → ∃ k, (1 <= k)%nat ∧ name = candidate_name base k ∧
       ∀ i, (1 <= i < k)%nat → candidate_name base i ∈ existing).
Proof.
  cbv zeta. intros Hb. unfold default_machine_name. cbv zeta. rewrite Hb. cbn [mbind option_bind].
  destruct (contains_name existing _) eqn:Ec; cbn [negb].
  - apply contains_name_spec in Ec.
    destruct (suffix_loop_total 1 (machine_name_from_hostname hostname) existing) as [c E].
    rewrite E. pose proof (suffix_loop_Some _ _ _ _ _ E) as (k & Hk & -> & Hf & Hlt).
    exists (candidate_name (machine_name_from_hostname hostname) k).
    split_and!; [done|done|done|]. eauto.
  - assert (machine_name_from_hostname hostname ∉ existing) as Hn.
    { intros H%contains_name_spec. congruence. }
    eexists. split_and!; [done|done|done|done].
Qed.

Lemma default_machine_name_fresh_witness :
  ∃ name, default_machine_name "Web.example.com" ["web"; "web-1"; "web-3"] [] = Some (Ok name) ∧
    name ∉ ["web"; "web-1"; "web-3"].
Proof.
  destruct (default_machine_name_fresh "Web.example.com" ["web"; "web-1"; "web-3"] []
    ltac:(vm_compute; reflexivity)) as (name & E & Hn & _). exists name. split; [exact E|exact Hn].
Defined.

Lemma sanitize_ok c : is_name_char (sanitize_char c) = true.
Proof. unfold sanitize_char. destruct (lower_ascii c); [|done]. by destruct (is_name_char a) eqn:E. Qed.

Lemma trim_start_dashes_suffix l : ∃ p, l = p ++ trim_start_dashes l.
Proof.
  induction l as [|c l [p E]]; [by exists []|]. cbn. destruct (ascii_eqb c "-"); [|by exists []].
  exists (c :: p). cbn. by rewrite <-E.
Qed.

Lemma trim_start_dashes_head l c : head (trim_start_dashes l) = Some c → c ≠ "-"%char.
Proof.
  induction l as [|d l IH]; [done|]. cbn. destruct (ascii_eqb d "-") eqn:E; [done|].
  intros [= <-] ->. by rewrite Ascii.eqb_refl in E.
Qed.

Lemma bytes_of_bytes l : bytes (of_bytes l) = l.
Proof. apply String.list_ascii_of_string_of_list_ascii. Qed.

Lemma trim_dashes_spec l :
  (∀ c, c ∈ trim_dashes l → c ∈ l) ∧
  (∀ c, head (trim_dashes l) = Some c → c ≠ "-"%char) ∧
  (∀ c, last (trim_dashes l) = Some c → c ≠ "-"%char).
Proof.
  unfold trim_dashes. destruct (trim_start_dashes_suffix l) as [p Ep].
  destruct (trim_start_dashes_suffix (rev (trim_start_dashes l))) as [q Eq].
  set (m := trim_start_dashes l) in *. set (r := trim_start_dashes (rev m)) in *.
  assert (m = rev r ++ rev q) as Em by (rewrite <-rev_app_distr, <-Eq; by rewrite rev_involutive).
  split_and!.
  - intros c Hc. rewrite Ep, Em. set_solver.
  - intros c Hc. apply (trim_start_dashes_head l). fold m. rewrite Em.
    destruct (rev r); [done|]. done.
  - intros c Hc. apply (trim_start_dashes_head (rev m)). fold r.
    destruct r as [|x r']; [done|]. cbn in Hc. rewrite last_snoc in Hc. done.
Qed.

(** A name taken from a host name has only lower-case letters, digits, dashes
    and underscores, and neither begins nor ends with a dash. *)
Theorem hostname_name_valid hostname :
  let name := bytes (machine_name_from_hostname hostname) in
  (∀ c, c ∈ name → is_name_char c = true) ∧
  head name ≠ Some "-"%char ∧ last name ≠ Some "-"%char.
Proof.
  cbv zeta. unfold machine_name_from_hostname. cbv zeta. rewrite bytes_of_bytes.
  set (l := map sanitize_char _). destruct (trim_dashes_spec l) as (Hin & Hh & Hl).
  split_and!.
  - intros c Hc. apply Hin in Hc. apply list_elem_of_In, in_map_iff in Hc as (x & <- & _).
    apply sanitize_ok.
  - intros E. by apply Hh in E.
  - intros E. by apply Hl in E.
Qed.

(** ** Addresses *)

Definition fdcc_prefix : IpPrefix := mk_IpPrefix (V6 ((253 * 256 + 204) * 2 ^ 112)) 16.

Lemma machine_ip_in_block p : prefix_wf p → bits p < bit_len (address p) →
  ∃ a, machine_ip p = Some a ∧
       ip_wf a ∧ in_block p a ∧ to_u128 a = block_start p + 1.
Proof.
  intros Hp Hb. pose proof (block_start_le p Hp) as Hs. pose proof (block_end_le p Hp) as He.
  assert (2 <= block_size p) as H2.
  { unfold block_size. change 2 with (2 ^ 1) at 1. apply Z.pow_le_mono_r; lia. }
  unfold block_end in He. exists (ip_like (address p) (block_start p + 1)).
  rewrite ip_like_value. split_and!; [|apply ip_like_wf; lia| |done].
  - unfold machine_ip. rewrite (network_value_start p Hp).
    destruct (address p); cbn in He |- *; by rewrite (proj2 (Z.leb_le _ _)) by (unfold u_max; lia).
  - split; [apply ip_like_family|]. rewrite ip_like_value. unfold block_end. lia.
Qed.

Lemma management_ip_Ok key a : management_ip key = Ok a →
  length (take 14 (as_bytes key)) = 14%nat ∧
  a = (253 * 256 + 204) * 2 ^ 112 + be_value (take 14 (as_bytes key)).
Proof.
  unfold management_ip. cbv zeta. destruct (Nat.ltb_spec (length (as_bytes key)) 14); [done|].
  set (t := take 14 (as_bytes key)). intros E. injection E as E.
  change (be_value ([byte_of 253; byte_of 204] ++ t) = a) in E.
  assert (length t = 14%nat) as Hl by (unfold t; rewrite length_take; lia).
  split; [done|]. rewrite <-E, be_value_app, be_fold_shift, Hl. done.
Qed.

Lemma management_ip_spec key a : management_ip key = Ok a →
  ip_wf (V6 a) ∧ in_block fdcc_prefix (V6 a).
Proof.
  intros [Hl ->]%management_ip_Ok. pose proof (be_value_bound (take 14 (as_bytes key))) as Hb.
  rewrite Hl in Hb. change (256 ^ Z.of_nat 14) with (2 ^ 112) in Hb.
  unfold ip_wf, in_block, block_end, block_start, block_size. cbn [address bits fdcc_prefix to_u128 bit_len].
  split; [lia|]. split; [done|]. rewrite Z.div_mul by lia. lia.
Qed.

Lemma management_ip_inj key key' a : management_ip key = Ok a → management_ip key' = Ok a →
  take 14 (as_bytes key) = take 14 (as_bytes key').
Proof.
  intros [Hl E]%management_ip_Ok [Hl' E']%management_ip_Ok.
  assert (be_value (take 14 (as_bytes key)) = be_value (take 14 (as_bytes key'))) as Ev by lia.
  by rewrite <-(be_octets_value (take 14 (as_bytes key)) 14 Hl), Ev, be_octets_value.
Qed.

(** the addresses of a machine: the first usable address of a subnet with more
    than one address exists and lies in the subnet without being its network
    address, and the management address of a public key of at least 14 bytes lies
    in [fdcc::/16] and determines the first 14 bytes of the key. *)
Theorem machine_addresses_exact :
  (∀ p, prefix_wf p → bits p < bit_len (address p) →
     ∃ a, machine_ip p = Some a ∧
          ip_wf a ∧ in_block p a ∧ to_u128 a = block_start p + 1) ∧
  (∀ key a, management_ip key = Ok a → ip_wf (V6 a) ∧ in_block fdcc_prefix (V6 a)) ∧
  (∀ key key' a, management_ip key = Ok a → management_ip key' = Ok a →
     take 14 (as_bytes key) = take 14 (as_bytes key')).
Proof.
  split_and!; [exact machine_ip_in_block|exact management_ip_spec|exact management_ip_inj].
Qed.
