(* ===== verification/GoQuote.v ===== *)
(** * Quoting of names: [go_printable.rs] and [go_quote] of
    ployz-internal-machine-cluster

    The printable characters of Go's Unicode tables, searched by bisection, and the
    quoting of a string in an error message. *)

From S2P Require Import Prelude RustStr NetAddr Secret MachineName.

Definition PRINT_16 : list Z := [
  32; 126; 161; 887; 890; 895; 900; 1366; 1369; 1418; 1421; 1479; 1488; 1514; 1519; 1524; 1542;
  1805; 1808; 1866; 1869; 1969; 1984; 2042; 2045; 2093; 2096; 2139; 2142; 2154; 2160; 2190; 2200;
  2444; 2447; 2448; 2451; 2482; 2486; 2489; 2492; 2500; 2503; 2504; 2507; 2510; 2519; 2519; 2524;
  2531; 2534; 2558; 2561; 2570; 2575; 2576; 2579; 2617; 2620; 2626; 2631; 2632; 2635; 2637; 2641;
  2641; 2649; 2654; 2662; 2678; 2689; 2745; 2748; 2765; 2768; 2768; 2784; 2787; 2790; 2801; 2809;
  2828; 2831; 2832; 2835; 2873; 2876; 2884; 2887; 2888; 2891; 2893; 2901; 2903; 2908; 2915; 2918;
  2935; 2946; 2954; 2958; 2965; 2969; 2975; 2979; 2980; 2984; 2986; 2990; 3001; 3006; 3010; 3014;
  3021; 3024; 3024; 3031; 3031; 3046; 3066; 3072; 3129; 3132; 3149; 3157; 3162; 3165; 3165; 3168;
  3171; 3174; 3183; 3191; 3257; 3260; 3277; 3285; 3286; 3293; 3299; 3302; 3315; 3328; 3407; 3412;
  3427; 3430; 3478; 3482; 3517; 3520; 3526; 3530; 3530; 3535; 3551; 3558; 3567; 3570; 3572; 3585;
  3642; 3647; 3675; 3713; 3773; 3776; 3801; 3804; 3807; 3840; 3948; 3953; 4058; 4096; 4295; 4301;
  4301; 4304; 4685; 4688; 4701; 4704; 4749; 4752; 4789; 4792; 4805; 4808; 4885; 4888; 4954; 4957;
  4988; 4992; 5017; 5024; 5109; 5112; 5117; 5120; 5788; 5792; 5880; 5888; 5909; 5919; 5942; 5952;
  5971; 5984; 6003; 6016; 6109; 6112; 6121; 6128; 6137; 6144; 6169; 6176; 6264; 6272; 6314; 6320;
  6389; 6400; 6443; 6448; 6459; 6464; 6464; 6468; 6509; 6512; 6516; 6528; 6571; 6576; 6601; 6608;
  6618; 6622; 6683; 6686; 6780; 6783; 6793; 6800; 6809; 6816; 6829; 6832; 6862; 6912; 6988; 6992;
  7155; 7164; 7223; 7227; 7241; 7245; 7304; 7312; 7354; 7357; 7367; 7376; 7418; 7424; 7957; 7960;
  7965; 7968; 8005; 8008; 8013; 8016; 8061; 8064; 8147; 8150; 8175; 8178; 8190; 8208; 8231; 8240;
  8286; 8304; 8305; 8308; 8348; 8352; 8384; 8400; 8432; 8448; 8587; 8592; 9254; 9280; 9290; 9312;
  11123; 11126; 11507; 11513; 11559; 11565; 11565; 11568; 11623; 11631; 11632; 11647; 11670;
  11680; 11869; 11904; 12019; 12032; 12245; 12272; 12283; 12289; 12438; 12441; 12543; 12549;
  12771; 12784; 42124; 42128; 42182; 42192; 42539; 42560; 42743; 42752; 42954; 42960; 42969;
  42994; 43052; 43056; 43065; 43072; 43127; 43136; 43205; 43214; 43225; 43232; 43347; 43359;
  43388; 43392; 43481; 43486; 43574; 43584; 43597; 43600; 43609; 43612; 43714; 43739; 43766;
  43777; 43782; 43785; 43790; 43793; 43798; 43808; 43883; 43888; 44013; 44016; 44025; 44032;
  55203; 55216; 55238; 55243; 55291; 63744; 64109; 64112; 64217; 64256; 64262; 64275; 64279;
  64285; 64450; 64467; 64911; 64914; 64967; 64975; 64975; 65008; 65049; 65056; 65131; 65136;
  65276; 65281; 65470; 65474; 65479; 65482; 65487; 65490; 65495; 65498; 65500; 65504; 65518;
  65532; 65533].

Definition NOT_PRINT_16 : list Z := [
  173; 907; 909; 930; 1328; 1424; 1564; 1757; 2111; 2143; 2274; 2436; 2473; 2481; 2526; 2564;
  2601; 2609; 2612; 2615; 2621; 2653; 2692; 2702; 2706; 2729; 2737; 2740; 2758; 2762; 2816; 2820;
  2857; 2865; 2868; 2910; 2948; 2961; 2971; 2973; 3017; 3085; 3089; 3113; 3141; 3145; 3159; 3213;
  3217; 3241; 3252; 3269; 3273; 3295; 3312; 3341; 3345; 3397; 3401; 3456; 3460; 3506; 3516; 3541;
  3543; 3715; 3717; 3723; 3748; 3750; 3781; 3783; 3791; 3912; 3992; 4029; 4045; 4294; 4681; 4695;
  4697; 4745; 4785; 4799; 4801; 4823; 4881; 5760; 5997; 6001; 6158; 6431; 6751; 7039; 8024; 8026;
  8028; 8030; 8117; 8133; 8156; 8181; 8335; 11158; 11558; 11687; 11695; 11703; 11711; 11719;
  11727; 11735; 11743; 11930; 12352; 12592; 12687; 12831; 42962; 42964; 43470; 43519; 43815;
  43823; 64311; 64317; 64319; 64322; 64325; 65107; 65127; 65141; 65511].

Definition PRINT_32 : list Z := [
  65536; 65613; 65616; 65629; 65664; 65786; 65792; 65794; 65799; 65843; 65847; 65948; 65952;
  65952; 66000; 66045; 66176; 66204; 66208; 66256; 66272; 66299; 66304; 66339; 66349; 66378;
  66384; 66426; 66432; 66499; 66504; 66517; 66560; 66717; 66720; 66729; 66736; 66771; 66776;
  66811; 66816; 66855; 66864; 66915; 66927; 67004; 67072; 67382; 67392; 67413; 67424; 67431;
  67456; 67514; 67584; 67589; 67592; 67640; 67644; 67644; 67647; 67742; 67751; 67759; 67808;
  67829; 67835; 67867; 67871; 67897; 67903; 67903; 67968; 68023; 68028; 68047; 68050; 68102;
  68108; 68149; 68152; 68154; 68159; 68168; 68176; 68184; 68192; 68255; 68288; 68326; 68331;
  68342; 68352; 68405; 68409; 68437; 68440; 68466; 68472; 68497; 68505; 68508; 68521; 68527;
  68608; 68680; 68736; 68786; 68800; 68850; 68858; 68903; 68912; 68921; 69216; 69293; 69296;
  69297; 69373; 69415; 69424; 69465; 69488; 69513; 69552; 69579; 69600; 69622; 69632; 69709;
  69714; 69749; 69759; 69826; 69840; 69864; 69872; 69881; 69888; 69959; 69968; 70006; 70016;
  70132; 70144; 70209; 70272; 70313; 70320; 70378; 70384; 70393; 70400; 70412; 70415; 70416;
  70419; 70468; 70471; 70472; 70475; 70477; 70480; 70480; 70487; 70487; 70493; 70499; 70502;
  70508; 70512; 70516; 70656; 70753; 70784; 70855; 70864; 70873; 71040; 71093; 71096; 71133;
  71168; 71236; 71248; 71257; 71264; 71276; 71296; 71353; 71360; 71369; 71424; 71450; 71453;
  71467; 71472; 71494; 71680; 71739; 71840; 71922; 71935; 71942; 71945; 71945; 71948; 71992;
  71995; 72006; 72016; 72025; 72096; 72103; 72106; 72151; 72154; 72164; 72192; 72263; 72272;
  72354; 72368; 72440; 72448; 72457; 72704; 72773; 72784; 72812; 72816; 72847; 72850; 72886;
  72960; 73014; 73018; 73031; 73040; 73049; 73056; 73112; 73120; 73129; 73440; 73464; 73472;
  73530; 73534; 73561; 73648; 73648; 73664; 73713; 73727; 74649; 74752; 74868; 74880; 75075;
  77712; 77810; 77824; 78895; 78912; 78933; 82944; 83526; 92160; 92728; 92736; 92777; 92782;
  92873; 92880; 92909; 92912; 92917; 92928; 92997; 93008; 93047; 93053; 93071; 93760; 93850;
  93952; 94026; 94031; 94087; 94095; 94111; 94176; 94180; 94192; 94193; 94208; 100343; 100352;
  101589; 101632; 101640; 110576; 110882; 110898; 110898; 110928; 110930; 110933; 110933; 110948;
  110951; 110960; 111355; 113664; 113770; 113776; 113788; 113792; 113800; 113808; 113817; 113820;
  113823; 118528; 118573; 118576; 118598; 118608; 118723; 118784; 119029; 119040; 119078; 119081;
  119154; 119163; 119274; 119296; 119365; 119488; 119507; 119520; 119539; 119552; 119638; 119648;
  119672; 119808; 119967; 119970; 119970; 119973; 119974; 119977; 120074; 120077; 120134; 120138;
  120485; 120488; 120779; 120782; 121483; 121499; 121519; 122624; 122654; 122661; 122666; 122880;
  122904; 122907; 122922; 122928; 122989; 123023; 123023; 123136; 123180; 123184; 123197; 123200;
  123209; 123214; 123215; 123536; 123566; 123584; 123641; 123647; 123647; 124112; 124153; 124896;
  125124; 125127; 125142; 125184; 125259; 125264; 125273; 125278; 125279; 126065; 126132; 126209;
  126269; 126464; 126500; 126503; 126523; 126530; 126530; 126535; 126548; 126551; 126564; 126567;
  126619; 126625; 126651; 126704; 126705; 126976; 127019; 127024; 127123; 127136; 127150; 127153;
  127221; 127232; 127405; 127462; 127490; 127504; 127547; 127552; 127560; 127568; 127569; 127584;
  127589; 127744; 128727; 128732; 128748; 128752; 128764; 128768; 128886; 128891; 128985; 128992;
  129003; 129008; 129008; 129024; 129035; 129040; 129095; 129104; 129113; 129120; 129159; 129168;
  129197; 129200; 129201; 129280; 129619; 129632; 129645; 129648; 129660; 129664; 129672; 129680;
  129733; 129742; 129755; 129760; 129768; 129776; 129784; 129792; 129994; 130032; 130041; 131072;
  173791; 173824; 177977; 177984; 178205; 178208; 183969; 183984; 191456; 194560; 195101; 196608;
  201546; 201552; 205743; 917760; 917999].

Definition NOT_PRINT_32 : list Z := [
  12; 39; 59; 62; 399; 926; 1403; 1419; 1427; 1430; 1442; 1458; 1466; 1926; 1969; 2057; 2102;
  2134; 2291; 2564; 2580; 2584; 3711; 3754; 4285; 4405; 4576; 4626; 4743; 4745; 4750; 4766; 4868;
  4905; 4913; 4916; 4922; 5212; 6420; 6423; 6454; 7177; 7223; 7336; 7431; 7434; 7483; 7486; 7526;
  7529; 7567; 7570; 7953; 9327; 27231; 27327; 27482; 27490; 45044; 45052; 45055; 54357; 54429;
  54445; 54458; 54460; 54468; 54534; 54549; 54557; 54586; 54591; 54597; 54609; 55968; 57351;
  57378; 57381; 59367; 59372; 59375; 59391; 60932; 60960; 60963; 60968; 60979; 60984; 60986;
  61000; 61002; 61004; 61008; 61011; 61016; 61018; 61020; 61022; 61024; 61027; 61035; 61043;
  61048; 61053; 61055; 61066; 61092; 61098; 61632; 61648; 64190; 64403].

(** [slice::binary_search(..).is_ok()]: the half that may hold the value is kept
    until one place is left; the length is more than enough fuel. *)
Fixpoint bisect (fuel : nat) (l : list Z) (x : Z) (base size : nat) : nat :=
  match fuel with
  | O => base
  | S fuel =>
      if (size <=? 1)%nat then base
      else
        let half := (size / 2)%nat in
        let mid := (base + half)%nat in
        bisect fuel l x (if x <? nth mid l 0 then base else mid) (size - half)
  end.
Definition binary_search (l : list Z) (x : Z) : bool :=
  match l with
  | [] => false
  | _ => nth (bisect (length l) l x 0 (length l)) l 0 =? x
  end.

(** [is_in_ranges]: the table is read in pairs. *)
Fixpoint is_in_ranges (ranges : list Z) (rune : Z) : bool :=
  match ranges with
  | lo :: hi :: rest => (lo <=? rune) && (rune <=? hi) || is_in_ranges rest rune
  | _ => false
  end.

(** [is_print]. *)
Definition is_print (rune : Z) : bool :=
  if rune <=? 255 then
    (32 <=? rune) && (rune <=? 126) || (161 <=? rune) && (rune <=? 255) && negb (rune =? 173)
  else if rune <? 65536 then is_in_ranges PRINT_16 rune && negb (binary_search NOT_PRINT_16 rune)
  else is_in_ranges PRINT_32 rune
       && ((131072 <=? rune) || negb (binary_search NOT_PRINT_32 (rune - 65536))).

(** ** [go_quote] *)

(** The code point of a character. *)
Definition code_point (c : list ascii) : Z :=
  match map byte_val c with
  | [a] => a
  | [a; b] => (a - 192) * 64 + (b - 128)
  | [a; b; d] => (a - 224) * 4096 + (b - 128) * 64 + (d - 128)
  | [a; b; d; e] => (a - 240) * 262144 + (b - 128) * 4096 + (d - 128) * 64 + (e - 128)
  | _ => 0
  end.

(** [n] lower-case hexadecimal digits. *)
Fixpoint hex_digits (n : nat) (z : Z) : string :=
  match n with
  | O => ""
  | S n => String (hex_digit (z / 16 ^ Z.of_nat n mod 16)) (hex_digits n z)
  end.

(** The arm of the loop for one character. *)
Definition quote_char (c : list ascii) : string :=
  let r := code_point c in
  if r =? 7 then "\a" else if r =? 8 then "\b" else if r =? 9 then "\t"
  else if r =? 10 then "\n" else if r =? 11 then "\v" else if r =? 12 then "\f"
  else if r =? 13 then "\r" else if r =? 34 then "\" +:+ double_quote
  else if r =? 92 then "\\"
  else if (r <? 32) || (r =? 127) then "\x" +:+ hex_digits 2 r
  else if r =? 8232 then "\u2028" else if r =? 8233 then "\u2029"
  else if negb (is_print r) then
    if r <=? 65535 then "\u" +:+ hex_digits 4 r else "\U" +:+ hex_digits 8 r
  else of_bytes c.

(** [go_quote]. *)
Definition go_quote (value : string) : string :=
  double_quote +:+ String.concat "" (map quote_char (str_chars value)) +:+ double_quote.

(** ** Bisection finds what is in a sorted table *)

Definition increasing (l : list Z) : Prop :=
  ∀ i j x y, (i < j)%nat → l !! i = Some x → l !! j = Some y → x < y.

Fixpoint increasingb (l : list Z) : bool :=
  match l with
  | x :: (y :: _) as l => (x <? y) && increasingb l
  | _ => true
  end.

Lemma increasingb_spec l : increasingb l = true → increasing l.
Proof.
  induction l as [|x l IH]; [by intros _ i j ? ? ? ?|]. intros Hs.
  assert (increasing l ∧ ∀ y, l !! 0%nat = Some y → x < y) as [Hl Hx].
  { destruct l as [|y l]; [by split; [apply IH|]|]. cbn [increasingb] in Hs.
    apply andb_true_iff in Hs as [Hxy%Z.ltb_lt Hs]. split; [by apply IH|]. by intros ? [= <-]. }
  intros [|i] [|j] a b Hij Ha Hb; [lia| |lia|].
  - injection Ha as <-. cbn in Hb. destruct j as [|j]; [by apply Hx|].
    destruct (l !! 0%nat) as [y|] eqn:E0; [|by destruct l].
    specialize (Hx y eq_refl). pose proof (Hl 0%nat (S j) y b ltac:(lia) E0 Hb). lia.
  - apply (Hl i j); [lia|done|done].
Qed.

Lemma nth_lookup_eq l i x : l !! i = Some x → nth i l 0 = x.
Proof. intros E. by rewrite nth_lookup, E. Qed.

Lemma bisect_range fuel l x base size : (0 < size)%nat →
  (base <= bisect fuel l x base size < base + size)%nat.
Proof.
  revert base size. induction fuel as [|fuel IH]; intros base size Hs; cbn [bisect]; [lia|].
  destruct (Nat.leb_spec size 1); [lia|]. cbv zeta.
  pose proof (Nat.div_lt size 2 ltac:(lia) ltac:(lia)).
  assert (0 < size / 2)%nat by (apply Nat.div_str_pos; lia).
  destruct (x <? _); [pose proof (IH base (size - size / 2)%nat)|
    pose proof (IH (base + size / 2)%nat (size - size / 2)%nat)]; lia.
Qed.

Lemma bisect_found fuel l x base size i :
  increasing l → l !! i = Some x → (base <= i < base + size)%nat → (base + size <= length l)%nat →
  (size <= fuel)%nat → bisect fuel l x base size = i.
Proof.
  intros Hl Hi. revert base size. induction fuel as [|fuel IH]; intros base size Hr Hlen Hf; cbn [bisect]; [lia|].
  destruct (Nat.leb_spec size 1); [lia|]. cbv zeta.
  pose proof (Nat.div_lt size 2 ltac:(lia) ltac:(lia)).
  assert (0 < size / 2)%nat by (apply Nat.div_str_pos; lia).
  assert (size / 2 * 2 <= size)%nat by (rewrite Nat.mul_comm; apply Nat.Div0.mul_div_le).
  destruct (lookup_lt_is_Some_2 l (base + size / 2)%nat ltac:(lia)) as [y Hy].
  rewrite (nth_lookup_eq _ _ _ Hy). destruct (Z.ltb_spec x y) as [Hxy|Hxy].
  - apply IH; [|lia|lia]. assert (i < base + size / 2)%nat; [|lia].
    apply Nat.nle_gt. intros Hle. destruct (decide (i = base + size / 2)%nat) as [->|].
    + rewrite Hi in Hy. injection Hy as ->. lia.
    + pose proof (Hl (base + size / 2)%nat i y x ltac:(lia) Hy Hi). lia.
  - apply IH; [|lia|lia]. assert (base + size / 2 <= i)%nat; [|lia].
    apply Nat.nlt_ge. intros Hlt. pose proof (Hl i (base + size / 2)%nat x y Hlt Hi Hy). lia.
Qed.

Lemma binary_search_spec l x : increasing l → binary_search l x = true ↔ x ∈ l.
Proof.
  intros Hl. unfold binary_search. destruct l as [|a l]; [split; [done|]; by intros ?%elem_of_nil|].
  set (t := a :: l) in *. rewrite Z.eqb_eq. split.
  - intros E. pose proof (bisect_range (length t) t x 0 (length t) ltac:(cbn; lia)) as Hr.
    destruct (lookup_lt_is_Some_2 t (bisect (length t) t x 0 (length t)) ltac:(lia)) as [y Hy].
    rewrite (nth_lookup_eq _ _ _ Hy) in E. subst y. by eapply list_elem_of_lookup_2.
  - intros [i Hi]%list_elem_of_lookup_1. pose proof (lookup_lt_Some _ _ _ Hi).
    rewrite (bisect_found _ _ _ _ _ i Hl Hi) by lia. by apply nth_lookup_eq.
Qed.

(** The pairs of a table. *)
Fixpoint in_pairs (ranges : list Z) (rune : Z) : Prop :=
  match ranges with
  | lo :: hi :: rest => lo <= rune <= hi ∨ in_pairs rest rune
  | _ => False
  end.

Lemma is_in_ranges_spec (n : nat) ranges rune : (length ranges <= n)%nat →
  is_in_ranges ranges rune = true ↔ in_pairs ranges rune.
Proof.
  revert ranges. induction n as [|n IH]; intros [|lo [|hi rest]] Hn; try done; [cbn in Hn; lia|].
  cbn [is_in_ranges in_pairs]. rewrite orb_true_iff, andb_true_iff, !Z.leb_le, IH by (cbn in Hn; lia). done.
Qed.

Lemma tables_increasing : increasing NOT_PRINT_16 ∧ increasing NOT_PRINT_32.
Proof. split; apply increasingb_spec; vm_compute; reflexivity. Qed.

(** The bisection of the exception tables loses nothing: a character above
    U+00FF is printable exactly when it lies in one of the ranges of its plane's
    table and is not listed among the exceptions of the basic plane, or of the
    first supplementary plane. *)
Theorem is_print_exact rune : 255 < rune →
  is_print rune = true ↔
    (rune < 65536 ∧ in_pairs PRINT_16 rune ∧ rune ∉ NOT_PRINT_16) ∨
    (65536 <= rune ∧ in_pairs PRINT_32 rune ∧ (131072 <= rune ∨ rune - 65536 ∉ NOT_PRINT_32)).
Proof.
  intros Hr. destruct tables_increasing as [H16 H32]. unfold is_print.
  rewrite (proj2 (Z.leb_gt _ _)) by lia. destruct (Z.ltb_spec rune 65536).
  - rewrite andb_true_iff, negb_true_iff, (is_in_ranges_spec (length PRINT_16)) by done.
    rewrite <-not_true_iff_false, binary_search_spec by done. intuition lia.
  - rewrite andb_true_iff, orb_true_iff, negb_true_iff, (is_in_ranges_spec (length PRINT_32)) by done.
    rewrite <-not_true_iff_false, binary_search_spec, Z.leb_le by done. intuition lia.
Qed.

Lemma is_print_exact_witness : is_print 8234 = false ∧ (in_pairs PRINT_16 931 ∧ 931 ∉ NOT_PRINT_16).
Proof.
  split; [vm_compute; reflexivity|].
  destruct (proj1 (is_print_exact 931 ltac:(lia)) ltac:(vm_compute; reflexivity)) as [H|H].
  - split; apply H.
  - exfalso. destruct H as [H _]. lia.
Defined.
