(* ===== verification/Chars.v ===== *)
(** * The characters of a text

    [str_chars] splits valid UTF-8 into characters; the shapes of these, their code points
    and how texts are put together from them; a reader of the literals of Go. *)

From S2P Require Import Prelude RustStr NetAddr Port Secret MachineName GoQuote.

Local Open Scope Z_scope.

(** ** The characters of valid text *)

Definition cont_byte (c : ascii) : Prop := 128 <= byte_val c <= 191.

(** The shapes of a character and the bounds of its code point. *)
Inductive char_shape : list ascii → Prop :=
| shape1 a : 0 <= byte_val a < 128 → char_shape [a]
| shape2 a b : 194 <= byte_val a <= 223 → cont_byte b → char_shape [a; b]
| shape3 a b d : 224 <= byte_val a <= 239 → cont_byte b → cont_byte d →
    2048 <= code_point [a; b; d] → char_shape [a; b; d]
| shape4 a b d e : 240 <= byte_val a <= 244 → cont_byte b → cont_byte d → cont_byte e →
    65536 <= code_point [a; b; d; e] → char_shape [a; b; d; e].

Lemma byte_val_bound c : 0 <= byte_val c < 256.
Proof. unfold byte_val. pose proof (Ascii.N_ascii_bounded c). lia. Qed.

Lemma byte_val_inj c d : byte_val c = byte_val d → c = d.
Proof.
  unfold byte_val. intros E. rewrite <-(Ascii.ascii_N_embedding c), <-(Ascii.ascii_N_embedding d).
  f_equal. lia.
Qed.

Lemma continuation_cont c : continuation c = true ↔ cont_byte c.
Proof. unfold continuation, cont_byte. rewrite andb_true_iff, !Z.leb_le. lia. Qed.

Lemma continuations_cons n c l k : continuations (S n) (c :: l) = S k →
  cont_byte c ∧ continuations n l = k.
Proof.
  cbn. destruct (continuation c) eqn:E; [|done]. intros [= <-]. by apply continuation_cont in E.
Qed.

Lemma continuations_nil n : continuations n [] = 0%nat.
Proof. by destruct n. Qed.

Lemma utf8_char_valid c l n : utf8_char (c :: l) = (n, true) → char_shape (take n (c :: l)) ∧ (0 < n)%nat.
Proof.
  pose proof (byte_val_bound c) as Hc. unfold utf8_char. cbv zeta.
  destruct (Z.ltb_spec (byte_val c) 128).
  { intros [= <-]. split; [|lia]. cbn. apply shape1. lia. }
  destruct ((194 <=? byte_val c) && (byte_val c <=? 223)) eqn:E2.
  { rewrite andb_true_iff, !Z.leb_le in E2. destruct (continuations 1 l) as [|[|?]] eqn:Ec; try done.
    intros [= <-]. destruct l as [|b l]; [done|]. apply continuations_cons in Ec as [Hb _].
    split; [|lia]. cbn. apply shape2; [lia|done]. }
  destruct ((224 <=? byte_val c) && (byte_val c <=? 239)) eqn:E3.
  { rewrite andb_true_iff, !Z.leb_le in E3. destruct l as [|b l]; [done|].
    destruct (second_of_three (byte_val c) (byte_val b)) eqn:Es; [|done].
    destruct (continuations 2 (b :: l)) as [|[|[|?]]] eqn:Ec; try done.
    intros [= <-]. apply continuations_cons in Ec as [Hb Ec].
    destruct l as [|d l]; [done|]. apply continuations_cons in Ec as [Hd _].
    split; [|lia]. cbn [take]. apply shape3; [lia|done|done|].
    unfold second_of_three in Es. unfold cont_byte in *. cbn [code_point map].
    rewrite !orb_true_iff, !andb_true_iff, !Z.leb_le, !Z.eqb_eq in Es. lia. }
  destruct ((240 <=? byte_val c) && (byte_val c <=? 244)) eqn:E4; [|done].
  rewrite andb_true_iff, !Z.leb_le in E4. destruct l as [|b l]; [done|].
  destruct (second_of_four (byte_val c) (byte_val b)) eqn:Es; [|done].
  destruct (continuations 3 (b :: l)) as [|[|[|[|?]]]] eqn:Ec; try done.
  intros [= <-]. apply continuations_cons in Ec as [Hb Ec].
  destruct l as [|d l]; [done|]. apply continuations_cons in Ec as [Hd Ec].
  destruct l as [|e l]; [done|]. apply continuations_cons in Ec as [He _].
  split; [|lia]. cbn [take]. apply shape4; [lia|done|done|done|].
  unfold second_of_four in Es. unfold cont_byte in *. cbn [code_point map].
  rewrite !orb_true_iff, !andb_true_iff, !Z.leb_le, !Z.eqb_eq in Es. lia.
Qed.

(** Valid text is the concatenation of its characters. *)
Lemma str_chars_valid value : utf8_valid (bytes value) = true →
  Forall char_shape (str_chars value) ∧ mjoin (str_chars value) = bytes value.
Proof.
  unfold utf8_valid, str_chars. rewrite <-length_bytes. generalize (bytes value) as l. intros l.
  generalize (length l) as fuel. intros fuel. revert l.
  induction fuel as [|fuel IH]; intros [|c l] Hv; try done.
  cbn [utf8_valid_aux chars_aux] in *. destruct (utf8_char (c :: l)) as [n valid] eqn:Ec.
  apply andb_true_iff in Hv as [-> Hv]. destruct (utf8_char_valid _ _ _ Ec) as [Hs Hn].
  destruct (IH _ Hv) as [Hf Hj]. cbn [fst]. split; [by constructor|].
  change (mjoin (take n (c :: l) :: chars_aux fuel (drop n (c :: l))))
    with (take n (c :: l) ++ mjoin (chars_aux fuel (drop n (c :: l)))).
  by rewrite Hj, take_drop.
Qed.

Lemma of_bytes_bytes s : of_bytes (bytes s) = s.
Proof. apply String.string_of_list_ascii_of_string. Qed.

Lemma bytes_concat l : bytes (String.concat "" l) = mjoin (map bytes l).
Proof.
  induction l as [|a l IH]; [done|]. rewrite concat_cons, bytes_app, IH. done.
Qed.

(** ** UTF-8 *)

Definition utf8_byte (z : Z) : ascii := Ascii.ascii_of_N (Z.to_N z).
(** [char::encode_utf8]. *)
Definition encode_utf8 (r : Z) : list ascii :=
  if r <? 128 then [utf8_byte r]
  else if r <? 2048 then [utf8_byte (192 + r / 64); utf8_byte (128 + r mod 64)]
  else if r <? 65536 then [utf8_byte (224 + r / 4096); utf8_byte (128 + r / 64 mod 64); utf8_byte (128 + r mod 64)]
  else [utf8_byte (240 + r / 262144); utf8_byte (128 + r / 4096 mod 64); utf8_byte (128 + r / 64 mod 64); utf8_byte (128 + r mod 64)].

Lemma utf8_byte_val c z : z = byte_val c → utf8_byte z = c.
Proof. intros ->. unfold utf8_byte, byte_val. rewrite N2Z.id. apply Ascii.ascii_N_embedding. Qed.

Lemma div_unique a b q r : 0 <= r < b → a = b * q + r → a / b = q ∧ a mod b = r.
Proof. intros Hr Ha. split; [symmetry; by apply (Z.div_unique_pos _ _ _ r)|symmetry; by apply (Z.mod_unique_pos _ _ q)]. Qed.

Lemma encode_code_point c : char_shape c → encode_utf8 (code_point c) = c.
Proof.
  intros [a Ha|a b Ha Hb|a b d Ha Hb Hd Hr|a b d e Ha Hb Hd He Hr]; unfold cont_byte in *; unfold encode_utf8;
    cbn [code_point map] in *.
  - rewrite (proj2 (Z.ltb_lt _ _)) by lia. by rewrite (utf8_byte_val a).
  - rewrite (proj2 (Z.ltb_ge _ _)), (proj2 (Z.ltb_lt _ _)) by lia.
    rewrite (utf8_byte_val a), (utf8_byte_val b) by (Z.div_mod_to_equations; lia). done.
  - rewrite !(proj2 (Z.ltb_ge _ _)), (proj2 (Z.ltb_lt _ _)) by lia.
    rewrite (utf8_byte_val a), (utf8_byte_val b), (utf8_byte_val d) by (Z.div_mod_to_equations; lia). done.
  - rewrite !(proj2 (Z.ltb_ge _ _)) by lia.
    rewrite (utf8_byte_val a), (utf8_byte_val b), (utf8_byte_val d), (utf8_byte_val e) by (Z.div_mod_to_equations; lia). done.
Qed.

Lemma code_point_bound c : char_shape c → 0 <= code_point c < 2 ^ 21.
Proof.
  intros [a Ha|a b Ha Hb|a b d Ha Hb Hd Hr|a b d e Ha Hb Hd He Hr]; unfold cont_byte in *; cbn [code_point map] in *; lia.
Qed.

(** ** Literals of Go *)

Lemma to_digit_hex d : 0 <= d < 16 → to_digit 16 (hex_digit d) = Some d.
Proof.
  intros Hd. assert (∃ n, d = Z.of_nat n ∧ (n < 16)%nat) as (n & -> & Hn) by (exists (Z.to_nat d); lia).
  do 16 (destruct n as [|n]; [done|]). lia.
Qed.

Definition before (p : list ascii) (r : option (list ascii * list ascii)) : option (list ascii * list ascii) :=
  '(v, l) ← r; Some (p ++ v, l).

(** The number that hexadecimal digits write. *)
Definition hex_value (l : list ascii) : option Z :=
  foldr (fun c k acc => d ← to_digit 16 c; k (acc * 16 + d)) Some l 0.

(** The rest of a literal of Go after its opening quote: its value and what follows.  A
    backslash escapes a character, or is followed by a letter for a control character or
    by two, four or eight hexadecimal digits; a line does not end inside a literal. *)
Definition control_escape (e : Z) : option Z :=
  if e =? 97 then Some 7 else if e =? 98 then Some 8 else if e =? 102 then Some 12
  else if e =? 110 then Some 10 else if e =? 114 then Some 13 else if e =? 116 then Some 9
  else if e =? 118 then Some 11 else if e =? 34 then Some 34 else if e =? 92 then Some 92 else None.
Fixpoint read_literal (l : list ascii) : option (list ascii * list ascii) :=
  match l with
  | [] => None
  | c :: l =>
      if byte_val c =? 34 then Some ([], l)
      else if byte_val c =? 10 then None
      else if byte_val c =? 92 then
        match l with
        | [] => None
        | e :: l1 =>
            match control_escape (byte_val e) with
            | Some z => before [utf8_byte z] (read_literal l1)
            | None =>
                if byte_val e =? 120 then
                  match l1 with
                  | h1 :: h2 :: l2 => z ← hex_value [h1; h2]; before (encode_utf8 z) (read_literal l2)
                  | _ => None
                  end
                else if byte_val e =? 117 then
                  match l1 with
                  | h1 :: h2 :: h3 :: h4 :: l2 =>
                      z ← hex_value [h1; h2; h3; h4]; before (encode_utf8 z) (read_literal l2)
                  | _ => None
                  end
                else if byte_val e =? 85 then
                  match l1 with
                  | h1 :: h2 :: h3 :: h4 :: h5 :: h6 :: h7 :: h8 :: l2 =>
                      z ← hex_value [h1; h2; h3; h4; h5; h6; h7; h8]; before (encode_utf8 z) (read_literal l2)
                  | _ => None
                  end
                else None
            end
        end
      else before [c] (read_literal l)
  end.

Lemma before_before p q r : before p (before q r) = before (p ++ q) r.
Proof. destruct r as [[v l]|]; [|done]. cbn. by rewrite app_assoc. Qed.
Lemma before_nil r : before [] r = r.
Proof. by destruct r as [[v l]|]. Qed.

(** Characters beyond ASCII stand for themselves. *)
Lemma read_copy c t : Forall (fun a => 128 <= byte_val a) c → read_literal (c ++ t) = before c (read_literal t).
Proof.
  induction 1 as [|a c Ha Hc IH]; cbn [app]; [by rewrite before_nil|]. cbn [read_literal].
  rewrite !(proj2 (Z.eqb_neq (byte_val a) _)) by lia. by rewrite IH, before_before.
Qed.

Lemma wide_char c : char_shape c → 128 <= code_point c →
  Forall (fun a => 128 <= byte_val a) c ∧ (∀ a, c ≠ [a]).
Proof.
  intros [a Ha|a b Ha Hb|a b d Ha Hb Hd Hr|a b d e Ha Hb Hd He Hr] Hw; unfold cont_byte in *; cbn [code_point map] in *;
    (split; [rewrite ?Forall_cons, ?Forall_nil; lia|done]) || lia.
Qed.

Lemma narrow_char c : char_shape c → code_point c < 128 → ∃ a, c = [a] ∧ byte_val a < 128.
Proof.
  intros [a Ha|a b Ha Hb|a b d Ha Hb Hd Hr|a b d e Ha Hb Hd He Hr] Hw; unfold cont_byte in *; cbn [code_point map] in *;
    [exists a; split; [done|lia]|lia..].
Qed.

(** Digits of a given number are read back. *)
Lemma hex_value_digits n z : 0 <= z < 16 ^ Z.of_nat n → hex_value (bytes (hex_digits n z)) = Some z.
Proof.
  intros Hz. unfold hex_value.
  assert (∀ acc, foldr (fun c k acc => d ← to_digit 16 c; k (acc * 16 + d)) Some (bytes (hex_digits n z)) acc
            = Some (acc * 16 ^ Z.of_nat n + z mod 16 ^ Z.of_nat n)) as ->;
    [|rewrite Z.mod_small by done; f_equal; lia].
  clear Hz. induction n as [|n IH]; intros acc; cbn [hex_digits].
  { cbn. rewrite Z.mod_1_r. f_equal. lia. }
  change (bytes (String ?c ?s)) with (c :: bytes s). cbn [foldr].
  rewrite to_digit_hex by (apply Z.mod_pos_bound; lia). cbn [mbind option_bind]. rewrite IH. f_equal.
  rewrite Nat2Z.inj_succ, Z.pow_succ_r, (Z.mul_comm 16), (Z.rem_mul_r z (16 ^ Z.of_nat n) 16) by lia. lia.
Qed.

Lemma read_unicode4 r t : 0 <= r < 65536 →
  read_literal (bytes ("\u" +:+ hex_digits 4 r) ++ t) = before (encode_utf8 r) (read_literal t).
Proof.
  intros Hr. pose proof (hex_value_digits 4 r Hr) as Hh. rewrite bytes_app, <-app_assoc.
  assert (length (bytes (hex_digits 4 r)) = 4%nat) as Hl by done.
  destruct (bytes (hex_digits 4 r)) as [|h1 [|h2 [|h3 [|h4 [|]]]]]; try done.
  change (bytes "\u") with ["\"; "u"]%char. cbn [app read_literal].
  change (byte_val "\" =? 34) with false. cbn iota. by rewrite Hh.
Qed.

Lemma read_unicode8 r t : 0 <= r < 2 ^ 32 →
  read_literal (bytes ("\U" +:+ hex_digits 8 r) ++ t) = before (encode_utf8 r) (read_literal t).
Proof.
  intros Hr. pose proof (hex_value_digits 8 r Hr) as Hh. rewrite bytes_app, <-app_assoc.
  assert (length (bytes (hex_digits 8 r)) = 8%nat) as Hl by done.
  destruct (bytes (hex_digits 8 r)) as [|h1 [|h2 [|h3 [|h4 [|h5 [|h6 [|h7 [|h8 [|]]]]]]]]]; try done.
  change (bytes "\U") with ["\"; "U"]%char. cbn [app read_literal].
  change (byte_val "\" =? 34) with false. cbn iota. by rewrite Hh.
Qed.

(** A literal whose characters are read back one by one is read back. *)
Lemma read_chars (f : list ascii → string) value t : utf8_valid (bytes value) = true →
  (∀ c t, char_shape c → read_literal (bytes (f c) ++ t) = before c (read_literal t)) →
  read_literal (bytes (String.concat "" (map f (str_chars value)) +:+ double_quote) ++ t) = Some (bytes value, t).
Proof.
  intros Hv Hf. destruct (str_chars_valid value Hv) as [Hs <-]. rewrite bytes_app, bytes_concat, <-app_assoc.
  induction Hs as [|c l Hc Hs IH]; [done|].
  change (mjoin (map bytes (map f (c :: l)))) with (bytes (f c) ++ mjoin (map bytes (map f l))).
  rewrite <-app_assoc, Hf, IH by done. done.
Qed.
