(* ===== verification/ClusterDns.v ===== *)
(** * The cluster's domain: [dns.rs] of ployz-internal-machine-cluster

    The reserved domain is stored as JSON in Go's style; DNS records are mapped
    between the API and the DNS service.  [serde_json]'s reader is a parameter. *)

From S2P Require Import Prelude RustStr NetAddr Port Secret MachineName GoQuote Chars.

Record StoredDomain := mk_StoredDomain { sd_endpoint : string; sd_name : string; sd_token : string }.

(** ** Writing *)

(** The arm of [push_go_json_string] for one character. *)
Definition json_char (c : list ascii) : string :=
  let r := code_point c in
  if r =? 34 then "\" +:+ double_quote else if r =? 92 then "\\"
  else if r =? 8 then "\b" else if r =? 12 then "\f" else if r =? 10 then "\n"
  else if r =? 13 then "\r" else if r =? 9 then "\t"
  else if r =? 60 then "\u003c" else if r =? 62 then "\u003e" else if r =? 38 then "\u0026"
  else if r =? 8232 then "\u2028" else if r =? 8233 then "\u2029"
  else if r <=? 31 then "\u" +:+ hex_digits 4 r
  else of_bytes c.

(** [push_go_json_string]. *)
Definition go_json_string (value : string) : string :=
  double_quote +:+ String.concat "" (map json_char (str_chars value)) +:+ double_quote.

(** [encode_stored_domain]. *)
Definition encode_stored_domain (domain : StoredDomain) : string :=
  "{" +:+ double_quote +:+ "Endpoint" +:+ double_quote +:+ ":" +:+ go_json_string (sd_endpoint domain) +:+
  "," +:+ double_quote +:+ "Name" +:+ double_quote +:+ ":" +:+ go_json_string (sd_name domain) +:+
  "," +:+ double_quote +:+ "Token" +:+ double_quote +:+ ":" +:+ go_json_string (sd_token domain) +:+ "}".

(** ** Reading *)

(** A value as [Option<String>] sees it. *)
Inductive JsonField := FString (s : string) | FNull | FOther.

Fixpoint eq_ignore_ascii_case (a b : string) : bool :=
  match a, b with
  | EmptyString, EmptyString => true
  | String c a, String d b => ascii_eqb (to_lower c) (to_lower d) && eq_ignore_ascii_case a b
  | _, _ => false
  end.

(** [map.next_value::<Option<String>>()] into a field; [error] is the text of the
    type error. *)
Definition next_field (error : string) (old : string) (f : JsonField) : string + string :=
  match f with FString s => inr s | FNull => inr old | FOther => inl error end.

(** [visit_map]. *)
Fixpoint visit_map (error : string) (entries : list (string * JsonField)) (domain : StoredDomain) :
    string + StoredDomain :=
  match entries with
  | [] => inr domain
  | (key, value) :: entries =>
      let '(mk_StoredDomain endpoint name token) := domain in
      let step := if eq_ignore_ascii_case key "Endpoint" then
                    match next_field error endpoint value with
                    | inr v => inr (mk_StoredDomain v name token) | inl e => inl e end
                  else if eq_ignore_ascii_case key "Name" then
                    match next_field error name value with
                    | inr v => inr (mk_StoredDomain endpoint v token) | inl e => inl e end
                  else if eq_ignore_ascii_case key "Token" then
                    match next_field error token value with
                    | inr v => inr (mk_StoredDomain endpoint name v) | inl e => inl e end
                  else inr domain in
      match step with inr domain => visit_map error entries domain | inl e => inl e end
  end.

Definition empty_domain : StoredDomain := mk_StoredDomain "" "" "".

(** ** What JSON is: objects whose values are strings (RFC 8259) *)

(** The value of four hexadecimal digits. *)
Definition hex4 (l : list ascii) : option (Z * list ascii) :=
  match l with
  | a :: b :: c :: d :: rest =>
      a ← to_digit 16 a; b ← to_digit 16 b; c ← to_digit 16 c; d ← to_digit 16 d;
      Some (((a * 16 + b) * 16 + c) * 16 + d, rest)
  | _ => None
  end.

(** A code point below 2^16 in UTF-8. *)
Definition utf8_encode (r : Z) : list ascii :=
  let byte z := Ascii.ascii_of_N (Z.to_N z) in
  if r <? 128 then [byte r]
  else if r <? 2048 then [byte (192 + r / 64); byte (128 + r mod 64)]
  else [byte (224 + r / 4096); byte (128 + r / 64 mod 64); byte (128 + r mod 64)].

Definition simple_escape (c : ascii) : option ascii :=
  let n := byte_val c in
  if (n =? 34) || (n =? 92) || (n =? 47) then Some c
  else if n =? 98 then Some (Ascii.ascii_of_nat 8) else if n =? 102 then Some (Ascii.ascii_of_nat 12)
  else if n =? 110 then Some (Ascii.ascii_of_nat 10) else if n =? 114 then Some (Ascii.ascii_of_nat 13)
  else if n =? 116 then Some (Ascii.ascii_of_nat 9) else None.

(** The rest of a string after its opening quote: its value and what follows.
    Control characters must be escaped, surrogates are not read. *)
Fixpoint read_string (fuel : nat) (l : list ascii) : option (list ascii * list ascii) :=
  match fuel, l with
  | S fuel, c :: l =>
      if byte_val c =? 34 then Some ([], l)
      else if byte_val c =? 92 then
        match l with
        | e :: l =>
            if byte_val e =? 117 then
              '(r, l) ← hex4 l;
              if (55296 <=? r) && (r <=? 57343) then None
              else '(value, l) ← read_string fuel l; Some (utf8_encode r ++ value, l)
            else
              e ← simple_escape e;
              '(value, l) ← read_string fuel l; Some (e :: value, l)
        | [] => None
        end
      else if byte_val c <? 32 then None
      else '(value, l) ← read_string fuel l; Some (c :: value, l)
  | _, _ => None
  end.

Definition read_char (n : Z) (l : list ascii) : option (list ascii) :=
  match l with c :: l => if byte_val c =? n then Some l else None | [] => None end.

Definition read_quoted (l : list ascii) : option (list ascii * list ascii) :=
  l ← read_char 34 l; read_string (length l) l.

Definition read_member (l : list ascii) : option (string * string * list ascii) :=
  '(key, l) ← read_quoted l;
  l ← read_char 58 l;
  '(value, l) ← read_quoted l;
  Some (of_bytes key, of_bytes value, l).

(** The members after the first, then the closing brace. *)
Fixpoint read_members (fuel : nat) (l : list ascii) : option (list (string * string)) :=
  match fuel with
  | O => None
  | S fuel =>
      match read_char 125 l with
      | Some [] => Some []
      | Some _ => None
      | None =>
          l ← read_char 44 l;
          '(key, value, l) ← read_member l;
          rest ← read_members fuel l;
          Some ((key, value) :: rest)
      end
  end.
Definition read_object (text : string) : option (list (string * string)) :=
  l ← read_char 123 (bytes text);
  '(key, value, l) ← read_member l;
  rest ← read_members (length l) l;
  Some ((key, value) :: rest).

(** [serde_json]: its events on a text ([None] for null), the text of the error when
    a value is not a string, and that it reads the objects above. *)
Class SerdeJson := {
  json_events : list byte → string + option (list (string * JsonField));
  json_type_error : string;
  json_events_object : ∀ text l, read_object text = Some l →
    json_events (bytes_of_str text) = inr (Some (map (fun '(k, v) => (k, FString v)) l))
}.

(** [serde_json::from_slice::<StoredDomain>]. *)
Definition decode_stored_domain `{SerdeJson} (json : list byte) : string + StoredDomain :=
  match json_events json with
  | inl e => inl e
  | inr None => inr empty_domain
  | inr (Some entries) => visit_map json_type_error entries empty_domain
  end.

(** ** Records *)

Inductive RecordType := RT_A | RT_Aaaa | RT_Other (value : string).

(** [RecordType::new]. *)
Definition record_type_new (value : string) : RecordType :=
  if bool_decide (value = "A") then RT_A
  else if bool_decide (value = "AAAA") then RT_Aaaa else RT_Other value.

Record DnsRecord := mk_DnsRecord { dr_name : string; dr_type : Z; dr_values : list string }.
Record RecordRequest := mk_RecordRequest {
  rq_name : string; rq_type : RecordType; rq_values : list string
}.
Record RecordResponse := mk_RecordResponse { rr_record : RecordRequest; rr_fqdn : string }.

(** [dns_record::RecordType::try_from] and [as_str_name]. *)
Definition record_type_name (t : Z) : option string :=
  if t =? 0 then Some "UNSPECIFIED" else if t =? 1 then Some "A"
  else if t =? 2 then Some "AAAA" else None.

(** [map_record_request]. *)
Definition map_record_request (record : DnsRecord) : RecordRequest :=
  mk_RecordRequest (dr_name record)
    (record_type_new (default (dec (dr_type record)) (record_type_name (dr_type record))))
    (dr_values record).

(** [map_record_response]. *)
Definition map_record_response (record : RecordResponse) : DnsRecord :=
  mk_DnsRecord (rr_fqdn record)
    (match rq_type (rr_record record) with RT_A => 1 | RT_Aaaa => 2 | RT_Other _ => 0 end)
    (rq_values (rr_record record)).

(** ** Reading what was written *)

Lemma hex4_shorter l r rest : hex4 l = Some (r, rest) → (length rest < length l)%nat.
Proof.
  destruct l as [|a [|b [|c [|d l]]]]; try done. unfold hex4.
  destruct (to_digit 16 a), (to_digit 16 b), (to_digit 16 c), (to_digit 16 d); try done.
  cbn. intros [= _ <-]. lia.
Qed.

Lemma read_string_fuel f f' l : (length l <= f)%nat → (length l <= f')%nat →
  read_string f l = read_string f' l.
Proof.
  revert f' l. induction f as [|f IH]; intros f' [|c l] Hf Hf'; try (cbn in Hf; lia).
  { by destruct f'. } { by destruct f'. }
  destruct f' as [|f']; [cbn in Hf'; lia|]. cbn [read_string]. cbn [length] in Hf, Hf'.
  destruct (byte_val c =? 34); [done|]. destruct (byte_val c =? 92).
  - destruct l as [|e l]; [done|]. cbn [length] in Hf, Hf'. destruct (byte_val e =? 117).
    + destruct (hex4 l) as [[r rest]|] eqn:Eh; [|done]. cbn. destruct (_ && _); [done|].
      apply hex4_shorter in Eh. by rewrite (IH f') by lia.
    + destruct (simple_escape e); [|done]. cbn. by rewrite (IH f') by lia.
  - destruct (byte_val c <? 32); [done|]. by rewrite (IH f') by lia.
Qed.

Definition rs (l : list ascii) : option (list ascii * list ascii) := read_string (length l) l.
Definition prepend (p : list ascii) (r : option (list ascii * list ascii)) :
    option (list ascii * list ascii) := '(v, l) ← r; Some (p ++ v, l).

Lemma prepend_prepend p q r : prepend p (prepend q r) = prepend (p ++ q) r.
Proof. destruct r as [[v l]|]; [|done]. cbn. by rewrite app_assoc. Qed.

Lemma rs_step c l : rs (c :: l) =
  if byte_val c =? 34 then Some ([], l)
  else if byte_val c =? 92 then
    match l with
    | e :: l' =>
        if byte_val e =? 117 then
          '(r, l'') ← hex4 l';
          if (55296 <=? r) && (r <=? 57343) then None
          else '(value, l) ← read_string (length l) l''; Some (utf8_encode r ++ value, l)
        else
          e ← simple_escape e;
          '(value, l) ← read_string (length l) l'; Some (e :: value, l)
    | [] => None
    end
  else if byte_val c <? 32 then None
  else '(value, l) ← read_string (length l) l; Some (c :: value, l).
Proof. done. Qed.

Lemma rs_plain c l : 32 <= byte_val c → byte_val c ≠ 34 → byte_val c ≠ 92 →
  rs (c :: l) = prepend [c] (rs l).
Proof.
  intros H1 H2 H3. rewrite rs_step.
  rewrite (proj2 (Z.eqb_neq _ 34)), (proj2 (Z.eqb_neq _ 92)), (proj2 (Z.ltb_ge _ _)) by lia. done.
Qed.

Lemma rs_simple b e x l : byte_val b = 92 → byte_val e ≠ 117 → simple_escape e = Some x →
  rs (b :: e :: l) = prepend [x] (rs l).
Proof.
  intros Hb H1 H2. rewrite rs_step, Hb. change (92 =? 34) with false. change (92 =? 92) with true. cbv iota.
  rewrite (proj2 (Z.eqb_neq _ _)), H2 by done. cbn [mbind option_bind].
  by rewrite (read_string_fuel (length (e :: l)) (length l)) by (cbn; lia).
Qed.

Lemma rs_unicode b u h1 h2 h3 h4 r l : byte_val b = 92 → byte_val u = 117 →
  hex4 [h1; h2; h3; h4] = Some (r, []) → ¬ (55296 <= r <= 57343) →
  rs (b :: u :: h1 :: h2 :: h3 :: h4 :: l) = prepend (utf8_encode r) (rs l).
Proof.
  intros Hb Hu H4 Hr. rewrite rs_step, Hb, Hu. change (92 =? 34) with false. change (92 =? 92) with true.
  change (117 =? 117) with true. cbv iota.
  assert (hex4 (h1 :: h2 :: h3 :: h4 :: l) = Some (r, l)) as ->.
  { unfold hex4 in *. destruct (to_digit 16 h1), (to_digit 16 h2), (to_digit 16 h3), (to_digit 16 h4); try done.
    cbn in H4 |- *. by injection H4 as ->. }
  cbn [mbind option_bind].
  assert (((55296 <=? r) && (r <=? 57343)) = false) as ->.
  { apply not_true_is_false. rewrite andb_true_iff, !Z.leb_le. lia. }
  by rewrite (read_string_fuel (length (u :: h1 :: h2 :: h3 :: h4 :: l)) (length l)) by (cbn; lia).
Qed.

(** ** One character *)

Lemma rs_ascii a t : 0 <= byte_val a < 128 → rs (bytes (json_char [a]) ++ t) = prepend [a] (rs t).
Proof.
  intros Ha.
  destruct a as [[] [] [] [] [] [] [] []];
  try (exfalso; vm_compute in Ha; destruct Ha as [_ Ha]; discriminate Ha);
  match goal with |- context [bytes (json_char ?c)] =>
    let l := eval vm_compute in (bytes (json_char c)) in change (bytes (json_char c)) with l
  end; cbn [app]; first
    [ apply rs_plain; vm_compute; discriminate
    | apply rs_simple; vm_compute; (reflexivity || discriminate)
    | etransitivity;
      [eapply (rs_unicode _ _ _ _ _ _ _ t);
       [reflexivity|reflexivity|vm_compute; reflexivity|lia]
      |reflexivity] ].
Qed.

Lemma rs_copy c t : Forall (fun a => 128 <= byte_val a) c → rs (c ++ t) = prepend c (rs t).
Proof.
  induction 1 as [|a c Ha Hc IH]; cbn [app].
  { destruct (rs t) as [[v l]|]; done. }
  rewrite rs_plain by lia. by rewrite IH, prepend_prepend.
Qed.

(** A character of more than one byte is copied, unless it is one of the two
    line separators. *)
Lemma json_char_wide c : 128 <= code_point c →
  json_char c = if code_point c =? 8232 then "\u2028"
                else if code_point c =? 8233 then "\u2029" else of_bytes c.
Proof.
  intros Hc. unfold json_char. cbv zeta.
  rewrite !(proj2 (Z.eqb_neq (code_point c) _)) by lia.
  by rewrite (proj2 (Z.leb_gt _ 31)) by lia.
Qed.

Lemma rs_wide c t : 128 <= code_point c → Forall (fun a => 128 <= byte_val a) c →
  (code_point c = 8232 → c = utf8_encode 8232) → (code_point c = 8233 → c = utf8_encode 8233) →
  rs (bytes (json_char c) ++ t) = prepend c (rs t).
Proof.
  intros Hc Hw H1 H2. rewrite json_char_wide by done.
  destruct (Z.eqb_spec (code_point c) 8232) as [E1|_].
  { rewrite (H1 E1) at 1. apply (rs_unicode _ _ _ _ _ _ _ t); [done|done|vm_compute; reflexivity|lia]. }
  destruct (Z.eqb_spec (code_point c) 8233) as [E2|_].
  { rewrite (H2 E2) at 1. apply (rs_unicode _ _ _ _ _ _ _ t); [done|done|vm_compute; reflexivity|lia]. }
  rewrite bytes_of_bytes. by apply rs_copy.
Qed.

Lemma rs_char c t : char_shape c → rs (bytes (json_char c) ++ t) = prepend c (rs t).
Proof.
  intros [a Ha|a b Ha Hb|a b d Ha Hb Hd Hr|a b d e Ha Hb Hd He Hr]; [by apply rs_ascii|..];
  unfold cont_byte in *; apply rs_wide; try (rewrite !Forall_cons, Forall_nil; lia);
  try (cbn [code_point map] in *; lia).
  - intros E. cbn [code_point map] in E. rewrite (byte_val_inj a (Ascii.ascii_of_nat 226)),
      (byte_val_inj b (Ascii.ascii_of_nat 128)), (byte_val_inj d (Ascii.ascii_of_nat 168)); [done|..];
    (change (byte_val (Ascii.ascii_of_nat 226)) with 226 || change (byte_val (Ascii.ascii_of_nat 128)) with 128
     || change (byte_val (Ascii.ascii_of_nat 168)) with 168); lia.
  - intros E. cbn [code_point map] in E. rewrite (byte_val_inj a (Ascii.ascii_of_nat 226)),
      (byte_val_inj b (Ascii.ascii_of_nat 128)), (byte_val_inj d (Ascii.ascii_of_nat 169)); [done|..];
    (change (byte_val (Ascii.ascii_of_nat 226)) with 226 || change (byte_val (Ascii.ascii_of_nat 128)) with 128
     || change (byte_val (Ascii.ascii_of_nat 169)) with 169); lia.
Qed.

Lemma rs_value value t : utf8_valid (bytes value) = true →
  rs (bytes (String.concat "" (map json_char (str_chars value))) ++ t) = prepend (bytes value) (rs t).
Proof.
  intros Hv. destruct (str_chars_valid value Hv) as [Hs <-]. rewrite bytes_concat.
  induction Hs as [|c l Hc Hs IH].
  { change (rs t = prepend [] (rs t)). by destruct (rs t) as [[v r]|]. }
  change (map bytes (map json_char (c :: l))) with (bytes (json_char c) :: map bytes (map json_char l)).
  change (mjoin (bytes (json_char c) :: map bytes (map json_char l)))
    with (bytes (json_char c) ++ mjoin (map bytes (map json_char l))).
  rewrite <-app_assoc, rs_char, IH, prepend_prepend by done. done.
Qed.

(** A written string is read back, whatever follows it. *)
Lemma read_go_string value t : utf8_valid (bytes value) = true →
  read_quoted (bytes (go_json_string value) ++ t) = Some (bytes value, t).
Proof.
  intros Hv. unfold go_json_string. rewrite !bytes_app, <-!app_assoc.
  change (bytes double_quote) with [Ascii.ascii_of_nat 34]. unfold read_quoted.
  set (body := bytes (String.concat "" (map json_char (str_chars value)))).
  change (rs (body ++ [Ascii.ascii_of_nat 34] ++ t) = Some (bytes value, t)).
  unfold body. rewrite rs_value by done. cbn [app].
  change (rs (Ascii.ascii_of_nat 34 :: t)) with (Some (@nil ascii, t)).
  cbn [prepend mbind option_bind]. by rewrite app_nil_r.
Qed.

(** A written member is read back. *)
Lemma read_written_member key value t :
  utf8_valid (bytes key) = true → utf8_valid (bytes value) = true →
  read_member (bytes (go_json_string key) ++ [":"%char] ++ bytes (go_json_string value) ++ t)
    = Some (key, value, t).
Proof.
  intros Hk Hv. unfold read_member. rewrite read_go_string by done. cbn [mbind option_bind].
  change (read_char 58 ([":"%char] ++ bytes (go_json_string value) ++ t))
    with (Some (bytes (go_json_string value) ++ t)). cbn [mbind option_bind].
  rewrite read_go_string by done. cbn [mbind option_bind]. by rewrite !of_bytes_bytes.
Qed.

Lemma read_members_more f f' l r : (f <= f')%nat →
  read_members f l = Some r → read_members f' l = Some r.
Proof.
  revert f' l r. induction f as [|f IH]; intros f' l r Hf E; [done|].
  destruct f' as [|f']; [lia|]. cbn [read_members] in *.
  destruct (read_char 125 l) as [[|]|]; try done. destruct (read_char 44 l) as [l1|]; [|done].
  cbn [mbind option_bind] in *. destruct (read_member l1) as [[[k v] l2]|]; [|done].
  cbn [mbind option_bind] in *. destruct (read_members f l2) as [rest|] eqn:Er; [|done].
  by rewrite (IH f' l2 rest) by (lia || done).
Qed.

Lemma read_written_members f key value t :
  utf8_valid (bytes key) = true → utf8_valid (bytes value) = true →
  read_members (S f) ([","%char] ++ bytes (go_json_string key) ++ [":"%char] ++
                      bytes (go_json_string value) ++ t)
  = rest ← read_members f t; Some ((key, value) :: rest).
Proof.
  intros Hk Hv. cbn [read_members app].
  match goal with |- context [read_char 125 ?l] => change (read_char 125 l) with (@None (list ascii)) end.
  match goal with |- context [read_char 44 (_ :: ?l)] => change (read_char 44 (","%char :: l)) with (Some l) end.
  cbn [mbind option_bind]. pose proof (read_written_member key value t Hk Hv) as E. cbn [app] in E.
  by rewrite E.
Qed.

Definition domain_valid (d : StoredDomain) : Prop :=
  utf8_valid (bytes (sd_endpoint d)) = true ∧ utf8_valid (bytes (sd_name d)) = true ∧
  utf8_valid (bytes (sd_token d)) = true.

Lemma read_encoded d : domain_valid d →
  read_object (encode_stored_domain d)
  = Some [("Endpoint", sd_endpoint d); ("Name", sd_name d); ("Token", sd_token d)].
Proof.
  intros (He & Hn & Ht). unfold read_object.
  assert (bytes (encode_stored_domain d) =
    ["{"%char] ++ bytes (go_json_string "Endpoint") ++ [":"%char] ++ bytes (go_json_string (sd_endpoint d)) ++
    [","%char] ++ bytes (go_json_string "Name") ++ [":"%char] ++ bytes (go_json_string (sd_name d)) ++
    [","%char] ++ bytes (go_json_string "Token") ++ [":"%char] ++ bytes (go_json_string (sd_token d)) ++
    ["}"%char]) as ->.
  { unfold encode_stored_domain. rewrite !bytes_app. reflexivity. }
  match goal with |- context [read_char 123 (_ ++ ?l)] => change (read_char 123 (["{"%char] ++ l)) with (Some l) end.
  cbn [mbind option_bind]. rewrite read_written_member by (done || vm_compute; reflexivity).
  cbn [mbind option_bind].
  match goal with |- context [read_members ?n ?l] => assert (read_members n l
    = Some [("Name", sd_name d); ("Token", sd_token d)]) as -> end; [|done].
  eapply (read_members_more 3); [rewrite !length_app; cbn [length]; lia|].
  rewrite !read_written_members by (done || vm_compute; reflexivity). reflexivity.
Qed.

Lemma decode_encoded `{SerdeJson} d : domain_valid d →
  decode_stored_domain (bytes_of_str (encode_stored_domain d)) = inr d.
Proof.
  intros Hd. unfold decode_stored_domain. rewrite (json_events_object _ _ (read_encoded d Hd)).
  by destruct d.
Qed.

(** a reserved domain survives the store: the JSON text [encode_stored_domain]
    writes for a domain whose texts are valid UTF-8, with its escapes of quotes,
    control characters, HTML characters and line separators, is decoded to the same
    domain. *)
Theorem stored_domain_round_trip `{SerdeJson} d : domain_valid d →
  decode_stored_domain (bytes_of_str (encode_stored_domain d)) = inr d.
Proof. apply decode_encoded. Qed.

(** The reader that is read off the specification. *)
Definition reference_serde : SerdeJson.
Proof.
  refine {| json_events l := match read_object (of_bytes (map Ascii.ascii_of_byte l)) with
                             | Some l => inr (Some (map (fun '(k, v) => (k, FString v)) l))
                             | None => inl "expected value" end;
            json_type_error := "invalid type" |}.
  intros text l E. unfold bytes_of_str. rewrite map_map.
  assert (map (fun x => Ascii.ascii_of_byte (Ascii.byte_of_ascii x)) (bytes text) = bytes text) as ->.
  { rewrite <-(map_id (bytes text)) at 2. apply map_ext. intros c. apply Ascii.ascii_of_byte_of_ascii. }
  by rewrite of_bytes_bytes, E.
Defined.

Lemma stored_domain_round_trip_witness :
  decode_stored_domain (H := reference_serde)
    (bytes_of_str (encode_stored_domain (mk_StoredDomain "https://dns" "<a&b>" "t"))) =
  inr (mk_StoredDomain "https://dns" "<a&b>" "t").
Proof.
  apply (stored_domain_round_trip (H := reference_serde)).
  unfold domain_valid. repeat split; vm_compute; reflexivity.
Defined.
