(* ===== verification/Cluster.v ===== *)
(** * The cluster service: [service.rs] of ployz-internal-machine-cluster

    Handlers are programs whose calls to the cluster store, to corrosion's admin
    socket and to the DNS service are explicit; a call is what the code awaits, so
    other requests may run between two calls.  What is random or a clock reading
    is an argument of the handler, and so are the latches, as they are read. *)

From S2P Require Import Prelude RustStr NetAddr Ipam PbAddr Port Machine Time Secret.
From S2P Require Import MachineName GoQuote Chars ClusterDns.

Definition NETWORK_KEY : string := "network".
Definition CREATED_AT_KEY : string := "created_at".
Definition UNCLOUD_DNS_KEY : string := "uncloud_dns".

(** ** Data *)

(** [Error] of ployz-internal-machine-store; a boxed error is its text. *)
Inductive StoreError :=
| KeyNotFound
| MachineNotFound (id : string)
| InvalidInput (message : string)
| InvalidData (message : string)
| Operation (context source : string).

Definition store_error_display (e : StoreError) : string :=
  match e with
  | KeyNotFound => "key not found"
  | MachineNotFound id => "machine not found: " +:+ id
  | InvalidInput message | InvalidData message => message
  | Operation context source => context +:+ ": " +:+ source
  end.

Inductive ClusterInitError :=
| AlreadyInitialised
| InitStore (context : string) (source : StoreError).

Definition cluster_init_error_display (e : ClusterInitError) : string :=
  match e with
  | AlreadyInitialised => "cluster is already initialised on this machine"
  | InitStore context source => context +:+ ": " +:+ store_error_display source
  end.

(** [MembershipState] and [ClusterMembershipState] of corrosion's admin client; a
    timestamp is its seconds and nanoseconds. *)
Inductive AdminState : Set := AS_Alive | AS_Suspect | AS_Down.
Record ClusterMembershipState := mk_ClusterMembershipState {
  cms_id : string; cms_address : IpAddr * Z; cms_state : AdminState; cms_timestamp : Z * Z
}.

Record AddMachineRequest := mk_AddMachineRequest {
  am_name : string; am_network : option NetworkConfig; am_public_ip : option Ip
}.

(** The fields of [Cluster] that are not connections. *)
Record ClusterSelf := mk_ClusterSelf {
  cs_machine_id : string; cs_initialised : bool; cs_ready : bool
}.

(** [Latch::signal] on each latch, and [update_machine_id]. *)
Definition signal_initialised (self : ClusterSelf) : ClusterSelf :=
  mk_ClusterSelf (cs_machine_id self) true (cs_ready self).
Definition signal_ready (self : ClusterSelf) : ClusterSelf :=
  mk_ClusterSelf (cs_machine_id self) (cs_initialised self) true.
Definition update_machine_id (id : string) (self : ClusterSelf) : ClusterSelf :=
  mk_ClusterSelf id (cs_initialised self) (cs_ready self).

(** ** Programs *)

(** The methods of [StoreAccess], [AdminAccess] and [DnsAccess]. *)
Inductive action :=
| PutString (key value : string)
| PutBytes (key : string) (value : list byte)
| GetString (key : string)
| GetBytes (key : string)
| DeleteKey (key : string)
| ListMachines
| CreateMachine (machine : MachineInfo)
| DeleteMachine (id : string)
| DeleteMachineContainers (id : string)
| MembershipStates
| DnsReserve (endpoint : string)
| DnsCreate (endpoint domain token : string) (records : list RecordRequest).

(** The answer of a call.  The admin and DNS errors are their texts; a DNS call
    runs in a blocking task, whose failure is the outer error. *)
Definition answer (a : action) : Type :=
  match a with
  | PutString _ _ | PutBytes _ _ | DeleteKey _ | CreateMachine _ | DeleteMachine _
  | DeleteMachineContainers _ => result StoreError ()
  | GetString _ => result StoreError string
  | GetBytes _ => result StoreError (list byte)
  | ListMachines => result StoreError (list MachineInfo)
  | MembershipStates => result string (list ClusterMembershipState)
  | DnsReserve _ => result string (result string (string * string))
  | DnsCreate _ _ _ _ => result string (result string (list RecordResponse))
  end.

Inductive prog (A : Type) : Type :=
| Ret (x : A)
| Call (a : action) (k : answer a → prog A).
Arguments Ret {A} x.
Arguments Call {A} a k.

(** A handler ends with a value, an error or a panic; [x ← m; k] is the [?] operator. *)
Definition handler (E A : Type) : Type := prog (result E A).

Fixpoint handler_mbind {E A B} (k : A → handler E B) (m : handler E A) : handler E B :=
  match m with
  | Ret (Ok x) => k x
  | Ret (Err e) => Ret (Err e)
  | Ret (Panic msg) => Ret (Panic msg)
  | Call a r => Call a (fun x => handler_mbind k (r x))
  end.
#[export] Instance handler_ret E : MRet (handler E) := fun A x => Ret (Ok x).
#[export] Instance handler_bind E : MBind (handler E) := fun A B => handler_mbind.

(** A computation without calls; one call; one call whose error becomes a status. *)
Definition lift {E A} (r : result E A) : handler E A := Ret r.
Definition call (a : action) {E A} (f : answer a → result E A) : handler E A :=
  Call a (fun r => Ret (f r)).

Definition err {A} (code : Code) (message : string) : result Status A :=
  Err (mk_Status code message).
Definition internal {A} (message : string) : result Status A := err CodeInternal message.

(** [.map_err(|error| Status::internal(format!("{context}: {error}")))]. *)
Definition or_internal {A} (context : string) (r : result StoreError A) : result Status A :=
  map_err (fun e => mk_Status CodeInternal (context +:+ ": " +:+ store_error_display e)) r.

(** ** [impl Cluster] *)

Section handlers.
Context `{HexLib}.

(** [Cluster::init] at the time [now]. *)
Definition init (self : ClusterSelf) (now : Z) (net : IpPrefix) : handler ClusterInitError () :=
  if cs_initialised self then Ret (Err AlreadyInitialised)
  else
    _ ← call (PutString NETWORK_KEY (prefix_display net)) (map_err (InitStore "put network to store"));
    call (PutString CREATED_AT_KEY (rfc3339_utc now)) (map_err (InitStore "put created_at to store")).

(** [Cluster::network]. *)
Definition cluster_network : handler Status IpPrefix :=
  network ← call (GetString NETWORK_KEY) (or_internal "get network from store");
  lift (map_err (fun e => mk_Status CodeInternal ("parse network prefix: " +:+ prefix_error_display e))
          (prefix_from_str network)).

(** [Cluster::check_ready]. *)
Definition check_ready (self : ClusterSelf) : result Status () :=
  if cs_ready self then Ok ()
  else err CodeUnavailable "machine is not ready to serve cluster requests".

(** [prefix_from_proto], [prefix_to_proto]. *)
Definition prefix_from_proto (prefix : PbIpPrefix) : result AddressError IpPrefix :=
  '(addr, b) ← PbIpPrefix_to_prefix prefix;
  match prefix_new addr b with
  | Ok p => Ok p
  | Err _ | Panic _ => Panic "protobuf helper validated prefix length"
  end.
Definition prefix_to_proto (prefix : IpPrefix) : PbIpPrefix :=
  PbIpPrefix_new (address prefix) (bits prefix).

(** [.management_ip.as_ref().and_then(|address| address.to_addr().ok())]. *)
Definition management_address (network : NetworkConfig) : result Status (option Address) :=
  match nc_management_ip network with Some ip => result_ok (Ip_to_addr ip) | None => Ok None end.

(** The body of the loop over the stored machines in
    [add_machine_without_ready_check]. *)
Definition scan_machine (name : string) (requested : option Address) (public_key : list byte)
    (allocated : list IpPrefix) (machine : MachineInfo) : result Status (list IpPrefix) :=
  if negb (str_is_empty name) && bool_decide (mi_name machine = name)
  then err CodeAlreadyExists ("machine with name " +:+ go_quote name +:+ " already exists")
  else
    stored ← expect "stored machine network not set" (mi_network machine);
    stored_management ← management_address stored;
    _ ← match requested with
        | Some address =>
            if bool_decide (stored_management = Some address)
            then err CodeAlreadyExists
                   ("machine with management IP " +:+ double_quote +:+ ip_display (addr_ip address)
                      +:+ double_quote +:+ " already exists under the name "
                      +:+ go_quote (mi_name machine))
            else Ok ()
        | None => Ok ()
        end;
    if bool_decide (nc_public_key stored = public_key)
    then err CodeAlreadyExists
           ("machine with public key " +:+ go_quote (to_hex_string (secret_from (nc_public_key stored)))
              +:+ " already exists under the name " +:+ go_quote (mi_name machine))
    else
      subnet ← expect "stored machine subnet not set" (nc_subnet stored);
      match prefix_from_proto subnet with
      | Ok prefix => Ok (allocated ++ [prefix])
      | Err _ | Panic _ => Panic "stored machine subnet is valid"
      end.

(** The checks of the request before the first call. *)
Definition check_request (request : AddMachineRequest) : result Status NetworkConfig :=
  network ← ok_or (mk_Status CodeInvalidArgument "network not set") (am_network request);
  _ ← NetworkConfig_validate network;
  _ ← (if bool_decide (nc_endpoints network = []) then invalid_argument "endpoints not set" else Ok ());
  _ ← match am_public_ip request with
      | Some public_ip =>
          map_err (fun e => mk_Status CodeInvalidArgument
                              ("invalid public IP: " +:+ address_error_display e)) (Ip_to_addr public_ip)
      | None => Ok (address_from (V4 0))
      end;
  Ok network.

(** The management address of the new machine: the requested one or one derived from its key. *)
Definition machine_management (network : NetworkConfig) : result Status Ip :=
  match nc_management_ip network with
  | Some ip => Ok ip
  | None =>
      address ← map_err (fun e => mk_Status CodeInternal ("derive management IP: " +:+ e))
                  (management_ip (secret_from (nc_public_key network)));
      Ok (Ip_new (address_from (V6 address)))
  end.

(** [Ipam::with_allocated] and [allocate_subnet_len] with their statuses. *)
Definition next_subnet (net : IpPrefix) (used : list IpPrefix) : result Status IpPrefix :=
  ipam ← map_err (fun e => mk_Status CodeInternal ("create IPAM manager: " +:+ prefix_error_display e))
           (with_allocated net used);
  '(subnet, _) ← map_err (fun e => mk_Status CodeInternal
                                     ("allocate subnet for machine: " +:+ prefix_error_display e))
                   (allocate_subnet_len ipam DEFAULT_SUBNET_BITS);
  Ok subnet.

(** [add_machine_without_ready_check]; [id] and [random_name] are what
    [new_machine_id] and [new_random_machine_name] give. *)
Definition add_machine_without_ready_check (id random_name : result SecretError string)
    (request : AddMachineRequest) : handler Status MachineInfo :=
  network ← lift (check_request request);
  machines ← call ListMachines (or_internal "list machines");
  requested ← lift (management_address network);
  allocated ← lift (foldM (scan_machine (am_name request) requested (nc_public_key network)) [] machines);
  machine_id ← lift (map_err (fun e => mk_Status CodeInternal
                                ("generate machine ID: " +:+ secret_error_display e)) id);
  name ← lift (if str_is_empty (am_name request)
               then map_err (fun e => mk_Status CodeInternal
                               ("generate machine name: " +:+ machine_name_error_display e)) random_name
               else Ok (am_name request));
  management ← lift (machine_management network);
  net ← cluster_network;
  subnet ← lift (next_subnet net allocated);
  let machine := mk_MachineInfo machine_id name
                   (Some (mk_NetworkConfig (Some (prefix_to_proto subnet)) (Some management)
                            (nc_endpoints network) (nc_public_key network)))
                   (am_public_ip request) "" "" "" "" "" "" in
  _ ← call (CreateMachine machine) (or_internal "create machine");
  lift (Ok machine).

(** [cluster_server::Cluster::add_machine]. *)
Definition add_machine (self : ClusterSelf) (id random_name : result SecretError string)
    (request : AddMachineRequest) : handler Status MachineInfo :=
  _ ← lift (check_ready self);
  add_machine_without_ready_check id random_name request.
End handlers.

(** [addresses_equal]. *)
Definition addresses_equal (ip : IpAddr) (management : Address) : bool :=
  bool_decide (addr_zone management = []) && bool_decide (ip = addr_ip management).

(** The closure of [list_machines_inner] on one machine. *)
Definition machine_member (states : list ClusterMembershipState) (local_id : string)
    (machine : MachineInfo) : result Status PbMachineMember :=
  network ← expect "stored machine network not set" (mi_network machine);
  ip ← expect "stored machine management IP not set" (nc_management_ip network);
  management ← match Ip_to_addr ip with
               | Ok a => Ok a
               | Err _ | Panic _ => Panic "stored machine management IP is valid"
               end;
  let state := match List.find (fun s => addresses_equal (cms_address s).1 management) states with
               | Some s => match cms_state s with AS_Alive => 1 | AS_Suspect => 2 | AS_Down => 3 end
               | None => 3
               end in
  let state := if bool_decide (mi_id machine = local_id) then 1 else state in
  Ok (mk_PbMachineMember (Some machine) state).

(** [.map(..).collect()]. *)
Fixpoint traverse {E A B} (f : A → result E B) (l : list A) : result E (list B) :=
  match l with
  | [] => Ok []
  | x :: l => y ← f x; ys ← traverse f l; Ok (y :: ys)
  end.

(** [list_machines_inner]. *)
Definition list_machines (self : ClusterSelf) : handler Status (list PbMachineMember) :=
  _ ← lift (check_ready self);
  machines ← call ListMachines (map_err (fun e => mk_Status CodeInternal (store_error_display e)));
  states ← call MembershipStates
             (map_err (fun e => mk_Status CodeInternal ("get cluster membership states: " +:+ e)));
  lift (traverse (machine_member states (cs_machine_id self)) machines).

(** The status of a failed [delete_machine]. *)
Definition remove_error (id : string) (e : StoreError) : Status :=
  match e with
  | MachineNotFound _ => mk_Status CodeNotFound ("machine not found: " +:+ id)
  | e => mk_Status CodeInternal ("delete machine from store: " +:+ store_error_display e)
  end.

(** [cluster_server::Cluster::remove_machine]; a failed clean-up of the
    containers is only logged. *)
Definition remove_machine (self : ClusterSelf) (id : string) : handler Status () :=
  _ ← lift (check_ready self);
  if str_is_empty id then lift (invalid_argument "machine ID not set")
  else
    _ ← call (DeleteMachineContainers id) (fun r => match r with Panic m => Panic m | _ => Ok () end);
    call (DeleteMachine id) (map_err (remove_error id)).

(** ** The cluster's domain *)

(** The outcome of a handler as a value; a panic goes on. *)
Fixpoint attempt {E E' A} (m : handler E A) : handler E' (E + A) :=
  match m with
  | Ret (Ok x) => Ret (Ok (inr x))
  | Ret (Err e) => Ret (Ok (inl e))
  | Ret (Panic msg) => Ret (Panic msg)
  | Call a k => Call a (fun r => attempt (k r))
  end.

(** The answer of a DNS call: the task's failure, the service's error, or the value. *)
Definition dns_answer {A} (code : Code) (task : string) (r : result string (result string A)) :
    result Status A :=
  inner ← map_err (fun e => mk_Status code (task +:+ " task failed: " +:+ e)) r;
  map_err (mk_Status code) inner.

Section domain.
Context `{SerdeJson}.

(** [stored_domain]. *)
Definition stored_domain : handler Status StoredDomain :=
  json ← call (GetBytes UNCLOUD_DNS_KEY) (map_err (fun e =>
           match e with
           | KeyNotFound => mk_Status CodeNotFound "domain not found"
           | e => mk_Status CodeInternal ("get domain from store: " +:+ store_error_display e)
           end));
  lift (match decode_stored_domain json with
        | inr domain => Ok domain
        | inl e => internal ("unmarshal domain: " +:+ e)
        end).

(** [reserve_domain_inner]; the response [Domain] is its name. *)
Definition reserve_domain (self : ClusterSelf) (endpoint : string) : handler Status string :=
  _ ← lift (check_ready self);
  if str_is_empty endpoint then lift (invalid_argument "API endpoint not set")
  else
    stored ← attempt stored_domain;
    _ ← lift (match stored with
              | inr _ => err CodeAlreadyExists "domain already reserved"
              | inl status =>
                  match status_code status with CodeNotFound => Ok () | _ => Err status end
              end);
    '(name, token) ← call (DnsReserve endpoint) (dns_answer CodeInternal "DNS reservation");
    let domain := mk_StoredDomain endpoint name token in
    _ ← call (PutBytes UNCLOUD_DNS_KEY (bytes_of_str (encode_stored_domain domain)))
          (or_internal "store reserved domain");
    lift (Ok name).

(** [get_domain_inner]. *)
Definition get_domain (self : ClusterSelf) : handler Status string :=
  _ ← lift (check_ready self);
  domain ← stored_domain;
  lift (Ok (sd_name domain)).

(** [release_domain_inner]. *)
Definition release_domain (self : ClusterSelf) : handler Status string :=
  _ ← lift (check_ready self);
  domain ← stored_domain;
  _ ← call (DeleteKey UNCLOUD_DNS_KEY) (or_internal "delete domain from store");
  lift (Ok (sd_name domain)).

(** [create_domain_records_inner]. *)
Definition create_domain_records (self : ClusterSelf) (records : list DnsRecord) :
    handler Status (list DnsRecord) :=
  _ ← lift (check_ready self);
  domain ← stored_domain;
  responses ← call (DnsCreate (sd_endpoint domain) (sd_name domain) (sd_token domain)
                      (map map_record_request records)) (dns_answer CodeUnknown "DNS records");
  lift (Ok (map map_record_response responses)).
End domain.
