(* ===== verification/ClusterSpec.v ===== *)
(** * What the cluster service relies on

    The store as the cluster service sees it: the values, the machines and the
    containers of the cluster, and what a call may answer and change, failures
    included.  A handler's correctness is stated over every run of its calls
    ([wp]), alone or interleaved with other handlers ([pool_step]); a store in memory
    is one implementation ([mem_step]). *)

From S2P Require Import Prelude RustStr NetAddr Ipam PbAddr Port Machine Secret.
From S2P Require Import MachineName GoQuote Chars ClusterDns Cluster.

(** ** The abstract store *)

Inductive StoredValue := SText (s : string) | SBlob (l : list byte).

(** Containers are known by their id and machine. *)
Record ClusterDb := mk_ClusterDb {
  db_values : gmap string StoredValue;
  db_machines : list MachineInfo;
  db_containers : gmap string string
}.

Definition set_value (key : string) (v : StoredValue) (s : ClusterDb) : ClusterDb :=
  mk_ClusterDb (<[key := v]> (db_values s)) (db_machines s) (db_containers s).
Definition del_value (key : string) (s : ClusterDb) : ClusterDb :=
  mk_ClusterDb (delete key (db_values s)) (db_machines s) (db_containers s).
Definition put_machine (m : MachineInfo) (s : ClusterDb) : ClusterDb :=
  mk_ClusterDb (db_values s) (db_machines s ++ [m]) (db_containers s).
Definition del_machine (id : string) (s : ClusterDb) : ClusterDb :=
  mk_ClusterDb (db_values s) (filter (fun m => mi_id m ≠ id) (db_machines s)) (db_containers s).
Definition del_containers (machine_id : string) (s : ClusterDb) : ClusterDb :=
  mk_ClusterDb (db_values s) (db_machines s) (filter (fun c => c.2 ≠ machine_id) (db_containers s)).

Definition has_machine (id : string) (s : ClusterDb) : Prop := id ∈ map mi_id (db_machines s).
#[export] Instance has_machine_dec id s : Decision (has_machine id s).
Proof. unfold has_machine. apply _. Defined.

(** A write: done when it succeeds, done or not when it fails. *)
Definition write_spec {E} (s done : ClusterDb) (r : result E ()) (s' : ClusterDb) : Prop :=
  match r with Ok _ => s' = done | Err _ => s' = s ∨ s' = done | Panic _ => False end.

(** A read of a key.  What a value of the other type reads as is left open. *)
Definition read_spec {A} (wrap : A → StoredValue) (key : string) (s : ClusterDb)
    (r : result StoreError A) : Prop :=
  match r with
  | Ok v => ∃ x, db_values s !! key = Some x ∧ ∀ v', x = wrap v' → v' = v
  | Err KeyNotFound => db_values s !! key = None
  | Err _ => True
  | Panic _ => False
  end.

(** The answers and effects a call may have.  A machine id is a primary key;
    the strings of an answer are UTF-8.  A listing that answers is complete: what is
    proved against [call_spec] leaves out a stream of rows that ends with an error,
    which the store answers as if it had ended ([listing_cut] of the store). *)
Definition call_spec (a : action) (s : ClusterDb) : answer a → ClusterDb → Prop :=
  match a with
  | PutString key value => write_spec s (set_value key (SText value) s)
  | PutBytes key value => write_spec s (set_value key (SBlob value) s)
  | GetString key => fun r s' => s' = s ∧ read_spec SText key s r
  | GetBytes key => fun r s' => s' = s ∧ read_spec SBlob key s r
  | DeleteKey key => write_spec s (del_value key s)
  | ListMachines => fun r s' =>
      s' = s ∧ match r with Ok l => l ≡ₚ db_machines s | Err _ => True | Panic _ => False end
  | CreateMachine m => fun r s' =>
      write_spec s (put_machine m s) r s' ∧ (s' = put_machine m s → ¬ has_machine (mi_id m) s)
  | DeleteMachine id => fun r s' =>
      match r with
      | Ok _ => has_machine id s ∧ s' = del_machine id s
      | Err (MachineNotFound _) => ¬ has_machine id s ∧ s' = s
      | Err _ => s' = s ∨ s' = del_machine id s
      | Panic _ => False
      end
  | DeleteMachineContainers id => write_spec s (del_containers id s)
  | MembershipStates => fun r s' => s' = s ∧ match r with Panic _ => False | _ => True end
  | DnsReserve _ => fun r s' =>
      s' = s ∧ match r with
               | Ok (Ok (name, token)) => utf8_valid (bytes name) = true ∧ utf8_valid (bytes token) = true
               | Panic _ | Ok (Panic _) => False
               | _ => True
               end
  | DnsCreate _ _ _ _ => fun r s' =>
      s' = s ∧ match r with Panic _ | Ok (Panic _) => False | _ => True end
  end.

(** ** Runs *)

(** [wp p s Q]: every run of [p] from [s] ends in a value and state that satisfy [Q]. *)
Fixpoint wp {A} (p : prog A) (s : ClusterDb) (Q : A → ClusterDb → Prop) : Prop :=
  match p with
  | Ret x => Q x s
  | Call a k => ∀ r s', call_spec a s r s' → wp (k r) s' Q
  end.

(** One run. *)
Inductive runs {A} : prog A → ClusterDb → A → ClusterDb → Prop :=
| runs_ret x s : runs (Ret x) s x s
| runs_call a k s r s' x s'' : call_spec a s r s' → runs (k r) s' x s'' → runs (Call a k) s x s''.

Lemma wp_runs {A} (p : prog A) s Q x s' : wp p s Q → runs p s x s' → Q x s'.
Proof. intros Hwp Hr. induction Hr as [|a k s r s' x s'' Ha Hr IH]; [done|]. by apply IH, Hwp. Qed.

(** Several handlers, one of which makes its next call. *)
Inductive pool_step {A} : list (prog A) * ClusterDb → list (prog A) * ClusterDb → Prop :=
| pool_call pool s i a k r s' :
    pool !! i = Some (Call a k) → call_spec a s r s' →
    pool_step (pool, s) (<[i := k r]> pool, s').

(** ** A store in memory

    After the [MemoryStore], [MemoryAdmin] and [MemoryDns] of the service's tests,
    with the table's primary key; [states] and [fail_container_delete] are their
    configuration. *)
Section memory.
Context (states : list ClusterMembershipState) (fail_container_delete : bool).

Definition mem_step (a : action) (s : ClusterDb) : answer a * ClusterDb :=
  match a return answer a * ClusterDb with
  | PutString key value => (Ok (), set_value key (SText value) s)
  | PutBytes key value => (Ok (), set_value key (SBlob value) s)
  | GetString key =>
      (match db_values s !! key with
       | Some (SText v) => Ok v
       | Some (SBlob _) => Err (InvalidData "not text")
       | None => Err KeyNotFound
       end, s)
  | GetBytes key =>
      (match db_values s !! key with
       | Some (SBlob v) => Ok v
       | Some (SText _) => Err (InvalidData "not bytes")
       | None => Err KeyNotFound
       end, s)
  | DeleteKey key => (Ok (), del_value key s)
  | ListMachines => (Ok (db_machines s), s)
  | CreateMachine m =>
      if bool_decide (has_machine (mi_id m) s)
      then (Err (Operation "insert query" "UNIQUE constraint failed: machines.id"), s)
      else (Ok (), put_machine m s)
  | DeleteMachine id =>
      if bool_decide (has_machine id s) then (Ok (), del_machine id s)
      else (Err (MachineNotFound id), s)
  | DeleteMachineContainers id =>
      if fail_container_delete then (Err (InvalidData "container cleanup failed"), s)
      else (Ok (), del_containers id s)
  | MembershipStates => (Ok states, s)
  | DnsReserve _ => (Ok (Ok ("example.uncloud.run", "secret-token")), s)
  | DnsCreate _ _ _ records =>
      (Ok (Ok (map (fun r => mk_RecordResponse r (rq_name r +:+ ".example.uncloud.run")) records)), s)
  end.

Fixpoint run {A} (p : prog A) (s : ClusterDb) : A * ClusterDb :=
  match p with
  | Ret x => (x, s)
  | Call a k => let '(r, s') := mem_step a s in run (k r) s'
  end.

(** The store in memory keeps the promises, so every handler has a run. *)
Lemma mem_step_spec a s : let '(r, s') := mem_step a s in call_spec a s r s'.
Proof.
  destruct a; cbn; try done.
  - destruct (db_values s !! key) as [[]|] eqn:E; try done. split; [done|]. eexists. split; [done|].
    by intros v' [= ->].
  - destruct (db_values s !! key) as [[]|] eqn:E; try done. split; [done|]. eexists. split; [done|].
    by intros v' [= ->].
  - case_bool_decide; cbn; [|done].
    split; [by left|]. intros E. exfalso. apply (f_equal (length ∘ db_machines)) in E.
    cbn in E. rewrite length_app in E. cbn in E. lia.
  - by case_bool_decide.
  - destruct fail_container_delete; cbn; auto.
Qed.

Lemma wp_run {A} (p : prog A) s Q : wp p s Q → let '(x, s') := run p s in Q x s'.
Proof.
  revert s. induction p as [x|a k IH]; intros s Hwp; cbn in *; [done|].
  pose proof (mem_step_spec a s) as Ha. destruct (mem_step a s) as [r s']. by apply IH, Hwp.
Qed.

Lemma run_runs {A} (p : prog A) s : runs p s (run p s).1 (run p s).2.
Proof.
  revert s. induction p as [x|a k IH]; intros s; cbn; [constructor|].
  pose proof (mem_step_spec a s) as Ha. destruct (mem_step a s) as [r s'].
  econstructor; [done|apply IH].
Qed.
End memory.

(** ** Rules *)

Definition on_result {E A B} (r : result E A) (s : ClusterDb) (Q : result E B → ClusterDb → Prop)
    (k : A → ClusterDb → Prop) : Prop :=
  match r with Ok x => k x s | Err e => Q (Err e) s | Panic msg => Q (Panic msg) s end.

Lemma wp_bind {E A B} (m : handler E A) (k : A → handler E B) s Q :
  wp (m ≫= k) s Q ↔ wp m s (fun r s' => on_result r s' Q (fun x s'' => wp (k x) s'' Q)).
Proof.
  revert s. induction m as [[x|e|msg]|a r IH]; intros s; [done..|].
  split; intros Hwp x s' Hx; apply IH, Hwp, Hx.
Qed.

Lemma wp_mono {A} (p : prog A) s (Q Q' : A → ClusterDb → Prop) :
  wp p s Q → (∀ x s', Q x s' → Q' x s') → wp p s Q'.
Proof. intros Hwp HQ. revert s Hwp. induction p as [x|a k IH]; cbn; eauto. Qed.

Lemma wp_call (a : action) {E A} (f : answer a → result E A) s Q :
  wp (call a f) s Q ↔ ∀ r s', call_spec a s r s' → Q (f r) s'.
Proof. done. Qed.

Lemma wp_lift {E A} (r : result E A) s Q : wp (lift r) s Q ↔ Q r s.
Proof. done. Qed.

Lemma wp_attempt {E E' A} (m : handler E A) s (Q : result E' (E + A) → ClusterDb → Prop) :
  wp (attempt m) s Q ↔
  wp m s (fun r s' => match r with
                      | Ok x => Q (Ok (inr x)) s' | Err e => Q (Ok (inl e)) s'
                      | Panic msg => Q (Panic msg) s' end).
Proof.
  revert s. induction m as [[x|e|msg]|a r IH]; intros s; [done..|].
  split; intros Hwp x s' Hx; apply IH, Hwp, Hx.
Qed.
