(* ===== verification/ClusterProps.v ===== *)
(** * Properties of the cluster service *)

From S2P Require Import Prelude RustStr NetAddr Ipam PbAddr Port Machine Secret.
From S2P Require Import MachineName GoQuote Chars ClusterDns Cluster ClusterSpec.

(** ** What a stored machine says *)

Definition machine_subnet (m : MachineInfo) : option IpPrefix :=
  network ← mi_network m; subnet ← nc_subnet network;
  match prefix_from_proto subnet with Ok p => Some p | _ => None end.
Definition machine_key (m : MachineInfo) : option (list byte) := nc_public_key <$> mi_network m.
Definition machine_address (m : MachineInfo) : option Address :=
  network ← mi_network m; ip ← nc_management_ip network;
  match Ip_to_addr ip with Ok a => Some a | _ => None end.

Definition within (net p : IpPrefix) : Prop := ∀ a, ip_wf a → in_block p a → in_block net a.

Definition machine_ok (net : IpPrefix) (m : MachineInfo) : Prop :=
  (∃ p, machine_subnet m = Some p ∧ within net p) ∧ is_Some (machine_address m).

(** The invariant of a cluster with the network [net]. *)
Record cluster_inv (net : IpPrefix) (s : ClusterDb) : Prop := {
  inv_wf : prefix_wf net;
  inv_network : ∃ text, db_values s !! NETWORK_KEY = Some (SText text) ∧ prefix_from_str text = Ok net;
  inv_machines : Forall (machine_ok net) (db_machines s);
  inv_disjoint : pairwise_disjoint (omap machine_subnet (db_machines s));
  inv_keys : NoDup (map machine_key (db_machines s));
  inv_ids : NoDup (map mi_id (db_machines s))
}.

Lemma prefix_new_ok addr b : 0 <= b <= bit_len addr → prefix_new addr b = Ok (mk_IpPrefix addr b).
Proof. intros Hb. unfold prefix_new. by rewrite (proj2 (Z.ltb_ge _ _)) by lia. Qed.

Lemma prefix_from_proto_wf p q : prefix_from_proto p = Ok q → prefix_wf q.
Proof.
  unfold prefix_from_proto, PbIpPrefix_to_prefix. destruct (pfx_ip p) as [ip|]; [cbn|done].
  destruct (Ip_to_addr ip) as [[a z]| |] eqn:Ea; [cbn|done..].
  apply Ip_to_addr_wf in Ea as [[Ha _] _]. destruct z; [cbn|done]. destruct (_ <? _); [done|]. cbn.
  unfold prefix_new. destruct (Z.ltb_spec (bit_len a) (pfx_bits p mod 2 ^ 8)); [done|].
  intros [= <-]. split; [done|]. cbn in *. pose proof (Z.mod_pos_bound (pfx_bits p) (2 ^ 8)). lia.
Qed.

Lemma prefix_proto_round p : prefix_wf p → prefix_from_proto (prefix_to_proto p) = Ok p.
Proof.
  intros [Ha Hb]. unfold prefix_from_proto, PbIpPrefix_to_prefix, prefix_to_proto. cbn.
  rewrite Ip_new_to_addr by (split; [done|by destruct (address p)]). cbn.
  assert ((if is_ipv4 (address p) then 32 else 128) = bit_len (address p)) as -> by by destruct (address p).
  rewrite (proj2 (Z.ltb_ge _ _)) by lia. cbn.
  pose proof (bit_len_cases (address p)). rewrite Z.mod_small by lia.
  rewrite prefix_new_ok by done. by destruct p.
Qed.

Lemma machine_subnet_wf m p : machine_subnet m = Some p → prefix_wf p.
Proof.
  unfold machine_subnet. destruct (mi_network m) as [n|]; [cbn|done].
  destruct (nc_subnet n) as [q|]; [cbn|done]. destruct (prefix_from_proto q) eqn:E; try done.
  intros [= <-]. by eapply prefix_from_proto_wf.
Qed.

(** ** The scan of the stored machines *)

(** [m] leaves room for a machine of that name, management address and key. *)
Definition no_conflict (name : string) (requested : option Address) (key : list byte)
    (m : MachineInfo) : Prop :=
  (name = "" ∨ mi_name m ≠ name) ∧ (∀ a, requested = Some a → machine_address m ≠ Some a) ∧
  machine_key m ≠ Some key.

Lemma scan_machine_spec `{HexLib} net name requested key used m : machine_ok net m →
  result_spec (scan_machine name requested key used m)
    (fun used' => no_conflict name requested key m ∧ used' = used ++ omap machine_subnet [m])
    (fun st => status_code st = CodeAlreadyExists ∧ ¬ no_conflict name requested key m).
Proof.
  intros [(p & Hp & _) (addr & Haddr)].
  assert (used ++ omap machine_subnet [m] = used ++ [p]) as -> by (cbn; by rewrite Hp).
  unfold scan_machine, no_conflict. rewrite Haddr.
  unfold machine_subnet, machine_address, machine_key, management_address in *.
  destruct (mi_network m) as [n|]; cbn in *; [|done].
  destruct (nc_subnet n) as [q|]; cbn in *; [|done].
  destruct (prefix_from_proto q); cbn in *; [|done..]. injection Hp as ->.
  destruct (nc_management_ip n) as [ip|]; cbn in *; [|done].
  destruct (Ip_to_addr ip) as [addr'| |] eqn:Eip; cbn in *; [|done..]. injection Haddr as ->.
  destruct (negb (str_is_empty name) && bool_decide (mi_name m = name)) eqn:En; cbn.
  { apply andb_prop in En as [En1 En2%bool_decide_eq_true]. destruct name; naive_solver. }
  assert (name = "" ∨ mi_name m ≠ name) as Hname.
  { destruct name; [by left|right]. by apply bool_decide_eq_false in En. }
  set (b := match requested with Some a => bool_decide (Some addr = Some a) | None => false end).
  assert (b = true ↔ requested = Some addr) as Hb.
  { unfold b. destruct requested; [rewrite bool_decide_eq_true|]; naive_solver. }
  assert (∀ (e : Address → result Status ()),
    match requested with Some a => if bool_decide (Some addr = Some a) then e a else Ok () | None => Ok () end
    = if b then e addr else Ok ()) as ->.
  { intros e. unfold b. destruct requested as [a|]; [|done]. destruct (bool_decide (Some addr = Some a)) eqn:Ea; [|done].
    apply bool_decide_eq_true in Ea. injection Ea as ->. done. }
  destruct b; cbn.
  { split; [done|]. intros (_ & Hc & _). by apply (Hc addr); [apply Hb|]. }
  destruct (bool_decide (nc_public_key n = key)) eqn:Hk; cbn.
  { apply bool_decide_eq_true in Hk.
    split; [done|]. intros (_ & _ & Hc). apply Hc. by rewrite Hk. }
  apply bool_decide_eq_false in Hk.
  split; [|done]. split; [done|]. split; [|congruence].
  intros a Ha E. destruct Hb as [_ Hb]. by rewrite Ha, E in Hb; specialize (Hb eq_refl).
Qed.

Lemma scan_spec `{HexLib} net name requested key l : Forall (machine_ok net) l →
  result_spec (foldM (scan_machine name requested key) [] l)
    (fun used => used = omap machine_subnet l ∧ Forall (no_conflict name requested key) l)
    (fun st => status_code st = CodeAlreadyExists ∧ ¬ Forall (no_conflict name requested key) l).
Proof.
  intros Hl. apply (foldM_spec _ (fun pre used =>
    used = omap machine_subnet pre ∧ Forall (no_conflict name requested key) pre)); [done|].
  intros pre m post used -> [-> Hpre].
  apply Forall_app in Hl as [_ Hl]. apply Forall_cons in Hl as [Hm _].
  eapply result_spec_mono; [by apply (scan_machine_spec net)| |].
  - intros used' _ [Hc ->]. rewrite omap_app. split; [done|]. by apply Forall_app_2; [|apply Forall_singleton].
  - intros st _ [Hst Hc]. split; [done|]. by intros [_ [Hm' _]%Forall_cons]%Forall_app.
Qed.

(** ** The next subnet *)

Lemma pairwise_disjoint_perm l l' : l ≡ₚ l' → pairwise_disjoint l → pairwise_disjoint l'.
Proof.
  intros (_ & f & Hf & Hl)%symmetry%Permutation_inj Hd i j p q Hij Hi Hj.
  apply (Hd (f i) (f j)); [by intros ?%Hf|by rewrite <-Hl..].
Qed.

Lemma within_ends net p : prefix_wf p → within net p →
  in_block net (address p) ∧ ∀ l, @last_address IpPrefixError p = Ok l → in_block net l.
Proof.
  intros Hp Hw. split; [apply Hw; [apply Hp|by apply in_block_self]|].
  intros l El. destruct (last_address_spec (E:=IpPrefixError) p Hp) as (l' & El' & Hl & Hv & Hf).
  rewrite El in El'. injection El' as <-. apply Hw; [done|]. split; [done|].
  rewrite Hv. unfold block_end. pose proof (block_size_pos p Hp). lia.
Qed.

(** Machines' subnets are accepted again by the allocator. *)
Lemma allocate_again net pre p self : prefix_wf net → ipam_reach net self → allocated self = pre →
  prefix_wf p → within net p → pairwise_disjoint (pre ++ [p]) →
  result_spec (map_err (AllocatedSubnet p) (allocate_subnet self p))
    (fun self' => ipam_reach net self' ∧ allocated self' = pre ++ [p]) (fun _ => False).
Proof.
  intros Hn Hr <- Hp Hin Hd. destruct (within_ends net p Hp Hin) as [Hi1 Hi2].
  destruct (ipam_reach_network _ _ Hn Hr) as [_ Hnet].
  pose proof (allocate_subnet_spec self p (ipam_reach_wf _ _ Hn Hr) Hp) as Hs. cbn zeta in Hs.
  destruct (allocate_subnet self p) as [self'| |] eqn:E; cbn in *; [| |done].
  { destruct Hs as (_ & _ & ->). split; [by eapply reach_subnet|done]. }
  destruct Hs as [[Hs _]|(_ & Hs & _)]; apply Hs; [by split; [apply Hnet|intros; apply Hnet, Hi2]|].
  intros u (i & Hi)%list_elem_of_lookup. apply disjoint_not_meets.
  apply (Hd i (length (allocated self))); [apply lookup_lt_Some in Hi; lia|by apply lookup_app_l_Some|].
  by rewrite lookup_app_r, Nat.sub_diag by lia.
Qed.

Lemma pairwise_disjoint_app l l' : pairwise_disjoint (l ++ l') → pairwise_disjoint l.
Proof. intros Hd i j p q Hij Hi Hj. by apply (Hd i j); [|apply lookup_app_l_Some..]. Qed.

Lemma with_allocated_ok net used : prefix_wf net →
  Forall prefix_wf used → Forall (within net) used → pairwise_disjoint used →
  result_spec (with_allocated net used)
    (fun self => bits net ≠ 0 ∧ ipam_reach net self ∧ allocated self = used)
    (fun e => bits net = 0 ∧ e = InvalidNetwork).
Proof.
  intros Hn Hw Hin Hd. unfold with_allocated. unfold ipam_new.
  destruct (Z.eqb_spec (bits net) 0) as [H0|H0]; [done|].
  destruct (masked_spec (E:=IpPrefixError) net Hn) as (m & Em & _). rewrite Em. cbn [mbind result_bind].
  eapply result_spec_mono;
    [apply (foldM_spec _ (fun pre self => ipam_reach net self ∧ allocated self = pre) (fun _ => False))
    |by split|done].
  - split; [|done]. apply reach_new. unfold ipam_new. rewrite (proj2 (Z.eqb_neq _ _) H0). by rewrite Em.
  - intros pre p post self -> [Hr E]. apply Forall_app in Hw as [_ [Hp _]%Forall_cons].
    apply Forall_app in Hin as [_ [Hpin _]%Forall_cons]. apply allocate_again; try done.
    apply (pairwise_disjoint_app _ post). by rewrite <-app_assoc.
Qed.

(** A subnet for a new machine: the lowest free one. *)
Definition lowest_free (net : IpPrefix) (used : list IpPrefix) (p : IpPrefix) : Prop :=
  prefix_wf p ∧ bits p = DEFAULT_SUBNET_BITS ∧ within net p ∧
  (∀ u, u ∈ used → disjoint_blocks u p) ∧
  ∀ q, prefix_wf q → bits q = DEFAULT_SUBNET_BITS → in_block net (address q) →
    (∀ u, u ∈ used → disjoint_blocks u q) → block_start p <= block_start q.

Definition no_room (net : IpPrefix) (used : list IpPrefix) : Prop :=
  bits net = 0 ∨ ¬ (bits net <= DEFAULT_SUBNET_BITS <= bit_len (address net)) ∨
  ∀ q, prefix_wf q → bits q = DEFAULT_SUBNET_BITS → in_block net (address q) →
    ∃ u, u ∈ used ∧ ¬ disjoint_blocks u q.

Lemma next_subnet_spec net used : prefix_wf net →
  Forall prefix_wf used → Forall (within net) used → pairwise_disjoint used →
  result_spec (next_subnet net used) (lowest_free net used)
    (fun st => status_code st = CodeInternal ∧ no_room net used).
Proof.
  intros Hn Hw Hin Hd. unfold next_subnet. pose proof (with_allocated_ok net used Hn Hw Hin Hd) as Ha.
  destruct (with_allocated net used) as [self| |]; cbn in *; [|by unfold no_room; naive_solver|done].
  destruct Ha as (H0 & Hr & <-).
  pose proof (allocate_len_exhaustion net self DEFAULT_SUBNET_BITS Hn Hr) as Hs.
  destruct (allocate_subnet_len self DEFAULT_SUBNET_BITS) as [[p self']|e|] eqn:E; cbn in *; [| |done].
  - destruct (allocate_len_first_fit net self _ p self' Hn Hr E) as (Hb & Hpin & Hfree & Es & Hlow).
    split_and!; [|done|by intros a _; apply Hpin|done|done].
    pose proof (ipam_reach_wf _ _ Hn (reach_len net self _ p self' Hr E)) as (_ & _ & _ & Hall & _).
    rewrite Es in Hall. apply Forall_app in Hall as [_ Hall]. by apply Forall_cons in Hall as [? _].
  - split; [done|]. right. destruct e; naive_solver.
Qed.

(** The next subnet of a consistent cluster, its machines in any order. *)
Lemma next_subnet_listed net s used : cluster_inv net s → used ≡ₚ omap machine_subnet (db_machines s) →
  result_spec (next_subnet net used) (lowest_free net (omap machine_subnet (db_machines s)))
    (fun st => status_code st = CodeInternal ∧ no_room net (omap machine_subnet (db_machines s))).
Proof.
  intros [Hwf _ Hms Hd _ _] Hused.
  assert (∀ p, p ∈ used → prefix_wf p ∧ within net p) as Hp.
  { intros p. rewrite Hused, list_elem_of_omap. intros (m & Hm & Em).
    split; [by eapply machine_subnet_wf|].
    apply (proj1 (Forall_forall _ _) Hms) in Hm as [(p' & Ep & Hp) _]. by simplify_eq. }
  assert (Forall prefix_wf used ∧ Forall (within net) used) as [Hu1 Hu2].
  { split; apply Forall_forall; intros p Hpu; by apply Hp. }
  pose proof (next_subnet_spec net used Hwf Hu1 Hu2 (pairwise_disjoint_perm _ _ (symmetry Hused) Hd)) as Hs.
  eapply result_spec_mono; [exact Hs| |].
  - intros p _ (Hw & Hb & Hin & Hfree & Hlow). unfold lowest_free. setoid_rewrite <-Hused. done.
  - intros st _ [Hst Hroom]. split; [done|]. unfold no_room in *. by setoid_rewrite <-Hused.
Qed.

Lemma next_subnet_error net used st : next_subnet net used = Err st →
  ∃ context e, (context = "create IPAM manager: " ∨ context = "allocate subnet for machine: ") ∧
    st = mk_Status CodeInternal (context +:+ prefix_error_display e).
Proof.
  unfold next_subnet. destruct (with_allocated net used) as [ipam|e|]; cbn; [|intros [= <-]; eauto|done].
  destruct (allocate_subnet_len ipam _) as [[p ?]|e|]; cbn; [done|intros [= <-]; eauto|done].
Qed.

(** ** Adding a machine *)

Definition request_address (n : NetworkConfig) : option Address :=
  ip ← nc_management_ip n; match Ip_to_addr ip with Ok a => Some a | _ => None end.

Lemma Ip_to_addr_no_panic ip msg : Ip_to_addr ip ≠ Panic msg.
Proof. unfold Ip_to_addr. repeat case_match; done. Qed.

Lemma management_address_ok n : management_address n = Ok (request_address n).
Proof.
  unfold management_address, request_address. destruct (nc_management_ip n) as [ip|]; [cbn|done].
  destruct (Ip_to_addr ip) eqn:E; [done..|]. by apply Ip_to_addr_no_panic in E.
Qed.

Lemma validate_Ok n u : NetworkConfig_validate n = Ok u →
  length (nc_public_key n) = 32%nat ∧
  ∀ ip, nc_management_ip n = Some ip → ∃ a, Ip_to_addr ip = Ok a.
Proof.
  unfold NetworkConfig_validate.
  destruct (checked_opt "invalid subnet: " _ _); cbn; [|done..].
  destruct (checked_opt "invalid management IP: " _ _) as [v| |] eqn:E; cbn; [|done..].
  destruct (forM_ _ _); cbn; [|done..].
  destruct (_ =? 0)%nat; [done|]. destruct (Nat.eqb_spec (length (nc_public_key n)) KEY_LEN); cbn; [|done].
  intros _. split; [done|]. intros ip Hip. rewrite Hip in E. cbn in E. by apply checked_ok in E.
Qed.

Definition argument_error {A} (r : result Status A) : Prop :=
  ∀ st, r = Err st → status_code st = CodeInvalidArgument.

Lemma argument_error_bind {A B} (r : result Status A) (k : A → result Status B) :
  argument_error r → (∀ x, argument_error (k x)) → argument_error (r ≫= k).
Proof. intros Hr Hk st. destruct r as [x|e|m]; [exact (Hk x st)| |done]. intros [= <-]. by apply Hr. Qed.

Lemma argument_error_checked {A} prefix (r : result AddressError A) : argument_error (checked prefix r).
Proof. by intros st; destruct r; cbn; intros [= <-]. Qed.

Lemma argument_error_forM {A} (l : list A) f : (∀ x, argument_error (f x)) → argument_error (forM_ l f).
Proof.
  intros Hf. unfold forM_. induction l as [|x l IH]; cbn; [done|].
  specialize (Hf x). destruct (f x) as [[]| |]; [done| |done]. intros st [= <-]. by apply Hf.
Qed.

Lemma validate_Err n : argument_error (NetworkConfig_validate n).
Proof.
  unfold NetworkConfig_validate.
  repeat (apply argument_error_bind; [|intros []]).
  1, 2: by unfold checked_opt; case_match; [apply argument_error_checked|].
  - apply argument_error_forM. intros. apply argument_error_checked.
  - intros st. repeat case_match; by intros [= <-].
Qed.

Lemma check_request_spec request :
  argument_error (check_request request) ∧
  ∀ n, check_request request = Ok n →
    am_network request = Some n ∧ length (nc_public_key n) = 32%nat ∧ nc_endpoints n ≠ [] ∧
    ∀ ip, nc_management_ip n = Some ip → ∃ a, Ip_to_addr ip = Ok a.
Proof.
  unfold check_request. destruct (am_network request) as [n|]; cbn; [|by split; [intros st [= <-]|]].
  destruct (NetworkConfig_validate n) as [u| |] eqn:E; cbn; [|split; [|done]|by split].
  2: intros st [= <-]; by eapply validate_Err.
  apply validate_Ok in E as [Hk Hm].
  case_bool_decide as He; cbn; [by split; [intros st [= <-]|]|].
  split.
  - intros st. destruct (am_public_ip request) as [ip|]; [cbn|done].
    destruct (Ip_to_addr ip); cbn; by intros [= <-].
  - intros n' En'. assert (n = n') as <-; [|done].
    destruct (am_public_ip request) as [ip|]; cbn in En'; [|congruence].
    destruct (Ip_to_addr ip); cbn in En'; congruence.
Qed.

(** The management address of a valid request exists. *)
Lemma machine_management_spec n : length (nc_public_key n) = 32%nat →
  (∀ ip, nc_management_ip n = Some ip → ∃ a, Ip_to_addr ip = Ok a) →
  ∃ ip a, machine_management n = Ok ip ∧ Ip_to_addr ip = Ok a ∧
          (nc_management_ip n = Some ip ∨ nc_management_ip n = None ∧ in_block fdcc_prefix (addr_ip a)).
Proof.
  intros Hk Hm. unfold machine_management. destruct (nc_management_ip n) as [ip|].
  { destruct (Hm ip eq_refl) as [a Ha]. exists ip, a. auto. }
  destruct (management_ip (secret_from (nc_public_key n))) as [v| |] eqn:E.
  2, 3: unfold management_ip in E; cbn in E; rewrite Hk in E; done.
  destruct (management_ip_spec _ _ E) as [Hw Hin]. cbn.
  exists (Ip_new (address_from (V6 v))), (address_from (V6 v)). split; [done|]. split; [|by right].
  by apply Ip_new_to_addr.
Qed.

(** The machine a request makes. *)
Definition machine_for (request : AddMachineRequest) (n : NetworkConfig) (used : list IpPrefix)
    (net : IpPrefix) (m : MachineInfo) : Prop :=
  (am_name request = "" ∨ mi_name m = am_name request) ∧ mi_public_ip m = am_public_ip request ∧
  (∃ p, machine_subnet m = Some p ∧ lowest_free net used p) ∧
  machine_key m = Some (nc_public_key n) ∧
  nc_endpoints <$> mi_network m = Some (nc_endpoints n) ∧
  (nc_management_ip n = None ∨ machine_address m = request_address n) ∧ is_Some (machine_address m).

Lemma no_conflict_key name requested key l :
  Forall (no_conflict name requested key) l → Some key ∉ map machine_key l.
Proof.
  rewrite Forall_forall. intros Hl (m & Em & Hm)%list_elem_of_fmap.
  destruct (Hl m Hm) as (_ & _ & Hk). by apply Hk.
Qed.

Lemma put_machine_inv net s request n m :
  cluster_inv net s → machine_for request n (omap machine_subnet (db_machines s)) net m →
  Forall (no_conflict (am_name request) (request_address n) (nc_public_key n)) (db_machines s) →
  ¬ has_machine (mi_id m) s → cluster_inv net (put_machine m s).
Proof.
  intros [Hwf Hnet Hms Hd Hk Hi] (_ & _ & (p & Hp & (Hpw & _ & Hin & Hfree & _)) & Hkey & _ & _ & Ha) Hc Hid.
  split; cbn; try done.
  - apply Forall_app_2; [done|]. apply Forall_singleton. split; [eauto|done].
  - rewrite omap_app. cbn. rewrite Hp. apply pairwise_disjoint_snoc; [done|].
    intros u Hu. by apply disjoint_not_meets, Hfree.
  - rewrite map_app. apply NoDup_app. split; [done|]. split; [|by apply NoDup_singleton].
    intros k Hkin ->%list_elem_of_singleton. rewrite Hkey in Hkin. by eapply no_conflict_key.
  - rewrite map_app. apply NoDup_app. split; [done|]. split; [|by apply NoDup_singleton].
    by intros k Hkin ->%list_elem_of_singleton.
Qed.

(** The internal errors of [add_machine]: the cause each status tells, and what has
    been done by then, nothing unless the answer to the insertion was lost. *)
Inductive add_machine_failure (net : IpPrefix) (id random_name : result SecretError string)
    (request : AddMachineRequest) (s : ClusterDb) : Status → ClusterDb → Prop :=
| failed_list e :
    add_machine_failure net id random_name request s
      (mk_Status CodeInternal ("list machines: " +:+ store_error_display e)) s
| failed_id e : id = Err e →
    add_machine_failure net id random_name request s
      (mk_Status CodeInternal ("generate machine ID: " +:+ secret_error_display e)) s
| failed_name e : am_name request = "" → random_name = Err e →
    add_machine_failure net id random_name request s
      (mk_Status CodeInternal ("generate machine name: " +:+ machine_name_error_display e)) s
| failed_network e :
    add_machine_failure net id random_name request s
      (mk_Status CodeInternal ("get network from store: " +:+ store_error_display e)) s
| failed_subnet context e : no_room net (omap machine_subnet (db_machines s)) →
    context = "create IPAM manager: " ∨ context = "allocate subnet for machine: " →
    add_machine_failure net id random_name request s
      (mk_Status CodeInternal (context +:+ prefix_error_display e)) s
| failed_create n m e s' : am_network request = Some n →
    machine_for request n (omap machine_subnet (db_machines s)) net m →
    Forall (no_conflict (am_name request) (request_address n) (nc_public_key n)) (db_machines s) →
    id = Ok (mi_id m) → s' = s ∨ s' = put_machine m s ∧ ¬ has_machine (mi_id m) s →
    add_machine_failure net id random_name request s
      (mk_Status CodeInternal ("create machine: " +:+ store_error_display e)) s'.

Create HintDb cluster.
#[export] Hint Constructors add_machine_failure : cluster.

(** What [add_machine] promises: outcome and state after a run from [s]. *)
Definition add_machine_post (net : IpPrefix) (id random_name : result SecretError string)
    (request : AddMachineRequest) (s : ClusterDb)
    (r : result Status MachineInfo) (s' : ClusterDb) : Prop :=
  cluster_inv net s' ∧
  match r with
  | Ok m => s' = put_machine m s ∧ id = Ok (mi_id m) ∧ ∃ n, am_network request = Some n ∧
      machine_for request n (omap machine_subnet (db_machines s)) net m ∧
      Forall (no_conflict (am_name request) (request_address n) (nc_public_key n)) (db_machines s)
  | Err st =>
      match status_code st with
      | CodeInvalidArgument => check_request request = Err st ∧ s' = s
      | CodeAlreadyExists => s' = s ∧ ∃ n, am_network request = Some n ∧
          ¬ Forall (no_conflict (am_name request) (request_address n) (nc_public_key n)) (db_machines s)
      | CodeInternal => add_machine_failure net id random_name request s st s'
      | _ => False
      end
  | Panic msg => check_request request = Panic msg ∧ s' = s
  end.

Section add_machine.
Context `{HexLib}.

(** From the network of the cluster on. *)
Lemma add_machine_tail net random_name request n s used machine_id name ip a :
  cluster_inv net s → am_network request = Some n →
  (am_name request = "" ∨ name = am_name request) →
  used ≡ₚ omap machine_subnet (db_machines s) →
  Forall (no_conflict (am_name request) (request_address n) (nc_public_key n)) (db_machines s) →
  Ip_to_addr ip = Ok a → (nc_management_ip n = Some ip ∨ nc_management_ip n = None) →
  wp (net ← cluster_network;
      subnet ← lift (next_subnet net used);
      let machine := mk_MachineInfo machine_id name
                       (Some (mk_NetworkConfig (Some (prefix_to_proto subnet)) (Some ip)
                                (nc_endpoints n) (nc_public_key n)))
                       (am_public_ip request) "" "" "" "" "" "" in
      _ ← call (CreateMachine machine) (or_internal "create machine");
      lift (Ok machine)) s (add_machine_post net (Ok machine_id) random_name request s).
Proof.
  intros Hinv Hn Hname Hused Hc Hip Hmip. destruct (inv_network _ _ Hinv) as (text & Htext & Hnet).
  rewrite wp_bind. unfold cluster_network. rewrite wp_bind, wp_call. intros r s' [-> Hr].
  destruct r as [text'|e|]; cbn; [| |by destruct Hr].
  2: by split; [done|constructor].
  cbn in Hr. rewrite Htext in Hr. destruct Hr as (x & [= <-] & <-%(fun H => H text eq_refl)). rewrite Hnet. cbn.
  pose proof (next_subnet_listed net s used Hinv Hused) as Hs.
  destruct (next_subnet net used) as [subnet|st|] eqn:Esub; cbn in Hs |- *; [| |done].
  2: { split; [done|]. destruct (next_subnet_error _ _ _ Esub) as (context & e & Hctx & ->).
       cbn. destruct Hs as [_ Hs]. eauto with cluster. }
  pose proof Hs as [Hsw _].
  set (m := mk_MachineInfo _ _ _ _ _ _ _ _ _ _).
  assert (machine_for request n (omap machine_subnet (db_machines s)) net m) as Hm.
  { unfold machine_for, machine_subnet, machine_key, machine_address. cbn -[prefix_from_proto prefix_to_proto Ip_to_addr].
    rewrite prefix_proto_round, Hip by done. split_and!; try done.
    - by exists subnet.
    - destruct Hmip as [E|E]; [right|by left]. unfold request_address. by rewrite E; cbn; rewrite Hip. }
  intros r s' [Hr Hid]. destruct r as [[]|e|]; cbn in Hr |- *; [|split|done].
  - subst s'. split; [by eapply put_machine_inv; eauto|]. split; [done|]. split; [done|]. by exists n.
  - destruct Hr as [->|Hr]; [done|]. subst s'. by eapply put_machine_inv; eauto.
  - destruct Hr as [->| ->]; eapply (failed_create _ _ _ _ _ n m); eauto.
Qed.

Lemma add_machine_wp id random_name request net s : cluster_inv net s →
  (∀ msg, id ≠ Panic msg) → (∀ msg, random_name ≠ Panic msg) →
  wp (add_machine_without_ready_check id random_name request) s (add_machine_post net id random_name request s).
Proof.
  intros Hinv Hid Hrn. unfold add_machine_without_ready_check.
  destruct (check_request_spec request) as [Hce Hco].
  rewrite wp_bind, wp_lift. destruct (check_request request) as [n|st|msg] eqn:Ecr; cbn [on_result].
  2: { split; [done|]. by rewrite (Hce st). }
  2: done.
  destruct (Hco n eq_refl) as (Hn & Hkey & _ & Hmip).
  rewrite wp_bind, wp_call. intros r s' [-> Hr].
  destruct r as [l|e|]; cbn [on_result or_internal map_err]; [|by split; [|constructor]|done].
  rewrite wp_bind, wp_lift, management_address_ok. cbn [on_result]. pose proof Hinv as [_ _ Hms _ _ _].
  pose proof (scan_spec net (am_name request) (request_address n) (nc_public_key n) l) as Hscan.
  specialize (Hscan ltac:(by rewrite Hr)). rewrite wp_bind, wp_lift.
  destruct (foldM _ [] l) as [used|st|]; cbn [on_result result_spec] in Hscan |- *; [| |done].
  2: { destruct Hscan as [Hst Hc]. split; [done|]. rewrite Hst. split; [done|]. exists n. split; [done|].
       by rewrite <-Hr. }
  destruct Hscan as [-> Hc]. rewrite Hr in Hc.
  rewrite wp_bind, wp_lift. destruct id as [machine_id|e|msg]; cbn [on_result map_err]; [|by split; [|constructor]|by destruct (Hid msg)].
  rewrite wp_bind, wp_lift.
  match goal with |- on_result ?x _ _ _ => set (name := x) end.
  assert (result_spec name (fun x => am_name request = "" ∨ x = am_name request)
            (fun st => status_code st = CodeInternal ∧
               add_machine_failure net (Ok machine_id) random_name request s st s)) as Hname.
  { unfold name. destruct (am_name request) eqn:En; cbn; [|by right].
    destruct random_name as [x| |msg]; cbn; [by left|split; [done|by apply failed_name]|by destruct (Hrn msg)]. }
  destruct name as [x|st|]; cbn [on_result result_spec] in Hname |- *; [| |done].
  2: { split; [done|]. destruct Hname as [-> Hname]. exact Hname. }
  destruct (machine_management_spec n Hkey Hmip) as (ip & a & Eip & Ea & Hipn).
  rewrite wp_bind, wp_lift, Eip. cbn [on_result]. apply (add_machine_tail net random_name request n s _ _ _ ip a); try done.
  - by rewrite Hr.
  - naive_solver.
Qed.
End add_machine.

Lemma new_machine_id_no_panic `{HexLib} fill msg : new_machine_id fill ≠ Panic msg.
Proof. unfold new_machine_id, new_id, secret_new. by destruct (fill 16%nat). Qed.

Lemma sample_no_panic {E} length (fills : list (E + byte)) value msg : sample length fills value ≠ Some (Panic msg).
Proof.
  revert value. induction fills as [|[e|b] fills IH]; intros value; cbn.
  all: destruct (length <=? str_len value)%nat; [done|]; by try apply IH.
Qed.

Lemma random_name_no_panic fills r msg : new_random_machine_name fills = Some r → r ≠ Panic msg.
Proof.
  unfold new_random_machine_name, random_alphanumeric, random_alphanumeric_with.
  destruct (sample 4 fills "") as [[x|e|m]|] eqn:E; cbn; intros [= <-]; [done..|].
  by apply sample_no_panic in E.
Qed.

(** The runs with the store in memory, call by call. *)
Lemma run_bind st f {E A B} (m : handler E A) (k : A → handler E B) s :
  run st f (m ≫= k) s =
  match run st f m s with
  | (Ok x, s') => run st f (k x) s'
  | (Err e, s') => (Err e, s')
  | (Panic msg, s') => (Panic msg, s')
  end.
Proof.
  revert s. induction m as [[x|e|msg]|a r IH]; intros s; [done..|]. cbn.
  destruct (mem_step st f a s) as [x s']. apply IH.
Qed.

Section complete.
Context `{HexLib} (states : list ClusterMembershipState) (fail : bool).

Lemma cluster_network_run net s : cluster_inv net s → run states fail cluster_network s = (Ok net, s).
Proof.
  intros [_ (text & Htext & Hnet) _ _ _ _]. unfold cluster_network. rewrite run_bind.
  cbn [call run mem_step]. rewrite Htext. cbn [or_internal map_err lift run]. by rewrite Hnet.
Qed.

(** A valid request that conflicts with no machine is granted while the network
    has room. *)
Lemma add_machine_run request n net s machine_id name :
  cluster_inv net s → check_request request = Ok n →
  Forall (no_conflict (am_name request) (request_address n) (nc_public_key n)) (db_machines s) →
  ¬ no_room net (omap machine_subnet (db_machines s)) → ¬ has_machine machine_id s →
  ∃ m, run states fail (add_machine_without_ready_check (Ok machine_id) (Ok name) request) s
       = (Ok m, put_machine m s) ∧ mi_id m = machine_id ∧
       mi_name m = (if str_is_empty (am_name request) then name else am_name request).
Proof.
  intros Hinv Hreq Hc Hroom Hid. pose proof (inv_machines _ _ Hinv) as Hms.
  destruct (proj2 (check_request_spec request) n Hreq) as (Hn & Hkey & _ & Hmip).
  destruct (machine_management_spec n Hkey Hmip) as (ip & a & Eip & _).
  pose proof (scan_spec net (am_name request) (request_address n) (nc_public_key n) _ Hms) as Hscan.
  pose proof (next_subnet_listed net s _ Hinv (Permutation_refl _)) as Hs.
  unfold add_machine_without_ready_check.
  rewrite !run_bind. cbn [lift run]. rewrite Hreq.
  rewrite run_bind. cbn [call run mem_step or_internal map_err].
  rewrite run_bind. cbn [lift run]. rewrite management_address_ok.
  rewrite run_bind. cbn [lift run].
  destruct (foldM _ [] _) as [used|st|]; [|by destruct Hscan as [_ Hscan]|done].
  destruct Hscan as [-> _].
  rewrite run_bind. cbn [lift run map_err]. rewrite run_bind. cbn [lift run map_err].
  set (nm := if str_is_empty (am_name request) then name else am_name request).
  assert ((if str_is_empty (am_name request) then Ok name else Ok (am_name request)) = @Ok Status _ nm) as ->
    by (unfold nm; by destruct (str_is_empty _)).
  rewrite run_bind. cbn [lift run]. rewrite Eip.
  rewrite run_bind, (cluster_network_run net s Hinv). rewrite run_bind. cbn [lift run].
  destruct (next_subnet net _) as [subnet|st|]; [|by destruct Hs as [_ Hs]|done].
  rewrite run_bind. cbn [call run mem_step]. case_bool_decide; [done|].
  cbn [or_internal map_err lift run]. by eexists.
Qed.
End complete.
