(* ===== verification/ClusterTheorems.v ===== *)
(** * The cluster service's promises

    The cluster invariant over sequences of requests, what adding and removing a
    machine does, the states of the cluster's domain, and two limits of
    [add_machine]. *)

From S2P Require Import Prelude RustStr NetAddr Ipam PbAddr Port Machine Time Secret.
From S2P Require Import MachineName GoQuote Chars ClusterDns Cluster ClusterSpec ClusterProps.

(** ** The invariant under the other effects *)

Lemma inv_same_machines net s s' : cluster_inv net s → db_machines s' = db_machines s →
  db_values s' !! NETWORK_KEY = db_values s !! NETWORK_KEY → cluster_inv net s'.
Proof. intros [] Em Ev. split; rewrite ?Em, ?Ev; done. Qed.

Lemma inv_set_value net s key v : cluster_inv net s → key ≠ NETWORK_KEY → cluster_inv net (set_value key v s).
Proof. intros Hinv Hk. eapply inv_same_machines; [done|done|]. by apply lookup_insert_ne. Qed.

Lemma inv_del_value net s key : cluster_inv net s → key ≠ NETWORK_KEY → cluster_inv net (del_value key s).
Proof. intros Hinv Hk. eapply inv_same_machines; [done|done|]. by apply lookup_delete_ne. Qed.

Lemma inv_del_machine net s id : cluster_inv net s → cluster_inv net (del_machine id s).
Proof.
  intros [Hwf Hnet Hms Hd Hk Hi].
  pose proof (filter_app_complement (fun m => mi_id m ≠ id) (db_machines s)) as Hp.
  rewrite <-Hp in Hms, Hk, Hi.
  rewrite map_app in Hk, Hi. apply NoDup_app in Hk as [Hk _]. apply NoDup_app in Hi as [Hi _].
  apply Forall_app in Hms as [Hms _]. split; try done.
  eapply (pairwise_disjoint_app _ (omap machine_subnet (filter (fun m => ¬ mi_id m ≠ id) (db_machines s)))).
  rewrite <-omap_app. eapply pairwise_disjoint_perm; [|exact Hd]. by rewrite Hp.
Qed.

Lemma domain_key_other : UNCLOUD_DNS_KEY ≠ NETWORK_KEY.
Proof. done. Qed.

(** ** [init] *)

Definition empty_db : ClusterDb := mk_ClusterDb ∅ [] ∅.

Lemma init_wp self now net : prefix_wf net → is_ipv4 (address net) = true →
  wp (init self now net) empty_db (fun r s' => r = Ok () → cluster_inv net s').
Proof.
  intros Hwf H4. unfold init. destruct (cs_initialised self); [done|].
  rewrite wp_bind, wp_call. intros r s' Hr. destruct r as [[]|e|]; [|done..]. cbn in Hr. subst s'.
  cbn [on_result map_err]. rewrite wp_call. intros r s' Hr. destruct r as [[]|e|]; [|done..].
  cbn in Hr. subst s'. intros _. apply inv_set_value; [|done]. split; cbn; try done.
  - exists (prefix_display net). split; [by simplify_map_eq|by apply prefix_text_v4].
  - apply NoDup_nil_2.
  - apply NoDup_nil_2.
Qed.

(** ** [remove_machine] *)

(** [id] is gone, nothing else is; its containers are gone unless their clean-up
    failed. *)
Definition remove_machine_post (id : string) (s : ClusterDb) (r : result Status ()) (s' : ClusterDb) : Prop :=
  db_values s' = db_values s ∧
  (db_containers s' = db_containers s ∨ db_containers s' = db_containers (del_containers id s)) ∧
  match r with
  | Ok _ => has_machine id s ∧ db_machines s' = db_machines (del_machine id s)
  | Err st =>
      match status_code st with
      | CodeUnavailable | CodeInvalidArgument => s' = s
      | CodeNotFound => ¬ has_machine id s ∧ db_machines s' = db_machines s
      | CodeInternal => db_machines s' = db_machines s ∨ db_machines s' = db_machines (del_machine id s)
      | _ => False
      end
  | Panic _ => False
  end.

Lemma del_machine_wp id s0 s : db_machines s = db_machines s0 → db_values s = db_values s0 →
  (db_containers s = db_containers s0 ∨ db_containers s = db_containers (del_containers id s0)) →
  wp (call (DeleteMachine id) (map_err (remove_error id))) s (remove_machine_post id s0).
Proof.
  intros Em Ev Ec. rewrite wp_call. intros r s' Hr. unfold remove_machine_post, has_machine in *.
  destruct r as [[]|e|]; cbn in Hr |- *; [|destruct e|done].
  all: try (destruct Hr as [-> | ->]; split_and!; cbn; rewrite ?Em; by auto).
  - destruct Hr as [Hid ->]. unfold has_machine in Hid. rewrite Em in Hid. split_and!; cbn; by rewrite ?Em.
  - destruct Hr as [Hid ->]. unfold has_machine in Hid. rewrite Em in Hid. by split_and!.
Qed.

Lemma remove_machine_wp self id s : wp (remove_machine self id) s (remove_machine_post id s).
Proof.
  unfold remove_machine, check_ready. destruct (cs_ready self); [|by split_and!; [|left|]]. cbn [lift mbind handler_bind handler_mbind].
  destruct (str_is_empty id); [by split_and!; [|left|]|].
  intros r s' Hr. destruct r as [[]|e|]; cbn in Hr; [| |done].
  - subst s'. apply del_machine_wp; cbn; auto.
  - destruct Hr as [-> | ->]; apply del_machine_wp; cbn; auto.
Qed.

Lemma remove_inv net self id s r s' : cluster_inv net s → runs (remove_machine self id) s r s' → cluster_inv net s'.
Proof.
  intros Hinv Hr. pose proof (wp_runs _ _ _ _ _ (remove_machine_wp self id s) Hr) as (Ev & _ & Hpost).
  pose proof (inv_del_machine net s id Hinv) as Hdel.
  assert (db_machines s' = db_machines s ∨ db_machines s' = db_machines (del_machine id s)) as [Em|Em].
  { destruct r as [|st|]; [naive_solver| |done]. destruct (status_code st); naive_solver. }
  - eapply (inv_same_machines net s); by rewrite ?Ev.
  - eapply (inv_same_machines net (del_machine id s)); cbn; by rewrite ?Ev.
Qed.

(** ** The domain of the cluster: an abstract machine and its refinement *)

Inductive DomainRequest := ReserveDomain (endpoint : string) | GetDomain | ReleaseDomain.

(** The specification: a cluster has a reserved domain or none.  The last two rules
    are writes whose failure was reported although they took effect. *)
Inductive domain_step : option StoredDomain → DomainRequest → result Status string →
    option StoredDomain → Prop :=
| ds_reserve endpoint name token : endpoint ≠ "" →
    domain_step None (ReserveDomain endpoint) (Ok name) (Some (mk_StoredDomain endpoint name token))
| ds_reserved d endpoint : endpoint ≠ "" →
    domain_step (Some d) (ReserveDomain endpoint) (err CodeAlreadyExists "domain already reserved") (Some d)
| ds_no_endpoint st :
    domain_step st (ReserveDomain "") (err CodeInvalidArgument "API endpoint not set") st
| ds_get d : domain_step (Some d) GetDomain (Ok (sd_name d)) (Some d)
| ds_get_none : domain_step None GetDomain (err CodeNotFound "domain not found") None
| ds_release d : domain_step (Some d) ReleaseDomain (Ok (sd_name d)) None
| ds_release_none : domain_step None ReleaseDomain (err CodeNotFound "domain not found") None
| ds_failed st request message : domain_step st request (internal message) st
| ds_reserve_lost endpoint name token message : endpoint ≠ "" →
    domain_step None (ReserveDomain endpoint) (internal message)
      (Some (mk_StoredDomain endpoint name token))
| ds_release_lost d message : domain_step (Some d) ReleaseDomain (internal message) None.

Section domain.
Context `{SerdeJson}.

Definition domain_handler (self : ClusterSelf) (request : DomainRequest) : handler Status string :=
  match request with
  | ReserveDomain endpoint => reserve_domain self endpoint
  | GetDomain => get_domain self
  | ReleaseDomain => release_domain self
  end.

(** The state the stored value stands for; [None] when it cannot be read. *)
Definition domain_state (s : ClusterDb) : option (option StoredDomain) :=
  match db_values s !! UNCLOUD_DNS_KEY with
  | None => Some None
  | Some (SBlob json) =>
      match decode_stored_domain json with inr d => Some (Some d) | inl _ => None end
  | Some (SText _) => None
  end.

(** Only the domain's key changes. *)
Definition only_domain (s s' : ClusterDb) : Prop :=
  db_machines s' = db_machines s ∧ db_containers s' = db_containers s ∧
  ∀ key, key ≠ UNCLOUD_DNS_KEY → db_values s' !! key = db_values s !! key.

Definition domain_post (st : option StoredDomain) (request : DomainRequest) (s : ClusterDb)
    (r : result Status string) (s' : ClusterDb) : Prop :=
  only_domain s s' ∧ ∃ st', domain_state s' = Some st' ∧ domain_step st request r st'.

Lemma domain_post_same st request s r : domain_state s = Some st → domain_step st request r st →
  domain_post st request s r s.
Proof. intros Hst Hs. split; [done|]. by exists st. Qed.

Lemma stored_domain_wp st s (Q : result Status StoredDomain → ClusterDb → Prop) :
  domain_state s = Some st →
  Q (match st with Some d => Ok d | None => err CodeNotFound "domain not found" end) s →
  (∀ message, Q (internal message) s) → wp stored_domain s Q.
Proof.
  intros Hst HQ Hint. unfold stored_domain. rewrite wp_bind, wp_call. intros r s' [-> Hr].
  unfold domain_state in Hst. destruct r as [json|e|]; cbn in Hr |- *; [| |done].
  - destruct Hr as (x & Ex & Hx). rewrite Ex in Hst. destruct x as [|json']; [done|].
    rewrite (Hx json' eq_refl) in Hst. destruct (decode_stored_domain json); [done|]. by injection Hst as <-.
  - destruct e; [|apply Hint..]. rewrite Hr in Hst. by injection Hst as <-.
Qed.

Lemma set_domain_state s d : domain_valid d →
  domain_state (set_value UNCLOUD_DNS_KEY (SBlob (bytes_of_str (encode_stored_domain d))) s) = Some (Some d) ∧
  only_domain s (set_value UNCLOUD_DNS_KEY (SBlob (bytes_of_str (encode_stored_domain d))) s).
Proof.
  intros Hd. unfold domain_state. cbn. rewrite lookup_insert_eq, decode_encoded by done.
  split; [done|]. split_and!; try done. intros key Hk. by apply lookup_insert_ne.
Qed.

Lemma del_domain_state s :
  domain_state (del_value UNCLOUD_DNS_KEY s) = Some None ∧ only_domain s (del_value UNCLOUD_DNS_KEY s).
Proof.
  unfold domain_state. cbn. rewrite lookup_delete_eq. split; [done|]. split_and!; try done.
  intros key Hk. by apply lookup_delete_ne.
Qed.

Lemma reserve_domain_wp self endpoint st s : cs_ready self = true → domain_state s = Some st →
  utf8_valid (bytes endpoint) = true →
  wp (reserve_domain self endpoint) s (domain_post st (ReserveDomain endpoint) s).
Proof.
  intros Hready Hst Hutf. unfold reserve_domain. rewrite wp_bind, wp_lift. unfold check_ready.
  rewrite Hready. cbn [on_result].
  destruct (str_is_empty endpoint) eqn:Ee.
  { destruct endpoint; [|done]. apply domain_post_same; [done|constructor]. }
  assert (endpoint ≠ "") as Hne by (by intros ->).
  assert (∀ message, domain_post st (ReserveDomain endpoint) s (internal message) s) as Hfail.
  { intros message. apply domain_post_same; [done|constructor]. }
  rewrite wp_bind, wp_attempt. apply (stored_domain_wp st); [done| |by intros; apply Hfail].
  destruct st as [d|]; [apply domain_post_same; [done|by constructor]|].
  cbn [err on_result]. rewrite wp_bind, wp_lift. cbn [status_code on_result].
  rewrite wp_bind, wp_call. intros r s' [-> Hr].
  destruct r as [[[name token]|e|]|e|]; cbn [dns_answer mbind result_bind map_err on_result];
    [|apply Hfail|done|apply Hfail|done].
  destruct Hr as [Hname Htoken].
  destruct (set_domain_state s (mk_StoredDomain endpoint name token)) as [Hs' Ho]; [done|].
  rewrite wp_bind, wp_call. intros r s' Hr. destruct r as [[]|e|]; cbn in Hr |- *; [| |done].
  - subst s'. split; [done|]. eexists. split; [done|]. by constructor.
  - destruct Hr as [-> | ->]; [apply Hfail|]. split; [done|]. eexists. split; [done|]. by constructor.
Qed.

Lemma get_domain_wp self st s : cs_ready self = true → domain_state s = Some st →
  wp (get_domain self) s (domain_post st GetDomain s).
Proof.
  intros Hready Hst. unfold get_domain. rewrite wp_bind, wp_lift. unfold check_ready.
  rewrite Hready. cbn [on_result]. rewrite wp_bind. apply (stored_domain_wp st); [done| |].
  - destruct st; apply domain_post_same; try done; constructor.
  - intros message. apply domain_post_same; [done|constructor].
Qed.

Lemma release_domain_wp self st s : cs_ready self = true → domain_state s = Some st →
  wp (release_domain self) s (domain_post st ReleaseDomain s).
Proof.
  intros Hready Hst. unfold release_domain. rewrite wp_bind, wp_lift. unfold check_ready.
  rewrite Hready. cbn [on_result]. rewrite wp_bind.
  assert (∀ message, domain_post st ReleaseDomain s (internal message) s) as Hfail.
  { intros message. apply domain_post_same; [done|constructor]. }
  apply (stored_domain_wp st); [done| |by intros; apply Hfail].
  destruct st as [d|]; [|apply domain_post_same; [done|constructor]].
  destruct (del_domain_state s) as [Hs' Ho].
  cbn [on_result]. rewrite wp_bind, wp_call. intros r s' Hr. destruct r as [[]|e|]; cbn in Hr |- *; [| |done].
  - subst s'. split; [done|]. eexists. split; [done|]. constructor.
  - destruct Hr as [-> | ->]; [apply Hfail|]. split; [done|]. eexists. split; [done|]. constructor.
Qed.
End domain.

(** ** Sequences of requests *)

(** Every call of the program satisfies [P]. *)
Fixpoint only_calls {A} (P : action → Prop) (p : prog A) : Prop :=
  match p with Ret _ => True | Call a k => P a ∧ ∀ r, only_calls P (k r) end.

Lemma only_calls_bind {E A B} P (m : handler E A) (k : A → handler E B) :
  only_calls P m → (∀ x, only_calls P (k x)) → only_calls P (m ≫= k).
Proof. intros Hm Hk. induction m as [[x|e|msg]|a r IH]; [apply Hk|done..|]. split; [apply Hm|]. intros x. apply IH, Hm. Qed.

Lemma only_calls_attempt {E E' A} P (m : handler E A) :
  only_calls P m → only_calls P (attempt (E' := E') m).
Proof. intros Hm. induction m as [[x|e|msg]|a r IH]; [done..|]. split; [apply Hm|]. intros x. apply IH, Hm. Qed.

Lemma only_calls_runs {A} (P : action → Prop) (I : ClusterDb → Prop) (p : prog A) s x s' :
  (∀ a s r s', P a → I s → call_spec a s r s' → I s') →
  only_calls P p → I s → runs p s x s' → I s'.
Proof.
  intros HP Hp HI Hr. induction Hr as [|a k s r s1 x s2 Ha Hr IH]; [done|].
  destruct Hp as [Hpa Hpk]. apply IH; [apply Hpk|by eapply HP].
Qed.

(** Calls that read, or change the domain's key. *)
Definition domain_call (a : action) : Prop :=
  match a with
  | PutBytes key _ | DeleteKey key => key = UNCLOUD_DNS_KEY
  | GetString _ | GetBytes _ | ListMachines | MembershipStates | DnsReserve _ | DnsCreate _ _ _ _ => True
  | _ => False
  end.

Lemma domain_call_inv net a s r s' :
  domain_call a → cluster_inv net s → call_spec a s r s' → cluster_inv net s'.
Proof.
  pose proof domain_key_other as Hk. intros Ha Hinv Hc.
  destruct a; cbn in Ha, Hc; try done; try (by destruct Hc as [-> _]); subst key.
  all: destruct r as [[]|e|]; cbn in Hc; [subst s'|destruct Hc as [-> | ->]; [done|]|done].
  all: by apply inv_set_value || by apply inv_del_value.
Qed.

Ltac only_calls :=
  repeat first
    [ apply only_calls_bind; [|intros ?]
    | apply only_calls_attempt
    | progress cbn [lift call only_calls]
    | match goal with
      | |- only_calls _ (if ?b then _ else _) => destruct b
      | |- only_calls _ (let '(_, _) := ?x in _) => destruct x
      end
    | split; [|intros ?] | done ].

Section sequences.
Context `{HexLib, SerdeJson}.

Lemma domain_only_calls self request : only_calls domain_call (domain_handler self request).
Proof. destruct request; cbn [domain_handler]; unfold reserve_domain, get_domain, release_domain, stored_domain; only_calls. Qed.

Lemma list_only_calls self : only_calls domain_call (list_machines self).
Proof. unfold list_machines. only_calls. Qed.

Lemma records_only_calls self records : only_calls domain_call (create_domain_records self records).
Proof. unfold create_domain_records, stored_domain. only_calls. Qed.

(** The states a cluster of network [net] goes through, one request after the
    other, whatever the requests answer. *)
Inductive cluster_reach (net : IpPrefix) : ClusterDb → Prop :=
| cluster_init self now s :
    runs (init self now net) empty_db (Ok ()) s → cluster_reach net s
| cluster_add self fill fills random_name request s r s' :
    cluster_reach net s → new_random_machine_name fills = Some random_name →
    runs (add_machine self (new_machine_id fill) random_name request) s r s' → cluster_reach net s'
| cluster_remove self id s r s' :
    cluster_reach net s → runs (remove_machine self id) s r s' → cluster_reach net s'
| cluster_domain self request s r s' :
    cluster_reach net s → runs (domain_handler self request) s r s' → cluster_reach net s'
| cluster_records self records s r s' :
    cluster_reach net s → runs (create_domain_records self records) s r s' → cluster_reach net s'
| cluster_list self s r s' :
    cluster_reach net s → runs (list_machines self) s r s' → cluster_reach net s'.

Lemma add_machine_ready_wp self fill fills random_name request net s :
  cluster_inv net s → new_random_machine_name fills = Some random_name →
  wp (add_machine self (new_machine_id fill) random_name request) s (fun r s' =>
    if cs_ready self then add_machine_post net (new_machine_id fill) random_name request s r s'
    else s' = s ∧ r = err CodeUnavailable "machine is not ready to serve cluster requests").
Proof.
  intros Hinv Hname. unfold add_machine. rewrite wp_bind, wp_lift. unfold check_ready.
  destruct (cs_ready self); cbn [on_result]; [|done].
  apply add_machine_wp; [done|intros msg; apply new_machine_id_no_panic|intros msg; by eapply random_name_no_panic].
Qed.

(** C4: the cluster invariant.  From [init] of an IPv4 network on an empty store,
    whatever sequence of requests follows, one after the other, and whatever of their
    store calls answer an error, with or without their effect, every stored machine
    has a valid subnet inside the network and a management address, no two subnets
    share an address, and public keys and machine ids are distinct.  Two things are
    left out, and with each of them the invariant can break: requests that interleave
    ([add_machine_unserialised]), and a listing that breaks off and is answered as if
    it were whole ([list_machines_drops_stream_error] of the store). *)
Theorem cluster_invariant net s : prefix_wf net → is_ipv4 (address net) = true →
  cluster_reach net s → cluster_inv net s.
Proof.
  intros Hwf H4. induction 1 as [self now s Hr|self fill fills rn request s r s' _ IH Hn Hr|self id s r s' _ IH Hr
    |self request s r s' _ IH Hr|self records s r s' _ IH Hr|self s r s' _ IH Hr].
  - by apply (wp_runs _ _ _ _ _ (init_wp self now net Hwf H4) Hr).
  - pose proof (wp_runs _ _ _ _ _ (add_machine_ready_wp self fill fills rn request net s IH Hn) Hr) as Hpost.
    cbn in Hpost. destruct (cs_ready self); [apply Hpost|]. by destruct Hpost as [-> _].
  - by eapply remove_inv.
  - eapply only_calls_runs; [apply domain_call_inv|apply domain_only_calls|done|done].
  - eapply only_calls_runs; [apply domain_call_inv|apply records_only_calls|done|done].
  - eapply only_calls_runs; [apply domain_call_inv|apply list_only_calls|done|done].
Qed.
End sequences.

(** ** Concrete clusters *)

Definition ready_self : ClusterSelf := mk_ClusterSelf "m1" true true.

Definition sample_request (name : string) (key_byte : Z) : AddMachineRequest :=
  mk_AddMachineRequest name
    (Some (mk_NetworkConfig None None [IpPort_new (addr_port_from (V4 (127 * 2 ^ 24 + 1), 51820))]
             (replicate 32 (byte_of key_byte)))) None.

(** A request that asks for a management address. *)
Definition with_management (ip : Ip) (request : AddMachineRequest) : AddMachineRequest :=
  mk_AddMachineRequest (am_name request)
    ((fun n => mk_NetworkConfig (nc_subnet n) (Some ip) (nc_endpoints n) (nc_public_key n)) <$> am_network request)
    (am_public_ip request).

Definition after {A} (p : prog A) (s : ClusterDb) : ClusterDb := (run [] false p s).2.
Definition db0 : ClusterDb := after (init (mk_ClusterSelf "" false false) 0 DEFAULT_NETWORK) empty_db.
Definition fixed_fill (z : Z) (n : nat) : string + list byte := inr (replicate n (byte_of z)).
Definition fixed_fills : list (string + byte) := [inr (byte_of 0); inr (byte_of 1); inr (byte_of 2); inr (byte_of 3)].
Definition fixed_name : result SecretError string := Ok "machine-abcd".

Definition add_fixed (z : Z) (request : AddMachineRequest) : handler Status MachineInfo :=
  add_machine (H := reference_hex) ready_self (new_machine_id (H := reference_hex) (fixed_fill z)) fixed_name request.
Definition db1 : ClusterDb := after (add_fixed 1 (sample_request "one" 1)) db0.

Lemma fixed_name_drawn : new_random_machine_name fixed_fills = Some fixed_name.
Proof. reflexivity. Qed.

Lemma db0_reach : cluster_reach (H := reference_hex) (H0 := reference_serde) DEFAULT_NETWORK db0.
Proof.
  eapply (cluster_init _ (mk_ClusterSelf "" false false) 0).
  exact (run_runs [] false (init (mk_ClusterSelf "" false false) 0 DEFAULT_NETWORK) empty_db).
Qed.

Lemma cluster_invariant_witness :
  map mi_name (db_machines db1) = ["one"] ∧ cluster_inv DEFAULT_NETWORK db1.
Proof.
  split; [vm_compute; reflexivity|].
  apply (cluster_invariant (H := reference_hex) (H0 := reference_serde)); [|reflexivity|].
  - unfold prefix_wf. cbn. lia.
  - eapply cluster_add; [apply db0_reach|apply fixed_name_drawn|].
    exact (run_runs [] false (add_fixed 1 (sample_request "one" 1)) db0).
Defined.

Lemma db0_inv : cluster_inv DEFAULT_NETWORK db0.
Proof.
  assert (prefix_wf DEFAULT_NETWORK) as Hwf by (unfold prefix_wf; cbn; lia).
  exact (wp_runs _ _ _ _ _ (init_wp (mk_ClusterSelf "" false false) 0 DEFAULT_NETWORK Hwf eq_refl)
           (run_runs [] false _ empty_db) eq_refl).
Qed.

(** ** Adding and removing machines *)

(** C5: [add_machine] on a consistent cluster, run without another request in
    between and with listings that are complete when they answer.  Without the ready
    latch it answers [Unavailable] and does nothing.  Otherwise, whatever store calls
    fail, the cluster stays consistent, and: a granted request adds exactly the
    returned machine, with the drawn id, the requested name, key, endpoints and
    addresses and the lowest free /24 subnet of the network, and no stored machine
    has the requested name, management address or key; [InvalidArgument] comes from
    the request's validation and [AlreadyExists] from such a machine, both without
    effect; an internal error tells its cause ([add_machine_failure]): listing,
    drawing the id or the name, reading the network, or a network without room, all
    without effect, or the insertion, after which the store is as it was or holds the
    very machine a granted request adds; and it panics only where the request's
    validation does. *)
Theorem add_machine_safe `{HexLib} self fill fills random_name request net s :
  cluster_inv net s → new_random_machine_name fills = Some random_name →
  wp (add_machine self (new_machine_id fill) random_name request) s (fun r s' =>
    if cs_ready self then add_machine_post net (new_machine_id fill) random_name request s r s'
    else s' = s ∧ r = err CodeUnavailable "machine is not ready to serve cluster requests").
Proof. apply add_machine_ready_wp. Qed.

Lemma add_machine_safe_witness :
  add_machine_post DEFAULT_NETWORK (@new_machine_id reference_hex (fixed_fill 1)) fixed_name (sample_request "one" 1) db0
    (run [] false (add_fixed 1 (sample_request "one" 1)) db0).1 db1.
Proof.
  exact (wp_runs _ _ _ _ _
    (add_machine_safe (H := reference_hex) ready_self (fixed_fill 1) fixed_fills fixed_name
       (sample_request "one" 1) DEFAULT_NETWORK db0 db0_inv fixed_name_drawn)
    (run_runs [] false (add_fixed 1 (sample_request "one" 1)) db0)).
Defined.

(** C11: [add_machine] grants what it can: while the store answers, a valid request
    that no stored machine conflicts with is granted as long as the network has a
    free /24 subnet and the drawn id is new. *)
Theorem add_machine_complete `{HexLib} states fail self id_bytes random_name request n net s :
  cluster_inv net s → cs_ready self = true → check_request request = Ok n →
  Forall (no_conflict (am_name request) (request_address n) (nc_public_key n)) (db_machines s) →
  ¬ no_room net (omap machine_subnet (db_machines s)) →
  ¬ has_machine (hex_encode id_bytes) s →
  ∃ m, run states fail (add_machine self (new_machine_id (fun _ => inr id_bytes)) (Ok random_name) request) s
       = (Ok m, put_machine m s) ∧ mi_id m = hex_encode id_bytes ∧
       mi_name m = (if str_is_empty (am_name request) then random_name else am_name request).
Proof.
  intros Hinv Hready Hreq Hc Hroom Hid. unfold add_machine, check_ready. rewrite Hready, run_bind.
  cbn [lift run]. by apply (add_machine_run states fail request n net s (hex_encode id_bytes) random_name).
Qed.

Lemma default_has_room : ¬ no_room DEFAULT_NETWORK [].
Proof.
  intros [H0|[H24|Hall]]; [done|apply H24; unfold DEFAULT_SUBNET_BITS; cbn; lia|].
  destruct (Hall (mk_IpPrefix (address DEFAULT_NETWORK) 24)) as (u & Hu & _); [|done| |by apply not_elem_of_nil in Hu].
  - unfold prefix_wf. cbn. lia.
  - apply (in_block_self DEFAULT_NETWORK). unfold prefix_wf. cbn. lia.
Qed.

Lemma add_machine_complete_witness :
  ∃ m, run [] false (add_machine (H := reference_hex) ready_self
                       (new_machine_id (H := reference_hex) (fun _ => inr (replicate 16 (byte_of 7))))
                       (Ok "machine-abcd") (sample_request "" 1)) db0 = (Ok m, put_machine m db0) ∧
       mi_name m = "machine-abcd".
Proof.
  edestruct (add_machine_complete (H := reference_hex) [] false ready_self (replicate 16 (byte_of 7))
    "machine-abcd" (sample_request "" 1)) as (m & Hm & _ & Hn).
  - apply db0_inv.
  - reflexivity.
  - vm_compute. reflexivity.
  - apply Forall_nil_2.
  - apply default_has_room.
  - apply not_elem_of_nil.
  - exists m. by split.
Defined.

(** [remove_machine] never panics and touches nothing but the machine and its
    containers: it succeeds only for a stored machine, which is then the only one
    gone; [NotFound] means exactly that there is none; a refused request has no
    effect; the containers of the machine are gone unless their clean-up failed. *)
Theorem remove_machine_exact self id s : wp (remove_machine self id) s (remove_machine_post id s).
Proof. apply remove_machine_wp. Qed.

(** ** What [add_machine] does not check *)

(** Handlers that make their calls in the order of the list. *)
Fixpoint run_schedule {A} (order : list nat) (c : list (prog A) * ClusterDb) : list (prog A) * ClusterDb :=
  match order with
  | [] => c
  | i :: order =>
      match c.1 !! i with
      | Some (Call a k) =>
          let '(r, s) := mem_step [] false a c.2 in run_schedule order (<[i := k r]> c.1, s)
      | _ => c
      end
  end.

Lemma run_schedule_steps {A} order (c : list (prog A) * ClusterDb) : rtc pool_step c (run_schedule order c).
Proof.
  revert c. induction order as [|i order IH]; intros [pool s]; cbn; [done|].
  destruct (pool !! i) as [[x|a k]|] eqn:E; [done| |done].
  pose proof (mem_step_spec [] false a s) as Ha. destruct (mem_step [] false a s) as [r s'].
  eapply rtc_l; [by econstructor|apply IH].
Qed.

Definition granted (p : handler Status MachineInfo) : option MachineInfo :=
  match p with Ret (Ok m) => Some m | _ => None end.

(** The address a key gives, as a message. *)
Definition derived_management (key_byte : Z) : Ip :=
  match management_ip (secret_from (replicate 32 (byte_of key_byte))) with
  | Ok a => Ip_new (address_from (V6 a)) | _ => mk_Ip [] end.

(** C37: two limits of [add_machine].  Requests are not serialised: two that are
    handled at the same time, the second listing the machines before the first
    stores its machine, are both granted and get the same subnet, although every
    store call succeeds.  And only a requested management address is compared with
    the stored ones: a machine without one is given the address derived from its
    key even when an earlier machine had asked for it. *)
Theorem add_machine_unserialised :
  (∃ pool s, rtc pool_step ([add_fixed 1 (sample_request "one" 1); add_fixed 2 (sample_request "two" 2)], db0)
               (pool, s) ∧
     omap granted pool = db_machines s ∧ map mi_name (db_machines s) = ["one"; "two"] ∧
     map machine_subnet (db_machines s) = [Some first_subnet; Some first_subnet]) ∧
  (∃ s, runs (add_fixed 1 (with_management (derived_management 2) (sample_request "one" 1))) db0
          (Ok (default (mk_MachineInfo "" "" None None "" "" "" "" "" "") (db_machines s !! 0%nat))) s ∧
        ∃ m s', runs (add_fixed 2 (sample_request "two" 2)) s (Ok m) s' ∧ s' = put_machine m s ∧
                map machine_address (db_machines s') = [machine_address m; machine_address m] ∧
                is_Some (machine_address m)).
Proof.
  split.
  - set (c := run_schedule [0; 1; 0; 0; 1; 1]%nat
                ([add_fixed 1 (sample_request "one" 1); add_fixed 2 (sample_request "two" 2)], db0)).
    exists c.1, c.2. split; [rewrite <-surjective_pairing; apply run_schedule_steps|].
    unfold c. split_and!; vm_compute; reflexivity.
  - pose (p1 := add_fixed 1 (with_management (derived_management 2) (sample_request "one" 1))).
    pose (p2 := add_fixed 2 (sample_request "two" 2)).
    pose (d := mk_MachineInfo "" "" None None "" "" "" "" "" "").
    pose (s := after p1 db0). pose (s' := after p2 s). pose (m := default d (db_machines s' !! 1%nat)).
    exists s. split.
    + pose proof (run_runs [] false p1 db0) as Hr.
      assert ((run [] false p1 db0).1 = Ok (default d (db_machines s !! 0%nat))) as E by (vm_compute; reflexivity).
      by rewrite E in Hr.
    + exists m, s'. split.
      { pose proof (run_runs [] false p2 s) as Hr.
        assert ((run [] false p2 s).1 = Ok m) as E by (vm_compute; reflexivity). by rewrite E in Hr. }
      split_and!; [vm_compute; reflexivity..|]. apply is_Some_alt. vm_compute. exact I.
Qed.

(** ** The cluster's domain *)

(** C9: the domain handlers of a ready service refine [domain_step]: a domain is
    reserved once, then returned by every look-up, until it is released, and
    failures of the store or of the DNS service surface as internal errors; nothing
    else in the store changes. *)
Theorem domain_handlers_refine `{SerdeJson} self request st s :
  cs_ready self = true → domain_state s = Some st →
  (∀ endpoint, request = ReserveDomain endpoint → utf8_valid (bytes endpoint) = true) →
  wp (domain_handler self request) s (domain_post st request s).
Proof.
  intros Hready Hst Hutf. destruct request as [endpoint| |]; cbn [domain_handler].
  - by apply reserve_domain_wp; [..|apply Hutf].
  - by apply get_domain_wp.
  - by apply release_domain_wp.
Qed.

Lemma domain_handlers_refine_witness :
  domain_post (H := reference_serde) None (ReserveDomain "https://dns") db0 (Ok "example.uncloud.run")
    (after (reserve_domain (H := reference_serde) ready_self "https://dns") db0).
Proof.
  pose proof (wp_runs _ _ _ _ _
    (domain_handlers_refine (H := reference_serde) ready_self (ReserveDomain "https://dns") None db0 eq_refl eq_refl
       ltac:(intros e [= <-]; vm_compute; reflexivity))
    (run_runs [] false (reserve_domain (H := reference_serde) ready_self "https://dns") db0)) as Hp.
  exact Hp.
Defined.

(** ** Listing machines *)

(** Some member reported at the address of [a] has the state [x]. *)
Definition reported (states : list ClusterMembershipState) (a : Address) (x : AdminState) : Prop :=
  addr_zone a = [] ∧ ∃ c, c ∈ states ∧ (cms_address c).1 = addr_ip a ∧ cms_state c = x.

(** [pm] shows the machine [m]: the local machine is up, another one has the state
    reported for its management address and is down without one. *)
Definition shows (states : list ClusterMembershipState) (local_id : string) (m : MachineInfo)
    (pm : PbMachineMember) : Prop :=
  pm_machine pm = Some m ∧ ∃ a, machine_address m = Some a ∧
  (pm_state pm = 1 ↔ mi_id m = local_id ∨ reported states a AS_Alive) ∧
  (pm_state pm = 2 ↔ mi_id m ≠ local_id ∧ reported states a AS_Suspect) ∧
  (pm_state pm = 3 ↔ mi_id m ≠ local_id ∧ ¬ reported states a AS_Alive ∧ ¬ reported states a AS_Suspect).

Lemma find_reported states a : NoDup (map (fst ∘ cms_address) states) →
  match List.find (fun c => addresses_equal (cms_address c).1 a) states with
  | Some c => ∀ x, reported states a x ↔ cms_state c = x
  | None => ∀ x, ¬ reported states a x
  end.
Proof.
  intros Hnd. assert (∀ c, addresses_equal (cms_address c).1 a = true ↔
      addr_zone a = [] ∧ (cms_address c).1 = addr_ip a) as Heq.
  { intros c. unfold addresses_equal. by rewrite andb_true_iff, !bool_decide_eq_true. }
  destruct (List.find _ _) as [c|] eqn:E.
  - apply List.find_some in E as [Hc%list_elem_of_In Ec%Heq]. destruct Ec as [Hz Ec].
    intros x. split; [|intros <-; by split; [|exists c]].
    intros (_ & c' & Hc' & Ec' & <-). f_equal.
    apply list_elem_of_lookup in Hc as [i Hi]. apply list_elem_of_lookup in Hc' as [j Hj].
    assert (i = j) as <-; [|congruence].
    apply (NoDup_lookup _ _ _ (addr_ip a) Hnd); rewrite list_lookup_fmap.
    + rewrite Hi. cbn. congruence.
    + rewrite Hj. cbn. congruence.
  - intros x (Hz & c & Hc & Ec & _). apply list_elem_of_In in Hc.
    pose proof (List.find_none _ _ E c Hc) as Hn. cbn in Hn.
    assert (addresses_equal (cms_address c).1 a = true) by by apply Heq. congruence.
Qed.

Lemma machine_member_shows net states local_id m : machine_ok net m →
  NoDup (map (fst ∘ cms_address) states) →
  ∃ pm, machine_member states local_id m = Ok pm ∧ shows states local_id m pm.
Proof.
  intros [_ [a Ha]] Hnd. pose proof (find_reported states a Hnd) as Hf.
  unfold shows, machine_member, machine_address in *.
  destruct (mi_network m) as [n|]; cbn in *; [|done].
  destruct (nc_management_ip n) as [ip|]; cbn in *; [|done].
  destruct (Ip_to_addr ip) as [a'| |]; cbn in *; [|done..]. injection Ha as ->.
  eexists. split; [done|]. split; [done|]. exists a. split; [done|]. cbn [pm_state].
  destruct (bool_decide (mi_id m = local_id)) eqn:El;
    [apply bool_decide_eq_true in El|apply bool_decide_eq_false in El].
  { split_and!; split; try done; [by left|by intros []..]. }
  destruct (List.find _ _) as [c|].
  - rewrite !Hf. destruct (cms_state c); naive_solver.
  - pose proof (Hf AS_Alive). pose proof (Hf AS_Suspect). naive_solver.
Qed.

Lemma traverse_ok {E A B} (f : A → result E B) (R : A → B → Prop) l :
  Forall (fun x => ∃ y, f x = Ok y ∧ R x y) l → ∃ ys, traverse f l = Ok ys ∧ Forall2 R l ys.
Proof.
  induction 1 as [|x l (y & Ey & Hy) _ (ys & Eys & Hys)]; cbn; [by exists []|].
  rewrite Ey. cbn. rewrite Eys. cbn. eexists. split; [done|]. by constructor.
Qed.

(** [list_machines] of a consistent cluster never panics and changes nothing:
    it shows every stored machine once, the local one as up and every other one in
    the state the membership list reports for its management address, however the
    list is ordered, and as down when it reports none. *)
Theorem list_machines_exact self net s : cluster_inv net s → cs_ready self = true →
  wp (list_machines self) s (fun r s' => s' = s ∧
    match r with Ok _ => True | Err st => status_code st = CodeInternal | Panic _ => False end) ∧
  ∀ states fail, NoDup (map (fst ∘ cms_address) states) →
  ∃ members, run states fail (list_machines self) s = (Ok members, s) ∧
    Forall2 (shows states (cs_machine_id self)) (db_machines s) members.
Proof.
  intros Hinv Hready. unfold list_machines. split.
  - rewrite wp_bind, wp_lift. unfold check_ready. rewrite Hready. cbn [on_result].
    rewrite wp_bind, wp_call. intros r s' [-> Hr]. destruct r as [l|e|]; cbn [map_err on_result]; [|done..].
    rewrite wp_bind, wp_call. intros r s' [-> Hs]. destruct r as [states|e|]; cbn [map_err on_result]; [|done..].
    rewrite wp_lift. split; [done|].
    assert (∀ m, m ∈ l → ∃ y, machine_member states (cs_machine_id self) m = Ok y ∧ True) as Hl.
    { intros m Hm. rewrite Hr in Hm.
      apply (proj1 (Forall_forall _ _) (inv_machines _ _ Hinv)) in Hm as [_ [a Ha]].
      unfold machine_member, machine_address in *.
      destruct (mi_network m) as [n|]; cbn in *; [|done].
      destruct (nc_management_ip n) as [ip|]; cbn in *; [|done].
      destruct (Ip_to_addr ip); cbn in *; [by eexists|done..]. }
    destruct (traverse_ok _ (fun _ _ => True) l (proj2 (Forall_forall _ _) Hl)) as (ys & -> & _). done.
  - intros states fail Hnd. rewrite run_bind. cbn [lift run]. unfold check_ready. rewrite Hready.
    rewrite run_bind. cbn [call run mem_step map_err]. rewrite run_bind. cbn [call run mem_step map_err lift].
    destruct (traverse_ok (machine_member states (cs_machine_id self)) (shows states (cs_machine_id self))
                (db_machines s)) as (ys & -> & Hys); [|by exists ys].
    eapply Forall_impl; [apply (inv_machines _ _ Hinv)|]. intros m Hm. by eapply machine_member_shows.
Qed.

Lemma db1_inv : cluster_inv DEFAULT_NETWORK db1.
Proof.
  exact (proj1 (wp_runs _ _ _ _ _
    (add_machine_ready_wp (H := reference_hex) ready_self (fixed_fill 1) fixed_fills fixed_name
       (sample_request "one" 1) DEFAULT_NETWORK db0 db0_inv fixed_name_drawn)
    (run_runs [] false (add_fixed 1 (sample_request "one" 1)) db0))).
Qed.

Lemma list_machines_exact_witness :
  length (db_machines db1) = 1%nat ∧
  ∃ members, run [] false (list_machines ready_self) db1 = (Ok members, db1) ∧
    Forall2 (shows [] "m1") (db_machines db1) members.
Proof.
  split; [vm_compute; reflexivity|].
  apply (proj2 (list_machines_exact ready_self DEFAULT_NETWORK db1 db1_inv eq_refl)). apply NoDup_nil_2.
Defined.
