(* ===== verification/Store.v ===== *)
(** * The cluster store: [lib.rs] of ployz-internal-machine-store

    The store keeps its tables in corrosion's replicated SQLite database.  Each
    operation sends one statement to the backend and decodes the answer.  The
    backend, [serde_json] and [base64] are parameters; machines are stored in the
    JSON form of their protobuf message, written and read here. *)

From S2P Require Import Prelude RustStr NetAddr PbAddr Port Machine Secret Cluster.

(** ** SQL values and rows *)

(** [SqlValue] of the corrosion client; a float is its IEEE bits. *)
Inductive SqlValue :=
| SqlNull | SqlBool (b : bool) | SqlI64 (z : Z) | SqlU64 (z : Z) | SqlF64 (z : Z)
| SqlString (s : string) | SqlBytes (l : list byte) | SqlRaw (json : string).

Inductive ColumnKind : Set := CK_Text | CK_Blob | CK_Integer | CK_Raw.
Inductive DbValue := DbText (s : string) | DbBytes (l : list byte) | DbInteger (z : Z) | DbRaw (s : string).
Definition DbRow : Type := list DbValue.
Record QueryRows := mk_QueryRows { qr_rows : list DbRow; qr_terminal_error : option string }.

(** [trait Backend]; a boxed error is its text. *)
Class Backend (Db : Type) := {
  backend_exec : string → option (list SqlValue) → Db → (string + Z) * Db;
  backend_query : string → option (list SqlValue) → list ColumnKind → Db → (string + QueryRows) * Db
}.

(** The text of a gRPC status. *)
Class StatusText := { status_display : Status → string }.

Definition SYNC_STATUS_SYNCED : string := "synced".
Definition SYNC_STATUS_OUTDATED : string := "outdated".

(** ** JSON and base64 *)

(** The JSON values the store writes. *)
Inductive Json :=
| JStr (s : string) | JNum (z : Z) | JArr (l : list Json) | JObj (l : list (string * Json)).

(** Strings are UTF-8 and numbers are [u32]. *)
Fixpoint json_valid (j : Json) : Prop :=
  match j with
  | JStr s => utf8_valid (bytes s) = true
  | JNum z => 0 <= z <= u_max 32
  | JArr l => foldr (fun j P => json_valid j ∧ P) True l
  | JObj l => foldr (fun kv P => (utf8_valid (bytes kv.1) = true ∧ json_valid kv.2) ∧ P) True l
  end.

(** [serde_json]: the text of a value; reading a text as an object whose values are
    kept as raw text, as [String], as [Option<String>], as [Option<Vec<RawValue>>],
    and as a [u32] or a string; the text it gives an error of the program's own.
    Errors are their texts.  What it writes it reads back, and a
    written value is not the text null. *)
Class JsonText := {
  json_write : Json → string;
  json_object : string → string + list (string * string);
  json_string : string → string + string;
  json_opt_string : string → string + option string;
  json_opt_array : string → string + option (list string);
  json_number : string → string + (Z + string);
  json_custom_text : string → string;
  json_object_write l : json_valid (JObj l) →
    json_object (json_write (JObj l)) = inr (map (fun kv => (kv.1, json_write kv.2)) l);
  json_string_write s : json_valid (JStr s) → json_string (json_write (JStr s)) = inr s;
  json_opt_string_write s : json_valid (JStr s) → json_opt_string (json_write (JStr s)) = inr (Some s);
  json_opt_array_write l : json_valid (JArr l) →
    json_opt_array (json_write (JArr l)) = inr (Some (map json_write l));
  json_number_write z : json_valid (JNum z) → json_number (json_write (JNum z)) = inr (inl z);
  json_write_not_null j : str_trim (json_write j) ≠ "null";
  json_write_nonempty j : json_write j ≠ "";
  json_write_empty_object : json_write (JObj []) = "{}"
}.

(** [base64] with the standard and the URL-safe alphabet, decoding with optional
    padding and any trailing bits; [b64_decode_canonical] requires the padding. *)
Inductive Alphabet : Set := STANDARD | URL_SAFE.
Class Base64 := {
  b64_encode : list byte → string;
  b64_decode : Alphabet → string → option (list byte);
  b64_decode_canonical : string → string + list byte;
  b64_decode_canonical_encode l : b64_decode_canonical (b64_encode l) = inr l;
  b64_decode_encode l : b64_decode STANDARD (b64_encode l) = Some l;
  b64_encode_nonempty l : b64_encode l = "" → l = [];
  b64_encode_empty : b64_encode [] = "";
  b64_encode_text l : Forall (fun c => 32 < byte_val c < 128) (bytes (b64_encode l))
}.

(** ** Machines as JSON *)

Section machine_json.
Context `{JsonText, Base64}.

(** A member left out when its text is empty, its number zero, its value absent or
    its list empty ([skip_serializing_if]). *)
Definition text_member (name value : string) : list (string * Json) :=
  if str_is_empty value then [] else [(name, JStr value)].
Definition number_member (name : string) (value : Z) : list (string * Json) :=
  if value =? 0 then [] else [(name, JNum value)].
Definition opt_member (name : string) (value : option Json) : list (string * Json) :=
  match value with Some j => [(name, j)] | None => [] end.
Definition list_member (name : string) (values : list Json) : list (string * Json) :=
  match values with [] => [] | _ => [(name, JArr values)] end.

(** [ip_json] with the serialisation of [IpJson]. *)
Definition ip_json (ip : Ip) : Json := JObj (text_member "ip" (b64_encode (ip_bytes ip))).

(** [PrefixJson], [PortJson], [NetworkJson] and [MachineJson]. *)
Definition prefix_json (p : PbIpPrefix) : Json :=
  JObj (opt_member "ip" (ip_json <$> pfx_ip p) ++ number_member "bits" (pfx_bits p)).
Definition port_json (p : IpPort) : Json :=
  JObj (opt_member "ip" (ip_json <$> ipp_ip p) ++ number_member "port" (ipp_port p)).
Definition network_json (n : NetworkConfig) : Json :=
  JObj (opt_member "subnet" (prefix_json <$> nc_subnet n)
          ++ opt_member "managementIp" (ip_json <$> nc_management_ip n)
          ++ list_member "endpoints" (map port_json (nc_endpoints n))
          ++ text_member "publicKey" (b64_encode (nc_public_key n))).
Definition machine_json (m : MachineInfo) : Json :=
  JObj (text_member "id" (mi_id m) ++ text_member "name" (mi_name m)
          ++ opt_member "network" (network_json <$> mi_network m)
          ++ opt_member "publicIp" (ip_json <$> mi_public_ip m)
          ++ text_member "daemonVersion" (mi_daemon_version m)
          ++ text_member "dockerVersion" (mi_docker_version m)
          ++ text_member "hostname" (mi_hostname m) ++ text_member "arch" (mi_arch m)
          ++ text_member "osPrettyName" (mi_os_pretty_name m)
          ++ text_member "kernelVersion" (mi_kernel_version m)).

(** [encode_machine]; writing such a value to a string does not fail. *)
Definition encode_machine (machine : MachineInfo) : result StoreError string :=
  Ok (json_write (machine_json machine)).

(** ** Reading them *)

Definition Members : Type := list (string * string).

(** [parse_object]. *)
Definition parse_object (value context : string) : result string Members :=
  match json_object value with inl e => Err (context +:+ ": " +:+ e) | inr l => Ok l end.

(** [protobuf_field]: the member under either name, which must be unique. *)
Definition field_step (json_name proto_name : string) (found : option string) (kv : string * string) :
    result string (option string) :=
  if bool_decide (kv.1 = json_name) || bool_decide (kv.1 = proto_name)
  then match found with
       | Some _ => Err ("duplicate field " +:+ json_name)
       | None => Ok (Some kv.2)
       end
  else Ok found.
Definition protobuf_field (object : Members) (json_name proto_name : string) : result string (option string) :=
  foldM (field_step json_name proto_name) None object.

(** [string_field]. *)
Definition string_field (object : Members) (json_name proto_name : string) : result string string :=
  field ← protobuf_field object json_name proto_name;
  match field with
  | None => Ok ""
  | Some value =>
      match json_opt_string value with
      | inl e => Err (json_name +:+ ": " +:+ e)
      | inr s => Ok (default "" s)
      end
  end.

Definition is_line_end (c : ascii) : bool := (byte_val c =? 13) || (byte_val c =? 10).
(** [.filter(|character| !matches!(character, '\r' | '\n'))]. *)
Definition without_line_ends (s : string) : string :=
  of_bytes (List.filter (fun c => negb (is_line_end c)) (bytes s)).

(** [bytes_field]. *)
Definition bytes_field (object : Members) (json_name proto_name : string) : result string (list byte) :=
  encoded ← string_field object json_name proto_name;
  if str_is_empty encoded then Ok []
  else
    let filtered := without_line_ends encoded in
    match b64_decode STANDARD filtered with
    | Some l => Ok l
    | None => match b64_decode URL_SAFE filtered with
              | Some l => Ok l
              | None => Err (json_name +:+ ": invalid base64")
              end
    end.

(** [u32_field]. *)
Definition u32_field (object : Members) (json_name proto_name : string) : result string Z :=
  field ← protobuf_field object json_name proto_name;
  match field with
  | None => Ok 0
  | Some value =>
      if bool_decide (str_trim value = "null") then Ok 0
      else match json_number value with
           | inl e => Err (json_name +:+ ": " +:+ e)
           | inr (inl z) => Ok z
           | inr (inr s) => map_err (fun e => json_name +:+ ": " +:+ parse_int_error_display e) (parse_u 32 s)
           end
  end.

(** [message_field]. *)
Definition message_field {T} (object : Members) (json_name proto_name : string)
    (decode : string → result string T) : result string (option T) :=
  field ← protobuf_field object json_name proto_name;
  match field with
  | None => Ok None
  | Some value => if bool_decide (str_trim value = "null") then Ok None else t ← decode value; Ok (Some t)
  end.

(** [decode_ip], [decode_prefix], [decode_port], [decode_network], [decode_machine]. *)
Definition decode_ip (value : string) : result string Ip :=
  object ← parse_object value "ip";
  l ← bytes_field object "ip" "ip";
  Ok (mk_Ip l).

Definition decode_prefix (value : string) : result string PbIpPrefix :=
  object ← parse_object value "prefix";
  ip ← message_field object "ip" "ip" decode_ip;
  b ← u32_field object "bits" "bits";
  Ok (mk_PbIpPrefix ip b).

Definition decode_port (value : string) : result string IpPort :=
  object ← parse_object value "endpoint";
  ip ← message_field object "ip" "ip" decode_ip;
  port ← u32_field object "port" "port";
  Ok (mk_IpPort ip port).

Definition decode_endpoints (object : Members) : result string (list IpPort) :=
  field ← protobuf_field object "endpoints" "endpoints";
  match field with
  | None => Ok []
  | Some value =>
      match json_opt_array value with
      | inl e => Err ("endpoints: " +:+ e)
      | inr values => traverse decode_port (default [] values)
      end
  end.

Definition decode_network (value : string) : result string NetworkConfig :=
  object ← parse_object value "network";
  endpoints ← decode_endpoints object;
  subnet ← message_field object "subnet" "subnet" decode_prefix;
  management_ip ← message_field object "managementIp" "management_ip" decode_ip;
  public_key ← bytes_field object "publicKey" "public_key";
  Ok (mk_NetworkConfig subnet management_ip endpoints public_key).

Definition decode_machine (json : string) : result string MachineInfo :=
  object ← parse_object json "machine";
  id ← string_field object "id" "id";
  name ← string_field object "name" "name";
  network ← message_field object "network" "network" decode_network;
  public_ip ← message_field object "publicIp" "public_ip" decode_ip;
  daemon_version ← string_field object "daemonVersion" "daemon_version";
  docker_version ← string_field object "dockerVersion" "docker_version";
  hostname ← string_field object "hostname" "hostname";
  arch ← string_field object "arch" "arch";
  os_pretty_name ← string_field object "osPrettyName" "os_pretty_name";
  kernel_version ← string_field object "kernelVersion" "kernel_version";
  Ok (mk_MachineInfo id name network public_ip daemon_version docker_version hostname arch
        os_pretty_name kernel_version).
End machine_json.

(** ** Cluster values *)

Section values.
Context `{JsonText, Base64}.

(** [decode_nullable_column]; [parse] is [serde_json::from_str]. *)
Definition decode_nullable_column {T} (default : T) (parse : string → string + T) (value kind : string) :
    result StoreError T :=
  if bool_decide (str_trim value = "null") then Ok default
  else match parse value with
       | inl e => Err (InvalidData ("decode " +:+ kind +:+ ": " +:+ e))
       | inr t => Ok t
       end.

(** [decode_go_base64] and [GoBytes::deserialize] of the corrosion client. *)
Definition decode_go_base64 (value : string) : string + list byte :=
  b64_decode_canonical (without_line_ends value).
Definition go_bytes_from_str (value : string) : string + option (list byte) :=
  match json_opt_string value with
  | inl e => inl e
  | inr None => inr None
  | inr (Some s) =>
      match decode_go_base64 s with inl e => inl (json_custom_text e) | inr l => inr (Some l) end
  end.

(** [FromClusterValue for String], [for Vec<u8>]. *)
Definition string_from_cluster_json (value : string) : result StoreError string :=
  decode_nullable_column "" json_string value "cluster TEXT value".
Definition bytes_from_cluster_json (value : string) : result StoreError (list byte) :=
  b ← decode_nullable_column None go_bytes_from_str value "cluster BLOB value"; Ok (default [] b).
End values.

(** ** Operations *)

Definition GET_QUERY : string := "SELECT value FROM cluster WHERE key = ?".
Definition PUT_QUERY : string :=
  "INSERT OR REPLACE INTO cluster (key, value, updated_at) VALUES (?, ?, datetime('now'))".
Definition DELETE_QUERY : string := "DELETE FROM cluster WHERE key = ?".
Definition CREATE_MACHINE_QUERY : string :=
  "INSERT INTO machines (id, info, created_at, updated_at) VALUES (?, ?, datetime('now'), datetime('now'))".
Definition GET_MACHINE_QUERY : string := "SELECT info FROM machines WHERE id = ?".
Definition LIST_MACHINES_QUERY : string := "SELECT id, info FROM machines ORDER BY name".
Definition UPDATE_MACHINE_QUERY : string :=
  "UPDATE machines SET info = ?, updated_at = datetime('now') WHERE id = ?".
Definition DELETE_MACHINE_QUERY : string := "DELETE FROM machines WHERE id = ?".

(** [push_placeholders]. *)
Definition placeholders (count : nat) : string := str_join ", " (replicate count "?").

Record DeleteOptions := mk_DeleteOptions { do_ids : list string; do_machine_ids : list string }.

(** [delete_containers_query]. *)
Definition delete_containers_query (options : DeleteOptions) : string * list SqlValue :=
  let query := "DELETE FROM containers" in
  let '(query, params, has_filter) :=
    match do_ids options with
    | [] => (query, [], false)
    | ids => (query +:+ " WHERE id IN (" +:+ placeholders (length ids) +:+ ")", map SqlString ids, true)
    end in
  match do_machine_ids options with
  | [] => (query, params)
  | ids => (query +:+ (if has_filter : bool then " AND machine_id IN (" else " WHERE machine_id IN (")
              +:+ placeholders (length ids) +:+ ")", params ++ map SqlString ids)
  end.

Record ServiceIdOrNameOptions := mk_ServiceIdOrNameOptions { so_id : string; so_name : string }.
Record ListOptions := mk_ListOptions {
  lo_machine_ids : list string; lo_service_id_or_name : ServiceIdOrNameOptions
}.

(** [list_containers_query]. *)
Definition list_containers_query (options : ListOptions) : string * list SqlValue :=
  let query := "SELECT c.id, c.container, c.machine_id, c.sync_status, c.updated_at FROM containers c JOIN machines m ON m.id = c.machine_id WHERE c.sync_status = ?" in
  let params := [SqlString SYNC_STATUS_SYNCED] in
  let '(query, params) :=
    match lo_machine_ids options with
    | [] => (query, params)
    | ids => (query +:+ " AND c.machine_id IN (" +:+ placeholders (length ids) +:+ ")",
              params ++ map SqlString ids)
    end in
  let '(mk_ServiceIdOrNameOptions id name) := lo_service_id_or_name options in
  if negb (str_is_empty id) || negb (str_is_empty name) then
    (query +:+ " AND (" +:+ (if str_is_empty id then "" else "c.service_id = ?")
       +:+ (if negb (str_is_empty id) && negb (str_is_empty name) then " OR " else "")
       +:+ (if str_is_empty name then "" else "c.service_name = ?") +:+ ")",
     params ++ (if str_is_empty id then [] else [SqlString id])
            ++ (if str_is_empty name then [] else [SqlString name]))
  else (query, params).

Section operations.
Context {Db : Type} `{Backend Db, JsonText, Base64}.

(** [Store::exec], [Store::query_result], [Store::query]: the last drops the error
    that ended the stream of rows. *)
Definition store_exec (context query : string) (params : option (list SqlValue)) (db : Db) :
    result StoreError Z * Db :=
  let '(r, db) := backend_exec query params db in
  (match r with inl source => Err (Operation context source) | inr n => Ok n end, db).
Definition query_result (context query : string) (params : option (list SqlValue))
    (columns : list ColumnKind) (db : Db) : result StoreError QueryRows * Db :=
  let '(r, db) := backend_query query params columns db in
  (match r with inl source => Err (Operation context source) | inr rows => Ok rows end, db).
Definition store_query (context query : string) (params : option (list SqlValue))
    (columns : list ColumnKind) (db : Db) : result StoreError (list DbRow) * Db :=
  let '(r, db) := query_result context query params columns db in
  (rows ← r; Ok (qr_rows rows), db).

(** [Store::get]; [from_json] is [T::from_cluster_json]. *)
Definition store_get {T} (from_json : string → result StoreError T) (key : string) (db : Db) :
    result StoreError T * Db :=
  let '(r, db) := query_result "query cluster value" GET_QUERY (Some [SqlString key]) [CK_Raw] db in
  (result ← r;
   match qr_rows result with
   | [] => match qr_terminal_error result with
           | Some source => Err (Operation "query cluster value" source)
           | None => Err KeyNotFound
           end
   | row :: _ => match row with
                 | DbRaw value :: _ => from_json value
                 | _ => Err (InvalidData "cluster value has unsupported SQL type")
                 end
   end, db).

(** [Store::put], [Store::delete]. *)
Definition store_put (key : string) (value : SqlValue) (db : Db) : result StoreError () * Db :=
  let '(r, db) := store_exec "put cluster value" PUT_QUERY (Some [SqlString key; value]) db in
  (_ ← r; Ok (), db).
Definition store_delete (key : string) (db : Db) : result StoreError () * Db :=
  let '(r, db) := store_exec "delete cluster value" DELETE_QUERY (Some [SqlString key]) db in
  (_ ← r; Ok (), db).

(** [Store::create_machine]. *)
Definition create_machine (machine : MachineInfo) (db : Db) : result StoreError () * Db :=
  match encode_machine machine with
  | Ok json =>
      let '(r, db) := store_exec "insert query" CREATE_MACHINE_QUERY
                        (Some [SqlString (mi_id machine); SqlString json]) db in
      (_ ← r; Ok (), db)
  | Err e => (Err e, db)
  | Panic msg => (Panic msg, db)
  end.

(** [Store::get_machine]. *)
Definition check_machine `{StatusText} (machine_id json : string) : result StoreError MachineInfo :=
  if str_is_empty json then Err (InvalidData ("machine info is empty for id " +:+ machine_id))
  else
    machine ← map_err (fun e => InvalidData ("unmarshal machine info for id " +:+ machine_id +:+ ": " +:+ e))
                (decode_machine json);
    if negb (bool_decide (mi_id machine = machine_id))
    then Err (InvalidData ("machine ID mismatch: expected " +:+ machine_id +:+ ", got " +:+ mi_id machine))
    else
      _ ← match mi_network machine with
          | Some network =>
              map_err (fun st => InvalidData ("invalid network configuration for machine " +:+ mi_id machine
                                                +:+ ": " +:+ status_display st))
                (NetworkConfig_validate network)
          | None => Ok ()
          end;
      Ok machine.
Definition get_machine `{StatusText} (machine_id : string) (db : Db) : result StoreError MachineInfo * Db :=
  if str_is_empty machine_id then (Err (InvalidInput "machine ID cannot be empty"), db)
  else
    let '(r, db) := query_result "query machine" GET_MACHINE_QUERY (Some [SqlString machine_id]) [CK_Text] db in
    (result ← r;
     match qr_rows result with
     | [] => match qr_terminal_error result with
             | Some source => Err (Operation "query machine" source)
             | None => Err (MachineNotFound machine_id)
             end
     | (DbText json :: _) :: _ => check_machine machine_id json
     | _ => Err (InvalidData "scan machine info: invalid column")
     end, db).

(** [decode_machine_rows]. *)
Definition decode_machine_row (validate_network : bool) (machines : list MachineInfo) (row : DbRow) :
    result StoreError (list MachineInfo) :=
  match row with
  | [DbText _; DbText json] =>
      if str_is_empty json || bool_decide (json = "{}") then Ok machines
      else
        machine ← map_err (fun e => InvalidData ("unmarshal machine info: " +:+ e)) (decode_machine json);
        if validate_network then
          network ← expect "machine network is absent in replicated store data" (mi_network machine);
          match NetworkConfig_validate network with
          | Ok _ => Ok (machines ++ [machine])
          | Err _ => Ok machines
          | Panic msg => Panic msg
          end
        else Ok (machines ++ [machine])
  | _ => Err (InvalidData "scan machine info: invalid columns")
  end.
Definition decode_machine_rows (rows : list DbRow) (validate_network : bool) :
    result StoreError (list MachineInfo) :=
  foldM (decode_machine_row validate_network) [] rows.

(** [Store::list_machines]. *)
Definition store_list_machines (db : Db) : result StoreError (list MachineInfo) * Db :=
  let '(r, db) := store_query "list machines" LIST_MACHINES_QUERY None [CK_Text; CK_Text] db in
  (rows ← r; decode_machine_rows rows true, db).

(** [Store::update_machine], [Store::delete_machine]. *)
Definition update_machine (machine : MachineInfo) (db : Db) : result StoreError () * Db :=
  if str_is_empty (mi_id machine) then (Err (InvalidInput "machine ID cannot be empty"), db)
  else match encode_machine machine with
       | Ok json =>
           let '(r, db) := store_exec "update machine" UPDATE_MACHINE_QUERY
                             (Some [SqlString json; SqlString (mi_id machine)]) db in
           (affected ← r; if affected =? 0 then Err (MachineNotFound (mi_id machine)) else Ok (), db)
       | Err e => (Err e, db)
       | Panic msg => (Panic msg, db)
       end.
Definition delete_machine (id : string) (db : Db) : result StoreError () * Db :=
  let '(r, db) := store_exec "delete machine" DELETE_MACHINE_QUERY (Some [SqlString id]) db in
  (affected ← r; if affected =? 0 then Err (MachineNotFound id) else Ok (), db).

(** [Store::delete_containers]. *)
Definition delete_containers (options : DeleteOptions) (db : Db) : result StoreError () * Db :=
  let '(query, params) := delete_containers_query options in
  let '(r, db) := store_exec "delete query" query (match params with [] => None | _ => Some params end) db in
  (_ ← r; Ok (), db).

(** [impl StoreAccess for Store]; the other traits are not the store's. *)
Definition store_call (a : action) (db : Db) : option (answer a * Db) :=
  match a return option (answer a * Db) with
  | PutString key value => Some (store_put key (SqlString value) db)
  | PutBytes key value => Some (store_put key (SqlBytes value) db)
  | GetString key => Some (store_get string_from_cluster_json key db)
  | GetBytes key => Some (store_get bytes_from_cluster_json key db)
  | DeleteKey key => Some (store_delete key db)
  | ListMachines => Some (store_list_machines db)
  | CreateMachine machine => Some (create_machine machine db)
  | DeleteMachine id => Some (delete_machine id db)
  | DeleteMachineContainers id => Some (delete_containers (mk_DeleteOptions [] [id]) db)
  | MembershipStates | DnsReserve _ | DnsCreate _ _ _ _ => None
  end.
End operations.
