(* ===== verification/StoreJson.v ===== *)
(** * The JSON of a machine is read back as the machine *)

From S2P Require Import Prelude RustStr NetAddr PbAddr Port Machine Secret Cluster Store.

Section members.
Context `{JsonText, Base64}.

Definition written (l : list (string * Json)) : Members := map (fun kv => (kv.1, json_write kv.2)) l.

(** No member of [l] has one of the two names. *)
Definition absent (j p : string) (l : list (string * Json)) : Prop :=
  Forall (fun kv => kv.1 ≠ j ∧ kv.1 ≠ p) l.

Lemma absent_text j p name v : name ≠ j → name ≠ p → absent j p (text_member name v).
Proof. intros. unfold absent, text_member. destruct (str_is_empty v); by repeat constructor. Qed.
Lemma absent_number j p name v : name ≠ j → name ≠ p → absent j p (number_member name v).
Proof. intros. unfold absent, number_member. destruct (v =? 0); by repeat constructor. Qed.
Lemma absent_opt j p name v : name ≠ j → name ≠ p → absent j p (opt_member name v).
Proof. intros. unfold absent, opt_member. destruct v; by repeat constructor. Qed.
Lemma absent_list j p name v : name ≠ j → name ≠ p → absent j p (list_member name v).
Proof. intros. unfold absent, list_member. destruct v; by repeat constructor. Qed.
Lemma absent_app j p l l' : absent j p l → absent j p l' → absent j p (l ++ l').
Proof. apply Forall_app_2. Qed.

Lemma field_absent j p l found : absent j p l →
  foldM (field_step j p) found (written l) = Ok found.
Proof.
  induction 1 as [|[k v] l [Hj Hp] _ IH]; [done|]. cbn in *. unfold field_step at 1. cbn.
  by rewrite !bool_decide_eq_false_2.
Qed.

Lemma field_skip j p l l' : absent j p l →
  protobuf_field (written (l ++ l')) j p = protobuf_field (written l') j p.
Proof.
  intros Hl. unfold protobuf_field. setoid_rewrite map_app. rewrite foldM_app.
  by setoid_rewrite (field_absent j p l None Hl).
Qed.

Lemma field_keep j p l l' : absent j p l' →
  protobuf_field (written (l ++ l')) j p = protobuf_field (written l) j p.
Proof.
  intros Hl. unfold protobuf_field. setoid_rewrite map_app. rewrite foldM_app.
  change (map _ l) with (written l). destruct (foldM _ None _) as [found| |]; [|done..].
  apply (field_absent j p l' found Hl).
Qed.

Lemma field_none j p : protobuf_field (written []) j p = Ok None.
Proof. done. Qed.

Lemma field_one j p v : protobuf_field (written [(j, v)]) j p = Ok (Some (json_write v)).
Proof. unfold protobuf_field, field_step. cbn. by rewrite bool_decide_eq_true_2. Qed.

(** Each kind of member gives its value back. *)
Lemma text_read j p v : utf8_valid (bytes v) = true → string_field (written (text_member j v)) j p = Ok v.
Proof.
  intros Hv. unfold string_field, text_member. destruct v as [|c v]; [done|]. cbn [str_is_empty].
  rewrite field_one. cbn [mbind result_bind]. by rewrite json_opt_string_write.
Qed.

Lemma ascii_utf8 l : Forall (fun c => byte_val c < 128) l → utf8_valid l = true.
Proof.
  unfold utf8_valid. induction 1 as [|c l Hc _ IH]; [done|]. cbn [length utf8_valid_aux utf8_char].
  by rewrite (proj2 (Z.ltb_lt _ _)).
Qed.

Lemma b64_utf8 l : utf8_valid (bytes (b64_encode l)) = true.
Proof. apply ascii_utf8. eapply Forall_impl; [apply b64_encode_text|]. cbn. lia. Qed.

Lemma b64_unfiltered l :
  without_line_ends (b64_encode l) = b64_encode l.
Proof.
  unfold without_line_ends.
  assert (List.filter (fun c => negb (is_line_end c)) (bytes (b64_encode l)) = bytes (b64_encode l)) as ->.
  { induction (b64_encode_text l) as [|c t Hc _ IH]; [done|]. cbn.
    unfold is_line_end at 1. rewrite !(proj2 (Z.eqb_neq _ _)) by lia. cbn. by rewrite IH. }
  unfold of_bytes, bytes. apply String.string_of_list_ascii_of_string.
Qed.

Lemma bytes_read j p l : bytes_field (written (text_member j (b64_encode l))) j p = Ok l.
Proof.
  unfold bytes_field. rewrite text_read by apply b64_utf8. cbn [mbind result_bind].
  destruct (b64_encode l) as [|c t] eqn:E; [by rewrite (b64_encode_nonempty l E)|]. cbn [str_is_empty].
  by rewrite <-E, b64_unfiltered, b64_decode_encode.
Qed.

Lemma number_read j p z : 0 <= z <= u_max 32 → u32_field (written (number_member j z)) j p = Ok z.
Proof.
  intros Hz. unfold u32_field, number_member. destruct (Z.eqb_spec z 0) as [->|Hne]; [done|].
  rewrite field_one. cbn [mbind result_bind]. rewrite bool_decide_eq_false_2 by apply json_write_not_null.
  by rewrite json_number_write.
Qed.

Lemma message_read {T} j p (to_json : T → Json) decode (o : option T) :
  (∀ t, o = Some t → decode (json_write (to_json t)) = Ok t) →
  message_field (written (opt_member j (to_json <$> o))) j p decode = Ok o.
Proof.
  intros Hd. unfold message_field, opt_member. destruct o as [t|]; [cbn [fmap option_fmap option_map]|done].
  rewrite field_one. cbn [mbind result_bind]. rewrite bool_decide_eq_false_2 by apply json_write_not_null.
  by rewrite Hd.
Qed.
End members.

(** ** Choosing the member a field reads *)

Ltac absent :=
  repeat apply absent_app;
  first [apply absent_text | apply absent_number | apply absent_opt | apply absent_list]; discriminate.
Ltac pick := repeat first [rewrite field_skip by absent | rewrite field_keep by absent].

Section fields.
Context `{JsonText, Base64}.

Lemma string_field_eq o o' j p : protobuf_field o j p = protobuf_field o' j p →
  string_field o j p = string_field o' j p.
Proof. unfold string_field. by intros ->. Qed.
Lemma bytes_field_eq o o' j p : protobuf_field o j p = protobuf_field o' j p →
  bytes_field o j p = bytes_field o' j p.
Proof. unfold bytes_field. by intros ->%string_field_eq. Qed.
Lemma u32_field_eq o o' j p : protobuf_field o j p = protobuf_field o' j p →
  u32_field o j p = u32_field o' j p.
Proof. unfold u32_field. by intros ->. Qed.
Lemma message_field_eq {T} o o' j p (d : string → result string T) :
  protobuf_field o j p = protobuf_field o' j p → message_field o j p d = message_field o' j p d.
Proof. unfold message_field. by intros ->. Qed.

(** ** Well-formed messages: UTF-8 texts and [u32] numbers *)

Definition members_valid (l : list (string * Json)) : Prop :=
  Forall (fun kv => utf8_valid (bytes kv.1) = true ∧ json_valid kv.2) l.

Lemma json_valid_obj l : json_valid (JObj l) ↔ members_valid l.
Proof.
  unfold members_valid. induction l as [|kv l IH]; [by split; [constructor|]|].
  rewrite Forall_cons, <-IH. cbn. tauto.
Qed.
Lemma json_valid_arr l : json_valid (JArr l) ↔ Forall json_valid l.
Proof. induction l as [|j l IH]; [by split; [constructor|]|]. rewrite Forall_cons, <-IH. done. Qed.

Lemma members_valid_app l l' : members_valid l → members_valid l' → members_valid (l ++ l').
Proof. apply Forall_app_2. Qed.
Lemma text_member_valid name v : utf8_valid (bytes name) = true → utf8_valid (bytes v) = true →
  members_valid (text_member name v).
Proof. intros. unfold text_member. destruct (str_is_empty v); by repeat constructor. Qed.
Lemma number_member_valid name z : utf8_valid (bytes name) = true → 0 <= z <= u_max 32 →
  members_valid (number_member name z).
Proof. intros Hn Hz. unfold number_member. destruct (z =? 0); constructor; [done|constructor]. Qed.
Lemma opt_member_valid {T} name (to_json : T → Json) o : utf8_valid (bytes name) = true →
  (∀ t, o = Some t → json_valid (to_json t)) → members_valid (opt_member name (to_json <$> o)).
Proof.
  intros Hn Ho. destruct o as [t|]; cbn; constructor; [|constructor]. split; [done|]. by apply Ho.
Qed.
Lemma list_member_valid name l : utf8_valid (bytes name) = true → Forall json_valid l →
  members_valid (list_member name l).
Proof.
  intros Hn Hl. unfold list_member. destruct l; constructor; [|constructor]. split; [done|]. by apply json_valid_arr.
Qed.

Definition port_wire (p : IpPort) : Prop := 0 <= ipp_port p <= u_max 32.
Definition prefix_wire (p : PbIpPrefix) : Prop := 0 <= pfx_bits p <= u_max 32.
Definition network_wire (n : NetworkConfig) : Prop :=
  Forall port_wire (nc_endpoints n) ∧ ∀ p, nc_subnet n = Some p → prefix_wire p.
Definition machine_wire (m : MachineInfo) : Prop :=
  Forall (fun s => utf8_valid (bytes s) = true)
    [mi_id m; mi_name m; mi_daemon_version m; mi_docker_version m; mi_hostname m; mi_arch m;
     mi_os_pretty_name m; mi_kernel_version m] ∧
  ∀ n, mi_network m = Some n → network_wire n.
End fields.

Create HintDb json_valid.
#[export] Hint Resolve b64_utf8 : json_valid.
Ltac valid :=
  apply json_valid_obj; repeat apply members_valid_app;
  first [apply text_member_valid | apply number_member_valid | apply opt_member_valid | apply list_member_valid];
  solve [reflexivity | eauto 3 with json_valid].

Section round_trip.
Context `{JsonText, Base64}.

Lemma ip_json_valid ip : json_valid (ip_json ip).
Proof. unfold ip_json. valid. Qed.
Hint Resolve ip_json_valid : json_valid.

Lemma prefix_json_valid p : prefix_wire p → json_valid (prefix_json p).
Proof. intros Hp. unfold prefix_json. valid. Qed.
Lemma port_json_valid p : port_wire p → json_valid (port_json p).
Proof. intros Hp. unfold port_json. valid. Qed.
Hint Resolve prefix_json_valid port_json_valid : json_valid.

Lemma network_json_valid n : network_wire n → json_valid (network_json n).
Proof.
  intros [He Hs]. unfold network_json.
  assert (Forall json_valid (map port_json (nc_endpoints n))).
  { apply Forall_map. eapply Forall_impl; [exact He|apply port_json_valid]. }
  valid.
Qed.
Hint Resolve network_json_valid : json_valid.

Lemma machine_json_valid m : machine_wire m → json_valid (machine_json m).
Proof.
  intros [Ht Hn]. unfold machine_json. repeat (apply Forall_cons in Ht as [? Ht]).
  valid.
Qed.

Lemma parse_written l context : json_valid (JObj l) → parse_object (json_write (JObj l)) context = Ok (written l).
Proof. intros Hl. unfold parse_object. by rewrite json_object_write. Qed.

Lemma decode_ip_write ip : decode_ip (json_write (ip_json ip)) = Ok ip.
Proof.
  pose proof (ip_json_valid ip) as Hv. unfold decode_ip, ip_json in *. rewrite parse_written by done.
  cbn [mbind result_bind]. rewrite bytes_read. by destruct ip.
Qed.

Lemma decode_prefix_write p : prefix_wire p → decode_prefix (json_write (prefix_json p)) = Ok p.
Proof.
  intros Hp. pose proof (prefix_json_valid p Hp) as Hv. unfold decode_prefix, prefix_json in *.
  rewrite parse_written by done. cbn [mbind result_bind].
  rewrite (message_field_eq _ (written (opt_member "ip" (ip_json <$> pfx_ip p))) "ip" "ip") by (pick; done).
  rewrite message_read by (intros; apply decode_ip_write). cbn [mbind result_bind].
  rewrite (u32_field_eq _ (written (number_member "bits" (pfx_bits p))) "bits" "bits") by (pick; done).
  rewrite number_read by done. by destruct p.
Qed.

Lemma decode_port_write p : port_wire p → decode_port (json_write (port_json p)) = Ok p.
Proof.
  intros Hp. pose proof (port_json_valid p Hp) as Hv. unfold decode_port, port_json in *.
  rewrite parse_written by done. cbn [mbind result_bind].
  rewrite (message_field_eq _ (written (opt_member "ip" (ip_json <$> ipp_ip p))) "ip" "ip") by (pick; done).
  rewrite message_read by (intros; apply decode_ip_write). cbn [mbind result_bind].
  rewrite (u32_field_eq _ (written (number_member "port" (ipp_port p))) "port" "port") by (pick; done).
  rewrite number_read by done. by destruct p.
Qed.

Lemma decode_ports_write l : Forall port_wire l →
  traverse decode_port (map json_write (map port_json l)) = Ok l.
Proof.
  induction 1 as [|p l Hp _ IH]; cbn [map traverse]; [done|].
  rewrite decode_port_write by done. cbn [mbind result_bind]. by rewrite IH.
Qed.

Lemma decode_endpoints_write o l : Forall port_wire l →
  protobuf_field o "endpoints" "endpoints"
  = protobuf_field (written (list_member "endpoints" (map port_json l))) "endpoints" "endpoints" →
  decode_endpoints o = Ok l.
Proof.
  intros Hl Ho. unfold decode_endpoints. rewrite Ho. destruct l as [|p l]; [done|].
  change (list_member "endpoints" (map port_json (p :: l))) with [("endpoints", JArr (map port_json (p :: l)))].
  rewrite field_one. cbn [mbind result_bind]. rewrite json_opt_array_write.
  - by apply decode_ports_write.
  - apply json_valid_arr, Forall_map. eapply Forall_impl; [exact Hl|apply port_json_valid].
Qed.

Lemma decode_network_write n : network_wire n → decode_network (json_write (network_json n)) = Ok n.
Proof.
  intros Hn. pose proof (network_json_valid n Hn) as Hv. destruct Hn as [He Hs].
  unfold decode_network, network_json in *. rewrite parse_written by done. cbn [mbind result_bind].
  rewrite (decode_endpoints_write _ (nc_endpoints n)) by (done || (pick; done)). cbn [mbind result_bind].
  rewrite (message_field_eq _ (written (opt_member "subnet" (prefix_json <$> nc_subnet n))) "subnet" "subnet") by (pick; done).
  rewrite message_read by (intros p Hp; by apply decode_prefix_write, Hs). cbn [mbind result_bind].
  rewrite (message_field_eq _ (written (opt_member "managementIp" (ip_json <$> nc_management_ip n))) "managementIp" "management_ip")
    by (pick; done).
  rewrite message_read by (intros; apply decode_ip_write). cbn [mbind result_bind].
  rewrite (bytes_field_eq _ (written (text_member "publicKey" (b64_encode (nc_public_key n)))) "publicKey" "public_key") by (pick; done).
  rewrite bytes_read. by destruct n.
Qed.

(** A text member of a machine. *)
Local Ltac text name proto value :=
  rewrite (string_field_eq _ (written (text_member name value)) name proto) by (pick; done);
  rewrite text_read by done; cbn [mbind result_bind].

Lemma decode_machine_write m : machine_wire m → decode_machine (json_write (machine_json m)) = Ok m.
Proof.
  intros Hm. pose proof (machine_json_valid m Hm) as Hv. destruct Hm as [Ht Hn].
  unfold decode_machine, machine_json in *. rewrite parse_written by done. cbn [mbind result_bind].
  repeat (apply Forall_cons in Ht as [? Ht]).
  text "id" "id" (mi_id m). text "name" "name" (mi_name m).
  rewrite (message_field_eq _ (written (opt_member "network" (network_json <$> mi_network m))) "network" "network") by (pick; done).
  rewrite message_read by (intros; by apply decode_network_write, Hn). cbn [mbind result_bind].
  rewrite (message_field_eq _ (written (opt_member "publicIp" (ip_json <$> mi_public_ip m))) "publicIp" "public_ip") by (pick; done).
  rewrite message_read by (intros; apply decode_ip_write). cbn [mbind result_bind].
  text "daemonVersion" "daemon_version" (mi_daemon_version m). text "dockerVersion" "docker_version" (mi_docker_version m).
  text "hostname" "hostname" (mi_hostname m). text "arch" "arch" (mi_arch m).
  text "osPrettyName" "os_pretty_name" (mi_os_pretty_name m). text "kernelVersion" "kernel_version" (mi_kernel_version m).
  by destruct m.
Qed.
End round_trip.
