(* ===== verification/StoreProps.v ===== *)
(** * The store keeps its promises to the cluster service

    The statements the store sends, over tables in memory ([sql_exec],
    [sql_query]); a backend that executes them ([SqlBackend]); and the refinement:
    each operation of the store does what the cluster service relies on. *)

From S2P Require Import Prelude RustStr NetAddr Ipam PbAddr Port Machine Secret.
From S2P Require Import Cluster ClusterSpec Store StoreJson.

(** ** SQL *)

(** The tables of the schema: the text of a value by key, the JSON of a machine by
    id, and the machine of a container by id. *)
Record Tables := mk_Tables {
  t_values : gmap string string;
  t_machines : gmap string string;
  t_containers : gmap string string
}.

(** The text a parameter is stored as: bytes are sent in base64. *)
Definition param_text `{Base64} (v : SqlValue) : option string :=
  match v with SqlString s => Some s | SqlBytes l => Some (b64_encode l) | _ => None end.

Definition DELETE_MACHINE_CONTAINERS_QUERY : string := "DELETE FROM containers WHERE machine_id IN (?)".

(** The statements: the rows affected and the new tables; [None] when a constraint
    refuses the statement. *)
Definition sql_exec `{Base64} (query : string) (params : list SqlValue) (t : Tables) : option (Z * Tables) :=
  let '(mk_Tables values machines containers) := t in
  if bool_decide (query = PUT_QUERY) then
    match params with
    | [SqlString key; v] => text ← param_text v; Some (1, mk_Tables (<[key := text]> values) machines containers)
    | _ => None
    end
  else if bool_decide (query = DELETE_QUERY) then
    match params with
    | [SqlString key] =>
        Some (if bool_decide (key ∈ dom values) then 1 else 0, mk_Tables (delete key values) machines containers)
    | _ => None
    end
  else if bool_decide (query = CREATE_MACHINE_QUERY) then
    match params with
    | [SqlString id; SqlString info] =>
        if bool_decide (id ∈ dom machines) then None
        else Some (1, mk_Tables values (<[id := info]> machines) containers)
    | _ => None
    end
  else if bool_decide (query = UPDATE_MACHINE_QUERY) then
    match params with
    | [SqlString info; SqlString id] =>
        if bool_decide (id ∈ dom machines)
        then Some (1, mk_Tables values (<[id := info]> machines) containers) else Some (0, t)
    | _ => None
    end
  else if bool_decide (query = DELETE_MACHINE_QUERY) then
    match params with
    | [SqlString id] =>
        Some (if bool_decide (id ∈ dom machines) then 1 else 0, mk_Tables values (delete id machines) containers)
    | _ => None
    end
  else if bool_decide (query = DELETE_MACHINE_CONTAINERS_QUERY) then
    match params with
    | [SqlString id] =>
        Some (Z.of_nat (size (filter (fun c => c.2 = id) containers)),
              mk_Tables values machines (filter (fun c => c.2 ≠ id) containers))
    | _ => None
    end
  else None.

Definition machine_row (id info : string) : DbRow := [DbText id; DbText info].

(** The rows of a query, in some order; a raw column is the JSON of the value. *)
Definition sql_query `{JsonText} (query : string) (params : option (list SqlValue)) (t : Tables) : list DbRow :=
  if bool_decide (query = GET_QUERY) then
    match params with
    | Some [SqlString key] =>
        match t_values t !! key with Some text => [[DbRaw (json_write (JStr text))]] | None => [] end
    | _ => []
    end
  else if bool_decide (query = LIST_MACHINES_QUERY) then
    map (fun '(id, info) => machine_row id info) (map_to_list (t_machines t))
  else if bool_decide (query = GET_MACHINE_QUERY) then
    match params with
    | Some [SqlString id] => match t_machines t !! id with Some info => [[DbText info]] | None => [] end
    | _ => []
    end
  else [].

(** A backend that executes the statements.  A failed statement may have been
    executed; a stream of rows that fails has delivered some of them. *)
Class SqlBackend (Db : Type) `{Backend Db, JsonText, Base64} := {
  tables : Db → Tables;
  exec_tables query params db :
    let '(r, db') := backend_exec query (Some params) db in
    match r with
    | inr n => sql_exec query params (tables db) = Some (n, tables db')
    | inl _ => tables db' = tables db ∨ ∃ n, sql_exec query params (tables db) = Some (n, tables db')
    end;
  query_tables query params columns db :
    let '(r, db') := backend_query query params columns db in
    tables db' = tables db ∧
    match r with
    | inr rows => ∃ full, full ≡ₚ sql_query query params (tables db) ∧
        qr_rows rows `prefix_of` full ∧ (qr_terminal_error rows = None → qr_rows rows = full)
    | inl _ => True
    end
}.

(** ** The cluster a database holds *)

Section refinement.
Context {Db : Type} `{SqlBackend Db}.

Definition value_text (v : StoredValue) : string :=
  match v with SText s => s | SBlob l => b64_encode l end.

(** A machine the store can write and will list. *)
Definition machine_storable (m : MachineInfo) : Prop :=
  machine_wire m ∧ ∃ n, mi_network m = Some n ∧ NetworkConfig_validate n = Ok ().

Definition machine_entry (m : MachineInfo) : string * string := (mi_id m, json_write (machine_json m)).

Record represents (t : Tables) (s : ClusterDb) : Prop := {
  rep_values : t_values t = value_text <$> db_values s;
  rep_text key v : db_values s !! key = Some (SText v) → utf8_valid (bytes v) = true;
  rep_machines : t_machines t = list_to_map (map machine_entry (db_machines s));
  rep_ids : NoDup (map mi_id (db_machines s));
  rep_storable : Forall machine_storable (db_machines s);
  rep_containers : t_containers t = db_containers s
}.

(** The requests the store can carry out. *)
Definition call_ok (a : action) : Prop :=
  match a with
  | PutString _ value => utf8_valid (bytes value) = true
  | CreateMachine m => machine_storable m
  | _ => True
  end.

Lemma map_entry_ids l : (map machine_entry l).*1 = map mi_id l.
Proof. induction l; cbn; [done|]. by f_equal. Qed.

Lemma has_machine_dom t s id : represents t s → id ∈ dom (t_machines t) ↔ has_machine id s.
Proof.
  intros [_ _ Hm _ _ _]. unfold has_machine. rewrite Hm, dom_list_to_map, elem_of_list_to_set.
  by rewrite map_entry_ids.
Qed.

(** *** Effects *)

Lemma rep_set_value t s key v : represents t s → (∀ x, v = SText x → utf8_valid (bytes x) = true) →
  represents (mk_Tables (<[key := value_text v]> (t_values t)) (t_machines t) (t_containers t)) (set_value key v s).
Proof.
  intros [Hv Ht Hm Hi Hs Hc] Hx. split; cbn; try done.
  - by rewrite Hv, fmap_insert.
  - intros key' v' [[_ ->]|[_ Hl]]%lookup_insert_Some; [by apply Hx|by eapply Ht].
Qed.

Lemma rep_del_value t s key : represents t s →
  represents (mk_Tables (delete key (t_values t)) (t_machines t) (t_containers t)) (del_value key s).
Proof.
  intros [Hv Ht Hm Hi Hs Hc]. split; cbn; try done.
  - by rewrite Hv, fmap_delete.
  - intros key' v' [_ Hl]%lookup_delete_Some. by eapply Ht.
Qed.

Lemma rep_put_machine t s m : represents t s → machine_storable m → ¬ has_machine (mi_id m) s →
  represents (mk_Tables (t_values t) (<[mi_id m := json_write (machine_json m)]> (t_machines t)) (t_containers t))
    (put_machine m s).
Proof.
  intros [Hv Ht Hm Hi Hs Hc] Hsm Hid. split; cbn; try done.
  - rewrite map_app, Hm. cbn. symmetry. apply list_to_map_snoc. by rewrite map_entry_ids.
  - rewrite map_app. apply NoDup_app. split; [done|]. split; [|by apply NoDup_singleton].
    by intros x Hx ->%list_elem_of_singleton.
  - apply Forall_app_2; [done|]. by apply Forall_singleton.
Qed.

Lemma delete_entries id l : NoDup (map mi_id l) →
  list_to_map (map machine_entry (filter (fun m => mi_id m ≠ id) l))
  = delete id (list_to_map (map machine_entry l) : gmap string string).
Proof.
  induction l as [|m l IH]; [cbn; by rewrite delete_empty|]. cbn [map]. intros [Hm Hnd]%NoDup_cons.
  rewrite filter_cons. destruct (decide (mi_id m ≠ id)) as [Hne|He%dec_stable]; cbn [map].
  - cbn [list_to_map foldr machine_entry]. change (foldr _ ∅ ?l) with (list_to_map l : gmap string string).
    rewrite IH by done. by rewrite delete_insert_ne.
  - subst id. rewrite IH by done. cbn. change (foldr _ ∅ ?l) with (list_to_map l : gmap string string).
    by rewrite delete_insert_eq.
Qed.

Lemma rep_del_machine t s id : represents t s →
  represents (mk_Tables (t_values t) (delete id (t_machines t)) (t_containers t)) (del_machine id s).
Proof.
  intros [Hv Ht Hm Hi Hs Hc]. split; cbn; try done.
  - by rewrite Hm, delete_entries.
  - pose proof (filter_app_complement (fun m => mi_id m ≠ id) (db_machines s)) as Hp.
    rewrite <-Hp, map_app in Hi. by apply NoDup_app in Hi as [Hi _].
  - apply Forall_forall. intros m [_ Hin]%list_elem_of_filter. by apply (proj1 (Forall_forall _ _) Hs).
Qed.

Lemma rep_del_containers t s id : represents t s →
  represents (mk_Tables (t_values t) (t_machines t) (filter (fun c => c.2 ≠ id) (t_containers t)))
    (del_containers id s).
Proof. intros [Hv Ht Hm Hi Hs Hc]. split; cbn; try done. by rewrite Hc. Qed.

(** *** Reads *)

Lemma string_read s : utf8_valid (bytes s) = true →
  string_from_cluster_json (json_write (JStr s)) = Ok s.
Proof.
  intros Hs. unfold string_from_cluster_json, decode_nullable_column.
  rewrite bool_decide_eq_false_2 by apply json_write_not_null. by rewrite json_string_write.
Qed.

Lemma blob_read l : bytes_from_cluster_json (json_write (JStr (b64_encode l))) = Ok l.
Proof.
  unfold bytes_from_cluster_json, decode_nullable_column, go_bytes_from_str, decode_go_base64.
  rewrite bool_decide_eq_false_2 by apply json_write_not_null.
  rewrite json_opt_string_write by apply b64_utf8.
  by rewrite b64_unfiltered, b64_decode_canonical_encode.
Qed.

(** [from_json] reads back what [wrap] stores, and never panics or misses a key. *)
Lemma store_get_spec {T} (from_json : string → result StoreError T) (wrap : T → StoredValue) key db s :
  (∀ v, (∀ x, wrap v = SText x → utf8_valid (bytes x) = true) →
        from_json (json_write (JStr (value_text (wrap v)))) = Ok v) →
  (∀ text, from_json text ≠ Err KeyNotFound ∧ ∀ msg, from_json text ≠ Panic msg) →
  represents (tables db) s →
  let '(r, db') := store_get from_json key db in read_spec wrap key s r ∧ represents (tables db') s.
Proof.
  intros Hback Hno Hrep. unfold store_get, query_result.
  pose proof (query_tables GET_QUERY (Some [SqlString key]) [CK_Raw] db) as Hq.
  destruct (backend_query _ _ _ db) as [[e|rows] db']; destruct Hq as [Et Hq]; rewrite Et; [done|].
  destruct Hq as (full & Hfull & Hpre & Hend). split; [|done]. cbn [mbind result_bind].
  cbn [sql_query] in Hfull. unfold sql_query in Hfull. rewrite bool_decide_eq_true_2 in Hfull by done.
  rewrite (rep_values _ _ Hrep), lookup_fmap in Hfull.
  destruct (db_values s !! key) as [x|] eqn:Ex; cbn in Hfull.
  - apply Permutation_singleton_r in Hfull as ->.
    destruct (qr_rows rows) as [|row rest].
    { destruct (qr_terminal_error rows); [done|]. by specialize (Hend eq_refl). }
    destruct Hpre as [k Hk]. injection Hk as <- _. cbn.
    destruct (Hno (json_write (JStr (value_text x)))) as [Hk1 Hk2].
    destruct (from_json _) as [v|e|msg] eqn:Ef; [|by destruct e|by destruct (Hk2 msg)]. cbn.
    exists x. split; [done|]. intros v' ->. rewrite Hback in Ef; [by injection Ef|].
    intros y Ey. rewrite Ey in Ex. by eapply rep_text.
  - apply Permutation_nil_r in Hfull as ->. apply prefix_nil_inv in Hpre as ->. cbn.
    by destruct (qr_terminal_error rows).
Qed.

(** *** Listing *)

Definition row_of (m : MachineInfo) : DbRow := machine_row (mi_id m) (json_write (machine_json m)).

Lemma machine_text m : machine_storable m →
  (str_is_empty (json_write (machine_json m)) || bool_decide (json_write (machine_json m) = "{}")) = false.
Proof.
  intros [Hw (n & Hn & _)]. pose proof (machine_json_valid m Hw) as Hv.
  rewrite bool_decide_eq_false_2.
  - pose proof (json_write_nonempty (machine_json m)) as Hne. by destruct (json_write (machine_json m)).
  - rewrite <-json_write_empty_object. intros E. unfold machine_json in *.
    apply (f_equal json_object) in E. rewrite !json_object_write in E by done.
    rewrite !map_app, Hn in E. injection E as E. by repeat (apply app_eq_nil in E as [_ E]); discriminate.
Qed.

Lemma decode_row used m : machine_storable m → decode_machine_row true used (row_of m) = Ok (used ++ [m]).
Proof.
  intros Hm. unfold decode_machine_row, row_of, machine_row. rewrite machine_text by done.
  destruct Hm as [Hw (n & Hn & Hv)]. rewrite decode_machine_write by done. cbn. rewrite Hn. cbn. by rewrite Hv.
Qed.

Lemma decode_rows used l : Forall machine_storable l →
  foldM (decode_machine_row true) used (map row_of l) = Ok (used ++ l).
Proof.
  intros Hl. revert used. induction Hl as [|m l Hm _ IH]; intros used; cbn [map foldM]; [by rewrite app_nil_r|].
  rewrite decode_row by done. rewrite IH. by rewrite <-app_assoc.
Qed.

(** The rows of the machines, in some order. *)
Lemma machine_rows t s : represents t s → sql_query LIST_MACHINES_QUERY None t ≡ₚ map row_of (db_machines s).
Proof.
  intros [_ _ Hm Hi _ _]. unfold sql_query. rewrite bool_decide_eq_false_2 by done.
  rewrite bool_decide_eq_true_2 by done. rewrite Hm, map_to_list_to_map by by rewrite map_entry_ids.
  by rewrite map_map.
Qed.

Lemma list_machines_spec db s : represents (tables db) s →
  let '(r, db') := store_list_machines db in
  represents (tables db') s ∧
  match r with
  | Ok l => ∃ l', l ++ l' ≡ₚ db_machines s ∧
      (qr_terminal_error <$>
         match (backend_query LIST_MACHINES_QUERY None [CK_Text; CK_Text] db).1 with inr q => Some q | inl _ => None end
       = Some None → l' = [])
  | Err e => e ≠ KeyNotFound
  | Panic _ => False
  end.
Proof.
  intros Hrep. unfold store_list_machines, store_query, query_result.
  pose proof (query_tables LIST_MACHINES_QUERY None [CK_Text; CK_Text] db) as Hq.
  destruct (backend_query _ _ _ db) as [[e|rows] db']; destruct Hq as [Et Hq]; rewrite Et; [done|].
  destruct Hq as (full & Hfull & [k Hk] & Hend). split; [done|]. cbn [mbind result_bind fst].
  rewrite (machine_rows _ _ Hrep) in Hfull.
  apply Permutation_map_inv in Hfull as (ms & Ems & Hms). rewrite Hk in Ems.
  symmetry in Ems. apply map_eq_app in Ems as (l & l' & -> & El & El'). subst k.
  rewrite <-El. unfold decode_machine_rows. rewrite decode_rows; cbn.
  - exists l'. split; [done|]. intros [= Hnone]. specialize (Hend Hnone).
    rewrite <-El, Hk, <-El in Hend. destruct l'; [done|].
    apply (f_equal length) in Hend. rewrite length_app in Hend. cbn in Hend. lia.
  - pose proof (rep_storable _ _ Hrep) as Hs. rewrite Hms in Hs. by apply Forall_app in Hs as [Hs _].
Qed.

(** *** Writes *)

Lemma store_exec_spec context query params db :
  let '(r, db') := store_exec context query (Some params) db in
  match r with
  | Ok n => sql_exec query params (tables db) = Some (n, tables db')
  | Err e => e = Operation context (match (backend_exec query (Some params) db).1 with inl t => t | inr _ => "" end) ∧
      (tables db' = tables db ∨ ∃ n, sql_exec query params (tables db) = Some (n, tables db'))
  | Panic _ => False
  end.
Proof.
  unfold store_exec. pose proof (exec_tables query params db) as He.
  by destruct (backend_exec query (Some params) db) as [[e|n] db'].
Qed.

(** A statement that always succeeds and takes the cluster from [s] to [done]. *)
Lemma write_refines context query params db s done t :
  represents (tables db) s → represents t done →
  (∀ n t', sql_exec query params (tables db) = Some (n, t') → t' = t) →
  let '(r, db') := store_exec context query (Some params) db in
  ∃ s', write_spec s done (_ ← r; Ok ()) s' ∧ represents (tables db') s'.
Proof.
  intros Hrep Hdone Hexec. pose proof (store_exec_spec context query params db) as He.
  destruct (store_exec context query (Some params) db) as [[n|e|] db']; [| |done].
  - apply Hexec in He. exists done. split; [done|]. by rewrite He.
  - destruct He as [_ [->|(n & He)]]; [exists s; by split; [left|]|]. apply Hexec in He.
    exists done. split; [by right|]. by rewrite He.
Qed.

Lemma sql_put key v t :
  sql_exec PUT_QUERY [SqlString key; v] t
  = text ← param_text v; Some (1, mk_Tables (<[key := text]> (t_values t)) (t_machines t) (t_containers t)).
Proof. by destruct t. Qed.
Lemma sql_delete key t :
  sql_exec DELETE_QUERY [SqlString key] t
  = Some (if bool_decide (key ∈ dom (t_values t)) then 1 else 0,
          mk_Tables (delete key (t_values t)) (t_machines t) (t_containers t)).
Proof. by destruct t. Qed.
Lemma sql_create id info t :
  sql_exec CREATE_MACHINE_QUERY [SqlString id; SqlString info] t
  = if bool_decide (id ∈ dom (t_machines t)) then None
    else Some (1, mk_Tables (t_values t) (<[id := info]> (t_machines t)) (t_containers t)).
Proof. by destruct t. Qed.
Lemma sql_delete_machine id t :
  sql_exec DELETE_MACHINE_QUERY [SqlString id] t
  = Some (if bool_decide (id ∈ dom (t_machines t)) then 1 else 0,
          mk_Tables (t_values t) (delete id (t_machines t)) (t_containers t)).
Proof. by destruct t. Qed.
Lemma sql_delete_containers id t :
  sql_exec DELETE_MACHINE_CONTAINERS_QUERY [SqlString id] t
  = Some (Z.of_nat (size (filter (fun c => c.2 = id) (t_containers t))),
          mk_Tables (t_values t) (t_machines t) (filter (fun c => c.2 ≠ id) (t_containers t))).
Proof. by destruct t. Qed.

Lemma create_refines m db s : represents (tables db) s → machine_storable m →
  let '(r, db') := create_machine m db in
  ∃ s', call_spec (CreateMachine m) s r s' ∧ represents (tables db') s'.
Proof.
  intros Hrep Hm. unfold create_machine, encode_machine.
  pose proof (store_exec_spec "insert query" CREATE_MACHINE_QUERY
    [SqlString (mi_id m); SqlString (json_write (machine_json m))] db) as He.
  rewrite sql_create in He. pose proof (has_machine_dom _ _ (mi_id m) Hrep) as Hdom.
  assert (∀ t, (if bool_decide (mi_id m ∈ dom (t_machines (tables db))) then None
     else Some (1, mk_Tables (t_values (tables db)) (<[mi_id m := json_write (machine_json m)]> (t_machines (tables db)))
                     (t_containers (tables db)))) = Some t →
     ¬ has_machine (mi_id m) s ∧ represents t.2 (put_machine m s)) as Hput.
  { intros t. case_bool_decide as Hd; [done|]. intros [= <-]. rewrite Hdom in Hd.
    split; [done|]. by apply rep_put_machine. }
  destruct (store_exec _ _ _ db) as [[n|e|] db']; [| |done]; cbn.
  - apply Hput in He as [Hid He]. by exists (put_machine m s).
  - destruct He as [_ [->|(n & He)]].
    + exists s. split; [|done]. split; [by left|]. intros E. apply (f_equal (length ∘ db_machines)) in E.
      cbn in E. rewrite length_app in E. cbn in E. lia.
    + apply Hput in He as [Hid He]. exists (put_machine m s). by split; [split; [right|]|].
Qed.

Lemma delete_machine_refines id db s : represents (tables db) s →
  let '(r, db') := delete_machine id db in
  ∃ s', call_spec (DeleteMachine id) s r s' ∧ represents (tables db') s'.
Proof.
  intros Hrep. unfold delete_machine.
  pose proof (store_exec_spec "delete machine" DELETE_MACHINE_QUERY [SqlString id] db) as He.
  rewrite sql_delete_machine in He. pose proof (has_machine_dom _ _ id Hrep) as Hdom.
  pose proof (rep_del_machine _ _ id Hrep) as Hdel.
  destruct (store_exec _ _ _ db) as [[n|e|] db']; [| |done]; cbn.
  - injection He as <- Et. rewrite <-Et in *. case_bool_decide as Hd; cbn.
    + exists (del_machine id s). by rewrite Hdom in Hd.
    + exists s. rewrite Hdom in Hd. split; [done|].
      rewrite delete_id in Hdel |- *; [by destruct (tables db)| |];
        apply not_elem_of_dom; by rewrite Hdom.
  - destruct He as [-> [->|(n & [= _ Et])]].
    + exists s. by split; [left|].
    + exists (del_machine id s). rewrite <-Et. by split; [right|].
Qed.

Lemma string_get_total text :
  string_from_cluster_json text ≠ Err KeyNotFound ∧ ∀ msg, string_from_cluster_json text ≠ Panic msg.
Proof.
  unfold string_from_cluster_json, decode_nullable_column. case_bool_decide; [done|].
  by destruct (json_string text).
Qed.
Lemma bytes_get_total text :
  bytes_from_cluster_json text ≠ Err KeyNotFound ∧ ∀ msg, bytes_from_cluster_json text ≠ Panic msg.
Proof.
  unfold bytes_from_cluster_json, decode_nullable_column. case_bool_decide; [done|].
  by destruct (go_bytes_from_str text).
Qed.

Lemma get_refines {T} (from_json : string → result StoreError T) wrap key db s :
  (∀ v, (∀ x, wrap v = SText x → utf8_valid (bytes x) = true) →
        from_json (json_write (JStr (value_text (wrap v)))) = Ok v) →
  (∀ text, from_json text ≠ Err KeyNotFound ∧ ∀ msg, from_json text ≠ Panic msg) →
  represents (tables db) s →
  let '(r, db') := store_get from_json key db in
  ∃ s', (s' = s ∧ read_spec wrap key s r) ∧ represents (tables db') s'.
Proof.
  intros Hb Hn Hrep. pose proof (store_get_spec from_json wrap key db s Hb Hn Hrep) as Hg.
  destruct (store_get from_json key db) as [r db']. exists s. by destruct Hg.
Qed.

Lemma put_refines key v value db s : represents (tables db) s → param_text v = Some (value_text value) →
  (∀ x, value = SText x → utf8_valid (bytes x) = true) →
  let '(r, db') := store_put key v db in
  ∃ s', write_spec s (set_value key value s) r s' ∧ represents (tables db') s'.
Proof.
  intros Hrep Hv Hx. unfold store_put.
  pose proof (write_refines "put cluster value" PUT_QUERY [SqlString key; v] db s _ _ Hrep
                (rep_set_value _ _ key value Hrep Hx)) as Hw.
  destruct (store_exec _ _ _ db) as [r db']. apply Hw. intros n t'. rewrite sql_put, Hv. by intros [= _ <-].
Qed.

(** The one way in which the store does less than [call_spec] promises: the stream
    of machine rows from [db] ended with an error, and the machines of the rows read
    by then are answered as if they were all. *)
Definition listing_cut (a : action) (db : Db) (s : ClusterDb) : answer a → ClusterDb → Prop :=
  match a with
  | ListMachines => fun r s' => s' = s ∧ ∃ l rest, r = Ok l ∧ db_machines s ≡ₚ l ++ rest ∧
      ∃ rows e db', backend_query LIST_MACHINES_QUERY None [CK_Text; CK_Text] db = (inr rows, db') ∧
        qr_terminal_error rows = Some e
  | _ => fun _ _ => False
  end.

(** Every operation keeps the promises, or answers a listing cut short. *)
Lemma store_call_refines_cut (a : action) (db : Db) (s : ClusterDb) r db' :
  represents (tables db) s → call_ok a → store_call a db = Some (r, db') →
  ∃ s', (call_spec a s r s' ∨ listing_cut a db s r s') ∧ represents (tables db') s'.
Proof.
  intros Hrep Hok Hcall. destruct a; cbn [call_ok store_call] in Hok, Hcall; try done; injection Hcall as Hcall.
  - pose proof (put_refines key (SqlString value) (SText value) db s Hrep eq_refl) as Hp.
    rewrite Hcall in Hp. destruct Hp as (s' & ? & ?); [by intros x [= <-]|by eauto].
  - pose proof (put_refines key (SqlBytes value) (SBlob value) db s Hrep eq_refl) as Hp.
    rewrite Hcall in Hp. destruct Hp as (s' & ? & ?); by eauto.
  - pose proof (get_refines string_from_cluster_json SText key db s) as Hg. rewrite Hcall in Hg.
    destruct Hg as (s' & ? & ?); [intros v Hv; by apply string_read, Hv|apply string_get_total|done|by eauto].
  - pose proof (get_refines bytes_from_cluster_json SBlob key db s) as Hg. rewrite Hcall in Hg.
    destruct Hg as (s' & ? & ?); [intros v _; apply blob_read|apply bytes_get_total|done|by eauto].
  - pose proof (write_refines "delete cluster value" DELETE_QUERY [SqlString key] db s _ _ Hrep
                  (rep_del_value _ _ key Hrep)) as Hw.
    unfold store_delete in Hcall. destruct (store_exec _ _ _ db) as [r0 db0]. injection Hcall as <- <-.
    destruct Hw as (s' & ? & ?); [intros n t'; rewrite sql_delete; by intros [= _ <-]|by eauto].
  - pose proof (list_machines_spec db s Hrep) as Hl. rewrite Hcall in Hl. destruct Hl as [Hrep' Hl].
    exists s. split; [|done]. destruct r as [l|e|]; [|by left..].
    destruct Hl as (l' & Hl & Hend).
    unfold store_list_machines, store_query, query_result in Hcall.
    destruct (backend_query _ _ _ db) as [[e|rows] db1] eqn:Eq; [done|].
    destruct (qr_terminal_error rows) as [e|] eqn:Ee.
    + right. split; [done|]. exists l, l'. split_and!; [done..|]. by exists rows, e, db1.
    + left. split; [done|]. rewrite Hend, app_nil_r in Hl; [done|]. cbn. by rewrite Ee.
  - pose proof (create_refines machine db s Hrep Hok) as Hc. rewrite Hcall in Hc.
    destruct Hc as (s' & ? & ?). by eauto.
  - pose proof (delete_machine_refines id db s Hrep) as Hd. rewrite Hcall in Hd.
    destruct Hd as (s' & ? & ?). by eauto.
  - pose proof (write_refines "delete query" DELETE_MACHINE_CONTAINERS_QUERY [SqlString id] db s _ _ Hrep
                  (rep_del_containers _ _ id Hrep)) as Hw.
    unfold delete_containers in Hcall. cbn [delete_containers_query do_ids do_machine_ids] in Hcall.
    change (store_exec "delete query" _ (Some _) db)
      with (store_exec "delete query" DELETE_MACHINE_CONTAINERS_QUERY (Some [SqlString id]) db) in Hcall.
    destruct (store_exec _ _ _ db) as [r0 db0]. injection Hcall as <- <-.
    destruct Hw as (s' & ? & ?); [intros n t'; rewrite sql_delete_containers; by intros [= _ <-]|by eauto].
Qed.

(** With a backend whose listings are complete, [call_spec]. *)
Lemma store_call_refines (a : action) (db : Db) (s : ClusterDb) r db' :
  (∀ db0 rows db1, backend_query LIST_MACHINES_QUERY None [CK_Text; CK_Text] db0 = (inr rows, db1) →
     qr_terminal_error rows = None) →
  represents (tables db) s → call_ok a → store_call a db = Some (r, db') →
  ∃ s', call_spec a s r s' ∧ represents (tables db') s'.
Proof.
  intros Hcomplete Hrep Hok Hcall.
  destruct (store_call_refines_cut a db s r db' Hrep Hok Hcall) as (s' & [Hspec|Hcut] & Hrep'); [by eauto|].
  destruct a; try done. destruct Hcut as (_ & l & rest & _ & _ & rows & e & db1 & Hq & He).
  apply Hcomplete in Hq. congruence.
Qed.
End refinement.
