(* ===== verification/StoreTheorems.v ===== *)
(** * The store's promises, and instances of its parameters

    A writer and reader of JSON values, an encoding of bytes and a database in
    memory that keep the promises the store relies on, and what the store's
    theorems say there.  The texts are not JSON and base64 proper: only the
    promises matter. *)

From S2P Require Import Prelude RustStr NetAddr Ipam PbAddr Port Machine Secret.
From S2P Require Import Cluster ClusterSpec ClusterProps ClusterTheorems Store StoreJson StoreProps.

(** ** Texts for positive numbers, and through them for any countable data *)

Fixpoint pos_str (p : positive) : string :=
  match p with xH => "." | xO p => String "0" (pos_str p) | xI p => String "1" (pos_str p) end.
Fixpoint str_pos (s : string) : option positive :=
  match s with
  | String "0" s => xO <$> str_pos s
  | String "1" s => xI <$> str_pos s
  | String "." EmptyString => Some xH
  | _ => None
  end.

Lemma str_pos_str p : str_pos (pos_str p) = Some p.
Proof. induction p as [p IH|p IH|]; cbn; [by rewrite IH..|done]. Qed.

Lemma pos_str_last p : ∃ l, bytes (pos_str p) = l ++ ["."%char].
Proof.
  induction p as [p [l IH]|p [l IH]|]; cbn; [| |by exists []].
  - exists ("1"%char :: l). cbn. by f_equal.
  - exists ("0"%char :: l). cbn. by f_equal.
Qed.

Lemma ws2_dot b : is_ws2 b 46 = false.
Proof. unfold is_ws2. by destruct (b =? 194). Qed.
Lemma ws3_dot a b : is_ws3 a b 46 = false.
Proof. unfold is_ws3. by destruct (a =? 225), (b =? 154), (a =? 226), (b =? 128), (b =? 129), (a =? 227). Qed.

Lemma trim_end_dot l : trim_end_rev ("."%char :: l) = "."%char :: l.
Proof.
  cbn [trim_end_rev]. change (byte_val ".") with 46. change (is_ws1 46) with false. cbv iota.
  destruct l as [|b [|c l]]; [done|by rewrite ws2_dot|]. by rewrite ws2_dot, ws3_dot.
Qed.

(** A tag that starts no white space. *)
Definition plain_tag (tag : ascii) : Prop :=
  (∀ l, trim_start_bytes (tag :: l) = tag :: l) ∧ tag ≠ "n"%char.

Section tagged.
Context `{Countable A}.

Definition tagged (tag : ascii) (x : A) : string := String tag (pos_str (encode x)).
Definition untag (tag : ascii) (s : string) : string + A :=
  match s with
  | String c s => if ascii_eqb c tag
                  then match str_pos s ≫= decode with Some x => inr x | None => inl "malformed" end
                  else inl "wrong tag"
  | EmptyString => inl "empty"
  end.

Lemma untag_tagged tag x : untag tag (tagged tag x) = inr x.
Proof. unfold untag, tagged, ascii_eqb. rewrite Ascii.eqb_refl, str_pos_str. cbn. by rewrite decode_encode. Qed.

Lemma tagged_not_null tag x : plain_tag tag → str_trim (tagged tag x) ≠ "null".
Proof.
  intros [Htrim Hn]. unfold str_trim, tagged. destruct (pos_str_last (encode x)) as [l El].
  change (bytes (String tag (pos_str (encode x)))) with (tag :: bytes (pos_str (encode x))).
  rewrite El, Htrim, app_comm_cons, rev_app_distr. cbn [rev app]. rewrite trim_end_dot.
  cbn [rev]. rewrite rev_app_distr, rev_involutive. cbn. by intros [= ->].
Qed.
End tagged.

Lemma tag_s : plain_tag "s". Proof. split; [by intros [|? []]|done]. Qed.
Lemma tag_i : plain_tag "i". Proof. split; [by intros [|? []]|done]. Qed.
Lemma tag_a : plain_tag "a". Proof. split; [by intros [|? []]|done]. Qed.
Lemma tag_o : plain_tag "o". Proof. split; [by intros [|? []]|done]. Qed.

(** ** The parameters *)

Fixpoint ref_write (j : Json) : string :=
  match j with
  | JStr s => tagged "s" s
  | JNum z => tagged "i" z
  | JArr l => tagged "a" (map ref_write l)
  | JObj [] => "{}"
  | JObj l => tagged "o" (map (fun kv => (kv.1, ref_write kv.2)) l)
  end.

Definition reference_json : JsonText.
Proof.
  refine {|
    json_write := ref_write;
    json_object s := if bool_decide (s = "{}") then inr [] else untag "o" s;
    json_string s := untag "s" s;
    json_opt_string s := match untag "s" s with inl e => inl e | inr x => inr (Some x) end;
    json_opt_array s := match untag "a" s with inl e => inl e | inr x => inr (Some x) end;
    json_number s := match untag "i" s with inl e => inl e | inr x => inr (inl x) end;
    json_custom_text e := e |}.
  - intros [|kv l] _; [done|]. cbn [ref_write]. rewrite bool_decide_eq_false_2; [apply untag_tagged|]. done.
  - intros s _. apply untag_tagged.
  - intros s _. cbn [ref_write]. by rewrite untag_tagged.
  - intros l _. cbn [ref_write]. by rewrite untag_tagged.
  - intros z _. cbn [ref_write]. by rewrite untag_tagged.
  - intros [s|z|l|[|kv l]]; cbn [ref_write]; [apply tagged_not_null, tag_s|apply tagged_not_null, tag_i
      |apply tagged_not_null, tag_a|by vm_compute|apply tagged_not_null, tag_o].
  - by intros [s|z|l|[|kv l]].
  - done.
Defined.

Lemma hex_chars `{HexLib} l : Forall (fun c => 32 < byte_val c < 128) (bytes (hex_encode l)).
Proof.
  rewrite hex_encode_digits.
  induction l as [|b l IH]; [constructor|]. cbn [map]. rewrite concat_cons, bytes_app. apply Forall_app_2; [|done].
  assert (∀ z, 0 <= z < 16 → 32 < byte_val (hex_digit z) < 128) as Hd.
  { intros z Hz. assert (z ∈ seqZ 0 16) as Hin by (apply elem_of_seqZ; lia). revert z Hin Hz.
    assert (Forall (fun z => 0 <= z < 16 → 32 < byte_val (hex_digit z) < 128) (seqZ 0 16)) as Hall.
    { repeat (constructor; [vm_compute; intros _; split; reflexivity|]). constructor. }
    intros z Hin. by apply (proj1 (Forall_forall _ _) Hall). }
  pose proof (u8_nibbles b) as [H1 H2]. repeat constructor; by apply Hd || apply Hd; lia.
Qed.

Definition reference_base64 : Base64.
Proof.
  refine {|
    b64_encode := @hex_encode reference_hex;
    b64_decode _ s := match decode_hex s with Ok l => Some l | _ => None end;
    b64_decode_canonical s := match decode_hex s with Ok l => inr l | _ => inl "invalid" end |}.
  - intros l. unfold decode_hex. by rewrite (@hex_encode_bytes reference_hex), decode_pairs_text.
  - intros l. unfold decode_hex. by rewrite (@hex_encode_bytes reference_hex), decode_pairs_text.
  - intros [|b l]; [done|]. change (@hex_encode reference_hex (b :: l)) with (String.concat "" (lower_hex b :: map lower_hex l)).
    by rewrite concat_cons.
  - done.
  - apply hex_chars.
Defined.

(** A database in memory; with [cut], every stream of rows fails after that many. *)
Section memory.
Context (cut : option nat).
#[local] Existing Instance reference_json.
#[local] Existing Instance reference_base64.

Definition memory_backend : Backend Tables := {|
  backend_exec query params t :=
    match params ≫= fun ps => sql_exec query ps t with
    | Some (n, t') => (inr n, t')
    | None => (inl "constraint failed", t)
    end;
  backend_query query params columns t :=
    let rows := sql_query query params t in
    (inr (match cut with
          | Some k => mk_QueryRows (take k rows) (Some "stream closed")
          | None => mk_QueryRows rows None
          end), t)
|}.

Definition memory_sql : @SqlBackend Tables memory_backend reference_json reference_base64.
Proof.
  refine {| tables t := t |}.
  - intros query params t. cbn. destruct (sql_exec query params t) as [[n t']|]; [done|by left].
  - intros query params columns t. cbn. split; [done|]. exists (sql_query query params t). split; [done|].
    destruct cut as [k|]; cbn; [split; [apply prefix_take|done]|done].
Defined.
End memory.

(** ** Properties *)

(** C10: a machine survives the store: the JSON [encode_machine] writes for a machine
    whose texts are UTF-8 and whose numbers are [u32], with its empty members left
    out, is decoded to the same machine. *)
Theorem machine_json_round_trip `{JsonText, Base64} m : machine_wire m →
  ∃ json, encode_machine m = Ok json ∧ decode_machine json = Ok m.
Proof. intros Hm. eexists. split; [done|]. by apply decode_machine_write. Qed.

Definition stored_machine : MachineInfo :=
  mk_MachineInfo "m1" "one"
    (Some (mk_NetworkConfig (Some (prefix_to_proto first_subnet)) (Some (mk_Ip (replicate 16 (byte_of 5))))
             [IpPort_new (addr_port_from (V4 (127 * 2 ^ 24 + 1), 51820))] (replicate 32 (byte_of 1))))
    None "" "" "" "" "" "".

Lemma stored_machine_storable : machine_storable stored_machine.
Proof.
  split; [split|].
  - by repeat constructor.
  - intros n [= <-]. split; [repeat constructor; vm_compute; discriminate|].
    intros p [= <-]. split; vm_compute; discriminate.
  - eexists. split; [done|]. vm_compute. reflexivity.
Qed.

Lemma machine_json_round_trip_witness :
  ∃ json, @encode_machine reference_json reference_base64 stored_machine = Ok json ∧
          @decode_machine reference_json reference_base64 json = Ok stored_machine.
Proof. apply (@machine_json_round_trip reference_json reference_base64). apply stored_machine_storable. Defined.


Definition empty_tables : Tables := mk_Tables ∅ ∅ ∅.

Lemma empty_represents : @represents reference_json reference_base64 empty_tables empty_db.
Proof. split; try done. constructor. Qed.

(** The tables with [stored_machine]. *)
Definition one_machine : Tables :=
  mk_Tables ∅ {[ "m1" := @json_write reference_json (@machine_json reference_base64 stored_machine) ]} ∅.


Lemma cut_listing {Db : Type} `{SqlBackend Db} (db db' : Db) l e : Forall machine_storable l →
  backend_query LIST_MACHINES_QUERY None [CK_Text; CK_Text] db = (inr (mk_QueryRows (map row_of l) e), db') →
  store_list_machines db = (Ok l, db').
Proof.
  intros Hl Hq. unfold store_list_machines, store_query, query_result. rewrite Hq. cbn [mbind result_bind qr_rows].
  unfold decode_machine_rows. by rewrite decode_rows.
Qed.

(** The answer of a handler's first call, given. *)
Definition answering (l : list MachineInfo) (p : handler Status MachineInfo) : handler Status MachineInfo :=
  match p with Call ListMachines k => k (Ok l) | p => p end.

(** a listing that breaks off is taken for the whole list: when the stream of
    machine rows ends with an error after some rows, [list_machines] answers [Ok]
    with the machines received.  The cluster service then gives a new machine a
    subnet that is in use: on the cluster with one machine, an empty listing makes
    [add_machine] grant that machine's subnet again. *)
Theorem list_machines_drops_stream_error {Db : Type} `{SqlBackend Db} (db db' : Db) s l l' e :
  represents (tables db) s → db_machines s ≡ₚ l ++ l' →
  backend_query LIST_MACHINES_QUERY None [CK_Text; CK_Text] db = (inr (mk_QueryRows (map row_of l) (Some e)), db') →
  store_list_machines db = (Ok l, db') ∧
  map machine_subnet (db_machines (after (answering [] (add_fixed 2 (sample_request "two" 2))) db1))
  = [Some first_subnet; Some first_subnet].
Proof.
  intros Hrep Hl Hq. split; [|vm_compute; reflexivity]. eapply cut_listing; [|exact Hq].
  pose proof (rep_storable _ _ Hrep) as Hs. rewrite Hl in Hs. by apply Forall_app in Hs as [Hs _].
Qed.

Lemma list_machines_drops_stream_error_witness :
  @store_list_machines Tables (memory_backend (Some 0%nat)) reference_json reference_base64 one_machine
  = (Ok [], one_machine).
Proof.
  apply (proj1 (@list_machines_drops_stream_error Tables (memory_backend (Some 0%nat)) reference_json reference_base64
           (memory_sql (Some 0%nat)) one_machine one_machine (put_machine stored_machine empty_db) [] [stored_machine]
           "stream closed"
           (@rep_put_machine reference_json reference_base64 _ _ _ empty_represents stored_machine_storable
              (not_elem_of_nil _)) (Permutation_refl _) eq_refl)).
Defined.
