(* ===== verification/ClusterStore.v ===== *)
(** * The cluster service over the store

    The two components composed: a request of the cluster service whose calls are
    carried out by the store over a SQL backend does what the cluster service
    promises over the abstract store. *)

From S2P Require Import Prelude RustStr NetAddr Ipam PbAddr Port Machine Secret.
From S2P Require Import MachineName Cluster ClusterSpec ClusterProps ClusterTheorems.
From S2P Require Import Store StoreJson StoreProps StoreTheorems.

(** ** Programs over a database *)

Section composition.
Context {Db : Type} `{SqlBackend Db}.

(** The listing of machines is never cut short. *)
Definition complete_listings : Prop :=
  ∀ db0 rows db1, backend_query LIST_MACHINES_QUERY None [CK_Text; CK_Text] db0 = (inr rows, db1) →
    qr_terminal_error rows = None.

(** A run whose calls are all the store's. *)
Fixpoint run_db {A} (p : prog A) (db : Db) : option (A * Db) :=
  match p with
  | Ret x => Some (x, db)
  | Call a k => '(r, db') ← store_call a db; run_db (k r) db'
  end.

(** Every call of [p] is one the store can carry out. *)
Fixpoint calls_ok {A} (p : prog A) (s : ClusterDb) : Prop :=
  match p with
  | Ret _ => True
  | Call a k => call_ok a ∧ ∀ r s', call_spec a s r s' → calls_ok (k r) s'
  end.

Lemma run_db_wp {A} (p : prog A) s db Q x db' : complete_listings →
  represents (tables db) s → calls_ok p s → wp p s Q → run_db p db = Some (x, db') →
  ∃ s', represents (tables db') s' ∧ Q x s'.
Proof.
  intros Hcomplete. revert s db. induction p as [y|a k IH]; intros s db Hrep Hok Hwp Hrun; cbn in Hrun.
  { injection Hrun as <- <-. by exists s. }
  destruct (store_call a db) as [[r db1]|] eqn:Ecall; [cbn in Hrun|done]. destruct Hok as [Hok Hks].
  destruct (store_call_refines a db s r db1 Hcomplete Hrep Hok Ecall) as (s1 & Hspec & Hrep1).
  by apply (IH r s1 db1); [..|apply Hks|apply Hwp|].
Qed.

Lemma calls_ok_bind {E A B} (m : handler E A) (k : A → handler E B) s :
  calls_ok m s → wp m s (fun r s' => match r with Ok x => calls_ok (k x) s' | _ => True end) →
  calls_ok (m ≫= k) s.
Proof.
  revert s. induction m as [[x|e|msg]|a r IH]; intros s Hm Hk; [done..|].
  split; [apply Hm|]. intros y s' Hy. apply IH; [by apply Hm|by apply Hk].
Qed.

Lemma calls_ok_call a {E A} (f : answer a → result E A) s : call_ok a → calls_ok (call a f) s.
Proof. intros Ha. split; [done|]. done. Qed.
End composition.

(** ** The machine [add_machine] stores *)

(** A request as it comes over the wire: UTF-8 texts and [u32] numbers. *)
Definition request_wire (request : AddMachineRequest) : Prop :=
  utf8_valid (bytes (am_name request)) = true ∧
  ∀ n, am_network request = Some n → Forall port_wire (nc_endpoints n).

(** The parts of a configuration that are valid on their own. *)
Lemma validate_with_subnet n p ip a : NetworkConfig_validate n = Ok () → prefix_wf p → Ip_to_addr ip = Ok a →
  NetworkConfig_validate
    (mk_NetworkConfig (Some (prefix_to_proto p)) (Some ip) (nc_endpoints n) (nc_public_key n)) = Ok ().
Proof.
  intros Hv Hp Hip. unfold NetworkConfig_validate in *.
  cbn [nc_subnet nc_management_ip nc_endpoints nc_public_key checked_opt].
  assert (∃ q, PbIpPrefix_to_prefix (prefix_to_proto p) = Ok q) as [q Hq].
  { pose proof (prefix_proto_round p Hp) as Hr. unfold prefix_from_proto in Hr.
    destruct (PbIpPrefix_to_prefix (prefix_to_proto p)) as [q| |]; [by exists q|done..]. }
  unfold checked at 1. rewrite Hq. cbn [map_err mbind result_bind].
  unfold checked at 1. rewrite Hip. cbn [map_err mbind result_bind].
  destruct (checked_opt "invalid subnet: " _ _); cbn [mbind result_bind] in Hv; [|done..].
  destruct (checked_opt "invalid management IP: " _ _); cbn [mbind result_bind] in Hv; [|done..].
  exact Hv.
Qed.

Lemma new_machine_storable request n id name p ip a :
  request_wire request → check_request request = Ok n → prefix_wf p → Ip_to_addr ip = Ok a →
  utf8_valid (bytes id) = true → utf8_valid (bytes name) = true →
  machine_storable (mk_MachineInfo id name
    (Some (mk_NetworkConfig (Some (prefix_to_proto p)) (Some ip) (nc_endpoints n) (nc_public_key n)))
    (am_public_ip request) "" "" "" "" "" "").
Proof.
  intros [_ Hports] Hreq Hp Hip Hid Hname.
  destruct (proj2 (check_request_spec request) n Hreq) as (Hn & _ & _ & _).
  split; [split|].
  - repeat constructor; done.
  - intros n' [= <-]. split; [exact (Hports n Hn)|]. intros q [= <-]. unfold prefix_wire. cbn.
    destruct Hp as [_ Hb]. pose proof (bit_len_cases (address p)). unfold u_max. lia.
  - eexists. split; [done|]. eapply validate_with_subnet; [|done|done].
    unfold check_request in Hreq. rewrite Hn in Hreq. cbn in Hreq.
    by destruct (NetworkConfig_validate n) as [[]| |].
Qed.

(** ** Its calls *)

Section add_machine.
Context `{HexLib, JsonText, Base64}.

(** An outcome whose text, if any, is UTF-8. *)
Definition text_ok {E} (r : result E string) : Prop := ∀ x, r = Ok x → utf8_valid (bytes x) = true.

Lemma machine_id_text fill : text_ok (new_machine_id fill).
Proof.
  intros x. unfold new_machine_id, new_id, secret_new. destruct (fill 16%nat) as [e|l]; cbn; [done|].
  intros [= <-]. apply ascii_utf8. eapply Forall_impl; [apply hex_chars|]. cbn. lia.
Qed.

Lemma accept_ascii b c : accept b = Some c → byte_val c < 128.
Proof.
  intros Hc%accept_alphabet. revert c Hc. apply Forall_forall. by repeat (constructor; [reflexivity|]).
Qed.

Lemma sample_ascii {E} length (fills : list (E + byte)) value x :
  Forall (fun c => byte_val c < 128) (bytes value) → sample length fills value = Some (Ok x) →
  Forall (fun c => byte_val c < 128) (bytes x).
Proof.
  revert value. induction fills as [|[e|b] fills IH]; intros value Hv; cbn [sample].
  all: destruct (length <=? str_len value)%nat; [by intros [= <-]|]; try done.
  apply IH. destruct (accept b) as [c|] eqn:Ec; [|done]. rewrite bytes_app. apply Forall_app_2; [done|].
  repeat constructor. by eapply accept_ascii.
Qed.

Lemma random_name_text fills r : new_random_machine_name fills = Some r → text_ok r.
Proof.
  unfold new_random_machine_name, random_alphanumeric, random_alphanumeric_with.
  destruct (sample 4 fills "") as [[x|e|m]|] eqn:E; cbn [fmap option_fmap option_map map_err mbind result_bind];
    intros [= <-]; [|done..].
  intros y [= <-]. apply ascii_utf8. rewrite bytes_app.
  apply Forall_app_2; [by repeat constructor|]. by eapply sample_ascii; [|exact E].
Qed.

Lemma cluster_network_wp net s : cluster_inv net s →
  wp cluster_network s (fun r s' => s' = s ∧ ∀ x, r = Ok x → x = net).
Proof.
  intros [_ (text & Htext & Hnet) _ _ _ _]. unfold cluster_network. rewrite wp_bind, wp_call.
  intros r s' [-> Hr]. destruct r as [text'| |]; [cbn [or_internal map_err on_result]|done..].
  destruct Hr as (x & Ex & Hx). rewrite Htext in Ex. injection Ex as <-. rewrite <-(Hx text eq_refl).
  rewrite wp_lift, Hnet. split; [done|]. by intros x [= <-].
Qed.

Lemma cluster_network_calls s : calls_ok cluster_network s.
Proof. apply calls_ok_bind; [by apply calls_ok_call|]. rewrite wp_call. intros r s' _. by destruct (or_internal _ r). Qed.

Lemma add_machine_calls id random_name request net s :
  cluster_inv net s → request_wire request → text_ok id → text_ok random_name →
  calls_ok (add_machine_without_ready_check id random_name request) s.
Proof.
  intros Hinv Hwire Hid Hrn. unfold add_machine_without_ready_check.
  destruct (check_request_spec request) as [_ Hco].
  apply calls_ok_bind; [done|]. rewrite wp_lift. destruct (check_request request) as [n| |] eqn:Ecr; [|done..].
  destruct (Hco n eq_refl) as (Hn & Hkey & _ & Hmip).
  apply calls_ok_bind; [by apply calls_ok_call|]. rewrite wp_call. intros r s' [-> Hr].
  destruct r as [l| |]; [cbn [or_internal map_err]|done..].
  rewrite management_address_ok. apply calls_ok_bind; [done|]. rewrite wp_lift.
  pose proof (scan_spec net (am_name request) (request_address n) (nc_public_key n) l) as Hscan.
  specialize (Hscan ltac:(rewrite Hr; apply (inv_machines _ _ Hinv))).
  apply calls_ok_bind; [done|]. rewrite wp_lift.
  destruct (foldM _ [] l) as [used| |]; [|done..]. destruct Hscan as [-> _].
  apply calls_ok_bind; [done|]. rewrite wp_lift.
  destruct id as [machine_id| |]; [cbn [map_err]|done..].
  apply calls_ok_bind; [done|]. rewrite wp_lift.
  match goal with |- match ?x with _ => _ end => set (name := x) end.
  assert (text_ok name) as Hname.
  { unfold name. destruct (str_is_empty (am_name request)).
    - intros y Hy. apply map_err_Ok in Hy. by apply Hrn.
    - intros y [= <-]. apply Hwire. }
  destruct name as [nm| |]; [|done..].
  destruct (machine_management_spec n Hkey Hmip) as (ip & a & Eip & Ea & _).
  apply calls_ok_bind; [done|]. rewrite wp_lift, Eip.
  apply calls_ok_bind; [apply cluster_network_calls|].
  eapply wp_mono; [by apply (cluster_network_wp net)|]. intros r s' [-> Hnet].
  destruct r as [net'| |]; [|done..]. rewrite (Hnet net' eq_refl).
  apply calls_ok_bind; [done|]. rewrite wp_lift.
  pose proof (next_subnet_listed net s (omap machine_subnet l) Hinv ltac:(by rewrite Hr)) as Hs.
  destruct (next_subnet net _) as [subnet| |]; [|done..]. destruct Hs as [Hsw _].
  apply calls_ok_bind; [apply calls_ok_call|].
  - cbn [call_ok]. by eapply (new_machine_storable request n); [..|apply Hid|apply Hname].
  - rewrite wp_call. intros r s' _. by destruct (or_internal _ r).
Qed.
End add_machine.

(** ** The composition *)

(** The calls of [add_machine] are the store's. *)
Definition store_action (a : action) : Prop :=
  match a with MembershipStates | DnsReserve _ | DnsCreate _ _ _ _ => False | _ => True end.

Lemma run_db_total {Db A} `{Backend Db, JsonText, Base64} (p : prog A) (db : Db) :
  only_calls store_action p → ∃ x db', run_db p db = Some (x, db').
Proof.
  revert db. induction p as [x|a k IH]; intros db Hp; cbn; [by eauto|]. destruct Hp as [Ha Hk].
  assert (∃ r db', store_call a db = Some (r, db')) as (r & db1 & ->).
  { destruct a; try done; cbn [store_call];
      match goal with |- ∃ r db', Some ?x = _ => exists x.1, x.2; by rewrite <-surjective_pairing end. }
  by apply IH.
Qed.

Lemma add_machine_store_calls `{HexLib} self id random_name request :
  only_calls store_action (add_machine self id random_name request).
Proof. unfold add_machine, add_machine_without_ready_check, cluster_network. only_calls. Qed.

(** C7: the cluster service over the store.  On a database that represents a
    consistent cluster, with a SQL backend whose listings are not cut short,
    [add_machine] of a ready service, for a request as it comes over the wire, always
    ends, and the database then represents a cluster state that [add_machine]
    promises for that answer: what it stores is what the next request reads.  (A
    listing cut short makes the service grant a subnet in use:
    [list_machines_drops_stream_error].) *)
Theorem add_machine_over_store {Db : Type} `{SqlBackend Db, HexLib} self fill fills random_name request net s (db : Db) :
  complete_listings (Db := Db) → cluster_inv net s → represents (tables db) s →
  request_wire request → cs_ready self = true → new_random_machine_name fills = Some random_name →
  ∃ r db' s', run_db (add_machine self (new_machine_id fill) random_name request) db = Some (r, db') ∧
    represents (tables db') s' ∧
    add_machine_post net (new_machine_id fill) random_name request s r s'.
Proof.
  intros Hc Hinv Hrep Hwire Hready Hname.
  destruct (run_db_total (add_machine self (new_machine_id fill) random_name request) db) as (r & db' & Hrun).
  { apply add_machine_store_calls. }
  pose proof (add_machine_ready_wp self fill fills random_name request net s Hinv Hname) as Hwp.
  rewrite Hready in Hwp. exists r, db'.
  assert (calls_ok (add_machine self (new_machine_id fill) random_name request) s) as Hcalls.
  { unfold add_machine, check_ready. rewrite Hready. apply calls_ok_bind; [done|]. rewrite wp_lift.
    by apply (add_machine_calls _ _ _ net); [..|apply machine_id_text|by eapply random_name_text]. }
  destruct (run_db_wp _ s db _ r db' Hc Hrep Hcalls Hwp Hrun) as (s' & Hrep' & Hpost). by exists s'.
Qed.


(** The tables after initialisation. *)
Definition tables0 : Tables := mk_Tables (value_text (H1 := reference_base64) <$> db_values db0) ∅ ∅.

Lemma tables0_represents : @represents reference_json reference_base64 tables0 db0.
Proof.
  split; try done; [|constructor].
  intros key v Hv.
  assert (map_Forall (fun _ x => match x with SText v => utf8_valid (bytes v) = true | _ => True end) (db_values db0))
    as Hall.
  { apply map_Forall_insert_2; [vm_compute; reflexivity|]. apply map_Forall_insert_2; [vm_compute; reflexivity|].
    apply map_Forall_empty. }
  exact (Hall key (SText v) Hv).
Qed.

Lemma add_machine_over_store_witness :
  ∃ r db' s', @run_db Tables (memory_backend None) reference_json reference_base64 _
                (add_fixed 1 (sample_request "one" 1)) tables0 = Some (r, db') ∧
    @represents reference_json reference_base64 db' s' ∧
    add_machine_post DEFAULT_NETWORK (@new_machine_id reference_hex (fixed_fill 1)) fixed_name (sample_request "one" 1) db0 r s'.
Proof.
  apply (@add_machine_over_store Tables (memory_backend None) reference_json reference_base64 (memory_sql None)
           reference_hex ready_self (fixed_fill 1) fixed_fills fixed_name (sample_request "one" 1) DEFAULT_NETWORK
           db0 tables0).
  - by intros t rows t' [= <- _].
  - apply db0_inv.
  - apply tables0_represents.
  - split; [reflexivity|]. intros n [= <-]. repeat constructor; vm_compute; discriminate.
  - reflexivity.
  - apply fixed_name_drawn.
Defined.
