(* ===== verification/StoreContainers.v ===== *)
(** * The cluster store: containers, versions and timestamps

    The rest of the operations of [lib.rs] of ployz-internal-machine-store: the
    containers table with its JSON column, the database versions of the replicas and
    the gaps in what was received, and the texts they use.  [serde_json] is a
    parameter. *)

From S2P Require Import Prelude RustStr NetAddr Wire Volume Port Config ServiceSpec Time Container Secret Cluster Store.

Local Open Scope Z_scope.

(** ** Timestamps *)

(** [StoreTimestamp]: the text, ordered as text. *)
Record StoreTimestamp := mk_StoreTimestamp { timestamp_text : string }.
Definition timestamp_cmp (a b : StoreTimestamp) : comparison := str_cmp (timestamp_text a) (timestamp_text b).

(** The bytes [YYYY-MM-DD hh:mm:ss] has at an index. *)
Definition timestamp_byte (index : nat) (c : ascii) : bool :=
  match index with
  | 4%nat | 7%nat => ascii_eqb c "-"
  | 10%nat => ascii_eqb c " "
  | 13%nat | 16%nat => ascii_eqb c ":"
  | _ => is_ascii_digit c
  end.
Fixpoint all_from (p : nat → ascii → bool) (index : nat) (l : list ascii) : bool :=
  match l with [] => true | c :: l => p index c && all_from p (S index) l end.
Definition timestamp_shaped (value : string) : bool :=
  (str_len value =? 19)%nat && all_from timestamp_byte 0 (bytes value).

(** [value[range].parse::<u32>().ok()]. *)
Definition timestamp_number (value : string) (a b : nat) : result StoreError (option Z) :=
  field ← str_slice a b value; result_ok (parse_u 32 field).

(** [valid_store_timestamp]. *)
Definition valid_store_timestamp (value : string) : result StoreError bool :=
  year ← timestamp_number value 0 4;
  month ← timestamp_number value 5 7;
  day ← timestamp_number value 8 10;
  hour ← timestamp_number value 11 13;
  minute ← timestamp_number value 14 16;
  second ← timestamp_number value 17 19;
  Ok (match year, month, day, hour, minute, second with
      | Some year, Some month, Some day, Some hour, Some minute, Some second =>
          let leap_year := (year mod 4 =? 0) && (negb (year mod 100 =? 0) || (year mod 400 =? 0)) in
          let days :=
            match month with
            | 1 | 3 | 5 | 7 | 8 | 10 | 12 => Some 31
            | 4 | 6 | 9 | 11 => Some 30
            | 2 => Some (if leap_year then 29 else 28)
            | _ => None
            end in
          match days with
          | None => false
          | Some days => (1 <=? day) && (day <=? days) && (hour <? 24) && (minute <? 60) && (second <? 60)
          end
      | _, _, _, _, _, _ => false
      end).

(** [StoreTimestamp::parse]. *)
Definition timestamp_parse `{UnicodeLib} (value : string) : result StoreError StoreTimestamp :=
  valid ← (if timestamp_shaped value then valid_store_timestamp value else Ok false);
  if valid : bool then Ok (mk_StoreTimestamp value)
  else Err (InvalidData ("parse updated_at: invalid timestamp " +:+ str_debug value)).

(** ** Versions *)

(** [encode_hex]. *)
Fixpoint encode_hex (l : list byte) : string :=
  match l with
  | [] => ""
  | b :: l => String (hex_digit (Z.shiftr (u8 b) 4)) (String (hex_digit (Z.land (u8 b) 15)) (encode_hex l))
  end.

(** [format_uuid]; the text is ASCII, so the slices are whole characters. *)
Definition format_uuid (l : list byte) : result StoreError string :=
  if negb (length l =? 16)%nat
  then Err (InvalidData ("parse site_id as UUID: invalid length " +:+ dec (Z.of_nat (length l))))
  else
    let hex := encode_hex l in
    a ← str_slice 0 8 hex;
    b ← str_slice 8 12 hex;
    c ← str_slice 12 16 hex;
    d ← str_slice 16 20 hex;
    e ← str_slice 20 32 hex;
    Ok (a +:+ "-" +:+ b +:+ "-" +:+ c +:+ "-" +:+ d +:+ "-" +:+ e).

Record MissingChange := mk_MissingChange { actor_id : string; start_version : Z; end_version : Z }.

Definition VERSION_QUERY : string := "SELECT site_id, db_version FROM crsql_db_versions".
Definition MISSING_QUERY : string := "SELECT actor_id, start, end FROM __corro_bookkeeping_gaps".

Section versions.
Context {Db : Type} `{Backend Db}.

Definition version_row (versions : gmap string Z) (row : DbRow) : result StoreError (gmap string Z) :=
  match row with
  | [DbBytes site_id; DbInteger version] => id ← format_uuid site_id; Ok (<[id := version]> versions)
  | _ => Err (InvalidData "scan actor version: invalid columns")
  end.

(** [Store::version]. *)
Definition store_version (db : Db) : result StoreError (gmap string Z) * Db :=
  let '(r, db) := store_query "query crsql_db_versions" VERSION_QUERY None [CK_Blob; CK_Integer] db in
  (rows ← r; foldM version_row ∅ rows, db).

Definition missing_row (row : DbRow) : result StoreError MissingChange :=
  match row with
  | [DbBytes actor; DbInteger start; DbInteger finish] => Ok (mk_MissingChange (encode_hex actor) start finish)
  | _ => Err (InvalidData "scan missing change: invalid columns")
  end.

(** [Store::known_missing_changes]. *)
Definition known_missing_changes (db : Db) : result StoreError (list MissingChange) * Db :=
  let '(r, db) := store_query "query missing changes" MISSING_QUERY None [CK_Blob; CK_Integer; CK_Integer] db in
  (rows ← r; traverse missing_row rows, db).
End versions.

(** ** Containers *)

(** [go_escape_json]: [<], [>], [&] and the two line separators as escapes. *)
Definition is_code (n : Z) (b : byte) : bool := u8 b =? n.
Definition byte_text (s : string) : list byte := map Ascii.byte_of_ascii (bytes s).
Fixpoint go_escape_json (l : list byte) : list byte :=
  match l with
  | [] => []
  | a :: rest =>
      if is_code 60 a then byte_text "\u003c" ++ go_escape_json rest
      else if is_code 62 a then byte_text "\u003e" ++ go_escape_json rest
      else if is_code 38 a then byte_text "\u0026" ++ go_escape_json rest
      else match rest with
           | b :: c :: rest' =>
               if is_code 226 a && is_code 128 b && is_code 168 c then byte_text "\u2028" ++ go_escape_json rest'
               else if is_code 226 a && is_code 128 b && is_code 169 c then byte_text "\u2029" ++ go_escape_json rest'
               else a :: go_escape_json rest
           | _ => a :: go_escape_json rest
           end
  end.

(** [String::from_utf8(..).expect(..)]. *)
Definition from_utf8_expect {E} (msg : string) (l : list byte) : result E string :=
  let text := map Ascii.ascii_of_byte l in
  if utf8_valid text then Ok (of_bytes text) else Panic msg.

(** [serde_json::to_vec] of a service container: text in UTF-8, or an error. *)
Class ContainerJson `{JsonDecode} := {
  container_to_vec : ServiceContainer JsonValue → string + list byte;
  container_to_vec_utf8 c l : container_to_vec c = inr l → utf8_valid (map Ascii.ascii_of_byte l) = true
}.

(** The order of mounts: by destination, then by source. *)
Definition mount_cmp {V} (left right : ContainerMountPoint V) : comparison :=
  then_cmp (str_cmp (mp_destination V left) (mp_destination V right))
           (str_cmp (mp_source V left) (mp_source V right)).
Definition mount_le {V} (left right : ContainerMountPoint V) : Prop := mount_cmp left right ≠ Gt.
#[export] Instance mount_le_dec {V} : RelDecision (@mount_le V).
Proof. intros a b. unfold mount_le. apply _. Defined.

(** [normalise_container_for_store], by fields. *)
Definition clear_config_env {V} (c : ContainerConfig V) : ContainerConfig V :=
  mk_ContainerConfig V (cc_hostname V c) (cc_domainname V c) (cc_user V c) (cc_attach_stdin V c)
    (cc_attach_stdout V c) (cc_attach_stderr V c) (cc_tty V c) (cc_open_stdin V c) (cc_stdin_once V c)
    slice_default (cc_cmd V c) (cc_image c) (cc_working_dir V c) (cc_entrypoint V c) (cc_labels c)
    (cc_healthcheck c) (cc_extra V c).
Definition clear_spec_env (s : ServiceSpec) : ServiceSpec :=
  let c := ss_container s in
  mk_ServiceSpec (ss_caddy s) (ss_configs s)
    (mk_ContainerSpec (ct_cap_add c) (ct_cap_drop c) (ct_command c) (ct_entrypoint c) map_default
       (ct_healthcheck c) (ct_image c) (ct_init c) (ct_log_driver c) (ct_pid_mode c) (ct_tty c)
       (ct_open_stdin c) (ct_privileged c) (ct_pull_policy c) (ct_resources c) (ct_stop_grace_period c)
       (ct_sysctls c) (ct_user c) (ct_volume_mounts c) (ct_config_mounts c) (ct_volumes c))
    (ss_mode s) (ss_name s) (ss_placement s) (ss_ports s) (ss_pre_deploy s) (ss_replicas s)
    (ss_update_config s) (ss_volumes s).
Definition sort_mounts {V} (mounts : GoSlice (ContainerMountPoint V)) : GoSlice (ContainerMountPoint V) :=
  if slice_is_empty mounts then mounts else slice_deref_mut (merge_sort mount_le) mounts.
Definition normalise_container_for_store {V} (container : ServiceContainer V) : ServiceContainer V :=
  let c := sc_container container in
  mk_ServiceContainer
    (mk_Container (c_id c) (c_created c) (c_path c) (c_args c) (c_image c) (c_name c)
       (clear_config_env <$> c_config c) (c_state c) (c_host_config c) (sort_mounts (c_mounts c))
       (c_network_settings c) (c_extra c) (c_created_cache c))
    (clear_spec_env (sc_service_spec container)).

Record ContainerRecord `{JsonLib} := mk_ContainerRecord {
  cr_container : ServiceContainer JsonValue;
  cr_machine_id : string;
  cr_sync_status : string;
  cr_updated_at : StoreTimestamp
}.

Definition ListOptions_default : ListOptions := mk_ListOptions [] (mk_ServiceIdOrNameOptions "" "").

Definition newline : string := String (Ascii.ascii_of_nat 10) "".
(** The upsert leaves a row alone whose container and machine it would not change. *)
Definition UPSERT_QUERY : string := str_join newline
  [""; "        INSERT INTO containers (id, container, machine_id, sync_status, updated_at)";
   "        VALUES (?, ?, ?, ?, datetime('now'))";
   "        ON CONFLICT (id) DO UPDATE SET container   = excluded.container,";
   "                                       machine_id  = excluded.machine_id,";
   "                                       sync_status = excluded.sync_status,";
   "                                       updated_at  = excluded.updated_at";
   "        WHERE containers.container != excluded.container";
   "          OR containers.machine_id != excluded.machine_id"].

Definition container_columns : list ColumnKind := [CK_Text; CK_Text; CK_Text; CK_Text; CK_Text].

Section containers.
Context {Db : Type} `{Backend Db, ContainerJson, UnicodeLib}.

(** [Store::create_or_update_container]. *)
Definition container_json (container : ServiceContainer JsonValue) : result StoreError string :=
  l ← match container_to_vec container with
      | inl e => Err (InvalidData ("marshal container: " +:+ e))
      | inr l => Ok (go_escape_json l)
      end;
  from_utf8_expect "JSON escaping preserves UTF-8" l.
Definition create_or_update_container (container : ServiceContainer JsonValue) (machine_id : string) (db : Db) :
    result StoreError () * Db :=
  let container := normalise_container_for_store container in
  match container_json container with
  | Ok json =>
      let '(r, db) := store_exec "upsert query" UPSERT_QUERY
                        (Some [SqlString (c_id (sc_container container)); SqlString json; SqlString machine_id;
                               SqlString SYNC_STATUS_SYNCED]) db in
      (_ ← r; Ok (), db)
  | Err e => (Err e, db)
  | Panic msg => (Panic msg, db)
  end.

(** [decode_container_rows]. *)
Definition decode_container_row (containers : list ContainerRecord) (row : DbRow) :
    result StoreError (list ContainerRecord) :=
  match row with
  | [DbText _; DbText json; DbText machine_id; DbText sync_status; DbText updated_at] =>
      if str_is_empty json || bool_decide (json = "{}") then Ok containers
      else
        container ← map_err (fun e => InvalidData ("unmarshal container: " +:+ api_error_display e))
                      (service_container_from_json (byte_text json));
        updated_at ← timestamp_parse updated_at;
        Ok (containers ++ [mk_ContainerRecord _ container machine_id sync_status updated_at])
  | _ => Err (InvalidData "scan container record: invalid columns")
  end.
Definition decode_container_rows (rows : list DbRow) : result StoreError (list ContainerRecord) :=
  foldM decode_container_row [] rows.

(** [Store::list_containers]. *)
Definition list_containers (options : ListOptions) (db : Db) : result StoreError (list ContainerRecord) * Db :=
  let '(query, params) := list_containers_query options in
  let '(r, db) := store_query "select query" query (Some params) container_columns db in
  (rows ← r; decode_container_rows rows, db).
End containers.
