(* ===== verification/StoreTime.v ===== *)
(** * Timestamps of the store are ordered by time

    Which texts [StoreTimestamp::parse] accepts, and that their order as texts, which
    is the derived order of [StoreTimestamp], is the order of the instants they
    name. *)

From S2P Require Import Prelude RustStr NetAddr Config Time TimeProps Cluster StoreContainers.

Local Open Scope Z_scope.

(** ** Digits *)

(** The value of digits that follow a number. *)
Fixpoint digits_from (acc : Z) (s : string) : Z :=
  match s with
  | EmptyString => acc
  | String c s => digits_from (acc * 10 + (byte_val c - 48)) s
  end.
Definition digits_value (s : string) : Z := digits_from 0 s.

Lemma digit_bounds c : is_ascii_digit c = true → 0 <= byte_val c - 48 < 10.
Proof. unfold is_ascii_digit. rewrite andb_true_iff, !Z.leb_le. lia. Qed.

Lemma digits_from_split acc s : all_digits s →
  digits_from acc s = acc * 10 ^ Z.of_nat (str_len s) + digits_value s ∧
  0 <= digits_value s < 10 ^ Z.of_nat (str_len s).
Proof.
  unfold digits_value. revert acc. induction s as [|c s IH]; intros acc Hs; [cbn; lia|].
  apply all_digits_cons in Hs as [Hc Hs]. apply digit_bounds in Hc. cbn [digits_from].
  rewrite str_len_cons, Nat2Z.inj_succ, Z.pow_succ_r by lia.
  destruct (IH (acc * 10 + (byte_val c - 48)) Hs) as [-> Hb].
  destruct (IH (0 * 10 + (byte_val c - 48)) Hs) as [-> _].
  split; [ring|]. nia.
Qed.

Lemma digits_from_ge acc s : 0 <= acc → all_digits s → acc <= digits_from acc s.
Proof.
  intros Ha Hs. destruct (digits_from_split acc s Hs) as [-> Hb].
  pose proof (Z.pow_pos_nonneg 10 (Z.of_nat (str_len s))). nia.
Qed.

Lemma parse_digits_value lo hi acc s : 0 <= acc → all_digits s → digits_from acc s <= hi →
  parse_digits false lo hi acc s = Ok (digits_from acc s).
Proof.
  revert acc. induction s as [|c s IH]; intros acc Ha Hs Hhi; [done|].
  apply all_digits_cons in Hs as [Hc Hs]. pose proof (digit_bounds c Hc). cbn [parse_digits digits_from] in *.
  unfold digit_val. rewrite Hc. cbn.
  pose proof (digits_from_ge (acc * 10 + (byte_val c - 48)) s ltac:(lia) Hs).
  rewrite (proj2 (Z.ltb_ge _ _)) by lia. apply IH; [lia|done|done].
Qed.

(** ** Texts of equal length *)

Lemma str_cmp_cons c s d t : str_cmp (String c s) (String d t)
  = then_cmp (byte_val c ?= byte_val d) (str_cmp s t).
Proof.
  unfold str_cmp, then_cmp, byte_val. cbn [String.compare]. unfold Ascii.compare.
  rewrite <-N2Z.inj_compare. by destruct (Z.of_N (Ascii.N_of_ascii c) ?= Z.of_N (Ascii.N_of_ascii d)).
Qed.

Lemma then_cmp_assoc a b c : then_cmp (then_cmp a b) c = then_cmp a (then_cmp b c).
Proof. by destruct a. Qed.

Lemma str_cmp_app a b x y : str_len a = str_len b →
  str_cmp (a +:+ x) (b +:+ y) = then_cmp (str_cmp a b) (str_cmp x y).
Proof.
  revert b. induction a as [|c a IH]; intros [|d b] Hl; try done.
  rewrite !str_len_cons in Hl.
  change (String c a +:+ x) with (String c (a +:+ x)). change (String d b +:+ y) with (String d (b +:+ y)).
  rewrite !str_cmp_cons, IH by lia. by rewrite then_cmp_assoc.
Qed.

Lemma str_cmp_refl s : str_cmp s s = Eq.
Proof. induction s as [|c s IH]; [done|]. by rewrite str_cmp_cons, Z.compare_refl. Qed.

(** Digits of one length are ordered by their value. *)
Lemma str_cmp_digits s t : all_digits s → all_digits t → str_len s = str_len t →
  str_cmp s t = (digits_value s ?= digits_value t).
Proof.
  revert t. induction s as [|c s IH]; intros [|d t] Hs Ht Hl; try done.
  apply all_digits_cons in Hs as [Hc Hs], Ht as [Hd Ht]. rewrite !str_len_cons in Hl. injection Hl as Hl.
  rewrite str_cmp_cons, IH by done. unfold digits_value at 3 4. cbn [digits_from].
  destruct (digits_from_split (0 * 10 + (byte_val c - 48)) s Hs) as [-> Hbs].
  destruct (digits_from_split (0 * 10 + (byte_val d - 48)) t Ht) as [-> Hbt]. rewrite Hl in *.
  unfold then_cmp. destruct (Z.compare_spec (byte_val c) (byte_val d)) as [->|Hlt|Hlt].
  - symmetry. apply Z.add_compare_mono_l.
  - symmetry. apply Z.compare_lt_iff. nia.
  - symmetry. apply Z.compare_gt_iff. nia.
Qed.

Lemma digits_value_pad (width : nat) n : (0 < width)%nat → 0 <= n < 10 ^ Z.of_nat width →
  digits_value (pad width n) = n.
Proof.
  intros Hw Hn. destruct (pad_spec width n Hw Hn) as (Hl & Hd & Hp).
  destruct (digits_from_split 0 _ Hd) as [_ Hb]. rewrite Hl in Hb.
  pose proof (Hp 0 (10 ^ Z.of_nat width) ltac:(lia)) as H1.
  rewrite parse_digits_value in H1; [by injection H1|lia|done|]. unfold digits_value in Hb. lia.
Qed.

Lemma str_cmp_pad (width : nat) n m : (0 < width)%nat →
  0 <= n < 10 ^ Z.of_nat width → 0 <= m < 10 ^ Z.of_nat width →
  str_cmp (pad width n) (pad width m) = (n ?= m).
Proof.
  intros Hw Hn Hm. destruct (pad_spec width n Hw Hn) as (Hl & Hd & _), (pad_spec width m Hw Hm) as (Hl' & Hd' & _).
  rewrite str_cmp_digits by (done || congruence). by rewrite !digits_value_pad.
Qed.

(** Digits are the text of their value. *)
Lemma pad_digits s : s ≠ "" → all_digits s → pad (str_len s) (digits_value s) = s.
Proof.
  intros Hne Hs. assert (0 < str_len s)%nat as Hw by (destruct s; [done|rewrite str_len_cons; lia]).
  destruct (digits_from_split 0 s Hs) as [_ Hb].
  destruct (pad_spec (str_len s) _ Hw Hb) as (Hl & Hd & _).
  apply String.compare_eq_iff. change (str_cmp (pad (str_len s) (digits_value s)) s = Eq).
  rewrite str_cmp_digits, digits_value_pad by done. apply Z.compare_refl.
Qed.

(** ** Moments *)

(** A moment of a year of four digits, its text and its instant. *)
Record Moment := mk_Moment {
  mo_year : Z; mo_month : Z; mo_day : Z; mo_hour : Z; mo_minute : Z; mo_second : Z
}.
Definition moment_valid (t : Moment) : Prop :=
  0 <= mo_year t < 10000 ∧ valid_date (mo_year t) (mo_month t) (mo_day t) ∧
  0 <= mo_hour t < 24 ∧ 0 <= mo_minute t < 60 ∧ 0 <= mo_second t < 60.
Definition moment_text (t : Moment) : string :=
  pad 4 (mo_year t) +:+ "-" +:+ pad 2 (mo_month t) +:+ "-" +:+ pad 2 (mo_day t) +:+ " " +:+
  pad 2 (mo_hour t) +:+ ":" +:+ pad 2 (mo_minute t) +:+ ":" +:+ pad 2 (mo_second t).
Definition moment_seconds (t : Moment) : Z :=
  days_from_civil (mo_year t) (mo_month t) (mo_day t) * 86400
  + (mo_hour t * 3600 + mo_minute t * 60 + mo_second t).

(** Dates in the order of the calendar. *)
Definition date_lt (p q : Z * Z * Z) : Prop :=
  let '(y, m, d) := p in let '(y', m', d') := q in
  y < y' ∨ y = y' ∧ (m < m' ∨ m = m' ∧ d < d').

Lemma date_lt_trans p q r : date_lt p q → date_lt q r → date_lt p r.
Proof. destruct p as [[? ?] ?], q as [[? ?] ?], r as [[? ?] ?]. unfold date_lt. lia. Qed.

Lemma next_date_lt p : date_lt p (next_date p).
Proof.
  destruct p as [[y m] d]. unfold next_date, date_lt.
  destruct (d <? days_in_month y m); [|destruct (m <? 12)]; lia.
Qed.

Lemma civil_date_mono a (k : nat) : date_lt (civil_date a) (civil_date (a + Z.of_nat (S k))).
Proof.
  induction k as [|k IH].
  - replace (a + Z.of_nat 1) with (a + 1) by lia. rewrite civil_date_next. apply next_date_lt.
  - eapply date_lt_trans; [exact IH|].
    replace (a + Z.of_nat (S (S k))) with (a + Z.of_nat (S k) + 1) by lia. rewrite civil_date_next. apply next_date_lt.
Qed.

Lemma days_date_lt y m d y' m' d' : valid_date y m d → valid_date y' m' d' →
  days_from_civil y m d < days_from_civil y' m' d' → date_lt (y, m, d) (y', m', d').
Proof.
  intros H H' Hlt. rewrite <-(days_civil_date y m d), <-(days_civil_date y' m' d') by done.
  set (a := days_from_civil y m d) in *. set (b := days_from_civil y' m' d') in *.
  replace b with (a + Z.of_nat (S (Z.to_nat (b - a - 1)))) by lia. apply civil_date_mono.
Qed.

(** The number of a day is ordered like year, month and day. *)
Lemma days_compare y m d y' m' d' : valid_date y m d → valid_date y' m' d' →
  (days_from_civil y m d ?= days_from_civil y' m' d') = then_cmp (y ?= y') (then_cmp (m ?= m') (d ?= d')).
Proof.
  intros H H'. destruct (Z.compare_spec (days_from_civil y m d) (days_from_civil y' m' d')) as [E|Hlt|Hlt].
  - apply days_from_civil_inj in E as [= -> -> ->]; [|done..]. by rewrite !Z.compare_refl.
  - pose proof (days_date_lt _ _ _ _ _ _ H H' Hlt) as Hd. unfold date_lt in Hd.
    destruct (Z.compare_spec y y'), (Z.compare_spec m m'), (Z.compare_spec d d'); simpl; try done; lia.
  - pose proof (days_date_lt _ _ _ _ _ _ H' H Hlt) as Hd. unfold date_lt in Hd.
    destruct (Z.compare_spec y y'), (Z.compare_spec m m'), (Z.compare_spec d d'); simpl; try done; lia.
Qed.

(** A number in base [n] is ordered by its digits. *)
Lemma compare_base n a b a' b' : 0 <= b < n → 0 <= b' < n →
  (a * n + b ?= a' * n + b') = then_cmp (a ?= a') (b ?= b').
Proof.
  intros Hb Hb'. destruct (Z.compare_spec a a') as [->|Hlt|Hlt]; simpl.
  - apply Z.add_compare_mono_l.
  - apply Z.compare_lt_iff. nia.
  - apply Z.compare_gt_iff. nia.
Qed.

Lemma moment_order t u : moment_valid t → moment_valid u →
  str_cmp (moment_text t) (moment_text u) = (moment_seconds t ?= moment_seconds u).
Proof.
  intros (Hy & Hd & Hh & Hm & Hs) (Hy' & Hd' & Hh' & Hm' & Hs').
  assert (∀ x x', 0 <= x < 100 → 0 <= x' < 100 → str_len (pad 2 x) = str_len (pad 2 x')) as H2.
  { intros x x' Hx Hx'. by rewrite (proj1 (pad_spec 2 x ltac:(lia) Hx)), (proj1 (pad_spec 2 x' ltac:(lia) Hx')). }
  pose proof (days_in_month_le (mo_year t) (mo_month t)). pose proof (days_in_month_le (mo_year u) (mo_month u)).
  unfold moment_seconds. rewrite compare_base by lia.
  replace (mo_hour t * 3600 + mo_minute t * 60 + mo_second t)
    with (mo_hour t * 3600 + (mo_minute t * 60 + mo_second t)) by lia.
  replace (mo_hour u * 3600 + mo_minute u * 60 + mo_second u)
    with (mo_hour u * 3600 + (mo_minute u * 60 + mo_second u)) by lia.
  rewrite (compare_base 3600), (compare_base 60), days_compare by (lia || done).
  destruct Hd, Hd'. unfold moment_text.
  rewrite !str_cmp_app by (done || by rewrite (proj1 (pad_spec 4 _ ltac:(lia) Hy)), (proj1 (pad_spec 4 _ ltac:(lia) Hy'))
                               || (apply H2; lia)).
  rewrite !str_cmp_pad by (lia || (cbn; lia)). by rewrite !then_cmp_assoc.
Qed.

(** ** Reading *)

Lemma number_at p f r : f ≠ "" → all_digits f → (str_len f <= 9)%nat → starts_char r →
  timestamp_number (p +:+ f +:+ r) (str_len p) (str_len (p +:+ f)) = Ok (Some (digits_value f)).
Proof.
  intros Hne Hf Hl Hr. unfold timestamp_number, str_slice.
  assert (starts_char (f +:+ r)) as Hfr.
  { destruct f as [|c f]; [done|]. apply all_digits_cons in Hf as [Hc _]. by apply digit_facts. }
  rewrite str_get_app by done. cbn. unfold parse_u. destruct f as [|c f]; [done|].
  rewrite parse_int_digits by (by apply all_digits_cons in Hf as [Hc _]).
  destruct (digits_from_split 0 _ Hf) as [_ Hb].
  assert (10 ^ Z.of_nat (str_len (String c f)) <= 10 ^ 9) by (apply Z.pow_le_mono_r; lia).
  rewrite parse_digits_value; [done|lia|done|]. unfold digits_value in Hb. change (u_max 32) with 4294967295. lia.
Qed.

(** A text of the right shape, by its fields. *)
Definition fields_text (y m d h mi s : string) : string :=
  y +:+ "-" +:+ m +:+ "-" +:+ d +:+ " " +:+ h +:+ ":" +:+ mi +:+ ":" +:+ s.
Definition digits_of (n : nat) (s : string) : Prop := all_digits s ∧ str_len s = n.

Lemma str_len_19 v : str_len v = 19%nat → ∃ c0 c1 c2 c3 c4 c5 c6 c7 c8 c9 c10 c11 c12 c13 c14 c15 c16 c17 c18,
  v = of_bytes [c0; c1; c2; c3; c4; c5; c6; c7; c8; c9; c10; c11; c12; c13; c14; c15; c16; c17; c18].
Proof.
  intros Hl. do 19 (destruct v as [|? v]; [discriminate Hl|]). destruct v; [|discriminate Hl]. by repeat eexists.
Qed.

Lemma shaped_fields v : timestamp_shaped v = true → ∃ y m d h mi s, v = fields_text y m d h mi s ∧
  digits_of 4 y ∧ digits_of 2 m ∧ digits_of 2 d ∧ digits_of 2 h ∧ digits_of 2 mi ∧ digits_of 2 s.
Proof.
  unfold timestamp_shaped. intros [Hl%Nat.eqb_eq Hs]%andb_true_iff.
  destruct (str_len_19 v Hl) as (c0 & c1 & c2 & c3 & c4 & c5 & c6 & c7 & c8 & c9 & c10 & c11 & c12 & c13 & c14
    & c15 & c16 & c17 & c18 & ->).
  cbn [bytes of_bytes String.list_ascii_of_string String.string_of_list_ascii all_from timestamp_byte] in Hs.
  repeat (apply andb_true_iff in Hs as [? Hs]).
  repeat match goal with H : ascii_eqb _ _ = true |- _ => apply Ascii.eqb_eq in H end. subst.
  exists (of_bytes [c0; c1; c2; c3]), (of_bytes [c5; c6]), (of_bytes [c8; c9]), (of_bytes [c11; c12]),
    (of_bytes [c14; c15]), (of_bytes [c17; c18]).
  unfold digits_of. split_and!; try done;
    cbn [of_bytes String.string_of_list_ascii]; repeat (apply all_digits_cons; split; [done|]); done.
Qed.

Lemma digits_of_bounds n s : digits_of n s → 0 <= digits_value s < 10 ^ Z.of_nat n.
Proof. intros [Hs <-]. by destruct (digits_from_split 0 s Hs). Qed.

Lemma number_range v p f r (a n : nat) : v = p +:+ f +:+ r → str_len p = a → digits_of n f → (0 < n <= 9)%nat →
  starts_char r → timestamp_number v a (a + n) = Ok (Some (digits_value f)).
Proof.
  intros -> <- [Hf <-] Hn Hr. rewrite <-str_len_app. apply number_at; [|done|lia|done].
  intros ->. cbn in Hn. lia.
Qed.

(** The days of a month as the code counts them. *)
Definition store_days (y m : Z) : option Z :=
  match m with
  | 1 | 3 | 5 | 7 | 8 | 10 | 12 => Some 31
  | 4 | 6 | 9 | 11 => Some 30
  | 2 => Some (if (y mod 4 =? 0) && (negb (y mod 100 =? 0) || (y mod 400 =? 0)) then 29 else 28)
  | _ => None
  end.

Lemma store_days_spec y m : store_days y m = if decide (1 <= m <= 12) then Some (days_in_month y m) else None.
Proof.
  unfold store_days, days_in_month. rewrite <-is_leap_mod.
  destruct (decide (1 <= m <= 12)) as [Hm|Hm].
  - assert (m = 1 ∨ m = 2 ∨ m = 3 ∨ m = 4 ∨ m = 5 ∨ m = 6 ∨ m = 7 ∨ m = 8 ∨ m = 9 ∨ m = 10 ∨ m = 11 ∨ m = 12)
      as Hc by lia. by repeat destruct Hc as [-> | Hc]; subst.
  - repeat case_match; try done; lia.
Qed.

Lemma fields_numbers y m d h mi s :
  digits_of 4 y → digits_of 2 m → digits_of 2 d → digits_of 2 h → digits_of 2 mi → digits_of 2 s →
  let v := fields_text y m d h mi s in
  timestamp_number v 0 4 = Ok (Some (digits_value y)) ∧ timestamp_number v 5 7 = Ok (Some (digits_value m)) ∧
  timestamp_number v 8 10 = Ok (Some (digits_value d)) ∧ timestamp_number v 11 13 = Ok (Some (digits_value h)) ∧
  timestamp_number v 14 16 = Ok (Some (digits_value mi)) ∧ timestamp_number v 17 19 = Ok (Some (digits_value s)).
Proof.
  intros Hy Hm Hd Hh Hmi Hs v.
  assert (str_len y = 4%nat ∧ str_len m = 2%nat ∧ str_len d = 2%nat ∧ str_len h = 2%nat ∧ str_len mi = 2%nat)
    as (Ly & Lm & Ld & Lh & Lmi) by (split_and!; apply Hy || apply Hm || apply Hd || apply Hh || apply Hmi).
  split_and!.
  - eapply (number_range v "" y _ 0 4); done || lia.
  - eapply (number_range v (y +:+ "-") m _ 5 2); [by rewrite <-!str_app_assoc| |done|lia|done].
    by rewrite !str_len_app, Ly.
  - eapply (number_range v (y +:+ "-" +:+ m +:+ "-") d _ 8 2); [by rewrite <-!str_app_assoc| |done|lia|done].
    by rewrite !str_len_app, Ly, Lm.
  - eapply (number_range v (y +:+ "-" +:+ m +:+ "-" +:+ d +:+ " ") h _ 11 2);
      [by rewrite <-!str_app_assoc| |done|lia|done]. by rewrite !str_len_app, Ly, Lm, Ld.
  - eapply (number_range v (y +:+ "-" +:+ m +:+ "-" +:+ d +:+ " " +:+ h +:+ ":") mi _ 14 2);
      [by rewrite <-!str_app_assoc| |done|lia|done]. by rewrite !str_len_app, Ly, Lm, Ld, Lh.
  - eapply (number_range v (y +:+ "-" +:+ m +:+ "-" +:+ d +:+ " " +:+ h +:+ ":" +:+ mi +:+ ":") s "" 17 2);
      [by rewrite str_app_nil, <-!str_app_assoc| |done|lia|done]. by rewrite !str_len_app, Ly, Lm, Ld, Lh, Lmi.
Qed.

Lemma fields_valid y m d h mi s :
  digits_of 4 y → digits_of 2 m → digits_of 2 d → digits_of 2 h → digits_of 2 mi → digits_of 2 s →
  ∃ b, valid_store_timestamp (fields_text y m d h mi s) = Ok b ∧
    (b = true ↔ moment_valid (mk_Moment (digits_value y) (digits_value m) (digits_value d)
                                (digits_value h) (digits_value mi) (digits_value s))).
Proof.
  intros Hy Hm Hd Hh Hmi Hs.
  destruct (fields_numbers _ _ _ _ _ _ Hy Hm Hd Hh Hmi Hs) as (E1 & E2 & E3 & E4 & E5 & E6).
  apply digits_of_bounds in Hy, Hm, Hd, Hh, Hmi, Hs. cbn in Hy, Hm, Hd, Hh, Hmi, Hs.
  unfold valid_store_timestamp. rewrite E1, E2, E3, E4, E5, E6. eexists. split; [reflexivity|].
  cbv zeta. fold (store_days (digits_value y) (digits_value m)). rewrite store_days_spec.
  unfold moment_valid, valid_date. cbn [mo_year mo_month mo_day mo_hour mo_minute mo_second].
  destruct (decide (1 <= digits_value m <= 12)); [|split; [done|lia]].
  rewrite !andb_true_iff, !Z.leb_le, !Z.ltb_lt. lia.
Qed.

Lemma fields_shaped y m d h mi s :
  digits_of 4 y → digits_of 2 m → digits_of 2 d → digits_of 2 h → digits_of 2 mi → digits_of 2 s →
  timestamp_shaped (fields_text y m d h mi s) = true.
Proof.
  intros [Dy Ly] [Dm Lm] [Dd Ld] [Dh Lh] [Di Li] [Ds Ls].
  destruct y as [|c0 [|c1 [|c2 [|c3 []]]]]; try done.
  destruct m as [|c5 [|c6 []]]; try done. destruct d as [|c8 [|c9 []]]; try done.
  destruct h as [|c11 [|c12 []]]; try done. destruct mi as [|c14 [|c15 []]]; try done.
  destruct s as [|c17 [|c18 []]]; try done.
  repeat match goal with H : all_digits (String _ _) |- _ => apply all_digits_cons in H as [? H] end.
  unfold timestamp_shaped. apply andb_true_iff. split; [done|].
  change (all_from timestamp_byte 0 [c0; c1; c2; c3; "-"; c5; c6; "-"; c8; c9; " "; c11; c12; ":"; c14; c15; ":";
    c17; c18]%char = true). cbn [all_from timestamp_byte].
  by repeat match goal with H : is_ascii_digit ?c = true |- context [is_ascii_digit ?c] => rewrite H; clear H end.
Qed.

(** The text of a valid moment has the fields of its numbers. *)
Lemma moment_fields t : moment_valid t → ∃ y m d h mi s,
  moment_text t = fields_text y m d h mi s ∧
  (digits_of 4 y ∧ digits_of 2 m ∧ digits_of 2 d ∧ digits_of 2 h ∧ digits_of 2 mi ∧ digits_of 2 s) ∧
  t = mk_Moment (digits_value y) (digits_value m) (digits_value d) (digits_value h) (digits_value mi)
        (digits_value s).
Proof.
  intros (Hy & [Hm Hd] & Hh & Hmi & Hs). pose proof (days_in_month_le (mo_year t) (mo_month t)).
  assert (∀ (w : nat) n, (0 < w)%nat → 0 <= n < 10 ^ Z.of_nat w →
            digits_of w (pad w n) ∧ digits_value (pad w n) = n) as Hpad.
  { intros w n Hw Hn. destruct (pad_spec w n Hw Hn) as (Hl & Hdg & _). split; [by split|by apply digits_value_pad]. }
  exists (pad 4 (mo_year t)), (pad 2 (mo_month t)), (pad 2 (mo_day t)), (pad 2 (mo_hour t)), (pad 2 (mo_minute t)),
    (pad 2 (mo_second t)). split; [done|].
  split; [split_and!; apply Hpad; lia || (cbn; lia)|].
  rewrite !(fun w n H1 H2 => proj2 (Hpad w n H1 H2)) by (lia || (cbn; lia)). by destruct t.
Qed.

Lemma fields_moment y m d h mi s :
  digits_of 4 y → digits_of 2 m → digits_of 2 d → digits_of 2 h → digits_of 2 mi → digits_of 2 s →
  fields_text y m d h mi s = moment_text (mk_Moment (digits_value y) (digits_value m) (digits_value d)
                                            (digits_value h) (digits_value mi) (digits_value s)).
Proof.
  assert (∀ n f, digits_of n f → (0 < n)%nat → pad n (digits_value f) = f) as Hpad.
  { intros n f [Hf <-] Hn. apply pad_digits; [|done]. intros ->. cbn in Hn. lia. }
  intros. unfold moment_text. cbn [mo_year mo_month mo_day mo_hour mo_minute mo_second].
  rewrite !Hpad by (done || lia). done.
Qed.

Lemma timestamp_valid_spec v : ∃ b, (if timestamp_shaped v then valid_store_timestamp v else Ok false) = Ok b ∧
  (b = true ↔ ∃ m, moment_valid m ∧ v = moment_text m).
Proof.
  destruct (timestamp_shaped v) eqn:Es.
  - destruct (shaped_fields v Es) as (y & m & d & h & mi & s & -> & Hy & Hm & Hd & Hh & Hmi & Hs).
    destruct (fields_valid _ _ _ _ _ _ Hy Hm Hd Hh Hmi Hs) as (b & Hb & Hval).
    exists b. split; [done|]. split.
    + intros Hm'%Hval. eexists. split; [exact Hm'|]. by apply fields_moment.
    + intros (t & Ht & E). rewrite fields_moment in E by done.
      destruct (moment_fields t Ht) as (y' & m' & d' & h' & mi' & s' & E' & (?&?&?&?&?&?) & ->).
      apply Hval. destruct (fields_valid y' m' d' h' mi' s') as (b' & Hb' & Hval'); [done..|].
      rewrite fields_moment in Hb, Hb' by done. rewrite E, Hb' in Hb. injection Hb as <-. naive_solver.
  - exists false. split; [done|]. split; [done|]. intros (m & Hm & ->).
    destruct (moment_fields m Hm) as (y & mo & d & h & mi & s & E & (?&?&?&?&?&?) & _).
    rewrite E, fields_shaped in Es by done. done.
Qed.

(** [StoreTimestamp::parse] accepts exactly the texts YYYY-MM-DD hh:mm:ss of
    existing moments, refuses every other text with an error and never panics; and the
    derived order of timestamps, which compares their texts, is the order of the
    instants they name. *)
Theorem store_timestamp_exact `{UnicodeLib} :
  (∀ v t, timestamp_parse v = Ok t ↔ t = mk_StoreTimestamp v ∧ ∃ m, moment_valid m ∧ v = moment_text m) ∧
  (∀ v msg, timestamp_parse v ≠ Panic msg) ∧
  (∀ m n, moment_valid m → moment_valid n →
     timestamp_cmp (mk_StoreTimestamp (moment_text m)) (mk_StoreTimestamp (moment_text n))
     = (moment_seconds m ?= moment_seconds n)).
Proof.
  split_and!.
  - intros v t. unfold timestamp_parse. destruct (timestamp_valid_spec v) as (b & -> & Hb). cbn. destruct b; split.
    + intros [= <-]. naive_solver.
    + by intros [-> _].
    + done.
    + intros [_ Hm]. by apply Hb in Hm.
  - intros v msg. unfold timestamp_parse. destruct (timestamp_valid_spec v) as ([] & -> & _); done.
  - intros m n Hm Hn. by apply moment_order.
Qed.
