(* ===== verification/StoreContainersProps.v ===== *)
(** * Containers in the store

    JSON escaping keeps the meaning of the text and its encoding, so that storing a
    container never panics; and what is stored depends neither on environment
    variables nor on the order in which Docker lists mounts. *)

From S2P Require Import Prelude RustStr NetAddr Wire Volume Port Config ServiceSpec Time TimeProps Container.
From S2P Require Import Secret Cluster Store StoreContainers.

Local Open Scope Z_scope.

(** ** UTF-8 by characters *)

Lemma utf8_char_pos c l : (0 < (utf8_char (c :: l)).1)%nat.
Proof. unfold utf8_char. repeat case_match; simpl; lia. Qed.

Lemma utf8_valid_aux_fuel fuel fuel' l : (length l <= fuel)%nat → (length l <= fuel')%nat →
  utf8_valid_aux fuel l = utf8_valid_aux fuel' l.
Proof.
  revert fuel' l. induction fuel as [|fuel IH]; intros [|fuel'] [|c l]; cbn [length]; try lia; try done.
  intros H H'. cbn [utf8_valid_aux]. pose proof (utf8_char_pos c l) as Hp.
  destruct (utf8_char (c :: l)) as [n b]. cbn in Hp. f_equal.
  apply IH; rewrite length_drop; cbn [length]; lia.
Qed.

Lemma utf8_valid_char c l n : utf8_char (c :: l) = (n, true) → utf8_valid (c :: l) = utf8_valid (drop n (c :: l)).
Proof.
  intros E. pose proof (utf8_char_pos c l) as Hp. rewrite E in Hp. cbn in Hp.
  unfold utf8_valid at 1. cbn [length utf8_valid_aux]. rewrite E. cbn [andb].
  apply utf8_valid_aux_fuel; rewrite length_drop; cbn [length]; lia.
Qed.

Lemma utf8_valid_inv c l : utf8_valid (c :: l) = true →
  ∃ n, utf8_char (c :: l) = (n, true) ∧ utf8_valid (drop n (c :: l)) = true.
Proof.
  intros H. destruct (utf8_char (c :: l)) as [n []] eqn:E.
  - exists n. split; [done|]. by rewrite <-(utf8_valid_char _ _ _ E).
  - unfold utf8_valid in H. cbn [length utf8_valid_aux] in H. by rewrite E in H.
Qed.

Lemma continuations_take n l r : continuations n l = n → continuations n (take n l ++ r) = n.
Proof.
  revert l. induction n as [|n IH]; intros [|c l]; cbn; try done.
  destruct (continuation c); [|done]. intros [= H]. by rewrite IH.
Qed.

(** A character is read from its own bytes. *)
Lemma utf8_char_local c l n r : utf8_char (c :: l) = (n, true) → utf8_char (take n (c :: l) ++ r) = (n, true).
Proof.
  unfold utf8_char. cbv zeta. intros E.
  repeat match type of E with
  | context [if ?b then _ else _] => let Eb := fresh "Eb" in destruct b eqn:Eb
  | context [match continuations ?m l with _ => _ end] =>
      let Ec := fresh "Ec" in destruct (continuations m l) as [|[|[|[|?]]]] eqn:Ec
  end; try discriminate E; injection E as <-; cbn [take app];
  rewrite ?Eb; repeat match goal with H : _ = true |- _ => rewrite H | H : _ = false |- _ => rewrite H end;
  try done; rewrite continuations_take by done; destruct l as [|d l]; try done; cbn [take app];
  repeat match goal with H : _ = true |- _ => rewrite H end; done.
Qed.

Lemma utf8_valid_prepend c l n r : utf8_char (c :: l) = (n, true) →
  utf8_valid (take n (c :: l) ++ r) = utf8_valid r.
Proof.
  intros E. pose proof (utf8_char_pos c l) as Hp. destruct (utf8_char_shape _ _ _ E) as (k & -> & Hk & _).
  pose proof (utf8_char_local _ _ _ r E) as E'. cbn [take app] in E' |- *. rewrite (utf8_valid_char _ _ _ E').
  cbn [drop]. by rewrite drop_app_le, drop_ge, app_nil_l by (rewrite length_take; lia).
Qed.

Lemma ascii_prepend a r : Forall (fun c => byte_val c < 128) a → utf8_valid (a ++ r) = utf8_valid r.
Proof.
  induction 1 as [|c a Hc _ IH]; [done|]. cbn [app].
  rewrite (utf8_valid_char c _ 1); [done|]. cbn [utf8_char]. by rewrite (proj2 (Z.ltb_lt _ _)).
Qed.

(** ** Escaping keeps the encoding *)

Definition text_of (l : list byte) : list ascii := map Ascii.ascii_of_byte l.

Lemma byte_val_of b : byte_val (Ascii.ascii_of_byte b) = u8 b.
Proof. by destruct b. Qed.

Definition special (b : byte) : bool := is_code 60 b || is_code 62 b || is_code 38 b.

Lemma go_escape_copy a l : special a = false → is_code 226 a = false → go_escape_json (a :: l) = a :: go_escape_json l.
Proof.
  unfold special. intros H Hc. apply orb_false_iff in H as [[H1 H2]%orb_false_iff H3].
  cbn [go_escape_json]. rewrite H1, H2, H3. destruct l as [|b [|c l]]; [done|done|]. by rewrite Hc.
Qed.

Definition is_cont (b : byte) : bool := (128 <=? u8 b) && (u8 b <=? 191).

Lemma cont_copied b : is_cont b = true → special b = false ∧ is_code 226 b = false.
Proof. by destruct b. Qed.

Lemma go_escape_conts ks r : Forall (fun b => is_cont b = true) ks → go_escape_json (ks ++ r) = ks ++ go_escape_json r.
Proof.
  induction 1 as [|b ks Hb _ IH]; [done|]. destruct (cont_copied b Hb). cbn [app].
  by rewrite go_escape_copy, IH.
Qed.

Lemma conts_of k l : Forall (fun c => continuation c = true) (take k (text_of l)) →
  Forall (fun b => is_cont b = true) (take k l).
Proof.
  unfold text_of. rewrite <-fmap_take, Forall_fmap. intros H. eapply Forall_impl; [exact H|]. intros b Hb.
  unfold is_cont. rewrite <-byte_val_of. exact Hb.
Qed.

Lemma utf8_char_226 c l n : utf8_char (c :: l) = (n, true) → byte_val c = 226 → n = 3%nat.
Proof. unfold utf8_char. intros E Hc. rewrite Hc in E. cbv zeta in E. simpl in E. by repeat case_match; simplify_eq. Qed.

Lemma text_of_app a b : text_of (a ++ b) = text_of a ++ text_of b.
Proof. apply map_app. Qed.

(** The character a unicode escape of the five stands for, by its four digits. *)
Definition escape_of (digits : list byte) : option (list byte) :=
  if bool_decide (digits = byte_text "003c") then Some [Byte.x3c]
  else if bool_decide (digits = byte_text "003e") then Some [Byte.x3e]
  else if bool_decide (digits = byte_text "0026") then Some [Byte.x26]
  else if bool_decide (digits = byte_text "2028") then Some [Byte.xe2; Byte.x80; Byte.xa8]
  else if bool_decide (digits = byte_text "2029") then Some [Byte.xe2; Byte.x80; Byte.xa9]
  else None.

Definition ascii_byte (b : byte) : Prop := u8 b < 128.

(** A unicode escape of the given characters, before the rest of a text. *)
Definition escaped (cs : list byte) (out rest : list byte) : Prop :=
  ∃ h1 h2 h3 h4, out = Byte.x5c :: Byte.x75 :: h1 :: h2 :: h3 :: h4 :: rest ∧ escape_of [h1; h2; h3; h4] = Some cs ∧
    Forall ascii_byte [Byte.x5c; Byte.x75; h1; h2; h3; h4].

Lemma is_code_eq n b c : is_code n b = true → u8 c = n → b = c.
Proof.
  unfold is_code, u8. intros H%Z.eqb_eq <-. apply N2Z.inj in H.
  apply (f_equal Byte.of_N) in H. rewrite !Byte.of_to_N in H. congruence.
Qed.

(** How escaping treats a byte: it writes an escape for one byte, or for the three
    bytes of a separator, or it copies the byte. *)
Lemma go_escape_cases a l :
  special a = true ∧ escaped [a] (go_escape_json (a :: l)) (go_escape_json l) ∨
  (∃ b c l', is_code 226 a = true ∧ l = b :: c :: l' ∧
     escaped [a; b; c] (go_escape_json (a :: l)) (go_escape_json l')) ∨
  special a = false ∧ go_escape_json (a :: l) = a :: go_escape_json l.
Proof.
  assert (∀ d h1 h2 h3 h4 out rest cs, d = [h1; h2; h3; h4] → out = Byte.x5c :: Byte.x75 :: d ++ rest →
    escape_of d = Some cs → Forall ascii_byte (Byte.x5c :: Byte.x75 :: d) → escaped cs out rest) as Hesc.
  { intros d h1 h2 h3 h4 out rest cs -> -> H1 H2. by exists h1, h2, h3, h4. }
  cbn [go_escape_json]. unfold special.
  destruct (is_code 60 a) eqn:E60.
  { left. split; [done|]. apply (is_code_eq _ _ Byte.x3c) in E60 as ->; [|done].
    by eapply (Hesc (byte_text "003c")); [done..|repeat constructor]. }
  destruct (is_code 62 a) eqn:E62.
  { left. split; [done|]. apply (is_code_eq _ _ Byte.x3e) in E62 as ->; [|done].
    by eapply (Hesc (byte_text "003e")); [done..|repeat constructor]. }
  destruct (is_code 38 a) eqn:E38.
  { left. split; [done|]. apply (is_code_eq _ _ Byte.x26) in E38 as ->; [|done].
    by eapply (Hesc (byte_text "0026")); [done..|repeat constructor]. }
  right. destruct l as [|b [|c l]]; [by right..|].
  destruct (is_code 226 a) eqn:Ea; [|by right].
  destruct (is_code 128 b && is_code 168 c) eqn:E1.
  { left. exists b, c, l. cbn [andb]. rewrite E1. apply andb_true_iff in E1 as [Eb Ec].
    apply (is_code_eq _ _ Byte.xe2) in Ea as ->; [|done]. apply (is_code_eq _ _ Byte.x80) in Eb as ->; [|done].
    apply (is_code_eq _ _ Byte.xa8) in Ec as ->; [|done]. split_and!; [done..|].
    by eapply (Hesc (byte_text "2028")); [done..|repeat constructor]. }
  destruct (is_code 128 b && is_code 169 c) eqn:E2.
  { left. exists b, c, l. cbn [andb]. rewrite E1, E2. apply andb_true_iff in E2 as [Eb Ec].
    apply (is_code_eq _ _ Byte.xe2) in Ea as ->; [|done]. apply (is_code_eq _ _ Byte.x80) in Eb as ->; [|done].
    apply (is_code_eq _ _ Byte.xa9) in Ec as ->; [|done]. split_and!; [done..|].
    by eapply (Hesc (byte_text "2029")); [done..|repeat constructor]. }
  right. cbn [andb]. by rewrite E1, E2.
Qed.

Lemma escaped_utf8 cs out rest : escaped cs out rest → utf8_valid (text_of out) = utf8_valid (text_of rest).
Proof.
  intros (h1 & h2 & h3 & h4 & -> & _ & Ha).
  apply (ascii_prepend (text_of [Byte.x5c; Byte.x75; h1; h2; h3; h4]) (text_of rest)).
  unfold text_of. apply Forall_fmap. eapply Forall_impl; [exact Ha|]. intros b Hb. cbn. by rewrite byte_val_of.
Qed.

Lemma go_escape_utf8 l : utf8_valid (text_of l) = true → utf8_valid (text_of (go_escape_json l)) = true.
Proof.
  remember (length l) as n eqn:En. revert l En. induction (lt_wf n) as [n _ IH]. intros [|a l] ->; [done|].
  intros (m & E & Hv)%utf8_valid_inv. destruct (utf8_char_shape _ _ _ E) as (k & -> & Hk & Hcs & _ & Hasc).
  cbn [drop] in Hv. change (map Ascii.ascii_of_byte l) with (text_of l) in *.
  destruct (go_escape_cases a l) as [[Ha He]|[(b & c & l' & Ha & -> & He)|[Ha ->]]].
  - rewrite (escaped_utf8 _ _ _ He).
    assert (k = 0%nat) as -> by (apply Hasc; rewrite byte_val_of; destruct a; cbn in *; done || lia).
    by apply (IH (length l)); [cbn; lia|..].
  - rewrite (escaped_utf8 _ _ _ He). apply utf8_char_226 in E as [= ->]; [|rewrite byte_val_of; by apply Z.eqb_eq in Ha].
    by apply (IH (length l')); [cbn; lia|..].
  - rewrite <-(take_drop k l), go_escape_conts by (by apply conts_of).
    change (utf8_valid (Ascii.ascii_of_byte a :: text_of (take k l ++ go_escape_json (drop k l))) = true).
    rewrite text_of_app. unfold text_of at 1. rewrite <-firstn_map.
    change (utf8_valid (take (S k) (Ascii.ascii_of_byte a :: text_of l) ++ text_of (go_escape_json (drop k l))) = true).
    rewrite (utf8_valid_prepend _ _ _ _ E). apply (IH (length (drop k l))); [rewrite length_drop; cbn; lia|done|].
    unfold text_of in *. by rewrite <-skipn_map.
Qed.

(** ** Escaping keeps the meaning *)

(** JSON text with those escapes replaced by their characters; other escapes are
    kept, with the byte after the backslash. *)
Fixpoint json_meaning (l : list byte) : list byte :=
  match l with
  | [] => []
  | a :: rest =>
      if is_code 92 a then
        match rest with
        | [] => [a]
        | u :: rest1 =>
            match rest1 with
            | h1 :: h2 :: h3 :: h4 :: rest5 =>
                match (if is_code 117 u then escape_of [h1; h2; h3; h4] else None) with
                | Some c => c ++ json_meaning rest5
                | None => a :: u :: json_meaning rest1
                end
            | _ => a :: u :: json_meaning rest1
            end
        end
      else a :: json_meaning rest
  end.

(** In JSON a backslash is followed by one of the bytes of an escape. *)
Definition escape_byte (b : byte) : bool := existsb (fun n => is_code n b) [34; 92; 47; 98; 102; 110; 114; 116; 117].
Fixpoint json_escapes (l : list byte) : bool :=
  match l with
  | [] => true
  | a :: rest =>
      if is_code 92 a then match rest with [] => false | b :: rest => escape_byte b && json_escapes rest end
      else json_escapes rest
  end.

Lemma escape_byte_copied b : escape_byte b = true → special b = false ∧ is_code 226 b = false.
Proof. by destruct b. Qed.

Lemma escape_of_digits h1 h2 h3 h4 c : escape_of [h1; h2; h3; h4] = Some c →
  Forall (fun h => special h = false ∧ is_code 226 h = false ∧ is_code 92 h = false) [h1; h2; h3; h4].
Proof.
  unfold escape_of. intros H.
  repeat match type of H with
  | (if bool_decide ?P then _ else _) = _ => destruct (bool_decide_reflect P) as [Hd|_];
      [vm_compute in Hd; injection Hd as -> -> -> ->; by repeat (apply Forall_cons; split)|]
  end. done.
Qed.

Lemma escape_of_kept d cs : escape_of d = Some cs → Forall (fun b => is_code 92 b = false) cs.
Proof. unfold escape_of. intros H. repeat case_match; simplify_eq; by repeat (apply Forall_cons; split). Qed.

(** A byte of the output that begins no escape was copied. *)
Lemma go_escape_copied l c r : go_escape_json l = c :: r → is_code 92 c = false →
  ∃ l', l = c :: l' ∧ r = go_escape_json l'.
Proof.
  destruct l as [|a l]; [done|]. intros E Hc.
  destruct (go_escape_cases a l) as [[_ (h1&h2&h3&h4&He&_)]|[(b & d & l' & _ & _ & (h1&h2&h3&h4&He&_))|[_ He]]];
    rewrite E in He; injection He as -> ->; try done. by exists l.
Qed.

Lemma escaped_meaning cs out rest : escaped cs out rest → json_meaning out = cs ++ json_meaning rest.
Proof. intros (h1 & h2 & h3 & h4 & -> & He & _). cbn. by rewrite He. Qed.

Lemma meaning_plain cs l : Forall (fun b => is_code 92 b = false) cs → json_meaning (cs ++ l) = cs ++ json_meaning l.
Proof. induction 1 as [|b cs Hb _ IH]; [done|]. cbn [app json_meaning]. by rewrite Hb, IH. Qed.

Lemma escapes_plain cs l : Forall (fun b => is_code 92 b = false) cs → json_escapes (cs ++ l) = json_escapes l.
Proof. induction 1 as [|b cs Hb _ IH]; [done|]. cbn [app json_escapes]. by rewrite Hb. Qed.

(** Whether the byte after a backslash and the text after it are one of the escapes. *)
Definition escape_here (u : byte) (l : list byte) : option (list byte * list byte) :=
  match l with
  | h1 :: h2 :: h3 :: h4 :: rest =>
      if is_code 117 u then (fun c => (c, rest)) <$> escape_of [h1; h2; h3; h4] else None
  | _ => None
  end.

Lemma meaning_backslash a u l : is_code 92 a = true →
  json_meaning (a :: u :: l) = match escape_here u l with
                               | Some (c, rest) => c ++ json_meaning rest
                               | None => a :: u :: json_meaning l
                               end.
Proof.
  intros Ha. destruct l as [|h1 [|h2 [|h3 [|h4 rest]]]]; cbn [json_meaning escape_here]; rewrite Ha; try done.
  destruct (is_code 117 u); [|done]. by destruct (escape_of _).
Qed.

Lemma escape_here_escaped u l : escape_here u (go_escape_json l)
  = (fun p => (p.1, go_escape_json p.2)) <$> escape_here u l.
Proof.
  destruct (escape_here u l) as [[c rest]|] eqn:E; cbn.
  - destruct l as [|h1 [|h2 [|h3 [|h4 l]]]]; try done. cbn [escape_here] in E.
    destruct (is_code 117 u) eqn:Eu; [|done]. destruct (escape_of [h1; h2; h3; h4]) eqn:Eh; [|done]. injection E as <- <-.
    pose proof (escape_of_digits _ _ _ _ _ Eh) as Hd. rewrite !Forall_cons in Hd. destruct Hd as ([]&[]&[]&[]&_).
    rewrite !go_escape_copy by naive_solver. cbn [escape_here]. by rewrite Eu, Eh.
  - destruct (escape_here u (go_escape_json l)) as [[c rest]|] eqn:E'; [|done]. exfalso.
    destruct (go_escape_json l) as [|h1 [|h2 [|h3 [|h4 r]]]] eqn:Eg; try done. cbn [escape_here] in E'.
    destruct (is_code 117 u) eqn:Eu; [|done]. destruct (escape_of [h1; h2; h3; h4]) eqn:Eh; [|done].
    pose proof (escape_of_digits _ _ _ _ _ Eh) as Hd. rewrite !Forall_cons in Hd.
    destruct Hd as ((_&_&N1)&(_&_&N2)&(_&_&N3)&(_&_&N4)&_).
    apply go_escape_copied in Eg as (l1 & -> & Eg); [|done]. symmetry in Eg.
    apply go_escape_copied in Eg as (l2 & -> & Eg); [|done]. symmetry in Eg.
    apply go_escape_copied in Eg as (l3 & -> & Eg); [|done]. symmetry in Eg.
    apply go_escape_copied in Eg as (l4 & -> & Eg); [|done]. cbn [escape_here] in E. by rewrite Eu, Eh in E.
Qed.

Lemma escape_here_rest u l c rest : escape_here u l = Some (c, rest) →
  (length rest < length l)%nat ∧ (json_escapes l = true → json_escapes rest = true).
Proof.
  destruct l as [|h1 [|h2 [|h3 [|h4 l]]]]; try done. cbn [escape_here]. intros E.
  destruct (is_code 117 u); [|done]. destruct (escape_of [h1; h2; h3; h4]) eqn:Eh; [|done]. injection E as _ <-.
  pose proof (escape_of_digits _ _ _ _ _ Eh) as Hd. split; [cbn; lia|].
  change (h1 :: h2 :: h3 :: h4 :: l) with ([h1; h2; h3; h4] ++ l). rewrite escapes_plain; [done|].
  eapply Forall_impl; [exact Hd|]. naive_solver.
Qed.

Lemma go_escape_meaning l : json_escapes l = true → json_meaning (go_escape_json l) = json_meaning l.
Proof.
  remember (length l) as n eqn:En. revert l En. induction (lt_wf n) as [n _ IH]. intros [|a l] ->; [done|]. intros Hl.
  destruct (go_escape_cases a l) as [[Ha He]|[(b & c & l' & Ha & -> & He)|[Ha Hcopy]]].
  - rewrite (escaped_meaning _ _ _ He). destruct He as (h1 & h2 & h3 & h4 & _ & He%escape_of_kept & _).
    change (a :: l) with ([a] ++ l) in Hl |- *. rewrite escapes_plain in Hl by done. rewrite meaning_plain by done.
    by rewrite (IH (length l)) by (done || cbn; lia).
  - rewrite (escaped_meaning _ _ _ He). destruct He as (h1 & h2 & h3 & h4 & _ & He%escape_of_kept & _).
    change (a :: b :: c :: l') with ([a; b; c] ++ l') in Hl |- *.
    rewrite escapes_plain in Hl by done. rewrite meaning_plain by done.
    by rewrite (IH (length l')) by (done || cbn; lia).
  - rewrite Hcopy. destruct (is_code 92 a) eqn:Eb.
    + cbn [json_escapes] in Hl. rewrite Eb in Hl. destruct l as [|u l]; [done|].
      apply andb_true_iff in Hl as [Hu Hl]. destruct (escape_byte_copied u Hu).
      rewrite go_escape_copy, !meaning_backslash, escape_here_escaped by done.
      destruct (escape_here u l) as [[c rest]|] eqn:E; cbn.
      * destruct (escape_here_rest _ _ _ _ E). by rewrite (IH (length rest)) by (naive_solver || cbn; lia).
      * by rewrite (IH (length l)) by (done || cbn; lia).
    + cbn [json_escapes json_meaning] in *. rewrite Eb in *. by rewrite (IH (length l)) by (done || cbn; lia).
Qed.

Lemma go_escape_clean l : Forall (fun b => special b = false) (go_escape_json l).
Proof.
  remember (length l) as n eqn:En. revert l En. induction (lt_wf n) as [n _ IH]. intros [|a l] ->; [constructor|].
  assert (∀ cs out rest, escaped cs out rest → Forall (fun b => special b = false) rest →
            Forall (fun b => special b = false) out) as Hesc.
  { intros cs out rest (h1 & h2 & h3 & h4 & -> & He & _) Hr.
    pose proof (escape_of_digits _ _ _ _ _ He) as Hd. rewrite !Forall_cons in *. naive_solver. }
  destruct (go_escape_cases a l) as [[Ha He]|[(b & c & l' & Ha & -> & He)|[Ha Hcopy]]].
  - eapply Hesc; [exact He|]. apply (IH (length l)); cbn; lia.
  - eapply Hesc; [exact He|]. apply (IH (length l')); cbn; lia.
  - rewrite Hcopy. constructor; [done|]. apply (IH (length l)); cbn; lia.
Qed.

(** escaping JSON for the store keeps text valid UTF-8, so that the conversion back
    to a string cannot fail; leaves no character in it that HTML or JavaScript would
    read; and, for text whose backslashes begin JSON escapes, keeps what it means. *)
Theorem go_escape_json_exact l :
  (utf8_valid (text_of l) = true → utf8_valid (text_of (go_escape_json l)) = true) ∧
  Forall (fun b => special b = false) (go_escape_json l) ∧
  (json_escapes l = true → json_meaning (go_escape_json l) = json_meaning l).
Proof. split_and!; [apply go_escape_utf8|apply go_escape_clean|apply go_escape_meaning]. Qed.

(** ** The normal form of a container *)

Section normal_form.
Context {V : Type}.
Implicit Types m : ContainerMountPoint V.
Implicit Types c : ServiceContainer V.

Definition mount_key m : string * string := (mp_destination V m, mp_source V m).

Lemma str_cmp_le a b : str_cmp a b ≠ Gt ↔ String.le a b.
Proof. unfold str_cmp, String.le, String.leb. by destruct (String.compare a b); split. Qed.

Lemma str_cmp_eq a b : str_cmp a b = Eq ↔ a = b.
Proof.
  split; [apply String.compare_eq_iff|]. intros ->. unfold str_cmp.
  pose proof (String.compare_antisym b b) as H. by destruct (String.compare b b).
Qed.

(** The order of mounts is lexicographic. *)
Lemma mount_le_spec m n : mount_le m n ↔
  mp_destination V m = mp_destination V n ∧ String.le (mp_source V m) (mp_source V n) ∨
  mp_destination V m ≠ mp_destination V n ∧ String.le (mp_destination V m) (mp_destination V n).
Proof.
  unfold mount_le, mount_cmp. rewrite <-!str_cmp_le, <-(str_cmp_eq (mp_destination V m)).
  unfold then_cmp. destruct (str_cmp (mp_destination V m) (mp_destination V n)); naive_solver.
Qed.

#[local] Instance mount_le_trans : Transitive (@mount_le V).
Proof.
  intros m n o. rewrite !mount_le_spec. intros H1 H2.
  destruct H1 as [[E1 L1]|[E1 L1]], H2 as [[E2 L2]|[E2 L2]].
  - left. split; [congruence|]. by etrans.
  - right. by rewrite E1.
  - right. by rewrite <-E2.
  - right. split; [|by etrans]. intros E. rewrite <-E in L2. apply E1. by apply (anti_symm String.le).
Qed.

#[local] Instance mount_le_total : Total (@mount_le V).
Proof.
  intros m n. rewrite !mount_le_spec.
  destruct (decide (mp_destination V m = mp_destination V n)).
  - destruct (total String.le (mp_source V m) (mp_source V n)); naive_solver.
  - destruct (total String.le (mp_destination V m) (mp_destination V n)); naive_solver.
Qed.

Lemma mount_le_antisym m n : mount_le m n → mount_le n m → mount_key m = mount_key n.
Proof.
  rewrite !mount_le_spec. unfold mount_key. intros [[-> L]|[E L]] [[E' L']|[E' L']]; try congruence.
  - f_equal. by apply (anti_symm String.le).
  - destruct E. by apply (anti_symm String.le).
Qed.

(** Mounts with different keys have one sorted order. *)
Lemma sorted_mounts_unique (l l' : list (ContainerMountPoint V)) : NoDup (mount_key <$> l) → l ≡ₚ l' →
  merge_sort mount_le l = merge_sort mount_le l'.
Proof.
  intros Hnd Hp. apply (StronglySorted_unique_strong mount_le).
  - intros m n Hm Hn H1 H2. rewrite merge_sort_Permutation in Hm. rewrite merge_sort_Permutation, <-Hp in Hn.
    pose proof (mount_le_antisym _ _ H1 H2) as Hk.
    apply list_elem_of_lookup in Hm as [i Hi], Hn as [j Hj].
    assert (i = j) as ->; [|congruence].
    eapply (NoDup_lookup _ i j (mount_key m) Hnd); rewrite list_lookup_fmap; [by rewrite Hi|by rewrite Hj, Hk].
  - apply StronglySorted_merge_sort; apply _.
  - apply StronglySorted_merge_sort; apply _.
  - by rewrite !merge_sort_Permutation.
Qed.

(** A container without its environment variables and mounts. *)
Definition without_env_and_mounts (c : ServiceContainer V) : ServiceContainer V :=
  let k := sc_container c in
  mk_ServiceContainer
    (mk_Container (c_id k) (c_created k) (c_path k) (c_args k) (c_image k) (c_name k)
       (clear_config_env <$> c_config k) (c_state k) (c_host_config k) slice_default
       (c_network_settings k) (c_extra k) (c_created_cache k))
    (clear_spec_env (sc_service_spec c)).

(** Containers that differ at most in environment variables and the order of their
    mounts, no two of which have destination and source in common. *)
Record same_record c d : Prop := {
  same_rest : without_env_and_mounts c = without_env_and_mounts d;
  same_mounts : slice_values (c_mounts (sc_container c)) ≡ₚ slice_values (c_mounts (sc_container d));
  same_empty : slice_is_empty (c_mounts (sc_container c)) = true → c_mounts (sc_container c) = c_mounts (sc_container d);
  same_keys : NoDup (mount_key <$> slice_values (c_mounts (sc_container c)))
}.

Lemma normalise_same c d : same_record c d → normalise_container_for_store c = normalise_container_for_store d.
Proof.
  intros [Hr Hm He Hk]. unfold normalise_container_for_store.
  assert (sort_mounts (c_mounts (sc_container c)) = sort_mounts (c_mounts (sc_container d))) as ->.
  { unfold sort_mounts. destruct (slice_is_empty (c_mounts (sc_container c))) eqn:Ec.
    - by rewrite <-He, Ec.
    - assert (slice_is_empty (c_mounts (sc_container d)) = false) as ->.
      { unfold slice_is_empty in *. destruct (slice_values (c_mounts (sc_container d))); [|done].
        apply Permutation_nil_r in Hm. by rewrite Hm in Ec. }
      unfold slice_deref_mut. by rewrite (sorted_mounts_unique _ _ Hk Hm). }
  unfold without_env_and_mounts in Hr. cbv zeta in *. injection Hr. intros. congruence.
Qed.
End normal_form.

(** ** Storing a container *)

(** A row of the containers table; [now] of the database is its last column. *)
Record ContainerRow := mk_ContainerRow {
  row_container : string; row_machine_id : string; row_sync_status : string; row_updated_at : string
}.

(** The upsert: an existing row is written only if its container or machine differs. *)
Definition upsert (id json machine_id status now : string) (t : gmap string ContainerRow) : gmap string ContainerRow :=
  match t !! id with
  | Some row =>
      if negb (bool_decide (row_container row = json)) || negb (bool_decide (row_machine_id row = machine_id))
      then <[id := mk_ContainerRow json machine_id status now]> t else t
  | None => <[id := mk_ContainerRow json machine_id status now]> t
  end.

(** A backend with the containers table: a statement that succeeds was executed. *)
Class ContainerTable (Db : Type) `{Backend Db} := {
  container_rows : Db → gmap string ContainerRow;
  upsert_exec id json machine_id status db n db' :
    backend_exec UPSERT_QUERY (Some [SqlString id; SqlString json; SqlString machine_id; SqlString status]) db
    = (inr n, db') →
    ∃ now, container_rows db' = upsert id json machine_id status now (container_rows db)
}.

Section storing.
Context {Db : Type} `{ContainerTable Db, ContainerJson}.

Lemma container_json_total c : match container_json c with Panic _ => False | _ => True end.
Proof.
  unfold container_json. destruct (container_to_vec c) as [e|l] eqn:E; cbn; [done|].
  unfold from_utf8_expect. apply container_to_vec_utf8, go_escape_utf8 in E. unfold text_of in E. by rewrite E.
Qed.

Lemma create_or_update_total c machine_id db msg : (create_or_update_container c machine_id db).1 ≠ Panic msg.
Proof.
  unfold create_or_update_container. cbv zeta.
  pose proof (container_json_total (normalise_container_for_store c)) as Hj.
  destruct (container_json _) as [json|e|m]; [|done|done].
  unfold store_exec. destruct (backend_exec _ _ db) as [[e|n] db']; done.
Qed.

(** The statement of a successful call. *)
Lemma create_or_update_ok c machine_id db db' : create_or_update_container c machine_id db = (Ok (), db') →
  ∃ json now, container_json (normalise_container_for_store c) = Ok json ∧
    container_rows db' = upsert (c_id (sc_container c)) json machine_id SYNC_STATUS_SYNCED now (container_rows db).
Proof.
  unfold create_or_update_container. cbv zeta. destruct (container_json _) as [json|e|m] eqn:Ej; [|done..].
  unfold store_exec. destruct (backend_exec _ _ db) as [[e|n] db1] eqn:Eb; [done|]. intros [= <-].
  destruct (upsert_exec _ _ _ _ _ _ _ Eb) as [now Hnow]. by exists json, now.
Qed.

Lemma upsert_twice id json machine_id status now now' t :
  upsert id json machine_id status now' (upsert id json machine_id status now t)
  = upsert id json machine_id status now t.
Proof.
  assert (∀ row, row_container row = json → row_machine_id row = machine_id →
    negb (bool_decide (row_container row = json)) || negb (bool_decide (row_machine_id row = machine_id)) = false) as Hrow.
  { intros row -> ->. by rewrite !bool_decide_eq_true_2. }
  unfold upsert at 2 3. destruct (t !! id) as [row|] eqn:E.
  - destruct (negb _ || negb _) eqn:Ed; unfold upsert; [by rewrite lookup_insert, decide_True, Hrow by done|].
    by rewrite E, Ed.
  - unfold upsert. by rewrite lookup_insert, decide_True, Hrow by done.
Qed.

(** Storing a container never panics, and storing it again changes nothing unless
    the container itself changed: when the second record differs from the first at
    most in environment variables and in the order in which its mounts are listed,
    the containers table is left exactly as it was, last update included. *)
Theorem container_upsert_stable c d machine_id db db1 db2 :
  same_record c d →
  create_or_update_container c machine_id db = (Ok (), db1) →
  create_or_update_container d machine_id db1 = (Ok (), db2) →
  container_rows db2 = container_rows db1 ∧
  ∀ e machine db msg, (create_or_update_container e machine db).1 ≠ Panic msg.
Proof.
  intros Hs (json & now & Hj & Hr1)%create_or_update_ok (json' & now' & Hj' & Hr2)%create_or_update_ok.
  split; [|intros; apply create_or_update_total].
  rewrite <-(normalise_same c d Hs), Hj in Hj'. injection Hj' as <-.
  assert (c_id (sc_container d) = c_id (sc_container c)) as Hid.
  { pose proof (same_rest _ _ Hs) as Hr. unfold without_env_and_mounts in Hr. cbv zeta in Hr. congruence. }
  by rewrite Hr2, Hr1, Hid, upsert_twice.
Qed.
End storing.

(** ** An instance *)

Definition unit_json : JsonLib := {| JsonValue := unit |}.
Definition unit_decode : @JsonDecode unit_json :=
  @Build_JsonDecode unit_json (fun _ => "") (fun _ => inl "not read") (fun _ => None) (fun _ _ => None) (fun e => e)
    (fun _ => inl "not read") (fun _ => inl "not read").

(** The id and the destinations, in ASCII. *)
Definition plain_byte (b : byte) : byte := if u8 b <? 128 then b else Byte.x3f.
Definition plain_vec (c : ServiceContainer unit) : list byte :=
  map plain_byte (byte_text (str_join "," (c_id (sc_container c)
    :: map (mp_destination unit) (slice_values (c_mounts (sc_container c)))))).

Definition plain_json : @ContainerJson unit_json unit_decode.
Proof.
  refine (@Build_ContainerJson unit_json unit_decode (fun c => inr (plain_vec c)) _).
  intros c l [= <-]. unfold plain_vec. generalize (byte_text (str_join "," (c_id (sc_container c)
    :: map (mp_destination unit) (slice_values (c_mounts (sc_container c)))))). intros l.
  rewrite <-(app_nil_r (map Ascii.ascii_of_byte _)). rewrite ascii_prepend; [done|].
  rewrite map_map. apply Forall_fmap, Forall_forall. intros b _. cbn. rewrite byte_val_of. unfold plain_byte.
  destruct (Z.ltb_spec (u8 b) 128); [done|]. by vm_compute.
Defined.

(** A table in memory with a counter as its clock. *)
Definition table_backend : Backend (gmap string ContainerRow) := {|
  backend_exec query params t :=
    match params with
    | Some [SqlString id; SqlString json; SqlString machine_id; SqlString status] =>
        (inr 1, upsert id json machine_id status "1970-01-01 00:00:00" t)
    | _ => (inl "unknown statement", t)
    end;
  backend_query query params columns t := (inl "unknown query", t)
|}.
Definition table_rows : @ContainerTable _ table_backend.
Proof.
  refine {| container_rows t := t |}. intros id json machine_id status t n t' [= _ <-]. by eexists.
Defined.

Definition demo_mount (destination : string) : ContainerMountPoint unit :=
  mk_ContainerMountPoint unit "bind" "" "/src" destination "" "" true "" ∅.
Definition demo_record (mounts : list (ContainerMountPoint unit)) (env : gmap string string) : ServiceContainer unit :=
  mk_ServiceContainer
    (mk_Container "c1" "" "" slice_default "" "" None None None (mk_slice false mounts) None ∅ None)
    (mk_ServiceSpec None slice_default
       (mk_ContainerSpec slice_default slice_default slice_default slice_default (map_from_btree env)
          None "" None None "" false false false "" ContainerResources_default None map_default ""
          slice_default slice_default slice_default)
       "" "" (mk_Placement slice_default) slice_default None 0 (mk_UpdateConfig "" None) slice_default).
Definition demo_stored : gmap string ContainerRow := {[ "c1" := mk_ContainerRow "c1,/a,/b" "m1" "synced" "1970-01-01 00:00:00" ]}.

Lemma container_upsert_stable_witness :
  @container_rows _ table_backend table_rows demo_stored = demo_stored.
Proof.
  apply (@container_upsert_stable _ table_backend table_rows unit_json unit_decode plain_json
           (demo_record [demo_mount "/a"; demo_mount "/b"] ∅)
           (demo_record [demo_mount "/b"; demo_mount "/a"] {[ "TOKEN" := "x" ]}) "m1" ∅ demo_stored demo_stored).
  - split; [reflexivity|apply perm_swap|done|].
    repeat constructor; cbn; rewrite ?elem_of_cons, ?elem_of_nil; naive_solver.
  - vm_compute. reflexivity.
  - vm_compute. reflexivity.
Defined.
