(* ===== verification/StoreChanges.v ===== *)
(** * The cluster store: subscriptions and change notifications

    A subscription answers with a snapshot and a [ChangeNotifications]: a worker
    thread takes events from the source and sends them through a channel of one
    place, [recv] takes them out, and a one-shot channel cancels the worker.  The
    worker, the handle and their interleaving are step functions on a shared state;
    what the source will yield and whether the worker's runtime can be built are
    data. *)

From S2P Require Import Prelude RustStr NetAddr Wire Volume Container Secret Machine Cluster Store StoreContainers.

(** ** The source *)

(** An event is a change or an error.  After its events a source stays pending, ends
    the stream, or panics. *)
Definition Event : Type := string + ().
Inductive SourceEnd : Set := Pending | Ended | Panics (msg : string).
Record ChangeSource := mk_ChangeSource { cs_events : list Event; cs_end : SourceEnd }.

Definition is_err (e : Event) : bool := match e with inl _ => true | inr _ => false end.

(** ** The worker *)

(** Where [run_change_worker] is: before the runtime is built, blocked sending the
    error of building it, in the first [select!], in the second with an event, or
    returned ([Some]: by a panic). *)
Inductive Worker : Type :=
| WStart (build : string + ()) | WFailed (e : string) | WNext | WSend (event : Event) | WDone (panic : option string).

(** The worker, its source, the channel's queue, the fired cancellation and whether
    the receiver exists. *)
Record Shared := mk_Shared {
  sh_source : ChangeSource;
  sh_worker : Worker;
  sh_queue : list Event;
  sh_cancelled : bool;
  sh_receiver : bool
}.

Definition CAPACITY : nat := 1.
Definition set_worker (w : Worker) (s : Shared) : Shared :=
  mk_Shared (sh_source s) w (sh_queue s) (sh_cancelled s) (sh_receiver s).
Definition send (e : Event) (w : Worker) (s : Shared) : Shared :=
  mk_Shared (sh_source s) w (sh_queue s ++ [e]) (sh_cancelled s) (sh_receiver s).
Definition has_room (s : Shared) : bool := (length (sh_queue s) <? CAPACITY)%nat.

(** One step of [run_change_worker]; [None]: it waits, or has returned. *)
Definition worker_step (s : Shared) : option Shared :=
  match sh_worker s with
  | WStart (inr _) => Some (set_worker WNext s)
  | WStart (inl e) => Some (set_worker (WFailed e) s)
  | WFailed e =>
      if negb (sh_receiver s) then Some (set_worker (WDone None) s)
      else if has_room s then Some (send (inl e) (WDone None) s) else None
  | WNext =>
      if sh_cancelled s then Some (set_worker (WDone None) s)
      else match cs_events (sh_source s), cs_end (sh_source s) with
           | e :: events, fin =>
               Some (mk_Shared (mk_ChangeSource events fin) (WSend e) (sh_queue s) (sh_cancelled s) (sh_receiver s))
           | [], Pending => None
           | [], Ended => Some (set_worker (WDone None) s)
           | [], Panics msg => Some (set_worker (WDone (Some msg)) s)
           end
  | WSend event =>
      if sh_cancelled s then Some (set_worker (WDone None) s)
      else if negb (sh_receiver s) then Some (set_worker (WDone None) s)
      else if has_room s then Some (send event (if is_err event then WDone None else WNext) s)
      else None
  | WDone _ => None
  end.

(** ** The handle *)

(** [ChangeNotifications]; the flags say whether the two options are [Some]. *)
Record ChangeNotifications := mk_ChangeNotifications {
  cn_cancellation : bool;
  cn_worker : bool;
  cn_error : option string;
  cn_closed : bool
}.

(** What the owner does: nothing, [recv] waiting for the channel, [recv] in
    [finish_worker] waiting for the worker, or the handle is gone. *)
Inductive Phase : Set := Idle | Receiving | Finishing | Dropped.

Record System := mk_System { sys_shared : Shared; sys_handle : ChangeNotifications; sys_phase : Phase }.

(** [ChangeNotifications::new]. *)
Definition notifications_new (build : string + ()) (source : ChangeSource) : System :=
  mk_System (mk_Shared source (WStart build) [] false true) (mk_ChangeNotifications true true None false) Idle.

(** Dropping or using the sender of the cancellation. *)
Definition cancel (cn : ChangeNotifications) (s : Shared) : Shared :=
  mk_Shared (sh_source s) (sh_worker s) (sh_queue s) (sh_cancelled s || cn_cancellation cn) (sh_receiver s).

(** The first steps of [finish_worker], up to its await; it is skipped when the
    handle of the worker was taken before.  The second component is what [recv]
    returns, when it does. *)
Definition finish_worker (error : option string) (s : Shared) (cn : ChangeNotifications) :
    System * option (option ()) :=
  (mk_System (cancel cn s) (mk_ChangeNotifications false false error true)
     (if cn_worker cn then Finishing else Idle),
   if cn_worker cn then None else Some None).

(** [recv], from its call. *)
Definition recv_call (sys : System) : option (System * option (option ())) :=
  match sys_phase sys with
  | Idle => if cn_closed (sys_handle sys) then Some (sys, Some None)
            else Some (mk_System (sys_shared sys) (sys_handle sys) Receiving, None)
  | _ => None
  end.

Definition pop (s : Shared) (queue : list Event) : Shared :=
  mk_Shared (sh_source s) (sh_worker s) queue (sh_cancelled s) (sh_receiver s).

(** [recv], from the channel; the sender is gone when the worker has returned. *)
Definition recv_poll (sys : System) : option (System * option (option ())) :=
  let '(mk_System s cn phase) := sys in
  match phase, sh_queue s, sh_worker s with
  | Receiving, inr _ :: queue, _ => Some (mk_System (pop s queue) cn Idle, Some (Some ()))
  | Receiving, inl e :: queue, _ => Some (finish_worker (Some e) (pop s queue) cn)
  | Receiving, [], WDone _ => Some (finish_worker (cn_error cn) s cn)
  | _, _, _ => None
  end.

(** [recv], from [worker.await]: the error of a panicked worker is kept if there is
    none. *)
Definition finish_poll (sys : System) : option (System * option (option ())) :=
  let '(mk_System s cn phase) := sys in
  match phase, sh_worker s with
  | Finishing, WDone panic =>
      let error := match cn_error cn with Some e => Some e | None => panic end in
      Some (mk_System s (mk_ChangeNotifications (cn_cancellation cn) (cn_worker cn) error (cn_closed cn)) Idle,
            Some None)
  | _, _ => None
  end.

(** [ChangeNotifications::error]. *)
Definition notifications_error (sys : System) : option string := cn_error (sys_handle sys).

(** [Drop]: the cancellation is sent, the receiver goes away. *)
Definition notifications_drop (sys : System) : option System :=
  let '(mk_System s cn phase) := sys in
  match phase with
  | Idle => Some (mk_System (mk_Shared (sh_source s) (sh_worker s) [] (sh_cancelled s || cn_cancellation cn) false)
                    (mk_ChangeNotifications false (cn_worker cn) (cn_error cn) (cn_closed cn)) Dropped)
  | _ => None
  end.

(** ** Interleaving *)

(** A step of the worker or of the owner, with what [recv] returns.  The owner may
    also drop the future of [recv] while it waits. *)
Inductive step : System → option (option ()) → System → Prop :=
| step_worker sys s : worker_step (sys_shared sys) = Some s →
    step sys None (mk_System s (sys_handle sys) (sys_phase sys))
| step_call sys sys' r : recv_call sys = Some (sys', r) → step sys r sys'
| step_recv sys sys' r : recv_poll sys = Some (sys', r) → step sys r sys'
| step_finish sys sys' r : finish_poll sys = Some (sys', r) → step sys r sys'
| step_abandon sys : sys_phase sys = Receiving ∨ sys_phase sys = Finishing →
    step sys None (mk_System (sys_shared sys) (sys_handle sys) Idle)
| step_drop sys sys' : notifications_drop sys = Some sys' → step sys None sys'.

(** A run from [sys], with the results of [recv] in order. *)
Inductive run (sys : System) : list (option ()) → System → Prop :=
| run_refl : run sys [] sys
| run_step trace sys1 r sys2 : run sys trace sys1 → step sys1 r sys2 →
    run sys (trace ++ match r with Some v => [v] | None => [] end) sys2.

(** ** Subscriptions *)

(** [Backend::subscribe]. *)
Class SubscribeBackend (Db : Type) := {
  backend_subscribe : string → option (list SqlValue) → list ColumnKind → Db →
    (string + list DbRow * ChangeSource) * Db
}.

Section subscriptions.
Context {Db : Type} `{SubscribeBackend Db, JsonText, Base64, ContainerJson, UnicodeLib}.

(** [Store::subscribe_machines], [Store::subscribe_containers]; [build] is whether
    the worker can build its runtime. *)
Definition subscribe_machines (build : string + ()) (db : Db) :
    result StoreError (list MachineInfo * System) * Db :=
  let '(r, db) := backend_subscribe LIST_MACHINES_QUERY None [CK_Text; CK_Text] db in
  (match r with
   | inl source => Err (Operation "subscribe to machines" source)
   | inr (rows, source) =>
       machines ← decode_machine_rows rows false;
       Ok (machines, notifications_new build source)
   end, db).
Definition subscribe_containers (build : string + ()) (db : Db) :
    result StoreError (list ContainerRecord * System) * Db :=
  let '(query, params) := list_containers_query ListOptions_default in
  let '(r, db) := backend_subscribe query (Some params) container_columns db in
  (match r with
   | inl source => Err (Operation "subscribe to containers" source)
   | inr (rows, source) =>
       containers ← decode_container_rows rows;
       Ok (containers, notifications_new build source)
   end, db).
End subscriptions.
