(* ===== verification/StoreChangesProps.v ===== *)
(** * Change notifications: nothing lost, nothing invented, no thread left behind

    The invariant of the runs of a subscription's worker and handle, and the theorems
    on what [recv] returns and on the end of the worker. *)

From S2P Require Import Prelude RustStr NetAddr StoreChanges.

(** ** What a subscription promises *)

(** What the worker of a subscription has to send, and how its source ends: the error
    of building the runtime is one more event. *)
Definition stream (build : string + ()) (source : ChangeSource) : list Event * SourceEnd :=
  match build with
  | inl e => ([inl e], Ended)
  | inr _ => (cs_events source, cs_end source)
  end.

(** The events up to the first error, which is the last one sent. *)
Fixpoint cut (l : list Event) : list Event :=
  match l with [] => [] | e :: l => if is_err e then [e] else e :: cut l end.

Lemma cut_ok_prefix n l : replicate n (inr ()) `prefix_of` cut l → replicate n (inr ()) `prefix_of` l.
Proof.
  revert l. induction n as [|n IH]; intros [|[e|[]] l]; simpl.
  1-3: intros; apply prefix_nil.
  - done.
  - by intros ?%prefix_cons_inv_1.
  - intros H%prefix_cons_inv_2. by apply prefix_cons, IH.
Qed.

Lemma cut_lookup_err n l e : replicate n (inr ()) ++ [inl e] = cut l → l !! n = Some (inl e).
Proof.
  revert l. induction n as [|n IH]; intros [|[e'|[]] l]; simpl; try done.
  - by intros [= ->].
  - intros [= H]. by apply IH.
Qed.

Lemma cut_complete n l : replicate n (inr ()) = cut l → l = replicate n (inr ()).
Proof.
  revert l. induction n as [|n IH]; intros [|[e'|[]] l]; simpl; try done.
  intros [= H]. f_equal. by apply IH.
Qed.

(** ** The invariant *)

(** What is in the channel or still to be sent. *)
Definition remaining (s : Shared) : list Event :=
  sh_queue s ++
  match sh_worker s with
  | WStart (inl e) | WFailed e => [inl e]
  | WStart (inr _) | WNext => cut (cs_events (sh_source s))
  | WSend e => cut (e :: cs_events (sh_source s))
  | WDone _ => []
  end.

(** How the worker ended, if it was not told to. *)
Definition ended (target : list Event) (fin : SourceEnd) (panic : option string) : Prop :=
  (∃ l e, target = l ++ [inl e]) ∧ panic = None ∨
  fin = Ended ∧ panic = None ∨ ∃ m, fin = Panics m ∧ panic = Some m.

Definition source_end (fin : SourceEnd) (s : Shared) : Prop :=
  match sh_worker s with
  | WStart (inr _) | WNext | WSend _ => cs_end (sh_source s) = fin
  | WStart (inl _) | WFailed _ => True
  | WDone _ => True
  end.

(** While the worker is not cancelled, the subscription is open and every event is
    received, queued or still to come. *)
Record live (target : list Event) (fin : SourceEnd) (n : nat) (sys : System) : Prop := {
  live_handle : sys_handle sys = mk_ChangeNotifications true true None false;
  live_receiver : sh_receiver (sys_shared sys) = true;
  live_phase : sys_phase sys = Idle ∨ sys_phase sys = Receiving;
  live_events : target = replicate n (inr ()) ++ remaining (sys_shared sys);
  live_end : source_end fin (sys_shared sys);
  live_done panic : sh_worker (sys_shared sys) = WDone panic → ended target fin panic
}.

(** Why a closed subscription was closed. *)
Definition closed_by (target : list Event) (fin : SourceEnd) (n : nat) (sys : System) : Prop :=
  let error := cn_error (sys_handle sys) in
  (∃ e, error = Some e ∧ target = replicate n (inr ()) ++ [inl e]) ∨
  target = replicate n (inr ()) ∧
    (fin = Ended ∧ error = None ∧ sh_worker (sys_shared sys) = WDone None ∨
     ∃ m, fin = Panics m ∧ (error = None ∨ error = Some m) ∧ sh_worker (sys_shared sys) = WDone (Some m)).

Record stopped (target : list Event) (fin : SourceEnd) (n : nat) (sys : System) : Prop := {
  stopped_cancellation : cn_cancellation (sys_handle sys) = false;
  stopped_phase : sys_phase sys = Dropped ∨ cn_closed (sys_handle sys) = true ∧ sys_phase sys ≠ Receiving;
  stopped_prefix : replicate n (inr ()) `prefix_of` target;
  stopped_closed : cn_closed (sys_handle sys) = true → closed_by target fin n sys;
  stopped_open : cn_closed (sys_handle sys) = false → cn_error (sys_handle sys) = None
}.

(** The state of a run in which [recv] returned [n] changes and then [k] times the
    end. *)
Record progress (target : list Event) (fin : SourceEnd) (n k : nat) (sys : System) : Prop := {
  progress_queue : (length (sh_queue (sys_shared sys)) <= CAPACITY)%nat;
  progress_failed e : sh_worker (sys_shared sys) = WFailed e ∨ sh_worker (sys_shared sys) = WStart (inl e) →
    sh_queue (sys_shared sys) = [];
  progress_live : sh_cancelled (sys_shared sys) = false → live target fin n sys ∧ k = 0%nat;
  progress_stopped : sh_cancelled (sys_shared sys) = true → stopped target fin n sys;
  progress_count : (0 < k)%nat → cn_closed (sys_handle sys) = true
}.

Lemma progress_new build source :
  progress (cut (stream build source).1) (stream build source).2 0 0 (notifications_new build source).
Proof.
  split; simpl; [lia|done| |done|lia]. intros _. split; [|done].
  split; simpl; try done; [by left| |by destruct build]. by destruct build.
Qed.

(** ** Every step keeps it *)

Lemma worker_step_live target fin n sys s : live target fin n sys → sh_cancelled (sys_shared sys) = false →
  worker_step (sys_shared sys) = Some s → live target fin n (mk_System s (sys_handle sys) (sys_phase sys)).
Proof.
  destruct sys as [[[evs en] w q c r] cn ph]. intros [Hh Hr Hp He Hs Hd] Hc. simpl in *. subst c r.
  unfold worker_step, remaining, source_end, has_room in *; simpl in *.
  destruct w as [[e|[]]|e| |e|p]; simpl in *.
  - intros [= <-]. by split.
  - intros [= <-]. by split.
  - destruct (length q <? CAPACITY)%nat; [|done]. intros [= <-].
    split; simpl; try done; unfold remaining; simpl; [by rewrite app_nil_r|].
    intros ? [= <-]. left. split; [|done]. exists (replicate n (inr ()) ++ q), e. by rewrite <-app_assoc.
  - destruct evs as [|e evs].
    + destruct en as [| |msg]; [done| |]; intros [= <-]; split; simpl; try done; intros ? [= <-]; subst fin.
      * right. by left.
      * right. right. by exists msg.
    + intros [= <-]. by split.
  - destruct (length q <? CAPACITY)%nat; [|done]. intros [= <-].
    destruct e as [e|[]]; split; simpl; try done; unfold remaining; simpl.
    + by rewrite app_nil_r.
    + intros ? [= <-]. left. split; [|done]. exists (replicate n (inr ()) ++ q), e. by rewrite <-app_assoc.
    + by rewrite <-app_assoc.
  - done.
Qed.

Lemma worker_step_queue s s' : worker_step s = Some s' → (length (sh_queue s) <= CAPACITY)%nat →
  (length (sh_queue s') <= CAPACITY)%nat.
Proof.
  destruct s as [[evs en] w q c r]. unfold worker_step, has_room, set_worker, send; simpl.
  intros Hw Hq. repeat case_match; simplify_eq/=; try done;
    rewrite length_app; simpl;
    match goal with H : (_ <? _)%nat = true |- _ => apply Nat.ltb_lt in H end; lia.
Qed.

Lemma worker_step_kept s s' : worker_step s = Some s' →
  sh_cancelled s' = sh_cancelled s ∧ sh_receiver s' = sh_receiver s ∧
  (∀ e, sh_worker s' = WFailed e ∨ sh_worker s' = WStart (inl e) →
     sh_worker s = WStart (inl e) ∧ sh_queue s' = sh_queue s) ∧
  (∀ p, sh_worker s ≠ WDone p).
Proof.
  destruct s as [[evs en] w q c r]. unfold worker_step, has_room, set_worker, send; simpl.
  intros Hw. repeat case_match; simplify_eq/=; repeat split; naive_solver.
Qed.

Lemma progress_worker target fin n k sys s : progress target fin n k sys →
  worker_step (sys_shared sys) = Some s → progress target fin n k (mk_System s (sys_handle sys) (sys_phase sys)).
Proof.
  intros [Hq Hf Hl Hs Hk] Hw. pose proof (worker_step_kept _ _ Hw) as (Hc & Hr & Hf' & Hnd).
  split; simpl; [by eapply worker_step_queue| | | |done].
  - intros e [H1 ->]%Hf'. apply (Hf e). by right.
  - rewrite Hc. intros Hn. destruct (Hl Hn) as [H1 H2]. split; [|done]. by apply worker_step_live.
  - rewrite Hc. intros Hn. destruct (Hs Hn) as [H1 H2 H3 H4 H5]. split; simpl; try done.
    intros H6. destruct (H4 H6) as [?|(? & [(?&?&?)|(?&?&?&?)])]; [by left|..]; exfalso; by eapply Hnd.
Qed.

Lemma cut_err_last l1 e l2 l : l1 ++ inl e :: l2 = cut l → l2 = [].
Proof.
  revert l. induction l1 as [|x l1 IH]; intros [|[e'|[]] l]; simpl; try done.
  - by intros [= -> ->].
  - intros [= _ H]. by destruct l1.
  - intros [= _ H]. by eapply IH.
Qed.

(** The results of [recv] counted: changes, and ends. *)
Definition changes (r : option (option ())) : nat := match r with Some (Some _) => 1 | _ => 0 end.
Definition ends (r : option (option ())) : nat := match r with Some None => 1 | _ => 0 end.

Lemma progress_receiving target fin n k sys : progress target fin n k sys → sys_phase sys = Receiving →
  sh_cancelled (sys_shared sys) = false ∧ live target fin n sys ∧ k = 0%nat.
Proof.
  intros [_ _ Hl Hs _] Hp. destruct (sh_cancelled (sys_shared sys)) eqn:E; [|naive_solver].
  destruct (Hs eq_refl) as [_ [?|[_ ?]] _ _ _]; congruence.
Qed.

(** Closing an open subscription for a reason. *)
Lemma progress_close target fin n s cn error :
  cn = mk_ChangeNotifications true true None false → (length (sh_queue s) <= CAPACITY)%nat →
  (∀ e, sh_worker s = WFailed e ∨ sh_worker s = WStart (inl e) → sh_queue s = []) →
  replicate n (inr ()) `prefix_of` target →
  closed_by target fin n (finish_worker error s cn).1 →
  progress target fin n 0 (finish_worker error s cn).1.
Proof.
  intros -> Hq Hf Hpre Hcl. split; simpl; try done; [by rewrite orb_true_r|]. intros _.
  split; simpl; try done. by right.
Qed.

Lemma progress_recv target fin l n k sys sys' r : progress target fin n k sys → target = cut l →
  recv_poll sys = Some (sys', r) → progress target fin (n + changes r) (k + ends r) sys'.
Proof.
  intros Hpr Hcut Hr. destruct sys as [s cn ph]. unfold recv_poll in Hr.
  destruct ph; try done.
  destruct (progress_receiving _ _ _ _ _ Hpr eq_refl) as (Hc & Hlive & ->). simpl in Hc.
  destruct Hpr as [Hq Hf _ _ _]. simpl in Hq, Hf.
  destruct Hlive as [Hh Hrc _ He Hs Hd]. simpl in *. subst cn.
  destruct s as [src w q c rcv]. simpl in *. subst c rcv. unfold remaining in He. simpl in He.
  destruct q as [|[e|[]] q].
  - destruct w as [| | | |p]; try discriminate Hr. injection Hr as <- <-.
    simpl in He. rewrite !app_nil_r in He. rewrite ?Nat.add_0_r.
    apply (progress_close target fin n _ (mk_ChangeNotifications true true None false) None); [done..| |].
    + by rewrite He.
    + right. split; [done|]. simpl. destruct (Hd _ eq_refl) as [[(l' & e & Hl) _]|[[-> ->]|(m & -> & ->)]].
      * assert ((inl e : Event) ∈ target) as Hin by (rewrite Hl; set_solver).
        rewrite He in Hin. by apply elem_of_replicate_inv in Hin.
      * by left.
      * right. exists m. naive_solver.
  - injection Hr as <- <-. rewrite !Nat.add_0_r. assert (q ++ match w with
      | WStart (inl e) | WFailed e => [inl e] | WStart (inr _) | WNext => cut (cs_events src)
      | WSend e => cut (e :: cs_events src) | WDone _ => [] end = []) as Hnil
      by (eapply cut_err_last; rewrite <-Hcut; by symmetry).
    apply app_nil in Hnil as [-> Hw].
    apply (progress_close target fin n _ (mk_ChangeNotifications true true None false) (Some e));
      simpl; [done|lia|done| |].
    + rewrite He. by eexists.
    + left. exists e. simpl. split; [done|]. rewrite He. simpl in *. by rewrite Hw.
  - injection Hr as <- <-. assert (q = []) as -> by (destruct q; [done|simpl in Hq; unfold CAPACITY in Hq; lia]).
    split; simpl; try done; try lia. intros _. split; [|done].
    split; simpl; try done; [by left|]. unfold remaining. simpl.
    by rewrite Nat.add_1_r, replicate_S_end, <-app_assoc.
Qed.

Lemma progress_finish target fin n k sys sys' r : progress target fin n k sys →
  finish_poll sys = Some (sys', r) → progress target fin (n + changes r) (k + ends r) sys'.
Proof.
  intros [Hq Hf Hl Hs Hk] Hr. destruct sys as [s cn ph]. unfold finish_poll in Hr. simpl in *.
  destruct ph; try done. destruct (sh_worker s) as [| | | |p] eqn:Ew; try done. injection Hr as <- <-.
  rewrite Nat.add_0_r.
  destruct (sh_cancelled s) eqn:Ec; [|destruct (Hl eq_refl) as [[_ _ [?|?] _ _ _] _]; done].
  destruct (Hs eq_refl) as [H1 [?|[H2 _]] H3 H4 H5]; [done|]. simpl in *.
  split; simpl; try done; try (by rewrite Ec). { by rewrite Ew; intros ? [?|?]. }
  intros _. split; simpl; try done; [by right| |by rewrite H2]. intros _.
  destruct (H4 H2) as [(e & He & Ht)|(Ht & [(-> & He & Hw)|(m & -> & He & Hw)])]; simpl in *.
  - left. exists e. by rewrite He.
  - right. split; [done|]. left. rewrite He. rewrite Ew in Hw. by simplify_eq/=.
  - right. split; [done|]. right. exists m. rewrite Ew in Hw. simplify_eq/=. split; [done|]. simpl.
    destruct He as [->| ->]; naive_solver.
Qed.

Lemma progress_call target fin n k sys sys' r : progress target fin n k sys →
  recv_call sys = Some (sys', r) → progress target fin (n + changes r) (k + ends r) sys'.
Proof.
  intros [Hq Hf Hl Hs Hk] Hr. destruct sys as [s cn ph]. unfold recv_call in Hr. simpl in *.
  destruct ph; try done. destruct (cn_closed cn) eqn:Ec; injection Hr as <- <-; rewrite !Nat.add_0_r.
  - split; simpl; try done. intros E. destruct (Hl E) as [[Hh _ _ _ _ _] _]. simpl in Hh. by rewrite Hh in Ec.
  - split; simpl; try done; [|intros E; destruct (Hs E) as [_ [?|[? _]] _ _ _]; simpl in *; congruence| by rewrite Ec].
    intros E. destruct (Hl E) as [[? ? _ ? ? ?] ?]. split; [|done]. split; simpl; try done. by right.
Qed.

Lemma progress_abandon target fin n k sys : progress target fin n k sys →
  sys_phase sys = Receiving ∨ sys_phase sys = Finishing →
  progress target fin n k (mk_System (sys_shared sys) (sys_handle sys) Idle).
Proof.
  intros [Hq Hf Hl Hs Hk] Hp. split; simpl; try done; intros E.
  - destruct (Hl E) as [[? ? _ ? ? ?] ?]. split; [|done]. split; simpl; try done. by left.
  - destruct (Hs E) as [? [?|[? _]] ? ? ?]; [destruct Hp; congruence|]. split; simpl; try done. by right.
Qed.

Lemma progress_drop target fin n k sys sys' : progress target fin n k sys →
  notifications_drop sys = Some sys' → progress target fin n k sys'.
Proof.
  intros [Hq Hf Hl Hs Hk] Hr. destruct sys as [s cn ph]. unfold notifications_drop in Hr. simpl in *.
  destruct ph; try done. injection Hr as <-.
  split; simpl; [lia|done| |intros _|done].
  - intros [E Ec]%orb_false_iff. destruct (Hl E) as [[Hh _ _ _ _ _] _]. simpl in Hh. by rewrite Hh in Ec.
  - destruct (sh_cancelled s) eqn:E.
    + destruct (Hs eq_refl) as [? ? ? ? ?]. split; simpl; try done. by left.
    + destruct (Hl eq_refl) as [[Hh _ _ He _ _] _]. simpl in *. rewrite Hh. split; simpl; try done; [by left|].
      rewrite He. by eexists.
Qed.

Lemma progress_step target fin l n k sys r sys' : progress target fin n k sys → target = cut l →
  step sys r sys' → progress target fin (n + changes r) (k + ends r) sys'.
Proof.
  intros Hp Hcut Hst. destruct Hst.
  - rewrite !Nat.add_0_r. by apply progress_worker.
  - by eapply progress_call.
  - by eapply progress_recv.
  - by eapply progress_finish.
  - rewrite !Nat.add_0_r. by apply progress_abandon.
  - rewrite !Nat.add_0_r. by eapply progress_drop.
Qed.

(** ** Runs *)

Lemma step_change sys sys' : step sys (Some (Some ())) sys' → sys_phase sys = Receiving.
Proof.
  inversion 1 as [|? ? ? Hr|? ? ? Hr|? ? ? Hr| |]; subst; destruct sys as [s cn ph].
  - unfold recv_call in Hr. simpl in Hr. by repeat case_match.
  - simpl in Hr. by destruct ph.
  - simpl in Hr. by repeat case_match.
Qed.

Lemma run_progress build source trace sys : run (notifications_new build source) trace sys →
  ∃ n k, trace = replicate n (Some ()) ++ replicate k None ∧
         progress (cut (stream build source).1) (stream build source).2 n k sys.
Proof.
  induction 1 as [|trace sys1 r sys2 _ (n & k & -> & IH) Hst].
  { exists 0%nat, 0%nat. split; [done|]. apply progress_new. }
  pose proof (progress_step _ _ _ _ _ _ _ _ IH eq_refl Hst) as Hp.
  exists (n + changes r)%nat, (k + ends r)%nat. split; [|done].
  destruct r as [[[]|]|]; simpl; rewrite ?Nat.add_0_r, ?app_nil_r; [| |done].
  - destruct (progress_receiving _ _ _ _ _ IH (step_change _ _ Hst)) as (_ & _ & ->).
    by rewrite Nat.add_1_r, replicate_S_end, !app_nil_r.
  - by rewrite Nat.add_1_r, replicate_S_end, app_assoc.
Qed.

(** The worker running alone, for at most [j] steps. *)
Fixpoint worker_run (j : nat) (s : Shared) : Shared :=
  match j with
  | O => s
  | S j => match worker_step s with Some s' => worker_run j s' | None => s end
  end.

Lemma cancelled_worker_ends s : sh_cancelled s = true →
  (∀ e, sh_worker s = WFailed e ∨ sh_worker s = WStart (inl e) → sh_queue s = []) →
  ∃ p, sh_worker (worker_run 3 s) = WDone p.
Proof.
  destruct s as [[evs en] w q c r]. simpl. intros -> Hf.
  destruct w as [[e|[]]|e| |e|p]; cbn; try (by eexists).
  - rewrite (Hf e) by (by right). by destruct r; eexists.
  - rewrite (Hf e) by (by left). by destruct r; eexists.
Qed.

Lemma queue_received s cn : sh_queue s ≠ [] → is_Some (recv_poll (mk_System s cn Receiving)).
Proof. destruct s as [? ? [|[e|[]] q] ? ?]; simpl; [done|by eexists..]. Qed.

Lemma done_received s cn p : sh_worker s = WDone p → is_Some (recv_poll (mk_System s cn Receiving)).
Proof. destruct s as [? ? [|[e|[]] q] ? ?]; simpl; intros ->; by eexists. Qed.

Lemma worker_step_keeps_queue s s' : worker_step s = Some s' → sh_queue s ≠ [] → sh_queue s' ≠ [].
Proof.
  destruct s as [[evs en] w q c r]. unfold worker_step, set_worker, send. simpl.
  intros Hw Hq. repeat case_match; simplify_eq/=; try done; by destruct q.
Qed.

Lemma worker_run_keeps_queue j s : sh_queue s ≠ [] → sh_queue (worker_run j s) ≠ [].
Proof.
  revert s. induction j as [|j IH]; intros s Hq; simpl; [done|].
  destruct (worker_step s) eqn:E; [|done]. eapply IH, worker_step_keeps_queue; eauto.
Qed.

(** An open subscription whose source is not waiting hands [recv] something. *)
Lemma live_receives target fin n sys : live target fin n sys → sh_cancelled (sys_shared sys) = false →
  target ≠ replicate n (inr ()) ∨ fin ≠ Pending →
  is_Some (recv_poll (mk_System (worker_run 3 (sys_shared sys)) (sys_handle sys) Receiving)).
Proof.
  destruct sys as [[[evs en] w q c r] cn ph]. intros [_ Hr _ He Hs _] Hc Hfin.
  cbn [sys_shared sys_handle sh_cancelled sh_receiver] in *. subst c r.
  destruct q as [|x q]; [|by apply queue_received, worker_run_keeps_queue].
  unfold remaining, source_end in *. simpl in He, Hs.
  destruct w as [[e|[]]|e| |e|p]; cbn -[recv_poll]; try (by apply queue_received); try (by eapply done_received).
  - destruct evs as [|x evs]; cbn -[recv_poll]; [|by apply queue_received].
    rewrite app_nil_r in He. subst en. destruct fin; cbn -[recv_poll]; [naive_solver|by eapply done_received..].
  - destruct evs as [|x evs]; cbn -[recv_poll].
    + rewrite app_nil_r in He. subst en. destruct fin; cbn -[recv_poll]; [naive_solver|by eapply done_received..].
    + apply queue_received. by apply (worker_run_keeps_queue 1).
  - apply queue_received. by apply (worker_run_keeps_queue 2).
Qed.

(** ** Theorems *)

(** C12: a subscription reports the changes of its source, in order and without loss,
    and then its end: whatever the interleaving of worker and owner, the results of
    [recv] are some changes followed by ends; the changes are the first events of the
    stream; and once the subscription is closed, either the next event was the error
    that [error] tells, or all events were reported and the stream ended, or the
    source panicked.  At no time does the channel hold more than one event. *)
Theorem notifications_faithful build source trace sys :
  run (notifications_new build source) trace sys →
  let '(events, fin) := stream build source in
  ∃ n k, trace = replicate n (Some ()) ++ replicate k None ∧
    replicate n (inr ()) `prefix_of` events ∧
    (length (sh_queue (sys_shared sys)) <= CAPACITY)%nat ∧
    ((0 < k)%nat → cn_closed (sys_handle sys) = true) ∧
    (cn_closed (sys_handle sys) = false → notifications_error sys = None) ∧
    (cn_closed (sys_handle sys) = true →
       (∃ e, notifications_error sys = Some e ∧ events !! n = Some (inl e)) ∨
       events = replicate n (inr ()) ∧ fin = Ended ∧ notifications_error sys = None ∨
       ∃ m, events = replicate n (inr ()) ∧ fin = Panics m ∧
            (notifications_error sys = None ∨ notifications_error sys = Some m)).
Proof.
  intros (n & k & -> & [Hq _ Hl Hs Hk])%run_progress. destruct (stream build source) as [events fin]. simpl in *.
  exists n, k. unfold notifications_error.
  destruct (sh_cancelled (sys_shared sys)).
  - destruct (Hs eq_refl) as [_ _ Hpre Hcl Ho]. split_and!; try done; [by apply cut_ok_prefix|].
    intros Hc. destruct (Hcl Hc) as [(e & He & Ht)|(Ht & [(-> & He & _)|(m & -> & He & _)])].
    + left. exists e. split; [done|]. by apply cut_lookup_err.
    + right. left. split_and!; try done. by apply cut_complete.
    + right. right. exists m. split_and!; try done. by apply cut_complete.
  - destruct (Hl eq_refl) as [[-> _ _ He _ _] ->]. split_and!; try done; [|lia].
    apply cut_ok_prefix. rewrite He. by eexists.
Qed.

(** C13: no thread and no receiver is left waiting: in every reachable state, a worker
    that was told to stop, because the subscription was closed or dropped, returns
    within three of its own steps, so that the [worker.await] of [finish_worker]
    completes; and a [recv] that waits while its source has an event, ended or
    panicked can return after three steps of the worker. *)
Theorem notifications_live build source trace sys :
  run (notifications_new build source) trace sys →
  let '(events, fin) := stream build source in
  (sys_phase sys = Finishing ∨ sys_phase sys = Dropped →
     ∃ p, sh_worker (worker_run 3 (sys_shared sys)) = WDone p) ∧
  (sys_phase sys = Receiving → (length trace < length events)%nat ∨ fin ≠ Pending →
     is_Some (recv_poll (mk_System (worker_run 3 (sys_shared sys)) (sys_handle sys) Receiving))).
Proof.
  intros (n & k & -> & Hp)%run_progress. destruct (stream build source) as [events fin]. simpl in *. split.
  - intros Hph. apply cancelled_worker_ends; [|by apply (progress_failed _ _ _ _ _ Hp)].
    destruct (sh_cancelled (sys_shared sys)) eqn:E; [done|].
    destruct (progress_live _ _ _ _ _ Hp E) as [[_ _ Hph' _ _ _] _]. intuition congruence.
  - intros Hph Hev. destruct (progress_receiving _ _ _ _ _ Hp Hph) as (E & Hlive & ->).
    eapply live_receives; [done..|]. destruct Hev as [Hev|]; [|by right]. left.
    intros Ht. symmetry in Ht. apply cut_complete in Ht as ->.
    rewrite app_nil_r, !length_replicate in Hev. lia.
Qed.

(** ** A schedule, executed *)

Inductive Action : Set := DoWorker | DoCall | DoRecv | DoFinish | DoDrop.
Definition act (a : Action) (sys : System) : option (System * option (option ())) :=
  match a with
  | DoWorker => (fun s => (mk_System s (sys_handle sys) (sys_phase sys), None)) <$> worker_step (sys_shared sys)
  | DoCall => recv_call sys
  | DoRecv => recv_poll sys
  | DoFinish => finish_poll sys
  | DoDrop => (fun sys => (sys, None)) <$> notifications_drop sys
  end.
Fixpoint schedule_run (l : list Action) (sys : System) : option (list (option ()) * System) :=
  match l with
  | [] => Some ([], sys)
  | a :: l =>
      match act a sys with
      | Some (sys', r) =>
          (fun p => (match r with Some v => [v] | None => [] end ++ p.1, p.2)) <$> schedule_run l sys'
      | None => None
      end
  end.

Lemma act_step a sys sys' r : act a sys = Some (sys', r) → step sys r sys'.
Proof.
  destruct a; simpl; [|by constructor..|].
  - destruct (worker_step (sys_shared sys)) eqn:E; intros [= <- <-]. by constructor.
  - destruct (notifications_drop sys) eqn:E; intros [= <- <-]. by constructor.
Qed.

Lemma schedule_run_run l sys0 trace0 sys trace sys' : run sys0 trace0 sys →
  schedule_run l sys = Some (trace, sys') → run sys0 (trace0 ++ trace) sys'.
Proof.
  revert trace0 sys trace. induction l as [|a l IH]; intros trace0 sys trace Hrun; simpl.
  - intros [= <- <-]. by rewrite app_nil_r.
  - destruct (act a sys) as [[sys1 r]|] eqn:Ea; [|done].
    destruct (schedule_run l sys1) as [[tr s]|] eqn:E; [|done]. intros [= <- <-].
    rewrite app_assoc. eapply IH; [|exact E]. eapply run_step; [done|by eapply act_step].
Qed.

Lemma new_run build source l trace sys :
  schedule_run l (notifications_new build source) = Some (trace, sys) →
  run (notifications_new build source) trace sys.
Proof. intros H. exact (schedule_run_run l _ [] _ _ _ (run_refl _) H). Qed.

(** A source with one change and then an error: the change is reported, then the end. *)
Definition failing_source : ChangeSource := mk_ChangeSource [inr (); inl "stream closed"; inr ()] Pending.
Definition failing_schedule : list Action :=
  [DoCall; DoWorker; DoWorker; DoWorker; DoRecv; DoWorker; DoCall; DoWorker; DoRecv; DoFinish; DoCall].
Definition failing_end : System :=
  match schedule_run failing_schedule (notifications_new (inr ()) failing_source) with
  | Some (_, sys) => sys
  | None => notifications_new (inr ()) failing_source
  end.

Lemma notifications_faithful_witness :
  ∃ n k, [Some (); None; None] = replicate n (Some ()) ++ replicate k None ∧
    replicate n (inr ()) `prefix_of` cs_events failing_source ∧
    notifications_error failing_end = Some "stream closed".
Proof.
  destruct (notifications_faithful (inr ()) failing_source [Some (); None; None] failing_end
              (new_run (inr ()) failing_source failing_schedule [Some (); None; None] failing_end eq_refl))
    as (n & k & H1 & H2 & _).
  exists n, k. split; [exact H1|]. split; [exact H2|]. reflexivity.
Defined.

(** A subscription dropped while its worker holds an event. *)
Definition dropped_end : System :=
  match schedule_run [DoWorker; DoWorker; DoDrop] (notifications_new (inr ()) failing_source) with
  | Some (_, sys) => sys
  | None => notifications_new (inr ()) failing_source
  end.

Lemma notifications_live_witness : ∃ p, sh_worker (worker_run 3 (sys_shared dropped_end)) = WDone p.
Proof.
  apply (notifications_live (inr ()) failing_source [] dropped_end
           (new_run (inr ()) failing_source [DoWorker; DoWorker; DoDrop] [] dropped_end eq_refl)).
  right. reflexivity.
Defined.
