(* ===== verification/Shell.v ===== *)
(** * Shell quoting: [shell.rs] of ployz-internal-sshexec

    Commands are sent to a remote shell as one line; [quote] makes a string one word
    of it.  The words a POSIX shell reads from a line are the reference. *)

From S2P Require Import Prelude RustStr.

Local Open Scope Z_scope.

(** [is_unquoted_byte]. *)
Definition is_unquoted_byte (c : ascii) : bool :=
  is_ascii_alphanumeric c
  || existsb (ascii_eqb c) ["_"; "@"; "%"; "+"; "="; ":"; ","; "."; "/"; "-"]%char.

Definition single_quote : ascii := "'".
Definition double_quote_char : ascii := Ascii.ascii_of_nat 34.
(** A single quote outside single quotes: closed, in double quotes, opened. *)
Definition quoted_quote : list ascii :=
  [single_quote; double_quote_char; single_quote; double_quote_char; single_quote].

(** [value.replace('\'', ..)]. *)
Definition replace_quotes (l : list ascii) : list ascii :=
  l ≫= fun c => if ascii_eqb c single_quote then quoted_quote else [c].

(** [quote]. *)
Definition quote (value : string) : string :=
  if str_is_empty value then "''"
  else if forallb is_unquoted_byte (bytes value) then value
  else of_bytes (single_quote :: replace_quotes (bytes value) ++ [single_quote]).

(** [quote_command]. *)
Definition quote_command (arguments : list string) : string := str_join " " (map quote arguments).

(** ** The words of a shell

    The reference: how a POSIX shell, one that is not interactive and has no aliases, reads
    a line that is one simple command. *)

(** What the shell is inside of: between words, in a word, in single quotes, in
    double quotes. *)
Inductive Lexer : Set := Between | Bare | Single | Double.

(** A piece of a word: a byte outside quotes, a byte inside them, or the quote itself,
    which is not part of the word's text but decides what the word can be. *)
Inductive WordPart : Set := Plain (c : ascii) | Quoted (c : ascii) | QuoteMark.
#[export] Instance WordPart_eq_dec : EqDecision WordPart.
Proof. solve_decision. Defined.
Definition part_byte (part : WordPart) : option ascii :=
  match part with Plain c | Quoted c => Some c | QuoteMark => None end.
Definition word_text (word : list WordPart) : list ascii := omap part_byte word.

(** Bytes that mean something to the shell outside quotes: newline, operators,
    expansions, globs, the escape, comments and history.  A line with one of them is more
    than words and is not read; neither is one with a NUL, which no word can hold. *)
Definition is_blank (c : ascii) : bool := (byte_val c =? 32) || (byte_val c =? 9).
Definition is_nul (c : ascii) : bool := byte_val c =? 0.
Definition is_special (c : ascii) : bool :=
  (byte_val c =? 10)
  || existsb (ascii_eqb c) ["|"; "&"; ";"; "<"; ">"; "("; ")"; "$"; "`"; "\"; "*"; "?"; "["; "]"; "#"; "~";
                            "!"; "{"; "}"; "^"]%char.
(** Bytes that mean something inside double quotes. *)
Definition is_special_in_double (c : ascii) : bool := existsb (ascii_eqb c) ["$"; "`"; "\"; "!"]%char.

(** Reads the words of a line: the parts of the word being read come reversed,
    [None] is a line that needs more than words. *)
Fixpoint shell_lex (state : Lexer) (word : list WordPart) (line : list ascii) : option (list (list WordPart)) :=
  match line with
  | [] =>
      match state with
      | Between => Some []
      | Bare => Some [rev word]
      | Single | Double => None
      end
  | c :: line =>
      if is_nul c then None
      else
        match state with
        | Single =>
            if ascii_eqb c single_quote then shell_lex Bare (QuoteMark :: word) line
            else shell_lex Single (Quoted c :: word) line
        | Double =>
            if ascii_eqb c double_quote_char then shell_lex Bare (QuoteMark :: word) line
            else if is_special_in_double c then None else shell_lex Double (Quoted c :: word) line
        | Between | Bare =>
            if is_blank c
            then match state with
                 | Between => shell_lex Between [] line
                 | _ => cons (rev word) <$> shell_lex Between [] line
                 end
            else if ascii_eqb c single_quote then shell_lex Single (QuoteMark :: word) line
            else if ascii_eqb c double_quote_char then shell_lex Double (QuoteMark :: word) line
            else if is_special c then None else shell_lex Bare (Plain c :: word) line
        end
  end.
(** The texts of the words. *)
Definition shell_words (line : string) : option (list string) :=
  map (fun word => of_bytes (word_text word)) <$> shell_lex Between [] (bytes line).

(** An assignment word starts with an unquoted name and an unquoted equals sign. *)
Definition is_name_byte (c : ascii) : bool := is_ascii_alphanumeric c || ascii_eqb c "_".
Definition is_name_start (c : ascii) : bool := is_name_byte c && negb (is_ascii_digit c).
Fixpoint name_then_equals (word : list WordPart) : bool :=
  match word with
  | Plain c :: word => ascii_eqb c "=" || (is_name_byte c && name_then_equals word)
  | _ => false
  end.
Definition is_assignment_word (word : list WordPart) : bool :=
  match word with Plain c :: word => is_name_start c && name_then_equals word | _ => false end.

(** The reserved words; one is recognised when none of it is quoted. *)
Definition reserved_words : list string :=
  ["!"; "{"; "}"; "case"; "do"; "done"; "elif"; "else"; "esac"; "fi"; "for"; "if"; "in"; "then"; "until"; "while"].
Definition is_reserved_word (word : list WordPart) : bool :=
  existsb (fun reserved => bool_decide (word = map Plain (bytes reserved))) reserved_words.

(** The assignments before a command's name. *)
Fixpoint split_assignments (words : list (list WordPart)) : list (list WordPart) * list (list WordPart) :=
  match words with
  | word :: words =>
      if is_assignment_word word then let '(assignments, command) := split_assignments words in (word :: assignments, command)
      else ([], word :: words)
  | [] => ([], [])
  end.

(** A line as a simple command: its assignments, and its command with the arguments.  A
    line that begins with a reserved word is none. *)
Definition shell_command (line : string) : option (list string * list string) :=
  words ← shell_lex Between [] (bytes line);
  match words with
  | word :: _ => if is_reserved_word word then None else Some ()
  | [] => Some ()
  end;;
  let '(assignments, command) := split_assignments words in
  Some (map (fun word => of_bytes (word_text word)) assignments, map (fun word => of_bytes (word_text word)) command).

(** ** The words [quote] makes *)

Lemma unquoted_plain c : is_unquoted_byte c = true →
  is_nul c = false ∧ is_blank c = false ∧ ascii_eqb c single_quote = false ∧
  ascii_eqb c double_quote_char = false ∧ is_special c = false.
Proof. destruct c as [[] [] [] [] [] [] [] []]; vm_compute; done. Qed.

(** A word is read whether or not the shell is already in one. *)
Definition outside (state : Lexer) : Prop := state = Between ∨ state = Bare.
Definition no_nul (value : string) : Prop := Forall (fun c => is_nul c = false) (bytes value).

(** The parts of a quoted byte, and of a value as [quote] writes it. *)
Definition quoted_parts (c : ascii) : list WordPart :=
  if ascii_eqb c single_quote then [QuoteMark; QuoteMark; Quoted c; QuoteMark; QuoteMark] else [Quoted c].
Definition quote_parts (value : string) : list WordPart :=
  if negb (str_is_empty value) && forallb is_unquoted_byte (bytes value) then map Plain (bytes value)
  else QuoteMark :: (bytes value ≫= quoted_parts) ++ [QuoteMark].

Lemma lex_unquoted state l word line : outside state → l ≠ [] → forallb is_unquoted_byte l = true →
  shell_lex state word (l ++ line) = shell_lex Bare (rev (map Plain l) ++ word) line.
Proof.
  intros Hs Hne Hl. revert state word Hs Hne. induction l as [|c l IH]; [done|]. intros state word Hs _.
  apply andb_true_iff in Hl as [Hc Hl]. destruct (unquoted_plain c Hc) as (H0 & H1 & H2 & H3 & H4).
  cbn [app shell_lex map rev]. rewrite H0, H1, H2, H3, H4. rewrite <-app_assoc. cbn [app].
  assert (shell_lex Bare (Plain c :: word) (l ++ line) = shell_lex Bare (rev (map Plain l) ++ Plain c :: word) line) as E.
  { destruct l as [|d l]; [done|]. apply (IH Hl); [by right|done]. }
  by destruct Hs as [-> | ->].
Qed.

Lemma lex_quoted_quote word line :
  shell_lex Single word (quoted_quote ++ line) =
    shell_lex Single (QuoteMark :: QuoteMark :: Quoted single_quote :: QuoteMark :: QuoteMark :: word) line.
Proof. reflexivity. Qed.

Lemma lex_single l word line : Forall (fun c => is_nul c = false) l →
  shell_lex Single word (replace_quotes l ++ single_quote :: line) =
    shell_lex Bare (QuoteMark :: rev (l ≫= quoted_parts) ++ word) line.
Proof.
  intros Hl. revert word. induction Hl as [|c l Hc Hl IH]; intros word; [done|].
  cbn [replace_quotes mbind list_bind]. rewrite <-!app_assoc, rev_app_distr. unfold quoted_parts at 2.
  destruct (ascii_eqb c single_quote) eqn:E.
  - apply Ascii.eqb_eq in E as ->. rewrite lex_quoted_quote, <-app_assoc. apply IH.
  - cbn [app shell_lex rev]. rewrite Hc, E, <-app_assoc. apply IH.
Qed.

Lemma lex_quote state value word line : outside state → no_nul value →
  shell_lex state word (bytes (quote value) ++ line) = shell_lex Bare (rev (quote_parts value) ++ word) line.
Proof.
  intros Hs Hv. unfold quote, quote_parts. destruct value as [|c value].
  { cbn. by destruct Hs as [-> | ->]. }
  cbn [str_is_empty negb andb]. destruct (forallb is_unquoted_byte (bytes (String c value))) eqn:E.
  - by apply lex_unquoted.
  - unfold of_bytes, bytes at 1. rewrite String.list_ascii_of_string_of_list_ascii.
    cbn [app]. rewrite <-app_assoc. cbn [app]. cbn [rev]. rewrite rev_app_distr. cbn [rev app].
    rewrite <-app_assoc. cbn [app].
    transitivity (shell_lex Single (QuoteMark :: word) (replace_quotes (bytes (String c value)) ++ single_quote :: line)).
    + by destruct Hs as [-> | ->].
    + by apply lex_single.
Qed.

Lemma lex_arguments arguments : Forall no_nul arguments →
  shell_lex Between [] (bytes (quote_command arguments)) = Some (map quote_parts arguments).
Proof.
  unfold quote_command. induction 1 as [|x l Hx Hl IH]; [done|]. cbn [map str_join].
  destruct l as [|y l].
  - cbn [map]. rewrite <-(app_nil_r (bytes (quote x))), lex_quote by (done || by left). cbn.
    by rewrite app_nil_r, rev_involutive.
  - cbn [map] in *. rewrite !bytes_app, lex_quote by (done || by left). cbn [bytes String.list_ascii_of_string app shell_lex].
    change (is_nul " ") with false. change (is_blank " ") with true. cbv iota. rewrite IH. cbn.
    by rewrite app_nil_r, rev_involutive.
Qed.

Lemma word_text_plain l : word_text (map Plain l) = l.
Proof. unfold word_text. induction l as [|c l IH]; [done|]. cbn. by rewrite IH. Qed.
Lemma word_text_quoted l : word_text (l ≫= quoted_parts) = l.
Proof.
  unfold word_text. induction l as [|c l IH]; [done|]. cbn [mbind list_bind]. rewrite omap_app, IH.
  unfold quoted_parts. by destruct (ascii_eqb c single_quote).
Qed.
Lemma quote_parts_text value : of_bytes (word_text (quote_parts value)) = value.
Proof.
  assert (word_text (quote_parts value) = bytes value) as ->.
  { unfold quote_parts. destruct (_ && _); [apply word_text_plain|]. unfold word_text. cbn.
    rewrite omap_app. cbn. rewrite app_nil_r. apply word_text_quoted. }
  apply String.string_of_list_ascii_of_string.
Qed.
Lemma quote_parts_texts arguments :
  map (fun word => of_bytes (word_text word)) (map quote_parts arguments) = arguments.
Proof. rewrite map_map. rewrite <-(map_id arguments) at 2. apply map_ext, quote_parts_text. Qed.

(** Words that a shell takes for something else where a command begins: [NAME=..] and the
    reserved words, of which [quote] leaves those as they are that need no quotes. *)
Definition taken_for_syntax (value : string) : bool :=
  negb (str_is_empty value) && forallb is_unquoted_byte (bytes value) &&
  (is_assignment_word (map Plain (bytes value)) || is_reserved_word (map Plain (bytes value))).

Lemma quote_parts_syntax value :
  is_assignment_word (quote_parts value) || is_reserved_word (quote_parts value) = taken_for_syntax value.
Proof. unfold quote_parts, taken_for_syntax. by destruct (_ && _). Qed.

Lemma split_assignments_none words : (∀ word, head words = Some word → is_assignment_word word = false) →
  split_assignments words = ([], words).
Proof. destruct words as [|word words]; [done|]. cbn. intros Hw. by rewrite Hw. Qed.
Lemma split_assignments_some word words : is_assignment_word word = true → (split_assignments (word :: words)).1 ≠ [].
Proof. intros Hw. cbn. rewrite Hw. by destruct (split_assignments words). Qed.

(** C31: a POSIX shell (not interactive, without aliases) that reads a command line made by
    [quote_command] sees exactly the arguments as its words, whatever bytes they have
    (blanks, quotes, expansions, operators and newlines included; empty ones too), as long
    as none of them is a NUL.  And it runs them as one command, without assignments, exactly
    when the first argument is not one that it takes for something else: a word of the form
    NAME=.. or a reserved word, which [quote] leaves without quotes. *)
Theorem quote_command_words (arguments : list string) : Forall no_nul arguments →
  shell_words (quote_command arguments) = Some arguments ∧
  (shell_command (quote_command arguments) = Some ([], arguments) ↔
     ∀ first, head arguments = Some first → taken_for_syntax first = false).
Proof.
  intros Hn. unfold shell_words, shell_command. rewrite lex_arguments by done. cbn [fmap option_fmap option_map mbind option_bind].
  rewrite quote_parts_texts. split; [done|]. destruct arguments as [|first rest]; [done|].
  cbn [map head]. pose proof (quote_parts_syntax first) as Hs. split.
  - intros Hc f [= <-]. rewrite <-Hs. apply orb_false_iff. destruct (is_reserved_word _); [done|]. split; [|done].
    apply not_true_iff_false. intros Ha. pose proof (split_assignments_some _ (map quote_parts rest) Ha) as Hne.
    cbn [mbind option_bind] in Hc. destruct (split_assignments _) as [assignments command]. cbn in Hne.
    injection Hc as Hc _. by apply map_eq_nil in Hc.
  - intros Hf. rewrite (Hf first eq_refl) in Hs. apply orb_false_iff in Hs as [Ha Hr]. rewrite Hr. cbn [mbind option_bind].
    rewrite split_assignments_none by (by intros word [= <-]).
    change (quote_parts first :: map quote_parts rest) with (map quote_parts (first :: rest)). by rewrite quote_parts_texts.
Qed.

Lemma quote_command_words_witness :
  quote_command ["printf"; "%s"; "a'b c"; ""; "A=b"; "if"] = "printf %s 'a'" +:+ double_quote +:+ "'" +:+ double_quote +:+ "'b c' '' A=b if" ∧
  (shell_words (quote_command ["printf"; "%s"; "a'b c"; ""; "A=b"; "if"]) = Some ["printf"; "%s"; "a'b c"; ""; "A=b"; "if"] ∧
   (shell_command (quote_command ["printf"; "%s"; "a'b c"; ""; "A=b"; "if"]) = Some ([], ["printf"; "%s"; "a'b c"; ""; "A=b"; "if"]) ↔
      ∀ first, head ["printf"; "%s"; "a'b c"; ""; "A=b"; "if"] = Some first → taken_for_syntax first = false)).
Proof.
  split; [by vm_compute|]. apply (quote_command_words ["printf"; "%s"; "a'b c"; ""; "A=b"; "if"]).
  by repeat constructor.
Defined.

(** The two words that lose their place, on examples: an assignment before the command, and
    a line that is no simple command. *)
Lemma leading_assignment :
  shell_command (quote_command ["A=b"; "cmd"]) = Some (["A=b"], ["cmd"]) ∧
  shell_command (quote_command ["while"; "true"]) = None ∧
  shell_command (quote_command ["A b=c"; "cmd"]) = Some ([], ["A b=c"; "cmd"]) ∧
  shell_command (quote_command ["{"; "cmd"]) = Some ([], ["{"; "cmd"]).
Proof. by vm_compute. Qed.
