(* ===== verification/ProxyMap.v ===== *)
(** * The API proxy: targets, payloads and backends

    [mapper.rs], [payload.rs] and the parts of [backend.rs] without connections, of
    ployz-internal-machine-api-proxy.  A request names machines in its metadata; the
    proxy resolves them in the cluster store, forwards raw protobuf messages and marks
    each reply with the machine it came from. *)

From S2P Require Import Prelude RustStr NetAddr PbAddr Machine Cluster.

Local Open Scope Z_scope.

(** ** Targets *)

(** [RemoteAddress], [MachineTarget], [AddressKey]. *)
Record RemoteAddress := mk_RemoteAddress { ra_ip : Z; ra_zone : list byte }.
Record MachineTarget := mk_MachineTarget {
  mt_id : string;
  mt_name : string;
  mt_address : string;
  mt_remote_address : option RemoteAddress;
  mt_address_is_utf8 : bool
}.
Inductive AddressKey := KRemote (ip : Z) (zone : list byte) | KText (address : string).

#[export] Instance RemoteAddress_eq_dec : EqDecision RemoteAddress.
Proof. solve_decision. Defined.
#[export] Instance MachineTarget_eq_dec : EqDecision MachineTarget.
Proof. solve_decision. Defined.
#[export] Instance AddressKey_eq_dec : EqDecision AddressKey.
Proof. solve_decision. Defined.

(** [parse_remote_address]; the bytes before the sign of a zone are read as text. *)
Definition parse_remote_address (address : string) : option RemoteAddress :=
  match str_find "%" address with
  | Some index =>
      if (index + 1 <? str_len address)%nat
      then match ipv6_from_str (str_take index address) with
           | Ok ip => Some (mk_RemoteAddress ip (map Ascii.byte_of_ascii (bytes (str_drop (index + 1) address))))
           | _ => None
           end
      else None
  | None => match ipv6_from_str address with Ok ip => Some (mk_RemoteAddress ip []) | _ => None end
  end.

(** [MachineTarget::new]. *)
Definition target_new (id name address : string) : MachineTarget :=
  mk_MachineTarget id name address (parse_remote_address address) true.

Definition zone_text (zone : list byte) : list ascii := map Ascii.ascii_of_byte zone.
Definition zone_lossy (zone : list byte) : string := of_bytes (from_utf8_lossy (zone_text zone)).

(** [MachineTarget::from_management_address]. *)
Definition target_from_management_address (id name : string) (ip : Z) (zone : list byte) : MachineTarget :=
  mk_MachineTarget id name
    (match zone with [] => ipv6_display ip | _ => ipv6_display ip +:+ "%" +:+ zone_lossy zone end)
    (Some (mk_RemoteAddress ip zone)) (utf8_valid (zone_text zone)).

(** [MachineTarget::address_key]. *)
Definition address_key (self : MachineTarget) : AddressKey :=
  match mt_remote_address self with
  | None => KText (mt_address self)
  | Some remote => KRemote (ra_ip remote) (ra_zone remote)
  end.

(** ** Statuses *)

(** [tonic::Code]: its number and its [Debug] name. *)
Definition code_number (c : Code) : Z :=
  match c with
  | CodeOk => 0 | CodeCancelled => 1 | CodeUnknown => 2 | CodeInvalidArgument => 3 | CodeDeadlineExceeded => 4
  | CodeNotFound => 5 | CodeAlreadyExists => 6 | CodePermissionDenied => 7 | CodeResourceExhausted => 8
  | CodeFailedPrecondition => 9 | CodeAborted => 10 | CodeOutOfRange => 11 | CodeUnimplemented => 12
  | CodeInternal => 13 | CodeUnavailable => 14 | CodeDataLoss => 15 | CodeUnauthenticated => 16
  end.
Definition code_name (c : Code) : string :=
  match c with
  | CodeOk => "Ok" | CodeCancelled => "Cancelled" | CodeUnknown => "Unknown"
  | CodeInvalidArgument => "InvalidArgument" | CodeDeadlineExceeded => "DeadlineExceeded"
  | CodeNotFound => "NotFound" | CodeAlreadyExists => "AlreadyExists" | CodePermissionDenied => "PermissionDenied"
  | CodeResourceExhausted => "ResourceExhausted" | CodeFailedPrecondition => "FailedPrecondition"
  | CodeAborted => "Aborted" | CodeOutOfRange => "OutOfRange" | CodeUnimplemented => "Unimplemented"
  | CodeInternal => "Internal" | CodeUnavailable => "Unavailable" | CodeDataLoss => "DataLoss"
  | CodeUnauthenticated => "Unauthenticated"
  end.

(** [MetadataMap]: the values of a key in the order they were added; a key without
    values is absent. *)
Definition MetadataMap : Type := gmap string (list string).

(** A [tonic::Status] with its details and metadata. *)
Record GrpcStatus := mk_GrpcStatus {
  gs_code : Code; gs_message : string; gs_details : list byte; gs_metadata : MetadataMap
}.
Definition grpc_status (code : Code) (message : string) : GrpcStatus := mk_GrpcStatus code message [] ∅.

(** ** The mapper *)

(** [MapMachinesError], with the names that were not found. *)
Inductive MapMachinesError :=
| MachinesNotFound (not_found : list string) | MapStatus (status : GrpcStatus) | MapOther (message : string).

(** [Display for MachinesNotFoundError]. *)
Definition not_found_display (not_found : list string) : string :=
  match not_found with
  | [name] => "machine not found: " +:+ name
  | names => "machines not found: " +:+ str_join ", " names
  end.

(** One machine of the store as a target. *)
Definition machine_target (machine : MachineInfo) : result MapMachinesError MachineTarget :=
  network ← expect "machine network not set" (mi_network machine);
  management_ip ← expect "machine management IP not set" (nc_management_ip network);
  address ← map_err (fun e => MapOther ("invalid management IP for machine '" +:+ mi_name machine
                                          +:+ "' in store: " +:+ address_error_display e))
              (Ip_to_addr management_ip);
  Ok (match addr_ip address with
      | V6 ip => target_from_management_address (mi_id machine) (mi_name machine) ip (addr_zone address)
      | V4 ip => target_new (mi_id machine) (mi_name machine) (ipv4_display ip)
      end).

(** The lookup by id and name: later entries replace earlier ones. *)
Definition lookup_of (targets : list MachineTarget) : gmap string MachineTarget :=
  foldl (fun lookup t => <[mt_name t := t]> (<[mt_id t := t]> lookup)) ∅ targets.

(** The loop over the requested names: the targets, the ids seen, the names not found. *)
Definition map_name (lookup : gmap string MachineTarget)
    (acc : list MachineTarget * gset string * list string) (name_or_id : string) :
    list MachineTarget * gset string * list string :=
  let '(targets, seen, not_found) := acc in
  match lookup !! name_or_id with
  | Some target =>
      if bool_decide (mt_id target ∈ seen) then acc
      else (targets ++ [target], {[ mt_id target ]} ∪ seen, not_found)
  | None => (targets, seen, not_found ++ [name_or_id])
  end.

(** [CorrosionMapper::map_machines], given what the store lists; an error of the store
    is its text. *)
Definition map_machines (store : string + list MachineInfo) (names_or_ids : list string) :
    result MapMachinesError (list MachineTarget) :=
  match names_or_ids with
  | [] => Err (MapOther "no machines specified")
  | _ =>
      match store with
      | inl error => Err (MapOther ("list machines: " +:+ error))
      | inr machines =>
          all_targets ← traverse machine_target machines;
          if existsb (fun name => bool_decide (name = "*")) names_or_ids
          then match all_targets with
               | [] => Err (MapOther "no machines in cluster")
               | _ => Ok all_targets
               end
          else
            let '(targets, _, not_found) := foldl (map_name (lookup_of all_targets)) ([], ∅, []) names_or_ids in
            match not_found with
            | [] => Ok targets
            | _ => Err (MachinesNotFound not_found)
            end
      end
  end.

(** ** Payloads *)

(** [consume_varint]: the value and the number of bytes; the error is its text. *)
Fixpoint consume_varint_from (index : nat) (value : Z) (l : list byte) : result string (Z * nat) :=
  match l with
  | [] => Err "unexpected EOF"
  | b :: l =>
      if (index <? 10)%nat then
        if (index =? 9)%nat && (1 <? u8 b) then Err "variable length integer overflow"
        else
          let value := Z.lor value (Z.shiftl (Z.land (u8 b) 127) (Z.of_nat index * 7)) in
          if u8 b <? 128 then Ok (value, S index) else consume_varint_from (S index) value l
      else Err "unexpected EOF"
  end.
Definition consume_varint (l : list byte) : result string (Z * nat) := consume_varint_from 0 0 l.

(** [encode_varint] of a [u64]: ten bytes are enough. *)
Fixpoint encode_varint_aux (fuel : nat) (value : Z) : list byte :=
  match fuel with
  | O => []
  | S fuel =>
      if 128 <=? value then byte_of (Z.lor (value mod 256) 128) :: encode_varint_aux fuel (Z.shiftr value 7)
      else [byte_of value]
  end.
Definition encode_varint (value : Z) : list byte := encode_varint_aux 10 value.

(** [Metadata]; a [google::rpc::Status] is its code, message and details. *)
Record RpcStatus := mk_RpcStatus { rpc_code : Z; rpc_message : string; rpc_details : list (list byte) }.
Record Metadata := mk_Metadata {
  md_machine_id : string; md_machine_name : string; md_machine_addr : string; md_error : string;
  md_status : option RpcStatus
}.

(** [prost]: the bytes of a [Metadata], and reading a [google::rpc::Status]. *)
Class Prost := {
  metadata_bytes : Metadata → list byte;
  decode_rpc_status : list byte → option RpcStatus
}.

(** A field that holds bytes: its key, the length, the bytes. *)
Definition bytes_entry (field : Z) (l : list byte) : list byte :=
  encode_varint (field * 8 + 2) ++ encode_varint (Z.of_nat (length l)) ++ l.
(** [encode_to_vec] of [Empty] and of [EmptyResponse] with one message. *)
Definition empty_bytes `{Prost} (metadata : Metadata) : list byte := bytes_entry 1 (metadata_bytes metadata).
Definition empty_response_bytes `{Prost} (metadata : Metadata) : list byte := bytes_entry 1 (empty_bytes metadata).

(** [machine_metadata]. *)
Definition machine_metadata (machine : MachineTarget) (error : string) (status : option RpcStatus) :
    result string Metadata :=
  if negb (mt_address_is_utf8 machine) then Err "string field contains invalid UTF-8"
  else Ok (mk_Metadata (mt_id machine) (mt_name machine) (mt_address machine) error status).

(** [append_machine_info]. *)
Definition append_machine_info `{Prost} (machine : MachineTarget) (streaming : bool) (response : list byte) :
    result string (list byte) :=
  metadata ← machine_metadata machine "" None;
  let payload := empty_bytes metadata in
  if streaming then Ok (response ++ payload)
  else
    '(tag, tag_len) ← consume_varint response;
    '(_, length_len) ← consume_varint (drop tag_len response);
    if negb (tag =? 10) then Err ("unexpected message format: " +:+ dec tag)
    else if (length response <? tag_len + length_len)%nat
    then Err ("unexpected message size: " +:+ dec (Z.of_nat (length response)))
    else
      let embedded := drop (tag_len + length_len) response in
      Ok (encode_varint 10 ++ encode_varint (Z.of_nat (length embedded + length payload)) ++ embedded ++ payload).

(** [google_status]. *)
Definition google_status `{Prost} (status : GrpcStatus) : RpcStatus :=
  let plain := mk_RpcStatus (code_number (gs_code status)) (gs_message status) [] in
  match gs_details status with
  | [] => plain
  | details => default plain (decode_rpc_status details)
  end.

(** [build_machine_error]: the error is a status or another error, by its text. *)
Definition build_machine_error `{Prost} (machine : MachineTarget) (streaming : bool) (error : string + GrpcStatus) :
    result string (list byte) :=
  let '(error_text, rpc_status) :=
    match error with
    | inr status => ("rpc error: code = " +:+ code_name (gs_code status) +:+ " desc = " +:+ gs_message status,
                     google_status status)
    | inl text => (text, mk_RpcStatus (code_number CodeUnknown) text [])
    end in
  metadata ← machine_metadata machine error_text (Some rpc_status);
  Ok (if streaming then empty_bytes metadata else empty_response_bytes metadata).

(** ** Backends *)

(** [BackendInner] without its connection: what it connects to.  Backends share it;
    [inner_id] tells it apart from others. *)
Inductive BackendKind : Set := BK_Local | BK_Remote.
Record RemoteSocket := mk_RemoteSocket { rs_ip : Z; rs_zone : list byte; rs_port : Z }.
Record BackendInner := mk_BackendInner {
  inner_id : nat; inner_kind : BackendKind; inner_target : string; inner_remote : option RemoteSocket
}.
Record ProxyBackend := mk_Backend { be_inner : BackendInner; be_machine : option MachineTarget }.

(** [Backend::local], [Backend::remote_target]. *)
Definition backend_local (id : nat) (socket_path : string) : ProxyBackend :=
  mk_Backend (mk_BackendInner id BK_Local ("unix://" +:+ socket_path) None) None.
Definition backend_remote_target (id : nat) (target : MachineTarget) (port : Z) : result GrpcStatus ProxyBackend :=
  match mt_remote_address target with
  | None => Err (grpc_status CodeInternal ("address must be a valid IPv6 address: " +:+ mt_address target))
  | Some address =>
      let zone := match ra_zone address with [] => "" | z => "%" +:+ zone_lossy z end in
      Ok (mk_Backend
            (mk_BackendInner id BK_Remote ("[" +:+ ipv6_display (ra_ip address) +:+ zone +:+ "]:" +:+ dec port)
               (Some (mk_RemoteSocket (ra_ip address) (ra_zone address) port))) None)
  end.

(** [Backend::with_machine]. *)
Definition with_machine (self : ProxyBackend) (machine : MachineTarget) : ProxyBackend := mk_Backend (be_inner self) (Some machine).

(** [tonic]'s metadata values: the text of a value that is visible ASCII, and a text
    as a value. *)
Class MetadataLib := {
  value_to_str : string → option string;
  value_try_from : string → option string
}.

(** [Backend::outgoing_metadata]. *)
Definition outgoing_metadata `{MetadataLib} (self : ProxyBackend) (incoming : MetadataMap) (authority : option string) :
    MetadataMap :=
  match inner_kind (be_inner self) with
  | BK_Remote =>
      let outgoing := delete "machines" (delete "machine" incoming) in
      let authority := default "unknown" (authority ≫= value_try_from) in
      <["proxy-authority" := [authority]]> outgoing
  | BK_Local => incoming
  end.

(** [Backend::append_info], [Backend::build_error]. *)
Definition append_info `{Prost} (self : ProxyBackend) (streaming : bool) (response : list byte) : result string (list byte) :=
  match be_machine self with
  | Some machine => append_machine_info machine streaming response
  | None => Ok response
  end.
Definition backend_build_error `{Prost} (self : ProxyBackend) (streaming : bool) (error : GrpcStatus) :
    result string (option (list byte)) :=
  match be_machine self with
  | Some machine => payload ← build_machine_error machine streaming (inr error); Ok (Some payload)
  | None => Ok None
  end.

(** [RemoteSocket::endpoint_uri]: a zone is percent-encoded. *)
Definition zone_byte_text (b : byte) : string :=
  let c := Ascii.ascii_of_byte b in
  if is_ascii_alphanumeric c || existsb (ascii_eqb c) ["-"; "."; "_"; "~"]%char then String c ""
  else "%" +:+ String (Ascii.ascii_of_N (Z.to_N (if u8 b / 16 <? 10 then 48 + u8 b / 16 else 55 + u8 b / 16)))
         (String (Ascii.ascii_of_N (Z.to_N (if u8 b mod 16 <? 10 then 48 + u8 b mod 16 else 55 + u8 b mod 16))) "").
Definition endpoint_uri (self : RemoteSocket) : string :=
  match rs_zone self with
  | [] => "http://[" +:+ ipv6_display (rs_ip self) +:+ "]:" +:+ dec (rs_port self)
  | zone => "http://[" +:+ ipv6_display (rs_ip self) +:+ "%25" +:+ String.concat "" (map zone_byte_text zone)
              +:+ "]:" +:+ dec (rs_port self)
  end.

(** [RemoteSocket::socket_addr]: the address and the scope; [if_nametoindex] is given. *)
Definition socket_addr (if_nametoindex : list byte → result string Z) (self : RemoteSocket) :
    result string (Z * Z * Z) :=
  let numeric := if utf8_valid (zone_text (rs_zone self))
                 then match parse_u 32 (of_bytes (zone_text (rs_zone self))) with Ok n => Some n | _ => None end
                 else None in
  scope ← match rs_zone self, numeric with
          | [], _ => Ok 0
          | _, Some index => Ok index
          | zone, None => if existsb (fun b => u8 b =? 0) zone then Err "invalid IPv6 zone" else if_nametoindex zone
          end;
  Ok (rs_ip self, rs_port self, scope).
