(* ===== verification/ProxyRoute.v ===== *)
(** * The API proxy: routing

    [Director] and the synchronous parts of [ProxyCall] of ployz-internal-machine-api-proxy
    (lib.rs): which backends a request goes to, the cache of remote backends, the
    deadline of a request.  What is done under one lock of the director is one function on
    its state; [route] takes the locks anew for every target, so it is also split into
    such steps, between which other calls may run. *)

From S2P Require Import Prelude RustStr NetAddr PbAddr Machine Cluster ProxyMap.

Local Open Scope Z_scope.

(** ** State *)

Definition key_repr (k : AddressKey) : (Z * list N) + string :=
  match k with KRemote ip zone => inl (ip, map Byte.to_N zone) | KText s => inr s end.
Definition key_of_repr (r : (Z * list N) + string) : option AddressKey :=
  match r with
  | inl (ip, zone) => KRemote ip <$> mapM Byte.of_N zone
  | inr s => Some (KText s)
  end.
Lemma key_repr_of k : key_of_repr (key_repr k) = Some k.
Proof.
  destruct k as [ip zone|s]; [|done]. simpl. apply fmap_Some. exists zone. split; [|done].
  apply mapM_Some_2, Forall2_fmap_l, Forall_Forall2_diag, Forall_forall. intros b _. apply Byte.of_to_N.
Qed.
#[export] Instance AddressKey_countable : Countable AddressKey := inj_countable _ _ key_repr_of.

(** [Director].  [dir_closed] holds the backends whose [close] was called and
    [dir_next] names the next backend: both belong to the shared [BackendInner]s. *)
Record Director := mk_Director {
  dir_local_backend : ProxyBackend;
  dir_remote_port : Z;
  dir_remote_backends : gmap AddressKey ProxyBackend;
  dir_local_address : option string;
  dir_closed : gset nat;
  dir_next : nat
}.

(** [Director::new]. *)
Definition director_new (local_socket_path : string) (remote_port : Z) : Director :=
  mk_Director (backend_local 0 local_socket_path) remote_port ∅ None ∅ 1.

(** [Director::update_local_address]. *)
Definition update_local_address (address : string) (self : Director) : Director :=
  mk_Director (dir_local_backend self) (dir_remote_port self) (dir_remote_backends self) (Some address)
    (dir_closed self) (dir_next self).

(** [Mode], [Route]. *)
Inductive Mode : Set := OneToOne | OneToMany.
Record Route := mk_Route { rt_mode : Mode; rt_backends : list ProxyBackend }.

(** [Director::local_route]. *)
Definition local_route (self : Director) : Route := mk_Route OneToOne [dir_local_backend self].

(** [Director::backend_for] in its two sections: the comparison under the lock of the local
    address, and the cache under its own. *)
Definition is_local_target (self : Director) (target : MachineTarget) : bool :=
  bool_decide (dir_local_address self = Some (mt_address target)).
Definition cached_backend (self : Director) (target : MachineTarget) : Director * result GrpcStatus ProxyBackend :=
  let key := address_key target in
  match dir_remote_backends self !! key with
  | Some backend => (self, Ok backend)
  | None =>
      match backend_remote_target (dir_next self) target (dir_remote_port self) with
      | Ok backend =>
          (mk_Director (dir_local_backend self) (dir_remote_port self)
             (<[key := backend]> (dir_remote_backends self)) (dir_local_address self)
             (dir_closed self) (S (dir_next self)), Ok backend)
      | Err e => (self, Err e)
      | Panic m => (self, Panic m)
      end
  end.
(** [Director::backend_for] that nothing interrupts. *)
Definition backend_for (self : Director) (target : MachineTarget) : Director * result GrpcStatus ProxyBackend :=
  if is_local_target self target then (self, Ok (dir_local_backend self)) else cached_backend self target.

(** The loop of [route] over the targets of a broadcast. *)
Fixpoint backends_for (self : Director) (targets : list MachineTarget) : Director * result GrpcStatus (list ProxyBackend) :=
  match targets with
  | [] => (self, Ok [])
  | target :: targets =>
      match backend_for self target with
      | (self, Ok backend) =>
          let '(self, r) := backends_for self targets in
          (self, cons (with_machine backend target) <$> r)
      | (self, Err e) => (self, Err e)
      | (self, Panic m) => (self, Panic m)
      end
  end.

(** [Director::flush_remote_backends], under the lock of the cache, and [Director::close],
    which is the close of the local backend and then a flush. *)
Definition flush_remote_backends (self : Director) : Director :=
  mk_Director (dir_local_backend self) (dir_remote_port self) ∅ (dir_local_address self)
    (list_to_set (inner_id ∘ be_inner <$> (map_to_list (dir_remote_backends self)).*2) ∪ dir_closed self)
    (dir_next self).
Definition close_local_backend (self : Director) : Director :=
  mk_Director (dir_local_backend self) (dir_remote_port self) (dir_remote_backends self) (dir_local_address self)
    ({[ inner_id (be_inner (dir_local_backend self)) ]} ∪ dir_closed self) (dir_next self).
Definition director_close (self : Director) : Director := flush_remote_backends (close_local_backend self).

(** ** Routing *)

(** [metadata_values]. *)
Definition metadata_values `{MetadataLib} (metadata : MetadataMap) (key : string) : option (list string) :=
  map (fun value => default "" (value_to_str value)) <$> metadata !! key.

(** [map_resolution_error]. *)
Definition map_resolution_error (error : MapMachinesError) : GrpcStatus :=
  match error with
  | MachinesNotFound names => grpc_status CodeInvalidArgument (not_found_display names)
  | MapStatus status => status
  | MapOther message => grpc_status CodeInternal ("failed to resolve machines: " +:+ message)
  end.

(** [Director::route] up to its first [backend_for]: the answer, or the targets that are
    still to be given backends; the mapper is the trait's [map_machines]. *)
Inductive RoutePlan := RP_Answer (r : result GrpcStatus Route) | RP_One (target : MachineTarget)
  | RP_Many (targets : list MachineTarget).
Definition route_plan `{MetadataLib} (mapper : list string → result MapMachinesError (list MachineTarget))
    (self : Director) (metadata : MetadataMap) : RoutePlan :=
  if bool_decide (is_Some (metadata !! "proxy-authority")) then RP_Answer (Ok (local_route self))
  else
    let machines := metadata_values metadata "machines" in
    match metadata_values metadata "machine", machines with
    | None, None => RP_Answer (Ok (local_route self))
    | Some machine, _ =>
        if negb (length machine =? 1)%nat
        then RP_Answer (Err (grpc_status CodeInvalidArgument "proxy metadata 'machine' must have exactly one value"))
        else if bool_decide (is_Some machines)
        then RP_Answer (Err (grpc_status CodeInvalidArgument "both 'machine' and 'machines' proxy metadata are set"))
        else match map_err map_resolution_error (mapper machine) with
             | Ok (target :: _) => RP_One target
             | Ok [] => RP_Answer (Panic "mapper returned no targets")
             | Err e => RP_Answer (Err e)
             | Panic m => RP_Answer (Panic m)
             end
    | None, Some machines =>
        match machines with
        | [] => RP_Answer (Err (grpc_status CodeInvalidArgument "proxy metadata 'machines' is empty"))
        | _ =>
            match map_err map_resolution_error (mapper machines) with
            | Ok targets => RP_Many targets
            | Err e => RP_Answer (Err e)
            | Panic m => RP_Answer (Panic m)
            end
        end
    end.

(** [Director::route] that nothing interrupts. *)
Definition route `{MetadataLib} (mapper : list string → result MapMachinesError (list MachineTarget))
    (self : Director) (metadata : MetadataMap) : Director * result GrpcStatus Route :=
  match route_plan mapper self metadata with
  | RP_Answer r => (self, r)
  | RP_One target =>
      let '(self, backend) := backend_for self target in
      (self, backend ← backend; Ok (mk_Route OneToOne [backend]))
  | RP_Many targets =>
      let '(self, backends) := backends_for self targets in
      (self, backends ← backends; Ok (mk_Route OneToMany backends))
  end.

(** A call of [route] between its locks: about to compare a target with the local address,
    about to look it up in the cache, with the targets that come after it and the backends
    found so far; or returned. *)
Inductive RouteState :=
| RS_Comparing (mode : Mode) (found : list ProxyBackend) (target : MachineTarget) (targets : list MachineTarget)
| RS_Looking (mode : Mode) (found : list ProxyBackend) (target : MachineTarget) (targets : list MachineTarget)
| RS_Returned (r : result GrpcStatus Route).

(** After the plan. *)
Definition route_start (plan : RoutePlan) : RouteState :=
  match plan with
  | RP_Answer r => RS_Returned r
  | RP_One target => RS_Comparing OneToOne [] target []
  | RP_Many [] => RS_Returned (Ok (mk_Route OneToMany []))
  | RP_Many (target :: targets) => RS_Comparing OneToMany [] target targets
  end.

(** After the backend of a target. *)
Definition route_next (mode : Mode) (found : list ProxyBackend) (target : MachineTarget) (targets : list MachineTarget)
    (backend : result GrpcStatus ProxyBackend) : RouteState :=
  match backend with
  | Ok backend =>
      match mode with
      | OneToOne => RS_Returned (Ok (mk_Route OneToOne [backend]))
      | OneToMany =>
          let found := found ++ [with_machine backend target] in
          match targets with
          | [] => RS_Returned (Ok (mk_Route OneToMany found))
          | target :: targets => RS_Comparing OneToMany found target targets
          end
      end
  | Err e => RS_Returned (Err e)
  | Panic m => RS_Returned (Panic m)
  end.

(** A call of [route] takes its next lock. *)
Definition route_advance (self : Director) (state : RouteState) : Director * RouteState :=
  match state with
  | RS_Comparing mode found target targets =>
      (self, if is_local_target self target then route_next mode found target targets (Ok (dir_local_backend self))
             else RS_Looking mode found target targets)
  | RS_Looking mode found target targets =>
      let '(self, backend) := cached_backend self target in (self, route_next mode found target targets backend)
  | RS_Returned r => (self, RS_Returned r)
  end.

(** ** Deadlines *)

Definition I64_MAX : Z := 2 ^ 63 - 1.
(** The longest [Duration]. *)
Definition DURATION_MAX : Z := (2 ^ 64 - 1) * 1000000000 + 999999999.

(** The unit of a timeout in nanoseconds. *)
Definition timeout_unit (c : ascii) : option Z :=
  if ascii_eqb c "H" then Some (3600 * 1000000000)
  else if ascii_eqb c "M" then Some (60 * 1000000000)
  else if ascii_eqb c "S" then Some 1000000000
  else if ascii_eqb c "m" then Some 1000000
  else if ascii_eqb c "u" then Some 1000
  else if ascii_eqb c "n" then Some 1
  else None.

(** [str::split_at] one byte before the end. *)
Definition split_last (value : string) : string * string :=
  (str_take (str_len value - 1) value, str_drop (str_len value - 1) value).

(** [parse_grpc_timeout], in nanoseconds; [split_at] panics inside a character. *)
Definition parse_grpc_timeout `{UnicodeLib} (value : string) : result string Z :=
  if (str_len value <? 2)%nat then Err ("transport: timeout string is too short: " +:+ str_debug value)
  else if (9 <? str_len value)%nat then Err ("transport: timeout string is too long: " +:+ str_debug value)
  else
    let '(digits, unit) := split_last value in
    match bytes unit with
    | [] => Panic "index out of bounds"
    | c :: _ =>
        if continuation c then Panic "byte index is not a char boundary"
        else
          match timeout_unit c with
          | None => Err ("transport: timeout unit is not recognized: " +:+ str_debug value)
          | Some multiplier =>
              if negb (forallb is_ascii_digit (bytes digits))
              then Err ("strconv.ParseUint: parsing " +:+ str_debug digits +:+ ": invalid syntax")
              else
                match parse_u 32 digits with
                | Ok amount => Ok (Z.min (Z.min DURATION_MAX (multiplier * amount)) I64_MAX)
                | _ => Panic "at most eight decimal digits fit in u32"
                end
          end
    end.

(** [parse_ingress_deadline] of the header's bytes at the clock reading [now]:
    [instant_max] is the clock's last instant, beyond which there is no deadline. *)
Definition parse_ingress_deadline `{UnicodeLib} `{MetadataLib} (now instant_max : Z) (value : option string) :
    result GrpcStatus (option Z) :=
  match value with
  | None => Ok None
  | Some value =>
      match value_to_str value with
      | None => Err (grpc_status CodeInternal ("malformed grpc-timeout: " +:+ of_bytes (from_utf8_lossy (bytes value))))
      | Some text =>
          duration ← map_err (fun error => grpc_status CodeInternal ("malformed grpc-timeout: " +:+ error))
                       (parse_grpc_timeout text);
          Ok (if now + duration <=? instant_max then Some (now + duration) else None)
      end
  end.

Definition deadline_exceeded : GrpcStatus := grpc_status CodeDeadlineExceeded "context deadline exceeded".

(** [before_deadline]: [expired] says that the timer fired before the future was
    ready. *)
Definition before_deadline {T} (expired : bool) (output : T) (deadline : option Z) : result GrpcStatus T :=
  match deadline with
  | Some _ => if expired then Err deadline_exceeded else Ok output
  | None => Ok output
  end.

(** [ProxyCall::outgoing_request]: the metadata of the request to a backend;
    [set_timeout] is tonic's text of a timeout. *)
Definition outgoing_request `{MetadataLib} (set_timeout : Z → string) (now : Z) (authority : option string)
    (backend : ProxyBackend) (incoming_metadata : MetadataMap) (deadline : option Z) : result GrpcStatus MetadataMap :=
  let metadata := outgoing_metadata backend incoming_metadata authority in
  match deadline with
  | Some deadline =>
      let remaining := Z.max 0 (deadline - now) in
      if remaining =? 0 then Err deadline_exceeded
      else Ok (<["grpc-timeout" := [set_timeout remaining]]> metadata)
  | None => Ok metadata
  end.
