(* ===== verification/ProxyRouteProps.v ===== *)
(** * The API proxy: where requests go

    The mapper finds exactly the machines that were named; the director sends a request
    to the machines' own addresses over connections that were open since the request
    began, in every interleaving of its calls; a forwarded request is not forwarded again; timeouts are read exactly and never overflow. *)

From S2P Require Import Prelude RustStr NetAddr Time TimeProps StoreTime PbAddr Machine Cluster ProxyMap ProxyRoute.

Local Open Scope Z_scope.

(** ** The mapper *)

(** The machine a name stands for: the last one of the store with that id or name. *)
Definition named (name : string) (t : MachineTarget) : bool :=
  bool_decide (mt_id t = name) || bool_decide (mt_name t = name).
Definition resolve (all : list MachineTarget) (name : string) : option MachineTarget := List.find (named name) (rev all).

(** The first target of every id. *)
Fixpoint first_by_id (seen : list string) (l : list MachineTarget) : list MachineTarget :=
  match l with
  | [] => []
  | t :: l => if bool_decide (mt_id t ∈ seen) then first_by_id seen l else t :: first_by_id (mt_id t :: seen) l
  end.

Lemma lookup_of_resolve all name : lookup_of all !! name = resolve all name.
Proof.
  unfold resolve. induction all as [|t all IH] using rev_ind; [done|]. unfold lookup_of in *.
  rewrite foldl_snoc, rev_app_distr. cbn [rev app List.find]. unfold named at 1.
  destruct (decide (mt_name t = name)) as [<-|Hn].
  { rewrite lookup_insert_eq. rewrite (bool_decide_eq_true_2 (mt_name t = mt_name t)) by done. by rewrite orb_true_r. }
  rewrite lookup_insert_ne by done. destruct (decide (mt_id t = name)) as [<-|Hi].
  { rewrite lookup_insert_eq. by rewrite (bool_decide_eq_true_2 (mt_id t = mt_id t)) by done. }
  rewrite lookup_insert_ne by done. by rewrite !bool_decide_eq_false_2.
Qed.

Lemma map_names lookup names targets seen seen' missing : (∀ id, id ∈ seen ↔ id ∈ seen') →
  ∃ s, foldl (map_name lookup) (targets, seen, missing) names
       = (targets ++ first_by_id seen' (omap (lookup !!.) names), s,
          missing ++ filter (fun n => lookup !! n = None) names).
Proof.
  revert targets seen seen' missing. induction names as [|n names IH]; intros targets seen seen' missing Hseen.
  { exists seen. simpl. by rewrite !app_nil_r. }
  cbn [foldl map_name]. destruct (lookup !! n) as [t|] eqn:E.
  - rewrite filter_cons_False by congruence. cbn [omap list_omap]. rewrite E. cbn [first_by_id].
    rewrite (bool_decide_ext _ _ (Hseen (mt_id t))). case_bool_decide.
    + by apply IH.
    + destruct (IH (targets ++ [t]) ({[mt_id t]} ∪ seen) (mt_id t :: seen') missing) as (s & ->).
      { intros id. rewrite elem_of_union, elem_of_singleton, elem_of_cons, Hseen. done. }
      exists s. by rewrite <-app_assoc.
  - rewrite filter_cons_True by done. cbn [omap list_omap]. rewrite E.
    destruct (IH targets seen seen' (missing ++ [n]) Hseen) as (s & ->). exists s. by rewrite <-app_assoc.
Qed.

Lemma first_by_id_spec seen l :
  NoDup (mt_id <$> first_by_id seen l) ∧ (∀ t, t ∈ first_by_id seen l → t ∈ l ∧ mt_id t ∉ seen) ∧
  (∀ t, t ∈ l → mt_id t ∉ seen → mt_id t ∈ mt_id <$> first_by_id seen l).
Proof.
  revert seen. induction l as [|t l IH]; intros seen; cbn [first_by_id]; [split_and!; [constructor|set_solver..]|].
  case_bool_decide as Hs.
  - destruct (IH seen) as (H1 & H2 & H3). split_and!; [done|set_solver|].
    intros t' [->|?]%elem_of_cons ?; [done|]. by apply H3.
  - destruct (IH (mt_id t :: seen)) as (H1 & H2 & H3). split_and!.
    + rewrite fmap_cons. constructor; [|done]. intros (t' & Hid & Ht')%list_elem_of_fmap.
      apply H2 in Ht' as [_ Hn]. rewrite <-Hid in Hn. set_solver.
    + intros t' [->|Ht']%elem_of_cons; [set_solver|]. apply H2 in Ht' as [? ?]. set_solver.
    + intros t' Ht' Hn. rewrite fmap_cons. destruct (decide (mt_id t' = mt_id t)) as [->|]; [set_solver|].
      apply elem_of_cons in Ht' as [->|Ht']; [set_solver|]. apply elem_of_cons. right. apply H3; set_solver.
Qed.

(** the mapper finds exactly the machines that are named.  With a star it returns
    all of them; else it fails naming exactly the names that are neither the id nor
    the name of a machine, in order, or returns the machines the names stand for, each
    once, in the order they are first named. *)
Theorem map_machines_exact machines all names :
  traverse machine_target machines = Ok all → names ≠ [] →
  (("*" : string) ∈ names →
     map_machines (inr machines) names = match all with [] => Err (MapOther "no machines in cluster") | _ => Ok all end) ∧
  (("*" : string) ∉ names → Exists (fun n => resolve all n = None) names →
     map_machines (inr machines) names = Err (MachinesNotFound (filter (fun n => resolve all n = None) names))) ∧
  (("*" : string) ∉ names → Forall (fun n => is_Some (resolve all n)) names →
     ∃ targets, map_machines (inr machines) names = Ok targets ∧
       targets = first_by_id [] (omap (resolve all) names) ∧
       NoDup (mt_id <$> targets) ∧ Forall (fun t => ∃ n, n ∈ names ∧ resolve all n = Some t) targets ∧
       Forall (fun n => ∃ t, resolve all n = Some t ∧ mt_id t ∈ mt_id <$> targets) names).
Proof.
  intros Hall Hne. unfold map_machines. rewrite Hall. cbn [mbind result_bind].
  destruct names as [|n0 names0]; [done|]. remember (n0 :: names0) as names eqn:En. clear En Hne n0 names0.
  assert (existsb (fun name => bool_decide (name = "*")) names = bool_decide (("*" : string) ∈ names)) as ->.
  { apply eq_true_iff_eq. rewrite existsb_exists, bool_decide_eq_true. setoid_rewrite bool_decide_eq_true.
    split; [intros (x & Hx & ->); by apply list_elem_of_In|intros H; exists "*"; by rewrite <-list_elem_of_In]. }
  destruct (map_names (lookup_of all) names [] ∅ [] [] ltac:(set_solver)) as (s & E).
  assert (omap (lookup_of all !!.) names = omap (resolve all) names) as Eo.
  { apply list_omap_ext, Forall_Forall2_diag, Forall_true. intros n. apply lookup_of_resolve. }
  assert (filter (fun n => lookup_of all !! n = None) names = filter (fun n => resolve all n = None) names) as Ef.
  { apply list_filter_iff. intros n. by rewrite lookup_of_resolve. }
  rewrite Eo, Ef in E. cbn [app] in E.
  split_and!; intros Hstar; [by rewrite bool_decide_eq_true_2|rewrite bool_decide_eq_false_2, E by done..].
  - intros (n & Hn & Hr)%Exists_exists. case_match eqn:Ec; [|done].
    exfalso. assert (n ∈ filter (fun n => resolve all n = None) names) as Hin by (by apply list_elem_of_filter).
    rewrite Ec in Hin. set_solver.
  - intros Hr. assert (filter (fun n => resolve all n = None) names = []) as ->.
    { destruct (filter _ names) as [|n l] eqn:Ec; [done|]. exfalso.
      assert (n ∈ filter (fun n => resolve all n = None) names) as [Hn Hin]%list_elem_of_filter by (rewrite Ec; set_solver).
      rewrite Forall_forall in Hr. destruct (Hr n Hin) as [t Ht]. congruence. }
    destruct (first_by_id_spec [] (omap (resolve all) names)) as (H1 & H2 & H3).
    eexists. split; [done|]. split; [done|]. split_and!; [done|..]; apply Forall_forall.
    + intros t Ht. apply H2 in Ht as [(n & Hn & Hr')%list_elem_of_omap _]. by exists n.
    + intros n Hn. rewrite Forall_forall in Hr. destruct (Hr n Hn) as [t Ht]. exists t. split; [done|].
      apply H3; [|set_solver]. apply list_elem_of_omap. by exists n.
Qed.

(** ** The director and the calls of [route] *)

(** What a cached backend is: a remote one for the address of its key, not closed. *)
Definition cached_ok (d : Director) (key : AddressKey) (b : ProxyBackend) : Prop :=
  be_machine b = None ∧ inner_kind (be_inner b) = BK_Remote ∧
  (∃ ip zone, key = KRemote ip zone ∧ inner_remote (be_inner b) = Some (mk_RemoteSocket ip zone (dir_remote_port d))) ∧
  (0 < inner_id (be_inner b) < dir_next d)%nat ∧ inner_id (be_inner b) ∉ dir_closed d.

(** The invariant of a director; [closed] says whether its local backend was closed. *)
Record director_inv (path : string) (port : Z) (closed : bool) (d : Director) : Prop := {
  di_local : dir_local_backend d = backend_local 0 path;
  di_port : dir_remote_port d = port;
  di_cached key b : dir_remote_backends d !! key = Some b → cached_ok d key b;
  di_distinct k1 k2 b1 b2 : dir_remote_backends d !! k1 = Some b1 → dir_remote_backends d !! k2 = Some b2 →
    inner_id (be_inner b1) = inner_id (be_inner b2) → k1 = k2;
  di_closed id : id ∈ dir_closed d → (id < dir_next d)%nat;
  di_local_closed : 0%nat ∈ dir_closed d ↔ closed = true;
  di_next : (0 < dir_next d)%nat
}.

Lemma director_new_inv path port : director_inv path port false (director_new path port).
Proof. split; [done|done|..]; intros; simplify_map_eq; set_solver || (cbn; lia). Qed.

Lemma update_inv path port closed address d :
  director_inv path port closed d → director_inv path port closed (update_local_address address d).
Proof. by intros [H1 H2 H3 H4 H5 H6 H7]; split. Qed.

(** The ids that a flush closes. *)
Definition cached_ids (d : Director) : gset nat :=
  list_to_set (inner_id ∘ be_inner <$> (map_to_list (dir_remote_backends d)).*2).
Lemma elem_of_cached_ids d id :
  id ∈ cached_ids d ↔ ∃ key b, dir_remote_backends d !! key = Some b ∧ id = inner_id (be_inner b).
Proof.
  unfold cached_ids. rewrite elem_of_list_to_set, list_elem_of_fmap. split.
  - intros (b & -> & Hb). apply list_elem_of_fmap in Hb as ([k b'] & -> & Hk%elem_of_map_to_list). by exists k, b'.
  - intros (k & b & Hb & ->). exists b. split; [done|]. apply list_elem_of_fmap. exists (k, b).
    by rewrite elem_of_map_to_list.
Qed.

Lemma flush_inv path port closed d :
  director_inv path port closed d → director_inv path port closed (flush_remote_backends d).
Proof.
  intros [H1 H2 H3 H4 H5 H6 H7].
  assert (∀ id, id ∈ cached_ids d → (0 < id < dir_next d)%nat) as Hids.
  { intros id (key & b & Hb & ->)%elem_of_cached_ids. by apply (H3 key b). }
  split; cbn; [done|done|..|done].
  - intros key b Hb. by rewrite lookup_empty in Hb.
  - intros k1 k2 b1 b2 Hb1. by rewrite lookup_empty in Hb1.
  - intros id [Hid%Hids|Hid]%elem_of_union; [lia|by apply H5].
  - rewrite elem_of_union, H6. split; [|by auto]. intros [Hid%Hids|Hid]; [lia|done].
Qed.

Lemma close_local_inv path port closed d :
  director_inv path port closed d → director_inv path port true (close_local_backend d).
Proof.
  intros [H1 H2 H3 H4 H5 H6 H7]. unfold close_local_backend. rewrite H1. split; cbn; [done|done| |done| | |done].
  - intros key b Hb. destruct (H3 key b Hb) as (C1 & C2 & C3 & C4 & C5). unfold cached_ok. cbn.
    split_and!; [done..|lia|lia|]. rewrite elem_of_union, elem_of_singleton. intros [?|?]; [lia|done].
  - intros id [->%elem_of_singleton|Hid%H5]%elem_of_union; [done|done].
  - split; [done|]. intros _. set_solver.
Qed.

(** What a lookup in the cache keeps. *)
Definition extends (d d' : Director) : Prop :=
  dir_local_backend d' = dir_local_backend d ∧ dir_remote_port d' = dir_remote_port d ∧
  dir_local_address d' = dir_local_address d ∧ dir_closed d' = dir_closed d ∧
  dir_remote_backends d ⊆ dir_remote_backends d'.

(** A backend in the cache, and the address and port of a target. *)
Definition cached (d : Director) (t : MachineTarget) (b : ProxyBackend) : Prop :=
  ∃ b', dir_remote_backends d !! address_key t = Some b' ∧ be_inner b' = be_inner b.
Definition leads_to (d : Director) (t : MachineTarget) (b : ProxyBackend) : Prop :=
  inner_kind (be_inner b) = BK_Remote ∧
  ∃ a, mt_remote_address t = Some a ∧
    inner_remote (be_inner b) = Some (mk_RemoteSocket (ra_ip a) (ra_zone a) (dir_remote_port d)).
Definition is_closed (d : Director) (b : ProxyBackend) : Prop := inner_id (be_inner b) ∈ dir_closed d.

(** The error of a target whose address is not an IPv6 address. *)
Definition not_ipv6 (t : MachineTarget) : GrpcStatus :=
  grpc_status CodeInternal ("address must be a valid IPv6 address: " +:+ mt_address t).

Lemma cached_backend_spec path port closed d t : director_inv path port closed d →
  match cached_backend d t with
  | (d', Ok b) => director_inv path port closed d' ∧ extends d d' ∧ be_machine b = None ∧
      leads_to d' t b ∧ ¬ is_closed d' b ∧ cached d' t b
  | (d', Err e) => d' = d ∧ e = not_ipv6 t ∧ mt_remote_address t = None
  | (_, Panic _) => False
  end.
Proof.
  intros Hinv. pose proof Hinv as [H1 H2 H3 H4 H5 H6 H7]. unfold cached_backend.
  destruct (dir_remote_backends d !! address_key t) as [b|] eqn:Ec.
  - destruct (H3 _ _ Ec) as (C1 & C2 & (ip & zone & Ek & Es) & C4 & C5).
    split_and!; [done|by unfold extends|done| |done|by exists b]. split; [done|].
    unfold address_key in Ek. destruct (mt_remote_address t) as [a|]; [|done]. exists a. by simplify_eq/=.
  - unfold backend_remote_target. destruct (mt_remote_address t) as [a|] eqn:Ea; [|done].
    assert (address_key t = KRemote (ra_ip a) (ra_zone a)) as Ek by (unfold address_key; by rewrite Ea).
    set (b := mk_Backend _ None).
    split_and!; [| |done| | |].
    + split; cbn [dir_local_backend dir_remote_port dir_remote_backends dir_closed dir_next]; [done|done|..].
      * intros key b' [[<- <-]|[Hk Hb]]%lookup_insert_Some.
        { unfold cached_ok. cbn. split_and!; [done|done|by exists (ra_ip a), (ra_zone a)|lia|lia|].
          intros Hid%H5. lia. }
        destruct (H3 _ _ Hb) as (C1 & C2 & C3 & C4 & C5). unfold cached_ok. cbn. split_and!; [done|done|exact C3|lia|lia|done].
      * intros k1 k2 b1 b2 [[<- <-]|[Hk1 Hb1]]%lookup_insert_Some [[<- <-]|[Hk2 Hb2]]%lookup_insert_Some Hid; [done|..].
        -- destruct (H3 _ _ Hb2) as (_ & _ & _ & C4 & _). cbn in Hid. lia.
        -- destruct (H3 _ _ Hb1) as (_ & _ & _ & C4 & _). cbn in Hid. lia.
        -- by eapply H4.
      * intros id Hid%H5. lia.
      * done.
      * lia.
    + unfold extends. cbn. split_and!; try done. by apply insert_subseteq.
    + split; [done|]. by exists a.
    + intros Hid%H5. cbn in Hid. lia.
    + exists b. split; [apply lookup_insert_eq|done].
Qed.

Section routing.
Context `{MetadataLib}.

(** A call of [route] and its state; and, for what it promises, the local addresses there
    were since it began and whether the cache was flushed since then. *)
Record RouteCall := mk_RouteCall {
  rc_metadata : MetadataMap;
  rc_mapper : list string → result MapMachinesError (list MachineTarget);
  rc_state : RouteState;
  rc_seen : gset (option string);
  rc_flushed : bool
}.
(** A director with the calls of [route] that have begun, those that have returned too, and
    whether [Director::close] was called. *)
Record Router := mk_Router { ro_director : Director; ro_calls : gmap nat RouteCall; ro_closed : bool }.

Definition router_new (path : string) (port : Z) : Router := mk_Router (director_new path port) ∅ false.
Definition call_begin (mapper : list string → result MapMachinesError (list MachineTarget)) (metadata : MetadataMap)
    (d : Director) : RouteCall :=
  mk_RouteCall metadata mapper (route_start (route_plan mapper d metadata)) {[ dir_local_address d ]} false.
Definition call_to (state : RouteState) (call : RouteCall) : RouteCall :=
  mk_RouteCall (rc_metadata call) (rc_mapper call) state (rc_seen call) (rc_flushed call).
Definition call_sees (address : string) (call : RouteCall) : RouteCall :=
  mk_RouteCall (rc_metadata call) (rc_mapper call) (rc_state call) ({[ Some address ]} ∪ rc_seen call) (rc_flushed call).
Definition call_flushed (call : RouteCall) : RouteCall :=
  mk_RouteCall (rc_metadata call) (rc_mapper call) (rc_state call) (rc_seen call) true.

(** The steps, in any order: a call begins, with whatever the mapper answers it; a call takes
    its next lock; the local address changes; the cache is flushed; and [Director::close],
    which closes the local backend and then flushes. *)
Inductive route_step : Router → Router → Prop :=
| rstep_begin s id mapper metadata : ro_calls s !! id = None →
    route_step s (mk_Router (ro_director s) (<[id := call_begin mapper metadata (ro_director s)]> (ro_calls s)) (ro_closed s))
| rstep_advance s id call d state : ro_calls s !! id = Some call →
    route_advance (ro_director s) (rc_state call) = (d, state) →
    route_step s (mk_Router d (<[id := call_to state call]> (ro_calls s)) (ro_closed s))
| rstep_update s address :
    route_step s (mk_Router (update_local_address address (ro_director s)) (call_sees address <$> ro_calls s) (ro_closed s))
| rstep_flush s :
    route_step s (mk_Router (flush_remote_backends (ro_director s)) (call_flushed <$> ro_calls s) (ro_closed s))
| rstep_close_local s :
    route_step s (mk_Router (close_local_backend (ro_director s)) (ro_calls s) true).

(** The names a request asks for, one or many. *)
Definition requested (metadata : MetadataMap) : option (Mode * list string) :=
  if bool_decide (is_Some (metadata !! "proxy-authority")) then None
  else match metadata_values metadata "machine", metadata_values metadata "machines" with
       | None, None => None
       | Some names, _ => Some (OneToOne, names)
       | None, Some names => Some (OneToMany, names)
       end.

(** A backend that a call has for a target: the local one, if the target had the local address
    at some moment since the call began; else a remote one that leads to the target, which
    did not have the local address at some moment since then, and which is the cached one
    unless it was closed by a flush since then. *)
Inductive serves_since (d : Director) (seen : gset (option string)) (flushed : bool) (t : MachineTarget)
    (b : ProxyBackend) : Prop :=
| serves_local : be_inner b = be_inner (dir_local_backend d) → Some (mt_address t) ∈ seen → serves_since d seen flushed t b
| serves_remote : leads_to d t b → (∃ address, address ∈ seen ∧ address ≠ Some (mt_address t)) →
    (is_closed d b ∧ flushed = true ∨ ¬ is_closed d b ∧ cached d t b) → serves_since d seen flushed t b.
Definition serves (d : Director) (call : RouteCall) : MachineTarget → ProxyBackend → Prop :=
  serves_since d (rc_seen call) (rc_flushed call).

(** The backends of a route for the targets of its request. *)
Definition routed (mode : Mode) (targets : list MachineTarget) (d : Director) (call : RouteCall)
    (backends : list ProxyBackend) : Prop :=
  match mode with
  | OneToOne => ∃ t ts b, targets = t :: ts ∧ backends = [b] ∧ be_machine b = None ∧ serves d call t b
  | OneToMany => Forall2 (fun t b => be_machine b = Some t ∧ serves d call t b) targets backends
  end.
Definition returned (d : Director) (call : RouteCall) (r : Route) : Prop :=
  match requested (rc_metadata call) with
  | None => r = local_route d
  | Some (mode, names) =>
      rt_mode r = mode ∧ ∃ targets, rc_mapper call names = Ok targets ∧ routed mode targets d call (rt_backends r)
  end.

(** The invariant of a call. *)
Definition in_progress (d : Director) (call : RouteCall) (mode : Mode) (found : list ProxyBackend) (t : MachineTarget)
    (ts : list MachineTarget) : Prop :=
  ∃ names targets, requested (rc_metadata call) = Some (mode, names) ∧ rc_mapper call names = Ok targets ∧
    match mode with
    | OneToOne => ∃ ts', targets = t :: ts'
    | OneToMany => ∃ before, targets = before ++ t :: ts ∧ routed OneToMany before d call found
    end.
Definition call_ok (d : Director) (call : RouteCall) : Prop :=
  match rc_state call with
  | RS_Comparing mode found t ts => in_progress d call mode found t ts
  | RS_Looking mode found t ts =>
      in_progress d call mode found t ts ∧ ∃ seen, seen ∈ rc_seen call ∧ seen ≠ Some (mt_address t)
  | RS_Returned (Ok r) => returned d call r
  | RS_Returned _ => True
  end.
Record router_inv (path : string) (port : Z) (s : Router) : Prop := {
  ri_director : director_inv path port (ro_closed s) (ro_director s);
  ri_calls : map_Forall (fun _ call => dir_local_address (ro_director s) ∈ rc_seen call ∧ call_ok (ro_director s) call)
               (ro_calls s)
}.

(** A step of another keeps a call's promises when it keeps what the backends serve. *)
Lemma call_ok_mono d d' call call' :
  (∀ t b, serves d call t b → serves d' call' t b) → dir_local_backend d' = dir_local_backend d →
  rc_metadata call' = rc_metadata call → rc_mapper call' = rc_mapper call → rc_state call' = rc_state call →
  rc_seen call ⊆ rc_seen call' → call_ok d call → call_ok d' call'.
Proof.
  intros Hs Hl E1 E2 E3 Hseen.
  assert (∀ targets bs, routed OneToMany targets d call bs → routed OneToMany targets d' call' bs) as Hmany.
  { intros targets bs Hf. eapply Forall2_impl; [exact Hf|]. naive_solver. }
  assert (∀ mode found t ts, in_progress d call mode found t ts → in_progress d' call' mode found t ts) as Hprog.
  { intros mode found t ts (names & targets & Hr & Hm & Ht). exists names, targets. rewrite E1, E2. split_and!; [done..|].
    destruct mode; [done|]. destruct Ht as (before & -> & Hf). exists before. eauto. }
  unfold call_ok. rewrite E3. destruct (rc_state call) as [mode found t ts|mode found t ts|[r| |]]; [auto| |..|done|done].
  - intros [Hp (seen & Hin & Hne)]. split; [auto|]. exists seen. split; [by apply Hseen|done].
  - unfold returned. rewrite E1, E2. destruct (requested (rc_metadata call)) as [[mode names]|].
    2: { intros ->. unfold local_route. by rewrite Hl. }
    intros (Hmode & targets & Hm & Hf). split; [done|]. exists targets. split; [done|].
    destruct mode; [|by apply Hmany]. destruct Hf as (t & ts & b & -> & -> & Hb & Hv). exists t, ts, b. auto.
Qed.

Lemma extends_serves d d' call t b : extends d d' → serves d call t b → serves d' call t b.
Proof.
  intros (E1 & E2 & E3 & E4 & E5) [Hb Hin|[Hk (a & Ha & Hr)] Hseen Hc].
  - apply serves_local; [by rewrite E1|done].
  - apply serves_remote; [|done|].
    + split; [done|]. exists a. by rewrite E2.
    + unfold is_closed in *. rewrite E4. destruct Hc as [?|[? (b' & Hb' & ?)]]; [by left|right]. split; [done|].
      exists b'. split; [by eapply lookup_weaken|done].
Qed.

(** The next state of a call that has a backend for its target. *)
Lemma route_next_ok d call mode found t ts b :
  in_progress d call mode found t ts → be_machine b = None → serves d call t b →
  call_ok d (call_to (route_next mode found t ts (Ok b)) call).
Proof.
  intros (names & targets & Hr & Hm & Ht) Hb Hs.
  destruct mode; cbn [route_next].
  - unfold call_ok, returned. cbn. rewrite Hr. split; [done|]. exists targets. split; [done|].
    destruct Ht as (ts' & ->). exists t, ts', b. auto.
  - destruct Ht as (before & -> & Hf).
    assert (routed OneToMany (before ++ [t]) d call (found ++ [with_machine b t])) as Hf'.
    { apply Forall2_app; [exact Hf|]. constructor; [|done]. split; [done|].
      by destruct Hs as [H1 H2|H1 H2 H3]; [apply serves_local|apply serves_remote]. }
    destruct ts as [|t' ts]; unfold call_ok; cbn.
    + unfold returned. cbn. rewrite Hr. split; [done|]. exists (before ++ [t]). split; [done|].
      eapply Forall2_impl; [exact Hf'|]. naive_solver.
    + exists names, (before ++ t :: t' :: ts). split_and!; [done..|]. exists (before ++ [t]).
      split; [by rewrite <-app_assoc|]. eapply Forall2_impl; [exact Hf'|]. naive_solver.
Qed.

(** A call that begins. *)
Lemma call_begin_ok d mapper metadata : call_ok d (call_begin mapper metadata d).
Proof.
  unfold call_ok, call_begin. cbn [rc_state]. destruct (route_plan mapper d metadata) as [r|t|ts] eqn:Ep.
  - cbn. destruct r as [r| |]; [|done|done]. unfold returned, route_plan, requested in *. cbn [rc_metadata rc_mapper].
    repeat case_match; simplify_eq; done.
  - cbn. unfold in_progress, route_plan, requested in *. cbn [rc_metadata rc_mapper].
    case_bool_decide; [done|]. destruct (metadata_values metadata "machine") as [names|].
    2: { destruct (metadata_values metadata "machines") as [[|n ns]|]; [done| |done]. by destruct (mapper _). }
    destruct (negb _); [done|]. case_bool_decide; [done|]. exists names.
    destruct (mapper names) as [[|t' ts']| |]; cbn in Ep; [done| |done|done]. injection Ep as ->.
    exists (t :: ts'). split_and!; [done..|]. by exists ts'.
  - assert (∃ names, requested metadata = Some (OneToMany, names) ∧ mapper names = Ok ts) as (names & Hr & Hm).
    { unfold route_plan, requested in *. case_bool_decide; [done|]. destruct (metadata_values metadata "machine") as [names|].
      { destruct (negb _); [done|]. case_bool_decide; [done|]. by destruct (mapper names) as [[|]| |]. }
      destruct (metadata_values metadata "machines") as [[|n ns]|]; [done| |done]. exists (n :: ns).
      destruct (mapper (n :: ns)); cbn in Ep; [|done|done]. by injection Ep as ->. }
    destruct ts as [|t ts]; cbn [route_start].
    + unfold returned. cbn. rewrite Hr. split; [done|]. exists []. split; [done|]. constructor.
    + exists names, (t :: ts). split_and!; [done..|]. exists []. split; [done|constructor].
Qed.

Lemma advance_ok path port closed d call d' state : director_inv path port closed d →
  dir_local_address d ∈ rc_seen call → call_ok d call → route_advance d (rc_state call) = (d', state) →
  director_inv path port closed d' ∧ extends d d' ∧ call_ok d' (call_to state call).
Proof.
  intros Hinv Hseen Hok E. assert (extends d d) as Hrefl by (unfold extends; split_and!; try done).
  unfold call_ok in Hok. destruct (rc_state call) as [mode found t ts|mode found t ts|r]; cbn [route_advance] in E.
  - injection E as <- <-. split_and!; [done|done|]. unfold is_local_target. case_bool_decide as Hl.
    + apply route_next_ok; [done|by rewrite (di_local _ _ _ _ Hinv)|]. apply serves_local; [done|by rewrite <-Hl].
    + split; [exact Hok|]. by exists (dir_local_address d).
  - destruct Hok as [Hok Hne]. pose proof (cached_backend_spec path port closed d t Hinv) as Hb.
    destruct (cached_backend d t) as [d1 [b|e|m]]; [|by destruct Hb as (-> & _); simplify_eq|done].
    destruct Hb as (Hinv' & Hext & Hm & Hl & Ho & Hc). injection E as <- <-. split_and!; [done|done|].
    apply route_next_ok; [|done|by apply serves_remote; [..|right]].
    destruct Hok as (names & targets & Hr & Hma & Ht). exists names, targets. split_and!; [done..|].
    destruct mode; [done|]. destruct Ht as (before & -> & Hf). exists before. split; [done|].
    eapply Forall2_impl; [exact Hf|]. intros ? ? [? ?]. split; [done|]. by eapply extends_serves.
  - injection E as <- <-. split_and!; [done|done|]. unfold call_ok. cbn. destruct r as [r| |]; [|done|done].
    unfold returned in *. cbn. destruct (requested (rc_metadata call)) as [[mode names]|]; [|done].
    destruct Hok as (Hmode & targets & Hma & Hf). split; [done|]. exists targets. split; [done|].
    exact Hf.
Qed.

Lemma flush_serves path port closed d call t b : director_inv path port closed d →
  serves d call t b → serves (flush_remote_backends d) (call_flushed call) t b.
Proof.
  intros Hinv [Hb Hin|[Hk (a & Ha & Hr)] Hseen Hc]; [by apply serves_local|].
  apply serves_remote; [by split; [|exists a]|done|]. left. split; [|done].
  unfold is_closed in *. cbn [flush_remote_backends dir_closed]. apply elem_of_union.
  destruct Hc as [[? _]|[_ (b' & Hb' & <-)]]; [by right|left]. apply elem_of_cached_ids. eauto.
Qed.

Lemma close_local_serves path port closed d call t b : director_inv path port closed d →
  serves d call t b → serves (close_local_backend d) call t b.
Proof.
  intros Hinv [Hb Hin|[Hk (a & Ha & Hr)] Hseen Hc]; [by apply serves_local|].
  apply serves_remote; [by split; [|exists a]|done|]. unfold is_closed in *. cbn [close_local_backend dir_closed].
  destruct Hc as [[? ?]|[Ho (b' & Hb' & E)]]; [left; set_solver|right]. split; [|by exists b'].
  rewrite elem_of_union, elem_of_singleton, (di_local _ _ _ _ Hinv). cbn. intros [H0|?]; [|done].
  destruct (di_cached _ _ _ _ Hinv _ _ Hb') as (_ & _ & _ & Hid & _). rewrite E, H0 in Hid. lia.
Qed.

Lemma route_step_inv path port s s' : route_step s s' → router_inv path port s → router_inv path port s'.
Proof.
  intros Hstep [Hd Hc]. destruct Hstep as [s id mapper metadata Hid|s id call d state Hid Ha|s address|s|s];
    split; cbn [ro_director ro_calls ro_closed].
  - done.
  - apply map_Forall_insert_2; [|done]. split; [cbn; set_solver|apply call_begin_ok].
  - destruct (Hc id call Hid) as [Hseen Hok]. by apply (advance_ok _ _ _ _ _ _ _ Hd Hseen Hok Ha).
  - destruct (Hc id call Hid) as [Hseen Hok]. destruct (advance_ok _ _ _ _ _ _ _ Hd Hseen Hok Ha) as (_ & Hext & Hok').
    pose proof Hext as (E1 & _ & E3 & _). apply map_Forall_insert_2; [by rewrite E3|].
    eapply map_Forall_impl; [exact Hc|]. intros i c [Hs Hk]. rewrite E3. split; [done|].
    eapply call_ok_mono; [..|exact Hk]; try done. intros t b. by apply extends_serves.
  - by apply update_inv.
  - apply map_Forall_fmap. eapply map_Forall_impl; [exact Hc|]. intros i c [Hs Hk]. split; [cbn; set_solver|].
    eapply call_ok_mono; [..|exact Hk]; try done; [|cbn; set_solver].
    intros t b [Hb Hin|Hl (seen & Hin & Hne) Hcl]; [apply serves_local; [done|cbn; set_solver]|].
    apply serves_remote; [done| |done]. exists seen. split; [cbn; set_solver|done].
  - by apply flush_inv.
  - apply map_Forall_fmap. eapply map_Forall_impl; [exact Hc|]. intros i c [Hs Hk]. split; [done|].
    eapply call_ok_mono; [..|exact Hk]; try done. intros t b. by eapply flush_serves.
  - by eapply close_local_inv.
  - eapply map_Forall_impl; [exact Hc|]. intros i c [Hs Hk]. split; [done|].
    eapply call_ok_mono; [..|exact Hk]; try done. intros t b. by eapply close_local_serves.
Qed.

Lemma router_reachable_inv path port s : rtc route_step (router_new path port) s → router_inv path port s.
Proof.
  intros Hr. assert (router_inv path port (router_new path port)) as Hinv.
  { split; [apply director_new_inv|apply map_Forall_empty]. }
  revert Hinv. induction Hr as [|s1 s2 s3 Hs _ IH]; [done|]. intros Hinv. apply IH. by eapply route_step_inv.
Qed.

(** C23: requests reach the machines they name, in every interleaving of calls of [route],
    each of which takes the locks anew for every target, with changes of the local address,
    flushes and [Director::close].  A call that returns a route has, for a request without
    target metadata or one that was already forwarded, the local backend; else one backend
    for the first target, or one per target in order, marked with it.  A backend is the local
    one only if the target had the local address at some moment of the call, and a remote one
    only if at some moment it had not; a remote one leads to the target's own address and the
    remote port, and is open unless the cache was flushed since the call began.  Remote
    backends that are open share a connection exactly when their targets have the same
    address, also between calls.  The local backend is closed exactly when [Director::close]
    was called. *)
Theorem route_reaches_targets path port s : rtc route_step (router_new path port) s →
  (∀ id call r, ro_calls s !! id = Some call → rc_state call = RS_Returned (Ok r) → returned (ro_director s) call r) ∧
  (∀ call1 t1 b1 call2 t2 b2, serves (ro_director s) call1 t1 b1 → serves (ro_director s) call2 t2 b2 →
     inner_kind (be_inner b1) = BK_Remote → inner_kind (be_inner b2) = BK_Remote →
     ¬ is_closed (ro_director s) b1 → ¬ is_closed (ro_director s) b2 →
     inner_id (be_inner b1) = inner_id (be_inner b2) ↔ address_key t1 = address_key t2) ∧
  dir_local_backend (ro_director s) = backend_local 0 path ∧
  (is_closed (ro_director s) (backend_local 0 path) ↔ ro_closed s = true).
Proof.
  intros [Hd Hc]%router_reachable_inv. split_and!.
  - intros id call r Hid Hr. destruct (Hc id call Hid) as [_ Hok]. unfold call_ok in Hok. by rewrite Hr in Hok.
  - assert (∀ call t b, serves (ro_director s) call t b → inner_kind (be_inner b) = BK_Remote →
              ¬ is_closed (ro_director s) b → cached (ro_director s) t b) as Hcached.
    { intros call t b [Hb _|_ _ [[? _]|[_ ?]]]; [|done|done]. rewrite Hb, (di_local _ _ _ _ Hd). done. }
    intros call1 t1 b1 call2 t2 b2 S1 S2 K1 K2 O1 O2.
    destruct (Hcached _ _ _ S1 K1 O1) as (c1 & Hc1 & <-), (Hcached _ _ _ S2 K2 O2) as (c2 & Hc2 & <-). split.
    + by apply (di_distinct _ _ _ _ Hd _ _ _ _ Hc1 Hc2).
    + intros Hk. rewrite Hk in Hc1. by simplify_eq.
  - apply (di_local _ _ _ _ Hd).
  - apply (di_local_closed _ _ _ _ Hd).
Qed.

(** A call that nothing interrupts does what [route] does. *)
Lemma compare_runs s id call mode found t ts d r : ro_calls s !! id = Some call →
  rc_state call = RS_Comparing mode found t ts → backend_for (ro_director s) t = (d, r) →
  rtc route_step s (mk_Router d (<[id := call_to (route_next mode found t ts r) call]> (ro_calls s)) (ro_closed s)).
Proof.
  intros Hid Hst Hb. unfold backend_for in Hb. destruct (is_local_target (ro_director s) t) eqn:El.
  - injection Hb as <- <-. eapply rtc_l; [|apply rtc_refl]. apply (rstep_advance _ id call); [done|].
    rewrite Hst. cbn. by rewrite El.
  - eapply rtc_l; [apply (rstep_advance _ id call (ro_director s) (RS_Looking mode found t ts)); [done|]|].
    { rewrite Hst. cbn. by rewrite El. }
    eapply rtc_l; [|apply rtc_refl]. rewrite <-(insert_insert_eq (ro_calls s) id (call_to (route_next mode found t ts r) call) (call_to (RS_Looking mode found t ts) call)).
    apply (rstep_advance (mk_Router _ _ _) id (call_to (RS_Looking mode found t ts) call)); [apply lookup_insert_eq|].
    cbn. by rewrite Hb.
Qed.

Lemma compare_all_runs s id call found t ts d r : ro_calls s !! id = Some call →
  rc_state call = RS_Comparing OneToMany found t ts → backends_for (ro_director s) (t :: ts) = (d, r) →
  rtc route_step s (mk_Router d (<[id := call_to (RS_Returned (bs ← r; Ok (mk_Route OneToMany (found ++ bs)))) call]>
                                   (ro_calls s)) (ro_closed s)).
Proof.
  revert s call found t d r. induction ts as [|t' ts IH]; intros s call found t d r Hid Hst Hb; cbn [backends_for] in Hb;
    destruct (backend_for (ro_director s) t) as [d1 [b|e|m]] eqn:E1;
    try (injection Hb as <- <-; by apply (compare_runs _ _ _ _ _ _ _ _ _ Hid Hst E1)).
  pose proof (compare_runs _ _ _ _ _ _ _ _ _ Hid Hst E1) as Hrun. cbn [route_next] in Hrun.
  change (match backend_for d1 t' with (self, Ok backend) => _ | (self, Err e) => _ | (self, Panic m) => _ end)
    with (backends_for d1 (t' :: ts)) in Hb.
  destruct (backends_for d1 (t' :: ts)) as [d2 r2] eqn:E2.
  etrans; [exact Hrun|]. specialize (IH (mk_Router d1 (<[id := call_to (RS_Comparing OneToMany (found ++ [with_machine b t]) t' ts) call]> (ro_calls s))
    (ro_closed s)) (call_to (RS_Comparing OneToMany (found ++ [with_machine b t]) t' ts) call) (found ++ [with_machine b t]) t' d2 r2
    (lookup_insert_eq _ _ _) eq_refl E2).
  cbn [ro_calls ro_closed] in IH. rewrite insert_insert_eq in IH. destruct r2 as [bs|e|m]; injection Hb as <- <-; cbn in *; [|done|done].
  by rewrite <-app_assoc in IH.
Qed.

Lemma route_runs s id mapper metadata d r : ro_calls s !! id = None → route mapper (ro_director s) metadata = (d, r) →
  rtc route_step s (mk_Router d (<[id := mk_RouteCall metadata mapper (RS_Returned r) {[ dir_local_address (ro_director s) ]} false]>
                                   (ro_calls s)) (ro_closed s)).
Proof.
  intros Hid Hr. eapply rtc_l; [by apply (rstep_begin s id mapper metadata)|].
  set (call := call_begin _ _ _). set (s1 := mk_Router _ _ _).
  assert (∀ d' call', rtc route_step s1 (mk_Router d' (<[id := call']> (ro_calls s1)) (ro_closed s1)) →
            rtc route_step s1 (mk_Router d' (<[id := call']> (ro_calls s)) (ro_closed s))) as Hs1.
  { intros d' call'. cbn. by rewrite insert_insert_eq. }
  unfold route in Hr. unfold call, call_begin in s1. destruct (route_plan mapper (ro_director s) metadata) as [r'|t|[|t ts]] eqn:Ep.
  - injection Hr as <- <-. apply rtc_refl.
  - destruct (backend_for (ro_director s) t) as [d1 b] eqn:E1.
    pose proof (compare_runs s1 id call OneToOne [] t [] d1 b) as Hrun. unfold call, call_begin in Hrun. rewrite Ep in Hrun.
    specialize (Hrun (lookup_insert_eq _ _ _) eq_refl E1). apply Hs1 in Hrun.
    destruct b; injection Hr as <- <-; exact Hrun.
  - injection Hr as <- <-. apply rtc_refl.
  - destruct (backends_for (ro_director s) (t :: ts)) as [d1 b] eqn:E1.
    pose proof (compare_all_runs s1 id call [] t ts d1 b) as Hrun. unfold call, call_begin in Hrun. rewrite Ep in Hrun.
    specialize (Hrun (lookup_insert_eq _ _ _) eq_refl E1). apply Hs1 in Hrun.
    destruct b; injection Hr as <- <-; exact Hrun.
Qed.

(** requests do not loop: the request that a backend forwards is served by the
    machine that receives it and is not routed further, whatever metadata the caller
    set; and the local backend gets the caller's metadata unchanged. *)
Theorem forwarded_requests_stop set_timeout now authority backend metadata deadline outgoing :
  outgoing_request set_timeout now authority backend metadata deadline = Ok outgoing →
  match inner_kind (be_inner backend) with
  | BK_Remote =>
      (∀ mapper d, route mapper d outgoing = (d, Ok (local_route d))) ∧
      outgoing !! "machine" = None ∧ outgoing !! "machines" = None
  | BK_Local => ∀ key, key ≠ "grpc-timeout" → outgoing !! key = metadata !! key
  end.
Proof.
  unfold outgoing_request, outgoing_metadata, MetadataMap in *. intros E.
  destruct (inner_kind (be_inner backend)).
  - intros key Hk. destruct deadline as [t|]; [|by injection E as <-].
      destruct (Z.max 0 (t - now) =? 0); [done|]. injection E as <-.
    by rewrite lookup_insert_ne.
  - set (md := <["proxy-authority" := _]> _) in E.
    assert (is_Some (outgoing !! "proxy-authority") ∧ outgoing !! "machine" = None ∧ outgoing !! "machines" = None) as (H1 & H2 & H3).
    { assert (is_Some (md !! "proxy-authority") ∧ md !! "machine" = None ∧ md !! "machines" = None) as (H1 & H2 & H3).
      { unfold md. rewrite lookup_insert_eq, !lookup_insert_ne by done. split; [by eexists|].
        split; [by rewrite lookup_delete_ne, lookup_delete_eq by done|by rewrite lookup_delete_eq]. }
      destruct deadline as [t|]; [|by injection E as <-].
      destruct (Z.max 0 (t - now) =? 0); [done|]. injection E as <-.
      by rewrite !lookup_insert_ne by done. }
    split; [|done]. intros mapper d. unfold route, route_plan. by rewrite bool_decide_eq_true_2.
Qed.
End routing.

(** ** Timeouts *)

Lemma parse_u32_digits digits : digits ≠ "" → all_digits digits → (str_len digits <= 8)%nat →
  parse_u 32 digits = Ok (digits_value digits).
Proof.
  intros Hne Hd Hl. destruct (digits_from_split 0 digits Hd) as [_ Hb].
  assert (10 ^ Z.of_nat (str_len digits) <= 10 ^ 8) by (apply Z.pow_le_mono_r; lia).
  unfold parse_u, parse_int. destruct digits as [|c s]; [done|].
  pose proof (proj1 (proj1 (all_digits_cons c s) Hd)) as Hc.
  assert (ascii_eqb c "+" = false ∧ ascii_eqb c "-" = false) as [-> ->].
  { split; apply Ascii.eqb_neq; intros ->; by vm_compute in Hc. }
  apply parse_digits_value; [lia|done|]. unfold digits_value in *. change (u_max 32) with 4294967295.
  change (10 ^ 8) with 100000000 in *. lia.
Qed.

Lemma timeout_unit_bound c u : timeout_unit c = Some u → 0 < u <= 3600 * 1000000000.
Proof. unfold timeout_unit. intros H. repeat case_match; simplify_eq; lia. Qed.

(** A text of two bytes or more is its digits and its unit. *)
Lemma split_last_snoc value : (0 < str_len value)%nat →
  ∃ digits c, split_last value = (digits, String c "") ∧ value = digits +:+ String c "".
Proof.
  intros Hl. unfold split_last.
  assert (∀ n, str_len value = S n → ∃ digits c, (str_take n value, str_drop n value) = (digits, String c "") ∧
            value = digits +:+ String c "") as Hn.
  { clear. intros n. revert value. induction n as [|n IH]; intros [|c value]; try done.
    - destruct value; [|done]. intros _. by exists "", c.
    - rewrite str_len_cons. intros [= Hn]. destruct (IH value Hn) as (digits & d & E & Ev).
      injection E as E1 E2. exists (String c digits), d. cbn [str_take str_drop]. rewrite E1, E2. split; [done|].
      rewrite Ev. done. }
  destruct (str_len value) as [|n] eqn:E; [lia|]. rewrite Nat.sub_succ, Nat.sub_0_r. by apply Hn.
Qed.

(** a timeout is read exactly: on the ASCII text of a header, [parse_grpc_timeout]
    never panics; it accepts one to eight digits and a unit, and nothing else; and its
    value is the product in nanoseconds, cut off at the longest duration of Go, so that
    no step overflows. *)
Theorem grpc_timeout_exact `{UnicodeLib} value : forallb is_ascii_byte (bytes value) = true →
  result_spec (parse_grpc_timeout value)
    (fun d => ∃ digits c u, value = digits +:+ String c "" ∧ (1 <= str_len digits <= 8)%nat ∧ all_digits digits ∧
       timeout_unit c = Some u ∧ d = Z.min (u * digits_value digits) I64_MAX ∧ 0 <= d < 2 ^ 63)
    (fun _ => ∀ digits c u, value = digits +:+ String c "" → (1 <= str_len digits <= 8)%nat → all_digits digits →
       timeout_unit c = Some u → False).
Proof.
  intros Hascii. unfold parse_grpc_timeout.
  assert (∀ digits c, value = digits +:+ String c "" → str_len value = S (str_len digits)) as Hlen.
  { intros digits c ->. rewrite str_len_app. cbn. lia. }
  destruct (Nat.ltb_spec (str_len value) 2).
  { intros digits c u E Hd _ _. specialize (Hlen _ _ E). lia. }
  destruct (Nat.ltb_spec 9 (str_len value)).
  { intros digits c u E Hd _ _. specialize (Hlen _ _ E). lia. }
  destruct (split_last_snoc value ltac:(lia)) as (digits & c & -> & Ev). specialize (Hlen _ _ Ev).
  assert (∀ digits' c', value = digits' +:+ String c' "" → digits' = digits ∧ c' = c) as Huniq.
  { intros d' c' E. rewrite Ev in E. apply (f_equal bytes) in E. rewrite !bytes_app in E.
    apply app_inj_tail in E as [E1 E2]. split; [|done].
    apply (f_equal of_bytes) in E1. unfold of_bytes, bytes in E1.
    by rewrite !String.string_of_list_ascii_of_string in E1. }
  cbn [bytes String.list_ascii_of_string].
  assert (continuation c = false) as ->.
  { rewrite Ev, bytes_app, forallb_app in Hascii. apply andb_true_iff in Hascii as [_ Hc]. cbn in Hc.
    rewrite andb_true_r in Hc. unfold is_ascii_byte in Hc. unfold continuation. lia. }
  destruct (timeout_unit c) as [u|] eqn:Eu.
  2: { intros d' c' u E _ _ Hu. apply Huniq in E as [-> ->]. congruence. }
  destruct (forallb is_ascii_digit (bytes digits)) eqn:Ed; cbn [negb].
  2: { intros d' c' u' E _ Hd _. apply Huniq in E as [-> ->]. unfold all_digits in Hd. congruence. }
  rewrite parse_u32_digits; [|by intros ->; simpl in *; lia|exact Ed|lia].
  destruct (digits_from_split 0 digits Ed) as [_ Hb].
  assert (10 ^ Z.of_nat (str_len digits) <= 10 ^ 8) by (apply Z.pow_le_mono_r; lia).
  pose proof (timeout_unit_bound c u Eu). change (10 ^ 8) with 100000000 in *.
  cbn [result_spec]. exists digits, c, u. split_and!; try done; try lia; unfold DURATION_MAX, I64_MAX; nia.
Qed.

(** ** Examples *)

Definition proxy_machine (name : string) (host : Z) : MachineInfo :=
  mk_MachineInfo ("id-" +:+ name) name
    (Some (mk_NetworkConfig None (Some (mk_Ip (be_octets 16 (0xfdcc * 2 ^ 112 + host)))) [] []))
    None "" "" "" "" "" "".
Definition proxy_machines : list MachineInfo := [proxy_machine "a" 1; proxy_machine "b" 2].
Definition proxy_targets : list MachineTarget :=
  match traverse machine_target proxy_machines with Ok l => l | _ => [] end.

Lemma map_machines_exact_witness :
  map_machines (inr proxy_machines) ["b"; "x"; "y"] = Err (MachinesNotFound ["x"; "y"]) ∧
  ∃ targets, map_machines (inr proxy_machines) ["b"; "id-a"; "id-b"] = Ok targets ∧
    targets = first_by_id [] (omap (resolve proxy_targets) ["b"; "id-a"; "id-b"]) ∧ NoDup (mt_id <$> targets).
Proof.
  split.
  - destruct (map_machines_exact proxy_machines proxy_targets ["b"; "x"; "y"] eq_refl ltac:(discriminate)) as (_ & H & _).
    refine (H _ _); [set_solver|]. apply Exists_cons_tl, Exists_cons_hd. reflexivity.
  - destruct (map_machines_exact proxy_machines proxy_targets ["b"; "id-a"; "id-b"] eq_refl ltac:(discriminate))
      as (_ & _ & H).
    destruct H as (targets & H1 & H2 & H3 & _); [set_solver|repeat constructor; vm_compute; by eexists|].
    exists targets. split; [exact H1|]. split; [exact H2|exact H3].
Defined.

(** Metadata values of visible bytes only. *)
Definition visible (s : string) : option string :=
  if forallb (fun c => (32 <=? byte_val c) && (byte_val c <? 127)) (bytes s) then Some s else None.
Definition reference_metadata : MetadataLib := {| value_to_str := visible; value_try_from := visible |}.

Definition demo_director : Director := update_local_address "fdcc::1" (director_new "/run/ployz.sock" 51000).
Definition demo_metadata : MetadataMap := <["machines" := ["a"; "b"]]> ∅.
Definition demo_route : Director * result GrpcStatus Route :=
  route (H := reference_metadata) (map_machines (inr proxy_machines)) demo_director demo_metadata.
Definition demo_backends : list ProxyBackend :=
  match demo_route.2 with Ok r => rt_backends r | _ => [] end.

(** The call of [demo_route] on its own, and [Director::close] after it. *)
Definition demo_call : RouteCall :=
  mk_RouteCall demo_metadata (map_machines (inr proxy_machines)) (RS_Returned (Ok (mk_Route OneToMany demo_backends)))
    {[ Some "fdcc::1" ]} false.
Definition demo_closed : Router :=
  mk_Router (director_close demo_route.1) {[ 0%nat := call_flushed demo_call ]} true.

Lemma route_reaches_targets_witness :
  map inner_target (map be_inner demo_backends) = ["unix:///run/ployz.sock"; "[fdcc::2]:51000"] ∧
  returned (H := reference_metadata) (ro_director demo_closed) (call_flushed demo_call) (mk_Route OneToMany demo_backends) ∧
  is_closed (ro_director demo_closed) (backend_local 0 "/run/ployz.sock").
Proof.
  split; [vm_compute; reflexivity|].
  destruct (route_reaches_targets (H := reference_metadata) "/run/ployz.sock" 51000 demo_closed) as (Hr & _ & _ & Hc).
  - eapply rtc_l; [apply (rstep_update (router_new "/run/ployz.sock" 51000) "fdcc::1")|].
    etrans; [apply (route_runs (H := reference_metadata) _ 0%nat (map_machines (inr proxy_machines)) demo_metadata
                      demo_route.1 (Ok (mk_Route OneToMany demo_backends))); [reflexivity|vm_compute; reflexivity]|].
    eapply rtc_l; [apply rstep_close_local|]. eapply rtc_l; [apply rstep_flush|]. apply rtc_refl.
  - split; [|by apply Hc]. by apply (Hr 0%nat).
Defined.

Definition demo_remote : ProxyBackend := mk_Backend (mk_BackendInner 1 BK_Remote "[fdcc::2]:51000" None) None.
Lemma forwarded_requests_stop_witness :
  ∃ outgoing, outgoing_request (H := reference_metadata) dec 10 None demo_remote demo_metadata (Some 30) = Ok outgoing ∧
    route (H := reference_metadata) (fun _ => Ok []) demo_director outgoing = (demo_director, Ok (local_route demo_director)).
Proof.
  eexists. split; [reflexivity|].
  exact (proj1 (forwarded_requests_stop (H := reference_metadata) dec 10 None demo_remote demo_metadata (Some 30) _ eq_refl)
           (fun _ => Ok []) demo_director).
Defined.

Lemma grpc_timeout_exact_witness :
  parse_grpc_timeout (H := {| char_escape_debug := of_bytes |}) "00000001M" = Ok 60000000000 ∧
  ∃ digits c u, "00000001M" = digits +:+ String c "" ∧ (1 <= str_len digits <= 8)%nat ∧ all_digits digits ∧
    timeout_unit c = Some u ∧ 60000000000 = Z.min (u * digits_value digits) I64_MAX ∧ 0 <= 60000000000 < 2 ^ 63.
Proof.
  split; [vm_compute; reflexivity|].
  exact (result_spec_ok _ _ _ _ (grpc_timeout_exact (H := {| char_escape_debug := of_bytes |}) "00000001M" eq_refl) eq_refl).
Defined.
