(* ===== verification/ProxyCall.v ===== *)
(** * The API proxy: calls

    The two ways a request is forwarded, [one_to_one] and [one_to_many] of [ProxyCall]
    (ployz-internal-machine-api-proxy lib.rs).  What an await yields, which branch of a
    [select!] is taken and in which order the tasks' events arrive are data of a run;
    the functions say what the call does with them. *)

From S2P Require Import Prelude RustStr NetAddr PbAddr Machine Cluster ProxyMap ProxyRoute.

Local Open Scope Z_scope.

(** ** Metadata and statuses *)

(** [append_metadata]: each entry of the source is appended under its key. *)
Definition append_metadata (destination source : MetadataMap) : MetadataMap :=
  union_with (fun a b => Some (a ++ b)) destination source.

Definition with_trailers (status : GrpcStatus) (trailers : MetadataMap) : GrpcStatus :=
  mk_GrpcStatus (gs_code status) (gs_message status) (gs_details status)
    (append_metadata (gs_metadata status) trailers).

(** The status that carries the trailers of a response that succeeded. *)
Definition ok_trailers (trailers : MetadataMap) : GrpcStatus := mk_GrpcStatus CodeOk "" [] trailers.

(** What the caller gets: initial metadata and a stream of messages, ended by a status. *)
Definition Item : Type := GrpcStatus + list byte.
Record Response := mk_Response { rsp_metadata : MetadataMap; rsp_items : list Item }.

(** [response_or_status]. *)
Definition response_or_status (metadata : MetadataMap) (status : GrpcStatus) : result GrpcStatus Response :=
  if bool_decide (metadata = ∅) then Err status else Ok (mk_Response metadata [inl status]).

(** [frontend_stream_error]. *)
Definition frontend_stream_error (status : GrpcStatus) : GrpcStatus :=
  grpc_status CodeInternal ("failed proxying s2c: rpc error: code = " +:+ code_name (gs_code status)
                              +:+ " desc = " +:+ gs_message status).

(** ** The upstream of a backend *)

(** How a stream of messages ends: with an error, or normally and then with what its
    trailers are.  An error may be the deadline's. *)
Inductive StreamEnd := EndError (status : GrpcStatus) | EndTrailers (trailers : GrpcStatus + option MetadataMap).

(** What a backend's connection and call do: the awaits of the channel, of [ready]
    (whose own error is a text) and of the call, and the response. *)
Record Upstream := mk_Upstream {
  up_channel : GrpcStatus + ();
  up_ready : GrpcStatus + (string + ());
  up_response : GrpcStatus + MetadataMap;
  up_messages : list (list byte);
  up_end : StreamEnd
}.

(** ** Broadcast: one backend *)

(** [BackendEvent], [BroadcastFailure]; a task that panics sends nothing more. *)
Inductive BackendEvent :=
| EvInitialMetadata (metadata : MetadataMap) | EvPayload (payload : list byte)
| EvTrailers (trailers : MetadataMap) | EvFatal (status : GrpcStatus) | EvFinished.
Inductive BroadcastFailure := FBackend (status : GrpcStatus) | FTransform (status : GrpcStatus) | FPanic.

(** The loop over the messages of a response. *)
Fixpoint broadcast_messages `{Prost} (backend : ProxyBackend) (metadata : MetadataMap) (first : bool)
    (messages : list (list byte)) (fin : StreamEnd) : list BackendEvent * option BroadcastFailure :=
  match messages with
  | payload :: messages =>
      let staged := if first then [EvInitialMetadata metadata] else [] in
      match append_info backend false payload with
      | Ok payload =>
          let '(events, failure) := broadcast_messages backend metadata false messages fin in
          (staged ++ EvPayload payload :: events, failure)
      | Err error =>
          (staged, Some (FTransform (grpc_status CodeUnknown
                           ("error appending info for " +:+ inner_target (be_inner backend) +:+ ": " +:+ error))))
      | Panic _ => (staged, Some FPanic)
      end
  | [] =>
      match fin with
      | EndError status | EndTrailers (inl status) => ([], Some (FBackend status))
      | EndTrailers (inr (Some trailers)) => ([EvTrailers trailers], None)
      | EndTrailers (inr None) => ([], None)
      end
  end.

(** The body of [run_broadcast_backend] up to its failure. *)
Definition broadcast_body `{Prost} (backend : ProxyBackend) (outgoing : result GrpcStatus MetadataMap) (up : Upstream) :
    list BackendEvent * option BroadcastFailure :=
  match outgoing with
  | Err status => ([], Some (FBackend status))
  | Panic _ => ([], Some FPanic)
  | Ok _ =>
      match up_channel up with
      | inl status => ([], Some (FBackend status))
      | inr _ =>
          match up_ready up with
          | inl status => ([], Some (FBackend status))
          | inr (inl error) => ([], Some (FBackend (grpc_status CodeUnavailable error)))
          | inr (inr _) =>
              match up_response up with
              | inl status => ([], Some (FBackend status))
              | inr metadata => broadcast_messages backend metadata true (up_messages up) (up_end up)
              end
          end
      end
  end.

(** What is sent for a failure. *)
Definition failure_events `{Prost} (backend : ProxyBackend) (failure : option BroadcastFailure) : list BackendEvent :=
  match failure with
  | None => [EvFinished]
  | Some FPanic => []
  | Some (FTransform status) => [EvFatal status; EvFinished]
  | Some (FBackend error) =>
      match backend_build_error backend false error with
      | Ok (Some payload) => [EvPayload payload; EvFinished]
      | Ok None => [EvFatal error; EvFinished]
      | Err build_error =>
          [EvFatal (grpc_status CodeUnknown
                      ("error building error for " +:+ inner_target (be_inner backend) +:+ ": " +:+ build_error));
           EvFinished]
      | Panic _ => []
      end
  end.

(** [run_broadcast_backend]: the events it sends while the call receives them. *)
Definition run_broadcast_backend `{Prost} (backend : ProxyBackend) (outgoing : result GrpcStatus MetadataMap)
    (up : Upstream) : list BackendEvent :=
  let '(events, failure) := broadcast_body backend outgoing up in
  events ++ failure_events backend failure.

(** ** Broadcast: the call *)

(** A turn of the [select!]s of [event_or_request_result]: the result of the request
    pump ([None]: its sender is gone), an event of a backend ([None]: all senders are
    gone), or the deadline. *)
Inductive Selected :=
| SelRequest (r : option (GrpcStatus + ())) | SelEvent (e : option BackendEvent) | SelDeadline.
(** [request_results.try_recv()] after the loop. *)
Inductive TryRecv := Received (r : GrpcStatus + ()) | Empty | Disconnected.

(** The variables of the loop of [one_to_many]. *)
Record Collected := mk_Collected {
  co_response_metadata : MetadataMap;
  co_trailers : MetadataMap;
  co_merged : list byte;
  co_backend_failures : list GrpcStatus;
  co_finished : nat;
  co_request_finished : bool
}.
Definition collected_init : Collected := mk_Collected ∅ ∅ [] [] 0 false.

Definition pump_stopped : GrpcStatus := grpc_status CodeInternal "request pump stopped without a result".

(** What an error of the call becomes. *)
Definition call_error (c : Collected) (status : GrpcStatus) : result GrpcStatus Response :=
  response_or_status (co_response_metadata c) (with_trailers status (co_trailers c)).

(** The [match event]. *)
Definition collect_event (c : Collected) (e : BackendEvent) : Collected :=
  match c, e with
  | mk_Collected md tr merged failures finished rf, EvInitialMetadata metadata =>
      mk_Collected (append_metadata md metadata) tr merged failures finished rf
  | mk_Collected md tr merged failures finished rf, EvPayload payload =>
      mk_Collected md tr (merged ++ payload) failures finished rf
  | mk_Collected md tr merged failures finished rf, EvTrailers metadata =>
      mk_Collected md (append_metadata tr metadata) merged failures finished rf
  | mk_Collected md tr merged failures finished rf, EvFatal status =>
      mk_Collected md tr merged (failures ++ [status]) finished rf
  | mk_Collected md tr merged failures finished rf, EvFinished =>
      mk_Collected md tr merged failures (S finished) rf
  end.

(** The failures of the backends as one error. *)
Definition failures_status (failures : list GrpcStatus) : GrpcStatus :=
  let count := length failures in
  let noun := if (count =? 1)%nat then "error" else "errors" in
  let nl := String (Ascii.ascii_of_nat 10) "" in
  let tab := String (Ascii.ascii_of_nat 9) "" in
  let bullets := str_join (nl +:+ tab +:+ "* ") (map gs_message failures) in
  grpc_status CodeUnknown (dec (Z.of_nat count) +:+ " " +:+ noun +:+ " occurred:" +:+ nl +:+ tab +:+ "* "
                             +:+ bullets +:+ nl +:+ nl).

(** After the loop. *)
Definition collect_finish (c : Collected) (last : TryRecv) : result GrpcStatus Response :=
  match co_request_finished c, last with
  | false, Received (inl status) => call_error c status
  | false, Disconnected => call_error c pump_stopped
  | _, _ =>
      match co_backend_failures c with
      | [] => Ok (mk_Response (co_response_metadata c)
                    (inr (co_merged c) ::
                     if bool_decide (co_trailers c = ∅) then [] else [inl (ok_trailers (co_trailers c))]))
      | failures => call_error c (failures_status failures)
      end
  end.

(** The loop of [one_to_many] for [n] backends; [None]: it still waits. *)
Fixpoint collect (n : nat) (deadline : option Z) (c : Collected) (turns : list Selected) (last : TryRecv) :
    option (result GrpcStatus Response) :=
  if (n <=? co_finished c)%nat then Some (collect_finish c last)
  else
    match turns with
    | [] => None
    | SelRequest r :: turns =>
        if co_request_finished c then None
        else match r with
             | Some (inr _) =>
                 collect n deadline
                   (mk_Collected (co_response_metadata c) (co_trailers c) (co_merged c) (co_backend_failures c)
                      (co_finished c) true) turns last
             | Some (inl status) => Some (call_error c status)
             | None => Some (call_error c pump_stopped)
             end
    | SelEvent (Some e) :: turns => collect n deadline (collect_event c e) turns last
    | SelEvent None :: _ =>
        Some (Err (grpc_status CodeInternal "all broadcast backend tasks stopped before completion"))
    | SelDeadline :: _ =>
        match deadline with Some _ => Some (call_error c deadline_exceeded) | None => None end
    end.

(** [ProxyCall::one_to_many]. *)
Definition one_to_many (backends : list ProxyBackend) (deadline : option Z) (turns : list Selected) (last : TryRecv) :
    option (result GrpcStatus Response) :=
  match backends with
  | [] => Some (Err (grpc_status CodeUnavailable "no backend connections for proxying"))
  | _ => collect (length backends) deadline collected_init turns last
  end.

(** ** Requests *)

(** [pump_request]: every message goes to every destination; [accepts i] says whether
    the destinations take message [i]. *)
Fixpoint pump_request (accepts : nat → bool) (i : nat) (messages : list (list byte)) (fin : option GrpcStatus) :
    result GrpcStatus () :=
  match messages with
  | _ :: messages =>
      if accepts i then pump_request accepts (S i) messages fin
      else Err (grpc_status CodeInternal "failed proxying s2c: backend request stream closed")
  | [] => match fin with None => Ok () | Some status => Err (frontend_stream_error status) end
  end.

(** [pump_request_many]: the messages of the caller go to every backend that still
    takes them; [accepts i b] says whether backend [b] takes message [i].  The result
    and what each backend got. *)
Fixpoint pump_request_many (accepts : nat → nat → bool) (i : nat) (messages : list (list byte))
    (fin : option GrpcStatus) (live : list nat) (sent : list (nat * list byte)) :
    result GrpcStatus () * list (nat * list byte) :=
  match messages with
  | message :: messages =>
      let live := filter (fun b => accepts i b = true) live in
      let sent := sent ++ map (fun b => (b, message)) live in
      match live with
      | [] => (Ok (), sent)
      | _ => pump_request_many accepts (S i) messages fin live sent
      end
  | [] => (match fin with None => Ok () | Some status => Err (frontend_stream_error status) end, sent)
  end.

(** ** One to one *)

(** A turn of [message_before_deadline_or_closed]: the request pump ([None]: it ended
    well), the caller went away, a message with whether the caller took it, or the end
    of the stream, with the deadline as an error. *)
Inductive Relay :=
| RelRequest (error : option GrpcStatus) | RelClosed | RelMessage (message : list byte) (taken : bool)
| RelEnd (fin : StreamEnd).

(** The last item sent for the end of a stream. *)
Definition end_items (fin : StreamEnd) : list Item :=
  match fin with
  | EndError status | EndTrailers (inl status) => [inl status]
  | EndTrailers (inr (Some trailers)) => if bool_decide (trailers = ∅) then [] else [inl (ok_trailers trailers)]
  | EndTrailers (inr None) => []
  end.

(** The loop of [forward_one_to_one_response]: the items the caller is sent; the
    request errors are watched until their channel closes. *)
Fixpoint forward (watching : bool) (turns : list Relay) : list Item :=
  match turns with
  | [] => []
  | RelRequest (Some status) :: turns => if watching then [inl status] else forward watching turns
  | RelRequest None :: turns => forward false turns
  | RelClosed :: _ => []
  | RelMessage message taken :: turns => if taken then inr message :: forward watching turns else []
  | RelEnd fin :: _ => end_items fin
  end.

(** [ProxyCall::one_to_one]: [first] is what the first await of a message yields,
    [trailers] what the one of the trailers yields when there is none, [late] an error
    of the request pump found after them. *)
Definition one_to_one (backends : list ProxyBackend) (outgoing : result GrpcStatus MetadataMap) (up : Upstream)
    (first : GrpcStatus + option (list byte)) (trailers : GrpcStatus + option MetadataMap) (late : option GrpcStatus)
    (taken : bool) (turns : list Relay) : result GrpcStatus Response :=
  match backends with
  | [_] =>
      _ ← outgoing;
      match up_channel up, up_ready up, up_response up with
      | inl status, _, _ => Err status
      | inr _, inl status, _ => Err status
      | inr _, inr (inl error), _ => Err (grpc_status CodeUnavailable error)
      | inr _, inr (inr _), inl status => Err status
      | inr _, inr (inr _), inr initial_metadata =>
          match first with
          | inl status => Err status
          | inr (Some message) =>
              Ok (mk_Response initial_metadata (if taken then inr message :: forward true turns else []))
          | inr None =>
              match trailers, late with
              | inl status, _ => Err status
              | inr _, Some status => Err status
              | inr (Some trailers), None =>
                  Ok (mk_Response ∅ (if bool_decide (trailers = ∅) then [] else [inl (ok_trailers trailers)]))
              | inr None, None => Ok (mk_Response ∅ [])
              end
          end
      end
  | _ => Err (grpc_status CodeInternal ("one2one proxying should have exactly one connection (got "
                                          +:+ dec (Z.of_nat (length backends)) +:+ ")"))
  end.

(** ** The deadline of a response *)

(** [DeadlineStream]: the items still to come, whether there is a deadline, and
    whether it was reported. *)
Record DeadlineStream := mk_DeadlineStream { ds_inner : list Item; ds_deadline : option Z; ds_expired : bool }.

(** [poll_next] when the inner stream is ready: [fired] says that the timer has. *)
Definition deadline_poll (fired : bool) (self : DeadlineStream) : DeadlineStream * option Item :=
  if ds_expired self then (self, None)
  else if bool_decide (is_Some (ds_deadline self)) && fired
  then (mk_DeadlineStream (ds_inner self) (ds_deadline self) true, Some (inl deadline_exceeded))
  else match ds_inner self with
       | [] => (self, None)
       | item :: items => (mk_DeadlineStream items (ds_deadline self) (ds_expired self), Some item)
       end.
