(* ===== verification/ProxyCallProps.v ===== *)
(** * The API proxy: what a broadcast and a relay return

    Variable length integers are read back; the merged reply of a broadcast holds one
    message per reply of a machine, marked with it, whatever the order in which the
    backends' tasks run. *)

From S2P Require Import Prelude RustStr NetAddr PbAddr Machine Cluster ProxyMap ProxyRoute ProxyCall.

Local Open Scope Z_scope.

(** ** Variable length integers *)

Lemma lor_shift value low k : 0 <= k → 0 <= value < 2 ^ k → 0 <= low →
  Z.lor value (Z.shiftl low k) = value + low * 2 ^ k.
Proof.
  intros Hk Hv Hl. rewrite <-(Z.shiftl_mul_pow2 low k) by lia. symmetry. apply Z.add_nocarry_lor.
  apply Z.bits_inj'. intros n Hn. rewrite Z.land_spec, Z.bits_0.
  destruct (Z.lt_ge_cases n k) as [Hnk|Hnk].
  - by rewrite Z.shiftl_spec_low, andb_false_r by lia.
  - rewrite andb_false_iff. left. destruct (decide (value = 0)) as [->|]; [apply Z.bits_0|].
    apply Z.bits_above_log2; [lia|]. apply Z.log2_lt_pow2; [lia|].
    pose proof (Z.pow_le_mono_r 2 k n). lia.
Qed.

Lemma low_bits b : Z.land (u8 b) 127 = u8 b mod 128.
Proof. by destruct b. Qed.

Lemma high_bit b : Z.lor (u8 b) 128 = 128 + u8 b mod 128.
Proof. by destruct b. Qed.

Lemma continued_byte v : 0 <= v → u8 (byte_of (Z.lor (v mod 256) 128)) = 128 + v mod 128.
Proof.
  intros Hv. rewrite <-(u8_byte_of v), high_bit, u8_byte_of, u8_byte_of.
  rewrite Z.mod_mod_divide by (by exists 2).
  pose proof (Z.mod_pos_bound v 128). rewrite Z.mod_small; lia.
Qed.

Lemma consume_encode fuel index value v l :
  (index + S fuel = 10)%nat → 0 <= value < 2 ^ (Z.of_nat index * 7) → 0 <= v < 2 ^ (64 - Z.of_nat index * 7) →
  consume_varint_from index value (encode_varint_aux (S fuel) v ++ l)
  = Ok (value + v * 2 ^ (Z.of_nat index * 7), (index + length (encode_varint_aux (S fuel) v))%nat).
Proof.
  revert index value v. induction fuel as [|fuel IH]; intros index value v Hi Hval Hv.
  - assert (index = 9%nat) as -> by lia. change (64 - Z.of_nat 9 * 7) with 1 in Hv.
    cbn [encode_varint_aux]. replace (128 <=? v) with false by lia. cbn [app consume_varint_from].
    rewrite low_bits, u8_byte_of, !(Z.mod_small v) by lia. cbn [Nat.ltb Nat.leb Nat.eqb andb].
    replace (1 <? v) with false by lia. replace (v <? 128) with true by lia. rewrite lor_shift by lia. done.
  - remember (S fuel) as f eqn:Ef. cbn [encode_varint_aux]. destruct (Z.leb_spec 128 v) as [Hge|Hlt].
    + cbn [app consume_varint_from]. rewrite low_bits, continued_byte by lia.
      replace (index <? 10)%nat with true by (symmetry; apply Nat.ltb_lt; lia).
      replace (index =? 9)%nat with false by (symmetry; apply Nat.eqb_neq; lia). cbn [andb].
      pose proof (Z.mod_pos_bound v 128) as Hm. replace (128 + v mod 128 <? 128) with false by lia.
      assert ((128 + v mod 128) mod 128 = v mod 128) as ->.
      { rewrite Z.add_comm. rewrite <-(Z.mul_1_l 128) at 2. rewrite Z_mod_plus_full. apply Z.mod_mod. lia. }
      rewrite lor_shift by lia. subst f.
      assert (2 ^ (Z.of_nat (S index) * 7) = 128 * 2 ^ (Z.of_nat index * 7)) as Hp.
      { replace (Z.of_nat (S index) * 7) with (7 + Z.of_nat index * 7) by lia. rewrite Z.pow_add_r by lia. done. }
      assert (2 ^ (64 - Z.of_nat index * 7) = 128 * 2 ^ (64 - Z.of_nat (S index) * 7)) as Hq.
      { replace (64 - Z.of_nat index * 7) with (7 + (64 - Z.of_nat (S index) * 7)) by lia.
        rewrite Z.pow_add_r by lia. done. }
      rewrite Z.shiftr_div_pow2 by lia. change (2 ^ 7) with 128.
      rewrite IH; [|lia| |].
      * f_equal. f_equal; [|cbn [length]; lia]. rewrite Hp. pose proof (Z.div_mod v 128). nia.
      * rewrite Hp. nia.
      * split; [apply Z.div_pos; lia|]. apply Z.div_lt_upper_bound; lia.
    + cbn [app consume_varint_from]. rewrite low_bits, u8_byte_of, (Z.mod_small v 256), (Z.mod_small v 128) by lia.
      replace (index <? 10)%nat with true by (symmetry; apply Nat.ltb_lt; lia).
      replace (index =? 9)%nat with false by (symmetry; apply Nat.eqb_neq; lia). cbn [andb].
      replace (v <? 128) with true by lia. rewrite lor_shift by lia. f_equal. f_equal. cbn [length]. lia.
Qed.

Lemma consume_varint_encode v l : 0 <= v < 2 ^ 64 →
  consume_varint (encode_varint v ++ l) = Ok (v, length (encode_varint v)).
Proof.
  intros Hv. unfold consume_varint, encode_varint. rewrite (consume_encode 9 0 0 v l) by (simpl; lia).
  f_equal. f_equal. simpl. lia.
Qed.

(** ** Messages on the wire *)

(** The embedded messages of a reply: entries of field 1, read as protobuf reads them. *)
Fixpoint wire_messages_aux (fuel : nat) (l : list byte) : option (list (list byte)) :=
  match l, fuel with
  | [], _ => Some []
  | _, O => None
  | _, S fuel =>
      match consume_varint l with
      | Ok (10, k) =>
          match consume_varint (drop k l) with
          | Ok (n, k') =>
              let rest := drop (k + k') l in
              if n <=? Z.of_nat (length rest)
              then cons (take (Z.to_nat n) rest) <$> wire_messages_aux fuel (drop (Z.to_nat n) rest)
              else None
          | _ => None
          end
      | _ => None
      end
  end.
Definition wire_messages (l : list byte) : option (list (list byte)) := wire_messages_aux (length l) l.

(** A length that fits the wire. *)
Definition small (l : list byte) : Prop := Z.of_nat (length l) < 2 ^ 64.

Lemma consume_entry body l : small body →
  consume_varint (bytes_entry 1 body ++ l) = Ok (10, 1%nat) ∧
  consume_varint (drop 1 (bytes_entry 1 body ++ l))
  = Ok (Z.of_nat (length body), length (encode_varint (Z.of_nat (length body)))) ∧
  drop (1 + length (encode_varint (Z.of_nat (length body)))) (bytes_entry 1 body ++ l) = body ++ l.
Proof.
  intros Hs. unfold bytes_entry. change (encode_varint (1 * 8 + 2)) with [byte_of 10]. cbn [app drop].
  split_and!; [done|rewrite <-app_assoc; apply consume_varint_encode; unfold small in Hs; lia|].
  cbn [Nat.add drop]. by rewrite <-app_assoc, drop_app_length.
Qed.

Lemma encode_varint_length fuel v : (0 < length (encode_varint_aux (S fuel) v))%nat.
Proof. cbn [encode_varint_aux]. case_match; cbn [length]; lia. Qed.

Lemma entry_length field body : (0 < length (bytes_entry field body))%nat.
Proof. unfold bytes_entry. rewrite length_app. pose proof (encode_varint_length 9 (field * 8 + 2)). unfold encode_varint. lia. Qed.

Lemma wire_messages_step fuel body l : small body →
  wire_messages_aux (S fuel) (bytes_entry 1 body ++ l) = cons body <$> wire_messages_aux fuel l.
Proof.
  intros Hs. destruct (consume_entry body l Hs) as (E1 & E2 & E3).
  destruct (bytes_entry 1 body ++ l) as [|b r] eqn:Er.
  { pose proof (entry_length 1 body). apply app_eq_nil in Er as [Er _]. rewrite Er in *. simpl in *. lia. }
  cbn [wire_messages_aux]. rewrite E1, E2, E3.
  assert ((Z.of_nat (length body) <=? Z.of_nat (length (body ++ l))) = true) as Hle.
  { apply Z.leb_le. rewrite length_app. lia. }
  cbv zeta. rewrite Hle.
  rewrite Nat2Z.id, take_app_length, drop_app_length. done.
Qed.

Lemma wire_messages_entries bodies : Forall small bodies →
  wire_messages (concat (map (bytes_entry 1) bodies)) = Some bodies.
Proof.
  intros Hs. unfold wire_messages.
  assert (∀ fuel, (length bodies <= fuel)%nat →
            wire_messages_aux fuel (concat (map (bytes_entry 1) bodies)) = Some bodies) as Hf.
  { induction Hs as [|body bodies Hb _ IH]; intros fuel Hfuel; [by destruct fuel|].
    destruct fuel as [|fuel]; [simpl in Hfuel; lia|]. cbn [map concat].
    rewrite wire_messages_step by done. rewrite IH by (simpl in Hfuel; lia). done. }
  apply Hf. clear. induction bodies as [|body bodies IH]; simpl; [lia|].
  rewrite length_app. pose proof (entry_length 1 body). lia.
Qed.

(** ** The replies of one machine *)

Section replies.
Context `{Prost}.

(** A message of a machine, with its metadata last: protobuf takes the last value of
    a field.  The message that stands for a failure. *)
Definition marked (m : MachineTarget) (body : list byte) : list byte :=
  body ++ empty_bytes (mk_Metadata (mt_id m) (mt_name m) (mt_address m) "" None).
Definition error_message (m : MachineTarget) (status : GrpcStatus) : list byte :=
  empty_bytes (mk_Metadata (mt_id m) (mt_name m) (mt_address m)
                 ("rpc error: code = " +:+ code_name (gs_code status) +:+ " desc = " +:+ gs_message status)
                 (Some (google_status status))).

(** A backend's task in a broadcast. *)
Record Task := mk_Task {
  tk_machine : MachineTarget; tk_inner : BackendInner; tk_outgoing : GrpcStatus + MetadataMap; tk_upstream : Upstream
}.
Definition tk_backend (t : Task) : ProxyBackend := mk_Backend (tk_inner t) (Some (tk_machine t)).
Definition tk_events (t : Task) : list BackendEvent :=
  run_broadcast_backend (tk_backend t) (match tk_outgoing t with inl e => Err e | inr m => Ok m end) (tk_upstream t).

(** The status a call fails with before it has a response, or at its end. *)
Definition call_failure (t : Task) : option GrpcStatus :=
  match tk_outgoing t, up_channel (tk_upstream t), up_ready (tk_upstream t), up_response (tk_upstream t) with
  | inl status, _, _, _ | _, inl status, _, _ | _, _, inl status, _ => Some status
  | _, _, inr (inl error), _ => Some (grpc_status CodeUnavailable error)
  | _, _, _, inl status => Some status
  | _, _, _, inr _ => None
  end.
Definition end_failure (fin : StreamEnd) : option GrpcStatus :=
  match fin with EndError status | EndTrailers (inl status) => Some status | EndTrailers (inr _) => None end.

(** The messages a machine adds to the reply when it answers [bodies]. *)
Definition replies (t : Task) (bodies : list (list byte)) : list (list byte) :=
  match call_failure t with
  | Some status => [error_message (tk_machine t) status]
  | None => map (marked (tk_machine t)) bodies
            ++ option_list (error_message (tk_machine t) <$> end_failure (up_end (tk_upstream t)))
  end.

(** A task whose machine has a readable address, whose responses hold one message each
    and whose messages fit the wire. *)
Definition answers (t : Task) (bodies : list (list byte)) : Prop :=
  mt_address_is_utf8 (tk_machine t) = true ∧
  up_messages (tk_upstream t) = map (bytes_entry 1) bodies ∧ Forall small (replies t bodies).

(** What is in a list of events. *)
Definition payload_of (e : BackendEvent) : option (list byte) := match e with EvPayload p => Some p | _ => None end.
Definition fatal_of (e : BackendEvent) : option GrpcStatus := match e with EvFatal s => Some s | _ => None end.
Definition not_finished (e : BackendEvent) : Prop := match e with EvFinished => False | _ => True end.

Lemma append_info_marked inner m body : mt_address_is_utf8 m = true → small (marked m body) →
  append_info (mk_Backend inner (Some m)) false (bytes_entry 1 body) = Ok (bytes_entry 1 (marked m body)).
Proof.
  intros Hu Hs. unfold append_info, append_machine_info, machine_metadata. cbn [be_machine]. rewrite Hu.
  cbn [negb mbind result_bind].
  assert (small body) as Hb by (unfold small, marked in *; rewrite length_app in Hs; lia).
  destruct (consume_entry body [] Hb) as (E1 & E2 & E3). rewrite !app_nil_r in *.
  rewrite E1. cbn [mbind result_bind]. rewrite E2.
  cbn [mbind result_bind Z.eqb Pos.eqb negb].
  assert ((length (bytes_entry 1 body) <? 1 + length (encode_varint (Z.of_nat (length body))))%nat = false) as ->.
  { apply Nat.ltb_ge. unfold bytes_entry. rewrite !length_app. change (length (encode_varint (1 * 8 + 2))) with 1%nat. lia. }
  rewrite E3. f_equal. unfold bytes_entry at 1, marked.
  change (encode_varint (1 * 8 + 2)) with (encode_varint 10). by rewrite length_app, app_assoc.
Qed.

Lemma messages_events inner m bodies metadata first fin : mt_address_is_utf8 m = true →
  Forall small (map (marked m) bodies) →
  ∃ es, broadcast_messages (mk_Backend inner (Some m)) metadata first (map (bytes_entry 1) bodies) fin
        = (es, FBackend <$> end_failure fin) ∧
    Forall not_finished es ∧ omap payload_of es = map (bytes_entry 1) (map (marked m) bodies) ∧ omap fatal_of es = [].
Proof.
  intros Hu Hs. revert first. induction bodies as [|body bodies IH]; intros first.
  { destruct fin as [s|[s|[t|]]]; eexists; (split; [done|]); (split; [|done]); repeat constructor. }
  apply Forall_cons in Hs as [Hb Hs]. destruct (IH Hs false) as (es & E & Hf & Hp & Hft).
  cbn [map broadcast_messages]. rewrite append_info_marked by done. rewrite E.
  exists ((if first then [EvInitialMetadata metadata] else []) ++ EvPayload (bytes_entry 1 (marked m body)) :: es).
  split; [done|]. rewrite Forall_app. split_and!.
  - by destruct first; repeat constructor.
  - by constructor.
  - rewrite omap_app. destruct first; simpl; f_equal; exact Hp.
  - rewrite omap_app. destruct first; exact Hft.
Qed.

Lemma failure_message inner m status : mt_address_is_utf8 m = true →
  failure_events (mk_Backend inner (Some m)) (Some (FBackend status))
  = [EvPayload (bytes_entry 1 (error_message m status)); EvFinished].
Proof.
  intros Hu. unfold failure_events, backend_build_error, build_machine_error, machine_metadata.
  cbn [be_machine]. by rewrite Hu.
Qed.

(** The events of a task: its replies, and [EvFinished] once, last. *)
Lemma task_events t bodies : answers t bodies →
  ∃ es, tk_events t = es ++ [EvFinished] ∧ Forall not_finished es ∧
    omap payload_of es = map (bytes_entry 1) (replies t bodies) ∧ omap fatal_of es = [].
Proof.
  destruct t as [m inner out [ch rd rs ms fin]]. intros (Hu & Hm & Hs). simpl in *. subst ms.
  unfold tk_events, run_broadcast_backend, tk_backend; simpl.
  assert (∀ status, replies (mk_Task m inner out (mk_Upstream ch rd rs (map (bytes_entry 1) bodies) fin)) bodies
                    = [error_message m status] →
            ∃ es, ([] ++ failure_events (mk_Backend inner (Some m)) (Some (FBackend status))) = es ++ [EvFinished] ∧
              Forall not_finished es ∧ omap payload_of es
              = map (bytes_entry 1) (replies (mk_Task m inner out (mk_Upstream ch rd rs (map (bytes_entry 1) bodies) fin)) bodies)
              ∧ omap fatal_of es = []) as Hfail.
  { intros status ->. rewrite failure_message by done.
    exists [EvPayload (bytes_entry 1 (error_message m status))]. by repeat constructor. }
  unfold broadcast_body; simpl.
  destruct out as [s|out]; [by apply Hfail|]. destruct ch as [s|[]]; [by apply Hfail|].
  destruct rd as [s|[err|[]]]; [by apply Hfail..|]. destruct rs as [s|metadata]; [by apply Hfail|].
  clear Hfail. unfold replies in *; simpl in *.
  apply Forall_app in Hs as [Hs Hse].
  destruct (messages_events inner m bodies metadata true fin Hu Hs) as (es & E & Hf & Hp & Hft).
  rewrite E. destruct (end_failure fin) as [status|]; cbn -[failure_events omap map] in *.
  - rewrite failure_message by done. exists (es ++ [EvPayload (bytes_entry 1 (error_message m status))]).
    rewrite <-app_assoc. split; [done|]. rewrite !omap_app, map_app, Hp, Hft. split_and!; [|done..].
    apply Forall_app. split; [done|by repeat constructor].
  - exists es. by rewrite app_nil_r.
Qed.

(** ** The order of events *)

(** The turns of a broadcast whose tasks send the given events: each turn takes the
    next event of some task, and the request pump reports its end at any time, or
    later. *)
Inductive task_schedule : list (list BackendEvent) → bool → list Selected → Prop :=
| schedule_done tasks pending : Forall (eq []) tasks → task_schedule tasks pending []
| schedule_event pre e l post pending turns :
    task_schedule (pre ++ l :: post) pending turns → task_schedule (pre ++ (e :: l) :: post) pending (SelEvent (Some e) :: turns)
| schedule_request tasks turns :
    task_schedule tasks false turns → task_schedule tasks true (SelRequest (Some (inr ())) :: turns).

(** A task that ends with [EvFinished], or has. *)
Definition finishing (l : list BackendEvent) : Prop := l = [] ∨ ∃ es, l = es ++ [EvFinished] ∧ Forall not_finished es.
Definition running (tasks : list (list BackendEvent)) : nat :=
  sum_list (map (fun l => match l with [] => 0 | _ => 1 end)%nat tasks).

Lemma running_app a b : running (a ++ b) = (running a + running b)%nat.
Proof. unfold running. by rewrite map_app, sum_list_with_app. Qed.

Lemma running_none tasks : running tasks = 0%nat → concat (map (omap payload_of) tasks) = [] ∧
  concat (map (omap fatal_of) tasks) = [].
Proof. induction tasks as [|[|e l] tasks IH]; [done| |done]. exact IH. Qed.

Lemma finishing_next e l : finishing (e :: l) →
  (e = EvFinished ∧ l = []) ∨ (not_finished e ∧ finishing l ∧ l ≠ []).
Proof.
  intros [?|([|x es] & E & Hf)]; [done|..]; simplify_eq/=; [by left|].
  apply Forall_cons in Hf as [Hx Hf]. right. split; [done|]. split; [|by destruct es].
  right. by exists es.
Qed.

(** What was collected, up to the order of arrival. *)
Definition gathers (c c' : Collected) (tasks : list (list BackendEvent)) : Prop :=
  ∃ ps fs, co_merged c' = co_merged c ++ concat ps ∧ ps ≡ₚ concat (map (omap payload_of) tasks) ∧
    co_backend_failures c' = co_backend_failures c ++ fs ∧ fs ≡ₚ concat (map (omap fatal_of) tasks).

Lemma events_perm {B} (f : BackendEvent → option B) pre e l post ps :
  ps ≡ₚ concat (map (omap f) (pre ++ l :: post)) →
  option_list (f e) ++ ps ≡ₚ concat (map (omap f) (pre ++ (e :: l) :: post)).
Proof.
  intros ->. rewrite !map_app, !concat_app. cbn [map concat]. rewrite Permutation_app_swap_app.
  apply Permutation_app_head. rewrite app_assoc. apply Permutation_app_tail.
  simpl. by destruct (f e).
Qed.

Lemma gathers_event c c' pre e l post :
  gathers (collect_event c e) c' (pre ++ l :: post) → gathers c c' (pre ++ (e :: l) :: post).
Proof.
  intros (ps & fs & Hm & Hps & Hfl & Hfs). exists (option_list (payload_of e) ++ ps), (option_list (fatal_of e) ++ fs).
  rewrite Hm, Hfl, concat_app. split_and!; [|by apply events_perm| |by apply events_perm].
  all: by destruct c, e; cbn; rewrite <-?app_assoc; cbn; rewrite ?app_nil_r.
Qed.

(** Whatever the order, the loop ends once every task has, with all that was sent. *)
Lemma collect_schedule tasks pending turns : task_schedule tasks pending turns → ∀ n deadline c last,
  Forall finishing tasks → (running tasks + co_finished c = n)%nat → co_request_finished c = negb pending →
  ∃ c', collect n deadline c turns last = Some (collect_finish c' last) ∧ gathers c c' tasks.
Proof.
  assert (∀ n c deadline turns last tasks, running tasks = 0%nat → co_finished c = n →
            ∃ c', collect n deadline c turns last = Some (collect_finish c' last) ∧ gathers c c' tasks) as Hdone.
  { intros n c deadline turns' last tasks' Hr <-. exists c. split.
    - destruct turns'; simpl; by rewrite Nat.leb_refl.
    - destruct (running_none _ Hr) as [Hp Hf]. exists [], []. rewrite Hp, Hf. simpl. by rewrite !app_nil_r. }
  induction 1 as [tasks pending Hnil|pre e l post pending turns _ IH|tasks turns _ IH]; intros n deadline c last Hfin Hrun Hreq.
  - apply Hdone; [|].
    + clear -Hnil. induction Hnil as [|? tasks <- _ IH]; done.
    + assert (running tasks = 0%nat); [|lia]. clear -Hnil. induction Hnil as [|? tasks <- _ IH]; done.
  - apply Forall_app in Hfin as [Hpre [He Hpost]%Forall_cons].
    rewrite running_app in Hrun. change (running ((e :: l) :: post)) with (1 + running post)%nat in Hrun.
    cbn [collect]. replace (n <=? co_finished c)%nat with false by (symmetry; apply Nat.leb_gt; lia).
    destruct (IH n deadline (collect_event c e) last) as (c' & E & Hg).
    + apply Forall_app. split; [done|]. constructor; [|done].
      destruct (finishing_next _ _ He) as [[_ ->]|(_ & ? & _)]; [by left|done].
    + rewrite running_app. change (running (l :: post)) with ((match l with [] => 0 | _ => 1 end) + running post)%nat.
      destruct (finishing_next _ _ He) as [[-> ->]|(Hn & _ & Hl)].
      * destruct c; simpl in *. lia.
      * destruct c, e, l; simpl in *; done || lia.
    + by destruct c, e.
    + exists c'. split; [done|]. by apply gathers_event.
  - cbn [collect]. destruct (decide (running tasks = 0%nat)) as [Hz|Hz].
    { destruct (Hdone n c deadline (SelRequest (Some (inr ())) :: turns) last tasks Hz ltac:(lia)) as (c' & E & Hg).
      by exists c'. }
    replace (n <=? co_finished c)%nat with false by (symmetry; apply Nat.leb_gt; lia). rewrite Hreq. cbn [negb].
    destruct (IH n deadline (mk_Collected (co_response_metadata c) (co_trailers c) (co_merged c)
                (co_backend_failures c) (co_finished c) true) last) as (c' & E & Hg); [done..|].
    by exists c'.
Qed.

(** ** Broadcasts *)

(** No transformation of a message panics, so every task finishes. *)
Lemma consume_varint_no_panic index value l m : consume_varint_from index value l ≠ Panic m.
Proof.
  revert index value. induction l as [|b l IH]; intros index value; [done|]. simpl.
  by repeat case_match.
Qed.

Lemma append_info_no_panic b streaming l m : append_info b streaming l ≠ Panic m.
Proof.
  unfold append_info, append_machine_info, machine_metadata. destruct (be_machine b) as [t|]; [|done].
  destruct (mt_address_is_utf8 t); [|done]. cbn [negb mbind result_bind]. destruct streaming; [done|].
  destruct (consume_varint l) as [[tag k]| |p] eqn:E; cbn [mbind result_bind]; [|done|].
  2: { by destruct (consume_varint_no_panic 0 0 l p). }
  destruct (consume_varint (drop k l)) as [[n k']| |p] eqn:E'; cbn [mbind result_bind]; [|done|].
  2: { by destruct (consume_varint_no_panic 0 0 (drop k l) p). }
  by repeat case_match.
Qed.

Lemma messages_no_panic b metadata first messages fin :
  Forall not_finished (broadcast_messages b metadata first messages fin).1 ∧
  (broadcast_messages b metadata first messages fin).2 ≠ Some FPanic.
Proof.
  revert first. induction messages as [|p messages IH]; intros first; cbn [broadcast_messages].
  { destruct fin as [s|[s|[t|]]]; split; try done; repeat constructor. }
  destruct (append_info b false p) as [p'|e|m] eqn:E.
  - destruct (broadcast_messages b metadata false messages fin) as [es f] eqn:Ees. specialize (IH false).
    rewrite Ees in IH. destruct IH as [H1 H2]. split; [|done]. cbn [fst]. apply Forall_app. split; [by destruct first; repeat constructor|].
    by constructor.
  - by destruct first; split; repeat constructor.
  - by destruct (append_info_no_panic b false p m).
Qed.

Lemma finishing_app es l : Forall not_finished es → finishing l → l ≠ [] → finishing (es ++ l).
Proof.
  intros He [?|(es' & -> & Hf)] Hl; [done|]. right. exists (es ++ es'). rewrite app_assoc. split; [done|].
  by apply Forall_app.
Qed.

Lemma failure_finishing b failure : failure ≠ Some FPanic →
  finishing (failure_events b failure) ∧ failure_events b failure ≠ [].
Proof.
  assert (∀ e, not_finished e → finishing [e; EvFinished] ∧ [e; EvFinished] ≠ []) as Htwo.
  { intros e He. split; [|done]. right. exists [e]. by repeat constructor. }
  intros Hf. destruct failure as [[s|s|]|]; cbn [failure_events].
  - unfold backend_build_error, build_machine_error, machine_metadata.
    destruct (be_machine b) as [m|]; cbn [mbind result_bind]; [|by apply Htwo].
    destruct (mt_address_is_utf8 m); cbn [negb mbind result_bind]; by apply Htwo.
  - by apply Htwo.
  - done.
  - split; [|done]. right. by exists [].
Qed.

Lemma tk_events_finishing t : finishing (tk_events t) ∧ tk_events t ≠ [].
Proof.
  unfold tk_events, run_broadcast_backend.
  destruct (broadcast_body _ _ _) as [es failure] eqn:E.
  assert (Forall not_finished es ∧ failure ≠ Some FPanic) as [H1 H2].
  { unfold broadcast_body in E. repeat case_match; simplify_eq; try (by split; [constructor|]).
    pose proof (messages_no_panic (tk_backend t) m true (up_messages (tk_upstream t)) (up_end (tk_upstream t))) as Hm.
    by rewrite E in Hm. }
  destruct (failure_finishing (tk_backend t) failure H2) as [H3 H4].
  split; [by apply finishing_app|]. intros [_ ?]%app_eq_nil. done.
Qed.

Lemma running_tasks tasks : running (map tk_events tasks) = length tasks.
Proof.
  induction tasks as [|t tasks IH]; [done|]. cbn [map length].
  change (running (?l :: ?ls)) with (running ([l] ++ ls)). rewrite running_app, IH.
  destruct (tk_events_finishing t) as [_ Hn]. by destruct (tk_events t).
Qed.

(** The statuses of the tasks that make a broadcast fail as a whole. *)
Definition fatal_statuses (tasks : list Task) : list GrpcStatus :=
  concat (map (omap fatal_of) (map tk_events tasks)).

Lemma broadcast_outcome tasks deadline turns last :
  tasks ≠ [] → task_schedule (map tk_events tasks) true turns →
  ∃ c, one_to_many (map tk_backend tasks) deadline turns last = Some (collect_finish c last) ∧
    gathers collected_init c (map tk_events tasks).
Proof.
  intros Hne Hs. destruct (collect_schedule _ _ _ Hs (length tasks) deadline collected_init last) as (c & E & Hg).
  - apply Forall_map, Forall_true. intros t. apply tk_events_finishing.
  - rewrite running_tasks. simpl. lia.
  - done.
  - exists c. split; [|done]. unfold one_to_many. rewrite length_map, E. by destruct tasks.
Qed.

Lemma collect_finish_ok c last : last = Empty ∨ last = Received (inr ()) → 
  collect_finish c last
  = match co_backend_failures c with
    | [] => Ok (mk_Response (co_response_metadata c)
                  (inr (co_merged c) :: if bool_decide (co_trailers c = ∅) then [] else [inl (ok_trailers (co_trailers c))]))
    | failures => call_error c (failures_status failures)
    end.
Proof. intros [-> | ->]; unfold collect_finish; by destruct (co_request_finished c). Qed.

(** C22: a broadcast merges the replies of its machines into one: however the tasks of
    the backends interleave and whenever the end of the request is reported, the call
    returns a message, whose embedded messages are, up to their order of arrival,
    exactly one per message a machine answered, with that machine's metadata added
    last, and one per call that failed, carrying the machine and the error; trailers
    come after it. *)
Theorem broadcast_merges tasks bodies deadline turns last :
  tasks ≠ [] → Forall2 answers tasks bodies → task_schedule (map tk_events tasks) true turns →
  last = Empty ∨ last = Received (inr ()) →
  ∃ md merged messages trailers,
    one_to_many (map tk_backend tasks) deadline turns last
    = Some (Ok (mk_Response md (inr merged :: trailers))) ∧
    wire_messages merged = Some messages ∧ messages ≡ₚ concat (zip_with replies tasks bodies) ∧
    Forall (fun item => ∃ t, item = inl (ok_trailers t)) trailers.
Proof.
  intros Hne Ha Hs Hl. destruct (broadcast_outcome tasks deadline turns last Hne Hs) as (c & -> & ps & fs & Hm & Hps & Hf & Hfs).
  assert (map (omap payload_of) (map tk_events tasks) = map (map (bytes_entry 1)) (zip_with replies tasks bodies) ∧
          concat (map (omap fatal_of) (map tk_events tasks)) = [] ∧
          Forall small (concat (zip_with replies tasks bodies))) as (Hp & Hn & Hsm).
  { clear -Ha. induction Ha as [|t b tasks bodies Hb _ IH]; [by repeat constructor|]. destruct IH as (IH1 & IH2 & IH3).
    destruct (task_events _ _ Hb) as (es & E & _ & Ep & Ef). cbn [map zip_with concat].
    rewrite E, !omap_app, Ep, Ef, IH1, IH2, app_nil_r. split_and!; [done..|]. apply Forall_app. split; [apply Hb|done]. }
  rewrite Hp, <-concat_map in Hps. rewrite Hn in Hfs. apply Permutation_nil_r in Hfs as ->.
  destruct (Permutation_map_inv _ _ Hps) as (messages & -> & Hmsg).
  rewrite collect_finish_ok by done. rewrite Hf. simpl.
  eexists _, _, messages, _. split; [done|]. rewrite Hm. simpl. split_and!.
  - apply wire_messages_entries. by rewrite <-Hmsg.
  - by rewrite Hmsg.
  - case_bool_decide; repeat constructor. by eexists.
Qed.

(** A broadcast with failures that no message can carry fails as a whole, and its error
    lists all of them. *)
Theorem broadcast_fails tasks deadline turns last :
  tasks ≠ [] → task_schedule (map tk_events tasks) true turns → last = Empty ∨ last = Received (inr ()) →
  fatal_statuses tasks ≠ [] →
  ∃ md trailers failures,
    one_to_many (map tk_backend tasks) deadline turns last
    = Some (response_or_status md (with_trailers (failures_status failures) trailers)) ∧
    failures ≡ₚ fatal_statuses tasks.
Proof.
  intros Hne Hs Hl Hf. destruct (broadcast_outcome tasks deadline turns last Hne Hs) as (c & -> & ps & fs & _ & _ & Hc & Hfs).
  rewrite collect_finish_ok by done. simpl in Hc. rewrite Hc. fold (fatal_statuses tasks) in Hfs.
  exists (co_response_metadata c), (co_trailers c), fs. split; [|done].
  destruct fs; [|done]. by apply Permutation_nil_l in Hfs.
Qed.
End replies.

(** ** Relays *)

(** The messages among the turns of a relay, and a relay that nothing disturbs: the
    caller takes every message, the request pump ends well or goes on. *)
Definition relayed (turns : list Relay) : list (list byte) :=
  omap (fun t => match t with RelMessage m _ => Some m | _ => None end) turns.
Definition undisturbed (t : Relay) : Prop :=
  match t with RelMessage _ taken => taken = true | RelRequest error => error = None | RelClosed | RelEnd _ => False end.

Lemma forward_undisturbed watching turns fin rest : Forall undisturbed turns →
  forward watching (turns ++ RelEnd fin :: rest) = map inr (relayed turns) ++ end_items fin.
Proof.
  intros Hu. revert watching. induction Hu as [|t turns Ht _ IH]; intros watching; [done|].
  destruct t as [error| |m taken|]; simpl in Ht; subst; try done; simpl; [apply IH|]. f_equal. apply IH.
Qed.

Lemma forward_prefix watching turns : ∃ ms fin,
  forward watching turns = map inr ms ++ fin ∧ ms `prefix_of` relayed turns ∧
  (fin = [] ∨ ∃ status, fin = [inl status]).
Proof.
  assert (∀ turns fin, fin = [] ∨ (∃ status : GrpcStatus, fin = [inl status]) → ∃ ms fin',
            fin = map inr ms ++ fin' ∧ ms `prefix_of` relayed turns ∧ (fin' = [] ∨ ∃ status, fin' = [inl status])) as Hend.
  { intros turns' fin Hfin. exists [], fin. split_and!; [done|apply prefix_nil|done]. }
  revert watching. induction turns as [|t turns IH]; intros watching; [apply Hend; by left|].
  destruct t as [[status|]| |m taken|fin]; cbn [forward].
  - destruct watching; [apply Hend; right; by eexists|]. apply IH.
  - apply IH.
  - apply Hend. by left.
  - destruct taken; [|apply Hend; by left]. destruct (IH watching) as (ms & fin & -> & Hp & Hf).
    exists (m :: ms), fin. split_and!; [done|by apply prefix_cons|done].
  - apply Hend. destruct fin as [s|[s|[tr|]]]; simpl; try case_bool_decide; (by left) || (right; by eexists).
Qed.

(** a relayed call shows the caller what the backend sent: the initial metadata,
    the messages in order and without loss, then the status or the trailers; and when
    the call is cut short, by the caller, the request or the deadline, the caller has
    seen a prefix of the messages, followed by at most one status. *)
Theorem relay_transparent backend metadata up initial first taken turns fin rest late trailers :
  up_channel up = inr () → up_ready up = inr (inr ()) → up_response up = inr initial →
  let call turns := one_to_one [backend] (Ok metadata) up (inr (Some first)) trailers late taken turns in
  (Forall undisturbed turns → taken = true →
     call (turns ++ RelEnd fin :: rest)
     = Ok (mk_Response initial (map inr (first :: relayed turns) ++ end_items fin))) ∧
  ∃ ms end_, call turns = Ok (mk_Response initial (map inr ms ++ end_)) ∧ ms `prefix_of` first :: relayed turns ∧
    (end_ = [] ∨ ∃ status, end_ = [inl status]).
Proof.
  intros Hc Hr Hm call. unfold call, one_to_one. rewrite Hc, Hr, Hm. cbn [mbind result_bind]. split.
  - intros Hu ->. by rewrite forward_undisturbed.
  - destruct taken.
    + destruct (forward_prefix true turns) as (ms & e & -> & Hp & He). exists (first :: ms), e.
      split_and!; [done|by apply prefix_cons|done].
    + exists [], []. split_and!; [done|apply prefix_nil|by left].
Qed.

(** ** A broadcast, executed *)

(** Tasks picked by number. *)
Fixpoint play (picks : list nat) (tasks : list (list BackendEvent)) : list Selected * list (list BackendEvent) :=
  match picks with
  | [] => ([], tasks)
  | i :: picks =>
      match tasks !! i with
      | Some (e :: l) =>
          let '(turns, rest) := play picks (take i tasks ++ l :: drop (S i) tasks) in (SelEvent (Some e) :: turns, rest)
      | _ => play picks tasks
      end
  end.

Lemma play_schedule picks tasks pending : Forall (eq []) (play picks tasks).2 →
  task_schedule tasks pending (play picks tasks).1.
Proof.
  revert tasks. induction picks as [|i picks IH]; intros tasks; simpl; [by constructor|].
  destruct (tasks !! i) as [[|e l]|] eqn:E; [by apply IH| |by apply IH].
  specialize (IH (take i tasks ++ l :: drop (S i) tasks)). destruct (play picks _) as [turns rest]. simpl in *.
  intros Hl. rewrite <-(take_drop_middle _ _ _ E). constructor. by apply IH.
Qed.

(** The metadata message as protobuf encodes it. *)
Definition string_entry (field : Z) (s : string) : list byte :=
  match s with EmptyString => [] | _ => bytes_entry field (map Ascii.byte_of_ascii (bytes s)) end.
Definition rpc_status_bytes (s : RpcStatus) : list byte :=
  (if rpc_code s =? 0 then [] else encode_varint 8 ++ encode_varint (rpc_code s))
  ++ string_entry 2 (rpc_message s) ++ concat (map (bytes_entry 3) (rpc_details s)).
Definition reference_prost : Prost := {|
  metadata_bytes m :=
    string_entry 1 (md_machine_addr m) ++ string_entry 2 (md_error m)
    ++ match md_status m with Some s => bytes_entry 3 (rpc_status_bytes s) | None => [] end
    ++ string_entry 4 (md_machine_id m) ++ string_entry 5 (md_machine_name m);
  decode_rpc_status _ := None
|}.

(** Three machines: one answers, one does not answer and one breaks off. *)
Definition demo_task (n : string) (port : Z) (up : Upstream) : Task :=
  let m := target_new ("id-" +:+ n) ("machine-" +:+ n) "fd00::2" in
  mk_Task m (mk_BackendInner 1 BK_Remote "[fd00::2]:1" (Some (mk_RemoteSocket 2 [] port))) (inr ∅) up.
Definition demo_tasks : list Task :=
  [demo_task "a" 1 (mk_Upstream (inr ()) (inr (inr ())) (inr ∅) [bytes_entry 1 []] (EndTrailers (inr None)));
   demo_task "b" 1 (mk_Upstream (inl (grpc_status CodeUnavailable "refused")) (inr (inr ())) (inr ∅) [] (EndTrailers (inr None)));
   demo_task "c" 1 (mk_Upstream (inr ()) (inr (inr ())) (inr ∅) [] (EndError deadline_exceeded))].
Definition demo_turns : list Selected :=
  (play [2; 0; 1; 1; 0; 0; 2]%nat (map (tk_events (H := reference_prost)) demo_tasks)).1.

Lemma broadcast_merges_witness :
  ∃ md merged messages trailers,
    one_to_many (map tk_backend demo_tasks) None demo_turns Empty
    = Some (Ok (mk_Response md (inr merged :: trailers))) ∧
    wire_messages merged = Some messages ∧
    messages ≡ₚ concat (zip_with (replies (H := reference_prost)) demo_tasks [[[]]; []; []]).
Proof.
  destruct (broadcast_merges (H := reference_prost) demo_tasks [[[]]; []; []] None demo_turns Empty)
    as (md & merged & messages & trailers & H1 & H2 & H3 & _).
  - done.
  - repeat constructor; vm_compute; done.
  - apply (play_schedule [2; 0; 1; 1; 0; 0; 2]%nat). vm_compute. repeat constructor.
  - by left.
  - exists md, merged, messages, trailers. split; [exact H1|]. split; [exact H2|exact H3].
Defined.

Lemma relay_transparent_witness :
  one_to_one [backend_local 0 "/run/ployz.sock"] (Ok ∅)
    (mk_Upstream (inr ()) (inr (inr ())) (inr ∅) [] (EndTrailers (inr None))) (inr (Some [byte_of 1])) (inr None) None true
    ([RelRequest None; RelMessage [byte_of 2] true] ++ RelEnd (EndError deadline_exceeded) :: [])
  = Ok (mk_Response ∅ [inr [byte_of 1]; inr [byte_of 2]; inl deadline_exceeded]).
Proof.
  apply (relay_transparent (backend_local 0 "/run/ployz.sock") ∅
           (mk_Upstream (inr ()) (inr (inr ())) (inr ∅) [] (EndTrailers (inr None))) ∅ [byte_of 1] true
           [RelRequest None; RelMessage [byte_of 2] true] (EndError deadline_exceeded) [] None (inr None) eq_refl eq_refl eq_refl).
  - repeat constructor.
  - reflexivity.
Defined.
