(* ===== verification/ProxyConn.v ===== *)
(** * The API proxy: the connection of a backend

    [ConnectionState] and the code that changes it, of ployz-internal-machine-api-proxy
    backend.rs: callers of [channel], the task that reconnects, the TCP streams that tell
    of their end and [close] share one state under a lock.  Each locked section is a
    function; the sections of callers, task and streams interleave as steps.  What
    dialling answers is the choice of a step. *)

From S2P Require Import Prelude RustStr NetAddr PbAddr Machine Cluster ProxyMap.

Local Open Scope Z_scope.

(** ** State *)

(** [ConnectionPhase]. *)
Inductive ConnectionPhase : Set := PIdle | PInitialConnect | PBackoff.
#[export] Instance ConnectionPhase_eq_dec : EqDecision ConnectionPhase.
Proof. solve_decision. Defined.

(** [ConnectionState]; a channel is known by the generation it was dialled for, and
    [cs_reconnect_task] says whether there is a task. *)
Record ConnectionState := mk_ConnectionState {
  cs_channel : option Z;
  cs_phase : ConnectionPhase;
  cs_reconnect_task : bool;
  cs_closed : bool;
  cs_generation : Z
}.
Definition connection_default : ConnectionState := mk_ConnectionState None PIdle false false 0.

(** [wrapping_add(1)] of a [u64]. *)
Definition next_generation (g : Z) : Z := (g + 1) mod 2 ^ 64.

(** ** Callers *)

(** What the locked section at the start of [channel] decides. *)
Inductive Entered := GotChannel (g : Z) | GotError (status : GrpcStatus) | Connect (g : Z) | Wait.
Definition closed_status : GrpcStatus := grpc_status CodeUnavailable "backend is closed".

(** [Backend::channel], up to its first await. *)
Definition channel_enter (target : string) (s : ConnectionState) : ConnectionState * Entered :=
  match cs_channel s with
  | Some g => (s, GotChannel g)
  | None =>
      if cs_closed s then (s, GotError closed_status)
      else match cs_phase s with
           | PIdle =>
               let g := next_generation (cs_generation s) in
               (mk_ConnectionState None PInitialConnect (cs_reconnect_task s) (cs_closed s) g, Connect g)
           | PInitialConnect => (s, Wait)
           | PBackoff => (s, GotError (grpc_status CodeUnavailable ("backend " +:+ target +:+ " is reconnecting")))
           end
  end.

(** [Drop for InitialConnectGuard] of an armed guard; the flag tells whether waiters
    are woken. *)
Definition guard_drop (s : ConnectionState) : ConnectionState * bool :=
  match cs_phase s with
  | PInitialConnect => (mk_ConnectionState (cs_channel s) PIdle (cs_reconnect_task s) (cs_closed s) (cs_generation s), true)
  | _ => (s, false)
  end.

(** [Backend::channel] after a successful [connect]: the new state and the result; with
    the channel, the guard is disarmed and waiters are woken, with an error the guard is
    dropped armed. *)
Definition channel_connected (g : Z) (s : ConnectionState) : ConnectionState * result GrpcStatus Z :=
  if cs_closed s then (s, Err closed_status)
  else if negb (cs_generation s =? g) || negb (bool_decide (cs_phase s = PInitialConnect))
  then (s, Err (grpc_status CodeUnavailable "backend connection was superseded"))
  else (mk_ConnectionState (Some g) PIdle (cs_reconnect_task s) (cs_closed s) (cs_generation s), Ok g).

(** [Backend::channel] after a failed [connect]: the flag is [should_reconnect]. *)
Definition channel_failed (g : Z) (s : ConnectionState) : ConnectionState * bool :=
  match cs_closed s, cs_phase s with
  | false, PInitialConnect =>
      if cs_generation s =? g
      then (mk_ConnectionState (cs_channel s) PBackoff (cs_reconnect_task s) (cs_closed s) (cs_generation s), true)
      else (s, false)
  | _, _ => (s, false)
  end.

(** The connector of [BackendInner::connect]: whether a stream may be opened. *)
Definition connector_allowed (g : Z) (s : ConnectionState) : bool :=
  (cs_generation s =? g) && negb (bool_decide (is_Some (cs_channel s))) && negb (cs_closed s).

(** [BackendInner::local_channel]; the endpoint of the socket may be invalid. *)
Definition local_channel (endpoint : result GrpcStatus Z) (s : ConnectionState) : ConnectionState * result GrpcStatus Z :=
  match cs_channel s with
  | Some g => (s, Ok g)
  | None =>
      if cs_closed s then (s, Err closed_status)
      else match endpoint with
           | Ok g => (mk_ConnectionState (Some g) (cs_phase s) (cs_reconnect_task s) (cs_closed s) (cs_generation s), Ok g)
           | r => (s, r)
           end
  end.

(** [BackendInner::close]. *)
Definition connection_close (s : ConnectionState) : ConnectionState :=
  mk_ConnectionState None PIdle false true (cs_generation s).

(** ** Reconnecting *)

(** The end of [start_reconnecting]: what becomes of the spawned task. *)
Inductive Started : Set := TaskRuns | TaskAborted.
Definition start_reconnecting (s : ConnectionState) : ConnectionState * Started :=
  if cs_closed s
  then (mk_ConnectionState (cs_channel s) PIdle (cs_reconnect_task s) (cs_closed s) (cs_generation s), TaskAborted)
  else if cs_reconnect_task s then (s, TaskAborted)
  else (mk_ConnectionState (cs_channel s) (cs_phase s) true (cs_closed s) (cs_generation s), TaskRuns).

(** The task after its sleep: the generation it dials for, or its end. *)
Definition reconnect_wake (s : ConnectionState) : ConnectionState * option Z :=
  if cs_closed s then (s, None)
  else
    let g := next_generation (cs_generation s) in
    (mk_ConnectionState (cs_channel s) (cs_phase s) (cs_reconnect_task s) (cs_closed s) g, Some g).

(** The task after a successful [connect]: whether the channel was installed. *)
Definition reconnect_connected (g : Z) (s : ConnectionState) : ConnectionState * bool :=
  if cs_closed s
  then (mk_ConnectionState (cs_channel s) (cs_phase s) false (cs_closed s) (cs_generation s), false)
  else if cs_generation s =? g
  then (mk_ConnectionState (Some g) PIdle false (cs_closed s) (cs_generation s), true)
  else (s, false).

(** [Drop for TrackedTcp] of a stream of generation [g], inside a runtime: whether it
    had the current generation, and whether a task has to be started. *)
Definition tcp_drop (g : Z) (s : ConnectionState) : ConnectionState * bool * bool :=
  if cs_closed s || negb (cs_generation s =? g) then (s, false, false)
  else (mk_ConnectionState None PBackoff (cs_reconnect_task s) (cs_closed s) (next_generation (cs_generation s)),
        true, negb (cs_reconnect_task s)).

(** ** Interleaving *)

(** The task that was let run: asleep before an attempt, or dialling. *)
Inductive Reconnect := Sleeping (attempt : Z) | Dialling (attempt : Z) (g : Z).

(** The shared state, the generations callers dial for, the number of callers waiting
    to be woken, the calls of [start_reconnecting] that have not taken the lock, the
    task, and the callers that return an error with their guard armed. *)
Record Connection := mk_Connection {
  cn_state : ConnectionState;
  cn_dialling : list Z;
  cn_waiting : nat;
  cn_starting : nat;
  cn_task : option Reconnect;
  cn_leaving : nat
}.
Definition connection_new : Connection := mk_Connection connection_default [] 0 0 None 0.

(** [notify_waiters]. *)
Definition woken (notify : bool) (waiting : nat) : nat := if notify then 0%nat else waiting.
(** [saturating_add] of a [u32]. *)
Definition next_attempt (attempt : Z) : Z := Z.min (attempt + 1) (2 ^ 32 - 1).

(** The steps.  All interleavings are those with [timely] false.  With [timely] true
    they are restricted: the task does not wake while a call of [start_reconnecting]
    is about to take the lock.  Nothing in the code enforces that; it is likely, since
    the sleep is about a second or longer and the call has no await before the lock. *)
Inductive connection_step (timely : bool) (target : string) : Connection → Connection → Prop :=
| step_enter s d w st t s' r lv :
    channel_enter target s = (s', r) →
    connection_step timely target (mk_Connection s d w st t lv)
      (mk_Connection s' (match r with Connect g => g :: d | _ => d end)
         (match r with Wait => S w | _ => w end) st t lv)
| step_connected s pre g post w st t s' g' lv :
    channel_connected g s = (s', Ok g') →
    connection_step timely target (mk_Connection s (pre ++ g :: post) w st t lv)
      (mk_Connection s' (pre ++ post) 0 st t lv)
| step_superseded s pre g post w st t s' e lv :
    channel_connected g s = (s', Err e) →
    connection_step timely target (mk_Connection s (pre ++ g :: post) w st t lv)
      (mk_Connection s' (pre ++ post) w st t (S lv))
| step_left s d w st t s' notify lv :
    guard_drop s = (s', notify) →
    connection_step timely target (mk_Connection s d w st t (S lv)) (mk_Connection s' d (woken notify w) st t lv)
| step_failed s pre g post w st t s' should_reconnect lv :
    channel_failed g s = (s', should_reconnect) →
    connection_step timely target (mk_Connection s (pre ++ g :: post) w st t lv)
      (mk_Connection s' (pre ++ post) (woken should_reconnect w) (if should_reconnect then S st else st) t lv)
| step_cancelled s pre g post w st t s' notify lv :
    guard_drop s = (s', notify) →
    connection_step timely target (mk_Connection s (pre ++ g :: post) w st t lv)
      (mk_Connection s' (pre ++ post) (woken notify w) st t lv)
| step_start s d w st t s' r lv :
    start_reconnecting s = (s', r) →
    connection_step timely target (mk_Connection s d w (S st) t lv)
      (mk_Connection s' d w st (match r with TaskRuns => Some (Sleeping 0) | TaskAborted => t end) lv)
| step_wake s d w st a s' r lv :
    reconnect_wake s = (s', r) → (timely = true → st = 0%nat) →
    connection_step timely target (mk_Connection s d w st (Some (Sleeping a)) lv)
      (mk_Connection s' d w st (Dialling a <$> r) lv)
| step_reconnected s d w st a g s' installed lv :
    reconnect_connected g s = (s', installed) →
    connection_step timely target (mk_Connection s d w st (Some (Dialling a g)) lv)
      (mk_Connection s' d (woken installed w) st (if installed then None else Some (Sleeping (next_attempt a))) lv)
| step_not_reconnected s d w st a g lv :
    connection_step timely target (mk_Connection s d w st (Some (Dialling a g)) lv)
      (mk_Connection s d w st (Some (Sleeping (next_attempt a))) lv)
| step_tcp_drop s d w st t g s' current start lv :
    tcp_drop g s = (s', current, start) →
    connection_step timely target (mk_Connection s d w st t lv)
      (mk_Connection s' d (woken current w) (if start then S st else st) t lv)
| step_close s d w st t lv :
    connection_step timely target (mk_Connection s d w st t lv) (mk_Connection (connection_close s) d 0 st None lv).
