(* ===== verification/ProxyConnProps.v ===== *)
(** * The API proxy: a backend's connection is never stuck

    The invariant of the interleavings of callers, reconnecting task and streams, and
    what follows: nobody waits for nothing, a lost connection is noticed, and a channel
    can always be had again. *)

From S2P Require Import Prelude RustStr NetAddr PbAddr Machine Cluster ProxyMap ProxyConn.

Local Open Scope Z_scope.

(** ** The invariant *)

Definition is_dialling (t : option Reconnect) : Prop := ∃ a g, t = Some (Dialling a g).

Record open_inv (c : Connection) : Prop := {
  oi_channel g : cs_channel (cn_state c) = Some g → g = cs_generation (cn_state c) ∧ cs_phase (cn_state c) = PIdle;
  oi_initial : cs_phase (cn_state c) = PInitialConnect → cs_generation (cn_state c) ∈ cn_dialling c;
  oi_backoff : cs_phase (cn_state c) = PBackoff ↔ is_Some (cn_task c) ∨ (0 < cn_starting c)%nat;
  oi_task : cs_reconnect_task (cn_state c) = bool_decide (is_Some (cn_task c));
  oi_starting : (0 < cn_starting c)%nat → ¬ is_dialling (cn_task c);
  oi_waiting : (0 < cn_waiting c)%nat → cs_phase (cn_state c) = PInitialConnect
}.

Definition connection_inv (c : Connection) : Prop :=
  if cs_closed (cn_state c)
  then cs_channel (cn_state c) = None ∧ cn_waiting c = 0%nat ∧ cn_task c = None ∧ cs_phase (cn_state c) = PIdle
  else open_inv c.

Lemma connection_new_inv : connection_inv connection_new.
Proof.
  split; simpl; try done; try lia. split; [done|]. intros [[? ?]|?]; [done|lia].
Qed.

Lemma enter_inv target s d w st t lv : connection_inv (mk_Connection s d w st t lv) →
  let '(s', r) := channel_enter target s in
  connection_inv (mk_Connection s' (match r with Connect g => g :: d | _ => d end) (match r with Wait => S w | _ => w end) st t lv).
Proof.
  unfold channel_enter. destruct s as [ch ph rt cl gen]. simpl.
  destruct ch as [g|]; [done|]. destruct cl; [done|]. intros [H1 H2 H3 H4 H5 H6]; simpl in *.
  destruct ph; simpl; split; simpl in *; try done; try lia; try set_solver.
Qed.

(** A guard that is dropped leaves no phase behind. *)
Lemma guard_inv s d d' w st t lv lv' : connection_inv (mk_Connection s d w st t lv) →
  let '(s', notify) := guard_drop s in connection_inv (mk_Connection s' d' (woken notify w) st t lv').
Proof.
  unfold guard_drop. destruct s as [ch ph rt cl gen]; simpl. unfold connection_inv; simpl. destruct cl; simpl.
  { intros (-> & -> & -> & ->). done. }
  intros [H1 H2 H3 H4 H5 H6]; simpl in *.
  destruct ph; split; simpl in *; try done; try lia; try (by intros g Hg; destruct (H1 g Hg)).
  rewrite <-H3. done.
Qed.

Lemma connected_inv s pre g post w st t lv : connection_inv (mk_Connection s (pre ++ g :: post) w st t lv) →
  match channel_connected g s with
  | (s', Ok _) => connection_inv (mk_Connection s' (pre ++ post) 0 st t lv)
  | (s', Err _) => connection_inv (mk_Connection s' (pre ++ post) w st t (S lv))
  | (_, Panic _) => False
  end.
Proof.
  unfold channel_connected. destruct s as [ch ph rt cl gen]; simpl. unfold connection_inv; simpl. destruct cl; [done|].
  intros [H1 H2 H3 H4 H5 H6]; simpl in *. destruct (bool_decide_reflect (ph = PInitialConnect)) as [Hp|Hp]; rewrite ?orb_true_r, ?orb_false_r; simpl.
  - subst ph. destruct (Z.eqb_spec gen g) as [->|]; simpl.
    + split; simpl; try done; try lia; [by intros ? [= <-]|]. by rewrite <-H3.
    + split; simpl in *; try done; try lia. intros _. specialize (H2 eq_refl). set_solver.
  - by split.
Qed.

Lemma failed_inv s pre g post w st t lv : connection_inv (mk_Connection s (pre ++ g :: post) w st t lv) →
  let '(s', should) := channel_failed g s in
  connection_inv (mk_Connection s' (pre ++ post) (woken should w) (if should then S st else st) t lv).
Proof.
  unfold channel_failed. destruct s as [ch ph rt cl gen]; simpl. unfold connection_inv; simpl. destruct cl; [done|].
  intros [H1 H2 H3 H4 H5 H6]; simpl in *. destruct ph; simpl; [by split| |by split].
  destruct (Z.eqb_spec gen g) as [->|]; split; simpl in *; try done; try lia.
  - by intros g' Hg; destruct (H1 g' Hg).
  - split; [|done]. intros _. right. lia.
  - intros _ (a & g' & ->). by assert (PInitialConnect = PBackoff) by (apply H3; left; by eexists).
  - intros _. specialize (H2 eq_refl). set_solver.
Qed.

Lemma start_reconnecting_inv s d w st t lv : connection_inv (mk_Connection s d w (S st) t lv) →
  let '(s', r) := start_reconnecting s in
  connection_inv (mk_Connection s' d w st (match r with TaskRuns => Some (Sleeping 0) | TaskAborted => t end) lv).
Proof.
  unfold start_reconnecting. destruct s as [ch ph rt cl gen]; simpl. unfold connection_inv; simpl. destruct cl; simpl.
  { intros (-> & -> & -> & ->). done. }
  intros [H1 H2 H3 H4 H5 H6]; simpl in *. assert (ph = PBackoff) as -> by (apply H3; right; lia).
  destruct rt; split; simpl in *; try done.
  - symmetry in H4. apply bool_decide_eq_true in H4. split; [by left|done].
  - intros _. apply H5. lia.
  - split; [by left|done].
  - intros _ (a & g & ?). done.
Qed.

Lemma wake_inv s d w st a lv : connection_inv (mk_Connection s d w st (Some (Sleeping a)) lv) → st = 0%nat →
  let '(s', r) := reconnect_wake s in connection_inv (mk_Connection s' d w st (Dialling a <$> r) lv).
Proof.
  intros Hinv ->. revert Hinv. unfold reconnect_wake. destruct s as [ch ph rt cl gen]; simpl. unfold connection_inv; simpl.
  destruct cl; simpl; [by intros (? & ? & ? & ?)|].
  intros [H1 H2 H3 H4 H5 H6]; simpl in *. assert (ph = PBackoff) as -> by (apply H3; left; by eexists).
  split; simpl in *; try done; try lia; [by intros g Hg; destruct (H1 g Hg)|].
  split; [by left|done].
Qed.

Lemma reconnected_inv s d w st a g lv : connection_inv (mk_Connection s d w st (Some (Dialling a g)) lv) →
  (let '(s', installed) := reconnect_connected g s in
   connection_inv (mk_Connection s' d (woken installed w) st (if installed then None else Some (Sleeping (next_attempt a))) lv)) ∧
  connection_inv (mk_Connection s d w st (Some (Sleeping (next_attempt a))) lv).
Proof.
  unfold reconnect_connected. destruct s as [ch ph rt cl gen]; simpl. unfold connection_inv; simpl.
  destruct cl; simpl; [by intros (? & ? & ? & ?)|]. intros Hinv.
  assert (open_inv (mk_Connection (mk_ConnectionState ch ph rt false gen) d w st (Some (Sleeping (next_attempt a))) lv)) as Hs.
  { destruct Hinv as [H1 H2 H3 H4 H5 H6]; simpl in *. split; simpl in *; try done.
    - rewrite H3. split; (intros [_|?]; [left; by eexists|by right]).
    - intros _ (? & ? & ?). done. }
  split; [|done]. destruct (Z.eqb_spec gen g) as [->|]; [|done].
  destruct Hinv as [H1 H2 H3 H4 H5 H6]; simpl in *.
  assert (st = 0%nat) as -> by (destruct st; [done|]; exfalso; apply H5; [lia|]; by eexists _, _).
  split; simpl; try done; try lia; [by intros ? [= <-]|]. split; [done|]. intros [[? ?]|?]; [done|lia].
Qed.

Lemma tcp_drop_inv s d w st t g lv : connection_inv (mk_Connection s d w st t lv) →
  let '(s', current, start) := tcp_drop g s in
  connection_inv (mk_Connection s' d (woken current w) (if start then S st else st) t lv).
Proof.
  unfold tcp_drop. destruct s as [ch ph rt cl gen]; simpl. unfold connection_inv; simpl. destruct cl; [done|]. simpl.
  destruct (Z.eqb_spec gen g) as [->|]; [|done]. simpl.
  intros [H1 H2 H3 H4 H5 H6]; simpl in *. subst rt. split; simpl; try done; try lia.
  - split; [|done]. intros _. case_bool_decide; [by left|right; simpl; lia].
  - case_bool_decide as Ht; simpl; [done|]. intros _ (a & g' & ->). destruct Ht. by eexists.
Qed.

Lemma step_inv target c c' : connection_step true target c c' → connection_inv c → connection_inv c'.
Proof.
  destruct 1; intros Hinv;
    lazymatch goal with
    | E : channel_enter _ _ = _ |- _ => pose proof (enter_inv target _ _ _ _ _ _ Hinv) as H1; by rewrite E in H1
    | E : channel_connected _ _ = _ |- _ => pose proof (connected_inv _ _ _ _ _ _ _ _ Hinv) as H1; by rewrite E in H1
    | E : channel_failed _ _ = _ |- _ => pose proof (failed_inv _ _ _ _ _ _ _ _ Hinv) as H1; by rewrite E in H1
    | E : guard_drop _ = _ |- connection_inv (mk_Connection _ ?d _ _ _ ?lv) =>
        pose proof (guard_inv _ _ d _ _ _ _ lv Hinv) as H1; by rewrite E in H1
    | E : start_reconnecting _ = _ |- _ => pose proof (start_reconnecting_inv _ _ _ _ _ _ Hinv) as H1; by rewrite E in H1
    | E : reconnect_wake _ = _, Ht : true = true → _ |- _ =>
        pose proof (wake_inv _ _ _ _ _ _ Hinv (Ht eq_refl)) as H1; by rewrite E in H1
    | E : reconnect_connected _ _ = _ |- _ =>
        destruct (reconnected_inv _ _ _ _ _ _ _ Hinv) as [H1 _]; by rewrite E in H1
    | E : tcp_drop ?g _ = _ |- _ => pose proof (tcp_drop_inv _ _ _ _ _ g _ Hinv) as H1; by rewrite E in H1
    | _ => idtac
    end.
  - by destruct (reconnected_inv _ _ _ _ _ _ _ Hinv) as [_ H1].
  - done.
Qed.

Lemma reachable_connection_inv target c : rtc (connection_step true target) connection_new c → connection_inv c.
Proof.
  revert c. apply rtc_ind_r; [apply connection_new_inv|]. intros c1 c2 _ Hs. by apply (step_inv target).
Qed.

(** ** Recovery *)

Definition recovers (target : string) (c : Connection) : Prop :=
  ∃ c', rtc (connection_step true target) c c' ∧ is_Some (cs_channel (cn_state c')).

Lemma recovers_step target c c' : connection_step true target c c' → recovers target c' → recovers target c.
Proof. intros Hs (c2 & Hr & Hc). exists c2. split; [by eapply rtc_l|done]. Qed.

Lemma recovers_initial target c : open_inv c → cs_closed (cn_state c) = false →
  cs_phase (cn_state c) = PInitialConnect → recovers target c.
Proof.
  destruct c as [[ch ph rt cl gen] d w st t lv]. intros Hinv Hc Hp. simpl in *. subst cl ph.
  pose proof (oi_initial _ Hinv eq_refl) as Hd. simpl in Hd. apply list_elem_of_split in Hd as (pre & post & ->).
  eapply recovers_step; [eapply step_connected; unfold channel_connected; simpl; by rewrite Z.eqb_refl|].
  eexists. split; [apply rtc_refl|]. simpl. by eexists.
Qed.

Lemma recovers_sleeping target s d w a lv : cs_closed s = false →
  recovers target (mk_Connection s d w 0 (Some (Sleeping a)) lv).
Proof.
  intros Hc. destruct s as [ch ph rt cl gen]. simpl in *. subst cl.
  eapply recovers_step; [by eapply step_wake|]. cbn [fmap option_fmap option_map].
  eapply recovers_step; [eapply step_reconnected; unfold reconnect_connected; simpl; by rewrite Z.eqb_refl|].
  eexists. split; [apply rtc_refl|]. simpl. by eexists.
Qed.

Lemma recovers_backoff target c : open_inv c → cs_closed (cn_state c) = false →
  cs_phase (cn_state c) = PBackoff → recovers target c.
Proof.
  destruct c as [s d w st t lv]. simpl. revert s t. induction st as [|st IH]; intros s t Hinv Hc Hp.
  - destruct (proj1 (oi_backoff _ Hinv) Hp) as [[[a|a g] Ht]|Hlt]; simpl in *; [..|lia]; subst t.
    + by apply recovers_sleeping.
    + eapply recovers_step; [apply step_not_reconnected|]. by apply recovers_sleeping.
  - assert (connection_inv (mk_Connection s d w (S st) t lv)) as Hci by (unfold connection_inv; simpl; by rewrite Hc).
    pose proof (start_reconnecting_inv _ _ _ _ _ _ Hci) as Hs. destruct (start_reconnecting s) as [s' r] eqn:E.
    eapply recovers_step; [by eapply step_start|]. unfold connection_inv in Hs. simpl in Hs.
    assert (cs_closed s' = false ∧ cs_phase s' = PBackoff) as [H1 H2].
    { unfold start_reconnecting in E. rewrite Hc in E. destruct (cs_reconnect_task s); simplify_eq; done. }
    rewrite H1 in Hs. by apply IH.
Qed.

Lemma recovers_open target c : open_inv c → cs_closed (cn_state c) = false → recovers target c.
Proof.
  intros Hinv Hc. destruct (cs_channel (cn_state c)) as [g|] eqn:Ech.
  { exists c. split; [apply rtc_refl|]. by eexists. }
  destruct (cs_phase (cn_state c)) eqn:Ep; [|by apply recovers_initial|by apply recovers_backoff].
  destruct c as [[ch ph rt cl gen] d w st t lv]. simpl in *. subst ch ph cl.
  assert (connection_inv (mk_Connection (mk_ConnectionState None PIdle rt false gen) d w st t lv)) as Hci by done.
  pose proof (enter_inv target _ _ _ _ _ _ Hci) as He.
  eapply recovers_step; [by eapply step_enter|]. by apply recovers_initial.
Qed.

(** ** Theorems *)

(** C24: a backend's connection is never stuck as long as the reconnecting task does not
    wake, from its sleep of about a second or longer, while a call of [start_reconnecting] is still
    waiting for the lock (the code does not rule that out; then a connection can be lost
    for good, see [late_start_loses_connection]).  In every other interleaving of callers
    of [channel], the reconnecting task, ends of streams and [close], while the backend is
    open, a caller waits only while another one is dialling for the current generation,
    the phase [Backoff] has a task that reconnects or is about to start, a channel is
    the one of the current generation, so that the end of its stream is noticed and the
    channel is no longer given out, and a channel can be had again; and a closed
    backend has no channel, no task and no waiting caller. *)
Theorem connection_never_stuck target c : rtc (connection_step true target) connection_new c →
  if cs_closed (cn_state c)
  then cs_channel (cn_state c) = None ∧ cn_waiting c = 0%nat ∧ cn_task c = None ∧
       (channel_enter target (cn_state c)).2 = GotError closed_status
  else
    ((0 < cn_waiting c)%nat ∨ cs_phase (cn_state c) = PInitialConnect → cs_generation (cn_state c) ∈ cn_dialling c) ∧
    (cs_phase (cn_state c) = PBackoff → is_Some (cn_task c) ∨ (0 < cn_starting c)%nat) ∧
    (∀ g, cs_channel (cn_state c) = Some g →
       let '(s, current, start) := tcp_drop g (cn_state c) in
       cs_channel s = None ∧ cs_phase s = PBackoff ∧ current = true ∧ start = true) ∧
    ∃ c', rtc (connection_step true target) c c' ∧ is_Some (cs_channel (cn_state c')).
Proof.
  intros Hinv%reachable_connection_inv. unfold connection_inv in Hinv.
  destruct (cs_closed (cn_state c)) eqn:Hc.
  - destruct Hinv as (H1 & H2 & H3 & H4). split_and!; try done. unfold channel_enter. by rewrite H1, Hc.
  - split_and!.
    + intros [Hw|Hp]; apply (oi_initial _ Hinv); [by apply (oi_waiting _ Hinv)|done].
    + apply (oi_backoff _ Hinv).
    + intros g Hg. destruct (oi_channel _ Hinv g Hg) as [-> Hp]. unfold tcp_drop. rewrite Hc, Z.eqb_refl. simpl.
      split_and!; [done..|]. rewrite (oi_task _ Hinv). case_bool_decide as Ht; [|done].
      exfalso. by assert (cs_phase (cn_state c) = PBackoff) by (apply (oi_backoff _ Hinv); by left); congruence.
    + by apply recovers_open.
Qed.

(** The bound on the sections of [start_reconnecting] is needed: a call that takes the
    lock only after another task has reconnected starts a second task beside a live
    channel; it moves the generation on, so that the end of the channel's stream goes
    unnoticed, and it never dials again. *)
Theorem late_start_loses_connection target :
  ∃ c g, rtc (connection_step false target) connection_new c ∧
    cs_channel (cn_state c) = Some g ∧ cs_closed (cn_state c) = false ∧
    tcp_drop g (cn_state c) = (cn_state c, false, false) ∧
    connector_allowed (cs_generation (cn_state c)) (cn_state c) = false ∧ is_Some (cn_task c).
Proof.
  eexists _, 3. split.
  { eapply rtc_l; [by eapply step_enter|]. cbn.
    eapply rtc_l; [by eapply (step_failed _ _ _ [] _ [])|]. cbn.
    eapply rtc_l; [by eapply (step_tcp_drop _ _ _ _ _ _ _ 1)|]. cbn.
    eapply rtc_l; [by eapply step_start|]. cbn.
    eapply rtc_l; [by eapply step_wake|]. cbn.
    eapply rtc_l; [by eapply step_reconnected|]. cbn.
    eapply rtc_l; [by eapply step_start|]. cbn.
    eapply rtc_l; [by eapply step_wake|]. cbn. apply rtc_refl. }
  split_and!; try reflexivity. by eexists.
Qed.

(** A connection that was made and lost, with one caller dialling no more. *)
Definition lost_connection : Connection :=
  mk_Connection (mk_ConnectionState None PBackoff false false 2) [] 0 1 None 0.
Lemma lost_connection_reachable : rtc (connection_step true "[fdcc::2]:51000") connection_new lost_connection.
Proof.
  eapply rtc_l; [by eapply step_enter|]. cbn.
  eapply rtc_l; [by eapply (step_connected _ _ _ [] _ [])|]. cbn.
  eapply rtc_l; [by eapply (step_tcp_drop _ _ _ _ _ _ _ 1)|]. cbn. apply rtc_refl.
Qed.

Lemma connection_never_stuck_witness :
  ∃ c', rtc (connection_step true "[fdcc::2]:51000") lost_connection c' ∧ is_Some (cs_channel (cn_state c')).
Proof.
  destruct (connection_never_stuck "[fdcc::2]:51000" lost_connection lost_connection_reachable) as (_ & _ & _ & H).
  exact H.
Defined.
