(* ===== verification/Caddy.v ===== *)
(** * The Caddy configuration

    ployz-internal-machine-caddyconfig: the upstreams of published ports, the Caddyfile
    with users' own configurations (caddyfile.rs, template.rs), the JSON configuration
    (json_config.rs) and the controller that loads them (controller.rs).  Caddy's
    adapter, which validates a Caddyfile, the template engine, the admin socket and the
    disk answer as given. *)

From S2P Require Import Prelude BTree RustStr Wire Volume NetAddr Port Config ServiceSpec Time Container Machine Cluster Store StoreContainers.

Local Open Scope Z_scope.

Definition CADDY_SERVICE_NAME : string := "caddy".
Definition VERIFY_PATH : string := "/.uncloud-verify".

Definition tab : string := String (Ascii.ascii_of_nat 9) "".
(** Lines, each ended by a newline. *)
Definition lines_text (l : list string) : string := String.concat "" (map (fun s => s +:+ newline) l).

(** [slice::sort_by], which is stable. *)
Fixpoint insert_by {A} (cmp : A → A → comparison) (x : A) (l : list A) : list A :=
  match l with
  | [] => [x]
  | y :: l' => match cmp x y with Gt => y :: insert_by cmp x l' | _ => x :: l end
  end.
Definition sort_by {A} (cmp : A → A → comparison) (l : list A) : list A := foldr (insert_by cmp) [] l.

Section caddy.
Context `{JsonLib}.
Notation Sc := (ServiceContainer JsonValue).

(** ** Upstreams *)

(** [SocketAddr::to_string]. *)
Definition socket_addr_display (ip : IpAddr) (port : Z) : string :=
  match ip with
  | V4 v => ipv4_display v +:+ ":" +:+ dec port
  | V6 v => "[" +:+ ipv6_display v +:+ "]:" +:+ dec port
  end.

Notation Upstreams := (gmap string (list string)).

(** The loop of [http_upstreams_from_ports] over the ports of a container. *)
Definition add_port (ip : IpAddr) (acc : Upstreams * Upstreams) (port : PortSpec) : Upstreams * Upstreams :=
  let '(http, https) := acc in
  if negb (bool_decide (ps_mode port = PORT_MODE_INGRESS)) then acc
  else
    let upstream := socket_addr_display ip (ps_container_port port) in
    if bool_decide (ps_protocol port = PROTOCOL_HTTP) then (entry_push http (ps_hostname port) upstream, https)
    else if bool_decide (ps_protocol port = PROTOCOL_HTTPS) then (http, entry_push https (ps_hostname port) upstream)
    else acc.

Definition add_container (acc : Upstreams * Upstreams) (container : Sc) : result string (Upstreams * Upstreams) :=
  match uncloud_network_ip (sc_container container) with
  | None => Ok acc
  | Some ip =>
      ports ← result_ok (service_ports container);
      Ok (match ports with Some ports => foldl (add_port ip) acc ports | None => acc end)
  end.

(** [http_upstreams_from_ports]: by host name, for HTTP and for HTTPS. *)
Definition http_upstreams_from_ports (containers : list Sc) : result string (Upstreams * Upstreams) :=
  foldM add_container (∅, ∅) containers.

(** [service_upstreams]. *)
Definition service_upstreams (containers : list Sc) : Upstreams :=
  foldl (fun upstreams container =>
           match uncloud_network_ip (sc_container container) with
           | None => upstreams
           | Some ip => entry_push upstreams (service_name container) (ip_display ip)
           end) ∅ containers.

(** ** The Caddyfile of the ports *)

(** One site of [append_sites]. *)
Definition site_text (scheme : string) (site : string * list string) : string :=
  newline +:+ lines_text
    [scheme +:+ "://" +:+ site.1 +:+ " {";
     tab +:+ "reverse_proxy " +:+ str_join " " site.2 +:+ " {";
     tab +:+ tab +:+ "import common_proxy";
     tab +:+ "}";
     tab +:+ "log";
     "}"].
Definition append_sites (output scheme : string) (sites : Upstreams) : string :=
  output +:+ String.concat "" (map (site_text scheme) (btree_iter sites)).

(** [generate_base_from_ports]. *)
Definition base_text (verify_response : string) : string :=
  lines_text
    ["# Health check endpoint to verify Caddy reachability on this machine.";
     "http:// {";
     tab +:+ "handle " +:+ VERIFY_PATH +:+ " {";
     tab +:+ tab +:+ "respond " +:+ double_quote +:+ verify_response +:+ double_quote +:+ " 200";
     tab +:+ "}";
     tab +:+ "log";
     "}";
     "";
     "(common_proxy) {";
     tab +:+ "# Retry failed requests up to lb_retries times against other available upstreams.";
     tab +:+ "lb_retries 3";
     tab +:+ "# Upstreams are marked unhealthy for fail_duration after a failed request (passive health checking).";
     tab +:+ "fail_duration 30s";
     "}"].
Definition generate_base_from_ports (containers : list Sc) (verify_response : string) : result string string :=
  '(http, https) ← http_upstreams_from_ports containers;
  let output := base_text verify_response in
  let output := if bool_decide (http = ∅) && bool_decide (https = ∅) then output
                else output +:+ newline +:+ "# Sites generated from service ports." +:+ newline in
  Ok (append_sites (append_sites output "http" http) "https" https).

(** ** Templates *)

(** [TemplateContext]. *)
Record TemplateContext := mk_TemplateContext { tc_name : string; tc_upstreams : Upstreams }.

(** Values of [gotmpl]; values the code does not look into are known by their type. *)
Inductive TemplateValue :=
| TInt (n : Z) | TString (s : string) | TList (l : list TemplateValue) | TMap (m : list (string * TemplateValue))
| TOther (type_name : string).

(** What running a template gives; the worker thread may fail. *)
Inductive TemplateResult := TParseError (e : string) | TExecError (e : string) | TWorkerFailed (e : string) | TRendered (s : string).

(** [gotmpl]: the engine, given the function [upstreams] and the value, and the names
    of types. *)
Class Gotmpl := {
  template_type_name : TemplateValue → string;
  template_run : (list TemplateValue → string + TemplateValue) → TemplateValue → string → TemplateResult
}.
Context `{Gotmpl}.

(** [template_value]. *)
Definition template_value (context : TemplateContext) : TemplateValue :=
  TMap [("Name", TString (tc_name context));
        ("Upstreams", TMap (map (fun '(name, addresses) => (name, TList (map TString addresses)))
                              (btree_iter (tc_upstreams context))))].

(** [with_port]. *)
Definition with_port (address : string) (port : Z) : string :=
  if port <=? 0 then address
  else match ip_from_str address with
       | Ok (V6 _) => "[" +:+ address +:+ "]:" +:+ dec port
       | _ => address +:+ ":" +:+ dec port
       end.

(** [render_upstreams]. *)
Definition render_upstreams (context : TemplateContext) (arguments : list TemplateValue) : string + TemplateValue :=
  let go service_name port :=
    inr (TString (str_join " " (map (fun address => with_port address port)
                                  (default [] (tc_upstreams context !! service_name))))) in
  match arguments with
  | [] => go (tc_name context) 0
  | [TInt port] => go (tc_name context) port
  | [TString service_name] => go service_name 0
  | [argument] => inl ("upstreams function: invalid argument type: " +:+ template_type_name argument)
  | [TString service_name; TInt port] => go service_name port
  | [TString _; _] => inl "upstreams function: second argument must be port (int)"
  | [_; _] => inl "upstreams function: first argument must be service name (string)"
  | _ => inl ("upstreams function: too many arguments; expected 0-2, got " +:+ dec (Z.of_nat (length arguments)))
  end.

(** [render_caddyfile], run by [render_caddyfile_off_thread]. *)
Definition render_caddyfile (context : TemplateContext) (source : string) : string + string :=
  match template_run (render_upstreams context) (template_value context) source with
  | TParseError e => inl ("parse config as Go template: " +:+ e)
  | TExecError e => inl ("execute template: " +:+ e)
  | TWorkerFailed e => inl ("template worker failed: " +:+ e)
  | TRendered s => inr s
  end.

(** ** The Caddyfile *)

(** [service_container_created_time]: the first component of [created_time]; reading a
    timestamp does not panic. *)
Definition container_created (container : Sc) : option Rfc3339Time :=
  match @created_time JsonValue string (sc_container container) with Ok (t, _) => t | _ => None end.

(** The derived order of [Option<Rfc3339Time>]. *)
Definition time_cmp (a b : Rfc3339Time) : comparison :=
  then_cmp (unix_seconds a ?= unix_seconds b) (then_cmp (nanos a ?= nanos b) (year a ?= year b)).
Definition created_cmp (a b : option Rfc3339Time) : comparison :=
  match a, b with
  | None, None => Eq
  | None, Some _ => Lt
  | Some _, None => Gt
  | Some a, Some b => time_cmp a b
  end.

(** [CaddyfileGenerator]; a validator answers with an error or accepts. *)
Record CaddyfileGenerator := mk_CaddyfileGenerator {
  cg_machine_id : string; cg_machine_name : string; cg_validator : option (string → option string)
}.

(** [CaddyfileGenerator::validate]. *)
Definition caddy_validate (self : CaddyfileGenerator) (caddyfile : string) : option string :=
  match cg_validator self with
  | None => Some "Caddyfile validator is unavailable"
  | Some validator => validator caddyfile
  end.

(** [compare_records]: records of other machines come later. *)
Definition bool_cmp (a b : bool) : comparison :=
  match a, b with false, true => Lt | true, false => Gt | _, _ => Eq end.
Definition compare_records (self : CaddyfileGenerator) (left right : ContainerRecord) : comparison :=
  then_cmp (bool_cmp (negb (bool_decide (cr_machine_id left = cg_machine_id self)))
                     (negb (bool_decide (cr_machine_id right = cg_machine_id self))))
    (then_cmp (str_cmp (service_name (cr_container left)) (service_name (cr_container right)))
              (created_cmp (container_created (cr_container left)) (container_created (cr_container right)))).

(** The newest Caddy container of this machine, the first one of equal age. *)
Definition caddy_container (self : CaddyfileGenerator) (records : list ContainerRecord) : option Sc :=
  match filter (fun r => cr_machine_id r = cg_machine_id self ∧ service_name (cr_container r) = CADDY_SERVICE_NAME) records with
  | [] => None
  | first :: rest =>
      Some (cr_container (foldl (fun latest candidate =>
              match created_cmp (container_created (cr_container candidate)) (container_created (cr_container latest)) with
              | Gt => candidate
              | _ => latest
              end) first rest))
  end.

(** The newest container of every service, the first one of equal age. *)
Definition latest_containers (containers : list Sc) : gmap string Sc :=
  foldl (fun latest container =>
           match latest !! service_name container with
           | Some previous =>
               match created_cmp (container_created previous) (container_created container) with
               | Lt => <[service_name container := container]> latest
               | _ => latest
               end
           | None => <[service_name container := container]> latest
           end) ∅ containers.

(** The Caddyfile so far and the configurations skipped. *)
Definition Progress : Type := string * list string.

(** A user's configuration: rendered, put beside the Caddyfile, kept if it validates. *)
Definition try_config (self : CaddyfileGenerator) (upstreams : Upstreams) (place : string → string → string)
    (service_name config : string) (progress : Progress) : Progress :=
  let '(caddyfile, errors) := progress in
  match render_caddyfile (mk_TemplateContext service_name upstreams) config with
  | inl error => (caddyfile, errors ++ ["service '" +:+ service_name +:+ "': failed to render template: " +:+ error])
  | inr rendered =>
      let candidate := place caddyfile rendered in
      match caddy_validate self candidate with
      | None => (candidate, errors)
      | Some error => (caddyfile, errors ++ ["service '" +:+ service_name +:+ "': validation failed: " +:+ error])
      end
  end.

Definition global_candidate (service_name caddyfile rendered : string) : string :=
  "# User-defined global config from service '" +:+ service_name +:+ "'." +:+ newline +:+
  rendered +:+ newline +:+ newline +:+ caddyfile.
Definition service_candidate (service_name caddyfile rendered : string) : string :=
  caddyfile +:+ newline +:+ "# User-defined config for service '" +:+ service_name +:+ "'." +:+ newline +:+
  rendered +:+ newline.

Definition try_global (self : CaddyfileGenerator) (upstreams : Upstreams) (container : option Sc) (progress : Progress) :
    Progress :=
  match container with
  | Some container =>
      let config := caddy_config (sc_service_spec container) in
      if str_is_empty config then progress
      else try_config self upstreams (global_candidate (service_name container)) (service_name container) config progress
  | None => progress
  end.

Definition try_service (self : CaddyfileGenerator) (upstreams : Upstreams) (progress : Progress) (entry : string * Sc) :
    Progress :=
  let config := caddy_config (sc_service_spec entry.2) in
  if bool_decide (entry.1 = CADDY_SERVICE_NAME) || str_is_empty config then progress
  else try_config self upstreams (service_candidate entry.1) entry.1 config progress.

(** The comment that lists what was skipped. *)
Definition skipped_text (errors : list string) : string :=
  match errors with
  | [] => ""
  | _ => newline +:+ lines_text ("# Skipped invalid user-defined configs:" :: map (fun e => "# - " +:+ e) errors)
  end.

Definition CADDYFILE_UNAVAILABLE_FOOTER : string :=
  lines_text
    ["# NOTE: User-defined configs for services were skipped because Caddy is not running on this machine";
     "#       (not accessible via the shared admin socket /run/uncloud/caddy/admin.sock) or the latest";
     "#       generated config is invalid. Please check the service 'caddy' is running (uc inspect caddy)";
     "#       and its logs for more details (uc logs caddy)."].

Definition header_text (self : CaddyfileGenerator) (now : Z) : string :=
  lines_text
    ["# Caddyfile autogenerated by Uncloud on machine '" +:+ cg_machine_name self +:+ "' (DO NOT EDIT): " +:+ rfc3339_utc now;
     "# Automatically updated on service or health status changes.";
     "# Docs: https://uncloud.run/docs/concepts/ingress/overview"].

(** [CaddyfileGenerator::generate] at the time [now], with the records it has sorted. *)
Definition generate (self : CaddyfileGenerator) (now : Z) (records : list ContainerRecord) (include_custom : bool) :
    result string (string * list ContainerRecord) :=
  let records := sort_by (compare_records self) records in
  let containers := map cr_container records in
  caddyfile ← generate_base_from_ports containers (cg_machine_id self);
  if negb include_custom
  then Ok (header_text self now +:+ newline +:+ caddyfile +:+ newline +:+ CADDYFILE_UNAVAILABLE_FOOTER, records)
  else
    let upstreams := service_upstreams containers in
    let progress := try_global self upstreams (caddy_container self records) (caddyfile, []) in
    let '(caddyfile, errors) := foldl (try_service self upstreams) progress (btree_iter (latest_containers containers)) in
    Ok (header_text self now +:+ newline +:+ caddyfile +:+ skipped_text errors, records).

(** ** JSON *)

(** [routes]; the members of an object come in no particular order. *)
Definition route_json (site : string * list string) : Json :=
  JObj [("match", JArr [JObj [("host", JArr [JStr site.1])]]);
        ("handle", JArr [JObj [("handler", JStr "reverse_proxy");
                               ("health_checks", JObj [("passive", JObj [("fail_duration", JNum 30000000000)])]);
                               ("load_balancing", JObj [("retries", JNum 3)]);
                               ("upstreams", JArr (map (fun dial => JObj [("dial", JStr dial)]) site.2))]])].
Definition routes (hosts : Upstreams) : list Json := map route_json (btree_iter hosts).

(** [generate_json_config]: the value of the app [http]. *)
Definition generate_json_config (containers : list Sc) (verify_response : string) : result string Json :=
  '(http_upstreams, https_upstreams) ← http_upstreams_from_ports containers;
  let http_routes :=
    routes http_upstreams ++
    [JObj [("match", JArr [JObj [("path", JArr [JStr VERIFY_PATH])]]);
           ("handle", JArr [JObj [("body", JStr verify_response); ("handler", JStr "static_response");
                                  ("status_code", JNum 200)]])]] in
  let https_routes := routes https_upstreams in
  let http := [("listen", JArr [JStr ":80"]); ("routes", JArr http_routes); ("logs", JObj [])] in
  let https := [("listen", JArr [JStr ":443"]); ("logs", JObj [])] ++
               match https_routes with [] => [] | _ => [("routes", JArr https_routes)] end in
  Ok (JObj [("servers", JObj [("http", JObj http); ("https", JObj https)])]).

(** ** The controller *)

(** [ContainerFingerprint] and its [PartialEq]. *)
Record ContainerFingerprint := mk_ContainerFingerprint {
  fp_id : string; fp_ip : option IpAddr; fp_ports : list PortSpec; fp_caddy_config : string
}.
Definition fingerprint_eqb (a b : ContainerFingerprint) : bool :=
  bool_decide (fp_id a = fp_id b) && bool_decide (fp_ip a = fp_ip b) &&
  ports_equal (fp_ports a) (fp_ports b) && bool_decide (fp_caddy_config a = fp_caddy_config b).
Fixpoint fingerprints_eqb (a b : list ContainerFingerprint) : bool :=
  match a, b with
  | [], [] => true
  | x :: a, y :: b => fingerprint_eqb x y && fingerprints_eqb a b
  | _, _ => false
  end.

(** [filter_healthy_containers]. *)
Definition filter_healthy_containers (containers : list ContainerRecord) : list ContainerRecord :=
  filter (fun r => negb (is_hook (cr_container r)) && healthy (sc_container (cr_container r)) = true) containers.

(** [fingerprint_containers]. *)
Definition fingerprint_container (r : ContainerRecord) : result string ContainerFingerprint :=
  ports ← result_ok (service_ports (cr_container r));
  Ok (mk_ContainerFingerprint (c_id (sc_container (cr_container r))) (uncloud_network_ip (sc_container (cr_container r)))
        (default [] ports) (caddy_config (sc_service_spec (cr_container r)))).
Definition fingerprint_containers (containers : list ContainerRecord) : result string (list ContainerFingerprint) :=
  fingerprints ← traverse fingerprint_container containers;
  Ok (sort_by (fun left right => str_cmp (fp_id left) (fp_id right)) fingerprints).

(** [caddyfile_body]. *)
Definition caddyfile_body (caddyfile : string) : string :=
  match split_once (Ascii.ascii_of_nat 10) caddyfile with Some (_, body) => body | None => caddyfile end.

(** [Controller], with the Caddyfile on the disk and the one Caddy was given. *)
Record Controller := mk_Controller {
  ct_generator : option CaddyfileGenerator;
  ct_last_fingerprint : list ContainerFingerprint;
  ct_last_caddyfile : string;
  ct_disk : option string;
  ct_loaded : option string
}.
Definition controller_new : Controller := mk_Controller None [] "" None None.

(** How writing the file ends: done, done without the group set, or failed, with what
    is then on the disk. *)
Inductive WriteOutcome := FileWritten | FileNotOwned | FileFailed (disk : option string).

(** [write_caddyfile_if_changed]. *)
Definition write_caddyfile_if_changed (outcome : WriteOutcome) (caddyfile : string) (self : Controller) : Controller :=
  if bool_decide (caddyfile_body caddyfile = caddyfile_body (ct_last_caddyfile self)) then self
  else
    match outcome with
    | FileWritten =>
        mk_Controller (ct_generator self) (ct_last_fingerprint self) caddyfile (Some caddyfile) (ct_loaded self)
    | FileNotOwned =>
        mk_Controller (ct_generator self) (ct_last_fingerprint self) (ct_last_caddyfile self) (Some caddyfile)
          (ct_loaded self)
    | FileFailed disk =>
        mk_Controller (ct_generator self) (ct_last_fingerprint self) (ct_last_caddyfile self) disk (ct_loaded self)
    end.

(** What the outside answers during one event: the clock, whether Caddy answers, whether
    it takes the configuration, how writing the file ends. *)
Record Answers := mk_Answers { an_now : Z; an_available : bool; an_load : bool; an_write : WriteOutcome }.

(** [generate_and_load_caddyfile]. *)
Definition generate_and_load_caddyfile (answers : Answers) (containers : list ContainerRecord) (self : Controller) :
    result string Controller :=
  fingerprint ← fingerprint_containers containers;
  if an_available answers && fingerprints_eqb (ct_last_fingerprint self) fingerprint then Ok self
  else
    match ct_generator self with
    | None => Ok self
    | Some generator =>
        '(caddyfile, _) ← generate generator (an_now answers) containers (an_available answers);
        if negb (an_available answers)
        then Ok (write_caddyfile_if_changed (an_write answers) caddyfile self)
        else if negb (an_load answers)
        then Ok (mk_Controller (ct_generator self) [] (ct_last_caddyfile self) (ct_disk self) (ct_loaded self))
        else Ok (write_caddyfile_if_changed (an_write answers) caddyfile
                   (mk_Controller (ct_generator self) fingerprint (ct_last_caddyfile self) (ct_disk self) (Some caddyfile)))
    end.

(** The start of [Controller::run]: the machine's name from the store, or its id. *)
Definition controller_start (machine_id : string) (machine_name : string + string) (validator : string → option string)
    (self : Controller) : Controller :=
  let name := match machine_name with inr name => name | inl _ => machine_id end in
  mk_Controller (Some (mk_CaddyfileGenerator machine_id name (Some validator))) (ct_last_fingerprint self)
    (ct_last_caddyfile self) (ct_disk self) (ct_loaded self).

(** One change in the loop of [Controller::run]: an error of the listing skips it. *)
Definition controller_change (answers : Answers) (listed : string + list ContainerRecord) (self : Controller) :
    result string Controller :=
  match listed with
  | inl _ => Ok self
  | inr containers => generate_and_load_caddyfile answers (filter_healthy_containers containers) self
  end.
End caddy.
