(* ===== verification/CaddyProps.v ===== *)
(** * The Caddy configuration: what is routed where

    The upstreams of every site are exactly the published ports of the containers; the
    Caddyfile and the JSON configuration say the same; users' configurations are
    included only when the whole validates; the controller keeps Caddy's configuration
    up to date, and where it does not. *)

From S2P Require Import Prelude BTree RustStr Wire Volume NetAddr Port Config ServiceSpec Time Container Machine Cluster Store StoreContainers Caddy.

Local Open Scope Z_scope.

Section sites.
Context `{JsonLib}.
Notation Sc := (ServiceContainer JsonValue).

(** ** Upstreams *)

(** The upstreams of a host that a container publishes with a protocol. *)
Definition publishes (protocol host : string) (port : PortSpec) : bool :=
  bool_decide (ps_mode port = PORT_MODE_INGRESS) && bool_decide (ps_protocol port = protocol)
  && bool_decide (ps_hostname port = host).
Definition port_upstream (protocol host : string) (ip : IpAddr) (port : PortSpec) : option string :=
  if publishes protocol host port then Some (socket_addr_display ip (ps_container_port port)) else None.
Definition container_upstreams (protocol host : string) (container : Sc) : list string :=
  match uncloud_network_ip (sc_container container), service_ports container with
  | Some ip, Ok ports => omap (port_upstream protocol host ip) ports
  | _, _ => []
  end.

(** A map of sites with the given upstreams, none of them empty. *)
Definition sites_are (f : string → list string) (m : gmap string (list string)) : Prop :=
  ∀ host, m !! host = match f host with [] => None | l => Some l end.

Lemma sites_push f m host x : sites_are f m →
  sites_are (fun h => f h ++ if bool_decide (host = h) then [x] else []) (entry_push m host x).
Proof.
  intros Hm h. case_bool_decide as E.
  - subst h. rewrite entry_push_eq, Hm. destruct (f host) as [|y l]; done.
  - by rewrite entry_push_ne, app_nil_r by done.
Qed.

Lemma sites_ext f g m : (∀ h, f h = g h) → sites_are f m → sites_are g m.
Proof. intros E Hm h. by rewrite <-E. Qed.

Lemma add_port_sites f g ip acc port : sites_are f acc.1 → sites_are g acc.2 →
  let '(http, https) := add_port ip acc port in
  sites_are (fun h => f h ++ option_list (port_upstream PROTOCOL_HTTP h ip port)) http ∧
  sites_are (fun h => g h ++ option_list (port_upstream PROTOCOL_HTTPS h ip port)) https.
Proof.
  destruct acc as [http https]. intros Hf Hg. unfold add_port, port_upstream, publishes.
  destruct (bool_decide (ps_mode port = PORT_MODE_INGRESS)); cbn [negb andb].
  2: { split; (eapply sites_ext; [|done]); intros h; simpl; by rewrite app_nil_r. }
  case_bool_decide as E1; [|case_bool_decide as E2].
  - rewrite (bool_decide_eq_false_2 (ps_protocol port = PROTOCOL_HTTPS)) by (rewrite E1; done). split.
    + eapply sites_ext; [|by apply sites_push]. intros h. simpl. by case_bool_decide.
    + eapply sites_ext; [|done]. intros h. simpl. by rewrite app_nil_r.
  - split.
    + eapply sites_ext; [|done]. intros h. simpl. by rewrite app_nil_r.
    + eapply sites_ext; [|by apply sites_push]. intros h. simpl. by case_bool_decide.
  - split; (eapply sites_ext; [|done]); intros h; simpl; by rewrite app_nil_r.
Qed.

Lemma add_ports_sites f g ip acc ports : sites_are f acc.1 → sites_are g acc.2 →
  sites_are (fun h => f h ++ omap (port_upstream PROTOCOL_HTTP h ip) ports) (foldl (add_port ip) acc ports).1 ∧
  sites_are (fun h => g h ++ omap (port_upstream PROTOCOL_HTTPS h ip) ports) (foldl (add_port ip) acc ports).2.
Proof.
  revert f g acc. induction ports as [|p ports IH]; intros f g acc Hf Hg.
  { split; (eapply sites_ext; [|done]); intros h; simpl; by rewrite app_nil_r. }
  pose proof (add_port_sites f g ip acc p Hf Hg) as Hp. cbn [foldl].
  destruct (add_port ip acc p) as [http https]. destruct Hp as [H1 H2].
  destruct (IH _ _ (http, https) H1 H2) as [H3 H4].
  split; (eapply sites_ext; [|done]); intros h; simpl; rewrite <-app_assoc; by destruct (port_upstream _ _ _ _).
Qed.

Lemma http_upstreams_sites containers http https :
  http_upstreams_from_ports containers = Ok (http, https) →
  sites_are (fun h => containers ≫= container_upstreams PROTOCOL_HTTP h) http ∧
  sites_are (fun h => containers ≫= container_upstreams PROTOCOL_HTTPS h) https.
Proof.
  unfold http_upstreams_from_ports.
  assert (∀ f g acc, sites_are f acc.1 → sites_are g acc.2 → foldM add_container acc containers = Ok (http, https) →
            sites_are (fun h => f h ++ (containers ≫= container_upstreams PROTOCOL_HTTP h)) http ∧
            sites_are (fun h => g h ++ (containers ≫= container_upstreams PROTOCOL_HTTPS h)) https) as Hgen.
  { induction containers as [|c cs IH]; intros f g acc Hf Hg; cbn [foldM].
    { intros [= ->]. split; (eapply sites_ext; [|done]); intros h; simpl; by rewrite app_nil_r. }
    intros E. destruct (add_container acc c) as [acc'| |] eqn:Ec; [|done|done].
    assert (sites_are (fun h => f h ++ container_upstreams PROTOCOL_HTTP h c) acc'.1 ∧
            sites_are (fun h => g h ++ container_upstreams PROTOCOL_HTTPS h c) acc'.2) as [H1 H2].
    { unfold add_container, container_upstreams in *. destruct (uncloud_network_ip (sc_container c)) as [ip|].
      - destruct (service_ports c) as [ports| |]; cbn [result_ok mbind result_bind] in Ec; [| |done]; injection Ec as <-.
        + by apply add_ports_sites.
        + split; (eapply sites_ext; [|done]); intros h; simpl; by rewrite app_nil_r.
      - injection Ec as <-. split; (eapply sites_ext; [|done]); intros h; simpl; by rewrite app_nil_r. }
    destruct (IH _ _ _ H1 H2 E) as [H3 H4].
    split; (eapply sites_ext; [|done]); intros h; cbn [mbind list_bind]; by rewrite <-app_assoc. }
  intros E. apply (Hgen (fun _ => []) (fun _ => []) (∅, ∅)); [done..|exact E].
Qed.

Lemma sites_iter f m host l : sites_are f m → (host, l) ∈ btree_iter m ↔ l = f host ∧ l ≠ [].
Proof.
  intros Hm. rewrite elem_of_btree_iter, Hm. destruct (f host); naive_solver.
Qed.

(** ** The JSON configuration, read *)

(** The hosts and upstreams of a route that proxies, as Caddy reads them. *)
Definition member (key : string) (j : Json) : option Json :=
  match j with JObj l => snd <$> List.find (fun kv => bool_decide (kv.1 = key)) l | _ => None end.
Definition items (j : Json) : list Json := match j with JArr l => l | _ => [] end.
Definition text (j : Json) : option string := match j with JStr s => Some s | _ => None end.
Definition read_route (j : Json) : option (string * list string) :=
  matcher ← head (items (default (JArr []) (member "match" j)));
  hosts ← member "host" matcher;
  host ← head (items hosts) ≫= text;
  handler ← head (items (default (JArr []) (member "handle" j)));
  upstreams ← member "upstreams" handler;
  Some (host, omap (fun u => member "dial" u ≫= text) (items upstreams)).
Definition json_sites (server : string) (config : Json) : list (string * list string) :=
  omap read_route (items (default (JArr []) ((member "servers" config ≫= member server) ≫= member "routes"))).

Lemma read_route_json site : read_route (route_json site) = Some site.
Proof.
  destruct site as [host ups]. change (Some (host, omap (fun u => member "dial" u ≫= text) (map (fun dial => JObj [("dial", JStr dial)]) ups))
    = Some (host, ups)). f_equal. f_equal. induction ups as [|u ups IH]; [done|]. simpl. f_equal. exact IH.
Qed.

Lemma routes_read m : omap read_route (routes m) = btree_iter m.
Proof.
  unfold routes. induction (btree_iter m) as [|site l IH]; [done|]. cbn [map omap list_omap].
  rewrite read_route_json. f_equal. exact IH.
Qed.

(** A route without host is not read. *)
Lemma omap_app_read l j : read_route j = None → omap read_route (l ++ [j]) = omap read_route l.
Proof. intros E. rewrite omap_app. cbn [omap list_omap]. rewrite E. apply app_nil_r. Qed.

Lemma json_config_sites containers verify http https config :
  http_upstreams_from_ports containers = Ok (http, https) → generate_json_config containers verify = Ok config →
  json_sites "http" config = btree_iter http ∧ json_sites "https" config = btree_iter https.
Proof.
  intros E. unfold generate_json_config. rewrite E. cbn [mbind result_bind]. intros [= <-]. split.
  - unfold json_sites. rewrite <-routes_read. by apply omap_app_read.
  - unfold json_sites. rewrite <-routes_read. by destruct (routes https).
Qed.

(** C34: the Caddyfile and the JSON configuration route the same hosts to the same
    upstreams, in the order of the host names: the sites of a scheme are exactly the
    host names some container publishes, and a site's upstreams are the addresses of
    the ingress ports of that protocol and host name, in the order of the containers;
    containers without address or with unreadable ports have none. *)
Theorem caddy_configs_agree containers verify caddyfile config :
  generate_base_from_ports containers verify = Ok caddyfile → generate_json_config containers verify = Ok config →
  let http := json_sites "http" config in
  let https := json_sites "https" config in
  (∀ host l, (host, l) ∈ http ↔ l = containers ≫= container_upstreams PROTOCOL_HTTP host ∧ l ≠ []) ∧
  (∀ host l, (host, l) ∈ https ↔ l = containers ≫= container_upstreams PROTOCOL_HTTPS host ∧ l ≠ []) ∧
  StronglySorted entry_le http ∧ StronglySorted entry_le https ∧ NoDup http.*1 ∧ NoDup https.*1 ∧
  caddyfile = base_text verify
    +:+ (match app http https with [] => "" | _ => newline +:+ "# Sites generated from service ports." +:+ newline end)
    +:+ String.concat "" (map (site_text "http") http) +:+ String.concat "" (map (site_text "https") https).
Proof.
  unfold generate_base_from_ports. intros Ec Ej.
  destruct (http_upstreams_from_ports containers) as [[http https]| |] eqn:E; [|done|done].
  destruct (json_config_sites _ _ _ _ _ E Ej) as [-> ->].
  destruct (http_upstreams_sites _ _ _ E) as [Hh Hs]. cbn [mbind result_bind] in Ec. injection Ec as <-. cbv zeta.
  split_and!.
  - intros host l. exact (sites_iter _ _ host l Hh).
  - intros host l. exact (sites_iter _ _ host l Hs).
  - apply btree_iter_sorted.
  - apply btree_iter_sorted.
  - apply (NoDup_btree_keys http).
  - apply (NoDup_btree_keys https).
  - assert (∀ m : gmap string (list string), btree_iter m = [] ↔ m = ∅) as Hempty.
    { intros m. rewrite <-map_to_list_empty_iff. pose proof (btree_iter_perm m) as Hp. split; intros Hnil; rewrite Hnil in Hp.
      - by apply Permutation_nil_l in Hp.
      - by apply Permutation_nil_r in Hp. }
    unfold append_sites.
    destruct (bool_decide_reflect (http = ∅)) as [Hn|Hn]; destruct (bool_decide_reflect (https = ∅)) as [Hn'|Hn'];
      cbn [andb].
    { subst. rewrite (proj2 (Hempty ∅) eq_refl). cbn [app map String.concat]. by rewrite !str_app_nil. }
    all: destruct (btree_iter http) eqn:Ei; destruct (btree_iter https) eqn:Ei'; cbn [app];
      try (by apply Hempty in Ei); try (by apply Hempty in Ei'); by rewrite <-!str_app_assoc.
Qed.
End sites.

(** ** Users' configurations *)

Section configs.
Context `{JsonLib, Gotmpl}.
Notation Sc := (ServiceContainer JsonValue).

(** A configuration of a service: its name, its source and where it goes. *)
Record UserConfig := mk_UserConfig { uc_name : string; uc_source : string; uc_place : string → string → string }.

(** The configurations in the order they are tried: the one of the newest local Caddy
    container, then those of the services by name. *)
Definition user_configs (self : CaddyfileGenerator) (records : list ContainerRecord) : list UserConfig :=
  match caddy_container self records with
  | Some c =>
      if str_is_empty (caddy_config (sc_service_spec c)) then []
      else [mk_UserConfig (service_name c) (caddy_config (sc_service_spec c)) (global_candidate (service_name c))]
  | None => []
  end ++
  omap (fun entry : string * Sc =>
          let config := caddy_config (sc_service_spec entry.2) in
          if bool_decide (entry.1 = CADDY_SERVICE_NAME) || str_is_empty config then None
          else Some (mk_UserConfig entry.1 config (service_candidate entry.1)))
    (btree_iter (latest_containers (map cr_container records))).

(** What may become of one: rendered, or skipped for a reason that is told. *)
Definition verdict_ok (self : CaddyfileGenerator) (upstreams : gmap string (list string)) (c : UserConfig)
    (verdict : string + string) : Prop :=
  let rendered := render_caddyfile (mk_TemplateContext (uc_name c) upstreams) (uc_source c) in
  match verdict with
  | inr text => rendered = inr text
  | inl error =>
      (∃ e, rendered = inl e ∧ error = "service '" +:+ uc_name c +:+ "': failed to render template: " +:+ e) ∨
      (∃ text caddyfile e, rendered = inr text ∧ caddy_validate self (uc_place c caddyfile text) = Some e ∧
         error = "service '" +:+ uc_name c +:+ "': validation failed: " +:+ e)
  end.

(** The Caddyfile with the configurations that were not skipped. *)
Definition with_configs (base : string) (l : list (UserConfig * (string + string))) : string :=
  foldl (fun caddyfile '(c, verdict) => match verdict with inr text => uc_place c caddyfile text | inl _ => caddyfile end) base l.
Definition errors_of (verdicts : list (string + string)) : list string :=
  omap (fun v => match v with inl e => Some e | inr _ => None end) verdicts.

(** The state of the generation after some configurations. *)
Definition tried (self : CaddyfileGenerator) (upstreams : gmap string (list string)) (base : string)
    (configs : list UserConfig) (progress : Progress) : Prop :=
  ∃ verdicts, Forall2 (verdict_ok self upstreams) configs verdicts ∧
    progress = (with_configs base (zip configs verdicts), errors_of verdicts) ∧
    (progress.1 = base ∨ caddy_validate self progress.1 = None).

Lemma tried_config self upstreams base configs progress c : tried self upstreams base configs progress →
  tried self upstreams base (configs ++ [c]) (try_config self upstreams (uc_place c) (uc_name c) (uc_source c) progress).
Proof.
  intros (verdicts & Hv & -> & Hval). pose proof (Forall2_length _ _ _ Hv) as Hlen. cbn [fst] in Hval.
  assert (∀ v, verdict_ok self upstreams c v → Forall2 (verdict_ok self upstreams) (configs ++ [c]) (verdicts ++ [v])) as Hsnoc.
  { intros v Hc. apply Forall2_app; [done|]. by constructor. }
  assert (∀ v, with_configs base (zip (configs ++ [c]) (verdicts ++ [v]))
               = match v with inr text => uc_place c (with_configs base (zip configs verdicts)) text
                 | inl _ => with_configs base (zip configs verdicts) end ∧
               errors_of (verdicts ++ [v]) = errors_of verdicts ++ match v with inl e => [e] | inr _ => [] end) as Hend.
  { intros v. rewrite zip_with_app by done. unfold with_configs, errors_of. rewrite foldl_app, omap_app.
    by destruct v. }
  unfold try_config. destruct (render_caddyfile _ _) as [e|text] eqn:Er.
  - eexists (verdicts ++ [inl _]). split; [apply Hsnoc; left; exists e; by rewrite Er|].
    destruct (Hend (inl ("service '" +:+ uc_name c +:+ "': failed to render template: " +:+ e))) as [-> ->].
    split; [done|exact Hval].
  - destruct (caddy_validate self (uc_place c (with_configs base (zip configs verdicts)) text)) as [e|] eqn:Ev.
    + eexists (verdicts ++ [inl _]).
      split; [apply Hsnoc; right; exists text, (with_configs base (zip configs verdicts)), e; by rewrite Er|].
      destruct (Hend (inl ("service '" +:+ uc_name c +:+ "': validation failed: " +:+ e))) as [-> ->].
      split; [done|exact Hval].
    + exists (verdicts ++ [inr text]). split; [by apply Hsnoc|]. destruct (Hend (inr text)) as [-> ->].
      rewrite app_nil_r. split; [done|by right].
Qed.

Lemma tried_services self upstreams base configs progress entries : tried self upstreams base configs progress →
  tried self upstreams base
    (configs ++ omap (fun entry : string * Sc =>
          let config := caddy_config (sc_service_spec entry.2) in
          if bool_decide (entry.1 = CADDY_SERVICE_NAME) || str_is_empty config then None
          else Some (mk_UserConfig entry.1 config (service_candidate entry.1))) entries)
    (foldl (try_service self upstreams) progress entries).
Proof.
  revert configs progress. induction entries as [|entry entries IH]; intros configs progress Ht.
  { cbn. by rewrite app_nil_r. }
  cbn [foldl]. cbn [omap list_omap]. unfold try_service at 2.
  destruct (bool_decide (entry.1 = CADDY_SERVICE_NAME) || str_is_empty (caddy_config (sc_service_spec entry.2))); [by apply IH|].
  pose proof (tried_config self upstreams base configs progress
    (mk_UserConfig entry.1 (caddy_config (sc_service_spec entry.2)) (service_candidate entry.1)) Ht) as Hc.
  apply IH in Hc. by rewrite <-app_assoc in Hc.
Qed.

(** users' configurations reach Caddy only when they validate, and never break what
    is there: the generated Caddyfile is the header, the sites of the published ports
    with the configurations that were kept, and a comment that lists the others, each
    with its reason; every configuration is kept or listed; and if any was kept, the
    validator has accepted the text as a whole. *)
Theorem generate_validated self now records text sorted :
  generate self now records true = Ok (text, sorted) →
  ∃ base verdicts,
    let configs := user_configs self sorted in
    let body := with_configs base (zip configs verdicts) in
    generate_base_from_ports (map cr_container sorted) (cg_machine_id self) = Ok base ∧
    Forall2 (verdict_ok self (service_upstreams (map cr_container sorted))) configs verdicts ∧
    (body = base ∨ caddy_validate self body = None) ∧
    text = header_text self now +:+ newline +:+ body +:+ skipped_text (errors_of verdicts).
Proof.
  unfold generate. intros E.
  destruct (generate_base_from_ports _ _) as [base| |] eqn:Eb; [|done|done]. cbn [mbind result_bind negb] in E.
  destruct (foldl _ _ _) as [caddyfile errors] eqn:Ef. injection E as <- <-. exists base.
  set (sorted := sort_by (compare_records self) records) in *.
  set (ups := service_upstreams (map cr_container sorted)) in *.
  assert (tried self ups base (user_configs self sorted) (caddyfile, errors)) as (verdicts & Hv & Hp & Hval).
  { rewrite <-Ef. unfold user_configs. apply tried_services. unfold try_global.
    assert (tried self ups base [] (base, [])) as Hnil by (exists []; split_and!; [constructor|done|by left]).
    destruct (caddy_container self sorted) as [c|]; [|done].
    destruct (str_is_empty (caddy_config (sc_service_spec c))); [done|].
    exact (tried_config self ups base [] (base, []) (mk_UserConfig _ _ _) Hnil). }
  injection Hp as -> ->. exists verdicts. split_and!; [done|done|done|]. done.
Qed.
End configs.

(** ** The order of the records *)

Lemma created_order {A} (f : A → option Rfc3339Time) : CmpOrder (fun x y => created_cmp (f x) (f y)).
Proof.
  assert (CmpOrder time_cmp) as [S L E].
  { exact (cmp_order_then _ _ (cmp_order_Z unix_seconds) (cmp_order_then _ _ (cmp_order_Z nanos) (cmp_order_Z year))). }
  split; intros x y; [by destruct (f x), (f y); simpl|..]; intros z; destruct (f x), (f y), (f z); simpl; try done; [apply L|apply E].
Qed.

Lemma bool_order {A} (f : A → bool) : CmpOrder (fun x y => bool_cmp (f x) (f y)).
Proof. split; intros x y; [by destruct (f x), (f y)|..]; intros z; by destruct (f x), (f y), (f z). Qed.

Section sorting.
Context {A : Type} (cmp : A → A → comparison) (Hcmp : CmpOrder cmp).
Let le (x y : A) : Prop := cmp x y ≠ Gt.

Lemma sort_le_trans x y z : le x y → le y z → le x z.
Proof.
  destruct Hcmp as [S L E]. unfold le. intros H1 H2.
  destruct (cmp x y) eqn:Exy; [by rewrite (E _ _ z Exy)| |done].
  destruct (cmp y z) eqn:Eyz; [|by rewrite (L _ _ _ Exy Eyz)|done].
  by rewrite (S z x), <-(E y z x Eyz), (S x y), Exy.
Qed.

Lemma insert_by_perm x l : insert_by cmp x l ≡ₚ x :: l.
Proof.
  induction l as [|y l IH]; [done|]. simpl. destruct (cmp x y); [done..|]. rewrite IH. apply perm_swap.
Qed.

Lemma sort_by_perm l : sort_by cmp l ≡ₚ l.
Proof. induction l as [|x l IH]; [done|]. cbn. by rewrite insert_by_perm, IH. Qed.

Lemma insert_by_sorted x l : StronglySorted le l → StronglySorted le (insert_by cmp x l).
Proof.
  induction 1 as [|y l Hl IH Hy]; [by repeat constructor|]. simpl. destruct (cmp x y) eqn:Exy.
  1,2: constructor; [by constructor|]; constructor; [unfold le; congruence|];
    eapply Forall_impl; [exact Hy|]; intros z Hz; apply (sort_le_trans x y z); [unfold le; congruence|done].
  constructor; [done|]. rewrite insert_by_perm. constructor; [|done].
  unfold le. rewrite (co_sym _ Hcmp), Exy. done.
Qed.

Lemma sort_by_sorted l : StronglySorted le (sort_by cmp l).
Proof. induction l as [|x l IH]; [constructor|]. by apply insert_by_sorted. Qed.

Lemma sort_by_unique l l' : l ≡ₚ l' → (∀ x y, x ∈ l → y ∈ l → cmp x y = Eq → x = y) → sort_by cmp l = sort_by cmp l'.
Proof.
  intros Hp Hu. apply (StronglySorted_unique_strong le); [|apply sort_by_sorted..|by rewrite !sort_by_perm].
  intros x y Hx Hy H1 H2. rewrite sort_by_perm in Hx. rewrite sort_by_perm, <-Hp in Hy.
  apply Hu; [done..|]. unfold le in *. rewrite (co_sym _ Hcmp x y) in H2. by destruct (cmp x y).
Qed.
End sorting.

Section order.
Context `{JsonLib, Gotmpl}.

Lemma compare_records_order self : CmpOrder (compare_records self).
Proof.
  unfold compare_records. apply cmp_order_then; [apply bool_order|].
  apply cmp_order_then; [apply cmp_order_str|apply created_order].
Qed.

(** the Caddyfile does not depend on the order in which the store lists the
    containers: local containers come first, then by service and age, and the text is
    the same for every listing of the same records, as long as two different records
    of a service on the same side differ in their time of creation. *)
Theorem generate_order_independent self now records records' include_custom :
  records ≡ₚ records' →
  (∀ r r', r ∈ records → r' ∈ records → compare_records self r r' = Eq → r = r') →
  generate self now records include_custom = generate self now records' include_custom ∧
  ∀ text sorted, generate self now records include_custom = Ok (text, sorted) →
    sorted ≡ₚ records ∧ StronglySorted (fun r r' => compare_records self r r' ≠ Gt) sorted.
Proof.
  intros Hp Hu. pose proof (sort_by_unique _ (compare_records_order self) _ _ Hp Hu) as E. split.
  - unfold generate. by rewrite E.
  - intros text sorted Hg.
    assert (sorted = sort_by (compare_records self) records) as ->.
    { unfold generate in Hg. destruct (generate_base_from_ports _ _); [|done|done]. cbn [mbind result_bind] in Hg.
      destruct include_custom; cbn [negb] in Hg; [|by injection Hg].
      destruct (foldl _ _ _) as [cf es]. by injection Hg. }
    split; [apply sort_by_perm|apply sort_by_sorted, compare_records_order].
Qed.
End order.

(** ** The controller *)

Section controller.
Context `{JsonLib, Gotmpl}.

(** Caddy starts again: it reads the Caddyfile from the disk. *)
Definition caddy_restart (c : Controller) : Controller :=
  mk_Controller (ct_generator c) (ct_last_fingerprint c) (ct_last_caddyfile c) (ct_disk c) (ct_disk c).

(** Whether a change makes Caddy load a new configuration. *)
Definition change_loads (answers : Answers) (listed : string + list ContainerRecord) (c : Controller) : bool :=
  match listed with
  | inl _ => false
  | inr records =>
      match fingerprint_containers (filter_healthy_containers records) with
      | Ok fingerprint =>
          an_available answers && an_load answers && negb (fingerprints_eqb (ct_last_fingerprint c) fingerprint)
      | _ => false
      end
  end.

(** The states of a controller from the start of [run] on, with Caddy, which may restart at
    any time.  [booted] is the file Caddy has started with if it has restarted since it
    last loaded a configuration of the controller. *)
Inductive controller_reachable (g : CaddyfileGenerator) : option (option string) → Controller → Prop :=
| controller_started : controller_reachable g None (mk_Controller (Some g) [] "" None None)
| controller_changed booted c c' answers listed : controller_reachable g booted c →
    controller_change answers listed c = Ok c' →
    controller_reachable g (if change_loads answers listed c then None else booted) c'
| controller_restarted booted c : controller_reachable g booted c →
    controller_reachable g (Some (ct_disk c)) (caddy_restart c).

(** Caddy runs what was generated, at some time, for records with this fingerprint. *)
Definition runs_config (g : CaddyfileGenerator) (c : Controller) (fingerprint : list ContainerFingerprint) : Prop :=
  ∃ now records text sorted, fingerprint_containers records = Ok fingerprint ∧
    generate g now records true = Ok (text, sorted) ∧ ct_loaded c = Some text.

Definition controller_inv (g : CaddyfileGenerator) (booted : option (option string)) (c : Controller) : Prop :=
  ct_generator c = Some g ∧
  match booted with
  | None => ct_last_fingerprint c ≠ [] → runs_config g c (ct_last_fingerprint c)
  | Some file => ct_loaded c = file
  end.

Lemma write_keeps outcome caddyfile c :
  let c' := write_caddyfile_if_changed outcome caddyfile c in
  ct_generator c' = ct_generator c ∧ ct_last_fingerprint c' = ct_last_fingerprint c ∧ ct_loaded c' = ct_loaded c.
Proof. unfold write_caddyfile_if_changed. case_bool_decide; [done|]. by destruct outcome. Qed.

Lemma runs_config_loaded g c c' fingerprint : ct_loaded c' = ct_loaded c → runs_config g c fingerprint → runs_config g c' fingerprint.
Proof. intros E (now & rs & t & so & ? & ? & ?). exists now, rs, t, so. by rewrite E. Qed.

(** What one event does. *)
Lemma event_spec g answers records c c' : ct_generator c = Some g → generate_and_load_caddyfile answers records c = Ok c' →
  ct_generator c' = Some g ∧ ∃ fingerprint, fingerprint_containers records = Ok fingerprint ∧
    let known := fingerprints_eqb (ct_last_fingerprint c) fingerprint in
    if negb (an_available answers) then ct_last_fingerprint c' = ct_last_fingerprint c ∧ ct_loaded c' = ct_loaded c
    else if known then c' = c
    else if an_load answers then ct_last_fingerprint c' = fingerprint ∧ runs_config g c' fingerprint
    else ct_last_fingerprint c' = [] ∧ ct_loaded c' = ct_loaded c.
Proof.
  intros Hg. unfold generate_and_load_caddyfile.
  destruct (fingerprint_containers records) as [fp| |] eqn:Efp; [|done|done]. cbn [mbind result_bind].
  destruct (an_available answers) eqn:Ea; cbn [andb negb].
  - destruct (fingerprints_eqb (ct_last_fingerprint c) fp) eqn:Eeq.
    { intros [= <-]. split; [done|]. exists fp. by rewrite Eeq. }
    rewrite Hg. destruct (generate g _ records true) as [[text sorted]| |] eqn:Eg; [|done|done]. cbn [mbind result_bind].
    destruct (an_load answers) eqn:El; cbn [negb]; intros [= <-].
    + set (c1 := mk_Controller _ fp _ _ _). destruct (write_keeps (an_write answers) text c1) as (E1 & E2 & E3).
      split; [by rewrite E1|]. exists fp. split; [done|]. rewrite Eeq. cbn zeta. split; [done|].
      apply (runs_config_loaded _ c1); [done|]. by exists (an_now answers), records, text, sorted.
    + split; [done|]. exists fp. by rewrite Eeq.
  - rewrite Hg. destruct (generate g _ records false) as [[text sorted]| |] eqn:Eg; [|done|done]. cbn [mbind result_bind].
    intros [= <-]. destruct (write_keeps (an_write answers) text c) as (E1 & E2 & E3). split; [by rewrite E1|]. by exists fp.
Qed.

Lemma controller_reachable_inv g booted c : controller_reachable g booted c → controller_inv g booted c.
Proof.
  induction 1 as [|booted c c' answers listed _ [Hg Hb] E|booted c _ [Hg _]]; [by split| |by split].
  destruct listed as [e|records]; cbn in E; [by injection E as <-|].
  destruct (event_spec _ _ _ _ _ Hg E) as (Hg' & fp & Hfp & Hev). split; [done|]. unfold change_loads. rewrite Hfp.
  cbn zeta in Hev. destruct (an_available answers); cbn [andb negb] in *.
  2: { destruct Hev as [E1 E2]. destruct booted; [by rewrite E2|]. rewrite E1. intros Hne.
       eapply runs_config_loaded; [exact E2|]. by apply Hb. }
  destruct (fingerprints_eqb _ fp); cbn [negb]; [rewrite andb_false_r; by subst c'|]. rewrite andb_true_r.
  destruct (an_load answers), Hev as [E1 E2]; [by rewrite E1|]. rewrite E1. destruct booted; [by rewrite E2|done].
Qed.

(** C35: Caddy follows the containers, although it may restart at any time.  A change that
    finds Caddy available ends in one of four ways: Caddy refused the new configuration, it
    goes on with what it had and the fingerprint is forgotten, so that the next change
    tries again; or there is no container listed and none was known, as at the start, and
    nothing is done; or Caddy runs a complete configuration generated for containers with
    the same ids, addresses, ports and configurations as the healthy ones listed; or, only
    if Caddy has restarted since it last loaded a configuration and the containers have
    not changed since then, nothing is done and Caddy runs the file it started with (the
    case in which users' configurations can be missing). *)
Theorem controller_follows g booted c answers listed c' :
  controller_reachable g booted c → controller_change answers (inr listed) c = Ok c' → an_available answers = true →
  ∃ fingerprint, fingerprint_containers (filter_healthy_containers listed) = Ok fingerprint ∧
    (an_load answers = false ∧ ct_last_fingerprint c' = [] ∧ ct_loaded c' = ct_loaded c ∨
     fingerprint = [] ∧ ct_last_fingerprint c = [] ∧ c' = c ∨
     (∃ known, (known = fingerprint ∨ fingerprints_eqb known fingerprint = true) ∧ runs_config g c' known) ∨
     (∃ file, booted = Some file ∧ ct_loaded c' = file ∧ c' = c ∧
        fingerprints_eqb (ct_last_fingerprint c) fingerprint = true)).
Proof.
  intros [Hg Hb]%controller_reachable_inv E Ha. destruct (event_spec _ _ _ _ _ Hg E) as (_ & fp & Hfp & Hev).
  rewrite Ha in Hev. cbn [negb] in Hev. exists fp. split; [done|].
  destruct (fingerprints_eqb (ct_last_fingerprint c) fp) eqn:Heq.
  - subst c'. right. destruct booted as [file|]; [right; right; by exists file|].
    destruct (ct_last_fingerprint c) as [|x l] eqn:El.
    + left. by destruct fp.
    + right. left. exists (x :: l). split; [by right|]. by apply Hb.
  - destruct (an_load answers); [|left; by split]. destruct Hev as [_ Hrun]. right. right. left. eauto.
Qed.

(** C38: a restart of Caddy can lose users' configurations.  While Caddy is away, the
    controller writes a Caddyfile without them and keeps its fingerprint; when Caddy is
    back with that file and the containers are as before, the fingerprint matches and
    nothing is loaded, although the configuration Caddy runs lacks them. *)
Theorem restart_loses_user_configs g now now' now'' records fingerprint full sorted plain sorted' :
  fingerprint_containers records = Ok fingerprint → fingerprints_eqb fingerprint fingerprint = true →
  fingerprint ≠ [] →
  generate g now records true = Ok (full, sorted) → generate g now' records false = Ok (plain, sorted') →
  caddyfile_body full ≠ "" → caddyfile_body plain ≠ caddyfile_body full →
  ∃ c1 c2 c3,
    generate_and_load_caddyfile (mk_Answers now true true FileWritten) records
      (mk_Controller (Some g) [] "" None None) = Ok c1 ∧ ct_loaded c1 = Some full ∧
    generate_and_load_caddyfile (mk_Answers now' false true FileWritten) records c1 = Ok c2 ∧
    generate_and_load_caddyfile (mk_Answers now'' true true FileWritten) records (caddy_restart c2) = Ok c3 ∧
    ct_loaded c3 = Some plain ∧ ct_disk c3 = Some plain.
Proof.
  intros Hfp Hrefl Hne Hfull Hplain Hbody Hdiff.
  assert (fingerprints_eqb [] fingerprint = false) as Hnil by (by destruct fingerprint).
  exists (mk_Controller (Some g) fingerprint full (Some full) (Some full)),
         (mk_Controller (Some g) fingerprint plain (Some plain) (Some full)),
         (mk_Controller (Some g) fingerprint plain (Some plain) (Some plain)).
  unfold generate_and_load_caddyfile, caddy_restart. rewrite Hfp.
  cbn [mbind result_bind an_available ct_last_fingerprint ct_generator an_now an_load an_write andb negb].
  rewrite Hnil, Hrefl, Hfull, Hplain. cbn [mbind result_bind negb].
  unfold write_caddyfile_if_changed. cbn [ct_last_caddyfile ct_generator ct_last_fingerprint ct_disk ct_loaded].
  change (caddyfile_body "") with "".
  rewrite (bool_decide_eq_false_2 (caddyfile_body full = "")), (bool_decide_eq_false_2 (_ = caddyfile_body full)) by done.
  done.
Qed.
End controller.

(** ** Examples *)

Definition caddy_json : JsonLib := {| JsonValue := unit |}.
(** Templates without actions. *)
Definition plain_templates : @Gotmpl := {|
  template_type_name _ := "value"; template_run _ _ source := TRendered source
|}.

Definition caddy_demo_container (id service ip created ports config : string) : ServiceContainer unit :=
  mk_ServiceContainer
    (mk_Container id created "" slice_default "" id
       (Some (mk_ContainerConfig () "" "" "" false false false false false false slice_default slice_default
                "nginx" "" slice_default
                (mk_map false {[LABEL_SERVICE_NAME := service; LABEL_SERVICE_PORTS := ports]}) None ∅))
       (Some (mk_ContainerState () "running" true false false false false 1 0 "" "" "" None ∅)) None slice_default
       (Some (mk_NetworkSettings () map_default
                (mk_map false {[DOCKER_NETWORK_NAME := mk_EndpointSettings () ip ∅]}) ∅)) ∅ None)
    (mk_ServiceSpec (Some (mk_CaddySpec config)) (ss_configs ServiceSpec_default) (ss_container ServiceSpec_default)
       "" service (ss_placement ServiceSpec_default) slice_default None 1 (ss_update_config ServiceSpec_default) slice_default).
Definition caddy_demo_record (machine : string) (c : ServiceContainer unit) : @ContainerRecord caddy_json :=
  @mk_ContainerRecord caddy_json c machine "synced" (mk_StoreTimestamp "2026-01-01 00:00:00").

Definition web1 : @ContainerRecord caddy_json :=
  caddy_demo_record "m2" (caddy_demo_container "c1" "web" "10.210.1.2" "2026-01-01T00:00:00Z" "app.example.com:8080/http" "").
Definition web2 : @ContainerRecord caddy_json :=
  caddy_demo_record "m1" (caddy_demo_container "c2" "web" "10.210.0.2" "2026-01-01T00:00:01Z" "app.example.com:8080/http" "").
Definition api1 : @ContainerRecord caddy_json :=
  caddy_demo_record "m1" (caddy_demo_container "c3" "api" "10.210.0.3" "2026-01-01T00:00:02Z" "" "api.example.com").
Definition demo_records : list (@ContainerRecord caddy_json) := [web1; web2; api1].
Definition demo_generator (validator : string → option string) : CaddyfileGenerator :=
  mk_CaddyfileGenerator "m1" "machine-1" (Some validator).

Definition ok_value {E A} (d : A) (r : result E A) : A := match r with Ok a => a | _ => d end.

Definition demo_sites : Json := ok_value (JArr []) (@generate_json_config caddy_json (map cr_container demo_records) "m1").
Lemma caddy_configs_agree_witness :
  json_sites "http" demo_sites = [("app.example.com", ["10.210.1.2:8080"; "10.210.0.2:8080"])] ∧
  (map cr_container demo_records ≫= @container_upstreams caddy_json PROTOCOL_HTTP "app.example.com")
  = ["10.210.1.2:8080"; "10.210.0.2:8080"].
Proof.
  split; [vm_compute; reflexivity|].
  destruct (@caddy_configs_agree caddy_json (map cr_container demo_records) "m1"
              (ok_value "" (@generate_base_from_ports caddy_json (map cr_container demo_records) "m1")) demo_sites)
    as [Hh _].
  - vm_compute. reflexivity.
  - vm_compute. reflexivity.
  - symmetry. apply (Hh "app.example.com" ["10.210.1.2:8080"; "10.210.0.2:8080"]). vm_compute. by left.
Defined.

Definition demo_generated (validator : string → option string) (now : Z) (include_custom : bool) :
    string * list (@ContainerRecord caddy_json) :=
  ok_value ("", []) (@generate caddy_json plain_templates (demo_generator validator) now demo_records include_custom).

Lemma generate_validated_witness :
  ∃ base verdicts, (demo_generated (fun _ => Some "rejected") 0 true).1
    = header_text (demo_generator (fun _ => Some "rejected")) 0 +:+ newline
      +:+ with_configs base (zip (@user_configs caddy_json (demo_generator (fun _ => Some "rejected"))
                                    (demo_generated (fun _ => Some "rejected") 0 true).2) verdicts)
      +:+ skipped_text (errors_of verdicts).
Proof.
  destruct (@generate_validated caddy_json plain_templates (demo_generator (fun _ => Some "rejected")) 0 demo_records
              (demo_generated (fun _ => Some "rejected") 0 true).1 (demo_generated (fun _ => Some "rejected") 0 true).2)
    as (base & verdicts & H).
  - vm_compute. reflexivity.
  - exists base, verdicts. exact (proj2 (proj2 (proj2 H))).
Defined.

Lemma generate_order_independent_witness :
  @generate caddy_json plain_templates (demo_generator (fun _ => None)) 0 demo_records true
  = @generate caddy_json plain_templates (demo_generator (fun _ => None)) 0 [web2; web1; api1] true.
Proof.
  apply (@generate_order_independent caddy_json plain_templates (demo_generator (fun _ => None)) 0 demo_records
           [web2; web1; api1] true).
  - apply perm_swap.
  - unfold demo_records. intros r r' Hr Hr'. rewrite !elem_of_cons in Hr, Hr'.
    destruct Hr as [->|[->|[->|?%elem_of_nil]]], Hr' as [->|[->|[->|?%elem_of_nil]]]; try done; by vm_compute.
Defined.

Definition demo_started : @Controller := mk_Controller (Some (demo_generator (fun _ => None))) [] "" None None.
Definition demo_loaded : @Controller :=
  ok_value demo_started (@controller_change caddy_json plain_templates (mk_Answers 0 true true FileWritten) (inr demo_records) demo_started).
Lemma controller_follows_witness :
  ∃ known, @runs_config caddy_json plain_templates (demo_generator (fun _ => None)) demo_loaded known.
Proof.
  destruct (@controller_follows caddy_json plain_templates (demo_generator (fun _ => None)) None demo_started
              (mk_Answers 0 true true FileWritten) demo_records demo_loaded) as (fp & Hfp & Hc).
  - apply controller_started.
  - vm_compute. reflexivity.
  - reflexivity.
  - destruct Hc as [[Hl _]|[(Hnil & _)|[(known & _ & Hrun)|(file & Hf & _)]]];
      [discriminate Hl| |by exists known|discriminate Hf].
    exfalso. subst fp. vm_compute in Hfp. discriminate Hfp.
Defined.

Definition demo_fingerprint : list ContainerFingerprint := ok_value [] (@fingerprint_containers caddy_json demo_records).
Lemma restart_loses_user_configs_witness :
  ∃ c3 : Controller, ct_loaded c3 = Some (demo_generated (fun _ => None) 1 false).1 ∧
    ct_last_fingerprint demo_loaded = demo_fingerprint.
Proof.
  destruct (@restart_loses_user_configs caddy_json plain_templates (demo_generator (fun _ => None)) 0 1 2 demo_records
              demo_fingerprint (demo_generated (fun _ => None) 0 true).1 (demo_generated (fun _ => None) 0 true).2
              (demo_generated (fun _ => None) 1 false).1 (demo_generated (fun _ => None) 1 false).2)
    as (c1 & c2 & c3 & _ & _ & _ & _ & H & _).
  1-5: vm_compute; done.
  1,2: vm_compute; intros E; discriminate E.
  exists c3. split; [exact H|]. vm_compute. reflexivity.
Defined.

(** The texts of errors are not kept inside the comment that lists them: the rest of an
    error of two lines is a line of the Caddyfile of its own. *)
Theorem skipped_error_leaves_comment :
  let validator := fun _ => Some ("unrecognized directive" +:+ newline +:+ "at line 4") in
  let '(text, _) := demo_generated validator 0 true in
  ("at line 4" : string) ∈ str_split (Ascii.ascii_of_nat 10) text.
Proof. vm_compute. repeat first [by left | right]. Qed.
