(* ===== verification/CorroClient.v ===== *)
(** * The corrosion client: errors, bodies and events

    ployz-internal-corrosion: [ClientError] and [ResponseReader] of transport.rs, the
    values of json.rs, and the decoder and the parsers of query.rs.  Bytes are
    [list ascii].  [serde_json], the gzip decoder and what a body will deliver are
    parameters and data; an [f64] is its bit pattern. *)

From S2P Require Import Prelude RustStr Chars ClusterDns Cluster Store.

Local Open Scope Z_scope.

Definition Bytes : Type := list ascii.

(** ** Errors *)

Inductive ClientErrorKind : Set := KAdmin | KHttp | KJson | KProtocol | KSubscriptionNotFound.
#[export] Instance ClientErrorKind_eq_dec : EqDecision ClientErrorKind.
Proof. solve_decision. Defined.

(** [ClientError], without a source, with a [ClientError] as its source, or with an
    error of another library, which is its text. *)
Inductive ClientError :=
| ce_new (kind : ClientErrorKind) (message : string)
| ce_from (kind : ClientErrorKind) (message : string) (source : ClientError)
| ce_foreign (kind : ClientErrorKind) (message : string) (source : string).

(** [ClientError::kind]. *)
Definition ce_kind (e : ClientError) : ClientErrorKind :=
  match e with ce_new k _ | ce_from k _ _ | ce_foreign k _ _ => k end.

(** [is_subscription_not_found]: of the error or of an error in its chain of sources. *)
Fixpoint is_subscription_not_found (e : ClientError) : bool :=
  bool_decide (ce_kind e = KSubscriptionNotFound)
  || match e with ce_from _ _ source => is_subscription_not_found source | _ => false end.

(** [Display for ClientError]. *)
Fixpoint ce_display (e : ClientError) : string :=
  match e with
  | ce_new _ m => m
  | ce_from _ m source => m +:+ ": " +:+ ce_display source
  | ce_foreign _ m source => m +:+ ": " +:+ source
  end.

(** A result of another library whose error is wrapped. *)
Definition wrap {A} (kind : ClientErrorKind) (message : string) (r : string + A) : result ClientError A :=
  match r with inl e => Err (ce_foreign kind message e) | inr a => Ok a end.

(** ** Bodies *)

(** A frame of a body: data, or the text of an error. *)
Definition Frame : Type := string + Bytes.

(** [io::Error]. *)
Record IoError := mk_IoError { io_unexpected_eof : bool; io_text : string }.

(** [GzipDecoder] over the frames: a read gives data or an error, the errors of frames
    it passed, and the next state. *)
Class GzipLib := {
  Gzip : Type;
  gz_new : list Frame → Gzip;
  gz_read : nat → Gzip → (IoError + Bytes) * list string * Gzip
}.

Section reader.
Context `{GzipLib}.

(** The reader of a body: the rest of a chunk and the frames, or a decoder. *)
Inductive Reader := RPlain (chunk : Bytes) (frames : list Frame) | RGzip (state : Gzip).

(** [ResponseReader]. *)
Record ResponseReader := mk_ResponseReader { rr_reader : Reader; rr_staged_error : option string }.

(** [ResponseReader::new]. *)
Definition reader_new (body : list Frame) (gzip : bool) : ResponseReader :=
  mk_ResponseReader (if gzip then RGzip (gz_new body) else RPlain [] body) None.

(** The next chunk that is not empty; the errors of frames passed are left out of the
    stream. *)
Fixpoint fill (frames : list Frame) : list string * option (Bytes * list Frame) :=
  match frames with
  | [] => ([], None)
  | inl e :: frames => let '(errors, r) := fill frames in (e :: errors, r)
  | inr [] :: frames => fill frames
  | inr chunk :: frames => ([], Some (chunk, frames))
  end.

(** [self.reader.read] with a buffer of [size] bytes. *)
Definition reader_read (size : nat) (r : Reader) : (IoError + Bytes) * list string * Reader :=
  match r with
  | RPlain [] frames =>
      match fill frames with
      | (errors, None) => (inr [], errors, RPlain [] [])
      | (errors, Some (chunk, frames)) => (inr (take size chunk), errors, RPlain (drop size chunk) frames)
      end
  | RPlain chunk frames => (inr (take size chunk), [], RPlain (drop size chunk) frames)
  | RGzip g => let '(r, errors, g) := gz_read size g in (r, errors, RGzip g)
  end.

(** The slot keeps the first error. *)
Definition stage (slot : option string) (errors : list string) : option string :=
  match slot with Some e => Some e | None => head errors end.

(** [ResponseReader::read]; no bytes is the end. *)
Definition body_read (size : nat) (b : ResponseReader) : (ClientError + Bytes) * ResponseReader :=
  let '(r, errors, reader) := reader_read size (rr_reader b) in
  let slot := stage (rr_staged_error b) errors in
  let failed (e : string) : ClientError + Bytes := inl (ce_foreign KHttp "read response body" e) in
  match r with
  | inr [] =>
      match slot with
      | Some e => (failed e, mk_ResponseReader reader None)
      | None => (inr [], mk_ResponseReader reader None)
      end
  | inr data => (inr data, mk_ResponseReader reader slot)
  | inl error =>
      if io_unexpected_eof error
      then match slot with
           | Some e => (failed e, mk_ResponseReader reader None)
           | None => (failed (io_text error), mk_ResponseReader reader None)
           end
      else (failed (io_text error), mk_ResponseReader reader slot)
  end.

Definition CHUNK : nat := Z.to_nat 8192.

(** [read_to_end]; [None]: the fuel is used up. *)
Fixpoint read_to_end (fuel : nat) (b : ResponseReader) (body : Bytes) : option (ClientError + Bytes) :=
  match fuel with
  | O => None
  | S fuel =>
      match body_read CHUNK b with
      | (inr [], _) => Some (inr body)
      | (inr data, b) => read_to_end fuel b (body ++ data)
      | (inl e, _) => Some (inl e)
      end
  end.

End reader.

(** ** JSON *)

(** What is written: the values of [Serialize]. *)
Inductive Tree :=
| TNull | TBool (b : bool) | TInt (z : Z) | TF64 (bits : Z) | TStr (s : string) | TRaw (json : string)
| TArr (l : list Tree) | TObj (l : list (string * Tree)).

(** The outcome of [StreamDeserializer::next] on a buffer: a value and the bytes it
    took, an error and whether it is the end of the input, or nothing. *)
Inductive StreamNext := SValue (raw : string) (consumed : nat) | SError (eof : bool) (text : string) | SNone.

(** [serde_json]: writing a value; reading a text as an object whose values are kept
    ([None]: null), and as the types the client asks for; the next raw value of a
    buffer; the text it gives an error of the program's own.  Errors are their texts. *)
Class QueryJson := {
  q_to_vec : Tree → string + Bytes;
  q_custom_text : string → string;
  q_any : string → string + option (list (string * string));
  q_raw : string → string + ();
  q_array : string → string + list string;
  q_opt_array : string → string + option (list string);
  q_u64 : string → string + Z;
  q_opt_u64 : string → string + option Z;
  q_f64 : string → string + Z;
  q_string : string → string + string;
  q_opt_string : string → string + option string;
  q_opt_strings : string → string + option (list string);
  q_stream : Bytes → StreamNext
}.

(** [f64::is_finite], of the bits. *)
Definition f64_is_finite (bits : Z) : bool := negb (Z.land (Z.shiftr bits 52) 2047 =? 2047).

(** [go_escape]. *)
Definition code (n : Z) (c : ascii) : bool := byte_val c =? n.
Fixpoint go_escape (l : Bytes) : Bytes :=
  match l with
  | [] => []
  | a :: rest =>
      if code 60 a then bytes "\u003c" ++ go_escape rest
      else if code 62 a then bytes "\u003e" ++ go_escape rest
      else if code 38 a then bytes "\u0026" ++ go_escape rest
      else match rest with
           | b :: c :: rest' =>
               if code 226 a && code 128 b && code 168 c then bytes "\u2028" ++ go_escape rest'
               else if code 226 a && code 128 b && code 169 c then bytes "\u2029" ++ go_escape rest'
               else a :: go_escape rest
           | _ => a :: go_escape rest
           end
  end.

Definition is_quote (c : ascii) : bool := code 34 c.
Definition is_backslash (c : ascii) : bool := code 92 c.
(** [is_ascii_whitespace]. *)
Definition is_ascii_whitespace (c : ascii) : bool :=
  code 32 c || code 9 c || code 10 c || code 12 c || code 13 c.

(** The loop of [compact_raw]; the characters it tests are ASCII. *)
Fixpoint compact_loop (quoted escaped : bool) (l : Bytes) : Bytes :=
  match l with
  | [] => []
  | c :: l =>
      if quoted then
        c :: (if escaped then compact_loop true false l
              else if is_backslash c then compact_loop true true l
              else if is_quote c then compact_loop false false l
              else compact_loop true false l)
      else if is_quote c then c :: compact_loop true escaped l
      else if is_ascii_whitespace c then compact_loop false escaped l
      else c :: compact_loop false escaped l
  end.

Section json.
Context `{QueryJson, Base64}.

(** [go_json_bytes]. *)
Definition go_json_bytes (t : Tree) : result ClientError Bytes :=
  l ← wrap KJson "encode JSON" (q_to_vec t); Ok (go_escape l).

(** [compact_raw]. *)
Definition compact_raw (value : string) : result ClientError string :=
  _ ← wrap KJson "invalid raw SQL parameter" (q_raw value);
  let l := go_escape (compact_loop false false (bytes value)) in
  if utf8_valid l then Ok (of_bytes l) else Panic "JSON remains UTF-8".

(** [SqlValue::float] and [SqlValue::raw]. *)
Definition sql_float (bits : Z) : result ClientError SqlValue :=
  if f64_is_finite bits then Ok (SqlF64 bits)
  else Err (ce_new KJson "unsupported non-finite SQL parameter").
Definition sql_raw (value : string) : result ClientError SqlValue :=
  compact ← compact_raw value;
  _ ← wrap KJson "invalid raw SQL parameter" (q_raw compact);
  Ok (SqlRaw compact).

(** [Serialize for SqlValue]; the error is [serde]'s custom one. *)
Definition sql_tree (v : SqlValue) : string + Tree :=
  match v with
  | SqlNull => inr TNull
  | SqlBool b => inr (TBool b)
  | SqlI64 z | SqlU64 z => inr (TInt z)
  | SqlF64 bits => if f64_is_finite bits then inr (TF64 bits) else inl (q_custom_text "unsupported non-finite SQL parameter")
  | SqlString s => inr (TStr s)
  | SqlBytes l => inr (TStr (b64_encode l))
  | SqlRaw json => inr (TRaw json)
  end.
Fixpoint sql_trees (l : list SqlValue) : string + list Tree :=
  match l with
  | [] => inr []
  | v :: l => match sql_tree v, sql_trees l with
              | inl e, _ => inl e
              | _, inl e => inl e
              | inr t, inr ts => inr (t :: ts)
              end
  end.

(** [Statement]. *)
Record Statement := mk_Statement { st_query : string; st_params : option (list SqlValue) }.
Definition statement_tree (s : Statement) : string + Tree :=
  match st_params s with
  | None => inr (TObj [("query", TStr (st_query s)); ("params", TNull)])
  | Some params =>
      match sql_trees params with
      | inl e => inl e
      | inr ts => inr (TObj [("query", TStr (st_query s)); ("params", TArr ts)])
      end
  end.
Fixpoint statement_trees (l : list Statement) : string + list Tree :=
  match l with
  | [] => inr []
  | s :: l => match statement_tree s, statement_trees l with
              | inl e, _ => inl e
              | _, inl e => inl e
              | inr t, inr ts => inr (t :: ts)
              end
  end.

(** [go_json_bytes] of a statement, and of an optional list of them. *)
Definition statement_bytes (s : Statement) : result ClientError Bytes :=
  t ← wrap KJson "encode JSON" (statement_tree s); go_json_bytes t.
Definition statements_bytes (l : option (list Statement)) : result ClientError Bytes :=
  match l with
  | None => go_json_bytes TNull
  | Some l => ts ← wrap KJson "encode JSON" (statement_trees l); go_json_bytes (TArr ts)
  end.
End json.

(** ** Events *)

(** [JsonColumn]: the raw text of a value. *)
Definition JsonColumn : Type := string.
Definition column_is_null (c : JsonColumn) : bool := bool_decide (str_trim c = "null").

(** [Row], [EndOfQuery], [ChangeType], [ChangeEvent] and [QueryEvent]. *)
Record Row := mk_Row { row_id : Z; row_values : option (list JsonColumn) }.
Record EndOfQuery := mk_EndOfQuery { eoq_time : Z; eoq_change_id : option Z }.
Inductive ChangeType := CTInsert | CTUpdate | CTDelete | CTOther (value : string).
Record ChangeEvent := mk_ChangeEvent {
  ch_type : ChangeType;
  ch_row_id : Z;
  ch_values : option (list JsonColumn);
  ch_change_id : Z
}.
Record QueryEvent := mk_QueryEvent {
  qe_columns : option (list string);
  qe_row : option Row;
  qe_end : option EndOfQuery;
  qe_change : option ChangeEvent;
  qe_error : option string
}.
Definition event_default : QueryEvent := mk_QueryEvent None None None None None.
Definition end_default : EndOfQuery := mk_EndOfQuery 0 None.

(** [ChangeType::as_str], and the reading of a type. *)
Definition change_type_str (t : ChangeType) : string :=
  match t with CTInsert => "insert" | CTUpdate => "update" | CTDelete => "delete" | CTOther v => v end.
Definition change_type_of (s : string) : ChangeType :=
  if String.eqb s "insert" then CTInsert
  else if String.eqb s "update" then CTUpdate
  else if String.eqb s "delete" then CTDelete
  else CTOther s.

(** [ExecResponse] and [ExecResult]. *)
Record ExecResult := mk_ExecResult { er_rows_affected : Z; er_time : Z; er_error : option string }.
Record ExecResponse := mk_ExecResponse {
  ex_results : list ExecResult;
  ex_time : Z;
  ex_version : option Z
}.

(** [raw_is_null]. *)
Definition raw_is_null (value : string) : bool := bool_decide (str_trim value = "null").

(** [Display] of [Utf8Error]: where the first ill-formed sequence is, and whether the
    text ends inside it. *)
Fixpoint utf8_error_aux (fuel : nat) (index : Z) (l : Bytes) : option string :=
  match fuel, l with
  | S fuel, c :: _ =>
      let '(n, valid) := utf8_char l in
      if valid then utf8_error_aux fuel (index + Z.of_nat n) (drop n l)
      else if (n =? length l)%nat && (194 <=? byte_val c) && (byte_val c <=? 244)
      then Some ("incomplete utf-8 byte sequence from index " +:+ dec index)
      else Some ("invalid utf-8 sequence of " +:+ dec (Z.of_nat n) +:+ " bytes from index " +:+ dec index)
  | _, _ => None
  end.
(** [str::from_utf8]. *)
Definition str_from_utf8 (l : Bytes) : string + string :=
  match utf8_error_aux (length l) 0 l with Some e => inl e | None => inr (of_bytes l) end.

Section events.
Context `{QueryJson}.

(** [decode] of an object as its pairs ([ObjectPairs]); null has none. *)
Definition object_pairs (data context : string) : result ClientError (list (string * string)) :=
  pairs ← wrap KJson context (q_any data); Ok (default [] pairs).

(** [parse_values]. *)
Definition parse_values (data context : string) : result ClientError (option (list JsonColumn)) :=
  wrap KJson context (q_opt_array data).

(** [parse_row_event]. *)
Definition parse_row_event (data : string) : result ClientError Row :=
  raw ← wrap KJson "invalid row event" (q_array data);
  match raw with
  | [raw0; raw1] =>
      id ← wrap KJson "invalid row event row ID" (q_u64 raw0);
      values ← parse_values raw1 "invalid row event values";
      Ok (mk_Row id values)
  | _ => Err (ce_new KProtocol "invalid row event: expected an array of 2 elements")
  end.

(** [parse_change_event]. *)
Definition parse_change_event (data : string) : result ClientError ChangeEvent :=
  raw ← wrap KJson "invalid change event" (q_array data);
  match raw with
  | [raw0; raw1; raw2; raw3] =>
      change_type ← wrap KJson "invalid change event type" (q_string raw0);
      row_id ← wrap KJson "invalid change event row ID" (q_u64 raw1);
      values ← parse_values raw2 "invalid change event values";
      change_id ← wrap KJson "invalid change event change ID" (q_u64 raw3);
      Ok (mk_ChangeEvent (change_type_of change_type) row_id values change_id)
  | _ => Err (ce_new KProtocol "invalid change event: expected an array of 4 elements")
  end.

(** [merge_end_of_query]. *)
Definition merge_end_step (e : EndOfQuery) (kv : string * string) : result ClientError EndOfQuery :=
  let '(key, value) := kv in
  if eq_ignore_ascii_case key "time" && negb (raw_is_null value) then
    time ← wrap KJson "invalid end-of-query time" (q_f64 value);
    Ok (mk_EndOfQuery time (eoq_change_id e))
  else if eq_ignore_ascii_case key "change_id" then
    change_id ← wrap KJson "invalid end-of-query change ID" (q_opt_u64 value);
    Ok (mk_EndOfQuery (eoq_time e) change_id)
  else Ok e.
Definition merge_end_of_query (e : EndOfQuery) (data : string) : result ClientError EndOfQuery :=
  pairs ← object_pairs data "invalid end-of-query event"; foldM merge_end_step e pairs.

(** The body of the loop of [parse_query_event]. *)
Definition event_step (ev : QueryEvent) (kv : string * string) : result ClientError QueryEvent :=
  let '(key, value) := kv in
  if eq_ignore_ascii_case key "columns" then
    columns ← wrap KJson "invalid columns event" (q_opt_strings value);
    Ok (mk_QueryEvent columns (qe_row ev) (qe_end ev) (qe_change ev) (qe_error ev))
  else if eq_ignore_ascii_case key "row" then
    row ← (if raw_is_null value then Ok None else Some <$> parse_row_event value);
    Ok (mk_QueryEvent (qe_columns ev) row (qe_end ev) (qe_change ev) (qe_error ev))
  else if eq_ignore_ascii_case key "eoq" then
    fin ← (if raw_is_null value then Ok None
           else Some <$> merge_end_of_query (default end_default (qe_end ev)) value);
    Ok (mk_QueryEvent (qe_columns ev) (qe_row ev) fin (qe_change ev) (qe_error ev))
  else if eq_ignore_ascii_case key "change" then
    change ← (if raw_is_null value then Ok None else Some <$> parse_change_event value);
    Ok (mk_QueryEvent (qe_columns ev) (qe_row ev) (qe_end ev) change (qe_error ev))
  else if eq_ignore_ascii_case key "error" then
    error ← wrap KJson "invalid query error" (q_opt_string value);
    Ok (mk_QueryEvent (qe_columns ev) (qe_row ev) (qe_end ev) (qe_change ev) error)
  else Ok ev.

(** [parse_query_event]. *)
Definition parse_query_event (data : string) : result ClientError QueryEvent :=
  pairs ← object_pairs data "decode query event"; foldM event_step event_default pairs.

(** [parse_exec_result]. *)
Definition exec_result_step (r : ExecResult) (kv : string * string) : result ClientError ExecResult :=
  let '(key, value) := kv in
  if eq_ignore_ascii_case key "rows_affected" && negb (raw_is_null value) then
    rows_affected ← wrap KJson "invalid rows_affected" (q_u64 value);
    Ok (mk_ExecResult rows_affected (er_time r) (er_error r))
  else if eq_ignore_ascii_case key "time" && negb (raw_is_null value) then
    time ← wrap KJson "invalid result time" (q_f64 value);
    Ok (mk_ExecResult (er_rows_affected r) time (er_error r))
  else if eq_ignore_ascii_case key "error" then
    error ← wrap KJson "invalid result error" (q_opt_string value);
    Ok (mk_ExecResult (er_rows_affected r) (er_time r) error)
  else Ok r.
Definition parse_exec_result (data : string) : result ClientError ExecResult :=
  pairs ← object_pairs data "invalid execution result"; foldM exec_result_step (mk_ExecResult 0 0 None) pairs.

(** [parse_exec_response]. *)
Definition exec_response_step (r : ExecResponse) (kv : string * string) : result ClientError ExecResponse :=
  let '(key, value) := kv in
  if eq_ignore_ascii_case key "results" then
    if raw_is_null value then Ok r
    else
      raw ← wrap KJson "invalid results" (q_array value);
      results ← traverse parse_exec_result raw;
      Ok (mk_ExecResponse results (ex_time r) (ex_version r))
  else if eq_ignore_ascii_case key "time" && negb (raw_is_null value) then
    time ← wrap KJson "invalid execution time" (q_f64 value);
    Ok (mk_ExecResponse (ex_results r) time (ex_version r))
  else if eq_ignore_ascii_case key "version" then
    version ← wrap KJson "invalid execution version" (q_opt_u64 value);
    Ok (mk_ExecResponse (ex_results r) (ex_time r) version)
  else Ok r.
Definition parse_exec_response (data : Bytes) : result ClientError ExecResponse :=
  text ← wrap KJson "decode response" (str_from_utf8 data);
  pairs ← object_pairs text "decode response";
  foldM exec_response_step (mk_ExecResponse [] 0 None) pairs.
End events.

(** ** The decoder *)

Section decoder.
Context `{GzipLib, QueryJson}.

(** [NdjsonDecoder]. *)
Record NdjsonDecoder := mk_NdjsonDecoder {
  nd_body : ResponseReader;
  nd_buffer : Bytes;
  nd_eof : bool
}.
Definition decoder_new (body : ResponseReader) : NdjsonDecoder := mk_NdjsonDecoder body [] false.

(** The white space at the head of a buffer is drained. *)
Fixpoint skip_whitespace (l : Bytes) : Bytes :=
  match l with
  | c :: l' => if is_ascii_whitespace c then skip_whitespace l' else l
  | [] => []
  end.

(** What a turn of the loop of [next_raw] decides from the buffer: to return, or to
    read more. *)
Definition decode_buffer (eof : bool) (buffer : Bytes) : option ((ClientError + string) * Bytes) :=
  match buffer with
  | [] => None
  | _ =>
      match q_stream buffer with
      | SValue raw consumed => Some (inr raw, drop consumed buffer)
      | SError is_eof text =>
          if is_eof && negb eof then None else Some (inl (ce_foreign KJson "decode query event" text), buffer)
      | SNone => None
      end
  end.

(** [next_raw]; [None]: the fuel is used up. *)
Fixpoint next_raw (fuel : nat) (d : NdjsonDecoder) :
    option ((ClientError + option string) * NdjsonDecoder) :=
  match fuel with
  | O => None
  | S fuel =>
      let buffer := skip_whitespace (nd_buffer d) in
      match decode_buffer (nd_eof d) buffer with
      | Some (inr raw, rest) => Some (inr (Some raw), mk_NdjsonDecoder (nd_body d) rest (nd_eof d))
      | Some (inl e, rest) => Some (inl e, mk_NdjsonDecoder (nd_body d) rest (nd_eof d))
      | None =>
          if nd_eof d then Some (inr None, mk_NdjsonDecoder (nd_body d) buffer true)
          else match body_read CHUNK (nd_body d) with
               | (inr [], body) => next_raw fuel (mk_NdjsonDecoder body buffer true)
               | (inr data, body) => next_raw fuel (mk_NdjsonDecoder body (buffer ++ data) false)
               | (inl e, body) => Some (inl e, mk_NdjsonDecoder body buffer false)
               end
      end
  end.
End decoder.
