(* ===== verification/CorroQuery.v ===== *)
(** * The corrosion client: statements, rows and change streams

    [ApiClient], [Rows], [Subscription] and [ChangeStream] of query.rs.  The transport
    and the retries of [backon] are classes over a world [W] that calls change; a
    result [None] means that the fuel is used up, which bounds the reads of a body and
    the turns of a loop. *)

From S2P Require Import Prelude RustStr Chars ClusterDns Cluster Store CorroClient.

Local Open Scope Z_scope.

(** ** The transport and the retries *)

Inductive Method : Set := GET | POST | HEAD | METHOD (name : string).
#[export] Instance Method_eq_dec : EqDecision Method.
Proof. solve_decision. Defined.

(** [HttpResponse]: the status, the headers ([None]: [to_str] cannot read the value), and
    the body. *)
Record HttpResponse `{GzipLib} := mk_HttpResponse {
  hr_status : Z;
  hr_headers : list (string * option string);
  hr_body : ResponseReader
}.
Arguments mk_HttpResponse {_} _ _ _.

(** [Transport::endpoint] and [Transport::request], with the addresses between them. *)
Class Http `{GzipLib} (W : Type) := {
  Address : Type;
  http_endpoint : string → result ClientError Address;
  http_request : Method → Address → Bytes → W → result ClientError HttpResponse * W
}.

(** The attempts of a retried call: the last one gives the result, and each one before
    failed with an error that may be retried; [later] is what happens to the world
    between attempts. *)
Inductive attempts {W A : Type} (later : W → W → Prop) (retryable : ClientError → bool)
    (call : W → option (result ClientError A * W)) : W → option (result ClientError A * W) → Prop :=
| attempt_last w r : call w = r → attempts later retryable call w r
| attempt_again w e w' w'' r :
    call w = Some (Err e, w') → retryable e = true → later w' w'' →
    attempts later retryable call w'' r → attempts later retryable call w r.

(** [Retryable::retry] with the subscription's backoff and [when]: an error that may
    not be retried is the result of its attempt. *)
Class Retries (W : Type) := {
  later : W → W → Prop;
  retry {A} : (ClientError → bool) → (W → option (result ClientError A * W)) → W →
              option (result ClientError A * W);
  retry_attempts {A} p (call : W → option (result ClientError A * W)) w :
    attempts later p call w (retry p call w);
  retry_first {A} p (call : W → option (result ClientError A * W)) w r w' :
    call w = Some (r, w') → (∀ e, r = Err e → p e = false) → retry p call w = Some (r, w')
}.

(** The [Debug] texts of a response and of an event. *)
Class QueryDebug := { response_debug : ExecResponse → string; event_debug : QueryEvent → string }.

(** ** Addresses *)

(** [{byte:02X}]. *)
Definition upper_hex (d : Z) : ascii := if d <? 10 then dec_digit d else Ascii.ascii_of_N (Z.to_N (55 + d)).
Definition unreserved (c : ascii) : bool :=
  is_ascii_alphanumeric c || code 45 c || code 46 c || code 95 c || code 126 c.

(** [encode_path_segment]. *)
Fixpoint encode_path_segment (s : string) : string :=
  match s with
  | EmptyString => ""
  | String c s =>
      if unreserved c then String c (encode_path_segment s)
      else String (Ascii.ascii_of_nat 37)
             (String (upper_hex (byte_val c / 16)) (String (upper_hex (byte_val c mod 16)) (encode_path_segment s)))
  end.

(** [unexpected_status]. *)
Definition unexpected_status (status : Z) (body : Bytes) : ClientError :=
  ce_new KHttp ("unexpected status code " +:+ dec status +:+ ": " +:+ of_bytes (from_utf8_lossy body)).

(** The value of the first header of a name, when it can be read. *)
Definition header_get (name : string) (headers : list (string * option string)) : option string :=
  head (List.filter (fun kv => eq_ignore_ascii_case (fst kv) name) headers) ≫= snd.

(** ** Rows *)

Section rows.
Context `{GzipLib, QueryJson, QueryDebug}.

(** [status_with_body]. *)
Definition status_with_body (fuel : nat) (response : HttpResponse) : option ClientError :=
  match read_to_end fuel (hr_body response) [] with
  | None => None
  | Some (inr body) => Some (unexpected_status (hr_status response) body)
  | Some (inl e) => Some (ce_from KHttp "read response body" e)
  end.

(** [Rows]. *)
Record Rows := mk_Rows {
  rs_columns : list string;
  rs_decoder : option NdjsonDecoder;
  rs_end : option EndOfQuery;
  rs_close_on_end : bool;
  rs_failed : bool
}.

Definition eof_error : ClientError := ce_new KProtocol "decode query event: EOF".

(** [Rows::new]. *)
Definition rows_new (fuel : nat) (body : ResponseReader) (close_on_end : bool) : option (result ClientError Rows) :=
  match next_raw fuel (decoder_new body) with
  | None => None
  | Some (inr None, _) => Some (Err eof_error)
  | Some (inr (Some raw), decoder) =>
      Some (event ← parse_query_event raw;
            match qe_columns event with
            | Some columns => Ok (mk_Rows columns (Some decoder) None close_on_end false)
            | None => Err (ce_new KProtocol ("expected columns event, got: " +:+ event_debug event))
            end)
  | Some (inl e, _) => Some (Err e)
  end.

Definition rows_fail {A} (e : ClientError) (self : Rows) : result ClientError A * Rows :=
  (Err e, mk_Rows (rs_columns self) None (rs_end self) (rs_close_on_end self) true).

(** What [Rows::next] makes of an event. *)
Definition rows_event (event : QueryEvent) (decoder : NdjsonDecoder) (self : Rows) :
    result ClientError (option Row) * Rows :=
  match qe_error event with
  | Some error => rows_fail (ce_new KProtocol ("query error: " +:+ error)) self
  | None =>
      match qe_row event with
      | Some row =>
          let value_count := length (default [] (row_values row)) in
          if (value_count =? length (rs_columns self))%nat
          then (Ok (Some row), mk_Rows (rs_columns self) (Some decoder) (rs_end self) (rs_close_on_end self) (rs_failed self))
          else rows_fail (ce_new KProtocol
                            ("expected " +:+ dec (Z.of_nat (length (rs_columns self))) +:+ " column values, got "
                             +:+ dec (Z.of_nat value_count))) self
      | None =>
          match qe_end event with
          | Some fin =>
              (Ok None, mk_Rows (rs_columns self) (if rs_close_on_end self then None else Some decoder)
                          (Some fin) (rs_close_on_end self) (rs_failed self))
          | None => rows_fail (ce_new KProtocol ("expected row or eof event, got: " +:+ event_debug event)) self
          end
      end
  end.

(** [Rows::next]. *)
Definition rows_next (fuel : nat) (self : Rows) : option (result ClientError (option Row) * Rows) :=
  if rs_failed self || bool_decide (is_Some (rs_end self)) then Some (Ok None, self)
  else match rs_decoder self with
       | None => Some (Ok None, self)
       | Some decoder =>
           match next_raw fuel decoder with
           | None => None
           | Some (inr None, _) => Some (rows_fail eof_error self)
           | Some (inl e, _) => Some (rows_fail e self)
           | Some (inr (Some raw), decoder) =>
               match parse_query_event raw with
               | Err e => Some (rows_fail e self)
               | Panic m => Some (Panic m, self)
               | Ok event => Some (rows_event event decoder self)
               end
           end
       end.

(** [Rows::time], [Rows::close]. *)
Definition rows_time (self : Rows) : result ClientError Z :=
  match rs_end self with
  | Some fin => Ok (eoq_time fin)
  | None => Err (ce_new KProtocol (if rs_failed self then "time is not available: row iteration failed"
                                   else "time is not available until all rows are consumed"))
  end.
Definition rows_close (self : Rows) : Rows :=
  mk_Rows (rs_columns self) None (rs_end self) (rs_close_on_end self) (rs_failed self).

(** [while rows.next().await?.is_some() {}]: the rows after it. *)
Fixpoint rows_drain (fuel : nat) (self : Rows) : option (result ClientError Rows) :=
  match fuel with
  | O => None
  | S fuel' =>
      match rows_next fuel self with
      | None => None
      | Some (Ok (Some _), self) => rows_drain fuel' self
      | Some (Ok None, self) => Some (Ok self)
      | Some (Err e, _) => Some (Err e)
      | Some (Panic m, _) => Some (Panic m)
      end
  end.

(** [rows_from_response]. *)
Definition rows_from_response (fuel : nat) (response : HttpResponse) (close_on_end : bool) :
    option (result ClientError Rows) :=
  if negb (hr_status response =? 200) then Err <$> status_with_body fuel response
  else map_err (ce_from KProtocol "parse query response") <$> rows_new fuel (hr_body response) close_on_end.

(** [Row::decode_into] and [ChangeEvent::decode_into] of the values, with the reader of
    the type; null leaves the destination. *)
Definition decode_column {T} (read : string → string + T) (values : option (list JsonColumn)) (index : nat)
    (target : T) : result ClientError T :=
  value ← ok_or (ce_new KProtocol ("column index " +:+ dec (Z.of_nat index) +:+ " is out of bounds"))
            (values ≫= (fun l => l !! index));
  if column_is_null value then Ok target
  else map_err (ce_from KJson ("unmarshal column value #" +:+ dec (Z.of_nat index)))
         (wrap KJson "decode column value" (read value)).

(** [Row::expect_columns]. *)
Definition expect_columns (count : nat) (row : Row) : result ClientError () :=
  let actual := length (default [] (row_values row)) in
  if (actual =? count)%nat then Ok ()
  else Err (ce_new KProtocol ("expected " +:+ dec (Z.of_nat count) +:+ " values, got " +:+ dec (Z.of_nat actual))).

(** [ChangeEvent::to_json]. *)
Definition change_to_json (c : ChangeEvent) : result ClientError Bytes :=
  go_json_bytes (TArr [TStr (change_type_str (ch_type c)); TInt (ch_row_id c);
                       match ch_values c with None => TNull | Some l => TArr (map TRaw l) end;
                       TInt (ch_change_id c)]).
End rows.

(** ** The client *)

Section client.
Context `{GzipLib, QueryJson, QueryDebug, Base64} {W : Type} `{!Http W}.

(** [ExecError]. *)
Record ExecError := mk_ExecError { xe_response : option ExecResponse; xe_error : ClientError }.
Definition exec_from (e : ClientError) : ExecError := mk_ExecError None e.

(** A request at an endpoint, by the question mark operator. *)
Definition api_send (method : Method) (path : string) (body : result ClientError Bytes) (w : W) :
    result ClientError HttpResponse * W :=
  match body with
  | Ok body =>
      match http_endpoint path with
      | Ok uri => http_request method uri body w
      | Err e => (Err e, w)
      | Panic m => (Panic m, w)
      end
  | Err e => (Err e, w)
  | Panic m => (Panic m, w)
  end.

(** What [exec_multi] makes of a status and a body. *)
Definition exec_outcome (status : Z) (body : Bytes) : result ExecError ExecResponse :=
  if status =? 200 then
    response ← map_err exec_from (parse_exec_response body);
    match omap er_error (ex_results response) with
    | [] => Ok response
    | errors => Err (mk_ExecError (Some response)
                       (ce_new KProtocol (str_join (String (Ascii.ascii_of_nat 10) "") errors)))
    end
  else if status =? 500 then
    let internal : ExecError :=
      mk_ExecError None (ce_new KHttp ("internal server error: " +:+ of_bytes (from_utf8_lossy body))) in
    match parse_exec_response body with
    | Ok response =>
        match head (ex_results response) ≫= er_error with
        | Some message => Err (mk_ExecError None (ce_new KProtocol message))
        | None => Err internal
        end
    | Err _ => Err internal
    | Panic m => Panic m
    end
  else Err (mk_ExecError None (unexpected_status status body)).

(** [exec_multi]. *)
Definition exec_multi (fuel : nat) (statements : option (list Statement)) (w : W) :
    option (result ExecError ExecResponse * W) :=
  match api_send POST "/v1/transactions" (statements_bytes statements) w with
  | (Err e, w) => Some (Err (exec_from e), w)
  | (Panic m, w) => Some (Panic m, w)
  | (Ok response, w) =>
      match read_to_end fuel (hr_body response) [] with
      | None => None
      | Some (inl e) => Some (Err (exec_from e), w)
      | Some (inr body) => Some (exec_outcome (hr_status response) body, w)
      end
  end.

(** [exec]. *)
Definition exec (fuel : nat) (query : string) (params : option (list SqlValue)) (w : W) :
    option (result ExecError ExecResult * W) :=
  match exec_multi fuel (Some [mk_Statement query params]) w with
  | None => None
  | Some (r, w) =>
      Some (response ← r;
            match ex_results response with
            | result :: _ => Ok result
            | [] => Err (mk_ExecError (Some response)
                           (ce_new KProtocol ("no results: " +:+ response_debug response)))
            end, w)
  end.

(** [query]. *)
Definition query (fuel : nat) (query : string) (params : option (list SqlValue)) (w : W) :
    option (result ClientError Rows * W) :=
  match api_send POST "/v1/queries" (statement_bytes (mk_Statement query params)) w with
  | (Err e, w) => Some (Err e, w)
  | (Panic m, w) => Some (Panic m, w)
  | (Ok response, w) =>
      r ← rows_from_response fuel response true; Some (r, w)
  end.

(** [Subscription]; [sub_resubscribe] is whether the client has a backoff. *)
Record Subscription := mk_Subscription {
  sub_id : string;
  sub_rows : option Rows;
  sub_decoder : option NdjsonDecoder;
  sub_resubscribe : bool
}.

(** What [subscribe] makes of a response. *)
Definition subscribe_response (fuel : nat) (skip_rows resubscribe : bool) (response : HttpResponse) :
    option (result ClientError Subscription) :=
  if negb (hr_status response =? 200) then Err <$> status_with_body fuel response
  else match header_get "corro-query-id" (hr_headers response) with
       | None | Some "" => Some (Err (ce_new KProtocol "missing corro-query-id header in response"))
       | Some id =>
           if skip_rows
           then Some (Ok (mk_Subscription id None (Some (decoder_new (hr_body response))) resubscribe))
           else r ← rows_new fuel (hr_body response) false;
                Some (rows ← r; Ok (mk_Subscription id (Some rows) None resubscribe))
       end.

(** [subscribe]. *)
Definition subscribe (fuel : nat) (resubscribe : bool) (query : string) (params : option (list SqlValue))
    (skip_rows : bool) (w : W) : option (result ClientError Subscription * W) :=
  let endpoint := if skip_rows then "/v1/subscriptions?skip_rows=true" else "/v1/subscriptions" in
  match api_send POST endpoint (statement_bytes (mk_Statement query params)) w with
  | (Err e, w) => Some (Err e, w)
  | (Panic m, w) => Some (Panic m, w)
  | (Ok response, w) => r ← subscribe_response fuel skip_rows resubscribe response; Some (r, w)
  end.

(** What [resubscribe_once] makes of a response. *)
Definition resubscribe_response (fuel : nat) (from_change : Z) (response : HttpResponse) :
    option (result ClientError NdjsonDecoder) :=
  if hr_status response =? 404 then Some (Err (ce_new KSubscriptionNotFound "subscription not found"))
  else if negb (hr_status response =? 200) then Err <$> status_with_body fuel response
  else if from_change =? 0 then
    r ← rows_new fuel (hr_body response) false;
    match map_err (ce_from KProtocol "parse resubscribe response") r with
    | Ok rows =>
        r ← rows_drain fuel rows;
        Some (rows ← r;
              ok_or (ce_new KProtocol "drain resubscribe snapshot closed the response") (rs_decoder rows))
    | Err e => Some (Err e)
    | Panic m => Some (Panic m)
    end
  else Some (Ok (decoder_new (hr_body response))).

(** [resubscribe_once]. *)
Definition resubscribe_once (fuel : nat) (id : string) (from_change : Z) (w : W) :
    option (result ClientError NdjsonDecoder * W) :=
  match api_send GET ("/v1/subscriptions/" +:+ encode_path_segment id +:+ "?from=" +:+ dec from_change) (Ok []) w with
  | (Err e, w) => Some (Err e, w)
  | (Panic m, w) => Some (Panic m, w)
  | (Ok response, w) => r ← resubscribe_response fuel from_change response; Some (r, w)
  end.

(** ** Changes *)

(** [ChangeStream]. *)
Record ChangeStream := mk_ChangeStream {
  cs_id : string;
  cs_decoder : option NdjsonDecoder;
  cs_last_change_id : Z;
  cs_resubscribe : bool;
  cs_needs_resubscribe : bool;
  cs_finished : bool
}.

(** [into_changes]. *)
Definition into_changes (self : Subscription) : result ClientError ChangeStream :=
  let closed := ce_new KProtocol "subscription response is closed" in
  '(decoder, last_change_id) ←
    match sub_rows self with
    | Some rows =>
        fin ← ok_or (ce_new KProtocol "changes are not available until all rows are consumed") (rs_end rows);
        change_id ← ok_or (ce_new KProtocol "end-of-query event has no change ID") (eoq_change_id fin);
        decoder ← ok_or closed (rs_decoder rows);
        Ok (decoder, change_id)
    | None => decoder ← ok_or closed (sub_decoder self); Ok (decoder, 0)
    end;
  Ok (mk_ChangeStream (sub_id self) (Some decoder) last_change_id (sub_resubscribe self) false false).

(** [expected_change_id]. *)
Definition expected_change_id (last_change_id : Z) : option Z :=
  if last_change_id =? 0 then None else Some ((last_change_id + 1) mod 2 ^ 64).

(** What [ChangeStream::next] makes of a raw value. *)
Definition change_of (last_change_id : Z) (raw : string) : result ClientError ChangeEvent :=
  event ← parse_query_event raw;
  match qe_error event with
  | Some error => Err (ce_new KProtocol ("query error: " +:+ error))
  | None =>
      match qe_change event with
      | Some change =>
          match expected_change_id last_change_id with
          | Some expected =>
              if ch_change_id change =? expected then Ok change
              else Err (ce_new KProtocol ("missed a change: expected change ID " +:+ dec expected +:+ ", got "
                                          +:+ dec (ch_change_id change)))
          | None => Ok change
          end
      | None => Err (ce_new KProtocol ("expected change event, got: " +:+ event_debug event))
      end
  end.

(** The value read in a turn of [ChangeStream::next]. *)
Definition change_read (last_change_id : Z) (r : ClientError + option string) : result ClientError ChangeEvent :=
  match r with
  | inr (Some raw) => change_of last_change_id raw
  | inr None => Err eof_error
  | inl e => Err e
  end.

Context `{!Retries W}.

(** [ChangeStream::resubscribe]. *)
Definition stream_resubscribe (fuel : nat) (self : ChangeStream) (w : W) :
    option (result ClientError NdjsonDecoder * W) :=
  if cs_resubscribe self
  then retry (fun e => negb (is_subscription_not_found e))
         (resubscribe_once fuel (cs_id self) (cs_last_change_id self)) w
  else Some (Panic "resubscribe checked as enabled", w).

(** The states of a stream. *)
Definition stream_finish (self : ChangeStream) : ChangeStream :=
  mk_ChangeStream (cs_id self) None (cs_last_change_id self) (cs_resubscribe self) (cs_needs_resubscribe self) true.
Definition stream_connected (decoder : NdjsonDecoder) (self : ChangeStream) : ChangeStream :=
  mk_ChangeStream (cs_id self) (Some decoder) (cs_last_change_id self) (cs_resubscribe self) false (cs_finished self).
Definition stream_lost (self : ChangeStream) : ChangeStream :=
  mk_ChangeStream (cs_id self) None (cs_last_change_id self) (cs_resubscribe self) true (cs_finished self).
Definition stream_delivered (change : ChangeEvent) (decoder : NdjsonDecoder) (self : ChangeStream) : ChangeStream :=
  mk_ChangeStream (cs_id self) (Some decoder) (ch_change_id change) (cs_resubscribe self)
    (cs_needs_resubscribe self) (cs_finished self).

(** What [ChangeStream::next] returns. *)
Definition NextResult : Type := option (result ClientError ChangeEvent).

(** The first part of a turn of the loop of [next]: a stream with a decoder, or what is
    returned. *)
Definition turn_connect (fuel : nat) (self : ChangeStream) (w : W) :
    option ((ChangeStream * (result ClientError ChangeEvent) + ChangeStream) * W) :=
  if cs_needs_resubscribe self then
    r ← stream_resubscribe fuel self w;
    match r with
    | (Ok decoder, w) => Some (inr (stream_connected decoder self), w)
    | (Err e, w) =>
        Some (inl (stream_finish self, Err (ce_from KProtocol "resubscribe to query with backoff" e)), w)
    | (Panic m, w) => Some (inl (self, Panic m), w)
    end
  else Some (inr self, w).

(** The second part: to read a value, and to return or go on. *)
Definition turn_read (fuel : nat) (self : ChangeStream) :
    option (ChangeStream * (result ClientError ChangeEvent) + ChangeStream) :=
  match cs_decoder self with
  | None => Some (inl (self, Panic "active stream has a decoder"))
  | Some decoder =>
      '(raw, decoder) ← next_raw fuel decoder;
      Some (match change_read (cs_last_change_id self) raw with
            | Ok change => inl (stream_delivered change decoder self, Ok change)
            | Err e => if cs_resubscribe self then inr (stream_lost self) else inl (stream_finish self, Err e)
            | Panic m => inl (self, Panic m)
            end)
  end.

(** The loop of [next], of at most [turns] turns. *)
Fixpoint next_loop (turns fuel : nat) (self : ChangeStream) (w : W) : option (NextResult * ChangeStream * W) :=
  match turns with
  | O => None
  | S turns =>
      r ← turn_connect fuel self w;
      match r with
      | (inl (self, r), w) => Some (Some r, self, w)
      | (inr self, w) =>
          r ← turn_read fuel self;
          match r with
          | inl (self, r) => Some (Some r, self, w)
          | inr self => next_loop turns fuel self w
          end
      end
  end.

(** [ChangeStream::next]. *)
Definition stream_next (turns fuel : nat) (self : ChangeStream) (w : W) : option (NextResult * ChangeStream * W) :=
  if cs_finished self then Some (None, self, w) else next_loop turns fuel self w.
End client.
