(* ===== verification/CorroClientProps.v ===== *)
(** * The corrosion client: what is read from a body

    A body is read whole or with the error of its transport, and the values of a
    stream are decoded the same however the body is cut into frames. *)

From S2P Require Import Prelude RustStr Chars ClusterDns Cluster Store CorroClient.

(** ** Plain bodies *)

Section plain.
Context `{GzipLib}.

(** The data and the errors of frames. *)
Fixpoint frame_data (frames : list Frame) : Bytes :=
  match frames with [] => [] | inr data :: l => data ++ frame_data l | inl _ :: l => frame_data l end.
Fixpoint frame_errors (frames : list Frame) : list string :=
  match frames with [] => [] | inl e :: l => e :: frame_errors l | inr _ :: l => frame_errors l end.

(** What is left to read of a plain body: its data, and the error at its end. *)
Definition content (b : ResponseReader) : option Bytes :=
  match rr_reader b with RPlain chunk frames => Some (chunk ++ frame_data frames) | RGzip _ => None end.
Definition failure (b : ResponseReader) : option string :=
  match rr_reader b with
  | RPlain _ frames => stage (rr_staged_error b) (frame_errors frames)
  | RGzip _ => rr_staged_error b
  end.

Lemma fill_none frames errors : fill frames = (errors, None) →
  frame_data frames = [] ∧ errors = frame_errors frames.
Proof.
  revert errors. induction frames as [|[e|[|c l]] frames IH]; intros errors; cbn; [naive_solver| |apply IH|done].
  destruct (fill frames) as [errors' r]. intros [= <- ->]. by destruct (IH errors') as [? ->].
Qed.

Lemma fill_some frames errors chunk rest : fill frames = (errors, Some (chunk, rest)) →
  chunk ≠ [] ∧ frame_data frames = chunk ++ frame_data rest ∧ frame_errors frames = errors ++ frame_errors rest.
Proof.
  revert errors. induction frames as [|[e|[|c l]] frames IH]; intros errors; cbn; [done| |apply IH|naive_solver].
  destruct (fill frames) as [errors' r]. intros [= <- ->]. destruct (IH errors') as (? & ? & E); [done|].
  by rewrite E.
Qed.

Lemma stage_app slot l l' : stage (stage slot l) l' = stage slot (l ++ l').
Proof. by destruct slot, l. Qed.

(** A read of a plain body: the next bytes, or the end. *)
Lemma body_read_data size b data : content b = Some data → data ≠ [] → (0 < size)%nat →
  ∃ d b', body_read size b = (inr d, b') ∧ d ≠ [] ∧
    (∃ rest, data = d ++ rest ∧ content b' = Some rest) ∧ failure b' = failure b.
Proof.
  unfold content, failure, body_read. destruct b as [[chunk frames|g] slot]; [|done]. cbn. intros [= <-] Hne Hs.
  assert (∀ (c : ascii) l, ∃ d, take size (c :: l) = c :: d) as Htake by (destruct size; [lia|]; naive_solver).
  destruct chunk as [|c chunk]; cbn.
  - destruct (fill frames) as [errors [[[|c chunk] rest]|]] eqn:Hf.
    + by apply fill_some in Hf as [? _].
    + apply fill_some in Hf as (_ & E & Ee). rewrite E in *. destruct (Htake c chunk) as [d Hd]. rewrite Hd.
      eexists _, _. split_and!; [done..| |].
      * exists (drop size (c :: chunk) ++ frame_data rest). by rewrite <-Hd, app_assoc, take_drop.
      * cbn. by rewrite stage_app, Ee.
    + by apply fill_none in Hf as [? _].
  - destruct (Htake c chunk) as [d Hd]. rewrite Hd. eexists _, _. split_and!; [done..| |].
    + exists (drop size (c :: chunk) ++ frame_data frames). by rewrite <-Hd, app_assoc, take_drop.
    + cbn. by destruct slot.
Qed.

Lemma body_read_end size b : content b = Some [] →
  ∃ b', body_read size b =
    (match failure b with Some e => inl (ce_foreign KHttp "read response body" e) | None => inr [] end, b') ∧
  content b' = Some [] ∧ failure b' = None.
Proof.
  unfold content, failure, body_read. destruct b as [[[|c chunk] frames|g] slot]; [|done..]. cbn. intros [= E].
  destruct (fill frames) as [errors [[chunk rest]|]] eqn:Hf.
  - apply fill_some in Hf as (Hne & E' & _). rewrite E in E'. by destruct chunk.
  - apply fill_none in Hf as [_ ->]. cbn. destruct (stage slot _); eauto.
Qed.

(** [read_to_end] of a plain body, with a turn for each byte and the end. *)
Lemma read_to_end_content fuel b data body : content b = Some data → (length data < fuel)%nat →
  read_to_end fuel b body =
    Some (match failure b with Some e => inl (ce_foreign KHttp "read response body" e) | None => inr (body ++ data) end).
Proof.
  revert b data body. induction fuel as [|fuel IH]; intros b data body Hb Hf; [lia|]. cbn [read_to_end].
  destruct data as [|x data].
  - destruct (body_read_end CHUNK b Hb) as (b' & -> & _ & _). destruct (failure b); [done|]. by rewrite app_nil_r.
  - destruct (body_read_data CHUNK b (x :: data)) as (d & b' & -> & Hd & (rest & E & Hb') & Hfail);
      [done..|unfold CHUNK; lia|].
    assert (length (x :: data) = length d + length rest)%nat as Hlen by (rewrite E; apply length_app).
    destruct d as [|y d]; [done|]. cbn in *. rewrite (IH b' rest) by (done || lia). by rewrite Hfail, E, <-app_assoc.
Qed.
End plain.

(** ** Streams of values *)

(** Values that tell where they end, as objects do: [serde_json]'s stream takes one off
    the head of a buffer, and asks for more input on a part of one. *)
Class Delimited `{QueryJson} := {
  delimited : string → Prop;
  delimited_head v : delimited v → ∃ c l, bytes v = c :: l ∧ is_ascii_whitespace c = false;
  delimited_value v rest : delimited v → q_stream (bytes v ++ rest) = SValue v (length (bytes v));
  delimited_part v p rest : delimited v → bytes v = p ++ rest → p ≠ [] → rest ≠ [] →
    ∃ text, q_stream p = SError true text
}.

Definition blank (l : Bytes) : Prop := Forall (fun c => is_ascii_whitespace c = true) l.

(** Values, each after white space, and white space at the end. *)
Fixpoint stream_text (l : list (Bytes * string)) (tail : Bytes) : Bytes :=
  match l with [] => tail | (space, v) :: l => space ++ bytes v ++ stream_text l tail end.

Lemma skip_whitespace_split l : ∃ space, l = space ++ skip_whitespace l ∧ blank space.
Proof.
  induction l as [|c l (space & E & Hs)]; [by exists []; split; [|constructor]|]. cbn. destruct (is_ascii_whitespace c) eqn:Hc.
  - exists (c :: space). cbn. rewrite <-E. by repeat constructor.
  - exists []. by split; [|constructor].
Qed.
Lemma skip_whitespace_head l c l' : skip_whitespace l = c :: l' → is_ascii_whitespace c = false.
Proof. induction l as [|d l IH]; [done|]. cbn. destruct (is_ascii_whitespace d) eqn:Hd; [done|]. by intros [= <- <-]. Qed.

(** White space before a value can be taken apart in one way. *)
Lemma blank_prefix space space' (c : ascii) l rest : blank space → blank space' → is_ascii_whitespace c = false →
  space ++ rest = space' ++ c :: l →
  ∃ space'', blank space'' ∧ rest = space'' ++ c :: l.
Proof.
  intros Hs. revert space'. induction Hs as [|d space Hd _ IH]; intros space' Hs' Hc E; [by exists space'|].
  destruct space' as [|d' space']; cbn in E; simplify_eq; [congruence|].
  apply (IH space'); [|done..]. by inversion Hs'.
Qed.

Section decoder.
Context `{GzipLib, Delimited}.

(** What is left to decode of a plain body, and the error at its end. *)
Definition left (f : option string) (d : NdjsonDecoder) (text : Bytes) : Prop :=
  failure (nd_body d) = f ∧
  ∃ data, content (nd_body d) = Some data ∧ text = nd_buffer d ++ data ∧ (nd_eof d = true → data = [] ∧ f = None).
Definition end_result (f : option string) : ClientError + option string :=
  match f with Some e => inl (ce_foreign KHttp "read response body" e) | None => inr None end.

Lemma decode_buffer_value eof v rest : delimited v →
  decode_buffer eof (bytes v ++ rest) = Some (inr v, rest).
Proof.
  intros Hv. unfold decode_buffer. destruct (delimited_head v Hv) as (c & l & E & _).
  rewrite delimited_value by done. rewrite E. cbn. by rewrite drop_app_length.
Qed.

Lemma decode_buffer_part v p rest : delimited v → bytes v = p ++ rest → rest ≠ [] →
  decode_buffer false p = None.
Proof.
  intros Hv E Hr. unfold decode_buffer. destruct p as [|c p]; [done|].
  by destruct (delimited_part v (c :: p) rest Hv E) as [text ->].
Qed.

(** The buffer after its white space, followed by what is still to be read. *)
Lemma left_skip (buffer data space : Bytes) v rest : blank space → delimited v →
  space ++ bytes v ++ rest = buffer ++ data →
  (skip_whitespace buffer = [] ∧ ∃ space', blank space' ∧ data = space' ++ bytes v ++ rest)
  ∨ (skip_whitespace buffer ≠ [] ∧ bytes v ++ rest = skip_whitespace buffer ++ data).
Proof.
  intros Hs Hv E. destruct (delimited_head v Hv) as (c & l & Ev & Hc).
  destruct (skip_whitespace_split buffer) as (space0 & Eb & Hs0).
  assert (space0 ++ skip_whitespace buffer ++ data = space ++ c :: (l ++ rest)) as E'
    by (rewrite app_assoc, <-Eb, <-E, Ev; done).
  apply blank_prefix in E' as (space' & Hs' & E'); [|done..].
  destruct (skip_whitespace buffer) as [|b buffer'] eqn:Hb; [left|right]; split; [done| |done|].
  - exists space'. by rewrite Ev.
  - apply skip_whitespace_head in Hb. destruct space' as [|d space']; cbn in E'; simplify_eq; [rewrite Ev; cbn; congruence|].
    inversion Hs'. congruence.
Qed.

(** A turn that reads. *)
Lemma next_raw_reads f fuel d data : nd_eof d = false → failure (nd_body d) = f →
  content (nd_body d) = Some data → data ≠ [] → decode_buffer false (skip_whitespace (nd_buffer d)) = None →
  ∃ d' rest, next_raw (S fuel) d = next_raw fuel d' ∧ left f d' (skip_whitespace (nd_buffer d) ++ data) ∧
    content (nd_body d') = Some rest ∧ (length rest < length data)%nat.
Proof.
  intros He Hf Hc Hne Hb. cbn [next_raw]. rewrite He, Hb.
  destruct (body_read_data CHUNK _ _ Hc Hne) as (chunk & body & -> & Hd & (rest & -> & Hc') & Hf'); [unfold CHUNK; lia|].
  destruct chunk as [|x chunk]; [done|]. eexists _, rest. split; [done|]. split_and!; [|done|rewrite length_app; cbn; lia].
  split; [cbn; congruence|]. exists rest. cbn. by rewrite <-app_assoc.
Qed.

(** [next_raw] gives the next value, and leaves what follows it. *)
Lemma next_raw_value f fuel d data space v rest :
  left f d (space ++ bytes v ++ rest) → blank space → delimited v →
  content (nd_body d) = Some data → (length data < fuel)%nat →
  ∃ d', next_raw fuel d = Some (inr (Some v), d') ∧ left f d' rest.
Proof.
  revert d data space. induction fuel as [|fuel IH]; intros d data space (Hfail & data' & Hdata & Htext & Heof) Hs Hv Hc Hlen; [lia|].
  rewrite Hc in Hdata; injection Hdata as <-.
  assert (data ≠ [] → nd_eof d = false) as He by (destruct (nd_eof d); naive_solver).
  destruct (delimited_head v Hv) as (c & l & Ev & _).
  assert (∀ space', blank space' → data ≠ [] → decode_buffer false (skip_whitespace (nd_buffer d)) = None →
          skip_whitespace (nd_buffer d) ++ data = space' ++ bytes v ++ rest →
          ∃ d', next_raw (S fuel) d = Some (inr (Some v), d') ∧ left f d' rest) as Hread.
  { intros space' Hs' Hne Hb E. destruct (next_raw_reads f fuel d data (He Hne) Hfail Hc Hne Hb) as (d' & rest' & -> & Hl & Hc' & Hlt).
    rewrite E in Hl. apply (IH d' rest' space'); [done..|lia]. }
  destruct (left_skip _ _ _ _ _ Hs Hv Htext) as [(Hb & space' & Hs' & Ed)|(Hb & E)].
  - apply (Hread space'); [done| |by rewrite Hb|by rewrite Hb]. rewrite Ed, Ev. by destruct space'.
  - destruct (app_eq_inv _ _ _ _ E) as [(k & Ek & Ed)|(k & Ek & Er)].
    + destruct k as [|x k].
      * cbn [next_raw]. rewrite app_nil_r in Ek. rewrite <-Ek, <-(app_nil_r (bytes v)), decode_buffer_value by done.
        eexists. split; [done|]. split; [done|]. exists data. split_and!; [done|by rewrite Ed|done].
      * apply (Hread []); [constructor|by rewrite Ed| |by rewrite <-E]. by apply (decode_buffer_part v _ (x :: k)).
    + cbn [next_raw]. rewrite Ek, decode_buffer_value by done. eexists. split; [done|]. split; [done|].
      exists data. done.
Qed.

(** At the end there is no value, or the error. *)
Lemma next_raw_end f fuel d data tail : left f d tail → blank tail →
  content (nd_body d) = Some data → (length data + (if nd_eof d then 0 else 1) < fuel)%nat →
  ∃ d', next_raw fuel d = Some (end_result f, d') ∧ left None d' [].
Proof.
  revert d data tail. induction fuel as [|fuel IH]; intros d data tail (Hfail & data' & Hdata & -> & Heof) Hs Hc Hlen; [lia|].
  rewrite Hc in Hdata; injection Hdata as <-. apply Forall_app in Hs as [Hb Hd].
  assert (skip_whitespace (nd_buffer d) = []) as Hskip by (clear -Hb; induction Hb as [|x l Hx _ IHb]; cbn; [|rewrite Hx]; done).
  destruct (nd_eof d) eqn:He.
  - destruct (Heof eq_refl) as [-> ->]. cbn [next_raw]. rewrite Hskip, He. eexists. split; [done|].
    split; [done|]. by exists [].
  - destruct data as [|x data].
    + cbn [next_raw]. rewrite Hskip, He. cbn [decode_buffer].
      destruct (body_read_end CHUNK _ Hc) as (b & -> & Hc' & Hf'). rewrite Hfail. destruct f as [e|].
      { eexists. split; [done|]. split; [done|]. by exists []. }
      apply (IH _ [] []); [|by apply Forall_nil_2|done|cbn in *; lia]. split; [done|]. by exists [].
    + destruct (next_raw_reads f fuel d (x :: data)) as (d' & rest & -> & Hl & Hc' & Hlt); [done..|by rewrite Hskip|].
      rewrite Hskip in Hl. apply (IH d' rest (x :: data)); [done..|]. destruct (nd_eof d'); lia.
Qed.

(** Enough fuel for what is left. *)
Lemma left_content f d text : left f d text → ∃ data, content (nd_body d) = Some data ∧ (length data <= length text)%nat.
Proof. intros (_ & data & Hc & -> & _). exists data. rewrite length_app. split; [done|lia]. Qed.

Lemma left_new frames : left (head (frame_errors frames)) (decoder_new (reader_new frames false)) (frame_data frames).
Proof. split; [done|]. by exists (frame_data frames). Qed.

(** More fuel does not change a result. *)
Lemma next_raw_more fuel more d r : next_raw fuel d = Some r → (fuel <= more)%nat → next_raw more d = Some r.
Proof.
  revert more d. induction fuel as [|fuel IH]; intros [|more] d; [done..|lia|]. cbn [next_raw]. intros E Hle.
  destruct (decode_buffer _ _) as [[[] ?]|]; [done..|]. destruct (nd_eof d); [done|].
  destruct (body_read CHUNK (nd_body d)) as [[?|[|]] ?]; [done|apply (IH more); [done|lia]..].
Qed.

Lemma next_raw_unique fuel fuel' d r r' : next_raw fuel d = Some r → next_raw fuel' d = Some r' → r = r'.
Proof.
  intros E%(next_raw_more _ (fuel + fuel')) E'%(next_raw_more _ (fuel + fuel')); [congruence|lia..].
Qed.

(** Calls of [next_raw], one after another. *)
Fixpoint next_raws (count fuel : nat) (d : NdjsonDecoder) : option (list (ClientError + option string)) :=
  match count with
  | O => Some []
  | S count =>
      '(r, d) ← next_raw fuel d; rs ← next_raws count fuel d; Some (r :: rs)
  end.

Lemma next_raws_text f l tail fuel d : left f d (stream_text l tail) →
  Forall (fun sv => blank sv.1 ∧ delimited sv.2) l → blank tail → (S (length (stream_text l tail)) < fuel)%nat →
  next_raws (S (length l)) fuel d = Some (map (fun sv => inr (Some sv.2)) l ++ [end_result f]).
Proof.
  revert d. induction l as [|[space v] l IH]; intros d Hl Hv Ht Hf; destruct (left_content _ _ _ Hl) as (data & Hc & Hle).
  - cbn [next_raws length]. destruct (next_raw_end f fuel d data tail) as (d' & -> & _); [done..| |done].
    cbn in *. destruct (nd_eof d); lia.
  - inversion Hv as [|? ? [Hs Hd] Hv']; subst. cbn [stream_text length] in *.
    destruct (next_raw_value f fuel d data space v (stream_text l tail)) as (d' & E & Hl'); [done..|lia|].
    change (next_raws (S (S (length l))) fuel d)
      with ('(r, d) ← next_raw fuel d; rs ← next_raws (S (length l)) fuel d; Some (r :: rs)).
    rewrite E. cbn [mbind option_bind]. rewrite IH; [done..|]. rewrite !length_app in Hf. lia.
Qed.
End decoder.
