(* ===== verification/CorroQueryProps.v ===== *)
(** * The corrosion client: rows and changes are complete and in order *)

From S2P Require Import Prelude RustStr Chars ClusterDns Cluster Store CorroClient CorroQuery CorroClientProps.

Local Open Scope Z_scope.

(** ** Rows *)

Section rows.
Context `{GzipLib, QueryDebug, Delimited}.

(** The loop [while let Some(row) = rows.next().await? { .. }]: the rows it takes. *)
Fixpoint rows_all (turns fuel : nat) (self : Rows) : option (result ClientError (list Row) * Rows) :=
  match turns with
  | O => None
  | S turns =>
      '(r, self) ← rows_next fuel self;
      match r with
      | Ok None => Some (Ok [], self)
      | Ok (Some row) => '(rs, self) ← rows_all turns fuel self; Some (l ← rs; Ok (row :: l), self)
      | Err e => Some (Err e, self)
      | Panic m => Some (Panic m, self)
      end
  end.

(** Texts that are events of a kind. *)
Definition is_columns (columns : list string) (text : string) : Prop :=
  ∃ ev, parse_query_event text = Ok ev ∧ qe_columns ev = Some columns.
Definition is_row (columns : list string) (row : Row) (text : string) : Prop :=
  (∃ ev, parse_query_event text = Ok ev ∧ qe_error ev = None ∧ qe_row ev = Some row)
  ∧ length (default [] (row_values row)) = length columns.
Definition is_end (fin : EndOfQuery) (text : string) : Prop :=
  ∃ ev, parse_query_event text = Ok ev ∧ qe_error ev = None ∧ qe_row ev = None ∧ qe_end ev = Some fin.

(** A text of an event after white space. *)
Definition spaced (sv : Bytes * string) : Prop := blank sv.1 ∧ delimited sv.2.

Definition reading (columns : list string) (d : NdjsonDecoder) (close : bool) : Rows :=
  mk_Rows columns (Some d) None close false.

Lemma left_fuel f d sv rest fuel : left f d (sv.1 ++ bytes sv.2 ++ rest) → spaced sv →
  (length (sv.1 ++ bytes sv.2 ++ rest) < fuel)%nat →
  ∃ d', next_raw fuel d = Some (inr (Some sv.2), d') ∧ left f d' rest.
Proof.
  intros Hl [Hs Hd] Hf. destruct (left_content _ _ _ Hl) as (data & Hc & Hle).
  apply (next_raw_value f fuel d data sv.1 sv.2 rest); [done..|lia].
Qed.

Lemma rows_next_row f columns close d sv row rest fuel :
  left f d (sv.1 ++ bytes sv.2 ++ rest) → spaced sv → is_row columns row sv.2 →
  (length (sv.1 ++ bytes sv.2 ++ rest) < fuel)%nat →
  ∃ d', rows_next fuel (reading columns d close) = Some (Ok (Some row), reading columns d' close) ∧ left f d' rest.
Proof.
  intros Hl Hs [(ev & Hp & He & Hr) Hn] Hf. destruct (left_fuel _ _ _ _ _ Hl Hs Hf) as (d' & E & Hl').
  exists d'. split; [|done]. unfold rows_next, reading. cbn. rewrite E, Hp. unfold rows_event. rewrite He, Hr. cbn.
  by rewrite Hn, Nat.eqb_refl.
Qed.

Lemma rows_next_end f columns close d sv fin rest fuel :
  left f d (sv.1 ++ bytes sv.2 ++ rest) → spaced sv → is_end fin sv.2 →
  (length (sv.1 ++ bytes sv.2 ++ rest) < fuel)%nat →
  ∃ d', rows_next fuel (reading columns d close)
        = Some (Ok None, mk_Rows columns (if close then None else Some d') (Some fin) close false) ∧ left f d' rest.
Proof.
  intros Hl Hs (ev & Hp & He & Hr & Hn) Hf. destruct (left_fuel _ _ _ _ _ Hl Hs Hf) as (d' & E & Hl').
  exists d'. split; [|done]. unfold rows_next, reading. cbn. rewrite E, Hp. unfold rows_event. by rewrite He, Hr, Hn.
Qed.

(** The text of rows and the end, and what follows. *)
Fixpoint rows_text (rows : list (Bytes * string)) (fin : Bytes * string) (rest : Bytes) : Bytes :=
  match rows with
  | [] => fin.1 ++ bytes fin.2 ++ rest
  | sv :: rows => sv.1 ++ bytes sv.2 ++ rows_text rows fin rest
  end.

Lemma rows_all_text f columns close d texts rows tfin fin rest fuel :
  left f d (rows_text texts tfin rest) →
  Forall2 (fun sv row => spaced sv ∧ is_row columns row sv.2) texts rows → spaced tfin → is_end fin tfin.2 →
  (length (rows_text texts tfin rest) < fuel)%nat →
  ∃ d', rows_all (S (length texts)) fuel (reading columns d close)
        = Some (Ok rows, mk_Rows columns (if close then None else Some d') (Some fin) close false) ∧ left f d' rest.
Proof.
  intros Hl Hr Hs He Hf. revert d Hl Hf. induction Hr as [|sv row texts rows [Hsv Hrow] _ IH]; intros d Hl Hf.
  - destruct (rows_next_end f columns close d tfin fin rest fuel) as (d' & E & Hl'); [done..|].
    exists d'. split; [|done]. cbn [rows_all length]. by rewrite E.
  - cbn [rows_text] in *.
    destruct (rows_next_row f columns close d sv row (rows_text texts tfin rest) fuel) as (d' & E & Hl'); [done..|].
    destruct (IH d') as (d'' & E' & Hl''); [done|rewrite !length_app in Hf; lia|].
    exists d''. split; [|done]. cbn [rows_all length]. rewrite E. cbn [mbind option_bind].
    change (rows_all (S (length texts)) fuel (reading columns d' close) ≫= (λ '(rs, self), Some (l ← rs; Ok (row :: l), self)) = 
      Some (Ok (row :: rows), mk_Rows columns (if close then None else Some d'') (Some fin) close false)). by rewrite E'.
Qed.

(** Draining leaves the decoder where the rows end. *)
Lemma rows_drain_text f columns d texts rows tfin fin rest fuel :
  left f d (rows_text texts tfin rest) →
  Forall2 (fun sv row => spaced sv ∧ is_row columns row sv.2) texts rows → spaced tfin → is_end fin tfin.2 →
  (length (rows_text texts tfin rest) + length texts < fuel)%nat →
  ∃ d', rows_drain fuel (reading columns d false) = Some (Ok (mk_Rows columns (Some d') (Some fin) false false))
        ∧ left f d' rest.
Proof.
  intros Hl Hr Hs He. revert d fuel Hl. induction Hr as [|sv row texts rows [Hsv Hrow] _ IH]; intros d [|fuel] Hl Hf;
    cbn [rows_text length] in *; try lia.
  - destruct (rows_next_end f columns false d tfin fin rest (S fuel)) as (d' & E & Hl'); [done..|unfold Bytes in *; lia|].
    exists d'. split; [|done]. cbn [rows_drain]. by rewrite E.
  - destruct (rows_next_row f columns false d sv row (rows_text texts tfin rest) (S fuel)) as (d' & E & Hl'); [done..|unfold Bytes in *; lia|].
    destruct (IH d' fuel) as (d'' & E' & Hl''); [done|rewrite !length_app in Hf; lia|].
    exists d''. split; [|done]. cbn [rows_drain]. rewrite E. exact E'.
Qed.

Lemma rows_new_text columns frames tcol rest close fuel :
  frame_data frames = tcol.1 ++ bytes tcol.2 ++ rest → spaced tcol → is_columns columns tcol.2 →
  (length (frame_data frames) < fuel)%nat →
  ∃ d, rows_new fuel (reader_new frames false) close = Some (Ok (reading columns d close))
       ∧ left (head (frame_errors frames)) d rest.
Proof.
  intros E Hs (ev & Hp & Hc) Hf. pose proof (left_new frames) as Hl. rewrite E in Hl, Hf.
  destruct (left_fuel _ _ _ _ _ Hl Hs Hf) as (d & En & Hl'). exists d. split; [|done].
  unfold rows_new. rewrite En, Hp. cbn. by rewrite Hc.
Qed.
End rows.

(** ** Changes *)

Section changes.
Context `{GzipLib, QueryJson, QueryDebug} {W : Type} `{!Http W, !Retries W}.

(** [count] calls of [next] that each return a change. *)
Fixpoint take_changes (count turns fuel : nat) (self : ChangeStream) (w : W) :
    option (list ChangeEvent * ChangeStream * W) :=
  match count with
  | O => Some ([], self, w)
  | S count =>
      match stream_next turns fuel self w with
      | Some (Some (Ok change), self, w) =>
          '(l, self, w) ← take_changes count turns fuel self w; Some (change :: l, self, w)
      | _ => None
      end
  end.

(** A decoder gives [raw], now or later. *)
Inductive yields : NdjsonDecoder → string → Prop :=
| yields_now fuel d raw d' : next_raw fuel d = Some (inr (Some raw), d') → yields d raw
| yields_later fuel d r d' raw : next_raw fuel d = Some (r, d') → yields d' raw → yields d raw.

(** Every change that comes out of a decoder is the one the log has under its ID. *)
Definition truthful (log : Z → option ChangeEvent) (d : NdjsonDecoder) : Prop :=
  ∀ raw ev change, yields d raw → parse_query_event raw = Ok ev → qe_change ev = Some change →
    log (ch_change_id change) = Some change.

Definition stream_truthful (log : Z → option ChangeEvent) (self : ChangeStream) : Prop :=
  ∀ d, cs_decoder self = Some d → truthful log d.

(** The path of a subscription from a change. *)
Definition from_path (id : string) (from : Z) : string :=
  "/v1/subscriptions/" +:+ encode_path_segment id +:+ "?from=" +:+ dec from.

(** A service in the worlds of [I]: its answers on the subscription are truthful. *)
Record service (log : Z → option ChangeEvent) (id : string) (I : W → Prop) : Prop := {
  service_request method uri body w r w' : I w → http_request method uri body w = (r, w') → I w';
  service_later w w' : I w → later w w' → I w';
  service_truthful from uri w response w' : I w → http_endpoint (from_path id from) = Ok uri →
    http_request GET uri [] w = (Ok response, w') → truthful log (decoder_new (hr_body response))
}.

Lemma change_of_Ok last raw change : change_of last raw = Ok change →
  (∃ ev, parse_query_event raw = Ok ev ∧ qe_change ev = Some change) ∧
  (last ≠ 0 → ch_change_id change = (last + 1) mod 2 ^ 64).
Proof.
  unfold change_of, expected_change_id. intros Hc. destruct (parse_query_event raw) as [ev| |]; [|done..]. cbn in Hc.
  destruct (qe_error ev), (qe_change ev) as [c|] eqn:Hq; [done..| |done].
  destruct (Z.eqb_spec last 0); [|destruct (Z.eqb_spec (ch_change_id c) ((last + 1) mod 2 ^ 64))]; naive_solver.
Qed.

Lemma resubscribe_once_world log id I fuel id' from w r w' : service log id I → I w →
  resubscribe_once fuel id' from w = Some (r, w') → I w'.
Proof.
  intros HS HI. unfold resubscribe_once, api_send. destruct (http_endpoint _) as [uri| |]; [|naive_solver..].
  destruct (http_request _ _ _ w) as [[response| |] w1] eqn:E; pose proof (service_request _ _ _ HS _ _ _ _ _ _ HI E); [|naive_solver..].
  destruct (resubscribe_response _ _ _); [|done]. cbn. naive_solver.
Qed.

Lemma resubscribe_once_truthful log id I fuel from w d w' : service log id I → I w → from ≠ 0 →
  resubscribe_once fuel id from w = Some (Ok d, w') → truthful log d.
Proof.
  intros HS HI Hf%Z.eqb_neq. unfold resubscribe_once, api_send. fold (from_path id from).
  destruct (http_endpoint _) as [uri| |] eqn:Hu; [|naive_solver..].
  destruct (http_request _ _ _ w) as [[response| |] w1] eqn:E; [|naive_solver..].
  unfold resubscribe_response. rewrite Hf. destruct (hr_status response =? 404); [naive_solver|].
  destruct (hr_status response =? 200); cbn; [|destruct (status_with_body _ _); naive_solver].
  intros [= <- <-]. by eapply service_truthful.
Qed.

(** What a reconnection gives comes from an attempt in a world of [I]. *)
Lemma attempts_world log id I fuel from w r : service log id I → I w → from ≠ 0 →
  attempts later (fun e => negb (is_subscription_not_found e)) (resubscribe_once fuel id from) w r →
  ∀ o w', r = Some (o, w') → I w' ∧ ∀ d, o = Ok d → truthful log d.
Proof.
  intros HS HI Hf Ha. revert HI. induction Ha as [w r E|w e w1 w2 r E _ Hl _ IH]; intros HI o w' ->.
  - split; [by eapply resubscribe_once_world|]. intros d ->. by eapply resubscribe_once_truthful.
  - apply IH; [|done]. eapply service_later; [done| |done]. by eapply resubscribe_once_world.
Qed.

(** The invariant of a stream: it is truthful, and its world is the service's. *)
Definition stream_ok (log : Z → option ChangeEvent) (I : W → Prop) (self : ChangeStream) (w : W) : Prop :=
  stream_truthful log self ∧ I w.

Lemma turn_connect_ok log id I fuel self w self' w' : service log id I → cs_id self = id → cs_last_change_id self ≠ 0 →
  stream_ok log I self w → turn_connect fuel self w = Some (inr self', w') →
  stream_ok log I self' w' ∧ cs_id self' = id ∧ cs_last_change_id self' = cs_last_change_id self.
Proof.
  intros HS Hid Hl [Ht HI]. unfold turn_connect, stream_resubscribe.
  destruct (cs_needs_resubscribe self); [|by intros [= <- <-]]. destruct (cs_resubscribe self); [|done].
  pose proof (retry_attempts (fun e => negb (is_subscription_not_found e))
                (resubscribe_once fuel (cs_id self) (cs_last_change_id self)) w) as Ha.
  destruct (retry _ _ w) as [[[d| |] w1]|] eqn:E; [|done..]. cbn. intros [= <- <-]. rewrite Hid in Ha.
  destruct (attempts_world log id I fuel _ w _ HS HI Hl Ha _ _ eq_refl) as [HI' Ht'].
  split_and!; [|done..]. split; [|done]. intros d' [= <-]. by apply Ht'.
Qed.

(** A turn that reads delivers the change of the log, or goes on without a decoder. *)
Lemma turn_read_ok log I fuel self w r : stream_ok log I self w → turn_read fuel self = Some r →
  match r with
  | inl (self', Ok change) =>
      stream_ok log I self' w ∧ cs_id self' = cs_id self ∧ cs_last_change_id self' = ch_change_id change ∧
      log (ch_change_id change) = Some change ∧
      (cs_last_change_id self ≠ 0 → ch_change_id change = (cs_last_change_id self + 1) mod 2 ^ 64)
  | inl _ => True
  | inr self' => stream_ok log I self' w ∧ cs_id self' = cs_id self ∧ cs_last_change_id self' = cs_last_change_id self
  end.
Proof.
  intros [Ht HI]. unfold turn_read. destruct (cs_decoder self) as [d|] eqn:Hd; [|by intros [= <-]].
  destruct (next_raw fuel d) as [[raw d']|] eqn:E; [|done]. cbn. intros [= <-].
  destruct (change_read (cs_last_change_id self) raw) as [change| |] eqn:Hc; [|by destruct (cs_resubscribe self)|done].
  destruct raw as [?|[raw|]]; [done| |done]. apply change_of_Ok in Hc as [(ev & Hp & Hq) Hid].
  assert (log (ch_change_id change) = Some change) as Hlog by (eapply (Ht d); [done|by eapply yields_now|done..]).
  split_and!; [|done..]. split; [|done]. intros d'' [= <-] raw' ev' c' Hy. eapply (Ht d); [done|by eapply yields_later].
Qed.

Lemma next_loop_ok log id I turns fuel self w change self' w' : service log id I → cs_id self = id →
  cs_last_change_id self ≠ 0 → stream_ok log I self w →
  next_loop turns fuel self w = Some (Some (Ok change), self', w') →
  stream_ok log I self' w' ∧ cs_id self' = id ∧ cs_last_change_id self' = ch_change_id change ∧
  log (ch_change_id change) = Some change ∧ ch_change_id change = (cs_last_change_id self + 1) mod 2 ^ 64.
Proof.
  intros HS. revert self w. induction turns as [|turns IH]; intros self w Hid Hl Hok; [done|]. cbn [next_loop].
  destruct (turn_connect fuel self w) as [[[[s r]|s] w1]|] eqn:Et; [| |done]; cbn [mbind option_bind].
  - intros [= -> -> ->]. exfalso. revert Et. unfold turn_connect.
    destruct (cs_needs_resubscribe self); [|done]. destruct (stream_resubscribe fuel self w) as [[[]?]|]; naive_solver.
  - destruct (turn_connect_ok log id I fuel self w s w1 HS Hid Hl Hok Et) as (Hok' & Hid' & Hl').
    destruct (turn_read fuel s) as [r|] eqn:Er; [|done]. pose proof (turn_read_ok log I fuel s w1 r Hok' Er) as Hr.
    cbn [mbind option_bind]. destruct r as [[s' r]|s'].
    + intros [= -> -> ->]. destruct Hr as (? & ? & ? & ? & Hn). rewrite Hl' in Hn. rewrite Hid' in *. naive_solver.
    + destruct Hr as (? & ? & ?). intros E. rewrite <-Hl'. assert (cs_last_change_id s' = cs_last_change_id s) as <- by done.
      apply (IH s' w1); [congruence..|done|done].
Qed.

Lemma next_id last : 0 < last → last + 1 < 2 ^ 64 → (last + 1) mod 2 ^ 64 = last + 1.
Proof. intros. apply Z.mod_small. lia. Qed.

Lemma take_changes_ok log id I count turns fuel self w l self' w' : service log id I → cs_id self = id →
  0 < cs_last_change_id self → cs_last_change_id self + Z.of_nat count < 2 ^ 64 → stream_ok log I self w →
  take_changes count turns fuel self w = Some (l, self', w') →
  map ch_change_id l = seqZ (cs_last_change_id self + 1) (Z.of_nat count) ∧
  map Some l = map log (seqZ (cs_last_change_id self + 1) (Z.of_nat count)) ∧
  cs_last_change_id self' = cs_last_change_id self + Z.of_nat count.
Proof.
  intros HS. revert self w l. induction count as [|count IH]; intros self w l Hid Hl Hmax Hok; cbn [take_changes].
  - intros [= <- <- <-]. cbn. split_and!; [done..|lia].
  - unfold stream_next. destruct (cs_finished self); [done|].
    destruct (next_loop turns fuel self w) as [[[[[change| |]|] s] w1]|] eqn:E; [|done..].
    destruct (next_loop_ok log id I _ _ _ _ _ _ _ HS Hid ltac:(lia) Hok E) as (Hok' & Hid' & Hl' & Hlog & Hc).
    rewrite next_id in Hc by lia. rewrite Hc in *.
    destruct (take_changes count turns fuel s w1) as [[[l' s'] w2]|] eqn:E'; [|done]. cbn. intros [= <- <- <-].
    destruct (IH s w1 l') as (Hm1 & Hm2 & Hm3); [done|lia..|done|done|]. rewrite Hl' in *.
    rewrite seqZ_cons by lia. cbn. rewrite Hc, Hlog, Hm1, Hm2.
    replace (Z.pred (Z.of_nat (S count))) with (Z.of_nat count) by lia.
    replace (Z.succ (cs_last_change_id self + 1)) with (cs_last_change_id self + 1 + 1) by lia.
    split_and!; [done..|lia].
Qed.
End changes.

(** ** Changes that are sent *)

Section sent.
Context `{GzipLib, QueryDebug, Delimited} {W : Type} `{!Http W, !Retries W}.

(** A text that is a change. *)
Definition is_change (change : ChangeEvent) (text : string) : Prop :=
  ∃ ev, parse_query_event text = Ok ev ∧ qe_error ev = None ∧ qe_change ev = Some change.

Lemma change_of_next last text change : is_change change text →
  (last ≠ 0 → ch_change_id change = (last + 1) mod 2 ^ 64) → change_of last text = Ok change.
Proof.
  intros (ev & Hp & He & Hc) Hn. unfold change_of, expected_change_id. rewrite Hp. cbn. rewrite He, Hc.
  destruct (Z.eqb_spec last 0); [done|]. by rewrite Hn, Z.eqb_refl.
Qed.

(** A stream that reads from a decoder. *)
Definition connected (self : ChangeStream) (d : NdjsonDecoder) : Prop :=
  cs_finished self = false ∧ cs_needs_resubscribe self = false ∧ cs_decoder self = Some d.

(** What a decoder gives of a stream of values is one of them. *)
Lemma yields_texts f d l tail raw : left f d (stream_text l tail) → Forall spaced l → blank tail →
  yields d raw → raw ∈ map snd l.
Proof.
  intros Hl Hs Ht Hy. revert f l tail Hl Hs Ht.
  induction Hy as [fuel d raw d' E|fuel d r d' raw E _ IH]; intros f l tail Hl Hs Ht;
    destruct (left_content _ _ _ Hl) as (data & Hc & _); destruct l as [|[space v] l].
  - destruct (next_raw_end f (length data + 2) d data tail) as (d1 & E1 & _); [done..|destruct (nd_eof d); lia|].
    pose proof (next_raw_unique _ _ _ _ _ E E1). destruct f; simplify_eq.
  - inversion Hs as [|? ? [Hsp Hv] Hs']; subst.
    destruct (next_raw_value f (S (length data)) d data space v (stream_text l tail)) as (d1 & E1 & _); [done..|lia|].
    pose proof (next_raw_unique _ _ _ _ _ E E1). simplify_eq. by left.
  - destruct (next_raw_end f (length data + 2) d data tail) as (d1 & E1 & Hl1); [done..|destruct (nd_eof d); lia|].
    pose proof (next_raw_unique _ _ _ _ _ E E1). simplify_eq. apply (IH None [] []); [done|by apply Forall_nil_2..].
  - inversion Hs as [|? ? [Hsp Hv] Hs']; subst.
    destruct (next_raw_value f (S (length data)) d data space v (stream_text l tail)) as (d1 & E1 & Hl1); [done..|lia|].
    pose proof (next_raw_unique _ _ _ _ _ E E1). simplify_eq. right. by apply (IH f l tail).
Qed.

Lemma truthful_texts log frames l tail : frame_data frames = stream_text l tail → Forall spaced l → blank tail →
  (∀ text ev change, text ∈ map snd l → parse_query_event text = Ok ev → qe_change ev = Some change →
     log (ch_change_id change) = Some change) →
  truthful log (decoder_new (reader_new frames false)).
Proof.
  intros E Hs Ht Hlog raw ev change Hy. apply Hlog. eapply yields_texts; [|done..]. rewrite <-E. apply left_new.
Qed.

Lemma stream_next_sent f turns fuel self d sv change rest (w : W) : connected self d →
  left f d (sv.1 ++ bytes sv.2 ++ rest) → spaced sv → is_change change sv.2 →
  (cs_last_change_id self ≠ 0 → ch_change_id change = (cs_last_change_id self + 1) mod 2 ^ 64) →
  (length (sv.1 ++ bytes sv.2 ++ rest) < fuel)%nat →
  ∃ d', stream_next (S turns) fuel self w = Some (Some (Ok change), stream_delivered change d' self, w) ∧
        connected (stream_delivered change d' self) d' ∧ left f d' rest.
Proof.
  intros (Hfin & Hn & Hd) Hl Hs Hc Hid Hf. destruct (left_fuel _ _ _ _ _ Hl Hs Hf) as (d' & E & Hl'). exists d'.
  split_and!; [|done..]. unfold stream_next. rewrite Hfin. cbn [next_loop]. unfold turn_connect. rewrite Hn. cbn.
  unfold turn_read. rewrite Hd, E. cbn. by rewrite (change_of_next _ _ _ Hc Hid).
Qed.

(** The texts of changes and what follows. *)
Fixpoint changes_text (texts : list (Bytes * string)) (rest : Bytes) : Bytes :=
  match texts with [] => rest | sv :: texts => sv.1 ++ bytes sv.2 ++ changes_text texts rest end.

Definition sent (texts : list (Bytes * string)) (changes : list ChangeEvent) : Prop :=
  Forall2 (fun sv change => spaced sv ∧ is_change change sv.2) texts changes.

Lemma take_changes_sent f turns fuel self d texts changes rest (w : W) : connected self d →
  left f d (changes_text texts rest) → sent texts changes → 0 < cs_last_change_id self →
  cs_last_change_id self + Z.of_nat (length changes) < 2 ^ 64 →
  map ch_change_id changes = seqZ (cs_last_change_id self + 1) (Z.of_nat (length changes)) →
  (length (changes_text texts rest) < fuel)%nat →
  ∃ self' d', take_changes (length changes) (S turns) fuel self w = Some (changes, self', w) ∧
    connected self' d' ∧ left f d' rest ∧ cs_id self' = cs_id self ∧
    cs_last_change_id self' = cs_last_change_id self + Z.of_nat (length changes).
Proof.
  intros Hcon Hl Hsent. revert self d Hcon Hl.
  induction Hsent as [|sv change texts changes [Hs Hc] _ IH]; intros self d Hcon Hl Hpos Hmax Hids Hf; cbn [length] in *.
  - exists self, d. split_and!; [done..|lia].
  - cbn [changes_text map] in *. rewrite seqZ_cons in Hids by lia. injection Hids as Hid Hids.
    destruct (stream_next_sent f turns fuel self d sv change (changes_text texts rest) w) as (d' & E & Hcon' & Hl'); [done..| |done|].
    { intros _. rewrite next_id; lia. }
    destruct (IH (stream_delivered change d' self) d') as (self' & d'' & E' & Hcon'' & Hl'' & Hid' & Hlast);
      [done|done|cbn; lia|cbn; lia|cbn [stream_delivered cs_last_change_id]; rewrite Hids, Hid; f_equal; lia|rewrite !length_app in Hf; lia|].
    exists self', d''. split_and!; [|done..|cbn in Hlast; lia]. cbn [take_changes]. rewrite E. by rewrite E'.
Qed.
End sent.
