(* ===== verification/CorroTheorems.v ===== *)
(** * The corrosion client: what queries, statements and subscriptions promise

    First concrete parameters, which show that the hypotheses of the theorems can hold: a
    reader of a small notation in place of JSON, a service that gives its answers one
    after another, and one attempt for each call. *)

From S2P Require Import Prelude RustStr Chars ClusterDns Cluster Store StoreTheorems CorroClient CorroQuery CorroClientProps CorroQueryProps.

Local Open Scope Z_scope.

(** ** The notation *)

(** An object is [{key:value}], the elements of an array are separated by spaces, and
    those inside by commas. *)
Definition open_brace : ascii := "{".
Definition close_brace : ascii := "}".

Fixpoint brace_index (l : Bytes) : option nat :=
  match l with
  | [] => None
  | c :: l => if ascii_eqb close_brace c then Some O else S <$> brace_index l
  end.

Definition demo_stream (l : Bytes) : StreamNext :=
  match l with
  | [] => SNone
  | c :: _ =>
      if ascii_eqb open_brace c
      then match brace_index l with
           | Some i => SValue (of_bytes (take (S i) l)) (S i)
           | None => SError true "EOF while parsing an object"
           end
      else SError false "expected value"
  end.

Definition demo_sum {A} (r : result ParseIntError A) : string + A :=
  match r with Ok a => inr a | _ => inl "invalid number" end.

Definition demo_any (text : string) : string + option (list (string * string)) :=
  match strip_prefix "{" text with
  | Some inner =>
      match rsplit_once close_brace inner with
      | Some (member, _) => match split_once ":" member with Some kv => inr (Some [kv]) | None => inl "expected a colon" end
      | None => inl "expected an end"
      end
  | None => match split_once "=" text with Some kv => inr (Some [kv]) | None => inl "expected an object" end
  end.

#[export] Instance demo_query_json : QueryJson := {|
  q_to_vec _ := inr [];
  q_custom_text e := e;
  q_any := demo_any;
  q_raw _ := inr tt;
  q_array text := inr (str_split " " text);
  q_opt_array text := inr (Some (str_split "," text));
  q_u64 text := demo_sum (parse_u 64 text);
  q_opt_u64 text := demo_sum (Some <$> parse_u 64 text);
  q_f64 _ := inr 0;
  q_string text := inr text;
  q_opt_string text := inr (Some text);
  q_opt_strings text := inr (Some (str_split "," text));
  q_stream := demo_stream
|}.

Lemma brace_index_app x rest : close_brace ∉ x → brace_index (x ++ close_brace :: rest) = Some (length x).
Proof.
  induction x as [|c x IH]; intros Hn; [done|]. cbn [app brace_index].
  destruct (ascii_eqb close_brace c) eqn:E; [apply Ascii.eqb_eq in E; set_solver|]. rewrite IH; [done|set_solver].
Qed.
Lemma brace_index_none l : close_brace ∉ l → brace_index l = None.
Proof.
  induction l as [|c l IH]; intros Hn; [done|]. cbn [brace_index].
  destruct (ascii_eqb close_brace c) eqn:E; [apply Ascii.eqb_eq in E; set_solver|]. rewrite IH; [done|set_solver].
Qed.

Definition flat_object (v : string) : Prop :=
  ∃ x, bytes v = open_brace :: x ++ [close_brace] ∧ close_brace ∉ x.

#[export] Instance demo_delimited : Delimited.
Proof.
  refine {| delimited := flat_object |}.
  - intros v (x & -> & _). by eexists _, _.
  - intros v rest (x & E & Hx). pose proof (String.string_of_list_ascii_of_string v) as Hv. fold (bytes v) in Hv.
    rewrite E in Hv |- *. cbn [app]. rewrite <-app_assoc. cbn [app q_stream demo_query_json demo_stream].
    change (ascii_eqb open_brace open_brace) with true. cbn [brace_index].
    change (ascii_eqb close_brace open_brace) with false. rewrite brace_index_app by done.
    cbn [fmap option_fmap option_map take length]. rewrite length_app, Nat.add_1_r, <-Hv. f_equal. unfold of_bytes.
    do 3 f_equal. change (x ++ close_brace :: rest) with (x ++ [close_brace] ++ rest). rewrite app_assoc.
    apply take_app_length'. rewrite length_app. cbn. lia.
  - intros v p rest (x & E & Hx) Ev Hp Hr. destruct p as [|c p]; [done|]. rewrite E in Ev. injection Ev as <- Ev.
    cbn [q_stream demo_query_json demo_stream]. change (ascii_eqb open_brace open_brace) with true. cbn [brace_index].
    change (ascii_eqb close_brace open_brace) with false. rewrite brace_index_none; [by eexists|].
    intros Hin. destruct (exists_last Hr) as (rest' & y & ->). rewrite app_assoc in Ev.
    apply app_inj_tail in Ev as [-> <-]. apply Hx. set_solver.
Defined.

(** ** The world *)

#[export] Instance demo_gzip : GzipLib := {|
  Gzip := list Frame; gz_new frames := frames; gz_read _ frames := (inr [], [], frames)
|}.
#[export] Instance demo_debug : QueryDebug := {| response_debug _ := "response"; event_debug _ := "event" |}.

(** Answers to come, and the answer after them. *)
Definition World : Type := list HttpResponse * HttpResponse.
#[export] Instance demo_http : Http World := {|
  Address := string;
  http_endpoint path := Ok path;
  http_request _ _ _ w := match w with
                          | (response :: l, after) => (Ok response, (l, after))
                          | ([], after) => (Ok after, ([], after))
                          end
|}.
#[export] Instance demo_retries : Retries World.
Proof.
  refine {| later := eq; retry A p call := call |}.
  - intros. by apply attempt_last.
  - done.
Defined.

Definition nl_text : string := String (Ascii.ascii_of_nat 10) "".
Definition lines (l : list string) : string := String.concat "" (map (fun s => s +:+ nl_text) l).

(** An answer whose body comes in two frames. *)
Definition two_frames (l : list string) : list Frame := [inr (take 9 (bytes (lines l))); inr (drop 9 (bytes (lines l)))].
Definition demo_answer (l : list string) : HttpResponse := mk_HttpResponse 200 [] (reader_new (two_frames l) false).
Definition gone : HttpResponse := mk_HttpResponse 404 [] (reader_new [] false).

Definition COLUMNS : string := "{columns:id,name}".
Definition ROW1 : string := "{row:1 a,b}".
Definition ROW2 : string := "{row:2 c,d}".
Definition EOQ : string := "{eoq:change_id=5}".
Definition CHANGE6 : string := "{change:insert 1 a,b 6}".
Definition CHANGE7 : string := "{change:delete 1 a,b 7}".

Definition change6 : ChangeEvent := mk_ChangeEvent CTInsert 1 (Some ["a"; "b"]) 6.
Definition change7 : ChangeEvent := mk_ChangeEvent CTDelete 1 (Some ["a"; "b"]) 7.

Lemma demo_flat v x : bytes v = open_brace :: x ++ [close_brace] → forallb (fun c => negb (ascii_eqb close_brace c)) x = true →
  flat_object v.
Proof.
  intros E Hx. exists x. split; [done|]. intros Hin. rewrite forallb_forall in Hx.
  specialize (Hx close_brace). rewrite <-list_elem_of_In in Hx. by apply Hx in Hin.
Qed.
Ltac flat x := apply (demo_flat _ (bytes x)); reflexivity.
Lemma demo_spaced space v : forallb is_ascii_whitespace space = true → flat_object v → spaced (space, v).
Proof. intros Hs Hv. split; [|done]. apply Forall_forall. intros c Hc%list_elem_of_In. by eapply forallb_forall in Hs. Qed.

(** The texts as they stand in a body. *)
Lemma spaced_columns : spaced ([], COLUMNS).
Proof. apply demo_spaced; [reflexivity|flat "columns:id,name"]. Qed.
Lemma spaced_row1 : spaced (bytes nl_text, ROW1).
Proof. apply demo_spaced; [reflexivity|flat "row:1 a,b"]. Qed.
Lemma spaced_row2 : spaced (bytes nl_text, ROW2).
Proof. apply demo_spaced; [reflexivity|flat "row:2 c,d"]. Qed.
Lemma spaced_end : spaced (bytes nl_text, EOQ).
Proof. apply demo_spaced; [reflexivity|flat "eoq:change_id=5"]. Qed.
Lemma spaced_change6 : spaced (bytes nl_text, CHANGE6).
Proof. apply demo_spaced; [reflexivity|flat "change:insert 1 a,b 6"]. Qed.
Lemma first_change6 : spaced ([], CHANGE6).
Proof. apply demo_spaced; [reflexivity|flat "change:insert 1 a,b 6"]. Qed.
Lemma spaced_change7 : spaced (bytes nl_text, CHANGE7).
Proof. apply demo_spaced; [reflexivity|flat "change:delete 1 a,b 7"]. Qed.
Lemma first_change7 : spaced ([], CHANGE7).
Proof. apply demo_spaced; [reflexivity|flat "change:delete 1 a,b 7"]. Qed.
Lemma blank_newline : blank (bytes nl_text).
Proof. unfold blank. by repeat constructor. Qed.

Lemma is_change6 : is_change change6 CHANGE6.
Proof. by eexists. Qed.
Lemma is_change7 : is_change change7 CHANGE7.
Proof. by eexists. Qed.
Lemma demo_rows :
  Forall2 (fun sv row => spaced sv ∧ is_row ["id"; "name"] row sv.2)
    [(bytes nl_text, ROW1); (bytes nl_text, ROW2)] [mk_Row 1 (Some ["a"; "b"]); mk_Row 2 (Some ["c"; "d"])].
Proof.
  constructor; [split; [apply spaced_row1|split; [by eexists|done]]|].
  constructor; [split; [apply spaced_row2|split; [by eexists|done]]|]. constructor.
Qed.
Definition demo_end : EndOfQuery := mk_EndOfQuery 0 (Some 5).
Lemma is_demo_end : is_end demo_end EOQ.
Proof. by eexists. Qed.

(** A stream after change 5 of a connection that ended, and one that has to subscribe. *)
Definition ended_stream : ChangeStream :=
  mk_ChangeStream "sub" (Some (decoder_new (reader_new [] false))) 5 true false false.
Definition lost_stream (last : Z) : ChangeStream := mk_ChangeStream "sub" None last true true false.

(** The log of changes 6 and 7, and answers that tell the truth about it. *)
Definition demo_log (id : Z) : option ChangeEvent :=
  if id =? 6 then Some change6 else if id =? 7 then Some change7 else None.
Definition demo_truthful (w : World) : Prop :=
  Forall (fun r => truthful demo_log (decoder_new (hr_body r))) (w.2 :: w.1).

Lemma empty_truthful : truthful demo_log (decoder_new (reader_new [] false)).
Proof. apply (truthful_texts demo_log [] [] []); [reflexivity|by constructor|by constructor|]. set_solver. Qed.

Lemma change_truthful text change : spaced ([], text) → is_change change text → demo_log (ch_change_id change) = Some change →
  truthful demo_log (decoder_new (hr_body (demo_answer [text]))).
Proof.
  intros Hs (ev & Hp & _ & Hc) Hlog. apply (truthful_texts demo_log (two_frames [text]) [([], text)] (bytes nl_text)).
  - unfold two_frames, lines. cbn [frame_data map String.concat stream_text fst snd]. rewrite app_nil_r, take_drop.
    apply bytes_app.
  - by constructor; [|constructor].
  - apply blank_newline.
  - intros text' ev' c' ->%list_elem_of_singleton Hp' Hc'. cbn in Hp'. rewrite Hp in Hp'. by simplify_eq.
Qed.

Lemma demo_service_truthful id : service demo_log id demo_truthful.
Proof.
  split.
  - intros method uri body [[|r l] after] o w' HI [= <- <-]; [done|]. unfold demo_truthful in *. cbn in *.
    rewrite !Forall_cons in *. tauto.
  - by intros w w' HI <-.
  - intros from uri [[|r l] after] response w' HI _ [= <- <-]; unfold demo_truthful in HI; cbn in HI;
      rewrite !Forall_cons in HI; tauto.
Qed.

Definition demo_world : World := ([demo_answer [CHANGE6]; demo_answer [CHANGE7]], gone).
Lemma demo_world_truthful : demo_truthful demo_world.
Proof.
  constructor; [apply empty_truthful|]. constructor; [|constructor; [|constructor]].
  - by apply (change_truthful _ change6); [apply first_change6|apply is_change6|].
  - by apply (change_truthful _ change7); [apply first_change7|apply is_change7|].
Qed.
Definition after_change7 : ChangeStream :=
  mk_ChangeStream "sub" (Some (mk_NdjsonDecoder (mk_ResponseReader (RPlain [] []) None) (bytes nl_text) false)) 7 true false false.

(** ** Reconnecting *)

Section reconnect.
Context `{GzipLib, QueryDebug, Delimited} {W : Type} `{!Http W, !Retries W}.

(** A stream that has to subscribe again. *)
Definition lost (self : ChangeStream) : Prop :=
  cs_finished self = false ∧ cs_needs_resubscribe self = true ∧ cs_resubscribe self = true.

(** The service answers the subscription of a stream. *)
Definition service_answers (self : ChangeStream) (response : HttpResponse) (w w' : W) : Prop :=
  ∃ uri, http_endpoint (from_path (cs_id self) (cs_last_change_id self)) = Ok uri ∧
         http_request GET uri [] w = (Ok response, w').

Lemma resubscribe_answered fuel self response w w' r : service_answers self response w w' →
  resubscribe_response fuel (cs_last_change_id self) response = Some r →
  resubscribe_once fuel (cs_id self) (cs_last_change_id self) w = Some (r, w').
Proof.
  intros (uri & Hu & Hr) E. unfold resubscribe_once, api_send. fold (from_path (cs_id self) (cs_last_change_id self)).
  by rewrite Hu, Hr, E.
Qed.

Lemma turn_connect_answered fuel self response w w' d : lost self → service_answers self response w w' →
  resubscribe_response fuel (cs_last_change_id self) response = Some (Ok d) →
  turn_connect fuel self w = Some (inr (stream_connected d self), w').
Proof.
  intros (Hf & Hn & Hr) Ha E. unfold turn_connect, stream_resubscribe. rewrite Hn, Hr.
  by rewrite (retry_first _ _ _ _ _ (resubscribe_answered _ _ _ _ _ _ Ha E)).
Qed.

Lemma stream_next_connect turns fuel self self' w w' : lost self →
  turn_connect fuel self w = Some (inr self', w') → cs_finished self' = false → cs_needs_resubscribe self' = false →
  stream_next (S turns) fuel self w = stream_next (S turns) fuel self' w'.
Proof.
  intros (Hf & Hn & Hr) E Hf' Hn'. unfold stream_next. rewrite Hf, Hf'. cbn [next_loop]. rewrite E.
  unfold turn_connect at 1. by rewrite Hn'.
Qed.

Lemma resubscribe_plain fuel from response frames : hr_status response = 200 → hr_body response = reader_new frames false →
  from ≠ 0 → resubscribe_response fuel from response = Some (Ok (decoder_new (reader_new frames false))).
Proof. intros Hs Hb Hf%Z.eqb_neq. unfold resubscribe_response. by rewrite Hs, Hf, Hb. Qed.

(** A connection that is lost while reading. *)
Lemma stream_next_lost turns fuel self d r d' e (w : W) : connected self d → cs_resubscribe self = true →
  next_raw fuel d = Some (r, d') → change_read (cs_last_change_id self) r = Err e →
  lost (stream_lost self) ∧ stream_next (S turns) fuel self w = next_loop turns fuel (stream_lost self) w.
Proof.
  intros (Hf & Hn & Hd) Hr E Hc. split; [done|]. unfold stream_next. rewrite Hf. cbn [next_loop].
  unfold turn_connect at 1. rewrite Hn. cbn. unfold turn_read. rewrite Hd, E. cbn. by rewrite Hc, Hr.
Qed.

(** More turns do not change a result. *)
Lemma stream_next_more turns more fuel self (w : W) r : stream_next turns fuel self w = Some r → (turns <= more)%nat →
  stream_next more fuel self w = Some r.
Proof.
  unfold stream_next. destruct (cs_finished self); [done|]. revert more self w.
  induction turns as [|turns IH]; intros [|more] self w; [done..|lia|]. cbn [next_loop]. intros E Hle.
  destruct (turn_connect fuel self w) as [[[[] | s] w']|]; [done| |done]. cbn in *.
  destruct (turn_read fuel s) as [[[]|s']|]; [done| |done]. apply (IH more); [done|lia].
Qed.

(** The connection is lost and taken up again in one call. *)
Lemma stream_next_resumed fuel self d r d' e response frames (w w' : W) z : connected self d → cs_resubscribe self = true →
  next_raw fuel d = Some (r, d') → change_read (cs_last_change_id self) r = Err e →
  service_answers self response w w' → hr_status response = 200 → hr_body response = reader_new frames false →
  cs_last_change_id self ≠ 0 →
  let self1 := stream_connected (decoder_new (reader_new frames false)) (stream_lost self) in
  stream_next 1 fuel self1 w' = Some z → stream_next 2 fuel self w = stream_next 2 fuel self1 w'.
Proof.
  intros Hcon Hr E Hc Ha Hs Hb Hl self1 Hz. assert (cs_finished self = false) as Hfin by apply Hcon.
  destruct (stream_next_lost 1 fuel self d r d' e w Hcon Hr E Hc) as [Hlost ->].
  assert (turn_connect fuel (stream_lost self) w = Some (inr self1, w')) as Et
    by (apply (turn_connect_answered fuel (stream_lost self) response w w'); [done..|by apply resubscribe_plain]).
  rewrite (stream_next_more 1 2 _ _ _ _ Hz) by lia. rewrite <-Hz, <-(stream_next_connect 0 fuel (stream_lost self) self1 w w' Hlost Et) by done.
  unfold stream_next. by rewrite (proj1 Hlost).
Qed.

(** A stream that reads a change with another ID than the next one. *)
Lemma turn_read_gap f fuel self d sv change rest : cs_decoder self = Some d → cs_resubscribe self = true →
  cs_last_change_id self ≠ 0 → left f d (sv.1 ++ bytes sv.2 ++ rest) → spaced sv → is_change change sv.2 →
  ch_change_id change ≠ (cs_last_change_id self + 1) mod 2 ^ 64 →
  turn_read fuel self = None ∨ turn_read fuel self = Some (inr (stream_lost self)).
Proof.
  intros Hd Hr Hl Hleft Hs (ev & Hp & He & Hc) Hid. unfold turn_read. rewrite Hd.
  destruct (next_raw fuel d) as [[r d']|] eqn:E; [right|by left]. cbn.
  destruct (left_fuel f d sv rest (S (length (sv.1 ++ bytes sv.2 ++ rest)))) as (d'' & E' & _); [done..|lia|].
  pose proof (next_raw_unique _ _ _ _ _ E E'). simplify_eq. cbn. unfold change_of, expected_change_id. rewrite Hp. cbn.
  rewrite He, Hc, (proj2 (Z.eqb_neq _ _)) by done. rewrite (proj2 (Z.eqb_neq _ _)) by done. by rewrite Hr.
Qed.
End reconnect.

(** ** Claims *)

(** C16: the values of a stream are decoded the same however the body is cut into frames:
    the calls of [next_raw] give each value in order, then the end, or the error of the
    transport if there was one; no value before the end is lost. *)
Theorem stream_decoded `{GzipLib, Delimited} (frames : list Frame) (l : list (Bytes * string)) (tail : Bytes) (fuel : nat) :
  frame_data frames = stream_text l tail →
  Forall (fun sv => blank sv.1 ∧ delimited sv.2) l → blank tail → (S (length (frame_data frames)) < fuel)%nat →
  next_raws (S (length l)) fuel (decoder_new (reader_new frames false)) =
    Some (map (fun sv => inr (Some sv.2)) l ++ [end_result (head (frame_errors frames))]).
Proof. intros E Hl Ht Hf. apply (next_raws_text _ l tail); [rewrite <-E; apply left_new|done..|by rewrite <-E]. Qed.

Lemma stream_decoded_witness :
  next_raws 3 200 (decoder_new (hr_body (demo_answer [COLUMNS; CHANGE6]))) = Some [inr (Some COLUMNS); inr (Some CHANGE6); inr None].
Proof.
  apply (stream_decoded (two_frames [COLUMNS; CHANGE6]) [([], COLUMNS); (bytes nl_text, CHANGE6)] (bytes nl_text) 200).
  - reflexivity.
  - constructor; [apply spaced_columns|constructor; [apply spaced_change6|constructor]].
  - apply blank_newline.
  - vm_compute. lia.
Defined.

(** a body that is not compressed is read whole, however it is cut into frames: with
    a turn for each byte [read_to_end] gives the data of the frames in order, or, when a
    frame failed, the first such error. *)
Theorem read_to_end_exact `{GzipLib} (frames : list Frame) (fuel : nat) :
  (length (frame_data frames) < fuel)%nat →
  read_to_end fuel (reader_new frames false) [] =
    Some (match frame_errors frames with
          | e :: _ => inl (ce_foreign KHttp "read response body" e)
          | [] => inr (frame_data frames)
          end).
Proof.
  intros Hf. rewrite (read_to_end_content fuel _ (frame_data frames)) by done. cbn. by destruct (frame_errors frames).
Qed.

Lemma read_to_end_exact_witness :
  read_to_end 10 (reader_new [inr (bytes "ab"); inl "reset"; inr (bytes "c")] false) []
  = Some (inl (ce_foreign KHttp "read response body" "reset")).
Proof. apply (read_to_end_exact [inr (bytes "ab"); inl "reset"; inr (bytes "c")] 10). vm_compute. lia. Defined.

(** a query reads all rows of its answer, in order, however the body is cut into
    frames: columns, rows with a value for each column, and an end.  The loop over the
    rows ends with them, the time is that of the end, and the rows stay ended. *)
Theorem query_reads_rows `{GzipLib, QueryDebug, Delimited} (response : HttpResponse) (frames : list Frame)
    (columns : list string) (rows : list Row) (fin : EndOfQuery) (tcol tfin : Bytes * string)
    (texts : list (Bytes * string)) (rest : Bytes) (fuel : nat) :
  hr_status response = 200 → hr_body response = reader_new frames false →
  frame_data frames = tcol.1 ++ bytes tcol.2 ++ rows_text texts tfin rest →
  spaced tcol → is_columns columns tcol.2 →
  Forall2 (fun sv row => spaced sv ∧ is_row columns row sv.2) texts rows → spaced tfin → is_end fin tfin.2 →
  (length (frame_data frames) < fuel)%nat →
  ∃ r r', rows_from_response fuel response true = Some (Ok r) ∧ rs_columns r = columns ∧
    rows_all (S (length texts)) fuel r = Some (Ok rows, r') ∧
    rows_time r' = Ok (eoq_time fin) ∧ rows_next fuel r' = Some (Ok None, r').
Proof.
  intros Hst Hb Hd Hsc Hc Hr Hsf Hfin Hf. unfold rows_from_response. rewrite Hst, Hb. cbn [Z.eqb negb].
  destruct (rows_new_text columns frames tcol _ true fuel Hd Hsc Hc Hf) as (d & -> & Hl).
  assert (length (rows_text texts tfin rest) < fuel)%nat by (rewrite Hd, !length_app in Hf; lia).
  destruct (rows_all_text _ columns true d texts rows tfin fin rest fuel Hl Hr Hsf Hfin) as (d' & E & _); [done|].
  eexists _, _. by split_and!.
Qed.

Lemma query_reads_rows_witness :
  ∃ r r', rows_from_response 200 (demo_answer [COLUMNS; ROW1; ROW2; EOQ]) true = Some (Ok r) ∧ rs_columns r = ["id"; "name"] ∧
    rows_all 3 200 r = Some (Ok [mk_Row 1 (Some ["a"; "b"]); mk_Row 2 (Some ["c"; "d"])], r') ∧
    rows_time r' = Ok 0 ∧ rows_next 200 r' = Some (Ok None, r').
Proof.
  apply (query_reads_rows (demo_answer [COLUMNS; ROW1; ROW2; EOQ]) (two_frames [COLUMNS; ROW1; ROW2; EOQ]) ["id"; "name"]
           [mk_Row 1 (Some ["a"; "b"]); mk_Row 2 (Some ["c"; "d"])] demo_end ([], COLUMNS) (bytes nl_text, EOQ)
           [(bytes nl_text, ROW1); (bytes nl_text, ROW2)] (bytes nl_text) 200).
  - reflexivity.
  - reflexivity.
  - reflexivity.
  - apply spaced_columns.
  - by eexists.
  - apply demo_rows.
  - apply spaced_end.
  - apply is_demo_end.
  - vm_compute. lia.
Defined.

(** [exec_multi] succeeds exactly when the service answers 200 with a response
    without an error; else the error carries the response only for 200, and an answer
    of 500 gives the error of its first result. *)
Theorem exec_multi_exact `{GzipLib, QueryJson, QueryDebug, Base64} {W : Type} `{!Http W}
    (fuel : nat) (statements : option (list Statement)) (l : Bytes) (uri : Address) (response : HttpResponse)
    (frames : list Frame) (w w' : W) :
  statements_bytes statements = Ok l → http_endpoint "/v1/transactions" = Ok uri →
  http_request POST uri l w = (Ok response, w') → hr_body response = reader_new frames false →
  frame_errors frames = [] → (length (frame_data frames) < fuel)%nat →
  ∃ r, exec_multi fuel statements w = Some (r, w') ∧
    (∀ x, r = Ok x ↔ hr_status response = 200 ∧ parse_exec_response (frame_data frames) = Ok x ∧
                     Forall (fun e => er_error e = None) (ex_results x)) ∧
    (∀ e x, r = Err e → xe_response e = Some x → hr_status response = 200 ∧ parse_exec_response (frame_data frames) = Ok x) ∧
    (∀ x result results message, hr_status response = 500 → parse_exec_response (frame_data frames) = Ok x →
       ex_results x = result :: results → er_error result = Some message →
       r = Err (mk_ExecError None (ce_new KProtocol message))).
Proof.
  intros Hl Hu Hr Hb He Hf. unfold exec_multi, api_send. rewrite Hl, Hu, Hr, Hb, (read_to_end_content fuel _ (frame_data frames)) by done.
  replace (failure (reader_new frames false)) with (@None string) by (cbn; by rewrite He). cbn [app].
  eexists. split; [done|]. unfold exec_outcome.
  assert (∀ x, omap er_error (ex_results x) = [] ↔ Forall (fun e => er_error e = None) (ex_results x)) as Hom.
  { intros x. induction (ex_results x) as [|e es IH]; [by split; [constructor|]|]. rewrite Forall_cons, <-IH. cbn.
    destruct (er_error e); naive_solver. }
  destruct (Z.eqb_spec (hr_status response) 200) as [->|Hn].
  - split_and!; [intros x|intros e x|by intros].
    + destruct (parse_exec_response _) as [y| |]; [|naive_solver..]. cbn. specialize (Hom y).
      destruct (omap er_error (ex_results y)); naive_solver.
    + destruct (parse_exec_response _) as [y| |]; [|cbn; naive_solver..]. cbn.
      destruct (omap er_error (ex_results y)); naive_solver.
  - destruct (Z.eqb_spec (hr_status response) 500) as [->|]; split_and!.
    + intros x. destruct (parse_exec_response _) as [y| |]; [destruct (_ ≫= _)|..]; naive_solver.
    + intros e x. destruct (parse_exec_response _) as [y| |]; [destruct (_ ≫= _)|..]; naive_solver.
    + intros x result results message _ -> -> Hm. cbn. by rewrite Hm.
    + naive_solver.
    + naive_solver.
    + naive_solver.
Qed.

#[local] Existing Instance reference_base64.
Lemma exec_multi_exact_witness :
  ∃ r, exec_multi 200 None (([demo_answer ["{results:rows_affected=1}"]], gone) : World) = Some (r, ([], gone)) ∧
    r = Ok (mk_ExecResponse [mk_ExecResult 1 0 None] 0 None).
Proof.
  destruct (@exec_multi_exact demo_gzip demo_query_json demo_debug reference_base64 World demo_http 200 None [] "/v1/transactions" (demo_answer ["{results:rows_affected=1}"])
              (two_frames ["{results:rows_affected=1}"]) (([demo_answer ["{results:rows_affected=1}"]], gone) : World) ([], gone)
              eq_refl eq_refl eq_refl eq_refl eq_refl ltac:(vm_compute; lia)) as (r & E & Hr & _).
  exists r. split; [exact E|]. apply Hr. split; [reflexivity|]. split; [reflexivity|]. repeat constructor.
Defined.

(** C14: a change stream is the log of the service: when every change the service sends
    on the subscription has the ID it has in the log, the changes that [count] calls of
    [next] return after change [last] are the log's changes [last+1], [last+2] and so
    on, none lost, none twice, whatever else the service sends and however often the
    connection is lost and the subscription taken up again. *)
Theorem changes_follow_log `{GzipLib, QueryJson, QueryDebug} {W : Type} `{!Http W, !Retries W}
    (log : Z → option ChangeEvent) (I : W → Prop) (count turns fuel : nat) (self self' : ChangeStream)
    (w w' : W) (l : list ChangeEvent) :
  service log (cs_id self) I → I w → stream_truthful log self →
  0 < cs_last_change_id self → cs_last_change_id self + Z.of_nat count < 2 ^ 64 →
  take_changes count turns fuel self w = Some (l, self', w') →
  map ch_change_id l = seqZ (cs_last_change_id self + 1) (Z.of_nat count) ∧
  map Some l = map log (seqZ (cs_last_change_id self + 1) (Z.of_nat count)) ∧
  cs_last_change_id self' = cs_last_change_id self + Z.of_nat count.
Proof. intros HS HI Ht Hl Hm. by apply (take_changes_ok log (cs_id self) I). Qed.

Lemma changes_follow_log_witness :
  take_changes 2 5 100 ended_stream demo_world = Some ([change6; change7], after_change7, ([], gone)) ∧
  map ch_change_id [change6; change7] = [6; 7] ∧ map Some [change6; change7] = map demo_log [6; 7] ∧
  cs_last_change_id after_change7 = 7.
Proof.
  split; [vm_compute; reflexivity|].
  apply (changes_follow_log demo_log demo_truthful 2 5 100 ended_stream after_change7 demo_world ([], gone) [change6; change7]).
  - apply demo_service_truthful.
  - apply demo_world_truthful.
  - intros d [= <-]. apply empty_truthful.
  - vm_compute. reflexivity.
  - vm_compute. reflexivity.
  - vm_compute. reflexivity.
Defined.

(** C15: a lost connection loses no change: when the stream cannot read on, and the
    service answers the subscription from the last change with the changes after it,
    the calls of [next] return exactly these, in order, however the body is cut into
    frames, and the stream is ready for the changes that follow. *)
Theorem changes_resume `{GzipLib, QueryDebug, Delimited} {W : Type} `{!Http W, !Retries W}
    (self : ChangeStream) (d d' : NdjsonDecoder) (r : ClientError + option string) (e : ClientError)
    (response : HttpResponse) (frames : list Frame) (texts : list (Bytes * string)) (changes : list ChangeEvent)
    (rest : Bytes) (fuel : nat) (w w' : W) :
  connected self d → cs_resubscribe self = true →
  next_raw fuel d = Some (r, d') → change_read (cs_last_change_id self) r = Err e →
  service_answers self response w w' → hr_status response = 200 → hr_body response = reader_new frames false →
  frame_data frames = changes_text texts rest → sent texts changes → changes ≠ [] → 0 < cs_last_change_id self →
  cs_last_change_id self + Z.of_nat (length changes) < 2 ^ 64 →
  map ch_change_id changes = seqZ (cs_last_change_id self + 1) (Z.of_nat (length changes)) →
  (length (frame_data frames) < fuel)%nat →
  ∃ self' d'', take_changes (length changes) 2 fuel self w = Some (changes, self', w') ∧
    connected self' d'' ∧ left (head (frame_errors frames)) d'' rest ∧
    cs_last_change_id self' = cs_last_change_id self + Z.of_nat (length changes).
Proof.
  intros Hcon Hr E Hc Ha Hs Hb Hd Hsent Hne Hpos Hmax Hids Hf.
  assert (cs_finished self = false) as Hfin by apply Hcon.
  set (self1 := stream_connected (decoder_new (reader_new frames false)) (stream_lost self)).
  assert (connected self1 (decoder_new (reader_new frames false))) as Hcon1 by done.
  pose proof (left_new frames) as Hl. rewrite Hd in Hl, Hf.
  destruct (take_changes_sent _ 1 fuel self1 _ texts changes rest w' Hcon1 Hl Hsent) as (self' & d'' & Et & Hc' & Hl' & _ & Hlast);
    [done..|]. exists self', d''. split_and!; [|done..].
  destruct Hsent as [|sv change texts changes [Hsv Hch] _]; [done|].
  cbn [changes_text map length take_changes] in *. rewrite seqZ_cons in Hids by lia. injection Hids as Hid _.
  destruct (stream_next_sent _ 0 fuel self1 _ sv change _ w' Hcon1 Hl Hsv Hch) as (x & Ex & _);
    [intros _; cbn; rewrite next_id; lia|done|].
  by rewrite (stream_next_resumed fuel self d r d' e response frames w w' _ Hcon Hr E Hc Ha Hs Hb ltac:(lia) Ex).
Qed.

Lemma changes_resume_witness :
  ∃ self' d'', take_changes 2 2 200 ended_stream (([demo_answer [CHANGE6; CHANGE7]], gone) : World)
               = Some ([change6; change7], self', ([], gone)) ∧
    connected self' d'' ∧ left None d'' (bytes nl_text) ∧ cs_last_change_id self' = 7.
Proof.
  apply (changes_resume ended_stream (decoder_new (reader_new [] false)) (mk_NdjsonDecoder (mk_ResponseReader (RPlain [] []) None) [] true)
           (inr None) eof_error (demo_answer [CHANGE6; CHANGE7]) (two_frames [CHANGE6; CHANGE7])
           [([], CHANGE6); (bytes nl_text, CHANGE7)] [change6; change7] (bytes nl_text) 200
           (([demo_answer [CHANGE6; CHANGE7]], gone) : World) ([], gone)).
  - done.
  - done.
  - reflexivity.
  - reflexivity.
  - by eexists.
  - reflexivity.
  - reflexivity.
  - reflexivity.
  - constructor; [split; [apply first_change6|apply is_change6]|].
    constructor; [split; [apply spaced_change7|apply is_change7]|constructor].
  - done.
  - vm_compute. reflexivity.
  - vm_compute. reflexivity.
  - reflexivity.
  - vm_compute. lia.
Defined.

(** a subscription that is gone ends the stream: on an answer of 404 [next] returns
    an error that tells so, without another attempt, and then nothing. *)
Theorem gone_ends_stream `{GzipLib, QueryJson, QueryDebug} {W : Type} `{!Http W, !Retries W}
    (self : ChangeStream) (response : HttpResponse) (turns fuel : nat) (w w' : W) :
  lost self → service_answers self response w w' → hr_status response = 404 →
  ∃ e self', stream_next (S turns) fuel self w = Some (Some (Err e), self', w') ∧
    is_subscription_not_found e = true ∧ ∀ turns' w'', stream_next turns' fuel self' w'' = Some (None, self', w'').
Proof.
  intros Hlost Ha Hs. pose proof Hlost as (Hf & Hn & Hr). unfold stream_next. rewrite Hf. cbn [next_loop].
  unfold turn_connect, stream_resubscribe. rewrite Hn, Hr.
  assert (resubscribe_response fuel (cs_last_change_id self) response
          = Some (Err (ce_new KSubscriptionNotFound "subscription not found"))) as E
    by (unfold resubscribe_response; by rewrite Hs).
  rewrite (retry_first _ _ _ _ _ (resubscribe_answered _ _ _ _ _ _ Ha E)) by (by intros ? [= <-]).
  eexists _, _. split_and!; [done..|]. done.
Qed.

Lemma gone_ends_stream_witness :
  ∃ e self', stream_next 1 10 (lost_stream 5) (([], gone) : World) = Some (Some (Err e), self', ([], gone)) ∧
    is_subscription_not_found e = true ∧ ∀ turns' (w'' : World), stream_next turns' 10 self' w'' = Some (None, self', w'').
Proof. apply (gone_ends_stream (lost_stream 5) gone 0 10 (([], gone) : World) ([], gone)); [done|by eexists|reflexivity]. Defined.

(** a change that is missing makes [next] run for ever: when the service answers each
    subscription from the last change with a change of another ID, as it does when it no
    longer has the next one, [next] returns after no number of turns, and subscribes at
    once each time, for only a failed subscription is delayed. *)
Theorem gap_never_returns `{GzipLib, QueryDebug, Delimited} {W : Type} `{!Http W, !Retries W}
    (self : ChangeStream) (I : W → Prop) (w : W) (turns fuel : nat) :
  lost self → cs_last_change_id self ≠ 0 → I w →
  (∀ w, I w → ∃ response w' frames sv change rest, service_answers self response w w' ∧ I w' ∧
     hr_status response = 200 ∧ hr_body response = reader_new frames false ∧
     frame_data frames = sv.1 ++ bytes sv.2 ++ rest ∧ spaced sv ∧ is_change change sv.2 ∧
     ch_change_id change ≠ (cs_last_change_id self + 1) mod 2 ^ 64) →
  stream_next turns fuel self w = None.
Proof.
  intros Hlost Hl HI Hgap. unfold stream_next. rewrite (proj1 Hlost).
  cut (∀ s w, lost s → cs_id s = cs_id self → cs_last_change_id s = cs_last_change_id self → I w →
       next_loop turns fuel s w = None); [by intros Hc; apply Hc|].
  clear Hlost HI w. induction turns as [|turns IH]; intros s w Hlost Hid Hlast HI; [done|]. cbn [next_loop].
  destruct (Hgap w HI) as (response & w' & frames & sv & change & rest & Ha & HI' & Hs & Hb & Hd & Hsv & Hc & Hne).
  rewrite <-Hlast in Hl, Hne. assert (service_answers s response w w') as Ha' by (unfold service_answers; by rewrite Hid, Hlast).
  rewrite (turn_connect_answered fuel s response w w' _ Hlost Ha' (resubscribe_plain fuel _ response frames Hs Hb Hl)).
  cbn [mbind option_bind]. pose proof (left_new frames) as Hleft. rewrite Hd in Hleft. pose proof Hlost as (Hf & Hn & Hr).
  destruct (turn_read_gap _ fuel (stream_connected (decoder_new (reader_new frames false)) s) _ sv change rest eq_refl Hr Hl Hleft Hsv Hc Hne)
    as [->| ->]; [done|]. cbn [mbind option_bind]. by apply IH.
Qed.

Lemma gap_never_returns_witness : stream_next 50 100 (lost_stream 5) (([], demo_answer [CHANGE7]) : World) = None.
Proof.
  apply (gap_never_returns (lost_stream 5) (fun w => w = (([], demo_answer [CHANGE7]) : World))); [done|done|done|].
  intros w ->. exists (demo_answer [CHANGE7]), ([], demo_answer [CHANGE7]), (two_frames [CHANGE7]), ([], CHANGE7), change7, (bytes nl_text).
  split_and!; [by eexists|reflexivity..|apply first_change7|apply is_change7|done].
Defined.

(** C40: before its first change a stream loses changes silently: with no change read
    ([last_change_id] 0) a lost connection is taken up with a snapshot, whose end names
    change [k]; it is drained, and the next change, of any ID, is returned.  The changes
    up to [k] made meanwhile are in the snapshot and are never returned. *)
Theorem snapshot_skips_changes `{GzipLib, QueryDebug, Delimited} {W : Type} `{!Http W, !Retries W}
    (self : ChangeStream) (response : HttpResponse) (frames : list Frame) (columns : list string) (rows : list Row)
    (fin : EndOfQuery) (tcol tfin tchange : Bytes * string) (texts : list (Bytes * string)) (change : ChangeEvent)
    (k : Z) (rest : Bytes) (turns fuel : nat) (w w' : W) :
  lost self → cs_last_change_id self = 0 → service_answers self response w w' →
  hr_status response = 200 → hr_body response = reader_new frames false →
  frame_data frames = tcol.1 ++ bytes tcol.2 ++ rows_text texts tfin (tchange.1 ++ bytes tchange.2 ++ rest) →
  spaced tcol → is_columns columns tcol.2 →
  Forall2 (fun sv row => spaced sv ∧ is_row columns row sv.2) texts rows → spaced tfin → is_end fin tfin.2 →
  eoq_change_id fin = Some k → spaced tchange → is_change change tchange.2 → ch_change_id change = k + 1 →
  (length (frame_data frames) + length texts < fuel)%nat →
  ∃ self', stream_next (S turns) fuel self w = Some (Some (Ok change), self', w') ∧ cs_last_change_id self' = k + 1.
Proof.
  intros Hlost Hl Ha Hs Hb Hd Hsc Hc Hr Hsf Hfin _ Hst Hch Hk Hf.
  destruct (rows_new_text columns frames tcol _ false fuel Hd Hsc Hc ltac:(lia)) as (d & En & Hleft).
  rewrite Hd, !length_app in Hf.
  destruct (rows_drain_text _ columns d texts rows tfin fin _ fuel Hleft Hr Hsf Hfin ltac:(unfold Bytes in *; lia)) as (d' & Ed & Hleft').
  assert (resubscribe_response fuel (cs_last_change_id self) response = Some (Ok d')) as E.
  { unfold resubscribe_response. rewrite Hs, Hl, Hb. cbn [Z.eqb negb]. rewrite En. cbn. by rewrite Ed. }
  assert (length (rows_text texts tfin (tchange.1 ++ bytes tchange.2 ++ rest)) >= length (tchange.1 ++ bytes tchange.2 ++ rest))%nat as Hle
    by (clear; induction texts; cbn; rewrite !length_app in *; lia).
  pose proof Hlost as (Hfin' & _).
  destruct (stream_next_sent (head (frame_errors frames)) turns fuel (stream_connected d' self) d' tchange change rest w') as (x & Ex & _);
    [done..|cbn; by rewrite Hl|unfold Bytes in *; lia|].
  exists (stream_delivered change x (stream_connected d' self)). split; [|exact Hk]. by rewrite (stream_next_connect turns fuel self _ w w' Hlost (turn_connect_answered _ _ _ _ _ _ Hlost Ha E)).
Qed.

Lemma snapshot_skips_changes_witness :
  ∃ self', stream_next 1 300 (lost_stream 0) (([demo_answer [COLUMNS; ROW1; ROW2; EOQ; CHANGE6]], gone) : World)
           = Some (Some (Ok change6), self', ([], gone)) ∧ cs_last_change_id self' = 6.
Proof.
  apply (snapshot_skips_changes (lost_stream 0) (demo_answer [COLUMNS; ROW1; ROW2; EOQ; CHANGE6])
           (two_frames [COLUMNS; ROW1; ROW2; EOQ; CHANGE6]) ["id"; "name"]
           [mk_Row 1 (Some ["a"; "b"]); mk_Row 2 (Some ["c"; "d"])] demo_end ([], COLUMNS) (bytes nl_text, EOQ)
           (bytes nl_text, CHANGE6) [(bytes nl_text, ROW1); (bytes nl_text, ROW2)] change6 5 (bytes nl_text) 0 300
           (([demo_answer [COLUMNS; ROW1; ROW2; EOQ; CHANGE6]], gone) : World) ([], gone)).
  - done.
  - reflexivity.
  - by eexists.
  - reflexivity.
  - reflexivity.
  - reflexivity.
  - apply spaced_columns.
  - by eexists.
  - apply demo_rows.
  - apply spaced_end.
  - apply is_demo_end.
  - reflexivity.
  - apply spaced_change6.
  - apply is_change6.
  - reflexivity.
  - vm_compute. lia.
Defined.
