(* ===== verification/CorroTransport.v ===== *)
(** * The corrosion client: requests, redirects and retries

    [Transport] of transport.rs: a request is sent again after some errors of HTTP/2 and
    of connecting, and follows redirects.  [Uri], the client of [hyper] and [backon]'s
    retries are classes over a world [W]. *)

From S2P Require Import Prelude RustStr Chars ClusterDns Cluster Store CorroClient CorroQuery.

Local Open Scope Z_scope.

(** ** Addresses *)

(** [http::Uri] and [HeaderValue]: parsing a text, the parts and the text of an address;
    a value from a text, and its text if it can be read. *)
Class HttpLib := {
  Uri : Type;
  uri_parse : string → string + Uri;
  uri_scheme : Uri → option string;
  uri_authority : Uri → option string;
  uri_path : Uri → string;
  uri_text : Uri → string;
  header_from_str : string → string + Bytes;
  header_to_str : Bytes → string + string
}.

(** The segments [normalize_path] keeps, the last one first. *)
Definition keep_segment (kept : list string) (segment : string) : list string :=
  if String.eqb segment "" || String.eqb segment "." then kept
  else if String.eqb segment ".." then tail kept
  else segment :: kept.

(** [normalize_path]. *)
Definition normalize_path (path_and_query : string) : string :=
  let '(path, query) := match split_once "?" path_and_query with
                        | Some (path, query) => (path, Some query)
                        | None => (path_and_query, None)
                        end in
  let segments := rev (foldl keep_segment [] (str_split "/" path)) in
  "/" +:+ str_join "/" segments +:+ match query with Some query => "?" +:+ query | None => "" end.

(** A text that can stand before the colon of a scheme. *)
Definition scheme_byte (index : nat) (c : ascii) : bool :=
  is_ascii_lowercase c || is_ascii_uppercase c
  || negb (index =? 0)%nat && (code 43 c || code 45 c || code 46 c || is_ascii_digit c).
Fixpoint scheme_from (index : nat) (l : Bytes) : bool :=
  match l with [] => true | c :: l => scheme_byte index c && scheme_from (S index) l end.

Section uri.
Context `{HttpLib}.

Definition unsupported (text : string) : ClientError := ce_new KHttp ("unsupported redirect scheme in " +:+ text).

(** [validate_scheme]. *)
Definition validate_scheme (uri : Uri) : result ClientError () :=
  match uri_scheme uri with
  | Some "http" | Some "https" => Ok ()
  | _ => Err (unsupported (uri_text uri))
  end.

(** Whether a reference has a scheme other than those of HTTP. *)
Definition foreign_scheme (reference : string) : bool :=
  match split_once ":" reference with
  | Some (candidate, _) =>
      negb (str_is_empty candidate) && scheme_from 0 (bytes candidate)
      && negb (String.eqb candidate "http" || String.eqb candidate "https")
  | None => false
  end.

(** The reference as an absolute address. *)
Definition absolute (base : Uri) (scheme authority reference : string) : string :=
  match strip_prefix "//" reference with
  | Some authority_reference => scheme +:+ "://" +:+ authority_reference
  | None =>
      if starts_with "/" reference then scheme +:+ "://" +:+ authority +:+ reference
      else if starts_with "?" reference then scheme +:+ "://" +:+ authority +:+ uri_path base +:+ reference
      else
        let directory := match rsplit_once "/" (uri_path base) with Some (directory, _) => directory | None => "/" end in
        scheme +:+ "://" +:+ authority +:+ normalize_path (directory +:+ "/" +:+ reference)
  end.

(** [resolve_uri]. *)
Definition resolve_uri (base : Uri) (reference : string) : result ClientError Uri :=
  let reference := default "" (head (str_split "#" reference)) in
  if foreign_scheme reference then Err (unsupported reference)
  else
    let parsed := match uri_parse reference with
                  | inr uri => match uri_scheme uri with Some _ => Some uri | None => None end
                  | inl _ => None
                  end in
    match parsed with
    | Some uri => _ ← validate_scheme uri; Ok uri
    | None =>
        scheme ← ok_or (ce_new KHttp "base URL has no scheme") (uri_scheme base);
        authority ← ok_or (ce_new KHttp "base URL has no authority") (uri_authority base);
        uri ← wrap KHttp "invalid redirect location" (uri_parse (absolute base scheme authority reference));
        _ ← validate_scheme uri;
        Ok uri
    end.
End uri.

(** ** Requests *)

(** [h2::Error]: its reason, and whether it is a GOAWAY. *)
Record H2Error := mk_H2Error { h2_reason : option Z; h2_go_away : bool }.
Definition PROTOCOL_ERROR : Z := 1.
Definition REFUSED_STREAM : Z := 7.

(** An error of [hyper]'s client: whether it is of connecting, the error and its chain
    of sources ([Some]: of HTTP/2), and its text. *)
Record HyperError := mk_HyperError { he_connect : bool; he_chain : list (option H2Error); he_text : string }.

(** [retryable_h2_error]: by the first error of HTTP/2 in the chain. *)
Fixpoint retryable_chain (chain : list (option H2Error)) : bool :=
  match chain with
  | [] => false
  | Some e :: _ =>
      match h2_reason e with
      | Some r => (r =? REFUSED_STREAM) || (r =? PROTOCOL_ERROR) || h2_go_away e
      | None => h2_go_away e
      end
  | None :: chain => retryable_chain chain
  end.
Definition retryable_h2_error (e : HyperError) : bool := retryable_chain (he_chain e).

(** A request on the wire, and its response. *)
Record Request `{HttpLib} := mk_Request {
  rq_method : Method;
  rq_uri : Uri;
  rq_headers : list (string * Bytes);
  rq_body : Bytes
}.
Arguments mk_Request {_} _ _ _ _.
Record RawResponse := mk_RawResponse {
  rw_status : Z;
  rw_headers : list (string * Bytes);
  rw_body : list Frame
}.

(** [hyper]'s client, the pause before an attempt of a number of seconds with a random
    part, and [backon]'s retries of errors of connecting. *)
Class Hyper `{HttpLib} (W : Type) := {
  hyper_request : Request → W → (HyperError + RawResponse) * W;
  hyper_sleep : Z → W → W;
  hyper_retry : (W → (HyperError + RawResponse) * W) → W → (HyperError + RawResponse) * W;
  hyper_retry_attempt call w :
    ∃ w0 r w', hyper_retry call w = (r, w') ∧ call w0 = (r, w') ∧
      (w0 = w ∨ ∃ e w1, call w = (inl e, w1) ∧ he_connect e = true);
  hyper_retry_first call w r w' : call w = (r, w') → (∀ e, r = inl e → he_connect e = false) →
    hyper_retry call w = (r, w')
}.

(** [Transport]; the client is the world's. *)
Record Transport `{HttpLib} := mk_Transport { tr_base : Uri; tr_token : option Bytes }.
Arguments mk_Transport {_} _ _.

Section transport.
Context `{HttpLib, GzipLib}.

(** [Transport::new], of the text of the address. *)
Definition transport_new (address bearer_token : string) : result ClientError Transport :=
  base ← wrap KHttp "invalid Corrosion URL" (uri_parse ("http://" +:+ address));
  token ← (if str_is_empty bearer_token then Ok None
           else value ← wrap KHttp "invalid bearer token header" (header_from_str ("Bearer " +:+ bearer_token));
                Ok (Some value));
  Ok (mk_Transport base token).

(** [endpoint]. *)
Definition endpoint (self : Transport) (path_and_query : string) : result ClientError Uri :=
  resolve_uri (tr_base self) path_and_query.

(** [build_request]. *)
Definition build_request (self : Transport) (method : Method) (uri : Uri) (body : Bytes) : Request :=
  mk_Request method uri
    ([("accept", bytes "application/json"); ("content-type", bytes "application/json");
      ("accept-encoding", bytes "gzip"); ("user-agent", bytes "Go-http-client/2.0")]
     ++ match tr_token self with Some token => [("authorization", token)] | None => [] end) body.

(** The first header of a name; names are lower case. *)
Definition raw_header (name : string) (headers : list (string * Bytes)) : option Bytes :=
  snd <$> head (List.filter (fun kv => String.eqb (fst kv) name) headers).
Definition without_header (name : string) (headers : list (string * Bytes)) : list (string * Bytes) :=
  List.filter (fun kv => negb (String.eqb (fst kv) name)) headers.

(** [response_reader]. *)
Definition response_reader (response : RawResponse) : HttpResponse :=
  let gzip := match raw_header "content-encoding" (rw_headers response) with
              | Some value => eq_ignore_ascii_case (of_bytes value) "gzip"
              | None => false
              end in
  let headers := if gzip then without_header "content-length" (without_header "content-encoding" (rw_headers response))
                 else rw_headers response in
  mk_HttpResponse (rw_status response)
    (map (fun kv => (fst kv, match header_to_str (snd kv) with inr s => Some s | inl _ => None end)) headers)
    (reader_new (rw_body response) gzip).

Context {W : Type} `{!Hyper W}.

(** The loop of [request_with_protocol_retries], from an attempt; [left_] attempts may
    follow. *)
Fixpoint protocol_retries (left_ : nat) (attempt : Z) (request : Request) (w : W) : (HyperError + RawResponse) * W :=
  let w := if 2 <=? attempt then hyper_sleep (Z.shiftl 1 (attempt - 2)) w else w in
  match hyper_request request w with
  | (inr response, w) => (inr response, w)
  | (inl error, w) =>
      match left_ with
      | S left_ => if retryable_h2_error error then protocol_retries left_ (attempt + 1) request w else (inl error, w)
      | O => (inl error, w)
      end
  end.
Definition request_with_protocol_retries (self : Transport) (method : Method) (uri : Uri) (body : Bytes) (w : W) :
    (HyperError + RawResponse) * W :=
  protocol_retries 7 0 (build_request self method uri body) w.

(** [request_with_transport_retries]. *)
Definition request_with_transport_retries (self : Transport) (method : Method) (uri : Uri) (body : Bytes) (w : W) :
    result ClientError RawResponse * W :=
  match hyper_retry (request_with_protocol_retries self method uri body) w with
  | (inr response, w) => (Ok response, w)
  | (inl error, w) => (Err (ce_foreign KHttp "send request" (he_text error)), w)
  end.

Definition is_redirect (status : Z) : bool :=
  (status =? 301) || (status =? 302) || (status =? 303) || (status =? 307) || (status =? 308).

(** The method and the body after a redirect. *)
Definition redirected (status : Z) (method : Method) (body : Bytes) : Method * Bytes :=
  if (301 <=? status) && (status <=? 303) && negb (bool_decide (method = GET)) && negb (bool_decide (method = HEAD))
  then (GET, []) else (method, body).

(** The location a response redirects to. *)
Definition redirect_location (response : RawResponse) : option Bytes :=
  if is_redirect (rw_status response)
  then match raw_header "location" (rw_headers response) with
       | None | Some [] => None
       | Some location => Some location
       end
  else None.

(** The loop of [request]; [hops] redirects may still be followed. *)
Fixpoint request_loop (self : Transport) (hops : nat) (method : Method) (uri : Uri) (body : Bytes) (w : W) :
    result ClientError HttpResponse * W :=
  match request_with_transport_retries self method uri body w with
  | (Err e, w) => (Err e, w)
  | (Panic m, w) => (Panic m, w)
  | (Ok response, w) =>
      match redirect_location response with
      | None => (Ok (response_reader response), w)
      | Some location =>
          match hops with
          | O => (Err (ce_new KHttp "stopped after 10 redirects"), w)
          | S hops =>
              match (text ← wrap KHttp "invalid redirect location" (header_to_str location); resolve_uri uri text) with
              | Ok uri =>
                  let '(method, body) := redirected (rw_status response) method body in
                  request_loop self hops method uri body w
              | Err e => (Err e, w)
              | Panic m => (Panic m, w)
              end
          end
      end
  end.

(** [request]: the tenth response is not followed. *)
Definition request (self : Transport) (method : Method) (uri : Uri) (body : Bytes) (w : W) :
    result ClientError HttpResponse * W := request_loop self 9 method uri body w.

(** What the transport promises to the client. *)
Definition transport_http (self : Transport) : Http W := {|
  Address := Uri;
  http_endpoint := endpoint self;
  http_request := request self
|}.
End transport.

(** ** What redirects may do *)

(** *** Paths *)

(** A segment that is kept: not empty, not a dot segment, and without a slash or a
    question mark. *)
Definition clean (segment : string) : Prop :=
  segment ≠ "" ∧ segment ≠ "." ∧ segment ≠ ".." ∧ str_contains "/" segment = false.

Lemma keep_clean kept l : Forall clean kept → Forall (fun s => str_contains "/" s = false) l →
  Forall clean (foldl keep_segment kept l).
Proof.
  intros Hk Hl. revert kept Hk. induction Hl as [|s l Hs _ IH]; intros kept Hk; [done|]. cbn. apply IH. unfold keep_segment.
  destruct (String.eqb_spec s ""), (String.eqb_spec s "."), (String.eqb_spec s ".."); cbn; try done.
  - destruct Hk; [constructor|done].
  - by constructor.
Qed.
Lemma keep_segments kept l : Forall clean l → foldl keep_segment kept l = rev l ++ kept.
Proof.
  intros Hl. revert kept. induction Hl as [|s l (H1 & H2 & H3 & _) _ IH]; intros kept; [done|]. cbn. rewrite IH.
  unfold keep_segment. rewrite (proj2 (String.eqb_neq s "") H1), (proj2 (String.eqb_neq s ".") H2), (proj2 (String.eqb_neq s "..") H3).
  cbn. by rewrite <-app_assoc.
Qed.

Lemma keep_without d kept l : Forall (fun s => str_contains d s = false) kept →
  Forall (fun s => str_contains d s = false) l → Forall (fun s => str_contains d s = false) (foldl keep_segment kept l).
Proof.
  intros Hk Hl. revert kept Hk. induction Hl as [|s l Hs _ IH]; intros kept Hk; [done|]. cbn. apply IH. unfold keep_segment.
  destruct (_ || _); [done|]. destruct (String.eqb s ".."); [|by constructor]. destruct Hk; [constructor|done].
Qed.

(** The path of a normalised path, and its query. *)
Definition path_segments (path : string) : list string := rev (foldl keep_segment [] (str_split "/" path)).
Lemma path_segments_clean path : Forall clean (path_segments path).
Proof. apply Forall_rev, keep_clean; [constructor|]. apply str_split_parts. Qed.

Lemma path_segments_join l : Forall clean l → path_segments ("/" +:+ str_join "/" l) = l.
Proof.
  intros Hl. unfold path_segments. change ("/" +:+ str_join "/" l) with ("" +:+ String "/" (str_join "/" l)).
  rewrite str_split_app by done. cbn [foldl]. change (keep_segment [] "") with (@nil string).
  destruct l as [|a l]; [done|].
  rewrite str_split_join; [|done|eapply Forall_impl; [done|by intros ? (? & ? & ? & ?)]].
  by rewrite keep_segments, app_nil_r, rev_involutive.
Qed.

Lemma path_segments_without path : str_contains "?" path = false →
  str_contains "?" ("/" +:+ str_join "/" (path_segments path)) = false.
Proof.
  intros Hp. rewrite str_contains_app. cbn [orb]. change (str_contains "?" "/") with false. cbn [orb].
  apply str_join_without; [done|]. apply Forall_rev, keep_without; [constructor|]. by apply str_split_without.
Qed.

(** [normalize_path] of the two forms. *)
Lemma normalize_query path query : str_contains "?" path = false →
  normalize_path (path +:+ String "?" query) = "/" +:+ str_join "/" (path_segments path) +:+ String "?" query.
Proof. intros Hp. unfold normalize_path. by rewrite split_once_app. Qed.
Lemma normalize_plain path : str_contains "?" path = false →
  normalize_path path = "/" +:+ str_join "/" (path_segments path).
Proof. intros Hp. unfold normalize_path. rewrite split_once_none by done. by rewrite str_app_nil. Qed.

Lemma normalize_again p : normalize_path (normalize_path p) = normalize_path p.
Proof.
  destruct (split_once "?" p) as [[path query]|] eqn:E.
  - pose proof (split_once_before _ _ _ _ E) as Hp. apply split_once_join in E as ->. rewrite (normalize_query path) by done.
    rewrite str_app_assoc, normalize_query by (by apply path_segments_without).
    by rewrite path_segments_join, str_app_assoc by apply path_segments_clean.
  - apply split_once_absent in E. rewrite (normalize_plain p) by done.
    rewrite normalize_plain by (by apply path_segments_without). by rewrite path_segments_join by apply path_segments_clean.
Qed.

(** *** Redirects *)

Section redirects.
Context `{HttpLib, GzipLib} {W : Type} `{!Hyper W}.

Definition http_scheme (uri : Uri) : Prop := uri_scheme uri = Some "http" ∨ uri_scheme uri = Some "https".

Lemma validate_scheme_Ok uri u : validate_scheme uri = Ok u → http_scheme uri.
Proof.
  unfold validate_scheme, http_scheme. destruct (uri_scheme uri) as [s|]; [|done].
  destruct (String.eqb_spec s "http") as [->|]; [by left|]. destruct (String.eqb_spec s "https") as [->|]; [by right|].
  intros E. exfalso. revert E n n0. repeat (destruct s as [|[[][][][][][][][]] s]; try done).
Qed.

Lemma resolve_uri_scheme base reference uri : resolve_uri base reference = Ok uri → http_scheme uri.
Proof.
  unfold resolve_uri. destruct (foreign_scheme _); [done|].
  destruct (match uri_parse _ with inr uri => _ | inl _ => None end) as [u|]; intros Hr.
  - result_inv. by eapply validate_scheme_Ok.
  - result_inv. by eapply validate_scheme_Ok.
Qed.

(** A request that is sent: the method, the address and the body. *)
Definition Sent : Type := Method * Uri * Bytes.

(** [follows self sent method uri body w response w']: the requests of [sent], one for
    each redirect and the last, lead to the response. *)
Inductive follows (self : Transport) : list Sent → Method → Uri → Bytes → W → RawResponse → W → Prop :=
| follows_last method uri body w response w' :
    request_with_transport_retries self method uri body w = (Ok response, w') →
    redirect_location response = None →
    follows self [(method, uri, body)] method uri body w response w'
| follows_hop sent method uri body w response w' location text uri' response' w'' :
    request_with_transport_retries self method uri body w = (Ok response, w') →
    redirect_location response = Some location → header_to_str location = inr text → resolve_uri uri text = Ok uri' →
    follows self sent (redirected (rw_status response) method body).1 uri'
      (redirected (rw_status response) method body).2 w' response' w'' →
    follows self ((method, uri, body) :: sent) method uri body w response' w''.

Lemma request_loop_follows self hops method uri body w r w' :
  request_loop self hops method uri body w = (Ok r, w') ↔
  ∃ sent response, (length sent <= S hops)%nat ∧ follows self sent method uri body w response w' ∧
                   r = response_reader response.
Proof.
  split.
  - revert method uri body w. induction hops as [|hops IH]; intros method uri body w; cbn [request_loop];
      destruct (request_with_transport_retries self method uri body w) as [[response| |] w1] eqn:E; try done;
      destruct (redirect_location response) as [location|] eqn:Hl; try done.
    1, 3: intros [= <- <-]; exists [(method, uri, body)], response; split_and!; [cbn; lia|by constructor|done].
    destruct (header_to_str location) as [|text] eqn:Ht; [done|]. cbn [wrap mbind result_bind].
    destruct (resolve_uri uri text) as [uri'| |] eqn:Hu; [|done..].
    destruct (redirected (rw_status response) method body) as [method' body'] eqn:Hred.
    intros (sent & response' & Hlen & Hf & ->)%IH. exists ((method, uri, body) :: sent), response'.
    split_and!; [cbn; lia| |done]. eapply follows_hop; [done..|]. by rewrite Hred.
  - intros (sent & response & Hlen & Hf & ->). revert hops Hlen.
    induction Hf as [method uri body w response w' E Hl|sent method uri body w response w' location text uri' response' w'' E Hl Ht Hu Hf IH];
      intros hops Hlen; destruct hops as [|hops]; cbn [request_loop]; rewrite E, Hl; [done..| |].
    + destruct Hf; cbn in Hlen; lia.
    + rewrite Ht. cbn [wrap mbind result_bind]. rewrite Hu.
      destruct (redirected (rw_status response) method body) as [method' body']. apply IH. cbn in Hlen. lia.
Qed.

Lemma redirected_cases status method body :
  redirected status method body = (method, body) ∨ redirected status method body = (GET, []).
Proof. unfold redirected. destruct (_ && _); auto. Qed.

(** What each request of a chain may be. *)
Lemma follows_sent self sent method uri body w response w' : follows self sent method uri body w response w' →
  Forall (fun s : Sent => (s.1.1, s.2) = (method, body) ∨ (s.1.1, s.2) = (GET, [])) sent ∧
  Forall (fun s : Sent => http_scheme s.1.2) (tail sent).
Proof.
  induction 1 as [method uri body w response w' E Hl|sent method uri body w response w' location text uri' response' w'' E Hl Ht Hu Hf [IH1 IH2]].
  - split; [constructor; [by left|constructor]|constructor].
  - split.
    + constructor; [by left|]. eapply Forall_impl; [exact IH1|]. cbn. intros s Hs.
      destruct (redirected_cases (rw_status response) method body) as [-> | ->] in Hs; cbn in Hs; tauto.
    + cbn. assert (http_scheme uri') as Hs by (by eapply resolve_uri_scheme). destruct Hf; cbn in *; by constructor.
Qed.
End redirects.

(** *** Claims *)

(** [request] follows redirects exactly: it returns a response if and only if at
    most ten requests, each to where the one before pointed, lead to it; each request has
    the method and the body of the first or is a GET without a body, and each one after
    the first goes to an address of HTTP. *)
Theorem request_follows `{HttpLib, GzipLib} {W : Type} `{!Hyper W} (self : Transport) (method : Method) (uri : Uri)
    (body : Bytes) (w : W) :
  (∀ r w', request self method uri body w = (Ok r, w') ↔
     ∃ sent response, (length sent <= 10)%nat ∧ follows self sent method uri body w response w' ∧
                      r = response_reader response) ∧
  (∀ sent response w', follows self sent method uri body w response w' →
     Forall (fun s : Sent => (s.1.1, s.2) = (method, body) ∨ (s.1.1, s.2) = (GET, [])) sent ∧
     Forall (fun s : Sent => http_scheme s.1.2) (tail sent)).
Proof. split; intros; [apply request_loop_follows|by eapply follows_sent]. Qed.

(** the path of a relative redirect is normalised: it is a slash and segments that
    are not empty and not dot segments, with the query unchanged, so that it stays below
    the root; normalising it again does not change it. *)
Theorem normalize_path_exact (p : string) :
  normalize_path (normalize_path p) = normalize_path p ∧
  ∃ segments query, Forall clean segments ∧ normalize_path p = "/" +:+ str_join "/" segments +:+ query ∧
    (query = "" ∨ ∃ path q, p = path +:+ query ∧ query = "?" +:+ q ∧ str_contains "?" path = false).
Proof.
  split; [apply normalize_again|]. destruct (split_once "?" p) as [[path query]|] eqn:E.
  - pose proof (split_once_before _ _ _ _ E) as Hp. apply split_once_join in E as ->.
    exists (path_segments path), (String "?" query). split_and!; [apply path_segments_clean|by apply normalize_query|].
    right. by exists path, query.
  - apply split_once_absent in E. exists (path_segments p), "".
    split_and!; [apply path_segments_clean|by rewrite str_app_nil, normalize_plain|by left].
Qed.
