(* ===== verification/GrpcVersion.v ===== *)
(** * Version compatibility of gRPC clients and servers

    lib.rs of ployz-internal-grpcversion: versions with their order, the policy that
    clients and proxy frontends share, and the middleware that applies it.  The [semver]
    crate is a parameter. *)

From S2P Require Import Prelude RustStr Port Config NetAddr PbAddr Machine Cluster ProxyMap.

Local Open Scope Z_scope.

Definition METADATA_KEY_CLIENT_VERSION : string := "ployz-client-version".
Definition METADATA_KEY_MIN_SERVER_VERSION : string := "ployz-min-server-version".
Definition METADATA_KEY_SERVER_VERSION : string := "ployz-server-version".
Definition MIN_CLIENT_VERSION : string := "0.20.0".
Definition MIN_SERVER_VERSION : string := "0.20.0".
Definition RELEASE_URL : string := "https://github.com/getployz/ployz/releases/latest".

(** ** Identifiers *)

Definition identifier_byte (c : ascii) : bool := is_ascii_alphanumeric c || ascii_eqb c "-".
Definition identifier_valid (part : string) : bool :=
  negb (str_is_empty part) && forallb identifier_byte (bytes part).

(** [identifiers_valid]. *)
Definition identifiers_valid (value : string) : bool :=
  negb (str_is_empty value) && forallb identifier_valid (str_split "." value).

Definition all_digits (part : string) : bool := forallb is_ascii_digit (bytes part).

(** [trim_start_matches('0')]. *)
Fixpoint trim_zeros (s : string) : string :=
  match s with String c s' => if ascii_eqb c "0" then trim_zeros s' else s | EmptyString => "" end.

(** A numeric identifier without leading zeros. *)
Definition normalize_identifier (part : string) : string :=
  if all_digits part then (let trimmed := trim_zeros part in if str_is_empty trimmed then "0" else trimmed) else part.

(** The text of a version. *)
Definition version_text (major minor patch : Z) (prerelease : string) (build : option string) : string :=
  dec major +:+ "." +:+ dec minor +:+ "." +:+ dec patch
  +:+ (if str_is_empty prerelease then "" else "-" +:+ prerelease)
  +:+ match build with Some build => "+" +:+ build | None => "" end.

(** [semver::Version]: it reads the text of three numbers and identifiers, the numeric
    ones of a prerelease without leading zeros. *)
Class SemverLib := {
  Semver : Type;
  semver_parse : string → option Semver;
  semver_core : Semver → Z * Z * Z;
  semver_reads major minor patch prerelease build :
    0 <= major <= u_max 64 → 0 <= minor <= u_max 64 → 0 <= patch <= u_max 64 →
    (prerelease = "" ∨ identifiers_valid prerelease = true ∧
       Forall (fun part => normalize_identifier part = part) (str_split "." prerelease)) →
    (∀ text, build = Some text → identifiers_valid text = true) →
    ∃ v, semver_parse (version_text major minor patch prerelease build) = Some v ∧
         semver_core v = (major, minor, patch)
}.

Section versions.
Context `{SemverLib}.

(** [ProtocolVersion]. *)
Record ProtocolVersion := mk_ProtocolVersion {
  pv_semantic : Semver;
  pv_wire : string;
  pv_prerelease : string
}.

(** The numbers of the core, filled up with zeros. *)
Fixpoint core_numbers (parts : list string) : option (list Z) :=
  match parts with
  | [] => Some []
  | part :: parts =>
      if str_is_empty part || negb (all_digits part) then None
      else match parse_i 64 part with
           | Ok n => l ← core_numbers parts; Some (n :: l)
           | _ => None
           end
  end.

(** [value.split_once('+')] with its guards. *)
Definition split_build (value : string) : option (string * option string) :=
  match split_once "+" value with
  | Some (before, after) => if negb (str_contains "+" after) && identifiers_valid after then Some (before, Some after) else None
  | None => Some (value, None)
  end.
Definition split_prerelease (value : string) : option (string * string) :=
  match split_once "-" value with
  | Some (before, after) => if identifiers_valid after then Some (before, after) else None
  | None => Some (value, "")
  end.

(** [ProtocolVersion::parse]. *)
Definition version_parse (value : string) : option ProtocolVersion :=
  '(without_build, build) ← split_build value;
  '(core, prerelease) ← split_prerelease without_build;
  let core := default core (strip_prefix "v" core) in
  if str_is_empty core || starts_with "V" core then None
  else
    let parts := str_split "." core in
    if negb ((1 <=? length parts)%nat && (length parts <=? 3)%nat) then None
    else
      numbers ← core_numbers parts;
      let n (index : nat) := default 0 (numbers !! index) in
      let normalized := if str_is_empty prerelease then ""
                        else str_join "." (map normalize_identifier (str_split "." prerelease)) in
      semantic ← semver_parse (version_text (n 0%nat) (n 1%nat) (n 2%nat) normalized build);
      Some (mk_ProtocolVersion semantic (version_text (n 0%nat) (n 1%nat) (n 2%nat) prerelease build) prerelease).

(** [ProtocolVersion::zero] and [parse_or_zero]. *)
Definition version_zero : result GrpcStatus ProtocolVersion :=
  expect "the static zero version is valid" (version_parse "0.0.0").
Definition parse_or_zero (value : option string) : result GrpcStatus ProtocolVersion :=
  match value ≫= version_parse with Some v => Ok v | None => version_zero end.

(** The match of [compare_prerelease] on two different parts. *)
Definition compare_part (left right : string) : comparison :=
  match parse_u 64 left, parse_u 64 right with
  | Ok left_number, Ok right_number => if right_number <? left_number then Gt else Lt
  | Ok _, _ => Lt
  | _, Ok _ => Gt
  | _, _ => str_cmp left right
  end.
(** The loop of [compare_prerelease]. *)
Fixpoint compare_parts (ls rs : list string) : comparison :=
  match ls, rs with
  | [], [] => Eq
  | [], _ :: _ => Lt
  | _ :: _, [] => Gt
  | l :: ls, r :: rs => if String.eqb l r then compare_parts ls rs else compare_part l r
  end.
(** [compare_prerelease]. *)
Definition compare_prerelease (left right : string) : comparison :=
  if str_is_empty left && str_is_empty right then Eq
  else if str_is_empty left then Gt
  else if str_is_empty right then Lt
  else compare_parts (str_split "." left) (str_split "." right).

Definition core_cmp (a b : Z * Z * Z) : comparison :=
  then_cmp (a.1.1 ?= b.1.1) (then_cmp (a.1.2 ?= b.1.2) (a.2 ?= b.2)).

(** [less_than]. *)
Definition less_than (self other : ProtocolVersion) : bool :=
  match core_cmp (semver_core (pv_semantic self)) (semver_core (pv_semantic other)) with
  | Lt => true
  | Eq => match compare_prerelease (pv_prerelease self) (pv_prerelease other) with Lt => true | _ => false end
  | Gt => false
  end.

(** ** The policy *)

(** [VersionPolicy]; the metadata value and the header are the wire text. *)
Record VersionPolicy := mk_VersionPolicy {
  vp_current : ProtocolVersion;
  vp_current_metadata : string;
  vp_current_header : string;
  vp_minimum_client : ProtocolVersion;
  vp_minimum_server : ProtocolVersion
}.

Context `{MetadataLib}.

(** [VersionPolicy::new]. *)
Definition policy_new (current_version : string) : result GrpcStatus VersionPolicy :=
  current ← parse_or_zero (Some current_version);
  metadata ← expect "normalized versions are valid ASCII metadata" (value_try_from (pv_wire current));
  header ← expect "normalized versions are valid HTTP headers" (value_try_from (pv_wire current));
  minimum_client ← expect "the static client minimum is valid" (version_parse MIN_CLIENT_VERSION);
  minimum_server ← expect "the static server minimum is valid" (version_parse MIN_SERVER_VERSION);
  Ok (mk_VersionPolicy current metadata header minimum_client minimum_server).

Definition current_version (self : VersionPolicy) : string := pv_wire (vp_current self).

(** [MetadataMap::append] and [get]. *)
Definition metadata_append (key value : string) (m : MetadataMap) : MetadataMap :=
  <[key := default [] (m !! key) ++ [value]]> m.
Definition metadata_get (key : string) (m : MetadataMap) : option string := m !! key ≫= head.

(** [append_client_metadata]. *)
Definition append_client_metadata (self : VersionPolicy) (metadata : MetadataMap) : MetadataMap :=
  metadata_append METADATA_KEY_MIN_SERVER_VERSION MIN_SERVER_VERSION
    (metadata_append METADATA_KEY_CLIENT_VERSION (vp_current_metadata self) metadata).

(** [validate_values]. *)
Definition validate_values (self : VersionPolicy) (client required_server : option string) : result GrpcStatus () :=
  client ← parse_or_zero client;
  if less_than client (vp_minimum_client self)
  then Err (grpc_status CodeFailedPrecondition
              ("version check failed: client version is below minimum " +:+ pv_wire (vp_minimum_client self)
               +:+ ". Please upgrade: " +:+ RELEASE_URL))
  else
    required_server ← parse_or_zero required_server;
    if less_than (vp_current self) required_server
    then Err (grpc_status CodeFailedPrecondition
                ("version check failed: daemon version " +:+ pv_wire (vp_current self)
                 +:+ " is below client's minimum required version " +:+ pv_wire required_server
                 +:+ ". Please upgrade the daemon: " +:+ RELEASE_URL))
    else Ok ().

(** [validate_request] and [validate_headers]. *)
Definition validate_headers (self : VersionPolicy) (headers : MetadataMap) : result GrpcStatus () :=
  validate_values self (metadata_get METADATA_KEY_CLIENT_VERSION headers ≫= value_to_str)
    (metadata_get METADATA_KEY_MIN_SERVER_VERSION headers ≫= value_to_str).

(** [prepend_server_header]. *)
Definition prepend_server_header (self : VersionPolicy) (headers : MetadataMap) : MetadataMap :=
  let existing := default [] (headers !! METADATA_KEY_SERVER_VERSION) in
  foldl (fun m value => metadata_append METADATA_KEY_SERVER_VERSION value m)
    (metadata_append METADATA_KEY_SERVER_VERSION (vp_current_header self) (delete METADATA_KEY_SERVER_VERSION headers))
    existing.

(** [warning_message]. *)
Definition warning_message (self : VersionPolicy) (metadata : MetadataMap) : result GrpcStatus (option string) :=
  server ← parse_or_zero (metadata_get METADATA_KEY_SERVER_VERSION metadata ≫= value_to_str);
  Ok (if less_than server (vp_minimum_server self)
      then Some ("WARNING: daemon version is below minimum required version " +:+ pv_wire (vp_minimum_server self)
                 +:+ ". The daemon did not verify this CLI's minimum version requirement, so the operation may not have behaved as intended. Please upgrade the daemon: "
                 +:+ RELEASE_URL +:+ String (Ascii.ascii_of_nat 10) "")
      else None).

(** [warn_once], with the flag [warned] and the texts written to a writer that may fail;
    the second component is its result. *)
Definition warn_once (self : VersionPolicy) (metadata : MetadataMap) (write_fails : bool) (warned : bool)
    (written : list string) : result GrpcStatus (bool * list string * option bool) :=
  message ← warning_message self metadata;
  match message with
  | None => Ok (warned, written, Some false)
  | Some message =>
      if warned then Ok (true, written, Some false)
      else if write_fails then Ok (true, written, None)
      else Ok (true, written ++ [message], Some true)
  end.

(** ** The middleware *)

(** [ServerVersionService::call]: the answer of the inner service to the request, with
    the header of the version, or the status of the check. *)
Definition server_call {A} (self : VersionPolicy) (inner : MetadataMap → MetadataMap * A) (headers : MetadataMap) :
    result GrpcStatus (MetadataMap * A) :=
  _ ← validate_headers self headers;
  let '(response, body) := inner headers in
  Ok (prepend_server_header self response, body).

(** [ClientVersionInterceptor::call]. *)
Definition client_call (self : VersionPolicy) (metadata : MetadataMap) : MetadataMap := append_client_metadata self metadata.

(** [inspect_unary_response_with_policy] and [VersionedStreaming::header]: the response is
    unchanged, and the warning goes to the standard error stream. *)
Definition inspect_unary_response {A} (self : VersionPolicy) (write_fails : bool) (r : result GrpcStatus (MetadataMap * A))
    (warned : bool) (written : list string) : result GrpcStatus (bool * list string * result GrpcStatus (MetadataMap * A)) :=
  match r with
  | Ok (metadata, body) =>
      '(warned, written, _) ← warn_once self metadata write_fails warned written; Ok (warned, written, r)
  | _ => Ok (warned, written, r)
  end.
End versions.
