(* ===== verification/GrpcVersionProps.v ===== *)
(** * Versions: reading, order and the policy *)

From S2P Require Import Prelude RustStr Port Config NetAddr PbAddr Machine Cluster ProxyMap GrpcVersion.

Local Open Scope Z_scope.

(** ** Texts of digits and identifiers *)

Lemma digit_dec d : 0 <= d < 10 → is_ascii_digit (dec_digit d) = true.
Proof. intros Hd. pose proof (dec_digit_val d Hd) as E. unfold digit_val in E. by destruct (is_ascii_digit _). Qed.

Lemma all_digits_dec_aux fuel n acc : all_digits acc = true → 0 <= n → all_digits (dec_aux fuel n acc) = true.
Proof.
  revert n acc. induction fuel as [|fuel IH]; intros n acc Ha Hn; [done|]. cbn [dec_aux].
  assert (all_digits (String (dec_digit (n mod 10)) acc) = true) as Ha'.
  { unfold all_digits in *. cbn. rewrite digit_dec; [done|apply Z.mod_pos_bound; lia]. }
  destruct (n / 10 =? 0); [done|]. apply IH; [done|]. apply Z.div_pos; lia.
Qed.
Lemma all_digits_dec n : 0 <= n → all_digits (dec n) = true.
Proof. intros Hn. unfold dec. rewrite (proj2 (Z.ltb_ge _ _)) by lia. by apply all_digits_dec_aux. Qed.

Lemma dec_not_empty n : 0 <= n → str_is_empty (dec n) = false.
Proof.
  intros Hn. unfold dec. rewrite (proj2 (Z.ltb_ge _ _)) by lia. unfold dec_nat.
  destruct (dec_aux_head (S (Z.to_nat (Z.log2 n))) n "") as (d & s & _ & ->); done.
Qed.

(** A character outside a class is not in a text of the class. *)
Lemma class_without (p : ascii → bool) c s : forallb p (bytes s) = true → p c = false → str_contains c s = false.
Proof.
  induction s as [|d s IH]; [done|]. cbn. intros [Hd Hs]%andb_true_iff Hc. destruct (ascii_eqb c d) eqn:E; [|by apply IH].
  apply Ascii.eqb_eq in E. congruence.
Qed.
Lemma dec_without n c : 0 <= n → is_ascii_digit c = false → str_contains c (dec n) = false.
Proof. intros Hn Hc. apply (class_without is_ascii_digit); [by apply all_digits_dec|done]. Qed.

Lemma forallb_split (p : ascii → bool) c s : p c = true → forallb (fun part => forallb p (bytes part)) (str_split c s) = true →
  forallb p (bytes s) = true.
Proof.
  intros Hc. induction s as [|d s IH]; [done|]. cbn [str_split]. change (bytes (String d s)) with (d :: bytes s). cbn [forallb].
  destruct (ascii_eqb c d) eqn:E.
  - apply Ascii.eqb_eq in E as <-. cbn [forallb]. intros [_ Hs]%andb_true_iff. by rewrite Hc, IH.
  - destruct (str_split c s) as [|part parts]; cbn [forallb]; change (bytes (String d ?x)) with (d :: bytes x); cbn [forallb].
    + intros [[-> _]%andb_true_iff _]%andb_true_iff. by apply IH.
    + intros [[-> Hp]%andb_true_iff Hps]%andb_true_iff. apply IH. cbn. by rewrite Hp.
Qed.

Definition text_byte (c : ascii) : bool := identifier_byte c || ascii_eqb c ".".
Lemma identifiers_bytes s : identifiers_valid s = true → forallb text_byte (bytes s) = true ∧ str_is_empty s = false.
Proof.
  unfold identifiers_valid. intros [He Hs]%andb_true_iff. split; [|by destruct (str_is_empty s)].
  apply (forallb_split _ "."); [done|]. rewrite forallb_forall in Hs |- *. intros part Hp.
  apply Hs in Hp. unfold identifier_valid in Hp. apply andb_true_iff in Hp as [_ Hp]. rewrite forallb_forall in Hp |- *.
  intros c Hc. unfold text_byte. by rewrite (Hp c Hc).
Qed.
Lemma identifiers_without s c : identifiers_valid s = true → text_byte c = false → str_contains c s = false.
Proof. intros Hs Hc. apply (class_without text_byte); [by apply identifiers_bytes|done]. Qed.

(** ** Numbers *)

Lemma parse_i_dec n : 0 <= n <= i_max 64 → parse_i 64 (dec n) = Ok n.
Proof.
  intros Hn. unfold dec. rewrite (proj2 (Z.ltb_ge _ _)) by lia. unfold dec_nat, parse_i.
  destruct (dec_aux_head (S (Z.to_nat (Z.log2 n))) n "") as (d & s & Hd & E); [lia|done|].
  destruct (dec_digit_not_sign d Hd) as [E1 E2]. unfold parse_int. rewrite E, E1, E2, <-E.
  rewrite parse_digits_dec_aux; [done|done|apply dec_fuel; lia|done].
Qed.

Lemma parse_digits_range lo hi acc s n : 0 <= acc <= hi → parse_digits false lo hi acc s = Ok n → 0 <= n <= hi.
Proof.
  revert acc. induction s as [|c s IH]; intros acc Ha; cbn; [by intros [= <-]|].
  destruct (digit_val c) as [d|] eqn:Hd; [|done]. destruct (Z.ltb_spec hi (acc * 10 + d)); [done|].
  apply IH. unfold digit_val, is_ascii_digit in Hd. destruct (_ && _) eqn:E; [|done]. injection Hd as <-.
  apply andb_true_iff in E as [?%Z.leb_le _]. lia.
Qed.

Lemma digit_not_sign c : is_ascii_digit c = true → ascii_eqb c "+" = false ∧ ascii_eqb c "-" = false.
Proof. destruct c as [[] [] [] [] [] [] [] []]; vm_compute; done. Qed.

Lemma parse_i_range s n : all_digits s = true → parse_i 64 s = Ok n → 0 <= n <= i_max 64.
Proof.
  unfold parse_i, parse_int. destruct s as [|c s]; [done|]. unfold all_digits. cbn. intros [Hc _]%andb_true_iff.
  destruct (digit_not_sign c Hc) as [-> ->]. intros E.
  apply (parse_digits_range (i_min 64) (i_max 64) 0 (String c s)); [vm_compute; done|exact E].
Qed.

(** A part with a byte that is not a digit is not a number. *)
Lemma parse_digits_alpha lo hi acc s : 0 <= acc → all_digits s = false →
  match parse_digits false lo hi acc s with Ok _ => False | _ => True end.
Proof.
  revert acc. induction s as [|c s IH]; intros acc Ha; unfold all_digits; cbn; [done|].
  unfold digit_val. destruct (is_ascii_digit c) eqn:Hc; cbn; [|done]. intros Hs.
  destruct (_ <? _); [done|]. apply IH; [|done]. unfold is_ascii_digit in Hc. apply andb_true_iff in Hc as [?%Z.leb_le _]. lia.
Qed.
Lemma parse_u_alpha s : identifier_valid s = true → all_digits s = false →
  match parse_u 64 s with Ok _ => False | _ => True end.
Proof.
  unfold identifier_valid, parse_u, parse_int. destruct s as [|c s]; [done|]. cbn. intros [Hc _]%andb_true_iff Ha.
  destruct (ascii_eqb c "+") eqn:E; [apply Ascii.eqb_eq in E as ->; done|].
  destruct (ascii_eqb c "-"); [by destruct s|]. by apply (parse_digits_alpha 0 (u_max 64) 0 (String c s)).
Qed.

(** ** Precedence of Semantic Versioning *)

Inductive Identifier := Numeric (n : Z) | Alphanumeric (s : string).
Definition id_cmp (a b : Identifier) : comparison :=
  match a, b with
  | Numeric m, Numeric n => m ?= n
  | Numeric _, Alphanumeric _ => Lt
  | Alphanumeric _, Numeric _ => Gt
  | Alphanumeric s, Alphanumeric t => str_cmp s t
  end.
Fixpoint ids_cmp (l k : list Identifier) : comparison :=
  match l, k with
  | [], [] => Eq
  | [], _ :: _ => Lt
  | _ :: _, [] => Gt
  | a :: l, b :: k => then_cmp (id_cmp a b) (ids_cmp l k)
  end.
(** A version without a prerelease comes after those with one. *)
Definition prerelease_cmp (l k : list Identifier) : comparison :=
  match l, k with [], [] => Eq | [], _ => Gt | _, [] => Lt | _, _ => ids_cmp l k end.
Definition precedence (a b : Z * Z * Z * list Identifier) : comparison :=
  then_cmp (core_cmp a.1 b.1) (prerelease_cmp a.2 b.2).

Lemma id_cmp_order : CmpOrder id_cmp.
Proof.
  destruct (cmp_order_Z (fun z : Z => z)) as [S L E]. destruct (cmp_order_str (fun s : string => s)) as [S' L' E'].
  split; [intros [m|s] [n|t]; cbn; auto|..]; intros [m|s] [n|t] [k|u]; cbn; try done; [apply L|apply L'|apply E|apply E'].
Qed.
Lemma id_cmp_eq a b : id_cmp a b = Eq ↔ a = b.
Proof.
  destruct a as [m|s], b as [n|t]; cbn; try (split; [done|by intros [=]]).
  - rewrite Z.compare_eq_iff. naive_solver.
  - unfold str_cmp. split; [by intros ->%String.compare_eq_iff|intros [= ->]].
    pose proof (String.compare_antisym t t) as E. by destruct (String.compare t t).
Qed.
Lemma ids_cmp_order : CmpOrder ids_cmp.
Proof.
  destruct id_cmp_order as [S L E]. split.
  - induction x as [|a x IH]; intros [|b y]; cbn; [done..|]. rewrite IH, S. by destruct (id_cmp a b), (ids_cmp x y).
  - induction x as [|a x IH]; intros [|b y] [|c z]; cbn; try done. destruct (id_cmp a b) eqn:Eab; cbn; [|intros _|done].
    + rewrite (E _ _ c Eab). destruct (id_cmp b c); cbn; [apply IH|done..].
    + destruct (id_cmp b c) eqn:Ebc; cbn; [|by rewrite (L _ _ _ Eab Ebc)|done].
      apply id_cmp_eq in Ebc as <-. by rewrite Eab.
  - induction x as [|a x IH]; intros [|b y] [|c z]; cbn; try done.
    destruct (id_cmp a b) eqn:Eab; cbn; [|done..]. rewrite (E _ _ c Eab). intros Hxy. by rewrite (IH y z Hxy).
Qed.
Lemma ids_cmp_eq l k : ids_cmp l k = Eq ↔ l = k.
Proof.
  revert k. induction l as [|a l IH]; intros [|b k]; cbn; try done. destruct (id_cmp a b) eqn:E; cbn.
  - apply id_cmp_eq in E as ->. rewrite IH. naive_solver.
  - split; [done|]. intros [= -> _]. by rewrite (proj2 (id_cmp_eq b b) eq_refl) in E.
  - split; [done|]. intros [= -> _]. by rewrite (proj2 (id_cmp_eq b b) eq_refl) in E.
Qed.

Lemma prerelease_cmp_order : CmpOrder prerelease_cmp.
Proof.
  destruct ids_cmp_order as [S L E]. split.
  - intros [|a x] [|b y]; [done..|]. apply S.
  - intros [|a x] [|b y] [|c z]; try done. apply (L (a :: x) (b :: y) (c :: z)).
  - intros [|a x] [|b y] [|c z]; try done. apply (E (a :: x) (b :: y) (c :: z)).
Qed.
Lemma precedence_order : CmpOrder precedence.
Proof.
  apply cmp_order_then.
  - apply (cmp_order_then _ _ (cmp_order_Z (fun a : Z * Z * Z * list Identifier => a.1.1.1))).
    apply (cmp_order_then _ _ (cmp_order_Z (fun a : Z * Z * Z * list Identifier => a.1.1.2)) (cmp_order_Z (fun a => a.1.2))).
  - destruct prerelease_cmp_order as [S L E]. split; intros x y; [apply S|intros z; apply L|intros z; apply E].
Qed.
Lemma precedence_eq a b : precedence a b = Eq ↔ a = b.
Proof.
  destruct a as [[[a1 a2] a3] l], b as [[[b1 b2] b3] k]. unfold precedence, core_cmp. cbn. split.
  - intros H. destruct (Z.compare_spec a1 b1), (Z.compare_spec a2 b2), (Z.compare_spec a3 b3); cbn in H; try done. subst.
    f_equal. destruct l, k; try done. by apply ids_cmp_eq in H.
  - intros [= -> -> -> ->]. rewrite !Z.compare_refl. cbn. destruct k; [done|]. by apply ids_cmp_eq.
Qed.

(** A part that is an identifier: a number of 64 bits without leading zeros, or a part
    that is not a number. *)
Definition denotes (part : string) (id : Identifier) : Prop :=
  match id with
  | Numeric n => part = dec n ∧ 0 <= n <= u_max 64
  | Alphanumeric s => part = s ∧ identifier_valid s = true ∧ all_digits s = false
  end.
Definition has_precedence `{SemverLib} (v : ProtocolVersion) (p : Z * Z * Z * list Identifier) : Prop :=
  semver_core (pv_semantic v) = p.1 ∧
  if str_is_empty (pv_prerelease v) then p.2 = [] else Forall2 denotes (str_split "." (pv_prerelease v)) p.2.

Lemma compare_part_denotes l r a b : denotes l a → denotes r b → l ≠ r → compare_part l r = id_cmp a b ∧ id_cmp a b ≠ Eq.
Proof.
  intros Ha Hb Hne. assert (id_cmp a b ≠ Eq) as Hcmp.
  { intros <-%id_cmp_eq. apply Hne. destruct a; cbn in *; intuition congruence. }
  split; [|done]. unfold compare_part. destruct a as [m|s], b as [n|t]; cbn in Ha, Hb |- *.
  - destruct Ha as [-> Hm], Hb as [-> Hn]. rewrite !parse_u_dec by done. cbn in Hcmp.
    destruct (Z.ltb_spec n m), (Z.compare_spec m n); done || lia.
  - destruct Ha as [-> Hm], Hb as (-> & Ht & Hd). rewrite parse_u_dec by done. pose proof (parse_u_alpha t Ht Hd).
    by destruct (parse_u 64 t).
  - destruct Ha as (-> & Hs & Hd), Hb as [-> Hn]. rewrite parse_u_dec by done. pose proof (parse_u_alpha s Hs Hd).
    by destruct (parse_u 64 s).
  - destruct Ha as (-> & Hs & Hd), Hb as (-> & Ht & He). pose proof (parse_u_alpha s Hs Hd). pose proof (parse_u_alpha t Ht He).
    by destruct (parse_u 64 s), (parse_u 64 t).
Qed.

Lemma denotes_unique l a b : denotes l a → denotes l b → a = b.
Proof.
  destruct a as [m|s], b as [n|t]; cbn.
  - intros [-> Hm] [E Hn]. apply (f_equal (parse_u 64)) in E. rewrite !parse_u_dec in E by done. naive_solver.
  - intros [-> Hm] (<- & _ & Hd). rewrite all_digits_dec in Hd by lia. done.
  - intros (-> & _ & Hd) [-> Hn]. rewrite all_digits_dec in Hd by lia. done.
  - intros (-> & _) (-> & _). done.
Qed.

Lemma compare_parts_denotes ls rs l r : Forall2 denotes ls l → Forall2 denotes rs r → compare_parts ls rs = ids_cmp l r.
Proof.
  intros Hl. revert rs r. induction Hl as [|x a ls l Ha _ IH]; intros rs r Hr; destruct Hr as [|y b rs r Hb Hr]; try done.
  cbn. destruct (String.eqb_spec x y) as [->|Hne].
  - rewrite (denotes_unique _ _ _ Ha Hb), (proj2 (id_cmp_eq b b) eq_refl). by apply IH.
  - destruct (compare_part_denotes x y a b Ha Hb Hne) as [-> Hc]. by destruct (id_cmp a b).
Qed.

Lemma str_split_cons c s : ∃ part parts, str_split c s = part :: parts.
Proof.
  induction s as [|d s (part & parts & E)]; [by eexists _, _|]. cbn. rewrite E. destruct (ascii_eqb c d); by eexists _, _.
Qed.
Lemma denotes_cons s l : Forall2 denotes (str_split "." s) l → ∃ a k, l = a :: k.
Proof. destruct (str_split_cons "." s) as (part & parts & ->). intros H. inversion H. by eexists _, _. Qed.

Lemma less_than_precedence `{SemverLib} v w p q : has_precedence v p → has_precedence w q →
  less_than v w = match precedence p q with Lt => true | _ => false end.
Proof.
  intros [Hc Hp] [Hd Hq]. unfold less_than, precedence. rewrite Hc, Hd. destruct (core_cmp p.1 q.1); cbn; [|done..].
  unfold compare_prerelease. destruct (str_is_empty (pv_prerelease v)), (str_is_empty (pv_prerelease w)); cbn.
  - by rewrite Hp, Hq.
  - apply denotes_cons in Hq as (a & k & ->). by rewrite Hp.
  - apply denotes_cons in Hp as (a & k & ->). by rewrite Hq.
  - rewrite (compare_parts_denotes _ _ _ _ Hp Hq). apply denotes_cons in Hp as (a & k & ->). by apply denotes_cons in Hq as (b & m & ->).
Qed.

(** ** Reading a version *)

Section parse.
Context `{SemverLib}.

Definition valid_prerelease (prerelease : string) : Prop := prerelease = "" ∨ identifiers_valid prerelease = true.
Definition valid_build (build : option string) : Prop := ∀ text, build = Some text → identifiers_valid text = true.
Definition normalized (prerelease : string) : string :=
  if str_is_empty prerelease then "" else str_join "." (map normalize_identifier (str_split "." prerelease)).

(** What a version that was read consists of. *)
Record reads (major minor patch : Z) (prerelease : string) (build : option string) (v : ProtocolVersion) : Prop := {
  reads_major : 0 <= major <= i_max 64;
  reads_minor : 0 <= minor <= i_max 64;
  reads_patch : 0 <= patch <= i_max 64;
  reads_prerelease : valid_prerelease prerelease;
  reads_build : valid_build build;
  reads_semver : semver_parse (version_text major minor patch (normalized prerelease) build) = Some (pv_semantic v);
  reads_wire : pv_wire v = version_text major minor patch prerelease build;
  reads_pre : pv_prerelease v = prerelease
}.

Lemma core_numbers_range parts numbers : core_numbers parts = Some numbers → Forall (fun n => 0 <= n <= i_max 64) numbers.
Proof.
  revert numbers. induction parts as [|part parts IH]; intros numbers; cbn; [by intros [= <-]|].
  destruct (str_is_empty part || negb (all_digits part)) eqn:E; [done|].
  apply orb_false_iff in E as [_ Hd%negb_false_iff]. destruct (parse_i 64 part) as [n| |] eqn:Hn; [|done..].
  destruct (core_numbers parts) as [l|]; [|done]. cbn. intros [= <-]. constructor; [by eapply parse_i_range|by apply IH].
Qed.

Lemma numbers_range numbers i : Forall (fun n => 0 <= n <= i_max 64) numbers → 0 <= default 0 (numbers !! i) <= i_max 64.
Proof.
  intros Hn. destruct (numbers !! i) as [n|] eqn:E; cbn; [by eapply Forall_lookup in Hn|]. vm_compute. done.
Qed.

Lemma version_parse_reads s v : version_parse s = Some v → ∃ a b c prerelease build, reads a b c prerelease build v.
Proof.
  unfold version_parse. destruct (split_build s) as [[rest build]|] eqn:Hb; [|done]. cbn [mbind option_bind].
  destruct (split_prerelease rest) as [[core prerelease]|] eqn:Hp; [|done]. cbn [mbind option_bind].
  destruct (_ || _); [done|]. destruct (negb _); [done|].
  destruct (core_numbers _) as [numbers|] eqn:Hn; [|done]. cbn [mbind option_bind].
  destruct (semver_parse _) as [sem|] eqn:Hs; [|done]. cbn [mbind option_bind]. intros [= <-].
  apply core_numbers_range in Hn.
  exists (default 0 (numbers !! 0%nat)), (default 0 (numbers !! 1%nat)), (default 0 (numbers !! 2%nat)), prerelease, build.
  split; try done; try by apply numbers_range.
  - unfold split_prerelease in Hp. destruct (split_once "-" rest) as [[x y]|]; [|by left; naive_solver].
    destruct (identifiers_valid y) eqn:E; [|done]. right. naive_solver.
  - intros text ->. unfold split_build in Hb. destruct (split_once "+" s) as [[x y]|]; [|done].
    destruct (negb _ && identifiers_valid y) eqn:E; [|done]. apply andb_true_iff in E as [_ E]. naive_solver.
Qed.

Lemma split_build_text front build : str_contains "+" front = false → valid_build build →
  split_build (front +:+ match build with Some text => "+" +:+ text | None => "" end) = Some (front, build).
Proof.
  intros Hf Hb. unfold split_build. destruct build as [text|].
  - change (front +:+ "+" +:+ text) with (front +:+ String "+" text). rewrite split_once_app by done.
    by rewrite (Hb text eq_refl), (identifiers_without text "+" (Hb text eq_refl) eq_refl).
  - by rewrite str_app_nil, split_once_none.
Qed.
Lemma split_prerelease_text core prerelease : str_contains "-" core = false → valid_prerelease prerelease →
  split_prerelease (core +:+ (if str_is_empty prerelease then "" else "-" +:+ prerelease)) = Some (core, prerelease).
Proof.
  intros Hc [->|Hp]; unfold split_prerelease.
  - cbn [str_is_empty]. by rewrite str_app_nil, split_once_none.
  - destruct (identifiers_bytes _ Hp) as [_ ->]. change (core +:+ "-" +:+ prerelease) with (core +:+ String "-" prerelease).
    by rewrite split_once_app, Hp.
Qed.

Lemma core_numbers_dec l : Forall (fun n => 0 <= n <= i_max 64) l → core_numbers (map dec l) = Some l.
Proof.
  induction 1 as [|n l Hn _ IH]; [done|]. cbn. rewrite dec_not_empty, all_digits_dec by lia. cbn.
  by rewrite parse_i_dec, IH.
Qed.

Definition core_text (a b c : Z) : string := dec a +:+ String "." (dec b +:+ String "." (dec c)).
Lemma core_split a b c : 0 <= a → 0 <= b → 0 <= c → str_split "." (core_text a b c) = [dec a; dec b; dec c].
Proof.
  intros. unfold core_text. rewrite !str_split_app by (by apply dec_without).
  by rewrite str_split_plain by (by apply dec_without).
Qed.
Lemma core_without a b c x : 0 <= a → 0 <= b → 0 <= c → is_ascii_digit x = false → ascii_eqb x "." = false →
  str_contains x (core_text a b c) = false.
Proof.
  intros. unfold core_text. rewrite !str_contains_app, dec_without by done. cbn [str_contains orb].
  rewrite H4, str_contains_app, dec_without by done. cbn [str_contains orb]. by rewrite H4, dec_without.
Qed.
Lemma dec_head n : 0 <= n → ∃ x s, dec n = String x s ∧ is_ascii_digit x = true.
Proof.
  intros Hn. pose proof (dec_not_empty n Hn) as He. pose proof (all_digits_dec n Hn) as Hd.
  destruct (dec n) as [|x s]; [done|]. exists x, s. split; [done|]. unfold all_digits in Hd. cbn in Hd. by apply andb_true_iff in Hd as [? _].
Qed.

Lemma version_text_parts a b c prerelease build : version_text a b c prerelease build =
  (core_text a b c +:+ (if str_is_empty prerelease then "" else "-" +:+ prerelease))
  +:+ match build with Some text => "+" +:+ text | None => "" end.
Proof.
  unfold version_text, core_text. change (String "." ?x) with ("." +:+ x). rewrite <-!str_app_assoc. done.
Qed.

(** Every text of a version is read. *)
Lemma version_parse_text a b c prerelease build semantic :
  0 <= a <= i_max 64 → 0 <= b <= i_max 64 → 0 <= c <= i_max 64 → valid_prerelease prerelease → valid_build build →
  semver_parse (version_text a b c (normalized prerelease) build) = Some semantic →
  version_parse (version_text a b c prerelease build)
  = Some (mk_ProtocolVersion semantic (version_text a b c prerelease build) prerelease).
Proof.
  intros Ha Hb Hc Hp Hbuild Hs. unfold version_parse. rewrite (version_text_parts a b c prerelease build) at 1.
  rewrite split_build_text; [|rewrite str_contains_app, core_without by (lia || done)|done].
  2: { destruct Hp as [->|Hp]; [done|]. destruct (identifiers_bytes _ Hp) as [_ ->]. rewrite str_contains_app.
       by rewrite (identifiers_without prerelease "+" Hp). }
  cbn [mbind option_bind]. rewrite split_prerelease_text; [|apply core_without; lia || done|done]. cbn [mbind option_bind].
  destruct (dec_head a ltac:(lia)) as (x & s & Ex & Hx).
  assert (strip_prefix "v" (core_text a b c) = None ∧ str_is_empty (core_text a b c) = false ∧
          starts_with "V" (core_text a b c) = false) as (Hv & He & HV).
  { unfold core_text. rewrite Ex. clear Ex. unfold starts_with. cbn.
    destruct x as [[] [] [] [] [] [] [] []]; vm_compute in Hx; try done. }
  rewrite Hv. cbn [default]. rewrite He, HV. cbn [orb]. rewrite core_split by lia. cbn [length Nat.leb andb negb].
  change [dec a; dec b; dec c] with (map dec [a; b; c]). rewrite core_numbers_dec by (by rewrite !Forall_cons, Forall_nil).
  cbn [mbind option_bind lookup list_lookup default]. fold (normalized prerelease). unfold id. by rewrite Hs.
Qed.

(** The numeric identifiers of a normalised prerelease have no leading zeros. *)
Lemma trim_zeros_again s : trim_zeros (trim_zeros s) = trim_zeros s.
Proof. induction s as [|c s IH]; [done|]. cbn. destruct (ascii_eqb c "0") eqn:E; [done|]. cbn. by rewrite E. Qed.
Lemma trim_zeros_digits s : all_digits s = true → all_digits (trim_zeros s) = true.
Proof.
  induction s as [|c s IH]; [done|]. unfold all_digits. cbn. destruct (ascii_eqb c "0"); [|done].
  intros [_ Hs]%andb_true_iff. by apply IH.
Qed.
Lemma normalize_identifier_again s : normalize_identifier (normalize_identifier s) = normalize_identifier s.
Proof.
  unfold normalize_identifier. destruct (all_digits s) eqn:Hd; [|by rewrite Hd].
  destruct (str_is_empty (trim_zeros s)) eqn:He; [done|]. by rewrite trim_zeros_digits, trim_zeros_again, He.
Qed.
Lemma trim_zeros_valid s : identifier_valid s = true → str_is_empty (trim_zeros s) = false → identifier_valid (trim_zeros s) = true.
Proof.
  unfold identifier_valid. intros [_ Hs]%andb_true_iff ->. cbn [negb andb].
  induction s as [|c s IH]; [done|]. cbn in *. destruct (ascii_eqb c "0"); [|done]. apply andb_true_iff in Hs as [_ Hs]. by apply IH.
Qed.
Lemma normalize_identifier_valid s : identifier_valid s = true → identifier_valid (normalize_identifier s) = true.
Proof.
  intros Hs. unfold normalize_identifier. destruct (all_digits s); [|done].
  destruct (str_is_empty (trim_zeros s)) eqn:He; [done|by apply trim_zeros_valid].
Qed.

Lemma normalized_valid prerelease : valid_prerelease prerelease →
  normalized prerelease = "" ∨ identifiers_valid (normalized prerelease) = true ∧
    Forall (fun part => normalize_identifier part = part) (str_split "." (normalized prerelease)).
Proof.
  intros [->|Hp]; [by left|]. right. unfold normalized. destruct (identifiers_bytes _ Hp) as [_ ->].
  unfold identifiers_valid in Hp. apply andb_true_iff in Hp as [_ Hp]. rewrite forallb_forall in Hp.
  destruct (str_split_cons "." prerelease) as (part & parts & E).
  assert (Forall (fun s => identifier_valid s = true) (map normalize_identifier (str_split "." prerelease))) as Hv.
  { apply Forall_fmap. apply Forall_forall. intros s Hs%list_elem_of_In. by apply normalize_identifier_valid, Hp. }
  assert (str_split "." (str_join "." (map normalize_identifier (str_split "." prerelease)))
          = map normalize_identifier (str_split "." prerelease)) as Hsplit.
  { apply str_split_join; [by rewrite E|]. eapply Forall_impl; [exact Hv|]. cbn. intros s Hs.
    unfold identifier_valid in Hs. apply andb_true_iff in Hs as [_ Hs]. by apply (class_without identifier_byte). }
  rewrite Hsplit. split.
  - unfold identifiers_valid. rewrite Hsplit. apply andb_true_iff. split.
    + destruct (str_join _ _) as [|c s] eqn:Ej; [|done]. rewrite E in Ej, Hv. cbn in Ej.
      inversion Hv as [|x l Hx _]; subst. destruct (normalize_identifier part), (map normalize_identifier parts); done.
    + rewrite forallb_forall. intros s Hs%list_elem_of_In. by eapply Forall_forall in Hv.
  - apply Forall_fmap, Forall_forall. intros s _. apply normalize_identifier_again.
Qed.

(** Every text of a version is read as the version. *)
Lemma version_parse_total a b c prerelease build :
  0 <= a <= i_max 64 → 0 <= b <= i_max 64 → 0 <= c <= i_max 64 → valid_prerelease prerelease → valid_build build →
  ∃ v, version_parse (version_text a b c prerelease build) = Some v ∧ semver_core (pv_semantic v) = (a, b, c) ∧
       pv_wire v = version_text a b c prerelease build ∧ pv_prerelease v = prerelease.
Proof.
  intros Ha Hb Hc Hp Hbuild. assert (i_max 64 <= u_max 64) by (vm_compute; done).
  destruct (semver_reads a b c (normalized prerelease) build) as (sem & Hs & Hcore); [lia..|by apply normalized_valid|done|].
  eexists. split; [by apply (version_parse_text a b c prerelease build sem)|done].
Qed.

Lemma version_parse_again s v : version_parse s = Some v → version_parse (pv_wire v) = Some v.
Proof.
  intros (a & b & c & prerelease & build & [Ha Hb Hc Hp Hbuild Hs Hw Hpre])%version_parse_reads. rewrite Hw.
  rewrite (version_parse_text a b c prerelease build (pv_semantic v)) by done. rewrite <-Hw, <-Hpre. by destruct v.
Qed.
End parse.
