(* ===== verification/GrpcVersionTheorems.v ===== *)
(** * Versions: what the policy promises *)

From S2P Require Import Prelude RustStr Port Config NetAddr PbAddr Machine Cluster ProxyMap GrpcVersion GrpcVersionProps.

Local Open Scope Z_scope.

(** Metadata values: visible ASCII is carried as it is. *)
Definition visible (c : ascii) : bool := (32 <=? byte_val c) && (byte_val c <? 127).
Class VisibleMetadata `{MetadataLib} : Prop := {
  visible_try_from s : forallb visible (bytes s) = true → value_try_from s = Some s;
  visible_to_str s : forallb visible (bytes s) = true → value_to_str s = Some s
}.

Section policy.
Context `{SemverLib, VisibleMetadata}.

Lemma text_byte_visible c : text_byte c = true → visible c = true.
Proof. destruct c as [[] [] [] [] [] [] [] []]; vm_compute; done. Qed.
Lemma digit_visible c : is_ascii_digit c = true → visible c = true.
Proof. destruct c as [[] [] [] [] [] [] [] []]; vm_compute; done. Qed.

Lemma forallb_visible (p : ascii → bool) s : (∀ c, p c = true → visible c = true) →
  forallb p (bytes s) = true → forallb visible (bytes s) = true.
Proof. intros Hp. rewrite !forallb_forall. auto. Qed.
Lemma dec_visible n : 0 <= n → forallb visible (bytes (dec n)) = true.
Proof. intros Hn. apply (forallb_visible is_ascii_digit); [apply digit_visible|by apply all_digits_dec]. Qed.
Lemma identifiers_visible s : identifiers_valid s = true → forallb visible (bytes s) = true.
Proof. intros Hs. apply (forallb_visible text_byte); [apply text_byte_visible|by apply identifiers_bytes]. Qed.

Lemma wire_visible s v : version_parse s = Some v → forallb visible (bytes (pv_wire v)) = true.
Proof.
  intros (a & b & c & prerelease & build & [Ha Hb Hc Hp Hbuild _ Hw _])%version_parse_reads. rewrite Hw.
  unfold version_text. rewrite !bytes_app, !forallb_app, !dec_visible by lia. cbn [andb].
  do 2 (apply andb_true_iff; split; [done|]). apply andb_true_iff. split.
  - destruct Hp as [->|Hp]; [done|]. destruct (identifiers_bytes _ Hp) as [_ ->]. rewrite bytes_app, forallb_app.
    by rewrite (identifiers_visible _ Hp).
  - destruct build as [text|]; [|done]. rewrite bytes_app, forallb_app. by rewrite (identifiers_visible _ (Hbuild _ eq_refl)).
Qed.

(** The version of a text, or zero. *)
Lemma version_zero_Ok : ∃ v, version_zero = Ok v ∧ version_parse "0.0.0" = Some v ∧ semver_core (pv_semantic v) = (0, 0, 0) ∧ pv_prerelease v = "".
Proof.
  destruct (version_parse_total 0 0 0 "" None) as (v & E & Hc & _ & Hp); [by vm_compute..|by left|done|].
  exists v. change (version_text 0 0 0 "" None) with "0.0.0" in E. unfold version_zero. by rewrite E.
Qed.
Lemma minimum_Ok : ∃ v, version_parse "0.20.0" = Some v ∧ semver_core (pv_semantic v) = (0, 20, 0) ∧ pv_prerelease v = ""
                        ∧ pv_wire v = "0.20.0".
Proof.
  destruct (version_parse_total 0 20 0 "" None) as (v & E & Hc & Hw & Hp); [by vm_compute..|by left|done|].
  by exists v.
Qed.

Lemma parse_or_zero_Ok o : ∃ v s, parse_or_zero o = Ok v ∧ version_parse s = Some v ∧ (∀ v', o ≫= version_parse = Some v' → v = v').
Proof.
  unfold parse_or_zero. destruct o as [s|]; cbn; [destruct (version_parse s) as [v|] eqn:E|].
  - exists v, s. naive_solver.
  - destruct version_zero_Ok as (v & Hv & Hp & _). exists v, "0.0.0". naive_solver.
  - destruct version_zero_Ok as (v & Hv & Hp & _). exists v, "0.0.0". naive_solver.
Qed.

(** A policy always exists, and carries the text of its version. *)
Lemma policy_new_Ok s : ∃ current minimum t,
  policy_new s = Ok (mk_VersionPolicy current (pv_wire current) (pv_wire current) minimum minimum) ∧
  parse_or_zero (Some s) = Ok current ∧ version_parse t = Some current ∧ version_parse "0.20.0" = Some minimum.
Proof.
  destruct (parse_or_zero_Ok (Some s)) as (v & t & Hv & Ht & _). destruct minimum_Ok as (m & Hm & _).
  exists v, m, t. split; [|done]. unfold policy_new. rewrite Hv. cbn [mbind result_bind].
  rewrite visible_try_from by (by eapply wire_visible). cbn [expect mbind result_bind].
  unfold MIN_CLIENT_VERSION, MIN_SERVER_VERSION. rewrite Hm. done.
Qed.

Lemma parse_or_zero_wire t v : version_parse t = Some v → parse_or_zero (Some (pv_wire v)) = Ok v.
Proof. intros Hv%version_parse_again. unfold parse_or_zero. cbn. by rewrite Hv. Qed.

(** ** Metadata *)

Lemma metadata_append_eq k v m : metadata_append k v m !! k = Some (default [] (m !! k) ++ [v]).
Proof. apply lookup_insert_eq. Qed.
Lemma metadata_append_ne k k' v m : k ≠ k' → metadata_append k v m !! k' = m !! k'.
Proof. intros Hk. by apply lookup_insert_ne. Qed.

Lemma append_all k l m : foldl (fun m v => metadata_append k v m) m l !! k
  = match l with [] => m !! k | _ => Some (default [] (m !! k) ++ l) end.
Proof.
  revert m. induction l as [|v l IH]; intros m; [done|]. cbn. rewrite IH, metadata_append_eq. destruct l; [done|]. cbn. by rewrite <-app_assoc.
Qed.
Lemma append_all_ne k k' l m : k ≠ k' → foldl (fun m v => metadata_append k v m) m l !! k' = m !! k'.
Proof. intros Hk. revert m. induction l as [|v l IH]; intros m; [done|]. cbn. by rewrite IH, metadata_append_ne. Qed.

(** What the check makes of the client's own metadata. *)
Lemma validate_client vc vs m metadata tc : version_parse tc = Some vc → version_parse "0.20.0" = Some m →
  metadata !! METADATA_KEY_CLIENT_VERSION = None → metadata !! METADATA_KEY_MIN_SERVER_VERSION = None →
  validate_headers (mk_VersionPolicy vs (pv_wire vs) (pv_wire vs) m m)
    (client_call (mk_VersionPolicy vc (pv_wire vc) (pv_wire vc) m m) metadata) =
  if less_than vc m
  then Err (grpc_status CodeFailedPrecondition
              ("version check failed: client version is below minimum " +:+ pv_wire m +:+ ". Please upgrade: " +:+ RELEASE_URL))
  else if less_than vs m
  then Err (grpc_status CodeFailedPrecondition
              ("version check failed: daemon version " +:+ pv_wire vs +:+ " is below client's minimum required version "
               +:+ pv_wire m +:+ ". Please upgrade the daemon: " +:+ RELEASE_URL))
  else Ok ().
Proof.
  intros Pc Pm Hc Hs. unfold validate_headers, client_call, append_client_metadata, metadata_get.
  rewrite metadata_append_ne, !metadata_append_eq by done. rewrite metadata_append_ne by done. rewrite Hc, Hs. cbn [default app head mbind option_bind vp_current_metadata].
  rewrite visible_to_str by (by eapply wire_visible). rewrite (visible_to_str MIN_SERVER_VERSION) by done.
  unfold validate_values. rewrite (parse_or_zero_wire tc vc Pc). cbn [mbind result_bind vp_minimum_client].
  destruct (less_than vc m); [done|]. unfold parse_or_zero, MIN_SERVER_VERSION. cbn [mbind option_bind]. rewrite Pm. done.
Qed.

Lemma prepend_exact self headers : prepend_server_header self headers !! METADATA_KEY_SERVER_VERSION
  = Some (vp_current_header self :: default [] (headers !! METADATA_KEY_SERVER_VERSION)).
Proof.
  unfold prepend_server_header. rewrite append_all, metadata_append_eq.
  replace (delete METADATA_KEY_SERVER_VERSION headers !! METADATA_KEY_SERVER_VERSION) with (@None (list string))
    by (symmetry; apply lookup_delete_eq).
  by destruct (default [] (headers !! METADATA_KEY_SERVER_VERSION)).
Qed.
Lemma prepend_other self headers k : k ≠ METADATA_KEY_SERVER_VERSION → prepend_server_header self headers !! k = headers !! k.
Proof. intros Hk. unfold prepend_server_header. rewrite append_all_ne, metadata_append_ne by done. by apply lookup_delete_ne. Qed.
End policy.

(** ** Concrete parameters *)

Definition cut_at (c : ascii) (s : string) : string := match split_once c s with Some (front, _) => front | None => s end.
Definition reference_semver_parse (s : string) : option (Z * Z * Z) :=
  match str_split "." (cut_at "-" (cut_at "+" s)) with
  | [a; b; c] =>
      match parse_u 64 a, parse_u 64 b, parse_u 64 c with
      | Ok a, Ok b, Ok c => Some (a, b, c)
      | _, _, _ => None
      end
  | _ => None
  end.

#[refine] Definition reference_semver : SemverLib :=
  {| Semver := Z * Z * Z; semver_parse := reference_semver_parse; semver_core v := v |}.
Proof.
  intros a b c prerelease build Ha Hb Hc Hp Hbuild. exists (a, b, c). split; [|done].
  assert (cut_at "-" (cut_at "+" (version_text a b c prerelease build)) = core_text a b c) as Hcut.
  { rewrite version_text_parts. unfold cut_at.
    assert (valid_prerelease prerelease) as Hv by (destruct Hp as [->|[Hp _]]; [by left|by right]).
    assert (str_contains "+" (core_text a b c +:+ (if str_is_empty prerelease then "" else "-" +:+ prerelease)) = false) as Hplus.
    { rewrite str_contains_app, core_without by (lia || done). destruct Hv as [->|Hv]; [done|].
      destruct (identifiers_bytes _ Hv) as [_ ->]. rewrite str_contains_app. by rewrite (identifiers_without prerelease "+" Hv). }
    destruct build as [text|].
    - change (?x +:+ "+" +:+ text) with (x +:+ String "+" text). rewrite split_once_app by done.
      destruct Hv as [->|Hv]; [cbn [str_is_empty]; by rewrite str_app_nil, split_once_none by (apply core_without; lia || done)|].
      destruct (identifiers_bytes _ Hv) as [_ ->]. change (?x +:+ "-" +:+ prerelease) with (x +:+ String "-" prerelease).
      by rewrite split_once_app by (apply core_without; lia || done).
    - rewrite str_app_nil, (split_once_none _ _ Hplus).
      destruct Hv as [->|Hv]; [cbn [str_is_empty]; by rewrite str_app_nil, split_once_none by (apply core_without; lia || done)|].
      destruct (identifiers_bytes _ Hv) as [_ ->]. change (?x +:+ "-" +:+ prerelease) with (x +:+ String "-" prerelease).
      by rewrite split_once_app by (apply core_without; lia || done). }
  unfold reference_semver_parse. rewrite Hcut, core_split by lia. by rewrite !parse_u_dec.
Defined.

Definition reference_metadata : MetadataLib :=
  {| value_to_str s := if forallb visible (bytes s) then Some s else None;
     value_try_from s := if forallb visible (bytes s) then Some s else None |}.
Lemma reference_visible : @VisibleMetadata reference_metadata.
Proof. split; intros s Hs; cbn; by rewrite Hs. Qed.

(** Warnings for responses one after another. *)
Definition warn_all `{SemverLib, MetadataLib} (self : VersionPolicy) (responses : list (MetadataMap * bool)) :
    result GrpcStatus (bool * list string) :=
  foldM (fun st r => '(warned, written, _) ← warn_once self r.1 r.2 st.1 st.2; Ok (warned, written)) (false, []) responses.

(** ** Claims *)

(** C33: versions whose prereleases have canonical numbers of 64 bits are ordered as
    Semantic Versioning defines: [less_than] is its precedence, a strict order in which
    two versions are neither less exactly when they agree in their core and prerelease. *)
Theorem less_than_semver `{SemverLib} (u v w : ProtocolVersion) (p q r : Z * Z * Z * list Identifier) :
  has_precedence u p → has_precedence v q → has_precedence w r →
  (less_than u v = true ↔ precedence p q = Lt) ∧
  ¬ (less_than u v = true ∧ less_than v u = true) ∧
  (less_than u v = true → less_than v w = true → less_than u w = true) ∧
  (less_than u v = false → less_than v u = false → p = q).
Proof.
  intros Hu Hv Hw. destruct precedence_order as [S L E].
  rewrite (less_than_precedence u v p q), (less_than_precedence v u q p), (less_than_precedence v w q r), (less_than_precedence u w p r) by done.
  rewrite (S p q). split_and!.
  - by destruct (precedence p q).
  - destruct (precedence p q); cbn; naive_solver.
  - destruct (precedence p q) eqn:Epq; [done| |done]. destruct (precedence q r) eqn:Eqr; [done| |done]. by rewrite (L p q r).
  - destruct (precedence p q) eqn:Epq; [|done..]. intros _ _. by apply precedence_eq.
Qed.

#[local] Existing Instance reference_semver.
Definition demo_version (core : Z * Z * Z) (prerelease : string) : ProtocolVersion := mk_ProtocolVersion core "" prerelease.
Lemma less_than_semver_witness :
  (less_than (demo_version (1, 0, 0) "alpha.2") (demo_version (1, 0, 0) "alpha.10") = true) ∧
  (less_than (demo_version (1, 0, 0) "alpha.2") (demo_version (1, 0, 0) "alpha.10") = true →
   less_than (demo_version (1, 0, 0) "alpha.10") (demo_version (1, 0, 0) "") = true →
   less_than (demo_version (1, 0, 0) "alpha.2") (demo_version (1, 0, 0) "") = true).
Proof.
  destruct (less_than_semver (demo_version (1, 0, 0) "alpha.2") (demo_version (1, 0, 0) "alpha.10") (demo_version (1, 0, 0) "")
              (1, 0, 0, [Alphanumeric "alpha"; Numeric 2]) (1, 0, 0, [Alphanumeric "alpha"; Numeric 10]) (1, 0, 0, [])) as (H1 & _ & H3 & _).
  - split; [done|]. constructor; [done|]. constructor; [by vm_compute|constructor].
  - split; [done|]. constructor; [done|]. constructor; [by vm_compute|constructor].
  - done.
  - split; [by apply H1|exact H3].
Defined.

(** a version is read back from its wire text, and the text of every version with
    numbers of 63 bits and valid identifiers is read. *)
Theorem version_round_trip `{SemverLib} :
  (∀ s v, version_parse s = Some v → version_parse (pv_wire v) = Some v) ∧
  (∀ a b c prerelease build, 0 <= a <= i_max 64 → 0 <= b <= i_max 64 → 0 <= c <= i_max 64 →
     valid_prerelease prerelease → valid_build build →
     ∃ v, version_parse (version_text a b c prerelease build) = Some v ∧ semver_core (pv_semantic v) = (a, b, c) ∧
          pv_wire v = version_text a b c prerelease build ∧ pv_prerelease v = prerelease).
Proof. split; [apply version_parse_again|apply version_parse_total]. Qed.

(** C32: a client and a server understand each other exactly when neither is older than
    0.20.0: for policies of any two versions, the metadata the client adds to a request
    without such metadata passes the server's check if and only if neither version is
    less than the minimum.  The answer then carries the server's version first. *)
Theorem version_handshake `{SemverLib, VisibleMetadata} (client server : string) (metadata : MetadataMap) (A : Type)
    (inner : MetadataMap → MetadataMap * A) :
  metadata !! METADATA_KEY_CLIENT_VERSION = None → metadata !! METADATA_KEY_MIN_SERVER_VERSION = None →
  ∃ c s minimum, policy_new client = Ok c ∧ policy_new server = Ok s ∧ version_parse "0.20.0" = Some minimum ∧
    let headers := client_call c metadata in
    (less_than (vp_current c) minimum = false ∧ less_than (vp_current s) minimum = false ∧
       ∃ response, server_call s inner headers = Ok (response, (inner headers).2) ∧
         response !! METADATA_KEY_SERVER_VERSION
           = Some (current_version s :: default [] ((inner headers).1 !! METADATA_KEY_SERVER_VERSION)) ∧
         ∀ k, k ≠ METADATA_KEY_SERVER_VERSION → response !! k = (inner headers).1 !! k) ∨
    ((less_than (vp_current c) minimum = true ∨ less_than (vp_current s) minimum = true) ∧
       ∃ status, server_call s inner headers = Err status ∧ gs_code status = CodeFailedPrecondition).
Proof.
  intros Hc Hs. destruct (policy_new_Ok client) as (vc & m & tc & Ec & _ & Pc & Pm).
  destruct (policy_new_Ok server) as (vs & m' & ts & Es & _ & Ps & Pm'). rewrite Pm in Pm'. injection Pm' as <-.
  eexists _, _, m. split_and!; [done..|]. cbn [vp_current].
  set (c := mk_VersionPolicy vc _ _ m m). set (s := mk_VersionPolicy vs _ _ m m). set (headers := client_call c metadata).
  unfold server_call. rewrite (validate_client vc vs m metadata tc Pc Pm Hc Hs : validate_headers s headers = _).
  destruct (less_than vc m) eqn:E1; [right; split; [by left|by eexists]|].
  destruct (less_than vs m) eqn:E2; [right; split; [by right|by eexists]|]. left. split_and!; [done..|].
  cbn [mbind result_bind]. destruct (inner headers) as [response body]. exists (prepend_server_header s response).
  split_and!; [done|apply prepend_exact|intros k Hk; by apply prepend_other].
Qed.

#[local] Existing Instance reference_metadata.
#[local] Existing Instance reference_visible.
Lemma version_handshake_witness :
  ∃ c s minimum, policy_new "1.2.3" = Ok c ∧ policy_new "0.19.0-nightly" = Ok s ∧ version_parse "0.20.0" = Some minimum ∧
    ((less_than (vp_current c) minimum = false ∧ less_than (vp_current s) minimum = false ∧
       ∃ response, server_call s (fun h => (h, tt)) (client_call c ∅) = Ok (response, tt) ∧
         response !! METADATA_KEY_SERVER_VERSION
           = Some (current_version s :: default [] (client_call c ∅ !! METADATA_KEY_SERVER_VERSION)) ∧
         ∀ k, k ≠ METADATA_KEY_SERVER_VERSION → response !! k = client_call c ∅ !! k) ∨
     ((less_than (vp_current c) minimum = true ∨ less_than (vp_current s) minimum = true) ∧
       ∃ status, server_call s (fun h => (h, tt)) (client_call c ∅) = Err status ∧ gs_code status = CodeFailedPrecondition)).
Proof. apply (version_handshake "1.2.3" "0.19.0-nightly" ∅ () (fun h => (h, tt))); reflexivity. Defined.

(** Whether the server of a response is too old. *)
Definition outdated `{SemverLib, MetadataLib} (self : VersionPolicy) (metadata : MetadataMap) : bool :=
  match parse_or_zero (metadata_get METADATA_KEY_SERVER_VERSION metadata ≫= value_to_str) with
  | Ok server => less_than server (vp_minimum_server self)
  | _ => false
  end.

Lemma warn_once_Ok `{SemverLib, MetadataLib} self metadata fails warned written :
  ∃ r written', warn_once self metadata fails warned written = Ok (warned || outdated self metadata, written', r) ∧
    (written' = written ∨ warned = false ∧ outdated self metadata = true ∧ fails = false ∧ ∃ text, written' = written ++ [text]) ∧
    (warned = false → outdated self metadata = true → fails = false → written' ≠ []).
Proof.
  unfold warn_once, warning_message, outdated.
  destruct (parse_or_zero_Ok (metadata_get METADATA_KEY_SERVER_VERSION metadata ≫= value_to_str)) as (v & s & -> & _).
  cbn [mbind result_bind]. destruct (less_than v (vp_minimum_server self)); [|eexists _, written; by rewrite orb_false_r; split_and!; [|left|]].
  destruct warned; [eexists _, written; by split_and!; [|left|]|].
  destruct fails; [eexists _, written; by split_and!; [|left|]|].
  eexists _, _. split_and!; [done| |by intros _ _ _ []%app_nil]. right. split_and!; [done..|]. by eexists.
Qed.

(** a process warns at most once, whatever it is told by however many servers, and
    if nothing keeps it from writing, it does so exactly when a server is older than the
    minimum; reading the versions never fails. *)
Theorem warns_at_most_once `{SemverLib, MetadataLib} (self : VersionPolicy) (responses : list (MetadataMap * bool)) :
  ∃ warned written, warn_all self responses = Ok (warned, written) ∧ (length written <= 1)%nat ∧
    (Forall (fun r => r.2 = false) responses → written ≠ [] ↔ ∃ r, r ∈ responses ∧ outdated self r.1 = true).
Proof.
  unfold warn_all.
  cut (∀ (responses : list (MetadataMap * bool)) (warned : bool) (written : list string), (length written <= (if warned then 1 else 0))%nat →
    ∃ warned' written',
      foldM (fun st r => '(warned, written, _) ← warn_once self r.1 r.2 st.1 st.2; Ok (warned, written)) (warned, written) responses
      = Ok (warned', written') ∧ (length written' <= 1)%nat ∧
      (Forall (fun r => r.2 = false) responses → (warned = true → written ≠ []) →
       written' ≠ [] ↔ warned = true ∨ ∃ r, r ∈ responses ∧ outdated self r.1 = true)).
  { intros Hc. destruct (Hc responses false []) as (a & b & E & Hl & Hw); [done|]. exists a, b. split_and!; [done..|].
    intros Hf. rewrite Hw by done. naive_solver. }
  clear responses. induction responses as [|[metadata fails] responses IH]; intros warned written Hlen; cbn [foldM].
  - exists warned, written. split_and!; [done|destruct warned; lia|]. intros _ Hw. split.
    + destruct warned; [by left|]. destruct written; [done|cbn in Hlen; lia].
    + intros [->|(r & []%not_elem_of_nil & _)]. by apply Hw.
  - cbn [fst snd]. destruct (warn_once_Ok self metadata fails warned written) as (r & written' & -> & Hcase & Hwrite).
    cbn [mbind result_bind].
    destruct (IH (warned || outdated self metadata) written') as (warned' & written'' & -> & Hl & Hiff).
    { destruct Hcase as [->|(-> & -> & _ & text & ->)]; [destruct warned, (outdated self metadata); cbn in *; lia|].
      rewrite length_app. cbn in *. lia. }
    exists warned', written''. split_and!; [done..|]. intros [Hf Hfs]%Forall_cons Hw. cbn in Hf. rewrite Hiff; [|done|].
    + setoid_rewrite elem_of_cons. destruct warned, (outdated self metadata) eqn:Ho; cbn; naive_solver.
    + destruct warned; cbn; [|intros Ho; by apply Hwrite]. intros _.
      destruct Hcase as [->|(? & _)]; [by apply Hw|done].
Qed.
