(* ===== verification/PdqSort.v ===== *)
(** * The sort of the metrics' Accept header

    encoding.rs of ployz-internal-machine-metrics carries a port of Go's pattern-defeating
    quicksort over a slice and its comparison.  The slice is a list that is updated by
    index: an index out of range and a subtraction below zero panic.  [Err] means that
    the fuel is used up, which bounds the turns of a loop. *)

From S2P Require Import Prelude.

(** The outcome of code on the slice. *)
Notation outcome := (result ()).

Definition out_of_fuel {A} : outcome A := Err ().

(** [usize] subtraction. *)
Definition sub (a b : nat) : outcome nat :=
  if (b <=? a)%nat then Ok (a - b)%nat else Panic "attempt to subtract with overflow".

(** [SortedHint]. *)
Inductive SortedHint : Set := Unknown | Increasing | Decreasing.
#[export] Instance SortedHint_eq_dec : EqDecision SortedHint.
Proof. solve_decision. Defined.

Section sort.
Context {T : Type} (precedes : T → T → bool).

(** [slice[i]], [slice.swap(i, j)], and the comparison of two places. *)
Definition index (l : list T) (i : nat) : outcome T :=
  match l !! i with Some x => Ok x | None => Panic "index out of bounds" end.
Definition swap (i j : nat) (l : list T) : outcome (list T) :=
  x ← index l i; y ← index l j; Ok (<[i := y]> (<[j := x]> l)).
Definition less (l : list T) (i j : nat) : outcome bool :=
  x ← index l i; y ← index l j; Ok (precedes x y).

(** The inner loop of [insertion_sort]. *)
Fixpoint sink (start cursor : nat) (l : list T) : outcome (list T) :=
  match cursor with
  | O => Ok l
  | S c =>
      if (start <? cursor)%nat
      then b ← less l cursor c; if b : bool then l ← swap cursor c l; sink start c l else Ok l
      else Ok l
  end.

(** [a..b]. *)
Definition range (a b : nat) : list nat := seq a (b - a).

(** [insertion_sort]. *)
Definition insertion_sort (start finish : nat) (l : list T) : outcome (list T) :=
  foldM (fun l i => sink start i l) l (range (start + 1) finish).

(** The loop of [sift_down], from a root. *)
Fixpoint sift (fuel root high first : nat) (l : list T) : outcome (list T) :=
  match fuel with
  | O => out_of_fuel
  | S fuel =>
      let child := (2 * root + 1)%nat in
      if (high <=? child)%nat then Ok l
      else
        child ← (if (child + 1 <? high)%nat
                 then b ← less l (first + child) (first + child + 1); Ok (if b : bool then child + 1 else child)%nat
                 else Ok child);
        b ← less l (first + root) (first + child);
        if b : bool then l ← swap (first + root) (first + child) l; sift fuel child high first l else Ok l
  end.
(** [sift_down]. *)
Definition sift_down (low high first : nat) (l : list T) : outcome (list T) := sift (S high) low high first l.

(** [heap_sort]. *)
Definition heap_sort (start finish : nat) (l : list T) : outcome (list T) :=
  high ← sub finish start;
  last ← sub high 1;
  l ← foldM (fun l i => sift_down i high start l) l (rev (range 0 (last / 2 + 1)));
  foldM (fun l i => l ← swap start (start + i) l; sift_down 0 i start l) l (rev (range 0 high)).

(** [while left <= right && p(left) { left += 1 }], and downwards for [right]. *)
Fixpoint scan_up (fuel : nat) (p : nat → outcome bool) (lo hi : nat) : outcome nat :=
  match fuel with
  | O => out_of_fuel
  | S fuel => if (lo <=? hi)%nat then b ← p lo; if b : bool then scan_up fuel p (lo + 1) hi else Ok lo else Ok lo
  end.
Fixpoint scan_down (fuel : nat) (p : nat → outcome bool) (lo hi : nat) : outcome nat :=
  match fuel with
  | O => out_of_fuel
  | S fuel =>
      if (lo <=? hi)%nat then b ← p hi; if b : bool then hi ← sub hi 1; scan_down fuel p lo hi else Ok hi else Ok hi
  end.

(** A turn of the loops of [partition] and [partition_equal]: the indices where both
    scans stop. *)
Definition scan (fuel : nat) (up down : list T → nat → outcome bool) (lo hi : nat) (l : list T) : outcome (nat * nat) :=
  lo ← scan_up fuel (up l) lo hi; hi ← scan_down fuel (down l) lo hi; Ok (lo, hi).
Fixpoint scan_swap (fuel : nat) (up down : list T → nat → outcome bool) (lo hi : nat) (l : list T) :
    outcome (nat * nat * list T) :=
  match fuel with
  | O => out_of_fuel
  | S fuel =>
      '(lo, hi) ← scan (S fuel) up down lo hi l;
      if (hi <? lo)%nat then Ok (lo, hi, l)
      else l ← swap lo hi l; hi ← sub hi 1; scan_swap fuel up down (lo + 1) hi l
  end.

(** [partition]. *)
Definition partition (start finish pivot : nat) (l : list T) : outcome (nat * bool * list T) :=
  l ← swap start pivot l;
  hi ← sub finish 1;
  let up l i := less l i start in
  let down l i := b ← less l i start; Ok (negb b) in
  '(lo, hi) ← scan (S (S finish)) up down (start + 1) hi l;
  if (hi <? lo)%nat then l ← swap hi start l; Ok (hi, true, l)
  else
    l ← swap lo hi l;
    hi ← sub hi 1;
    '(_, hi, l) ← scan_swap (S finish) up down (lo + 1) hi l;
    l ← swap hi start l;
    Ok (hi, false, l).

(** [partition_equal]. *)
Definition partition_equal (start finish pivot : nat) (l : list T) : outcome (nat * list T) :=
  l ← swap start pivot l;
  hi ← sub finish 1;
  let up l i := b ← less l start i; Ok (negb b) in
  let down l i := less l start i in
  '(lo, _, l) ← scan_swap (S finish) up down (start + 1) hi l;
  Ok (lo, l).

(** The loops of [partial_insertion_sort] that shift one element. *)
Fixpoint shift_down (cursor : nat) (l : list T) : outcome (list T) :=
  match cursor with
  | O => Ok l
  | S c => b ← less l cursor c; if b : bool then l ← swap cursor c l; shift_down c l else Ok l
  end.
Fixpoint shift_up (cursors : list nat) (l : list T) : outcome (list T) :=
  match cursors with
  | [] => Ok l
  | cursor :: cursors =>
      before ← sub cursor 1;
      b ← less l cursor before;
      if b : bool then l ← swap cursor before l; shift_up cursors l else Ok l
  end.
(** [while index < end && !precedes(index, index - 1) { index += 1 }]. *)
Fixpoint ascent (fuel i finish : nat) (l : list T) : outcome nat :=
  match fuel with
  | O => out_of_fuel
  | S fuel =>
      if (i <? finish)%nat
      then before ← sub i 1; b ← less l i before; if b : bool then Ok i else ascent fuel (i + 1) finish l
      else Ok i
  end.

(** The part of a turn of [partial_insertion_sort] that moves the two elements out of
    order. *)
Definition mend (start finish i : nat) (l : list T) : outcome (list T) :=
  before ← sub i 1;
  l ← swap i before l;
  behind ← sub i start;
  l ← (if (2 <=? behind)%nat then shift_down before l else Ok l);
  ahead ← sub finish i;
  if (2 <=? ahead)%nat then shift_up (range (i + 1) finish) l else Ok l.

(** The loop of [partial_insertion_sort]; [steps] turns are left. *)
Fixpoint partial_steps (steps i start finish : nat) (l : list T) : outcome (bool * list T) :=
  match steps with
  | O => Ok (false, l)
  | S steps =>
      i ← ascent (S finish) i finish l;
      if (i =? finish)%nat then Ok (true, l)
      else
        length ← sub finish start;
        if (length <? 50)%nat then Ok (false, l)
        else
          l ← mend start finish i l;
          partial_steps steps i start finish l
  end.
(** [partial_insertion_sort]. *)
Definition partial_insertion_sort (start finish : nat) (l : list T) : outcome (bool * list T) :=
  partial_steps 5 (start + 1) start finish l.

(** The bits of a number: [usize::BITS - leading_zeros]. *)
Definition bit_length (n : nat) : Z := if (n =? 0)%nat then 0%Z else (Z.log2 (Z.of_nat n) + 1)%Z.
(** A step of the generator of [break_patterns], on 64 bits. *)
Definition xorshift (random : Z) : Z :=
  (let random := Z.lxor random (Z.shiftl random 13 mod 2 ^ 64) in
   let random := Z.lxor random (Z.shiftr random 7) in
   Z.lxor random (Z.shiftl random 17 mod 2 ^ 64))%Z.
Fixpoint break_loop (indices : list nat) (random modulus : Z) (start length : nat) (l : list T) : outcome (list T) :=
  match indices with
  | [] => Ok l
  | i :: indices =>
      let random := xorshift random in
      let other := Z.to_nat (Z.land random (modulus - 1)) in
      let other := if (length <=? other)%nat then (other - length)%nat else other in
      l ← swap i (start + other) l;
      break_loop indices random modulus start length l
  end.
(** [break_patterns]. *)
Definition break_patterns (start finish : nat) (l : list T) : outcome (list T) :=
  length ← sub finish start;
  if (8 <=? length)%nat then
    let center := (start + (length / 4) * 2)%nat in
    first ← sub center 1;
    break_loop (range first (center + 2)) (Z.of_nat length) (Z.shiftl 1 (bit_length length)) start length l
  else Ok l.

(** [order_two], [median] and [median_adjacent], with the count of swaps. *)
Definition order_two (l : list T) (first second swaps : nat) : outcome (nat * nat * nat) :=
  b ← less l second first;
  Ok (if b : bool then (second, first, swaps + 1) else (first, second, swaps))%nat.
Definition median (l : list T) (first middle last swaps : nat) : outcome (nat * nat) :=
  '(first, middle, swaps) ← order_two l first middle swaps;
  '(middle, last, swaps) ← order_two l middle last swaps;
  '(_, middle, swaps) ← order_two l first middle swaps;
  Ok (middle, swaps).
Definition median_adjacent (l : list T) (i swaps : nat) : outcome (nat * nat) :=
  before ← sub i 1; median l before i (i + 1) swaps.

(** [choose_pivot]. *)
Definition choose_pivot (start finish : nat) (l : list T) : outcome (nat * SortedHint) :=
  length ← sub finish start;
  let first := (start + length / 4)%nat in
  let middle := (start + (length / 4) * 2)%nat in
  let last := (start + (length / 4) * 3)%nat in
  '(middle, swaps) ←
    (if (8 <=? length)%nat then
       '(first, middle, last, swaps) ←
         (if (50 <=? length)%nat then
            '(first, swaps) ← median_adjacent l first 0;
            '(middle, swaps) ← median_adjacent l middle swaps;
            '(last, swaps) ← median_adjacent l last swaps;
            Ok (first, middle, last, swaps)
          else Ok (first, middle, last, 0%nat));
       median l first middle last swaps
     else Ok (middle, 0%nat));
  Ok (middle, match swaps with 0%nat => Increasing | 12%nat => Decreasing | _ => Unknown end).

(** [reverse_range]. *)
Fixpoint reverse_loop (fuel lo hi : nat) (l : list T) : outcome (list T) :=
  match fuel with
  | O => out_of_fuel
  | S fuel =>
      if (lo <? hi)%nat then l ← swap lo hi l; hi ← sub hi 1; reverse_loop fuel (lo + 1) hi l else Ok l
  end.
Definition reverse_range (start finish : nat) (l : list T) : outcome (list T) :=
  hi ← sub finish 1; reverse_loop (S finish) start hi l.

(** The first half of a turn of [pdqsort]: the shuffle, the choice of the pivot and
    the reversal. *)
Definition prepare (start finish limit : nat) (was_balanced : bool) (l : list T) :
    outcome (list T * nat * nat * SortedHint) :=
  '(l, limit) ← (if was_balanced then Ok (l, limit)
                 else l ← break_patterns start finish l; limit ← sub limit 1; Ok (l, limit));
  '(pivot, hint) ← choose_pivot start finish l;
  '(l, pivot, hint) ←
    (if bool_decide (hint = Decreasing)
     then l ← reverse_range start finish l;
          last ← sub finish 1;
          behind ← sub pivot start;
          pivot ← sub last behind;
          Ok (l, pivot, Increasing)
     else Ok (l, pivot, hint));
  Ok (l, limit, pivot, hint).

(** [pdqsort]: a turn of its loop, and the calls it makes. *)
Fixpoint pdqsort_loop (fuel start finish limit : nat) (was_balanced was_partitioned : bool) (l : list T) : outcome (list T) :=
  match fuel with
  | O => out_of_fuel
  | S fuel =>
      length ← sub finish start;
      if (length <=? 12)%nat then insertion_sort start finish l
      else if (limit =? 0)%nat then heap_sort start finish l
      else
        '(l, limit, pivot, hint) ← prepare start finish limit was_balanced l;
        '(done, l) ← (if was_balanced && was_partitioned && bool_decide (hint = Increasing)
                      then partial_insertion_sort start finish l else Ok (false, l));
        if done : bool then Ok l
        else
          equal ← (if (0 <? start)%nat
                   then before ← sub start 1; b ← less l before pivot; Ok (negb b) else Ok false);
          if equal : bool then
            '(start, l) ← partition_equal start finish pivot l;
            pdqsort_loop fuel start finish limit was_balanced was_partitioned l
          else
            '(middle, already_partitioned, l) ← partition start finish pivot l;
            left_length ← sub middle start;
            right_length ← sub finish middle;
            let balance_threshold := (length / 8)%nat in
            if (left_length <? right_length)%nat then
              l ← pdqsort_loop fuel start middle limit true true l;
              pdqsort_loop fuel (middle + 1) finish limit (balance_threshold <=? left_length)%nat already_partitioned l
            else
              l ← pdqsort_loop fuel (middle + 1) finish limit true true l;
              pdqsort_loop fuel start middle limit (balance_threshold <=? right_length)%nat already_partitioned l
  end.
Definition pdqsort (start finish limit : nat) (l : list T) : outcome (list T) :=
  length ← sub finish start; pdqsort_loop (S length) start finish limit true true l.

(** [sort_accept_clauses]. *)
Definition sort_clauses (l : list T) : outcome (list T) :=
  if (1 <? length l)%nat then pdqsort 0 (length l) (Z.to_nat (bit_length (length l))) l else Ok l.
End sort.
