(* ===== verification/PdqSortProps.v ===== *)
(** * The sort: what each routine does to the slice

    [runs r Q]: the routine neither panics nor runs out of fuel, and its result satisfies
    [Q].  Every routine is shown to reorder the places it is given, for any comparison;
    what depends on the comparison being an order is stated under [ordered]. *)

From S2P Require Import Prelude.
From S2P Require Import PdqSort.

Notation runs r Q := (result_spec r Q (fun _ => False)).

(** The rules of [runs]. *)
Lemma runs_bind {A B} (r : outcome A) (k : A → outcome B) Q : runs r (fun a => runs (k a) Q) → runs (r ≫= k) Q.
Proof. by destruct r. Qed.
Lemma runs_mono {A} (r : outcome A) (Q Q' : A → Prop) : runs r Q → (∀ a, Q a → Q' a) → runs r Q'.
Proof. destruct r; naive_solver. Qed.
Lemma runs_ok {A} (r : outcome A) (Q : A → Prop) : runs r Q → ∃ a, r = Ok a ∧ Q a.
Proof. destruct r; naive_solver. Qed.
Lemma runs_sub a b (Q : nat → Prop) : (b ≤ a)%nat → Q (a - b)%nat → runs (sub a b) Q.
Proof. intros. unfold sub. rewrite (proj2 (Nat.leb_le _ _)) by lia. done. Qed.

Section routines.
Context {T : Type} (precedes : T → T → bool).
Implicit Types (l : list T) (i j k a b : nat) (P : T → Prop).

(** The comparison of two places of a list. *)
Definition below l i j : bool :=
  match l !! i, l !! j with Some x, Some y => precedes x y | _, _ => false end.
(** The list with two places exchanged, and where each place comes from. *)
Definition swapped i j l : list T :=
  match l !! i, l !! j with Some x, Some y => <[i := y]> (<[j := x]> l) | _, _ => l end.
Definition origin i j k : nat := if decide (k = i) then j else if decide (k = j) then i else k.

Lemma runs_less l i j (Q : bool → Prop) :
  (i < length l)%nat → (j < length l)%nat → Q (below l i j) → runs (less precedes l i j) Q.
Proof.
  intros Hi Hj HQ. unfold less, index, below in *.
  destruct (lookup_lt_is_Some_2 _ _ Hi) as [x Hx], (lookup_lt_is_Some_2 _ _ Hj) as [y Hy].
  rewrite Hx, Hy in HQ. rewrite Hx. simpl. by rewrite Hy.
Qed.

Lemma runs_swap l i j (Q : list T → Prop) :
  (i < length l)%nat → (j < length l)%nat → Q (swapped i j l) → runs (swap i j l) Q.
Proof.
  intros Hi Hj HQ. unfold swap, index, swapped in *.
  destruct (lookup_lt_is_Some_2 _ _ Hi) as [x Hx], (lookup_lt_is_Some_2 _ _ Hj) as [y Hy].
  rewrite Hx, Hy in HQ. rewrite Hx. simpl. by rewrite Hy.
Qed.

Lemma lookup_swapped l i j k :
  (i < length l)%nat → (j < length l)%nat → swapped i j l !! k = l !! origin i j k.
Proof.
  intros Hi Hj. unfold swapped, origin.
  destruct (lookup_lt_is_Some_2 _ _ Hi) as [x Hx], (lookup_lt_is_Some_2 _ _ Hj) as [y Hy].
  rewrite Hx, Hy. rewrite !list_lookup_insert. rewrite length_insert.
  repeat case_decide; subst; simplify_eq; try done; lia.
Qed.

Lemma swapped_perm l i j : swapped i j l ≡ₚ l.
Proof.
  unfold swapped. destruct (l !! i) as [x|] eqn:Hi, (l !! j) as [y|] eqn:Hj; [|done..].
  by apply Permutation_insert_swap.
Qed.

Lemma below_swapped l i j a b :
  (i < length l)%nat → (j < length l)%nat →
  below (swapped i j l) a b = below l (origin i j a) (origin i j b).
Proof. intros. unfold below. by rewrite !lookup_swapped. Qed.

(** The places [a .. b) all hold elements with [P]. *)
Definition all l a b P : Prop := ∀ i x, (a ≤ i < b)%nat → l !! i = Some x → P x.

(** [l'] is [l] with the places [a .. b) reordered. *)
Record reorders a b l l' : Prop := {
  reorders_perm : l' ≡ₚ l;
  reorders_outside : ∀ i, (i < a ∨ b ≤ i)%nat → l' !! i = l !! i;
  reorders_all : ∀ P, all l a b P → all l' a b P }.

#[export] Instance reorders_refl a b : Reflexive (reorders a b).
Proof. by intros l. Qed.
#[export] Instance reorders_trans a b : Transitive (reorders a b).
Proof.
  intros l1 l2 l3 [Hp Ho Ha] [Hp' Ho' Ha']. split.
  - by rewrite Hp', Hp.
  - intros i Hi. by rewrite Ho', Ho.
  - auto.
Qed.

Lemma reorders_length a b l l' : reorders a b l l' → length l' = length l.
Proof. intros H. apply Permutation_length, H. Qed.

Lemma reorders_mono a b a' b' l l' :
  (a' ≤ a)%nat → (b ≤ b')%nat → reorders a b l l' → reorders a' b' l l'.
Proof.
  intros Ha Hb H. split; [apply H|intros i Hi; apply H; lia|].
  intros P Hall i x Hi Hx. destruct (decide (a ≤ i < b)%nat) as [Hin|Hout].
  - refine (reorders_all _ _ _ _ H P _ i x Hin Hx). intros k y Hk. apply Hall. lia.
  - rewrite (reorders_outside _ _ _ _ H) in Hx by lia. by eapply Hall.
Qed.

Lemma swapped_reorders a b i j l :
  (a ≤ i < b)%nat → (a ≤ j < b)%nat → (b ≤ length l)%nat → reorders a b l (swapped i j l).
Proof.
  intros Hi Hj Hb. split; [apply swapped_perm|..].
  - intros k Hk. rewrite lookup_swapped by lia. unfold origin. repeat case_decide; lia || done.
  - intros P Hall k x Hk. rewrite lookup_swapped by lia. apply Hall. unfold origin. repeat case_decide; lia.
Qed.

(** Comparisons outside the reordered places. *)
Lemma below_outside a b l l' i j :
  reorders a b l l' → (i < a ∨ b ≤ i)%nat → (j < a ∨ b ≤ j)%nat → below l' i j = below l i j.
Proof. intros H Hi Hj. unfold below. by rewrite !(reorders_outside _ _ _ _ H). Qed.

(** The comparison is a strict weak order on the elements of the list: it is asymmetric,
    and not being after is transitive. *)
Record ordered l : Prop := {
  ordered_asym : ∀ x y, x ∈ l → y ∈ l → precedes x y → precedes y x = false;
  ordered_trans : ∀ x y z, x ∈ l → y ∈ l → z ∈ l →
    precedes y x = false → precedes z y = false → precedes z x = false }.

Lemma ordered_perm l l' : l' ≡ₚ l → ordered l → ordered l'.
Proof.
  intros Hp H. split.
  - intros x y. rewrite !Hp. apply H.
  - intros x y z. rewrite !Hp. apply H.
Qed.
Lemma reorders_ordered a b l l' : reorders a b l l' → ordered l → ordered l'.
Proof. intros H. apply ordered_perm, H. Qed.

Lemma below_asym l i j : ordered l → below l i j → below l j i = false.
Proof.
  intros H. unfold below. destruct (l !! i) eqn:Hi, (l !! j) eqn:Hj; try done.
  apply H; eauto using list_elem_of_lookup_2.
Qed.
Lemma below_trans l i j k :
  ordered l → (j < length l)%nat → below l j i = false → below l k j = false → below l k i = false.
Proof.
  intros H [y Hy]%lookup_lt_is_Some_2. unfold below. rewrite Hy.
  destruct (l !! i) eqn:Hi, (l !! k) eqn:Hk; try done.
  apply H; eauto using list_elem_of_lookup_2.
Qed.

(** The places [a .. b) are in order. *)
Definition sorted l a b : Prop := ∀ i j, (a ≤ i < j)%nat → (j < b)%nat → below l j i = false.

(** ** The insertion sort *)

(** In order but for the element at [cursor], which may be too far up. *)
Definition loose l a b cursor : Prop :=
  ∀ i j, (a ≤ i < j)%nat → (j < b)%nat → j ≠ cursor → below l j i = false.

Lemma loose_swap l a b c :
  ordered l → (a ≤ c)%nat → (S c < b)%nat → (b ≤ length l)%nat → below l (S c) c →
  loose l a b (S c) → loose (swapped (S c) c l) a b c.
Proof.
  intros Hord Ha Hb Hlen Hc Hl i j Hi Hj Hne. rewrite below_swapped by lia. unfold origin.
  repeat case_decide; subst; try lia; try (by apply below_asym); apply Hl; lia.
Qed.
Lemma loose_sorted l a b c :
  ordered l → (a ≤ c)%nat → (S c < b)%nat → (b ≤ length l)%nat → below l (S c) c = false →
  loose l a b (S c) → sorted l a b.
Proof.
  intros Hord Ha Hb Hlen Hc Hl i j Hi Hj. destruct (decide (j = S c)) as [->|]; [|by apply Hl].
  destruct (decide (i = c)) as [->|]; [done|].
  apply (below_trans l i c); [done|lia| |done]. apply Hl; lia.
Qed.
Lemma loose_start l a b c : (c ≤ a)%nat → loose l a b c → sorted l a b.
Proof. intros Hc Hl i j Hi Hj. apply Hl; lia. Qed.

Lemma runs_sink l start cursor e :
  (start ≤ cursor < e)%nat → (e ≤ length l)%nat →
  runs (sink precedes start cursor l) (fun l' =>
    reorders start (S cursor) l l' ∧ (ordered l → loose l start e cursor → sorted l' start e)).
Proof.
  revert l. induction cursor as [|c IH]; intros l Hc He; simpl.
  { split; [done|]. intros _. apply loose_start. lia. }
  destruct (Nat.ltb_spec start (S c)) as [Hlt|Hge]; simpl.
  2: { split; [done|]. intros _. apply loose_start. lia. }
  apply runs_bind, runs_less; [lia..|]. destruct (below l (S c) c) eqn:Hb.
  - apply runs_bind, runs_swap; [lia..|].
    assert (reorders start (S (S c)) l (swapped (S c) c l)) as Hr by (apply swapped_reorders; lia).
    eapply runs_mono; [apply IH; [lia|by rewrite (reorders_length _ _ _ _ Hr)]|].
    intros l' [Hr' Hs]. split; [by etrans; [|eapply reorders_mono; [..|done]; lia]|].
    intros Hord Hl. apply Hs; [by eapply reorders_ordered|].
    apply loose_swap; rewrite ?Hb; try done; lia.
  - split; [done|]. intros. apply (loose_sorted _ _ _ c); done || lia.
Qed.

Lemma range_split a b pre i post :
  range a b = pre ++ i :: post → i = (a + length pre)%nat ∧ (i < b)%nat ∧ length post = (b - i - 1)%nat.
Proof.
  unfold range. intros H. pose proof (f_equal length H) as Hlen.
  rewrite length_seq, length_app in Hlen. simpl in Hlen.
  apply (f_equal (lookup (length pre))) in H.
  rewrite list_lookup_middle in H by done. apply lookup_seq in H as [-> ?]. lia.
Qed.

Lemma runs_insertion_sort l start finish :
  (start ≤ finish ≤ length l)%nat →
  runs (insertion_sort precedes start finish l) (fun l' =>
    reorders start finish l l' ∧ (ordered l → sorted l' start finish)).
Proof.
  intros Hb. unfold insertion_sort.
  eapply runs_mono; [eapply (foldM_spec _ (fun pre l' =>
    reorders start finish l l' ∧ (ordered l → sorted l' start (start + 1 + length pre))%nat))|].
  - split; [done|]. intros _ i j Hi Hj. simpl in Hj. lia.
  - intros pre i post l' (-> & Hlt & _)%range_split [Hr Hs].
    pose proof (reorders_length _ _ _ _ Hr) as Hlen.
    eapply runs_mono; [apply (runs_sink _ _ _ (S (start + 1 + length pre))); lia|].
    intros l'' [Hr' Hs']. split; [by etrans; [|eapply reorders_mono; [..|done]; lia]|].
    intros Hord. rewrite length_app. simpl. rewrite Nat.add_assoc, Nat.add_1_r. apply Hs'.
    + by eapply reorders_ordered.
    + intros k j Hk Hj Hne. apply Hs; [done|lia..].
  - intros l' [Hr Hs]. split; [done|]. intros Hord i j Hi Hj. apply Hs; [done|done|].
    unfold range. rewrite length_seq. lia.
Qed.

(** ** The partitions *)

Lemma runs_scan_up fuel p (q : nat → bool) lo hi :
  (lo ≤ hi + 1)%nat → (hi + 1 - lo < fuel)%nat →
  (∀ i, (lo ≤ i ≤ hi)%nat → runs (p i) (fun r : bool => r = q i)) →
  runs (scan_up fuel p lo hi) (fun k =>
    (lo ≤ k ≤ hi + 1)%nat ∧ (∀ i, (lo ≤ i < k)%nat → q i) ∧ ((k ≤ hi)%nat → q k = false)).
Proof.
  revert lo. induction fuel as [|fuel IH]; intros lo Hlo Hf Hp; [lia|]. simpl.
  destruct (Nat.leb_spec lo hi) as [Hle|Hgt]; simpl; [|split_and!; intros; lia].
  apply runs_bind. eapply runs_mono; [apply Hp; lia|]. intros b ->. destruct (q lo) eqn:Hq.
  - eapply runs_mono; [apply IH; [lia..|intros; apply Hp; lia]|].
    intros k (Hk & Hall & Hstop). split_and!; [lia|lia| |done].
    intros i Hi. destruct (decide (i = lo)) as [->|]; [by rewrite Hq|apply Hall; lia].
  - simpl. split_and!; [lia|lia|intros; lia|done].
Qed.

Lemma runs_scan_down fuel p (q : nat → bool) lo hi :
  (1 ≤ lo ≤ hi + 1)%nat → (hi + 1 - lo < fuel)%nat →
  (∀ i, (lo ≤ i ≤ hi)%nat → runs (p i) (fun r : bool => r = q i)) →
  runs (scan_down fuel p lo hi) (fun k =>
    (k ≤ hi)%nat ∧ (lo ≤ k + 1)%nat ∧ (∀ i, (k < i ≤ hi)%nat → q i) ∧ ((lo ≤ k)%nat → q k = false)).
Proof.
  revert hi. induction fuel as [|fuel IH]; intros hi Hlo Hf Hp; [lia|]. simpl.
  destruct (Nat.leb_spec lo hi) as [Hle|Hgt]; simpl; [|split_and!; intros; lia].
  apply runs_bind. eapply runs_mono; [apply Hp; lia|]. intros b ->. destruct (q hi) eqn:Hq.
  - apply runs_bind, runs_sub; [lia|].
    eapply runs_mono; [apply IH; [lia..|intros; apply Hp; lia]|].
    intros k (Hk & Hlk & Hall & Hstop). split_and!; [lia|lia| |done].
    intros i Hi. destruct (decide (i = hi)) as [->|]; [by rewrite Hq|apply Hall; lia].
  - simpl. split_and!; [lia|lia|intros; lia|done].
Qed.

(** The class of the element at a place. *)
Definition class (c : T → bool) l i : bool := match l !! i with Some x => c x | None => false end.

Lemma class_swapped c l i j k :
  (i < length l)%nat → (j < length l)%nat → class c (swapped i j l) k = class c l (origin i j k).
Proof. intros. unfold class. by rewrite lookup_swapped. Qed.

Section scan.
Context (c : T → bool) (up down : list T → nat → outcome bool) (first last : nat) (l0 : list T).
Context (Hup : ∀ l i, reorders first (S last) l0 l → (first ≤ i ≤ last)%nat → runs (up l i) (fun r : bool => r = class c l i)).
Context (Hdown : ∀ l i, reorders first (S last) l0 l → (first ≤ i ≤ last)%nat →
  runs (down l i) (fun r : bool => r = negb (class c l i))).
Context (Hfirst : (1 ≤ first)%nat) (Hlast : (last < length l0)%nat).

(** The places before [lo] are of the class, those after [hi] are not. *)
Definition parted lo hi l : Prop :=
  (∀ i, (first ≤ i < lo)%nat → class c l i) ∧ (∀ i, (hi < i ≤ last)%nat → class c l i = false).

Lemma runs_scan fuel lo hi l :
  (first ≤ lo ≤ hi + 1)%nat → (hi ≤ last)%nat → (hi + 1 - lo < fuel)%nat →
  reorders first (S last) l0 l → parted lo hi l →
  runs (scan fuel up down lo hi l) (fun '(lo', hi') =>
    (lo ≤ lo')%nat ∧ (hi' ≤ hi)%nat ∧ (lo' = hi' + 1 ∨ lo' < hi' ∧ class c l lo' = false ∧ class c l hi')%nat ∧
    parted lo' hi' l).
Proof.
  intros Hlo Hhi Hf Hr [Hbefore Hafter]. unfold scan.
  apply runs_bind. eapply runs_mono; [apply (runs_scan_up _ _ (class c l)); [lia..|intros; apply Hup; [done|lia]]|].
  intros lo' (Hlo' & Hall & Hstop).
  apply runs_bind. eapply runs_mono;
    [apply (runs_scan_down _ _ (fun i => negb (class c l i))); [lia..|intros; apply Hdown; [done|lia]]|].
  intros hi' (Hhi' & Hle & Hall' & Hstop'). simpl. split_and!; [lia|lia| |split].
  - destruct (decide (lo' ≤ hi')%nat) as [Hin|]; [right|left; lia].
    specialize (Hstop ltac:(lia)). specialize (Hstop' Hin). apply negb_false_iff in Hstop'.
    split_and!; [|done|by rewrite Hstop']. destruct (decide (lo' = hi')) as [->|]; [congruence|lia].
  - intros i Hi. destruct (decide (i < lo)%nat); [apply Hbefore|apply Hall]; lia.
  - intros i Hi. destruct (decide (hi < i)%nat); [apply Hafter; lia|].
    apply negb_true_iff, Is_true_true, Hall'. lia.
Qed.

Lemma parted_swap lo hi l :
  (first ≤ lo < hi)%nat → (hi ≤ last < length l)%nat → class c l lo = false → class c l hi → parted lo hi l →
  parted (lo + 1) (hi - 1) (swapped lo hi l).
Proof.
  intros Hlo Hhi Hclo Hchi [Hbefore Hafter].
  split; intros i Hi; rewrite class_swapped by lia; unfold origin; repeat case_decide; subst; try done; try lia;
    [apply Hbefore|apply Hafter]; lia.
Qed.

Lemma runs_scan_swap fuel lo hi l :
  (first ≤ lo ≤ hi + 1)%nat → (hi ≤ last)%nat → (hi + 1 - lo < fuel)%nat →
  reorders first (S last) l0 l → parted lo hi l →
  runs (scan_swap fuel up down lo hi l) (fun '(lo', hi', l') =>
    (lo ≤ lo')%nat ∧ (hi' ≤ hi)%nat ∧ lo' = (hi' + 1)%nat ∧ reorders first (S last) l0 l' ∧ parted lo' hi' l').
Proof.
  revert lo hi l. induction fuel as [|fuel IH]; intros lo hi l Hlo Hhi Hf Hr Hp; [lia|]. cbn [scan_swap].
  apply runs_bind. eapply runs_mono; [apply runs_scan; done || lia|].
  intros [lo' hi'] (Hlo' & Hhi' & Hcase & Hp').
  pose proof (reorders_length _ _ _ _ Hr) as Hlen.
  destruct (Nat.ltb_spec hi' lo') as [Hlt|Hge]; [simpl; split_and!; done || lia|].
  destruct Hcase as [|(Hlt & Hclo & Hchi)]; [lia|].
  apply runs_bind, runs_swap; [lia..|]. apply runs_bind, runs_sub; [lia|].
  eapply runs_mono; [apply IH; [lia..| |apply parted_swap; done || lia]|].
  - etrans; [done|]. apply swapped_reorders; lia.
  - intros [[lo'' hi''] l''] (? & ? & ? & ? & ?). split_and!; done || lia.
Qed.
End scan.

(** The comparison of a place with the pivot, which is at [start], and the converse. *)
Definition before_pivot (x y : T) : bool := precedes y x.
Definition not_after_pivot (x y : T) : bool := negb (precedes x y).

Lemma runs_before l start x i :
  l !! start = Some x → (i < length l)%nat →
  runs (less precedes l i start) (fun r : bool => r = class (before_pivot x) l i).
Proof.
  intros Hx Hi. pose proof (lookup_lt_Some _ _ _ Hx). apply runs_less; [done..|].
  unfold below, class. rewrite Hx. by destruct (l !! i).
Qed.
Lemma runs_after l start x i :
  l !! start = Some x → (i < length l)%nat →
  runs (less precedes l start i) (fun r : bool => r = negb (class (not_after_pivot x) l i)).
Proof.
  intros Hx Hi. pose proof (lookup_lt_Some _ _ _ Hx). apply runs_less; [done..|].
  unfold below, class, not_after_pivot. rewrite Hx.
  destruct (lookup_lt_is_Some_2 _ _ Hi) as [y ->]. by rewrite negb_involutive.
Qed.
Lemma runs_negb (r : outcome bool) (x : bool) :
  runs r (fun r : bool => r = x) → runs (v ← r; Ok (negb v)) (fun r : bool => r = negb x).
Proof. destruct r; naive_solver. Qed.

(** The pivot is brought to [start]: the list on which the scans work. *)
Lemma pivot_first l start finish pivot :
  (start ≤ pivot < finish)%nat → (finish ≤ length l)%nat →
  let l1 := swapped start pivot l in
  reorders start finish l l1 ∧ ∃ x, l !! pivot = Some x ∧
    ∀ l2, reorders (start + 1) finish l1 l2 → length l2 = length l ∧ l2 !! start = Some x ∧ reorders start finish l l2.
Proof.
  intros Hp Hf l1. assert (reorders start finish l l1) as Hr by (apply swapped_reorders; lia).
  split; [done|]. destruct (lookup_lt_is_Some_2 l pivot ltac:(lia)) as [x Hx]. exists x. split; [done|].
  intros l2 Hr2. split_and!.
  - by rewrite (reorders_length _ _ _ _ Hr2), (reorders_length _ _ _ _ Hr).
  - rewrite (reorders_outside _ _ _ _ Hr2) by lia. unfold l1. rewrite lookup_swapped by lia.
    unfold origin. by rewrite decide_True.
  - etrans; [done|]. eapply reorders_mono; [..|done]; lia.
Qed.

(** Every place before [middle] precedes it and no place after it does. *)
Definition split_at l start middle finish : Prop :=
  (∀ i, (start ≤ i < middle)%nat → below l i middle) ∧
  (∀ i, (middle < i < finish)%nat → below l i middle = false).

Lemma parted_split start last hi x l :
  (start ≤ hi ≤ last)%nat → (last < length l)%nat → l !! start = Some x →
  parted (before_pivot x) (start + 1) last (hi + 1) hi l →
  split_at (swapped hi start l) start hi (S last).
Proof.
  intros Hhi Hlast Hx [Hb Ha].
  assert (∀ i, below (swapped hi start l) i hi = class (before_pivot x) l (origin hi start i)) as Heq.
  { intros i. rewrite below_swapped by lia. unfold below, class. unfold origin at 2.
    rewrite decide_True by done. rewrite Hx. by destruct (l !! _). }
  split; intros i Hi; rewrite Heq; unfold origin; repeat case_decide; subst; try lia;
    first [apply Hb; lia|apply Ha; lia].
Qed.

(** [partition] is [scan_swap] with its first turn written out. *)
Definition up_to start l i : outcome bool := less precedes l i start.
Definition down_to start l i : outcome bool := v ← less precedes l i start; Ok (negb v).

Lemma scan_swap_S fuel up down lo hi l :
  scan_swap (S fuel) up down lo hi l =
    ('(lo, hi) ← scan (S fuel) up down lo hi l;
     if (hi <? lo)%nat then Ok (lo, hi, l)
     else l ← swap lo hi l; hi ← sub hi 1; scan_swap fuel up down (lo + 1) hi l).
Proof. done. Qed.

Lemma partition_by_scans l start finish pivot (Q : nat → list T → Prop) :
  runs (l ← swap start pivot l;
      hi ← sub finish 1;
      '(_, hi, l) ← scan_swap (S (S finish)) (up_to start) (down_to start) (start + 1) hi l;
      l ← swap hi start l;
      Ok (hi, l)) (fun '(middle, l') => Q middle l') →
  runs (partition precedes start finish pivot l) (fun '(middle, _, l') => Q middle l').
Proof.
  unfold partition, up_to, down_to. cbv zeta.
  destruct (swap start pivot l) as [l1| |]; [|done..]. cbn [mbind result_bind result_spec].
  destruct (sub finish 1) as [hi| |]; [|done..]. cbn [mbind result_bind result_spec]. rewrite scan_swap_S.
  destruct (scan (S (S finish)) _ _ _ _ _) as [[lo hi']| |]; [|done..]. cbn [mbind result_bind result_spec].
  destruct (hi' <? lo)%nat; [by cbn; destruct (swap hi' start l1)|].
  destruct (swap lo hi' l1) as [l2| |]; [|done..]. cbn [mbind result_bind result_spec].
  destruct (sub hi' 1) as [hi2| |]; [|done..]. cbn [mbind result_bind result_spec].
  destruct (scan_swap (S finish) _ _ _ _ _) as [[[lo' hi''] l3]| |]; [|done..]. cbn [mbind result_bind result_spec].
  by destruct (swap hi'' start l3).
Qed.

Lemma runs_partition l start finish pivot :
  (start ≤ pivot < finish)%nat → (finish ≤ length l)%nat →
  runs (partition precedes start finish pivot l) (fun '(middle, _, l') =>
    (start ≤ middle < finish)%nat ∧ reorders start finish l l' ∧ split_at l' start middle finish).
Proof.
  intros Hp Hf. destruct (pivot_first l start finish pivot Hp Hf) as (Hr & x & Hx & Hscan).
  apply (partition_by_scans _ _ _ _ (fun middle l' =>
    (start ≤ middle < finish)%nat ∧ reorders start finish l l' ∧ split_at l' start middle finish)).
  apply runs_bind, runs_swap; [lia..|]. apply runs_bind, runs_sub; [lia|].
  set (l1 := swapped start pivot l) in *. assert (S (finish - 1) = finish) as HS by lia.
  pose proof (reorders_length _ _ _ _ Hr) as Hlen. apply runs_bind. eapply runs_mono.
  - apply (runs_scan_swap (before_pivot x) _ _ (start + 1) (finish - 1) l1); rewrite ?HS; try done; try lia.
    + intros l2 i Hr2 Hi. destruct (Hscan l2 Hr2) as (? & ? & ?). apply runs_before; [done|lia].
    + intros l2 i Hr2 Hi. destruct (Hscan l2 Hr2) as (? & ? & ?). apply runs_negb, runs_before; [done|lia].
    + split; intros; lia.
  - rewrite HS. intros [[lo hi] l2] (Hlo & Hhi & -> & Hr2 & Hpart). destruct (Hscan l2 Hr2) as (Hlen2 & Hx2 & Hr').
    apply runs_bind, runs_swap; [lia..|]. simpl. split_and!; [lia..| |].
    + etrans; [done|]. apply swapped_reorders; lia.
    + rewrite <-HS. apply (parted_split _ _ _ x); done || lia.
Qed.

Lemma runs_partition_equal l start finish pivot :
  (start ≤ pivot < finish)%nat → (finish ≤ length l)%nat →
  runs (partition_equal precedes start finish pivot l) (fun '(middle, l') =>
    (start < middle ≤ finish)%nat ∧ reorders start finish l l' ∧ ∃ x, l !! pivot = Some x ∧
    all l' (start + 1) middle (fun y => precedes x y = false) ∧ l' !! start = Some x ∧
    all l' middle finish (fun y => precedes x y)).
Proof.
  intros Hp Hf. destruct (pivot_first l start finish pivot Hp Hf) as (Hr & x & Hx & Hscan).
  unfold partition_equal. apply runs_bind, runs_swap; [lia..|]. apply runs_bind, runs_sub; [lia|].
  set (l1 := swapped start pivot l) in *. assert (S (finish - 1) = finish) as HS by lia.
  pose proof (reorders_length _ _ _ _ Hr) as Hlen. apply runs_bind. eapply runs_mono.
  - apply (runs_scan_swap (not_after_pivot x) _ _ (start + 1) (finish - 1) l1); rewrite ?HS; try done; try lia.
    + intros l2 i Hr2 Hi. destruct (Hscan l2 Hr2) as (? & ? & ?).
      rewrite <-(negb_involutive (class _ _ _)). apply runs_negb, runs_after; [done|lia].
    + intros l2 i Hr2 Hi. destruct (Hscan l2 Hr2) as (? & ? & ?). apply runs_after; [done|lia].
    + split; intros; lia.
  - rewrite HS. intros [[lo hi] l2] (Hlo & Hhi & -> & Hr2 & [Hb Ha]). destruct (Hscan l2 Hr2) as (Hlen2 & Hx2 & Hr').
    simpl. split_and!; [lia..|done|]. exists x. split_and!; [done| |done|].
    + intros i y Hi Hy. specialize (Hb i ltac:(lia)). unfold class, not_after_pivot in Hb. rewrite Hy in Hb.
      by destruct (precedes x y).
    + intros i y Hi Hy. specialize (Ha i ltac:(lia)). unfold class, not_after_pivot in Ha. rewrite Hy in Ha.
      by destruct (precedes x y).
Qed.

(** ** Joining sorted parts *)

(** No place of [m .. b) precedes a place of [a .. m). *)
Definition bounded l a m b : Prop :=
  ∀ i j, (a ≤ i < m)%nat → (m ≤ j < b)%nat → below l j i = false.

Lemma bounded_lookup l a m b :
  bounded l a m b ↔ all l a m (fun x => all l m b (fun y => precedes y x = false)).
Proof.
  split.
  - intros H i x Hi Hx j y Hj Hy. specialize (H i j Hi Hj). unfold below in H. by rewrite Hx, Hy in H.
  - intros H i j Hi Hj. unfold below. destruct (l !! j) as [y|] eqn:Hy; [|done].
    destruct (l !! i) as [x|] eqn:Hx; [|done]. by eapply H.
Qed.
Lemma bounded_low l l' a m b : reorders a m l l' → bounded l a m b → bounded l' a m b.
Proof.
  rewrite !bounded_lookup. intros Hr H. apply (reorders_all _ _ _ _ Hr). intros i x Hi Hx j y Hj Hy.
  eapply (H i x Hi Hx j y Hj). rewrite <-Hy. symmetry. apply (reorders_outside _ _ _ _ Hr). lia.
Qed.
Lemma bounded_high l l' a m b : reorders m b l l' → bounded l a m b → bounded l' a m b.
Proof.
  rewrite !bounded_lookup. intros Hr H i x Hi Hx. apply (reorders_all _ _ _ _ Hr). apply (H i x Hi).
  rewrite <-Hx. symmetry. apply (reorders_outside _ _ _ _ Hr). lia.
Qed.
Lemma sorted_join l a m b : sorted l a m → sorted l m b → bounded l a m b → sorted l a b.
Proof.
  intros Ha Hb Hm i j Hi Hj. destruct (decide (j < m)%nat); [apply Ha; lia|].
  destruct (decide (m ≤ i)%nat); [apply Hb; lia|apply Hm; lia].
Qed.
Lemma sorted_outside l l' a b c d :
  reorders c d l l' → (b ≤ c ∨ d ≤ a)%nat → sorted l a b → sorted l' a b.
Proof. intros Hr Hd Hs i j Hi Hj. rewrite (below_outside _ _ _ _ _ _ Hr) by lia. by apply Hs. Qed.
Lemma below_irrefl l i : ordered l → below l i i = false.
Proof. intros H. destruct (below l i i) eqn:Hb; [|done]. rewrite <-Hb. apply below_asym; [done|by rewrite Hb]. Qed.
End routines.
