(* ===== verification/PdqSortSteps.v ===== *)
(** * The sort: the preparations of a turn

    The choice of the pivot, the reversal, the shuffle and the insertion sort that gives
    up, each for any comparison; the last one sorts when it claims so, if the comparison
    is an order. *)

From S2P Require Import Prelude.
From S2P Require Import PdqSort PdqSortProps.

Section steps.
Context {T : Type} (precedes : T → T → bool).
Implicit Types (l : list T) (i j a b start finish : nat).
Local Abbreviation below := (below precedes).
Local Abbreviation sorted := (sorted precedes).
Local Abbreviation ordered := (ordered precedes).
Local Abbreviation loose := (loose precedes).

(** ** The reversal and the shuffle *)

Lemma runs_reverse_loop l fuel lo hi start finish :
  (start ≤ lo)%nat → (hi < finish ≤ length l)%nat → (hi - lo < fuel)%nat →
  runs (reverse_loop fuel lo hi l) (reorders start finish l).
Proof.
  revert l lo hi. induction fuel as [|fuel IH]; intros l lo hi Hlo Hhi Hf; [lia|]. simpl.
  destruct (Nat.ltb_spec lo hi) as [Hlt|]; [|simpl; done].
  apply runs_bind, runs_swap; [lia..|]. apply runs_bind, runs_sub; [lia|].
  assert (reorders start finish l (swapped lo hi l)) as Hr by (apply swapped_reorders; lia).
  eapply runs_mono; [apply IH; rewrite ?(reorders_length _ _ _ _ Hr); lia|]. intros l' ?. by etrans.
Qed.

Lemma runs_reverse_range l start finish :
  (start < finish ≤ length l)%nat → runs (reverse_range start finish l) (reorders start finish l).
Proof. intros H. apply runs_bind, runs_sub; [lia|]. apply runs_reverse_loop; lia. Qed.

Lemma bit_length_bound n : (0 < n)%nat → (Z.of_nat n < 2 ^ bit_length n ≤ 2 * Z.of_nat n)%Z ∧ (0 ≤ bit_length n)%Z.
Proof.
  intros Hn. unfold bit_length. destruct (Nat.eqb_spec n 0); [lia|].
  pose proof (Z.log2_spec (Z.of_nat n) ltac:(lia)) as [Hl Hu]. pose proof (Z.log2_nonneg (Z.of_nat n)).
  rewrite Z.pow_succ_r in Hu by lia. rewrite Z.pow_add_r by lia. lia.
Qed.

Lemma mask_bound n random :
  (0 < n)%nat → (0 ≤ Z.land random (Z.shiftl 1 (bit_length n) - 1) < 2 * Z.of_nat n)%Z.
Proof.
  intros Hn. destruct (bit_length_bound n Hn) as [Hb Hk].
  rewrite Z.shiftl_1_l, Z.sub_1_r, <-Z.ones_equiv, Z.land_ones by done.
  pose proof (Z.mod_pos_bound random (2 ^ bit_length n) ltac:(lia)). lia.
Qed.

Lemma runs_break_loop l indices random start n :
  (0 < n)%nat → (start + n ≤ length l)%nat → Forall (fun i => start ≤ i < start + n)%nat indices →
  runs (break_loop indices random (Z.shiftl 1 (bit_length n)) start n l) (reorders start (start + n) l).
Proof.
  intros Hn. revert l random. induction indices as [|i indices IH]; intros l random Hlen Hi; simpl; [done|].
  apply Forall_cons in Hi as [Hi His].
  pose proof (mask_bound n (xorshift random) Hn) as Hm.
  set (other := Z.to_nat _). assert (other < 2 * n)%nat as Ho by lia.
  set (other' := if (n <=? other)%nat then (other - n)%nat else other).
  assert (other' < n)%nat as Ho' by (unfold other'; destruct (Nat.leb_spec n other); lia).
  apply runs_bind, runs_swap; [lia..|].
  assert (reorders start (start + n) l (swapped i (start + other') l)) as Hr by (apply swapped_reorders; lia).
  eapply runs_mono; [apply IH; [by rewrite (reorders_length _ _ _ _ Hr)|done]|]. intros l' ?. by etrans.
Qed.

Lemma runs_break_patterns l start finish :
  (start ≤ finish ≤ length l)%nat → runs (break_patterns start finish l) (reorders start finish l).
Proof.
  intros H. apply runs_bind, runs_sub; [lia|]. destruct (Nat.leb_spec 8 (finish - start)) as [H8|]; [|simpl; done].
  pose proof (Nat.div_mod_eq (finish - start) 4). pose proof (Nat.mod_upper_bound (finish - start) 4 ltac:(done)).
  apply runs_bind, runs_sub; [lia|].
  eapply runs_mono; [apply runs_break_loop; [lia..|]|].
  - apply Forall_forall. intros i Hi. unfold range in Hi. apply elem_of_seq in Hi. lia.
  - intros l' Hr. by replace (start + (finish - start))%nat with finish in Hr by lia.
Qed.

(** ** The pivot *)

Lemma runs_order_two l first second swaps :
  (first < length l)%nat → (second < length l)%nat →
  runs (order_two precedes l first second swaps) (fun '(a, b, _) =>
    (a = first ∧ b = second) ∨ (a = second ∧ b = first)).
Proof. intros. apply runs_bind, runs_less; [done..|]. destruct (below l second first); simpl; auto. Qed.

Lemma runs_median l a b c swaps start finish :
  (start ≤ a < finish)%nat → (start ≤ b < finish)%nat → (start ≤ c < finish)%nat → (finish ≤ length l)%nat →
  runs (median precedes l a b c swaps) (fun '(m, _) => start ≤ m < finish)%nat.
Proof.
  intros. unfold median.
  apply runs_bind. eapply runs_mono; [apply runs_order_two; lia|]. intros [[a1 b1] s1] E1.
  apply runs_bind. eapply runs_mono; [apply runs_order_two; lia|]. intros [[b2 c2] s2] E2.
  apply runs_bind. eapply runs_mono; [apply runs_order_two; lia|]. intros [[a3 b3] s3] E3.
  simpl. lia.
Qed.

Lemma runs_median_adjacent l i swaps start finish :
  (start < i)%nat → (i + 1 < finish)%nat → (finish ≤ length l)%nat →
  runs (median_adjacent precedes l i swaps) (fun '(m, _) => start ≤ m < finish)%nat.
Proof. intros. apply runs_bind, runs_sub; [lia|]. apply runs_median; lia. Qed.

Lemma runs_choose_pivot l start finish :
  (start + 4 ≤ finish ≤ length l)%nat →
  runs (choose_pivot precedes start finish l) (fun '(pivot, _) => start ≤ pivot < finish)%nat.
Proof.
  intros H. apply runs_bind, runs_sub; [lia|]. set (n := (finish - start)%nat).
  pose proof (Nat.div_mod_eq n 4). pose proof (Nat.mod_upper_bound n 4 ltac:(done)).
  apply (runs_bind _ _ _). apply (runs_mono _ (fun '(m, _) => start ≤ m < finish)%nat); [|by intros [m s]].
  destruct (Nat.leb_spec 8 n) as [H8|]; [|cbn [result_spec]; lia].
  apply runs_bind. apply (runs_mono _ (fun '(a, b, c, _) =>
    start ≤ a < finish ∧ start ≤ b < finish ∧ start ≤ c < finish)%nat).
  - destruct (Nat.leb_spec 50 n); [|cbn [result_spec]; lia].
    do 3 (apply runs_bind; eapply runs_mono; [apply (runs_median_adjacent _ _ _ start finish); lia|]; intros [? ?] ?). simpl. lia.
  - intros [[[a b] c] s] (? & ? & ?). apply runs_median; lia.
Qed.

(** ** The insertion sort that gives up *)

(** No place of [start .. finish) precedes the place before [start]. *)
Definition floor l start finish : Prop :=
  ∀ y, (0 < start)%nat → l !! (start - 1) = Some y → all l start finish (fun x => precedes x y = false).

Lemma floor_below l start finish i :
  floor l start finish → (0 < start)%nat → (start ≤ i < finish)%nat → below l i (start - 1) = false.
Proof.
  intros Hfl Hs Hi. unfold PdqSortProps.below. destruct (l !! i) as [x|] eqn:Hx; [|done].
  destruct (l !! (start - 1)) as [y|] eqn:Hy; [|done]. by eapply Hfl.
Qed.
Lemma floor_reorders l l' start finish : reorders start finish l l' → floor l start finish → floor l' start finish.
Proof.
  intros Hr Hfl y Hs Hy. apply (reorders_all _ _ _ _ Hr). apply Hfl; [done|].
  by rewrite <-(reorders_outside _ _ _ _ Hr) by lia.
Qed.

(** The shift down stops at [start] because of the place before it. *)
Lemma runs_shift_down l c :
  (c < length l)%nat →
  runs (shift_down precedes c l) (fun l' => l' ≡ₚ l ∧ ∀ start e,
    (start ≤ c < e)%nat → (e ≤ length l)%nat → ordered l → floor l start e → loose l start e c →
    reorders start e l l' ∧ sorted l' start e).
Proof.
  revert l. induction c as [|c IH]; intros l Hc; simpl.
  { split; [done|]. intros start e ? ? _ _ Hl. split; [done|]. apply (loose_start _ _ _ _ 0); [lia|done]. }
  apply runs_bind, (runs_less precedes); [lia..|]. destruct (below l (S c) c) eqn:Hb.
  - apply runs_bind, runs_swap; [lia..|].
    assert (length (swapped (S c) c l) = length l) as Hlen by apply Permutation_length, swapped_perm.
    eapply runs_mono; [apply IH; lia|]. intros l' [Hp Hs]. split; [by rewrite Hp, swapped_perm|].
    intros start e Hse He Hord Hfl Hl. destruct (decide (start = S c)) as [->|Hne].
    { pose proof (floor_below l (S c) e (S c) Hfl ltac:(lia) ltac:(lia)) as Hbad.
      replace (S c - 1)%nat with c in Hbad by lia. congruence. }
    assert (reorders start e l (swapped (S c) c l)) as Hr by (apply swapped_reorders; lia).
    destruct (Hs start e) as [Hr' Hsorted]; [lia|lia|by eapply reorders_ordered|by eapply floor_reorders| |].
    + apply loose_swap; rewrite ?Hb; done || lia.
    + split; [by etrans|done].
  - split; [done|]. intros start e Hse He Hord Hfl Hl. split; [done|].
    destruct (decide (start = S c)) as [->|Hne].
    + apply (loose_start _ _ _ _ (S c)); [lia|done].
    + apply (loose_sorted _ _ _ _ c); done || lia.
Qed.

Lemma runs_shift_up l cursors i finish :
  (finish ≤ length l)%nat → Forall (fun k => i < k < finish)%nat cursors →
  runs (shift_up precedes cursors l) (reorders i finish l).
Proof.
  revert l. induction cursors as [|k cursors IH]; intros l Hlen Hall; simpl; [done|].
  apply Forall_cons in Hall as [Hk Hall]. apply runs_bind, runs_sub; [lia|].
  apply runs_bind, runs_less; [lia..|]. destruct (PdqSortProps.below _ _ _ _); [|simpl; done].
  apply runs_bind, runs_swap; [lia..|].
  assert (reorders i finish l (swapped k (k - 1) l)) as Hr by (apply swapped_reorders; lia).
  eapply runs_mono; [apply IH; [by rewrite (reorders_length _ _ _ _ Hr)|done]|]. intros l' ?. by etrans.
Qed.

Lemma sorted_extend l start i :
  ordered l → (start < i < length l)%nat → below l i (i - 1) = false → sorted l start i → sorted l start (S i).
Proof.
  intros Hord Hi Hb Hs a b Ha Hab. destruct (decide (b = i)) as [->|]; [|apply Hs; lia].
  destruct (decide (a = i - 1)%nat) as [->|]; [done|].
  apply (below_trans _ l a (i - 1)); [done|lia| |done]. apply Hs; lia.
Qed.

Lemma runs_ascent l fuel i start finish :
  (start < i ≤ finish)%nat → (finish ≤ length l)%nat → (finish - i < fuel)%nat →
  runs (ascent precedes fuel i finish l) (fun k =>
    (i ≤ k ≤ finish)%nat ∧ ((k < finish)%nat → below l k (k - 1)) ∧
    (ordered l → sorted l start i → sorted l start k)).
Proof.
  revert i. induction fuel as [|fuel IH]; intros i Hi Hlen Hf; [lia|]. simpl.
  destruct (Nat.ltb_spec i finish) as [Hlt|Hge]; [|simpl; split_and!; [lia..|done]].
  apply runs_bind, runs_sub; [lia|]. apply runs_bind, (runs_less precedes); [lia..|].
  destruct (below l i (i - 1)) eqn:Hb; [simpl; split_and!; [lia..|by rewrite Hb|done]|].
  eapply runs_mono; [apply IH; lia|]. intros k (Hk & Hstop & Hs). split_and!; [lia..|done|].
  intros Hord Hsorted. apply Hs; [done|]. rewrite Nat.add_1_r. apply sorted_extend; done || lia.
Qed.

Lemma floor_mono l start finish finish' : (finish' ≤ finish)%nat → floor l start finish → floor l start finish'.
Proof. intros Hle Hfl y Hs Hy i x Hi. apply (Hfl y); done || lia. Qed.

Lemma sorted_swap_loose l start i :
  (start < i < length l)%nat → sorted l start i → loose (swapped i (i - 1) l) start i (i - 1).
Proof.
  intros Hi Hs a b Ha Hb Hne. rewrite below_swapped by lia. unfold origin.
  repeat case_decide; try lia. apply Hs; lia.
Qed.

Lemma runs_mend l start finish i :
  (start < i < finish)%nat → (finish ≤ length l)%nat →
  runs (mend precedes start finish i l) (fun l' => l' ≡ₚ l ∧
    (ordered l → floor l start finish → sorted l start i → reorders start finish l l' ∧ sorted l' start i)).
Proof.
  intros Hi Hlen. unfold mend. apply runs_bind, runs_sub; [lia|]. apply runs_bind, runs_swap; [lia..|].
  set (l1 := swapped i (i - 1) l).
  assert (reorders start finish l l1) as Hr1 by (apply swapped_reorders; lia).
  pose proof (reorders_length _ _ _ _ Hr1) as Hlen1.
  apply runs_bind, runs_sub; [lia|]. apply runs_bind.
  apply (runs_mono _ (fun l2 => l2 ≡ₚ l ∧
    (ordered l → floor l start finish → sorted l start i → reorders start finish l l2 ∧ sorted l2 start i))).
  - destruct (Nat.leb_spec 2 (i - start)) as [Hge|Hlt].
    + eapply runs_mono; [apply runs_shift_down; lia|]. intros l2 [Hp Hs]. split; [by rewrite Hp, (reorders_perm _ _ _ _ Hr1)|].
      intros Hord Hfl Hsorted. destruct (Hs start i) as [Hr2 Hs2]; [lia|lia|by eapply reorders_ordered|..].
      * eapply floor_mono; [|by eapply floor_reorders]. lia.
      * apply sorted_swap_loose; done || lia.
      * split; [|done]. etrans; [done|]. eapply reorders_mono; [..|done]; lia.
    + split; [apply Hr1|]. intros. split; [done|]. intros a b Ha Hb. lia.
  - intros l2 [Hp2 Hs2]. apply runs_bind, runs_sub; [lia|]. pose proof (Permutation_length Hp2) as Hlen2.
    destruct (Nat.leb_spec 2 (finish - i)) as [Hge|Hlt]; [|done].
    eapply runs_mono; [apply (runs_shift_up _ _ i finish); [lia|]|].
    { apply Forall_forall. intros k Hk. unfold range in Hk. apply elem_of_seq in Hk. lia. }
    intros l3 Hr3. split; [by rewrite (reorders_perm _ _ _ _ Hr3)|]. intros Hord Hfl Hsorted.
    destruct (Hs2 Hord Hfl Hsorted) as [Hr2 Hs]. split.
    + etrans; [done|]. eapply reorders_mono; [..|done]; lia.
    + eapply sorted_outside; [done|lia|done].
Qed.

Lemma runs_partial_steps l steps i start finish :
  (start < i ≤ finish)%nat → (finish ≤ length l)%nat →
  runs (partial_steps precedes steps i start finish l) (fun '(done, l') => l' ≡ₚ l ∧
    (ordered l → floor l start finish → sorted l start i →
       reorders start finish l l' ∧ (done = true → sorted l' start finish))).
Proof.
  revert l i. induction steps as [|steps IH]; intros l i Hi Hlen; [simpl; done|]. cbn [partial_steps].
  apply runs_bind. eapply runs_mono; [apply (runs_ascent _ _ _ start); lia|]. intros k (Hk & Hstop & Hs).
  destruct (Nat.eqb_spec k finish) as [->|Hne].
  { simpl. split; [done|]. intros Hord _ Hsorted. split; [done|auto]. }
  apply runs_bind, runs_sub; [lia|]. destruct (finish - start <? 50)%nat; [simpl; done|].
  apply runs_bind. eapply runs_mono; [apply runs_mend; lia|]. intros l3 [Hp3 Hs3].
  eapply runs_mono; [apply IH; [lia|by rewrite (Permutation_length Hp3)]|].
  intros [done l4] [Hp4 Hs4]. split; [by rewrite Hp4|]. intros Hord Hfl Hsorted.
  destruct (Hs3 Hord Hfl (Hs Hord Hsorted)) as [Hr3 Hsorted3].
  destruct Hs4 as [Hr4 Hdone]; [by eapply ordered_perm|by eapply floor_reorders|done|].
  split; [by etrans|done].
Qed.

Lemma runs_partial_insertion_sort l start finish :
  (start < finish ≤ length l)%nat →
  runs (partial_insertion_sort precedes start finish l) (fun '(done, l') => l' ≡ₚ l ∧
    (ordered l → floor l start finish → reorders start finish l l' ∧ (done = true → sorted l' start finish))).
Proof.
  intros H. eapply runs_mono; [apply runs_partial_steps; lia|]. intros [done l'] [Hp Hs]. split; [done|].
  intros Hord Hfl. apply Hs; [done..|]. intros a b Ha Hb. lia.
Qed.
End steps.

(** ** The sort: the heap sort

    The heap sort that [pdqsort] falls back on.  Its heap has the last element of the
    order at the root, and stands at [first] of the slice. *)

Section heap.
Context {T : Type} (precedes : T → T → bool).
Implicit Types (l : list T) (i j r c first lo hi root : nat).
Local Abbreviation below := (below precedes).
Local Abbreviation sorted := (sorted precedes).
Local Abbreviation ordered := (ordered precedes).
Local Abbreviation bounded := (bounded precedes).

Definition child_of c r : Prop := c = (2 * r + 1)%nat ∨ c = (2 * r + 2)%nat.

(** From [lo] on, no element precedes one of its children. *)
Definition heaped l first lo hi : Prop :=
  ∀ r c, (lo ≤ r)%nat → child_of c r → (c < hi)%nat → below l (first + r) (first + c) = false.
(** The same, but for the element at [root], which may be too far up. *)
Definition heaped_but l first lo hi root : Prop :=
  (∀ r c, (lo ≤ r)%nat → r ≠ root → child_of c r → (c < hi)%nat → below l (first + r) (first + c) = false) ∧
  (∀ r c, (lo ≤ r)%nat → child_of root r → child_of c root → (c < hi)%nat →
     below l (first + r) (first + c) = false).
(** The child that no other child follows. *)
Definition greatest_child l first hi root child : Prop :=
  child_of child root ∧ (child < hi)%nat ∧
  (ordered l → ∀ c, child_of c root → (c < hi)%nat → below l (first + child) (first + c) = false).

Lemma heaped_but_swap l first lo hi root child :
  ordered l → (lo ≤ root)%nat → (first + hi ≤ length l)%nat → greatest_child l first hi root child →
  below l (first + root) (first + child) → heaped_but l first lo hi root →
  heaped_but (swapped (first + root) (first + child) l) first lo hi child.
Proof.
  intros Hord Hlo Hlen (Hc & Hhi & Hmax) Hb [Hrest Hgrand].
  specialize (Hmax Hord). unfold heaped_but, child_of in *.
  split; intros r c Hr; intros; rewrite below_swapped by lia; unfold origin; repeat case_decide; try lia;
    try (by apply below_asym); try (apply Hrest; lia).
  - apply Hmax; lia.
  - apply Hgrand; lia.
Qed.

Lemma heaped_but_stop l first lo hi root child :
  ordered l → (first + hi ≤ length l)%nat → greatest_child l first hi root child →
  below l (first + root) (first + child) = false → heaped_but l first lo hi root → heaped l first lo hi.
Proof.
  intros Hord Hlen (Hc & Hhi & Hmax) Hb [Hrest _] r c Hr Hcr Hc'.
  destruct (decide (r = root)) as [->|]; [|by apply Hrest].
  apply (below_trans _ l _ (first + child)); [done|lia|by apply Hmax|done].
Qed.

(** A choice of the greater child. *)
Lemma runs_greater_child l first hi root :
  (2 * root + 1 < hi)%nat → (first + hi ≤ length l)%nat →
  runs (if (2 * root + 1 + 1 <? hi)%nat
      then v ← less precedes l (first + (2 * root + 1)) (first + (2 * root + 1) + 1);
           Ok (if v : bool then 2 * root + 1 + 1 else 2 * root + 1)%nat
      else Ok (2 * root + 1)%nat)
     (greatest_child l first hi root).
Proof.
  intros Hhi Hlen. unfold greatest_child, child_of.
  destruct (Nat.ltb_spec (2 * root + 1 + 1) hi) as [Hlt|Hge]; cbn [result_spec].
  - apply runs_bind, (runs_less precedes); [lia..|]. rewrite <-Nat.add_assoc.
    destruct (below l (first + (2 * root + 1)) (first + (2 * root + 1 + 1))) eqn:Hb; cbn [result_spec].
    + split_and!; [lia..|]. intros Hord c [->| ->] _; [|replace (2 * root + 1 + 1)%nat with (2 * root + 2)%nat by lia].
      * apply below_asym; [done|by rewrite Hb].
      * by apply below_irrefl.
    + split_and!; [lia..|]. intros Hord c [->| ->] _; [by apply below_irrefl|].
      by replace (2 * root + 2)%nat with (2 * root + 1 + 1)%nat by lia.
  - split_and!; [lia..|]. intros Hord c [->| ->] ?; [by apply below_irrefl|lia].
Qed.

Lemma runs_sift l fuel root hi first lo :
  (lo ≤ root)%nat → (hi - root < fuel)%nat → (first + hi ≤ length l)%nat →
  runs (sift precedes fuel root hi first l) (fun l' => reorders first (first + hi) l l' ∧
    (ordered l → heaped_but l first lo hi root → heaped l' first lo hi)).
Proof.
  revert l root. induction fuel as [|fuel IH]; intros l root Hlo Hf Hlen; [lia|]. cbn [sift].
  destruct (Nat.leb_spec hi (2 * root + 1)) as [Hge|Hlt]; cbn [result_spec].
  { split; [done|]. intros _ [Hrest _] r c Hr Hc Hhi.
    apply Hrest; [done| |done..]. intros ->. unfold child_of in Hc. lia. }
  apply runs_bind. eapply runs_mono; [by apply runs_greater_child|]. intros child Hchild.
  pose proof Hchild as (Hc & Hhi & _). unfold child_of in Hc.
  apply runs_bind, (runs_less precedes); [lia..|]. destruct (below l (first + root) (first + child)) eqn:Hb.
  - apply runs_bind, runs_swap; [lia..|].
    assert (reorders first (first + hi) l (swapped (first + root) (first + child) l)) as Hr
      by (apply swapped_reorders; lia).
    eapply runs_mono; [apply IH; rewrite ?(reorders_length _ _ _ _ Hr); lia|].
    intros l' [Hr' Hs]. split; [by etrans|]. intros Hord Hheap.
    apply Hs; [by eapply reorders_ordered|]. apply heaped_but_swap; rewrite ?Hb; done || lia.
  - split; [done|]. intros. by eapply heaped_but_stop.
Qed.

(** No element of a heap follows its root. *)
Lemma heaped_root l first hi i :
  ordered l → (first + hi ≤ length l)%nat → heaped l first 0 hi → (i < hi)%nat →
  below l first (first + i) = false.
Proof.
  intros Hord Hlen Hheap. induction i as [i IH] using lt_wf_ind. intros Hi.
  destruct (decide (i = 0)%nat) as [->|Hne]; [rewrite Nat.add_0_r; by apply below_irrefl|].
  set (r := ((i - 1) / 2)%nat). pose proof (Nat.div_mod_eq (i - 1) 2) as Hdm.
  pose proof (Nat.mod_upper_bound (i - 1) 2 ltac:(done)). fold r in Hdm.
  apply (below_trans _ l _ (first + r)); [done|lia| |apply IH; lia].
  apply Hheap; unfold child_of; lia.
Qed.

Lemma rev_range_split n pre i post :
  rev (range 0 n) = pre ++ i :: post → (i + S (length pre) = n)%nat.
Proof.
  intros H. apply (f_equal (@rev nat)) in H. rewrite rev_involutive, rev_app_distr in H. simpl in H.
  rewrite <-app_assoc in H. apply range_split in H as (Hi & Hlt & Hlen).
  rewrite length_rev in Hi, Hlen. simpl in *. lia.
Qed.

(** The first loop makes a heap. *)
Lemma runs_heapify l first hi :
  (0 < hi)%nat → (first + hi ≤ length l)%nat →
  runs (foldM (fun l i => sift_down precedes i hi first l) l (rev (range 0 ((hi - 1) / 2 + 1)))) (fun l' =>
    reorders first (first + hi) l l' ∧ (ordered l → heaped l' first 0 hi)).
Proof.
  intros Hhi Hlen. set (n := ((hi - 1) / 2 + 1)%nat).
  pose proof (Nat.div_mod_eq (hi - 1) 2) as Hdm. pose proof (Nat.mod_upper_bound (hi - 1) 2 ltac:(done)).
  eapply runs_mono; [eapply (foldM_spec _ (fun pre l' =>
    reorders first (first + hi) l l' ∧ (ordered l → heaped l' first (n - length pre) hi)))|].
  - split; [done|]. intros _ r c Hr Hc Hlt. unfold child_of in Hc. simpl in Hr. unfold n in Hr. lia.
  - intros pre i post l' Hi%rev_range_split [Hr Hheap]. pose proof (reorders_length _ _ _ _ Hr) as Hlen'.
    eapply runs_mono; [apply (runs_sift _ _ _ _ _ i); lia|]. intros l'' [Hr' Hs]. split; [by etrans|].
    intros Hord. rewrite length_app. simpl. replace (n - (length pre + 1))%nat with i by lia.
    apply Hs; [by eapply reorders_ordered|]. split.
    + intros r c Hri Hne Hc Hlt. apply (Hheap Hord r c); [lia|done..].
    + intros r c Hri Hc. unfold child_of in Hc. lia.
  - intros l' [Hr Hheap]. split; [done|]. intros Hord r c _ Hc Hlt. apply Hheap; [done| |done..].
    rewrite length_rev. unfold range. rewrite length_seq. lia.
Qed.

(** What the second loop keeps: a heap, and behind it a sorted part that it does not
    precede. *)
Definition drained l first hi i : Prop :=
  heaped l first 0 i ∧ sorted l (first + i) (first + hi) ∧ bounded l first (first + i) (first + hi).

(** Its turn: the root goes behind the heap. *)
Lemma drained_swap l first hi i :
  ordered l → (i < hi)%nat → (first + hi ≤ length l)%nat → drained l first hi (S i) →
  let l' := swapped first (first + i) l in
  heaped_but l' first 0 i 0 ∧ sorted l' (first + i) (first + hi) ∧ bounded l' first (first + i) (first + hi).
Proof.
  intros Hord Hi Hlen (Hheap & Hs & Hb) l'. unfold l'.
  assert (∀ k, (k < S i)%nat → below l first (first + k) = false) as Hroot
    by (intros; apply (heaped_root l first (S i)); done || lia).
  split_and!; [split|..].
  - intros r c _ Hr Hc Hlt. unfold child_of in Hc. rewrite below_swapped by lia. unfold origin.
    repeat case_decide; try lia. apply Hheap; unfold child_of; lia.
  - intros r c _ Hr. unfold child_of in Hr. lia.
  - intros a b Ha Hb'. rewrite below_swapped by lia. unfold origin.
    repeat case_decide; try lia; first [apply Hb; lia|apply Hs; lia].
  - intros a b Ha Hb'. rewrite below_swapped by lia. unfold origin.
    repeat case_decide; subst; try lia; try (apply Hb; lia).
    + apply Hroot. lia.
    + replace a with (first + (a - first))%nat by lia. apply Hroot. lia.
Qed.

Lemma runs_drain l first hi :
  (first + hi ≤ length l)%nat →
  runs (foldM (fun l i => l ← swap first (first + i) l; sift_down precedes 0 i first l) l (rev (range 0 hi))) (fun l' =>
    reorders first (first + hi) l l' ∧ (ordered l → heaped l first 0 hi → sorted l' first (first + hi))).
Proof.
  intros Hlen.
  eapply runs_mono; [eapply (foldM_spec _ (fun pre l' =>
    reorders first (first + hi) l l' ∧ (ordered l → heaped l first 0 hi → drained l' first hi (hi - length pre))))|].
  - split; [done|]. intros _ Hheap. simpl. rewrite Nat.sub_0_r.
    split_and!; [done|intros ? ? ? ?; lia|intros ? ? ? ?; lia].
  - intros pre i post l' Hi%rev_range_split [Hr Hinv]. pose proof (reorders_length _ _ _ _ Hr) as Hlen'.
    apply runs_bind, runs_swap; [lia..|]. set (l1 := swapped _ _ _).
    assert (reorders first (first + hi) l' l1) as Hr1 by (apply swapped_reorders; lia).
    pose proof (reorders_length _ _ _ _ Hr1) as Hlen1.
    eapply runs_mono; [apply (runs_sift _ _ _ _ _ 0); lia|]. intros l2 [Hr2 Hs]. split.
    { etrans; [done|]. etrans; [done|]. eapply reorders_mono; [..|done]; lia. }
    intros Hord Hheap. rewrite length_app. simpl. replace (hi - (length pre + 1))%nat with i by lia.
    specialize (Hinv Hord Hheap). replace (hi - length pre)%nat with (S i) in Hinv by lia.
    apply (reorders_ordered _ _ _ _ _ Hr) in Hord.
    destruct (drained_swap l' first hi i Hord ltac:(lia) ltac:(lia) Hinv) as (Hbut & Hsorted & Hb). split_and!.
    + apply Hs; [by eapply reorders_ordered|done].
    + eapply sorted_outside; [done|lia|done].
    + by eapply bounded_low.
  - intros l' [Hr Hinv]. split; [done|]. intros Hord Hheap. destruct (Hinv Hord Hheap) as (_ & Hs & _).
    rewrite length_rev in Hs. unfold range in Hs. rewrite length_seq in Hs.
    by replace (first + (hi - (hi - 0)))%nat with first in Hs by lia.
Qed.

Lemma runs_heap_sort l start finish :
  (start < finish ≤ length l)%nat →
  runs (heap_sort precedes start finish l) (fun l' =>
    reorders start finish l l' ∧ (ordered l → sorted l' start finish)).
Proof.
  intros H. apply runs_bind, runs_sub; [lia|]. apply runs_bind, runs_sub; [lia|].
  apply runs_bind. eapply runs_mono; [apply runs_heapify; lia|].
  replace (start + (finish - start))%nat with finish by lia. intros l1 [Hr1 Hheap].
  eapply runs_mono; [apply runs_drain; rewrite (reorders_length _ _ _ _ Hr1); lia|].
  replace (start + (finish - start))%nat with finish by lia. intros l2 [Hr2 Hs].
  split; [by etrans|]. intros Hord. apply Hs; [by eapply reorders_ordered|auto].
Qed.
End heap.
