(* ===== verification/PdqSortTheorems.v ===== *)
(** * The sort: [pdqsort]

    For every comparison the sort ends, does not panic and permutes the slice; when the
    comparison is an order on the elements, the slice is sorted afterwards. *)

From S2P Require Import Prelude.
From S2P Require Import PdqSort PdqSortProps PdqSortSteps.

Section pdqsort.
Context {T : Type} (precedes : T → T → bool).
Implicit Types (l : list T) (i j start middle finish : nat).
Local Abbreviation below := (below precedes).
Local Abbreviation sorted := (sorted precedes).
Local Abbreviation ordered := (ordered precedes).
Local Abbreviation bounded := (bounded precedes).
Local Abbreviation floor := (floor precedes).

(** What a turn does before it calls itself, and what the call does. *)
Definition steady start finish l l' : Prop :=
  l' ≡ₚ l ∧ (ordered l → floor l start finish → reorders start finish l l').
Definition tidy start finish l l' : Prop :=
  l' ≡ₚ l ∧ (ordered l → floor l start finish → reorders start finish l l' ∧ sorted l' start finish).

Lemma reorders_steady start finish l l' : reorders start finish l l' → steady start finish l l'.
Proof. intros H. split; [apply H|done]. Qed.
#[local] Instance steady_trans start finish : Transitive (steady start finish).
Proof.
  intros l1 l2 l3 [Hp Hr] [Hp' Hr']. split; [by rewrite Hp'|]. intros Hord Hfl.
  etrans; [by apply Hr|]. apply Hr'; [by eapply ordered_perm|by eapply floor_reorders; [apply Hr|]].
Qed.
Lemma steady_tidy start finish l l1 l2 : steady start finish l l1 → tidy start finish l1 l2 → tidy start finish l l2.
Proof.
  intros [Hp Hr] [Hp' Hs]. split; [by rewrite Hp'|]. intros Hord Hfl.
  destruct Hs as [Hr' Hs]; [by eapply ordered_perm|by eapply floor_reorders; [apply Hr|]|].
  split; [|done]. etrans; [by apply Hr|done].
Qed.
Lemma tidy_intro start finish l l' : reorders start finish l l' ∧ (ordered l → sorted l' start finish) → tidy start finish l l'.
Proof. intros [Hr Hs]. split; [apply Hr|auto]. Qed.

(** A partition around [middle], in terms of the parts. *)
Definition parts l start middle finish : Prop :=
  bounded l start middle finish ∧ bounded l start (middle + 1) finish.

Lemma split_parts l start middle finish :
  ordered l → (middle < length l)%nat → split_at precedes l start middle finish → parts l start middle finish.
Proof.
  intros Hord Hm [Hlow Hhigh].
  assert (∀ i, (start ≤ i ≤ middle)%nat → below l middle i = false) as Hle.
  { intros i Hi. destruct (decide (i = middle)) as [->|]; [by apply below_irrefl|]. apply below_asym; [done|].
    apply Hlow. lia. }
  assert (∀ i j, (start ≤ i ≤ middle)%nat → (middle ≤ j < finish)%nat → below l j i = false) as H.
  { intros i j Hi Hj. apply (below_trans _ l i middle); [done|done|by apply Hle|].
    destruct (decide (j = middle)) as [->|]; [by apply below_irrefl|]. apply Hhigh. lia. }
  split; intros i j Hi Hj; apply H; lia.
Qed.
Lemma parts_low l l' start middle finish : reorders start middle l l' → parts l start middle finish → parts l' start middle finish.
Proof.
  intros Hr [Ha Hb]. split; [by eapply bounded_low|].
  eapply bounded_low; [|done]. eapply reorders_mono; [..|done]; lia.
Qed.
Lemma parts_high l l' start middle finish :
  reorders (middle + 1) finish l l' → parts l start middle finish → parts l' start middle finish.
Proof.
  intros Hr [Ha Hb]. split; [|by eapply bounded_high].
  eapply bounded_high; [|done]. eapply reorders_mono; [..|done]; lia.
Qed.
Lemma parts_floor l start middle finish : (start ≤ middle)%nat → parts l start middle finish → floor l (middle + 1) finish.
Proof.
  intros Hm [_ H] y _ Hy. apply bounded_lookup in H. apply (H (middle + 1 - 1)%nat y); [lia|done].
Qed.
Lemma parts_sorted l start middle finish :
  (middle < finish)%nat → parts l start middle finish → sorted l start middle → sorted l (middle + 1) finish → sorted l start finish.
Proof.
  intros Hm [Ha Hb] Hs Hs'. eapply sorted_join; [|done|done]. eapply sorted_join; [done|..].
  - intros i j ? ?. lia.
  - intros i j ? ?. apply Ha; lia.
Qed.

(** The two parts are sorted one after the other, in either order. *)
Lemma tidy_low_high l l1 l2 l3 start middle finish :
  (start ≤ middle < finish)%nat → (finish ≤ length l)%nat → reorders start finish l l1 →
  split_at precedes l1 start middle finish → tidy start middle l1 l2 → tidy (middle + 1) finish l2 l3 →
  tidy start finish l l3.
Proof.
  intros Hm Hlen Hr Hsplit [Hp2 Hs2] [Hp3 Hs3]. eapply steady_tidy; [by apply reorders_steady|].
  split; [by rewrite Hp3|]. intros Hord Hfl.
  assert (parts l1 start middle finish) as Hparts
    by (apply split_parts; [done|rewrite (reorders_length _ _ _ _ Hr); lia|done]).
  destruct Hs2 as [Hr2 Hs2]; [done|eapply floor_mono; [|done]; lia|].
  pose proof (parts_low _ _ _ _ _ Hr2 Hparts) as Hparts2.
  destruct Hs3 as [Hr3 Hs3]; [by eapply ordered_perm|eapply parts_floor; [|done]; lia|]. split.
  - etrans; [eapply reorders_mono; [| |exact Hr2]; lia|eapply reorders_mono; [| |exact Hr3]; lia].
    - apply (parts_sorted _ _ middle); [lia|by eapply parts_high| |done]. eapply sorted_outside; [done|lia|done].
Qed.
Lemma tidy_high_low l l1 l2 l3 start middle finish :
  (start ≤ middle < finish)%nat → (finish ≤ length l)%nat → reorders start finish l l1 →
  split_at precedes l1 start middle finish → tidy (middle + 1) finish l1 l2 → tidy start middle l2 l3 →
  tidy start finish l l3.
Proof.
  intros Hm Hlen Hr Hsplit [Hp2 Hs2] [Hp3 Hs3]. eapply steady_tidy; [by apply reorders_steady|].
  split; [by rewrite Hp3|]. intros Hord Hfl.
  assert (parts l1 start middle finish) as Hparts
    by (apply split_parts; [done|rewrite (reorders_length _ _ _ _ Hr); lia|done]).
  destruct Hs2 as [Hr2 Hs2]; [done|eapply parts_floor; [|done]; lia|].
  assert (reorders start finish l1 l2) as Hr2' by (eapply reorders_mono; [..|done]; lia).
  pose proof (parts_high _ _ _ _ _ Hr2 Hparts) as Hparts2.
  destruct Hs3 as [Hr3 Hs3]; [by eapply ordered_perm|eapply floor_mono; [|by eapply floor_reorders]; lia|]. split.
  - etrans; [done|]. eapply reorders_mono; [..|done]; lia.
  - apply (parts_sorted _ _ middle); [lia|by eapply parts_low|done|]. eapply sorted_outside; [done|lia|done].
Qed.

(** The elements that equal the place before [start] are in place after
    [partition_equal]. *)
Lemma equal_parts l start middle finish x :
  (0 < start < middle)%nat → (middle ≤ finish ≤ length l)%nat → ordered l → floor l start finish →
  l !! start = Some x → (∀ y, l !! (start - 1) = Some y → precedes y x = false) →
  all l (start + 1) middle (fun y => precedes x y = false) → all l middle finish (fun y => precedes x y) →
  sorted l start middle ∧ bounded l start middle finish.
Proof.
  intros Hs Hm Hord Hfl Hx Hy Heq Hgt.
  assert (∀ i, (start ≤ i < middle)%nat → below l start i = false) as Hle.
  { intros i Hi. destruct (decide (i = start)) as [->|]; [by apply below_irrefl|].
    unfold PdqSortProps.below. rewrite Hx. destruct (l !! i) as [z|] eqn:Hz; [|done]. apply (Heq i); [lia|done]. }
  split; intros i j Hi Hj; (apply (below_trans _ l i start); [done|lia|apply Hle; lia|]).
  - apply (below_trans _ l start (start - 1)); [done|lia| |].
    + unfold PdqSortProps.below. rewrite Hx. destruct (l !! (start - 1)) as [z|] eqn:Hz; [by apply Hy|done].
    + eapply floor_below; [done|lia..].
  - apply below_asym; [done|]. unfold PdqSortProps.below. rewrite Hx.
    destruct (lookup_lt_is_Some_2 l j ltac:(lia)) as [z Hz]. rewrite Hz. apply (Hgt j); [lia|done].
Qed.

Lemma tidy_equal l l1 l2 start middle finish pivot x :
  (0 < start < middle)%nat → (middle ≤ finish ≤ length l)%nat → reorders start finish l l1 →
  below l (start - 1) pivot = false → l !! pivot = Some x → l1 !! start = Some x →
  all l1 (start + 1) middle (fun y => precedes x y = false) → all l1 middle finish (fun y => precedes x y) →
  tidy middle finish l1 l2 → tidy start finish l l2.
Proof.
  intros Hs Hm Hr Hb Hp Hx Heq Hgt [Hp2 Hs2]. eapply steady_tidy; [by apply reorders_steady|].
  split; [done|]. intros Hord Hfl.
  destruct (equal_parts l1 start middle finish x) as [Hsorted Hbound]; rewrite ?(reorders_length _ _ _ _ Hr); try done; try lia.
  { intros y Hy. rewrite (reorders_outside _ _ _ _ Hr) in Hy by lia. unfold PdqSortProps.below in Hb. by rewrite Hy, Hp in Hb. }
  destruct Hs2 as [Hr2 Hs2]; [done| |].
  { intros y _ Hy. apply bounded_lookup in Hbound. apply (Hbound (middle - 1)%nat y); [lia|done]. }
  split; [eapply reorders_mono; [..|done]; lia|].
  eapply sorted_join; [|done|by eapply bounded_high]. eapply sorted_outside; [done|lia|done].
Qed.

Lemma runs_prepare l start finish limit was_balanced :
  (start + 12 < finish ≤ length l)%nat → (0 < limit)%nat →
  runs (prepare precedes start finish limit was_balanced l) (fun '(l', _, pivot, _) =>
    reorders start finish l l' ∧ start ≤ pivot < finish)%nat.
Proof.
  intros H Hlimit. unfold prepare.
  apply runs_bind. apply (runs_mono _ (fun '(l', _) => reorders start finish l l')).
  { destruct was_balanced; [simpl; done|]. apply runs_bind. eapply runs_mono; [apply runs_break_patterns; lia|].
    intros l1 Hr. apply runs_bind, runs_sub; [lia|done]. }
  intros [l1 limit'] Hr1. pose proof (reorders_length _ _ _ _ Hr1) as Hlen1.
  apply runs_bind. eapply runs_mono; [apply runs_choose_pivot; lia|]. intros [pivot hint] Hpivot.
  apply runs_bind. apply (runs_mono _ (fun '(l', pivot, _) => reorders start finish l l' ∧ start ≤ pivot < finish)%nat).
  - case_bool_decide; [|simpl; done]. apply runs_bind. eapply runs_mono; [apply runs_reverse_range; lia|]. intros l2 Hr2.
    apply runs_bind, runs_sub; [lia|]. apply runs_bind, runs_sub; [lia|]. apply runs_bind, runs_sub; [lia|].
    split; [by etrans|lia].
  - intros [[l2 pivot'] hint'] [Hr2 Hp2]. done.
Qed.

Lemma runs_partial l start finish (use : bool) :
  (start < finish ≤ length l)%nat →
  runs (if use then partial_insertion_sort precedes start finish l else Ok (false, l)) (fun '(done, l') =>
    steady start finish l l' ∧ (done = true → tidy start finish l l')).
Proof.
  intros H. destruct use; [|simpl; split; [by apply reorders_steady|done]].
  eapply runs_mono; [by apply runs_partial_insertion_sort|]. intros [done l'] [Hp Hs].
  split; [split; naive_solver|]. intros ->. split; naive_solver.
Qed.

Lemma runs_pdqsort_loop l fuel start finish limit was_balanced was_partitioned :
  (start ≤ finish ≤ length l)%nat → (finish - start < fuel)%nat →
  runs (pdqsort_loop precedes fuel start finish limit was_balanced was_partitioned l) (tidy start finish l).
Proof.
  revert l start finish limit was_balanced was_partitioned.
  induction fuel as [|fuel IH]; intros l start finish limit bal part Hb Hf; [lia|]. cbn [pdqsort_loop].
  apply runs_bind, runs_sub; [lia|].
  destruct (Nat.leb_spec (finish - start) 12) as [H12|H12].
  { eapply runs_mono; [apply runs_insertion_sort; lia|]. intros l' ?. by apply tidy_intro. }
  destruct (Nat.eqb_spec limit 0) as [->|Hlimit].
  { eapply runs_mono; [apply runs_heap_sort; lia|]. intros l' ?. by apply tidy_intro. }
  apply runs_bind. eapply runs_mono; [apply runs_prepare; lia|]. intros [[[l1 limit'] pivot] hint] [Hr1 Hp1].
  pose proof (reorders_length _ _ _ _ Hr1) as Hlen1.
  apply runs_bind. eapply runs_mono; [apply runs_partial; lia|]. intros [done l2] [Hst Hdone].
  pose proof (reorders_steady _ _ _ _ Hr1) as Hst1. pose proof (Permutation_length (proj1 Hst)) as Hlen2.
  destruct done; [eapply steady_tidy; eauto|].
  apply (runs_mono _ (tidy start finish l2)); [|intros l' ?; do 2 (eapply steady_tidy; [done|]); done].
  apply runs_bind. apply (runs_mono _ (fun equal : bool => equal = true → (0 < start)%nat ∧ below l2 (start - 1) pivot = false)).
  { destruct (Nat.ltb_spec 0 start); [|simpl; done]. apply runs_bind, runs_sub; [lia|].
    apply runs_bind, (runs_less precedes); [lia..|]. simpl. split; [done|by apply negb_true_iff]. }
  intros [] Hequal.
  - destruct (Hequal eq_refl) as [Hs Heq]. apply runs_bind. eapply runs_mono; [apply runs_partition_equal; lia|].
    intros [middle l3] (Hm & Hr3 & x & Hx & Ha & Hx3 & Hg). pose proof (reorders_length _ _ _ _ Hr3).
    eapply runs_mono; [apply IH; lia|]. intros l4 Ht. by eapply (tidy_equal l2 l3 _ _ middle); try done; lia.
  - apply runs_bind. eapply runs_mono; [apply runs_partition; lia|].
    intros [[middle already] l3] (Hm & Hr3 & Hsplit). pose proof (reorders_length _ _ _ _ Hr3) as Hlen3.
    apply runs_bind, runs_sub; [lia|]. apply runs_bind, runs_sub; [lia|].
    destruct (middle - start <? finish - middle)%nat; apply runs_bind;
      (eapply runs_mono; [apply IH; lia|]; intros l4 Ht4; pose proof (Permutation_length (proj1 Ht4));
       eapply runs_mono; [apply IH; lia|]; intros l5 Ht5).
    + by eapply (tidy_low_high l2 l3 l4); try done; lia.
    + by eapply (tidy_high_low l2 l3 l4); try done; lia.
Qed.

(** What the sort does to a whole slice. *)
Lemma sort_clauses_tidy l : runs (sort_clauses precedes l) (fun l' => l' ≡ₚ l ∧ (ordered l → sorted l' 0 (length l))).
Proof.
  unfold sort_clauses. destruct (Nat.ltb_spec 1 (length l)) as [H1|H1].
  - apply runs_bind, runs_sub; [lia|]. eapply runs_mono; [apply runs_pdqsort_loop; lia|].
    intros l' [Hp Hs]. split; [done|]. intros Hord. apply Hs; [done|]. intros y ?. lia.
  - split; [done|]. intros _ i j ? ?. lia.
Qed.

Lemma sorted_strongly l : sorted l 0 (length l) → StronglySorted (fun x y => precedes y x = false) l.
Proof.
  induction l as [|x l IH]; intros Hs; constructor.
  - apply IH. intros i j Hi Hj. apply (Hs (S i) (S j)); simpl; lia.
  - apply Forall_lookup. intros j y Hy. specialize (Hs 0%nat (S j)). unfold PdqSortProps.below in Hs. simpl in Hs.
    rewrite Hy in Hs. apply lookup_lt_Some in Hy. apply Hs; lia.
Qed.

(** What the sort returns. *)
Lemma sort_clauses_result l : ∃ l', sort_clauses precedes l = Ok l' ∧ l' ≡ₚ l ∧
  (ordered l → StronglySorted (fun x y => precedes y x = false) l').
Proof.
  destruct (runs_ok _ _ (sort_clauses_tidy l)) as (l' & Hl' & Hp & Hs). exists l'. split_and!; [done|done|].
  intros Hord. apply sorted_strongly. rewrite (Permutation_length Hp). by apply Hs.
Qed.
End pdqsort.

(** C26: whatever the comparison answers (the one of the Accept clauses is not an order),
    the sort ends, reads and swaps only places of the slice, and leaves a permutation of
    it; when the comparison is a strict weak order on the elements of the slice, they are
    left in its order: no element precedes one before it. *)
Theorem pdqsort_sorts {T : Type} (precedes : T → T → bool) (l : list T) :
  ∃ l', sort_clauses precedes l = Ok l' ∧ l' ≡ₚ l ∧
    (ordered precedes l → StronglySorted (fun x y => precedes y x = false) l').
Proof. apply sort_clauses_result. Qed.

Definition example_slice : list nat := [5; 3; 9; 1; 12; 7; 3; 0; 11; 4; 8; 2; 6; 10; 3]%nat.

Lemma pdqsort_sorts_witness :
  sort_clauses Nat.ltb example_slice = Ok [0; 1; 2; 3; 3; 3; 4; 5; 6; 7; 8; 9; 10; 11; 12]%nat ∧
  ∃ l', sort_clauses Nat.ltb example_slice = Ok l' ∧ l' ≡ₚ example_slice ∧
    StronglySorted (fun x y => Nat.ltb y x = false) l'.
Proof.
  split; [by vm_compute|]. destruct (pdqsort_sorts Nat.ltb example_slice) as (l' & Hl' & Hp & Hs).
  exists l'. split_and!; [done|done|]. apply Hs. split.
  - intros x y _ _ H%Is_true_true%Nat.ltb_lt. apply Nat.ltb_ge. lia.
  - intros x y z _ _ _ H1%Nat.ltb_ge H2%Nat.ltb_ge. apply Nat.ltb_ge. lia.
Defined.
