(* ===== verification/Float.v ===== *)
(** * Floating-point numbers

    [f32] and [f64] are the binary interchange formats of IEEE 754 as the Standard
    Library specifies them: a sign, a mantissa and an exponent, rounded to nearest.  This
    file adds what Rust's standard library does with them as text: [FromStr] and
    [Display]. *)

From Stdlib Require Import SpecFloat.
From S2P Require Import Prelude.
From S2P Require Import RustStr.

Local Open Scope Z_scope.

Notation float := spec_float.

(** [a > b], which is false when either is NaN. *)
Definition float_gt (a b : float) : bool := match SFcompare a b with Some Gt => true | _ => false end.
Definition is_nan (a : float) : bool := match a with S754_nan => true | _ => false end.
Definition is_finite (a : float) : bool :=
  match a with S754_zero _ | S754_finite _ _ _ => true | _ => false end.

(** A format: its precision and its largest exponent. *)
Record FloatFormat := mk_FloatFormat { ff_prec : Z; ff_emax : Z }.
Definition F32 : FloatFormat := mk_FloatFormat 24 128.
Definition F64 : FloatFormat := mk_FloatFormat 53 1024.

(** [m * 10 ^ e], rounded to nearest, ties to even. *)
Definition round_decimal (f : FloatFormat) (negative : bool) (m e : Z) : float :=
  match m with
  | Zpos m =>
      if 0 <=? e then binary_round (ff_prec f) (ff_emax f) negative (m * Z.to_pos (10 ^ e)) 0
      else let '(q, e', loc) := SFdiv_core_binary (ff_prec f) (ff_emax f) (Zpos m) 0 (10 ^ (- e)) 0 in
           binary_round_aux (ff_prec f) (ff_emax f) negative q e' loc
  | _ => S754_zero negative
  end.

(** ** [FromStr] *)

(** The digits a string starts with, and the rest. *)
Fixpoint span_digits (s : string) : string * string :=
  match s with
  | String c rest => if is_ascii_digit c then let '(d, rest) := span_digits rest in (String c d, rest) else ("", s)
  | EmptyString => ("", "")
  end.
Fixpoint decimal_value (acc : Z) (s : string) : Z :=
  match s with
  | String c s => decimal_value (acc * 10 + (byte_val c - 48)) s
  | EmptyString => acc
  end.
Definition split_sign (s : string) : bool * string :=
  match s with
  | String c rest => if ascii_eqb c "-" then (true, rest) else if ascii_eqb c "+" then (false, rest) else (false, s)
  | EmptyString => (false, s)
  end.

(** [Exp ::= 'e' Sign? Digit+], or nothing. *)
Definition parse_exponent (s : string) : option Z :=
  match s with
  | EmptyString => Some 0
  | String c rest =>
      if ascii_eqb (to_lower c) "e" then
        let '(negative, rest) := split_sign rest in
        let '(digits, rest) := span_digits rest in
        if str_is_empty digits || negb (str_is_empty rest) then None
        else Some (if negative then - decimal_value 0 digits else decimal_value 0 digits)
      else None
  end.

Definition lower (s : string) : string := of_bytes (map to_lower (bytes s)).

(** [str::parse]. *)
Definition parse_float (f : FloatFormat) (s : string) : option float :=
  let '(negative, s) := split_sign s in
  if (String.eqb (lower s) "inf" || String.eqb (lower s) "infinity") then Some (S754_infinity negative)
  else if String.eqb (lower s) "nan" then Some S754_nan
  else
    let '(whole, rest) := span_digits s in
    let '(fraction, rest) := match strip_prefix "." rest with Some rest => span_digits rest | None => ("", rest) end in
    if str_is_empty whole && str_is_empty fraction then None
    else
      e ← parse_exponent rest;
      Some (round_decimal f negative (decimal_value 0 (whole +:+ fraction)) (e - Z.of_nat (str_len fraction))).

(** ** [Display] *)

(** [a] is less than [b] units, the value being [m * 2 ^ e]: the two numbers of [10 ^ k]
    units around it, and whether the upper one is at least as near. *)
Definition around (m e k : Z) : Z * Z * bool :=
  let num := m * 2 ^ Z.max e 0 * 10 ^ Z.max (- k) 0 in
  let den := 2 ^ Z.max (- e) 0 * 10 ^ Z.max k 0 in
  let q := num / den in
  if num mod den =? 0 then (q, q, true) else (q, q + 1, den <=? 2 * (num mod den)).

(** The digits of a number, and how many there are. *)
Definition digit_count (n : Z) : Z := Z.of_nat (str_len (dec_nat n)).

(** The shortest decimal number that is read back as the value, and of these the nearest:
    as digits and the power of ten behind them.  [k] goes down from a power of ten above
    the value; the value itself is a decimal number, so that some [k] ends the search. *)
Fixpoint shortest (fuel : nat) (f : FloatFormat) (value : float) (m e k : Z) : Z * Z :=
  let '(down, up, nearer_up) := around m e k in
  match fuel with
  | O => (down, k)
  | S fuel =>
      let reads n := match SFcompare (round_decimal f false n k) value with Some Eq => true | _ => false end in
      match reads down, reads up with
      | true, true => (if nearer_up then up else down, k)
      | true, false => (down, k)
      | false, true => (up, k)
      | false, false => shortest fuel f value m e (k - 1)
      end
  end.

Fixpoint decimal_zeros (n : nat) : string := match n with O => "" | S n => "0" +:+ decimal_zeros n end.
(** [n * 10 ^ k] without an exponent. *)
Definition plain_decimal (n k : Z) : string :=
  let digits := dec_nat n in
  if 0 <=? k then digits +:+ decimal_zeros (Z.to_nat k)
  else
    let point := (str_len digits - Z.to_nat (- k))%nat in
    if (0 <? point)%nat then str_take point digits +:+ "." +:+ str_drop point digits
    else "0." +:+ decimal_zeros (Z.to_nat (- k) - str_len digits)%nat +:+ digits.

(** [to_string] of a float. *)
Definition float_display (f : FloatFormat) (value : float) : string :=
  match value with
  | S754_nan => "NaN"
  | S754_infinity s => (if s then "-" else "") +:+ "inf"
  | S754_zero s => (if s then "-" else "") +:+ "0"
  | S754_finite s m e =>
      let bound := Zpos m * 2 ^ Z.max e 0 in
      let top := if 0 <=? e then digit_count bound else digit_count (Zpos m / 2 ^ (- e)) in
      let '(n, k) := shortest 1100 f (S754_finite false m e) (Zpos m) e top in
      (if s then "-" else "") +:+ plain_decimal n k
  end.
