(* ===== verification/MetricsNegotiate.v ===== *)
(** * The negotiation of a metrics response

    The content negotiation of encoding.rs of ployz-internal-machine-metrics: the clauses
    of the Accept header, their order, the format and the escaping of names that they
    choose, and whether an Accept-Encoding header asks for gzip. *)

From Stdlib Require Import SpecFloat.
From S2P Require Import Prelude.
From S2P Require Import RustStr Float PdqSort.

Local Open Scope Z_scope.

(** [Format] and [Format::content_type]. *)
Inductive Format : Set := F_Text | F_ProtoDelimited | F_ProtoCompact | F_ProtoText.
#[export] Instance Format_eq_dec : EqDecision Format.
Proof. solve_decision. Defined.

Definition PROTO_PREFIX : string :=
  "application/vnd.google.protobuf; proto=io.prometheus.client.MetricFamily; encoding=".
Definition content_type (self : Format) (escaping : string) : string :=
  (match self with
   | F_Text => "text/plain; version=0.0.4; charset=utf-8"
   | F_ProtoDelimited => PROTO_PREFIX +:+ "delimited"
   | F_ProtoCompact => PROTO_PREFIX +:+ "compact-text"
   | F_ProtoText => PROTO_PREFIX +:+ "text"
   end) +:+ "; escaping=" +:+ escaping.

(** [trim_start_matches] and [trim_matches] of a set of characters. *)
Fixpoint trim_start_by (p : ascii → bool) (l : list ascii) : list ascii :=
  match l with
  | c :: rest => if p c then trim_start_by p rest else l
  | [] => []
  end.
Definition trim_start (p : ascii → bool) (s : string) : string := of_bytes (trim_start_by p (bytes s)).
Definition trim_spaces (s : string) : string :=
  let p c := ascii_eqb c " " in of_bytes (rev (trim_start_by p (rev (trim_start_by p (bytes s))))).

(** ** The clauses of the Accept header *)

(** [AcceptClause]. *)
Record AcceptClause := mk_AcceptClause {
  ac_kind : string; ac_subtype : string; ac_quality : float; ac_params : list (string * string)
}.

(** [1.0] and [0.0]. *)
Definition float_one (f : FloatFormat) : float := round_decimal f false 1 0.
Definition float_zero : float := S754_zero false.

(** [accept_precedes]. *)
Definition accept_precedes (left right : AcceptClause) : bool :=
  float_gt (ac_quality left) (ac_quality right)
  || (negb (String.eqb (ac_kind left) "*") && String.eqb (ac_kind right) "*")
  || (negb (String.eqb (ac_subtype left) "*") && String.eqb (ac_subtype right) "*").

(** A turn of the loop of [parse_accept_clause] over the parameters. *)
Definition parse_part (state : float * list (string * string)) (part : string) : float * list (string * string) :=
  let '(quality, params) := state in
  match split_once "=" part with
  | None => state
  | Some (key, value) =>
      if str_contains "=" value then state
      else
        let key := trim_spaces key in
        if String.eqb key "q" then (default float_zero (parse_float F32 value), params)
        else (quality, params ++ [(key, trim_spaces value)])
  end.

(** [parse_accept_clause]. *)
Definition parse_accept_clause (raw : string) : option AcceptClause :=
  match str_split ";" (trim_spaces raw) with
  | [] => None
  | first :: parts =>
      let media_type := trim_spaces first in
      '(kind, subtype) ←
        (match split_once "/" media_type with
         | Some halves => Some halves
         | None => if String.eqb media_type "*" then Some ("*", "*") else None
         end);
      if str_contains "/" subtype then None
      else
        let '(quality, params) := fold_left parse_part parts (float_one F32, []) in
        Some (mk_AcceptClause (trim_spaces kind) (trim_spaces subtype) quality params)
  end.

(** ** The choice *)

(** The last value a parameter is given. *)
Definition last_parameter (name : string) (clause : AcceptClause) : option string :=
  snd <$> List.find (fun '(key, _) => String.eqb key name) (rev (ac_params clause)).
Definition parameter (name : string) (clause : AcceptClause) : string := default "" (last_parameter name clause).

Definition escapings : list string := ["allow-utf-8"; "dots"; "underscores"; "values"].

(** The escaping after a clause. *)
Definition clause_escaping (escaping : string) (clause : AcceptClause) : string :=
  match last_parameter "escaping" clause with
  | None => escaping
  | Some value => if existsb (String.eqb value) escapings then value else escaping
  end.

(** The format a clause asks for. *)
Definition clause_format (clause : AcceptClause) : option Format :=
  let proto :=
    if String.eqb (ac_kind clause) "application" && String.eqb (ac_subtype clause) "vnd.google.protobuf"
       && String.eqb (parameter "proto" clause) "io.prometheus.client.MetricFamily"
    then
      if String.eqb (parameter "encoding" clause) "delimited" then Some F_ProtoDelimited
      else if String.eqb (parameter "encoding" clause) "compact-text" then Some F_ProtoCompact
      else if String.eqb (parameter "encoding" clause) "text" then Some F_ProtoText
      else None
    else None in
  match proto with
  | Some format => Some format
  | None =>
      if String.eqb (ac_kind clause) "text" && String.eqb (ac_subtype clause) "plain"
         && (String.eqb (parameter "version" clause) "" || String.eqb (parameter "version" clause) "0.0.4")
      then Some F_Text else None
  end.

(** The loop of [negotiate_format]. *)
Fixpoint choose_format (escaping : string) (clauses : list AcceptClause) : Format * string :=
  match clauses with
  | [] => (F_Text, escaping)
  | clause :: clauses =>
      let escaping := clause_escaping escaping clause in
      match clause_format clause with
      | Some format => (format, escaping)
      | None => choose_format escaping clauses
      end
  end.

(** [negotiate_format]. *)
Definition negotiate_format (accept : string) : outcome (Format * string) :=
  clauses ← sort_clauses accept_precedes (omap parse_accept_clause (str_split "," accept));
  Ok (choose_format "underscores" clauses).

(** ** Accept-Encoding *)

(** [f64::powi], whose precision the standard library leaves open. *)
Class Powi := { powi : float → Z → float }.

(** [as i32]. *)
Definition as_i32 (n : Z) : Z := (n + 2 ^ 31) mod 2 ^ 32 - 2 ^ 31.

(** [is_encoding_token]. *)
Definition is_encoding_token (c : ascii) : bool :=
  (33 <=? byte_val c) && (byte_val c <=? 126)
  && negb (existsb (fun k => byte_val c =? k) [34; 40; 41; 44; 58; 59; 60; 61; 62; 63; 64; 91; 92; 93; 123; 125]).

Definition is_header_space (c : ascii) : bool :=
  (byte_val c =? 32) || (byte_val c =? 9) || (byte_val c =? 13) || (byte_val c =? 10).

(** The bytes up to the first that fails a test, and the rest. *)
Fixpoint span_by (p : ascii → bool) (s : string) : string * string :=
  match s with
  | String c rest => if p c then let '(a, b) := span_by p rest in (String c a, b) else ("", s)
  | EmptyString => ("", "")
  end.

Definition f64_add : float → float → float := SFadd 53 1024.
Definition f64_div : float → float → float := SFdiv 53 1024.

(** [parse_quality_prefix]. *)
Definition parse_quality_prefix `{Powi} (raw : string) : option (float * string) :=
  match raw with
  | EmptyString => None
  | String whole remaining =>
      if negb (ascii_eqb whole "0" || ascii_eqb whole "1") then None
      else
        let quality := if ascii_eqb whole "1" then float_one F64 else float_zero in
        match strip_prefix "." remaining with
        | None => Some (quality, remaining)
        | Some fraction =>
            let '(digits, rest) := span_by is_ascii_digit fraction in
            if str_is_empty digits then Some (quality, rest)
            else
              value ← parse_float F64 digits;
              Some (f64_add quality
                      (f64_div value (powi (round_decimal F64 false 10 0) (as_i32 (Z.of_nat (str_len digits))))), rest)
        end
  end.

(** [parse_encoding_header]: each turn takes a token and, but for the last, a comma. *)
Fixpoint parse_encoding_turns `{Powi} (fuel : nat) (remaining : string) : list (string * float) :=
  match fuel with
  | O => []
  | S fuel =>
      let '(value, remaining) := span_by is_encoding_token (trim_start is_header_space remaining) in
      if str_is_empty value then []
      else
        let remaining := trim_start is_header_space remaining in
        let parsed :=
          match strip_prefix ";" remaining with
          | None => Some (float_one F64, remaining)
          | Some after_semicolon =>
              match strip_prefix "q=" (trim_start is_header_space after_semicolon) with
              | None => None
              | Some after_quality => parse_quality_prefix after_quality
              end
          end in
        match parsed with
        | None => []
        | Some (quality, remaining) =>
            (value, quality) ::
              match strip_prefix "," (trim_start is_header_space remaining) with
              | None => []
              | Some after_comma => parse_encoding_turns fuel after_comma
              end
        end
  end.
Definition parse_encoding_header `{Powi} (remaining : string) : list (string * float) :=
  parse_encoding_turns (S (str_len remaining)) remaining.

(** The loops of [accepts_gzip] over the offers and the specifications. *)
Definition consider (offer : string) (best : string * float) (spec : string * float) : string * float :=
  let '(value, quality) := spec in
  if negb (String.eqb value "*") && negb (String.eqb value offer) then best
  else if float_gt quality best.2 then (offer, quality) else best.
Definition best_offer (specs : list (string * float)) : string * float :=
  fold_left (fun best offer => fold_left (consider offer) specs best) ["identity"; "gzip"]
    ("identity", round_decimal F64 true 1 0).

(** [accepts_gzip]. *)
Definition accepts_gzip `{Powi} (headers : list string) : bool :=
  let best := best_offer (flat_map parse_encoding_header headers) in
  float_gt best.2 float_zero && String.eqb best.1 "gzip".
