(* ===== verification/MetricsNegotiateProps.v ===== *)
(** * The negotiation of a metrics response: what is chosen

    The order of floats, the order of the clauses that it gives, and what the chosen
    format and encoding have to do with the qualities. *)

From Stdlib Require Import SpecFloat.
From S2P Require Import Prelude.
From S2P Require Import RustStr Config Float PdqSort PdqSortProps PdqSortTheorems MetricsNegotiate.

Local Open Scope Z_scope.

(** ** The order of floats *)

(** A float as a triple that is compared from the left. *)
Definition float_rank (x : float) : Z :=
  match x with
  | S754_infinity s => if s then -2 else 2
  | S754_finite s _ _ => if s then -1 else 1
  | _ => 0
  end.
Definition float_exponent (x : float) : Z :=
  match x with S754_finite s _ e => if s then - e else e | _ => 0 end.
Definition float_mantissa (x : float) : Z :=
  match x with S754_finite s m _ => if s then Zneg m else Zpos m | _ => 0 end.
Definition float_cmp (x y : float) : comparison :=
  then_cmp (float_rank x ?= float_rank y)
    (then_cmp (float_exponent x ?= float_exponent y) (float_mantissa x ?= float_mantissa y)).

Lemma SFcompare_cmp x y : is_nan x = false → is_nan y = false → SFcompare x y = Some (float_cmp x y).
Proof.
  destruct x as [?|[]| |[] m1 e1], y as [?|[]| |[] m2 e2]; try done; intros _ _;
    unfold float_cmp; cbn -[Z.compare Z.opp]; try done.
  - replace (- e1 ?= - e2) with (CompOpp (e1 ?= e2)).
    + by destruct (e1 ?= e2).
    + rewrite <-Z.compare_antisym. by rewrite <-Z.compare_opp.
  - by destruct (e1 ?= e2).
Qed.

Lemma float_cmp_order : CmpOrder float_cmp.
Proof. apply cmp_order_then; [|apply cmp_order_then]; apply cmp_order_Z. Qed.

Lemma float_gt_cmp x y : is_nan x = false → is_nan y = false → float_gt x y = true ↔ float_cmp x y = Gt.
Proof. intros Hx Hy. unfold float_gt. rewrite SFcompare_cmp by done. by destruct (float_cmp x y). Qed.
Lemma float_gt_nan x y : float_gt x y = true → is_nan x = false ∧ is_nan y = false.
Proof. unfold float_gt. destruct x, y; done. Qed.

Lemma float_gt_asym x y : float_gt x y = true → float_gt y x = false.
Proof.
  intros H. destruct (float_gt_nan _ _ H) as [Hx Hy]. apply not_true_iff_false.
  apply float_gt_cmp in H; [|done..]. rewrite float_gt_cmp by done. rewrite (co_sym _ float_cmp_order x y), H. done.
Qed.
Lemma float_gt_trans x y z : float_gt x y = true → float_gt y z = true → float_gt x z = true.
Proof.
  intros H1 H2. destruct (float_gt_nan _ _ H1) as [Hx Hy]. destruct (float_gt_nan _ _ H2) as [_ Hz].
  apply float_gt_cmp in H1, H2; [|done..]. apply float_gt_cmp; [done..|].
  pose proof float_cmp_order as [Sym Lt_ _]. rewrite (Sym y x) in H1. rewrite (Sym z y) in H2. rewrite (Sym z x).
  destruct (float_cmp y x) eqn:E1; try done. destruct (float_cmp z y) eqn:E2; try done. by rewrite (Lt_ _ _ _ E2 E1).
Qed.
Lemma float_le_trans x y z :
  is_nan x = false → is_nan y = false → is_nan z = false →
  float_gt x y = false → float_gt y z = false → float_gt x z = false.
Proof.
  intros Hx Hy Hz. rewrite <-!not_true_iff_false, !float_gt_cmp by done.
  pose proof float_cmp_order as [Sym Lt_ Eq_].
  destruct (float_cmp x y) eqn:E1; try done; destruct (float_cmp y z) eqn:E2; try done; intros _ _.
  - by rewrite (Eq_ _ _ z E1), E2.
  - by rewrite (Eq_ _ _ z E1), E2.
  - rewrite (Sym z x), <-(Eq_ y z x E2), (Sym x y), E1. done.
  - by rewrite (Lt_ _ _ _ E1 E2).
Qed.

(** ** The chosen format *)

(** A clause without wildcards whose quality is a number. *)
Definition plain_clause (c : AcceptClause) : Prop :=
  ac_kind c ≠ "*" ∧ ac_subtype c ≠ "*" ∧ is_nan (ac_quality c) = false.

Lemma plain_precedes c d : plain_clause c → plain_clause d →
  accept_precedes c d = float_gt (ac_quality c) (ac_quality d).
Proof.
  intros _ (Hk%String.eqb_neq & Hs%String.eqb_neq & _). unfold accept_precedes. rewrite Hk, Hs.
  by rewrite !andb_false_r, !orb_false_r.
Qed.

Lemma plain_ordered l : Forall plain_clause l → ordered accept_precedes l.
Proof.
  intros Hl. rewrite Forall_forall in Hl. split.
  - intros x y Hx Hy. rewrite !plain_precedes by auto. intros H%Is_true_true. by apply float_gt_asym.
  - intros x y z Hx Hy Hz. rewrite !plain_precedes by auto. intros H1 H2.
    apply (float_le_trans _ (ac_quality y)); [by apply Hl..|done|done].
Qed.

(** The loop stops at the first clause with a format. *)
Lemma choose_format_first escaping l f e : choose_format escaping l = (f, e) →
  (f = F_Text ∧ Forall (fun c => clause_format c = None) l) ∨
  ∃ pre c post, l = pre ++ c :: post ∧ Forall (fun c => clause_format c = None) pre ∧ clause_format c = Some f.
Proof.
  revert escaping. induction l as [|c l IH]; intros escaping; simpl; [intros [= <- _]; by left|].
  destruct (clause_format c) as [f'|] eqn:Hc.
  - intros [= <- _]. right. exists [], c, l. done.
  - intros [[-> Hl]|(pre & d & post & -> & Hpre & Hd)]%IH; [left; by repeat constructor|].
    right. exists (c :: pre), d, post. split_and!; [done|by constructor|done].
Qed.

Lemma clause_escaping_known escaping c : escaping ∈ escapings → clause_escaping escaping c ∈ escapings.
Proof.
  intros H. unfold clause_escaping. destruct (last_parameter "escaping" c) as [v|]; [|done].
  destruct (existsb (String.eqb v) escapings) eqn:Hv; [|done].
  apply existsb_exists in Hv as (x & Hx & ->%String.eqb_eq). by apply list_elem_of_In.
Qed.
Lemma choose_format_known escaping l : escaping ∈ escapings → (choose_format escaping l).2 ∈ escapings.
Proof.
  revert escaping. induction l as [|c l IH]; intros escaping H; [done|]. simpl.
  pose proof (clause_escaping_known escaping c H). destruct (clause_format c); auto.
Qed.

(** What the negotiation returns. *)
Lemma negotiate_result accept :
  let clauses := omap parse_accept_clause (str_split "," accept) in
  ∃ sorted, sorted ≡ₚ clauses ∧ negotiate_format accept = Ok (choose_format "underscores" sorted) ∧
    (ordered accept_precedes clauses → StronglySorted (fun x y => accept_precedes y x = false) sorted).
Proof.
  intros clauses. destruct (sort_clauses_result accept_precedes clauses) as (l & Hl & Hp & Hs).
  exists l. split_and!; [done| |done]. unfold negotiate_format. fold clauses. by rewrite Hl.
Qed.

(** C29: The negotiation answers every Accept header, with one of the four escapings that
    the encoder knows. *)
Theorem negotiation_answers (accept : string) :
  ∃ format escaping, negotiate_format accept = Ok (format, escaping) ∧ escaping ∈ escapings.
Proof.
  destruct (negotiate_result accept) as (l & _ & -> & _).
  destruct (choose_format "underscores" l) as [f e] eqn:E. exists f, e. split; [done|].
  change e with (f, e).2. rewrite <-E. apply choose_format_known. by do 3 constructor.
Qed.

(** C28: When no clause of the header has a wildcard or a quality that is not a number, the
    negotiated format is the one of a clause that asks for a format and that no such
    clause outranks in quality; without such a clause it is the text format. *)
Theorem negotiation_best (accept : string) :
  let clauses := omap parse_accept_clause (str_split "," accept) in
  Forall plain_clause clauses →
  ∃ format escaping, negotiate_format accept = Ok (format, escaping) ∧
    ((format = F_Text ∧ ∀ c, c ∈ clauses → clause_format c = None) ∨
     ∃ c, c ∈ clauses ∧ clause_format c = Some format ∧
       ∀ d, d ∈ clauses → clause_format d ≠ None → float_gt (ac_quality d) (ac_quality c) = false).
Proof.
  intros clauses Hplain. destruct (negotiate_result accept) as (l & Hp & -> & Hs). fold clauses in Hp, Hs.
  specialize (Hs (plain_ordered _ Hplain)).
  destruct (choose_format "underscores" l) as [f e] eqn:E. exists f, e. split; [done|].
  apply choose_format_first in E as [[-> Hnone]|(pre & c & post & Hl & Hpre & Hc)]; [left|right].
  { split; [done|]. intros c. rewrite <-Hp. rewrite Forall_forall in Hnone. apply Hnone. }
  rewrite Forall_forall in Hplain. assert (∀ d, d ∈ c :: post → d ∈ clauses) as Hin
    by (intros d Hd; rewrite <-Hp, Hl; apply elem_of_app; by right).
  exists c. split_and!; [apply Hin; by left|done|]. intros d Hd Hdf. rewrite <-Hp, Hl, elem_of_app, elem_of_cons in Hd.
  destruct Hd as [Hd|[->|Hd]].
  - rewrite Forall_forall in Hpre. by apply Hpre in Hd.
  - destruct (float_gt (ac_quality c) (ac_quality c)) eqn:Hg; [|done]. by rewrite (float_gt_asym _ _ Hg) in Hg.
  - rewrite <-plain_precedes; [|by apply Hplain, Hin; right|apply Hplain, Hin; by left].
    rewrite Hl in Hs. apply StronglySorted_app_1_r in Hs. apply StronglySorted_inv in Hs as [_ Hall].
    rewrite Forall_forall in Hall. by apply Hall.
Qed.

Definition demo_accept : string :=
  "text/plain;version=0.0.4;q=0.3, application/vnd.google.protobuf;proto=io.prometheus.client.MetricFamily;encoding=delimited;q=0.7;escaping=values, application/json".

Lemma negotiation_best_witness :
  negotiate_format demo_accept = Ok (F_ProtoDelimited, "values") ∧
  ∃ format escaping, negotiate_format demo_accept = Ok (format, escaping) ∧
    ((format = F_Text ∧ ∀ c, c ∈ omap parse_accept_clause (str_split "," demo_accept) → clause_format c = None) ∨
     ∃ c, c ∈ omap parse_accept_clause (str_split "," demo_accept) ∧ clause_format c = Some format ∧
       ∀ d, d ∈ omap parse_accept_clause (str_split "," demo_accept) → clause_format d ≠ None →
         float_gt (ac_quality d) (ac_quality c) = false).
Proof.
  split; [by vm_compute|]. apply (negotiation_best demo_accept). vm_compute. repeat constructor; done.
Defined.

(** ** Compression *)

(** The loop over the specifications keeps the best offer so far. *)
Definition matches (offer value : string) : Prop := value = "*" ∨ value = offer.

Lemma consider_matches offer best value quality :
  consider offer best (value, quality) =
    if decide (matches offer value) then if float_gt quality best.2 then (offer, quality) else best else best.
Proof.
  unfold consider. destruct (String.eqb_spec value "*") as [E1|H1], (String.eqb_spec value offer) as [E2|H2]; cbn;
    try (rewrite decide_True by (unfold matches; tauto); done).
  rewrite decide_False by (unfold matches; tauto). done.
Qed.

(** What the loop over the specifications for one offer finds. *)
Lemma consider_all offer specs best :
  is_nan best.2 = false → Forall (fun spec => is_nan spec.2 = false) specs →
  let best' := fold_left (consider offer) specs best in
  is_nan best'.2 = false ∧ float_gt best.2 best'.2 = false ∧
  (∀ value q, (value, q) ∈ specs → matches offer value → float_gt q best'.2 = false) ∧
  (best' = best ∨ best'.1 = offer ∧ float_gt best'.2 best.2 = true ∧
     ∃ value, (value, best'.2) ∈ specs ∧ matches offer value).
Proof.
  revert best. induction specs as [|[v q] specs IH]; intros best Hb Hspecs; cbn [fold_left].
  { split_and!; [done| |intros ? ? []%elem_of_nil|by left].
    destruct (float_gt best.2 best.2) eqn:E; [|done]. by rewrite (float_gt_asym _ _ E) in E. }
  apply Forall_cons in Hspecs as [Hq Hspecs]. cbn in Hq. rewrite consider_matches.
  destruct (decide (matches offer v)) as [Hm|Hm]; [destruct (float_gt q best.2) eqn:Hg|].
  - destruct (IH (offer, q) Hq Hspecs) as (Hn & Hge & Hall & Hcase). set (best' := fold_left _ _ _) in *. cbn in Hge, Hcase.
    assert (float_gt best.2 best'.2 = false) as Hge'
      by (apply (float_le_trans _ q); [done..|by apply float_gt_asym|done]).
    split_and!; [done|done| |].
    + intros value q' [[= -> ->]|Hin]%elem_of_cons Hm'; [done|by eapply Hall].
    + right. destruct Hcase as [Heq|(? & Hgt & value & Hin & Hv)].
      * rewrite Heq. cbn. split_and!; [done|done|]. exists v. split; [by left|done].
      * split_and!; [done|by eapply float_gt_trans|]. exists value. split; [by right|done].
  - destruct (IH best Hb Hspecs) as (Hn & Hge & Hall & Hcase). set (best' := fold_left _ _ _) in *.
    split_and!; [done|done| |].
    + intros value q' [[= -> ->]|Hin]%elem_of_cons Hm'; [|by eapply Hall].
      by apply (float_le_trans _ best.2).
    + destruct Hcase as [|(? & ? & value & Hin & Hv)]; [by left|right]. split_and!; [done..|].
      exists value. split; [by right|done].
  - destruct (IH best Hb Hspecs) as (Hn & Hge & Hall & Hcase). set (best' := fold_left _ _ _) in *.
    split_and!; [done|done| |].
    + intros value q' [[= -> ->]|Hin]%elem_of_cons Hm'; [done|by eapply Hall].
    + destruct Hcase as [|(? & ? & value & Hin & Hv)]; [by left|right]. split_and!; [done..|].
      exists value. split; [by right|done].
Qed.

Lemma float_gt_le x y z : is_nan z = false → float_gt x y = true → float_gt z y = false → float_gt x z = true.
Proof.
  intros Hz H1 H2. destruct (float_gt_nan _ _ H1) as [Hx Hy]. apply not_false_iff_true. intros H.
  rewrite (float_le_trans x z y) in H1; done.
Qed.
Lemma float_ge_gt x y z : is_nan z = false → float_gt x y = true → float_gt x z = false → float_gt z y = true.
Proof.
  intros Hz H1 H2. destruct (float_gt_nan _ _ H1) as [Hx Hy]. apply not_false_iff_true. intros H.
  rewrite (float_le_trans x z y) in H1; done.
Qed.

(** The response is compressed exactly when a specification of the Accept-Encoding
    headers names gzip with a quality above zero and above that of every specification
    that names identity or is a wildcard. *)
Theorem accepts_gzip_exact `{Powi} (headers : list string) :
  let specs := flat_map parse_encoding_header headers in
  Forall (fun spec => is_nan spec.2 = false) specs →
  accepts_gzip headers = true ↔
  ∃ q, ("gzip", q) ∈ specs ∧ float_gt q float_zero = true ∧
    ∀ value q', (value, q') ∈ specs → value = "*" ∨ value = "identity" → float_gt q q' = true.
Proof.
  intros specs Hspecs. unfold accepts_gzip. fold specs. cbn [best_offer fold_left]. unfold best_offer. cbn [fold_left].
  set (best0 := ("identity", round_decimal F64 true 1 0)).
  destruct (consider_all "identity" specs best0 eq_refl Hspecs) as (Hn1 & _ & Hall1 & Hcase1).
  set (best1 := fold_left (consider "identity") specs best0) in *.
  destruct (consider_all "gzip" specs best1 Hn1 Hspecs) as (Hn2 & _ & Hall2 & Hcase2).
  set (best2 := fold_left (consider "gzip") specs best1) in *. rewrite andb_true_iff, String.eqb_eq. split.
  - intros [Hpos Hgzip]. destruct Hcase2 as [Heq|(_ & Hgt & value & Hin & Hm)].
    { exfalso. rewrite Heq in Hgzip. by destruct Hcase1 as [Heq1|(Heq1 & _)]; rewrite Heq1 in Hgzip. }
    assert (∀ value q', (value, q') ∈ specs → value = "*" ∨ value = "identity" → float_gt best2.2 q' = true) as Hbeat.
    { intros v q' Hv Hmv. apply (float_gt_le _ best1.2); [|done|by eapply Hall1].
      rewrite Forall_forall in Hspecs. by apply Hspecs in Hv. }
    exists best2.2. split_and!; [|done|done]. destruct Hm as [->| ->]; [|done]. exfalso.
    pose proof (Hbeat "*" best2.2 Hin (or_introl eq_refl)) as Hbad. by rewrite (float_gt_asym _ _ Hbad) in Hbad.
  - intros (q & Hin & Hpos & Hbeat).
    assert (float_gt q best1.2 = true) as Hq.
    { destruct Hcase1 as [->|(_ & _ & value & Hv & Hm)]; [|by eapply Hbeat].
      eapply float_gt_trans; [exact Hpos|]. by vm_compute. }
    pose proof (Hall2 "gzip" q Hin (or_intror eq_refl)) as Hle. split; [by eapply float_ge_gt|].
    destruct Hcase2 as [Heq|(Heq & _)]; [|done]. rewrite Heq in Hle. congruence.
Qed.

(** [10 ^ n], rounded to nearest. *)
Definition reference_powi : Powi := {| powi x n := round_decimal F64 false 1 n |}.

Lemma accepts_gzip_exact_witness :
  let headers := ["deflate, gzip;q=0.8"; "identity;q=0.5, *;q=0.1"] in
  @accepts_gzip reference_powi headers = true ∧
  (@accepts_gzip reference_powi headers = true ↔
   ∃ q, ("gzip", q) ∈ flat_map (@parse_encoding_header reference_powi) headers ∧ float_gt q float_zero = true ∧
     ∀ value q', (value, q') ∈ flat_map (@parse_encoding_header reference_powi) headers →
       value = "*" ∨ value = "identity" → float_gt q q' = true).
Proof.
  intros headers. split; [by vm_compute|]. apply (@accepts_gzip_exact reference_powi headers).
  vm_compute. repeat constructor.
Defined.
