(* ===== verification/MetricsEncode.v ===== *)
(** * The encoding of metrics

    The rest of encoding.rs of ployz-internal-machine-metrics: the validation of the
    gathered metric families, the escaping of their names, and the text, compact and
    pretty formats. *)

From Stdlib Require Import SpecFloat.
From S2P Require Import Prelude.
From S2P Require Import RustStr MachineName GoQuote Float PdqSort MetricsNegotiate.

Local Open Scope Z_scope.

(** ** The messages

    The fields of the client model's messages that the code reads.  Of a submessage that
    is only tested for its presence, the presence. *)

Inductive MetricType : Set := COUNTER | GAUGE | SUMMARY | UNTYPED | HISTOGRAM.
#[export] Instance MetricType_eq_dec : EqDecision MetricType.
Proof. solve_decision. Defined.
(** [{:?}]. *)
Definition metric_type_debug (t : MetricType) : string :=
  match t with
  | COUNTER => "COUNTER" | GAUGE => "GAUGE" | SUMMARY => "SUMMARY" | UNTYPED => "UNTYPED" | HISTOGRAM => "HISTOGRAM"
  end.

(** [UnknownValueRef]. *)
Inductive UnknownValue : Set := UV_LengthDelimited (b : list ascii) | UV_Other.
Definition UnknownFields : Type := list (Z * UnknownValue).

Record LabelPair := mk_LabelPair { lp_name : option string; lp_value : option string; lp_unknown : UnknownFields }.
Record Counter := mk_Counter { ct_value : option float; ct_unknown : UnknownFields }.
Record Gauge := mk_Gauge { ga_value : option float; ga_unknown : UnknownFields }.
Record Metric := mk_Metric {
  mt_label : list LabelPair; mt_counter : option Counter; mt_gauge : option Gauge;
  mt_timestamp_ms : bool; mt_summary : bool; mt_untyped : bool; mt_histogram : bool; mt_unknown : UnknownFields
}.
(** [type_] holds an [EnumOrUnknown]. *)
Record MetricFamily := mk_MetricFamily {
  mf_name : option string; mf_help : option string; mf_type : option (MetricType + Z);
  mf_metric : list Metric; mf_unknown : UnknownFields
}.
Record Timestamp := mk_Timestamp { ts_seconds : Z; ts_nanos : Z; ts_unknown : UnknownFields }.

(** [EncodeError] and its [Display]; the errors of the libraries are their texts. *)
Inductive EncodeError : Set :=
| EE_Prometheus (error : string) | EE_Protobuf (error : string) | EE_Compression (error : string)
| EE_Unsupported (reason : string).
Definition encode_error_display (e : EncodeError) : string :=
  match e with
  | EE_Prometheus error => "encode Prometheus metrics: " +:+ error
  | EE_Protobuf error => "decode created timestamp: " +:+ error
  | EE_Compression error => "compress metrics response: " +:+ error
  | EE_Unsupported reason => reason
  end.

(** The encoders of the prometheus crate, and the decoder of the timestamp.  Nothing is
    assumed of them: they may fail or panic. *)
Class PrometheusLib := {
  text_encoder : list MetricFamily → result string string;
  protobuf_encoder : list MetricFamily → result string string;
  parse_timestamp : list ascii → result string Timestamp
}.

(** The accessors, with the default of the field. *)
Definition family_name (f : MetricFamily) : string := default "" (mf_name f).
Definition family_help (f : MetricFamily) : string := default "" (mf_help f).
Definition label_name (l : LabelPair) : string := default "" (lp_name l).
Definition label_value (l : LabelPair) : string := default "" (lp_value l).
Definition counter_value (c : Counter) : float := default float_zero (ct_value c).
Definition gauge_value (g : Gauge) : float := default float_zero (ga_value g).
(** [family.type_.unwrap().enum_value().unwrap()]. *)
Definition family_type {E} (f : MetricFamily) : result E MetricType :=
  match mf_type f with
  | Some (inl t) => Ok t
  | Some (inr _) => Panic "called `Result::unwrap()` on an `Err` value"
  | None => Panic "called `Option::unwrap()` on a `None` value"
  end.

Definition unsupported_error {A} (reason : string) : result EncodeError A := Err (EE_Unsupported reason).
(** [if ..  { return Err(unsupported(..)) }]. *)
Definition refuse_if (b : bool) (reason : string) : result EncodeError () := if b then unsupported_error reason else Ok ().

(** ** The validation *)

(** [ensure_no_unknown]. *)
Definition ensure_no_unknown (kind : string) (fields : UnknownFields) (allowed : list Z) : result EncodeError () :=
  match List.find (fun '(number, _) => negb (existsb (Z.eqb number) allowed)) fields with
  | Some (number, _) => unsupported_error (kind +:+ " contains unexpected unknown field " +:+ dec number)
  | None => Ok ()
  end.

(** [ensure_finite]. *)
Definition ensure_finite (value : float) (kind : string) : result EncodeError () :=
  if is_finite value then Ok ()
  else unsupported_error (kind +:+ " value " +:+ float_display F64 value +:+ " is not supported").

(** [validate_created_timestamp]. *)
Definition validate_created_timestamp `{PrometheusLib} (counter : Counter) : result EncodeError Timestamp :=
  ensure_no_unknown "counter" (ct_unknown counter) [3];;
  match List.filter (fun '(number, _) => number =? 3) (ct_unknown counter) with
  | (_, UV_LengthDelimited b) :: rest =>
      refuse_if (negb (bool_decide (rest = []))) "counter contains more than one created_timestamp field 3";;
      timestamp ← map_err EE_Protobuf (parse_timestamp b);
      ensure_no_unknown "created timestamp" (ts_unknown timestamp) [];;
      refuse_if
        (negb ((-62135596800 <=? ts_seconds timestamp) && (ts_seconds timestamp <=? 253402300799))
         || negb ((0 <=? ts_nanos timestamp) && (ts_nanos timestamp <=? 999999999)))
        ("counter created_timestamp is invalid: " +:+ dec (ts_seconds timestamp) +:+ "s "
           +:+ dec (ts_nanos timestamp) +:+ "ns");;
      Ok timestamp
  | _ => unsupported_error "counter is missing length-delimited created_timestamp field 3"
  end.

Definition is_some {A} (o : option A) : bool := match o with Some _ => true | None => false end.

Definition validate_label (label : LabelPair) : result EncodeError () :=
  ensure_no_unknown "label" (lp_unknown label) [];;
  refuse_if (negb (is_some (lp_name label)) || negb (is_some (lp_value label))) "label is missing its name or value".

Section encode.
Context `{UnicodeLib} `{PrometheusLib}.

(** The body of the loop over the metrics of [validate_families]. *)
Definition validate_metric (family : MetricFamily) (metric_type : MetricType) (metric : Metric) : result EncodeError () :=
  ensure_no_unknown "metric" (mt_unknown metric) [];;
  refuse_if (mt_timestamp_ms metric || mt_summary metric || mt_untyped metric || mt_histogram metric)
    ("metric family " +:+ str_debug (family_name family) +:+ " contains an unsupported metric shape");;
  forM_ (mt_label metric) validate_label;;
  match metric_type with
  | COUNTER =>
      match mt_gauge metric, mt_counter metric with
      | None, Some counter =>
          refuse_if (negb (is_some (ct_value counter))) "counter is missing its value";;
          ensure_finite (counter_value counter) "counter";;
          _ ← validate_created_timestamp counter;
          Ok ()
      | _, _ => unsupported_error "counter family has a non-counter metric"
      end
  | GAUGE =>
      match mt_counter metric, mt_gauge metric with
      | None, Some gauge =>
          refuse_if (negb (is_some (ga_value gauge))) "gauge is missing its value";;
          ensure_no_unknown "gauge" (ga_unknown gauge) [];;
          ensure_finite (gauge_value gauge) "gauge"
      | _, _ => unsupported_error "gauge family has a non-gauge metric"
      end
  | _ => Panic "unsupported family types returned above"
  end.

(** [validate_families]. *)
Definition validate_family (family : MetricFamily) : result EncodeError () :=
  ensure_no_unknown "metric family" (mf_unknown family) [];;
  refuse_if (negb (is_some (mf_name family)) || negb (is_some (mf_help family)) || negb (is_some (mf_type family)))
    "metric family is missing name, help, or type";;
  metric_type ← match mf_type family with
                | Some (inl t) => Ok t
                | Some (inr value) => unsupported_error ("unknown metric type " +:+ dec value)
                | None => Panic "type checked above"
                end;
  refuse_if (negb (bool_decide (metric_type = COUNTER) || bool_decide (metric_type = GAUGE)))
    ("metric family " +:+ str_debug (family_name family) +:+ " has unsupported type " +:+ metric_type_debug metric_type);;
  forM_ (mf_metric family) (validate_metric family metric_type).
Definition validate_families (families : list MetricFamily) : result EncodeError () := forM_ families validate_family.

(** ** Names *)

Definition newline_char : ascii := Ascii.ascii_of_nat 10.
Definition quote_mark : ascii := Ascii.ascii_of_nat 34.
Definition line_end : string := String newline_char "".

(** The byte of an ASCII character. *)
Definition ascii_of_char (c : list ascii) : option ascii :=
  match c with [a] => if is_ascii_byte a then Some a else None | _ => None end.
Definition is_char (c : list ascii) (a : ascii) : bool := bool_decide (c = [a]).

(** [is_valid_legacy_character]. *)
Definition is_valid_legacy_character (c : list ascii) (index : nat) : bool :=
  match ascii_of_char c with
  | None => false
  | Some a =>
      is_ascii_lowercase a || is_ascii_uppercase a || ascii_eqb a "_" || ascii_eqb a ":"
      || ((0 <? index)%nat && is_ascii_digit a)
  end.

(** A loop over the characters and their indices. *)
Fixpoint chars_from {A} (f : nat → list ascii → A) (index : nat) (chars : list (list ascii)) : list A :=
  match chars with [] => [] | c :: chars => f index c :: chars_from f (S index) chars end.
Definition map_chars {A} (f : nat → list ascii → A) (s : string) : list A := chars_from f 0 (str_chars s).

(** [is_valid_legacy_name]. *)
Definition is_valid_legacy_name (name : string) : bool :=
  negb (str_is_empty name) && forallb id (map_chars (fun i c => is_valid_legacy_character c i) name).

(** [{:x}] of a character. *)
Definition hex_char (c : list ascii) : string := hex_aux 8 (code_point c) "".

(** The arms of [escape_name] for one character. *)
Definition escape_underscores (index : nat) (c : list ascii) : string :=
  if is_valid_legacy_character c index then of_bytes c else "_".
Definition escape_dots (index : nat) (c : list ascii) : string :=
  if is_char c "_" then "__" else if is_char c "." then "_dot_"
  else if is_valid_legacy_character c index then of_bytes c else "__".
Definition escape_values (index : nat) (c : list ascii) : string :=
  if is_char c "_" then "__" else if is_valid_legacy_character c index then of_bytes c
  else "_" +:+ hex_char c +:+ "_".

(** [escape_name]. *)
Definition escape_name (name escaping : string) : result EncodeError string :=
  if str_is_empty name then Ok ""
  else if String.eqb escaping "underscores" then Ok (String.concat "" (map_chars escape_underscores name))
  else if String.eqb escaping "dots" then Ok (String.concat "" (map_chars escape_dots name))
  else if String.eqb escaping "values" then Ok ("U__" +:+ String.concat "" (map_chars escape_values name))
  else Panic "negotiation returned an unknown escaping scheme".

(** [if !is_valid_legacy_name(name) { *name = escape_name(name, escaping) }], on an
    optional field. *)
Definition escape_field (escaping : string) (field : option string) : result EncodeError (option string) :=
  match field with
  | Some name => if is_valid_legacy_name name then Ok field else Some <$> escape_name name escaping
  | None => Ok None
  end.

(** [escape_metric_families]. *)
Definition escape_label (escaping : string) (label : LabelPair) : result EncodeError LabelPair :=
  if String.eqb (label_name label) "__name__"
  then value ← escape_field escaping (lp_value label); Ok (mk_LabelPair (lp_name label) value (lp_unknown label))
  else name ← escape_field escaping (lp_name label); Ok (mk_LabelPair name (lp_value label) (lp_unknown label)).
Definition escape_metric (escaping : string) (m : Metric) : result EncodeError Metric :=
  labels ← mapM (escape_label escaping) (mt_label m);
  Ok (mk_Metric labels (mt_counter m) (mt_gauge m) (mt_timestamp_ms m) (mt_summary m) (mt_untyped m)
        (mt_histogram m) (mt_unknown m)).
Definition escape_family (escaping : string) (f : MetricFamily) : result EncodeError MetricFamily :=
  name ← escape_field escaping (mf_name f);
  metrics ← mapM (escape_metric escaping) (mf_metric f);
  Ok (mk_MetricFamily name (mf_help f) (mf_type f) metrics (mf_unknown f)).
Definition escape_metric_families (families : list MetricFamily) (escaping : string) : result EncodeError (list MetricFamily) :=
  mapM (escape_family escaping) families.

(** [text_needs_quoted_names]. *)
Definition text_needs_quoted_names (families : list MetricFamily) : bool :=
  existsb (fun family =>
    negb (is_valid_legacy_name (family_name family))
    || existsb (fun metric => existsb (fun label => negb (is_valid_legacy_name (label_name label))) (mt_label metric))
         (mf_metric family)) families.

(** ** The text format with quoted names *)

(** [write_text_escaped]. *)
Definition text_escape (include_double_quote : bool) (c : list ascii) : string :=
  if is_char c "\" then "\\" else if is_char c newline_char then "\n"
  else if is_char c quote_mark && include_double_quote then "\" +:+ double_quote
  else of_bytes c.
Definition text_escaped (value : string) (include_double_quote : bool) : string :=
  String.concat "" (map (text_escape include_double_quote) (str_chars value)).

(** [write_text_name]. *)
Definition text_name (name : string) : string :=
  if is_valid_legacy_name name then name else double_quote +:+ text_escaped name true +:+ double_quote.

(** The loop of [write_text_sample_name_and_labels]. *)
Fixpoint text_labels (comma : bool) (labels : list LabelPair) : string :=
  match labels with
  | [] => ""
  | label :: labels =>
      (if comma then "," else "") +:+ text_name (label_name label) +:+ "=" +:+ double_quote
        +:+ text_escaped (label_value label) true +:+ double_quote +:+ text_labels true labels
  end.
(** [write_text_sample_name_and_labels]. *)
Definition text_sample (name : string) (labels : list LabelPair) : string :=
  let inside := negb (is_valid_legacy_name name) in
  (if inside then "{" +:+ text_name name else name)
    +:+ (if negb (bool_decide (labels = [])) && negb inside then "{" else "")
    +:+ text_labels inside labels
    +:+ (if inside || negb (bool_decide (labels = [])) then "}" else "").

(** [canonical_float]. *)
Definition canonical_float (value : float) : string := float_display F64 value.

(** The bodies of the loops of [write_utf8_text]. *)
Definition text_metric (name : string) (metric : Metric) : result EncodeError string :=
  value ← expect "metric shape was validated"
            (match counter_value <$> mt_counter metric with
             | Some v => Some v
             | None => gauge_value <$> mt_gauge metric
             end);
  Ok (text_sample name (mt_label metric) +:+ " " +:+ canonical_float value +:+ line_end).
Definition text_family (family : MetricFamily) : result EncodeError string :=
  let name := family_name family in
  if str_is_empty name then unsupported_error "metric family has no name"
  else
    let help := if str_is_empty (family_help family) then ""
                else "# HELP " +:+ text_name name +:+ " " +:+ text_escaped (family_help family) false +:+ line_end in
    kind ← family_type family;
    kind ← match kind with
           | COUNTER => Ok " counter"
           | GAUGE => Ok " gauge"
           | _ => Panic "unsupported metric type was validated"
           end;
    samples ← mapM (text_metric name) (mf_metric family);
    Ok (help +:+ "# TYPE " +:+ text_name name +:+ kind +:+ line_end +:+ String.concat "" samples).
(** [write_utf8_text]. *)
Definition write_utf8_text (families : list MetricFamily) : result EncodeError string :=
  String.concat "" <$> mapM text_family families.

(** ** The compact and the pretty formats *)

(** The arms of [quoted]. *)
Definition quoted_char (c : list ascii) : string :=
  let r := code_point c in
  if is_char c quote_mark then "\" +:+ double_quote else if is_char c "\" then "\\"
  else if r =? 10 then "\n" else if r =? 13 then "\r" else if r =? 9 then "\t"
  else if (r <=? 31) || (r =? 127) then "\x" +:+ hex_digits 2 r
  else if (128 <=? r) && (r <=? 159) then "\u" +:+ hex_digits 4 r
  else of_bytes c.
(** [quoted]. *)
Definition quoted (value : string) : string :=
  double_quote +:+ String.concat "" (map quoted_char (str_chars value)) +:+ double_quote.

(** [compact_field] on the text before it. *)
Definition compact_field (text name value : string) : string :=
  text +:+ (if str_is_empty text then "" else " ") +:+ name +:+ ":" +:+ value.

(** [write_compact_timestamp]. *)
Definition compact_timestamp (t : Timestamp) : string :=
  (if ts_seconds t =? 0 then "" else "seconds:" +:+ dec (ts_seconds t))
    +:+ (if ts_nanos t =? 0 then ""
         else (if ts_seconds t =? 0 then "" else " ") +:+ "nanos:" +:+ dec (ts_nanos t)).

Definition compact_label (label : LabelPair) : string :=
  "label:{name:" +:+ quoted (label_name label) +:+ " value:" +:+ quoted (label_value label) +:+ "}" +:+ " ".
(** The body of the loop of [write_compact]. *)
Definition compact_metric (metric : Metric) : result EncodeError string :=
  value ← match mt_counter metric, mt_gauge metric with
          | Some counter, _ =>
              timestamp ← validate_created_timestamp counter;
              Ok ("counter:{value:" +:+ canonical_float (counter_value counter) +:+ " created_timestamp:{"
                    +:+ compact_timestamp timestamp +:+ "}}")
          | None, Some gauge => Ok ("gauge:{value:" +:+ canonical_float (gauge_value gauge) +:+ "}")
          | None, None => Ok ""
          end;
  Ok (" " +:+ "metric:{" +:+ String.concat "" (map compact_label (mt_label metric)) +:+ value +:+ "}").
(** [write_compact]; its text is not empty when the loop starts. *)
Definition write_compact (family : MetricFamily) : result EncodeError string :=
  let text := compact_field "" "name" (quoted (family_name family)) in
  let text := compact_field text "help" (quoted (family_help family)) in
  kind ← family_type family;
  let text := compact_field text "type" (metric_type_debug kind) in
  metrics ← mapM compact_metric (mf_metric family);
  Ok (text +:+ String.concat "" metrics +:+ line_end).

Definition pretty_label (label : LabelPair) : string :=
  "  label: {" +:+ line_end
    +:+ "    name: " +:+ quoted (label_name label) +:+ line_end
    +:+ "    value: " +:+ quoted (label_value label) +:+ line_end
    +:+ "  }" +:+ line_end.
(** The body of the loop of [write_pretty]. *)
Definition pretty_metric (metric : Metric) : result EncodeError string :=
  value ← match mt_counter metric, mt_gauge metric with
          | Some counter, _ =>
              timestamp ← validate_created_timestamp counter;
              Ok ("  counter: {" +:+ line_end
                    +:+ "    value: " +:+ canonical_float (counter_value counter) +:+ line_end
                    +:+ "    created_timestamp: {" +:+ line_end
                    +:+ (if ts_seconds timestamp =? 0 then ""
                         else "      seconds: " +:+ dec (ts_seconds timestamp) +:+ line_end)
                    +:+ (if ts_nanos timestamp =? 0 then ""
                         else "      nanos: " +:+ dec (ts_nanos timestamp) +:+ line_end)
                    +:+ "    }" +:+ line_end +:+ "  }" +:+ line_end)
          | None, Some gauge =>
              Ok ("  gauge: {" +:+ line_end
                    +:+ "    value: " +:+ canonical_float (gauge_value gauge) +:+ line_end +:+ "  }" +:+ line_end)
          | None, None => Ok ""
          end;
  Ok ("metric: {" +:+ line_end +:+ String.concat "" (map pretty_label (mt_label metric)) +:+ value +:+ "}" +:+ line_end).
(** [write_pretty]. *)
Definition write_pretty (family : MetricFamily) : result EncodeError string :=
  kind ← family_type family;
  metrics ← mapM pretty_metric (mf_metric family);
  Ok ("name: " +:+ quoted (family_name family) +:+ line_end +:+ "help: " +:+ quoted (family_help family) +:+ line_end
        +:+ "type: " +:+ metric_type_debug kind +:+ line_end +:+ String.concat "" metrics +:+ line_end).

(** ** [encode] *)
Definition encode (families : list MetricFamily) (format : Format) (escaping : string) : result EncodeError string :=
  validate_families families;;
  families ← (if bool_decide (format = F_ProtoDelimited) || String.eqb escaping "allow-utf-8" then Ok families
              else escape_metric_families families escaping);
  match format with
  | F_Text =>
      if text_needs_quoted_names families then write_utf8_text families
      else map_err EE_Prometheus (text_encoder families)
  | F_ProtoDelimited => map_err EE_Prometheus (protobuf_encoder families)
  | F_ProtoCompact => String.concat "" <$> mapM write_compact families
  | F_ProtoText => String.concat "" <$> mapM write_pretty families
  end.
End encode.
