(* ===== verification/MetricsEncodeProps.v ===== *)
(** * The encoding of metrics: names and literals

    The escapings make names of the legacy alphabet, "values" keeps them apart, and the
    quoted literals are read back. *)

From S2P Require Import Prelude.
From S2P Require Import RustStr NetAddr MachineName GoQuote Secret Chars Float MetricsNegotiate MetricsEncode.

Local Open Scope Z_scope.

(** ** The characters of an ASCII text *)

Definition ascii_text (l : list ascii) : Prop := Forall (fun c => is_ascii_byte c = true) l.

Lemma str_chars_ascii s : ascii_text (bytes s) → str_chars s = map (fun c => [c]) (bytes s).
Proof.
  unfold str_chars. rewrite <-length_bytes. generalize (bytes s) as l. induction 1 as [|c l Hc Hl IH]; [done|].
  cbn [length chars_aux map]. assert (utf8_char (c :: l) = (1%nat, true)) as ->.
  { unfold utf8_char. unfold is_ascii_byte in Hc. by rewrite Hc. }
  cbn [fst]. change (drop 1 (c :: l)) with l. by rewrite IH.
Qed.

(** A legacy name, on its bytes. *)
Definition legacy_byte (c : ascii) : bool :=
  is_ascii_lowercase c || is_ascii_uppercase c || ascii_eqb c "_" || ascii_eqb c ":" || is_ascii_digit c.
Definition legacy_bytes (l : list ascii) : Prop :=
  Forall (fun c => is_ascii_byte c = true ∧ legacy_byte c = true) l ∧ (∀ c, head l = Some c → is_ascii_digit c = false).

Lemma chars_from_lookup {A} (f : nat → list ascii → A) k l i c :
  l !! i = Some c → chars_from f k l !! i = Some (f (k + i)%nat c).
Proof.
  revert k i. induction l as [|d l IH]; intros k [|i]; try done.
  - intros [= ->]. cbn. by rewrite Nat.add_0_r.
  - intros Hc. change (chars_from f (S k) l !! i = Some (f (k + S i)%nat c)). rewrite (IH (S k) i Hc). do 2 f_equal. lia.
Qed.
Lemma chars_from_length {A} (f : nat → list ascii → A) k l : length (chars_from f k l) = length l.
Proof. revert k. induction l; intros k; cbn; auto. Qed.

Lemma legacy_name_bytes s : legacy_bytes (bytes s) → s ≠ "" → is_valid_legacy_name s = true.
Proof.
  intros [Hall Hhead] Hne. unfold is_valid_legacy_name.
  assert (ascii_text (bytes s)) as Ha by (eapply Forall_impl; [done|]; naive_solver).
  unfold map_chars. rewrite (str_chars_ascii _ Ha). apply andb_true_iff. split; [by destruct s|].
  apply forallb_forall. intros b Hb%list_elem_of_In. apply list_elem_of_lookup in Hb as [i Hi].
  pose proof (lookup_lt_Some _ _ _ Hi) as Hlt. rewrite chars_from_length, length_map in Hlt.
  destruct (lookup_lt_is_Some_2 _ _ Hlt) as [c Hc].
  rewrite (chars_from_lookup _ _ _ i [c]) in Hi by (by rewrite list_lookup_fmap, Hc).
  injection Hi as <-. rewrite Forall_lookup in Hall. destruct (Hall _ _ Hc) as [Hac Hl].
  unfold is_valid_legacy_character, ascii_of_char. rewrite Hac. unfold legacy_byte in Hl.
  destruct i as [|i]; cbn; [|by rewrite Hl].
  rewrite (Hhead c) in Hl by (by destruct (bytes s)). exact Hl.
Qed.

(** ** The escapings *)

Definition legacy_ok (c : ascii) : Prop := is_ascii_byte c = true ∧ legacy_byte c = true.

(** What an escaping writes for a character at an index. *)
Definition legacy_piece (index : nat) (piece : string) : Prop :=
  Forall legacy_ok (bytes piece) ∧ ∃ c, head (bytes piece) = Some c ∧ (index = 0%nat → is_ascii_digit c = false).

Lemma valid_piece c index : is_valid_legacy_character c index = true → legacy_piece index (of_bytes c).
Proof.
  unfold is_valid_legacy_character, ascii_of_char, legacy_piece, legacy_ok, legacy_byte.
  destruct c as [|a [|? ?]]; try done. destruct (is_ascii_byte a) eqn:Ha; [|done]. intros Hv.
  rewrite bytes_of_bytes. destruct (is_ascii_lowercase a) eqn:E1, (is_ascii_uppercase a) eqn:E2,
    (ascii_eqb a "_") eqn:E3, (ascii_eqb a ":") eqn:E4; cbn in Hv |- *; try done;
  (split; [repeat constructor; auto; rewrite ?E1, ?E2, ?E3, ?E4; try done; by destruct index|]); exists a;
  (split; [done|]); intros ->; try done;
  revert E1 E2 E3 E4; unfold is_ascii_lowercase, is_ascii_uppercase, is_ascii_digit, ascii_eqb;
  destruct a as [[] [] [] [] [] [] [] []]; vm_compute; done.
Qed.


Lemma hex_digit_legacy d : 0 <= d < 16 → legacy_ok (hex_digit d) ∧ hex_digit d ≠ "_"%char.
Proof.
  intros Hd. assert (∃ n, d = Z.of_nat n ∧ (n < 16)%nat) as (n & -> & Hn) by (exists (Z.to_nat d); lia).
  do 16 (destruct n as [|n]; [split; [by split|done]|]). lia.
Qed.
Lemma hex_aux_legacy fuel z acc : Forall legacy_ok (bytes acc) → Forall legacy_ok (bytes (hex_aux fuel z acc)).
Proof.
  revert z acc. induction fuel as [|fuel IH]; intros z acc Hacc; [done|]. cbn [hex_aux].
  assert (Forall legacy_ok (bytes (String (hex_digit (z mod 16)) acc))) as H'.
  { constructor; [|done]. apply hex_digit_legacy. apply Z.mod_pos_bound. lia. }
  destruct (z / 16 =? 0); auto.
Qed.

Lemma underscore_piece index tail : Forall legacy_ok (bytes tail) → legacy_piece index ("_" +:+ tail).
Proof. intros Ht. split; [by constructor|]. by exists "_"%char. Qed.

Lemma escape_underscores_piece index c : legacy_piece index (escape_underscores index c).
Proof.
  unfold escape_underscores. destruct (is_valid_legacy_character c index) eqn:E; [by apply valid_piece|].
  apply (underscore_piece index ""). constructor.
Qed.
Lemma escape_dots_piece index c : legacy_piece index (escape_dots index c).
Proof.
  unfold escape_dots. destruct (is_char c "_"); [apply (underscore_piece _ "_"); by repeat constructor|].
  destruct (is_char c "."); [apply (underscore_piece _ "dot_"); by repeat constructor|].
  destruct (is_valid_legacy_character c index) eqn:E; [by apply valid_piece|].
  apply (underscore_piece _ "_"); by repeat constructor.
Qed.
Lemma escape_values_piece index c : legacy_piece index (escape_values index c).
Proof.
  unfold escape_values. destruct (is_char c "_"); [apply (underscore_piece _ "_"); by repeat constructor|].
  destruct (is_valid_legacy_character c index) eqn:E; [by apply valid_piece|].
  apply underscore_piece. rewrite bytes_app. apply Forall_app_2; [apply hex_aux_legacy; constructor|by repeat constructor].
Qed.

Lemma pieces_legacy f k chars : (∀ index c, legacy_piece index (f index c)) →
  Forall legacy_ok (bytes (String.concat "" (chars_from f k chars))).
Proof.
  intros Hf. rewrite bytes_concat. revert k. induction chars as [|c chars IH]; intros k; [constructor|].
  cbn [chars_from map]. apply Forall_app_2; [apply Hf|apply IH].
Qed.

Lemma str_chars_nonempty s : s ≠ "" → str_chars s ≠ [].
Proof. by destruct s. Qed.

(** The escaped name is not empty and starts with what the first character became. *)
Lemma pieces_head f s : (∀ index c, legacy_piece index (f index c)) → s ≠ "" →
  ∃ c, head (bytes (String.concat "" (map_chars f s))) = Some c ∧ is_ascii_digit c = false.
Proof.
  intros Hf Hs. apply str_chars_nonempty in Hs. unfold map_chars. rewrite bytes_concat.
  destruct (str_chars s) as [|c chars]; [done|]. cbn [chars_from map].
  destruct (Hf 0%nat c) as (_ & a & Ha & Hd). exists a. split; [|auto].
  change (head (bytes (f 0%nat c) ++ mjoin (map bytes (chars_from f 1 chars))) = Some a).
  by destruct (bytes (f 0%nat c)).
Qed.

Lemma pieces_name f s : (∀ index c, legacy_piece index (f index c)) → s ≠ "" →
  is_valid_legacy_name (String.concat "" (map_chars f s)) = true.
Proof.
  intros Hf Hs. destruct (pieces_head f s Hf Hs) as (c & Hc & Hd). apply legacy_name_bytes.
  - split; [by apply pieces_legacy|]. intros d Hd'. congruence.
  - intros E. by rewrite E in Hc.
Qed.

Lemma escape_name_legacy name escaping : name ≠ "" → escaping ∈ escapings → escaping ≠ "allow-utf-8" →
  ∃ name', escape_name name escaping = Ok name' ∧ is_valid_legacy_name name' = true.
Proof.
  intros Hne He Hn. unfold escape_name. assert (str_is_empty name = false) as -> by (by destruct name).
  unfold escapings in He. rewrite !elem_of_cons, elem_of_nil in He. destruct He as [?|[->|[->|[->|[]]]]]; [done|..]; cbn.
  - eexists. split; [done|]. apply pieces_name; [apply escape_dots_piece|done].
  - eexists. split; [done|]. apply pieces_name; [apply escape_underscores_piece|done].
  - eexists. split; [done|]. apply legacy_name_bytes; [|done]. split.
    + change (Forall legacy_ok (bytes "U__" ++ bytes (String.concat "" (map_chars escape_values name)))).
      apply Forall_app_2; [by repeat constructor|]. apply pieces_legacy, escape_values_piece.
    + by intros c [= <-].
Qed.

(** ** The encoding of metrics: what a reader gets back

    Readers for the escaped names and for the literals of the text formats, and the
    proofs that they return what was written. *)

(** ** The names that "values" writes *)

Inductive Unescape : Set := UE_Plain | UE_Underscore | UE_Hex (acc : Z).

(** The unescaping of the Prometheus data model: a double underscore is an underscore, a
    hexadecimal number between underscores the character with that code point. *)
Fixpoint unescape (state : Unescape) (l : list ascii) : option (list ascii) :=
  match l with
  | [] => match state with UE_Plain => Some [] | _ => None end
  | c :: l =>
      match state with
      | UE_Plain => if ascii_eqb c "_" then unescape UE_Underscore l else cons c <$> unescape UE_Plain l
      | UE_Underscore =>
          if ascii_eqb c "_" then cons "_"%char <$> unescape UE_Plain l
          else d ← to_digit 16 c; unescape (UE_Hex d) l
      | UE_Hex acc =>
          if ascii_eqb c "_" then app (encode_utf8 acc) <$> unescape UE_Plain l
          else d ← to_digit 16 c; unescape (UE_Hex (acc * 16 + d)) l
      end
  end.
Definition unescape_values (name : string) : option string :=
  rest ← strip_prefix "U__" name; of_bytes <$> unescape UE_Plain (bytes rest).

(** Reading hexadecimal digits after an underscore. *)
Definition hex_state (z : Z) : Unescape := if z =? 0 then UE_Underscore else UE_Hex z.

Lemma unescape_digit state z d l : 0 <= d < 16 →
  state = UE_Underscore ∧ z = 0 ∨ state = UE_Hex z →
  unescape state (hex_digit d :: l) = unescape (UE_Hex (z * 16 + d)) l.
Proof.
  intros Hd Hs. destruct (hex_digit_legacy d Hd) as [_ Hne].
  assert (ascii_eqb (hex_digit d) "_" = false) as Heq by (by apply Ascii.eqb_neq).
  destruct Hs as [[-> ->]| ->]; cbn [unescape]; rewrite Heq, to_digit_hex by done; done.
Qed.

Lemma unescape_hex fuel z : 0 <= z < 16 ^ Z.of_nat fuel → (0 < fuel)%nat → ∀ acc t,
  unescape UE_Underscore (bytes (hex_aux fuel z acc) ++ t) = unescape (UE_Hex z) (bytes acc ++ t).
Proof.
  revert z. induction fuel as [|fuel IH]; intros z Hz Hf acc t; [lia|]. cbn [hex_aux].
  assert (0 <= z mod 16 < 16) as Hm by (apply Z.mod_pos_bound; lia).
  destruct (Z.eqb_spec (z / 16) 0) as [E|E].
  - change (bytes (String (hex_digit (z mod 16)) acc) ++ t) with (hex_digit (z mod 16) :: (bytes acc ++ t)).
    rewrite (unescape_digit _ 0) by (done || by left). do 2 f_equal. Z.div_mod_to_equations; lia.
  - rewrite Nat2Z.inj_succ, Z.pow_succ_r in Hz by lia. rewrite IH.
    + change (bytes (String (hex_digit (z mod 16)) acc) ++ t) with (hex_digit (z mod 16) :: (bytes acc ++ t)).
      rewrite (unescape_digit _ (z / 16)) by (done || by right). do 2 f_equal. Z.div_mod_to_equations; lia.
    + split; [apply Z.div_pos; lia|]. apply Z.div_lt_upper_bound; lia.
    + destruct fuel; [|lia]. cbn in Hz. rewrite Z.div_small in E; [done|lia].
Qed.

Lemma unescape_char index c t : char_shape c →
  unescape UE_Plain (bytes (escape_values index c) ++ t) = app c <$> unescape UE_Plain t.
Proof.
  intros Hc. unfold escape_values, is_char. case_bool_decide as Hu.
  { subst. cbn. by destruct (unescape UE_Plain t). }
  destruct (is_valid_legacy_character c index) eqn:Hv.
  - unfold is_valid_legacy_character, ascii_of_char in Hv. destruct c as [|a [|? ?]]; try done.
    cbn. assert (ascii_eqb a "_" = false) as -> by (apply Ascii.eqb_neq; congruence).
    by destruct (unescape UE_Plain t).
  - rewrite !bytes_app, <-!app_assoc. pose proof (code_point_bound c Hc) as Hb.
    change (unescape UE_Plain (bytes "_" ++ bytes (hex_char c) ++ bytes "_" ++ t)) with
      (unescape UE_Underscore (bytes (hex_aux 8 (code_point c) "") ++ bytes "_" ++ t)).
    rewrite unescape_hex by (cbn; lia). cbn. by rewrite encode_code_point.
Qed.

Lemma unescape_chars chars k : Forall char_shape chars →
  unescape UE_Plain (mjoin (map bytes (chars_from escape_values k chars))) = Some (mjoin chars).
Proof.
  intros H. revert k. induction H as [|c chars Hc H IH]; intros k; [done|]. cbn [chars_from map].
  change (mjoin (bytes (escape_values k c) :: map bytes (chars_from escape_values (S k) chars)))
    with (bytes (escape_values k c) ++ mjoin (map bytes (chars_from escape_values (S k) chars))).
  rewrite unescape_char by done. by rewrite IH.
Qed.

Lemma escape_values_read name : utf8_valid (bytes name) = true → name ≠ "" →
  ∃ name', escape_name name "values" = Ok name' ∧ unescape_values name' = Some name.
Proof.
  intros Hv Hne. unfold escape_name. assert (str_is_empty name = false) as -> by (by destruct name).
  change (String.eqb "values" "underscores") with false. change (String.eqb "values" "dots") with false.
  change (String.eqb "values" "values") with true. eexists. split; [done|].
  set (body := String.concat "" (map_chars escape_values name)). unfold unescape_values.
  change (strip_prefix "U__" ("U__" +:+ body)) with (Some body). cbn [mbind option_bind]. unfold body, map_chars.
  destruct (str_chars_valid name Hv) as [Hs Hj].
  rewrite bytes_concat, unescape_chars by done. cbn. by rewrite Hj, of_bytes_bytes.
Qed.

(** ** The literals *)

(** The escapings of an ASCII character, read by evaluation. *)
Ltac read_ascii a H :=
  destruct a as [[] [] [] [] [] [] [] []]; try (exfalso; vm_compute in H; discriminate H); reflexivity.

Lemma read_quoted_ascii a t : byte_val a < 128 →
  read_literal (bytes (quoted_char [a]) ++ t) = before [a] (read_literal t).
Proof. intros H. read_ascii a H. Qed.
Lemma read_escaped_ascii a t : byte_val a < 128 →
  read_literal (bytes (text_escape true [a]) ++ t) = before [a] (read_literal t).
Proof. intros H. read_ascii a H. Qed.

Lemma read_quoted_char c t : char_shape c →
  read_literal (bytes (quoted_char c) ++ t) = before c (read_literal t).
Proof.
  intros Hc. destruct (Z.lt_ge_cases (code_point c) 128) as [Hn|Hw].
  { destruct (narrow_char c Hc Hn) as (a & -> & Ha). by apply read_quoted_ascii. }
  destruct (wide_char c Hc Hw) as [Hb Hne]. unfold quoted_char, is_char.
  rewrite !bool_decide_eq_false_2 by done. rewrite !(proj2 (Z.eqb_neq (code_point c) _)) by lia.
  rewrite (proj2 (Z.leb_gt (code_point c) 31)) by lia. cbn [orb].
  destruct ((128 <=? code_point c) && (code_point c <=? 159)) eqn:E.
  - apply andb_true_iff in E as [E1%Z.leb_le E2%Z.leb_le]. rewrite read_unicode4 by lia. by rewrite encode_code_point.
  - rewrite bytes_of_bytes. by apply read_copy.
Qed.
Lemma read_escaped_char c t : char_shape c →
  read_literal (bytes (text_escape true c) ++ t) = before c (read_literal t).
Proof.
  intros Hc. destruct (Z.lt_ge_cases (code_point c) 128) as [Hn|Hw].
  { destruct (narrow_char c Hc Hn) as (a & -> & Ha). by apply read_escaped_ascii. }
  destruct (wide_char c Hc Hw) as [Hb Hne]. unfold text_escape, is_char.
  rewrite !bool_decide_eq_false_2 by done. cbn [andb]. rewrite bytes_of_bytes. by apply read_copy.
Qed.
