(* ===== verification/MetricsEncodeTheorems.v ===== *)
(** * The encoding of metrics: theorems

    The encoder does not panic on what the negotiation chooses, the names it writes are
    legacy names, and what it escapes is read back. *)

From S2P Require Import Prelude.
From S2P Require Import RustStr NetAddr MachineName GoQuote Secret Chars Float PdqSort PdqSortProps PdqSortTheorems.
From S2P Require Import MetricsNegotiate MetricsNegotiateProps MetricsEncode MetricsEncodeProps.

Local Open Scope Z_scope.

(** The value of [r] satisfies [Q], and it panics only with a message of [P]. *)
Definition returns_or {E A} (P : string → Prop) (r : result E A) (Q : A → Prop) : Prop :=
  match r with Ok a => Q a | Err _ => True | Panic m => P m end.

Section returns.
Context (P : string → Prop).
Local Notation returns := (returns_or P).

Lemma returns_bind {E A B} (r : result E A) (k : A → result E B) Q' Q :
  returns r Q' → (∀ a, Q' a → returns (k a) Q) → returns (r ≫= k) Q.
Proof. destruct r; cbn; auto. Qed.
Lemma returns_mono {E A} (r : result E A) (Q Q' : A → Prop) : returns r Q → (∀ a, Q a → Q' a) → returns r Q'.
Proof. destruct r; cbn; auto. Qed.
Lemma returns_forM {E A} (l : list A) (f : A → result E ()) (R : A → Prop) :
  (∀ x, returns (f x) (fun _ => R x)) → returns (forM_ l f) (fun _ => Forall R l).
Proof.
  intros Hf. unfold forM_. induction l as [|x l IH]; [by constructor|]. cbn [foldM].
  pose proof (Hf x) as Hx. destruct (f x) as [[]| |]; [|done..]. cbn in Hx |- *.
  eapply returns_mono; [exact IH|]. by constructor.
Qed.
Lemma returns_mapM {E A B} (f : A → result E B) (l : list A) (R : A → Prop) (Q : B → Prop) :
  (∀ x, R x → returns (f x) Q) → Forall R l → returns (mapM f l) (Forall Q).
Proof.
  intros Hf. induction 1 as [|x l Hx Hl IH]; [by constructor|]. cbn [mapM].
  eapply returns_bind; [by apply Hf|]. intros y Hy. eapply returns_bind; [exact IH|]. intros l' Hl'. by constructor.
Qed.
Lemma returns_mapM_all {E A B} (f : A → result E B) (l : list A) (Q : B → Prop) :
  (∀ x, returns (f x) Q) → returns (mapM f l) (Forall Q).
Proof. intros Hf. apply (returns_mapM _ _ (fun _ => True)); [auto|]. by apply Forall_true. Qed.
Lemma returns_fmap {E A B} (g : A → B) (r : result E A) Q :
  returns r (fun _ => True) → (∀ b, Q b) → returns (g <$> r) Q.
Proof. destruct r; cbn; auto. Qed.
Lemma returns_refuse b reason : returns (refuse_if b reason) (fun _ => b = false).
Proof. by destruct b. Qed.
Lemma returns_unknown kind fields allowed : returns (ensure_no_unknown kind fields allowed) (fun _ => True).
Proof. unfold ensure_no_unknown. by destruct (List.find _ _) as [[? ?]|]. Qed.
Lemma returns_finite value kind : returns (ensure_finite value kind) (fun _ => True).
Proof. unfold ensure_finite. by destruct (is_finite value). Qed.
(** A call of a library whose panics are of [P]. *)
Lemma returns_library {E E' A} (f : E' → E) (r : result E' A) :
  (∀ m, r = Panic m → P m) → returns (map_err f r) (fun _ => True).
Proof. destruct r; cbn; auto. Qed.
End returns.

Section encode.
Context `{UnicodeLib} `{PrometheusLib}.

(** What the validation leaves: a metric with a value, in a counter or gauge family. *)
Definition valued (metric : Metric) : Prop := is_Some (mt_counter metric) ∨ is_Some (mt_gauge metric).
Definition validated (family : MetricFamily) : Prop :=
  (mf_type family = Some (inl COUNTER) ∨ mf_type family = Some (inl GAUGE)) ∧ Forall valued (mf_metric family).

(** A panic that comes from the libraries: of an encoder on validated families, which for
    the text format have names that need no quotes, or of the timestamp's decoder. *)
Inductive library_panic (m : string) : Prop :=
| text_panics families : Forall validated families → text_needs_quoted_names families = false →
    text_encoder families = Panic m → library_panic m
| protobuf_panics families : Forall validated families → protobuf_encoder families = Panic m → library_panic m
| timestamp_panics b : parse_timestamp b = Panic m → library_panic m.

Local Notation returns := (returns_or library_panic).

Lemma returns_timestamp counter : returns (validate_created_timestamp counter) (fun _ => True).
Proof.
  unfold validate_created_timestamp. eapply returns_bind; [apply returns_unknown|]. intros [] _.
  destruct (List.filter _ _) as [|[? [b|]] rest]; [done| |done].
  eapply returns_bind; [apply returns_refuse|]. intros [] _.
  eapply returns_bind; [apply returns_library; intros m; apply timestamp_panics|]. intros timestamp _. eapply returns_bind; [apply returns_unknown|]. intros [] _.
  eapply returns_bind; [apply returns_refuse|]. by intros [] _.
Qed.

Lemma returns_validate_label label : returns (validate_label label) (fun _ => True).
Proof.
  unfold validate_label. eapply returns_bind; [apply returns_unknown|]. intros [] _.
  eapply returns_mono; [apply returns_refuse|]. done.
Qed.

Lemma returns_validate_metric family t metric : t = COUNTER ∨ t = GAUGE →
  returns (validate_metric family t metric) (fun _ => valued metric).
Proof.
  intros Ht. unfold validate_metric, valued. eapply returns_bind; [apply returns_unknown|]. intros [] _.
  eapply returns_bind; [apply returns_refuse|]. intros [] _.
  eapply returns_bind; [apply (returns_forM _ _ _ (fun _ => True)), returns_validate_label|]. intros [] _.
  destruct Ht as [-> | ->].
  - destruct (mt_gauge metric), (mt_counter metric) as [counter|]; try done.
    eapply returns_bind; [apply returns_refuse|]. intros [] _.
    eapply returns_bind; [apply returns_finite|]. intros [] _.
    eapply returns_bind; [apply returns_timestamp|]. intros ? _. cbn. eauto.
  - destruct (mt_counter metric), (mt_gauge metric) as [gauge|]; try done.
    eapply returns_bind; [apply returns_refuse|]. intros [] _.
    eapply returns_bind; [apply returns_unknown|]. intros [] _.
    eapply returns_mono; [apply returns_finite|]. eauto.
Qed.

Lemma returns_validate_family family : returns (validate_family family) (fun _ => validated family).
Proof.
  unfold validate_family. eapply returns_bind; [apply returns_unknown|]. intros [] _.
  eapply returns_bind; [apply returns_refuse|]. intros [] Hsome.
  unfold validated. destruct (mf_type family) as [[t|z]|]; [|done|by rewrite !orb_true_r in Hsome]. cbn [mbind result_bind].
  eapply returns_bind; [apply returns_refuse|]. intros [] Ht.
  assert (t = COUNTER ∨ t = GAUGE) as Ht'.
  { apply negb_false_iff, orb_true_iff in Ht as [->%bool_decide_eq_true| ->%bool_decide_eq_true]; auto. }
  eapply returns_mono; [apply returns_forM; intros m; by apply returns_validate_metric|].
  intros [] Hm. split; [|done]. destruct Ht' as [-> | ->]; auto.
Qed.

(** ** Escaping *)

Section escaping.
Context (escaping : string) (Hknown : escaping ∈ escapings) (Hescapes : escaping ≠ "allow-utf-8").

Lemma returns_escape_field field :
  returns (escape_field escaping field) (fun field' =>
    ∀ name, field' = Some name → name = "" ∨ is_valid_legacy_name name = true).
Proof.
  destruct field as [name|]; [|done]. cbn. destruct (is_valid_legacy_name name) eqn:E.
  { intros n [= ->]. auto. }
  destruct (decide (name = "")) as [->|Hne]; [intros n [= <-]; auto|].
  destruct (escape_name_legacy name escaping Hne Hknown Hescapes) as (name' & -> & Hl). intros n [= <-]. auto.
Qed.

(** The names of a family, of its metrics' labels, are empty or legacy names. *)
Definition label_plain (label : LabelPair) : Prop :=
  label_name label = "" ∨ is_valid_legacy_name (label_name label) = true.
Definition metric_plain (metric : Metric) : Prop := valued metric ∧ Forall label_plain (mt_label metric).
Definition family_plain (family : MetricFamily) : Prop :=
  (mf_type family = Some (inl COUNTER) ∨ mf_type family = Some (inl GAUGE)) ∧
  (family_name family = "" ∨ is_valid_legacy_name (family_name family) = true) ∧
  Forall metric_plain (mf_metric family).

Lemma returns_escape_label label : returns (escape_label escaping label) label_plain.
Proof.
  unfold escape_label. destruct (String.eqb_spec (label_name label) "__name__") as [E|E].
  - eapply returns_bind; [apply returns_escape_field|]. intros value _. cbn. unfold label_plain, label_name in *. cbn.
    rewrite E. right. by vm_compute.
  - eapply returns_bind; [apply returns_escape_field|]. intros name Hn. cbn. unfold label_plain, label_name. cbn.
    destruct name as [name|]; cbn; auto.
Qed.
Lemma returns_escape_metric metric : valued metric → returns (escape_metric escaping metric) metric_plain.
Proof.
  intros Hv. unfold escape_metric. eapply returns_bind; [apply returns_mapM_all, returns_escape_label|].
  intros labels Hl. split; [exact Hv|exact Hl].
Qed.
Lemma returns_escape_family family : validated family → returns (escape_family escaping family) family_plain.
Proof.
  intros [Ht Hm]. unfold escape_family. eapply returns_bind; [apply returns_escape_field|]. intros name Hn.
  eapply returns_bind; [eapply returns_mapM; [apply returns_escape_metric|done]|]. intros metrics Hp.
  split_and!; [exact Ht| |exact Hp]. unfold family_name. cbn. destruct name as [name|]; cbn; auto.
Qed.
End escaping.

(** ** Writing *)

Lemma family_type_validated {E} family : validated family →
  ∃ t, @family_type E family = Ok t ∧ (t = COUNTER ∨ t = GAUGE).
Proof. intros [[E1|E1] _]; unfold family_type; rewrite E1; eauto. Qed.

Lemma returns_text_metric name metric : valued metric → returns (text_metric name metric) (fun _ => True).
Proof.
  intros Hv. unfold text_metric. destruct (mt_counter metric) as [c|] eqn:Ec; [done|].
  destruct Hv as [[x Hx]|[x Hx]]; [congruence|]. by rewrite Hx.
Qed.
Lemma returns_text_family family : validated family → returns (text_family family) (fun _ => True).
Proof.
  intros Hf. unfold text_family. destruct (str_is_empty _); [done|].
  destruct (@family_type_validated EncodeError family Hf) as (t & -> & Ht). cbn [mbind result_bind].
  destruct Ht as [-> | ->]; cbn [mbind result_bind];
    (eapply (returns_bind _ _ _ (Forall (fun _ => True))); [eapply (returns_mapM _ _ _ valued); [apply returns_text_metric|apply Hf]|done]).
Qed.
Lemma returns_compact family : validated family → returns (write_compact family) (fun _ => True).
Proof.
  intros Hf. unfold write_compact. destruct (@family_type_validated EncodeError family Hf) as (t & -> & _).
  cbn [mbind result_bind]. eapply returns_bind; [apply (returns_mapM_all _ _ _ (fun _ => True))|done].
  intros metric. unfold compact_metric. destruct (mt_counter metric), (mt_gauge metric); try done;
    (eapply (returns_bind _ _ _ (fun _ => True)); [|done]); (eapply returns_bind; [apply returns_timestamp|done]).
Qed.
Lemma returns_pretty family : validated family → returns (write_pretty family) (fun _ => True).
Proof.
  intros Hf. unfold write_pretty. destruct (@family_type_validated EncodeError family Hf) as (t & -> & _).
  cbn [mbind result_bind]. eapply returns_bind; [apply (returns_mapM_all _ _ _ (fun _ => True))|done].
  intros metric. unfold pretty_metric. destruct (mt_counter metric), (mt_gauge metric); try done;
    (eapply (returns_bind _ _ _ (fun _ => True)); [|done]); (eapply returns_bind; [apply returns_timestamp|done]).
Qed.
Lemma family_plain_validated family : family_plain family → validated family.
Proof. intros (Ht & _ & Hm). split; [done|]. eapply Forall_impl; [done|]. by intros m [? _]. Qed.

(** What the formats write of validated families. *)
Lemma returns_format families format : Forall validated families →
  returns (match format with
           | F_Text =>
               if text_needs_quoted_names families then write_utf8_text families
               else map_err EE_Prometheus (text_encoder families)
           | F_ProtoDelimited => map_err EE_Prometheus (protobuf_encoder families)
           | F_ProtoCompact => String.concat "" <$> mapM write_compact families
           | F_ProtoText => String.concat "" <$> mapM write_pretty families
           end) (fun _ => True).
Proof.
  intros Hf. destruct format.
  - destruct (text_needs_quoted_names families) eqn:Eq; [|apply returns_library; intros m; by apply text_panics].
    apply returns_fmap; [|done]. eapply returns_mono; [by eapply (returns_mapM _ _ _ _ (fun _ => True)); [apply returns_text_family|]|done].
  - apply returns_library. intros m. by apply protobuf_panics.
  - apply returns_fmap; [|done]. eapply returns_mono; [by eapply (returns_mapM _ _ _ _ (fun _ => True)); [apply returns_compact|]|done].
  - apply returns_fmap; [|done]. eapply returns_mono; [by eapply (returns_mapM _ _ _ _ (fun _ => True)); [apply returns_pretty|]|done].
Qed.

Lemma encode_returns families format escaping : escaping ∈ escapings →
  returns (encode families format escaping) (fun _ => True).
Proof.
  intros He. unfold encode. eapply returns_bind; [apply returns_forM, returns_validate_family|]. intros [] Hv.
  apply (returns_bind _ _ _ (Forall validated)); [|intros; by apply returns_format].
  destruct (bool_decide (format = F_ProtoDelimited)); [done|].
  destruct (String.eqb_spec escaping "allow-utf-8") as [E|E]; [done|]. cbn [orb].
  eapply returns_mono; [eapply returns_mapM; [apply (returns_escape_family escaping He E)|done]|].
  intros l Hl. eapply Forall_impl; [done|]. apply family_plain_validated.
Qed.

(** C27: Whatever the Accept header says and whatever the registry holds, the negotiation
    chooses a format and an escaping with which the encoder returns a payload or an error
    and does not panic itself: none of its unwraps, expectations and unreachable arms is
    reached.  A panic can only come out of a library it calls, and then from an encoder
    that was given nothing but counter and gauge families all of whose metrics have a
    value (and, for the text format, names that need no quotes), or from the decoder of
    a timestamp. *)
Theorem negotiated_encoding_returns (accept : string) (families : list MetricFamily) :
  ∃ format escaping, negotiate_format accept = Ok (format, escaping) ∧
    ∀ m, encode families format escaping = Panic m → library_panic m.
Proof.
  destruct (negotiate_result accept) as (l & _ & -> & _).
  destruct (choose_format "underscores" l) as [f e] eqn:E. exists f, e. split; [done|].
  intros m Hm. assert (e ∈ escapings) as He.
  { change e with (f, e).2. rewrite <-E. apply choose_format_known. by do 3 constructor. }
  pose proof (encode_returns families f e He) as Hr. by rewrite Hm in Hr.
Qed.
End encode.

(** ** Names that need no quotes *)

Lemma mapM_all {E A B} (f : A → result E B) (l : list A) (P : A → Prop) (Q : B → Prop) :
  (∀ x, P x → ∃ y, f x = Ok y ∧ Q y) → Forall P l → ∃ l', mapM f l = Ok l' ∧ Forall Q l'.
Proof.
  intros Hf. induction 1 as [|x l Hx Hl (l' & IH & Hl')]; [by exists []|].
  destruct (Hf x Hx) as (y & Hy & Hq). exists (y :: l'). cbn [mapM]. rewrite Hy. cbn [mbind result_bind].
  rewrite IH. split; [done|by constructor].
Qed.

Definition label_named (label : LabelPair) : Prop := label_name label ≠ "".
Definition family_named (family : MetricFamily) : Prop :=
  family_name family ≠ "" ∧ Forall (fun m => Forall label_named (mt_label m)) (mf_metric family).
Definition label_legacy (label : LabelPair) : Prop := is_valid_legacy_name (label_name label) = true.
Definition family_legacy (family : MetricFamily) : Prop :=
  is_valid_legacy_name (family_name family) = true ∧ Forall (fun m => Forall label_legacy (mt_label m)) (mf_metric family).

Section names.
Context (escaping : string) (Hknown : escaping ∈ escapings) (Hescapes : escaping ≠ "allow-utf-8").

Lemma escape_field_named field : default "" field ≠ "" →
  ∃ name, escape_field escaping field = Ok (Some name) ∧ is_valid_legacy_name name = true.
Proof.
  destruct field as [name|]; [|done]. cbn. intros Hne. destruct (is_valid_legacy_name name) eqn:E; [eauto|].
  destruct (escape_name_legacy name escaping Hne Hknown Hescapes) as (name' & -> & Hl). eauto.
Qed.
Lemma escape_field_total field : ∃ field', escape_field escaping field = Ok field'.
Proof.
  destruct (decide (default "" field = "")) as [E|E].
  - destruct field as [name|]; [|by eexists]. cbn in E. subst. by eexists.
  - destruct (escape_field_named field E) as (name & -> & _). by eexists.
Qed.
Lemma escape_label_named label : label_named label → ∃ label', escape_label escaping label = Ok label' ∧ label_legacy label'.
Proof.
  intros Hne. unfold escape_label, label_legacy. destruct (String.eqb_spec (label_name label) "__name__") as [E|E].
  - destruct (escape_field_total (lp_value label)) as (value & ->). eexists. split; [done|].
    unfold label_name in *. cbn. by rewrite E.
  - destruct (escape_field_named (lp_name label) Hne) as (name & -> & Hl). eexists. by split.
Qed.
Lemma escape_family_named family : family_named family → ∃ family', escape_family escaping family = Ok family' ∧ family_legacy family'.
Proof.
  intros [Hname Hlabels]. unfold escape_family.
  destruct (escape_field_named (mf_name family) Hname) as (name & -> & Hl). cbn [mbind result_bind].
  assert (∀ m, Forall label_named (mt_label m) →
    ∃ m', escape_metric escaping m = Ok m' ∧ Forall label_legacy (mt_label m')) as Hmetric.
  { intros m Hm. unfold escape_metric.
    destruct (mapM_all (escape_label escaping) (mt_label m) _ _ escape_label_named Hm) as (labels & -> & Hl'). by eexists. }
  destruct (mapM_all _ _ _ _ Hmetric Hlabels) as (metrics & -> & Hm).
  eexists. split; [done|]. by split.
Qed.
End names.

Lemma legacy_unquoted families : Forall family_legacy families → text_needs_quoted_names families = false.
Proof.
  intros Hf. unfold text_needs_quoted_names. apply not_true_iff_false. rewrite existsb_exists.
  intros (f & Hin%list_elem_of_In & Hq). rewrite Forall_forall in Hf. destruct (Hf f Hin) as [Hn Hm].
  rewrite Hn in Hq. cbn in Hq. apply existsb_exists in Hq as (m & Hin'%list_elem_of_In & Hq).
  apply existsb_exists in Hq as (label & Hin''%list_elem_of_In & Hq).
  rewrite Forall_forall in Hm. specialize (Hm m Hin'). cbn in Hm. rewrite Forall_forall in Hm.
  specialize (Hm label Hin''). unfold label_legacy in Hm. by rewrite Hm in Hq.
Qed.

(** Every escaping but the one that allows UTF-8 turns families whose names and label
    names are not empty into families of legacy names, which the text format writes
    without quotes. *)
Theorem escaped_names_legacy (families : list MetricFamily) (escaping : string) :
  escaping ∈ escapings → escaping ≠ "allow-utf-8" → Forall family_named families →
  ∃ escaped, escape_metric_families families escaping = Ok escaped ∧ text_needs_quoted_names escaped = false.
Proof.
  intros He Hn Hf. destruct (mapM_all (escape_family escaping) families _ _ (escape_family_named escaping He Hn) Hf)
    as (l & Hl & Hlegacy). exists l. split; [exact Hl|by apply legacy_unquoted].
Qed.

Definition demo_label : LabelPair := mk_LabelPair (Some "bad.label") (Some "unchanged") [].
Definition demo_family : MetricFamily :=
  mk_MetricFamily (Some "9bad.metric") (Some "Names.") (Some (inl GAUGE))
    [mk_Metric [demo_label] None (Some (mk_Gauge (Some (float_one F64)) [])) false false false false []] [].

(** Libraries as the encoder has them: the text encoder panics on the types it does not
    write. *)
Definition plain_unicode : UnicodeLib := {| char_escape_debug := of_bytes |}.
Definition written_type (family : MetricFamily) : bool :=
  match mf_type family with Some (inl COUNTER) | Some (inl GAUGE) => true | _ => false end.
Definition strict_prometheus : PrometheusLib := {|
  text_encoder families := if forallb written_type families then Ok "# EOF" else Panic "not implemented";
  protobuf_encoder _ := Ok "";
  parse_timestamp _ := Ok (mk_Timestamp 1 0 [])
|}.
Definition untyped_family : MetricFamily := mk_MetricFamily (Some "up") (Some "Up.") (Some (inl UNTYPED)) [] [].

Lemma negotiated_encoding_returns_witness :
  @text_encoder strict_prometheus [untyped_family] = Panic "not implemented" ∧
  @encode plain_unicode strict_prometheus [untyped_family] F_Text "underscores" =
    Err (EE_Unsupported ("metric family " +:+ double_quote +:+ "up" +:+ double_quote +:+ " has unsupported type UNTYPED")) ∧
  @encode plain_unicode strict_prometheus [demo_family] F_Text "underscores" = Ok "# EOF" ∧
  ∃ format escaping, negotiate_format "text/plain" = Ok (format, escaping) ∧
    ∀ m, @encode plain_unicode strict_prometheus [untyped_family] format escaping = Panic m → @library_panic strict_prometheus m.
Proof.
  split; [by vm_compute|]. split; [by vm_compute|]. split; [by vm_compute|].
  apply (@negotiated_encoding_returns plain_unicode strict_prometheus "text/plain" [untyped_family]).
Defined.

Lemma escaped_names_legacy_witness :
  (f ← escape_family "dots" demo_family; Ok (family_name f)) = Ok "__bad_dot_metric" ∧
  ∃ escaped, escape_metric_families [demo_family] "dots" = Ok escaped ∧ text_needs_quoted_names escaped = false.
Proof.
  split; [by vm_compute|]. apply (escaped_names_legacy [demo_family] "dots").
  - by do 2 constructor.
  - done.
  - by repeat constructor.
Defined.

(** The escaping "values" is reversible: the name it writes is a legacy name, and the
    unescaping of the data model returns the original one. *)
Theorem values_round_trip (name : string) : utf8_valid (bytes name) = true → name ≠ "" →
  ∃ name', escape_name name "values" = Ok name' ∧ is_valid_legacy_name name' = true ∧ unescape_values name' = Some name.
Proof.
  intros Hv Hne. destruct (escape_values_read name Hv Hne) as (name' & Hn & Hu). exists name'. split_and!; [done| |done].
  destruct (escape_name_legacy name "values" Hne) as (n & Hn' & Hl); [by do 4 constructor|done|]. congruence.
Qed.

Lemma values_round_trip_witness :
  escape_name "9bad.metric_" "values" = Ok "U___39_bad_2e_metric__" ∧
  ∃ name', escape_name "9bad.metric_" "values" = Ok name' ∧ is_valid_legacy_name name' = true ∧
    unescape_values name' = Some "9bad.metric_".
Proof. split; [by vm_compute|]. apply (values_round_trip "9bad.metric_"); [by vm_compute|done]. Defined.

(** A literal of the protobuf text formats, and a name or a label value of the text
    format, is read back as what was written, whatever follows it; so no text ends a
    literal or a line early. *)
Theorem literals_read_back (value : string) (t : list ascii) : utf8_valid (bytes value) = true →
  (∃ body, bytes (quoted value) = quote_mark :: body ∧ read_literal (body ++ t) = Some (bytes value, t)) ∧
  read_literal (bytes (text_escaped value true +:+ double_quote) ++ t) = Some (bytes value, t).
Proof.
  intros Hv. split.
  - exists (bytes (String.concat "" (map quoted_char (str_chars value)) +:+ double_quote)).
    split; [done|]. apply read_chars; [done|]. apply read_quoted_char.
  - apply read_chars; [done|]. apply read_escaped_char.
Qed.

Definition demo_text : string := "a" +:+ double_quote +:+ "\b" +:+ line_end.

Lemma literals_read_back_witness :
  quoted demo_text = double_quote +:+ "a\" +:+ double_quote +:+ "\\b\n" +:+ double_quote ∧
  ((∃ body, bytes (quoted demo_text) = quote_mark :: body ∧ read_literal (body ++ []) = Some (bytes demo_text, [])) ∧
   read_literal (bytes (text_escaped demo_text true +:+ double_quote) ++ []) = Some (bytes demo_text, [])).
Proof. split; [by vm_compute|]. apply (literals_read_back demo_text []). by vm_compute. Defined.
