(* ===== verification/MetricsServer.v ===== *)
(** * The metrics server

    lib.rs of ployz-internal-machine-metrics: the accept loop and its delays, the handler
    of a request, the draining of its body, and the instrumentation of scrapes, whose
    count is kept by the values they hold: a handler can be dropped between the start of
    a scrape, its rendering in a task of its own, and the sending of its body. *)

From S2P Require Import Prelude.
From S2P Require Import RustStr Float PdqSort MetricsNegotiate MetricsEncode.

Local Open Scope Z_scope.

(** ** The routes of the metrics server

    routing.rs of ployz-internal-machine-metrics: which requests are answered with the
    metrics, which with a redirect to the cleaned path, and which are not found. *)

(** The methods that the server tells apart. *)
Inductive HttpMethod : Set := M_GET | M_HEAD | M_OPTIONS | M_CONNECT | M_Other.
#[export] Instance HttpMethod_eq_dec : EqDecision HttpMethod.
Proof. solve_decision. Defined.

(** [Route]. *)
Inductive MetricsRoute : Set := R_Metrics | R_NotFound | R_Redirect (location : string) | R_OptionsStar.
#[export] Instance MetricsRoute_eq_dec : EqDecision MetricsRoute.
Proof. solve_decision. Defined.

(** [hex]. *)
Definition hex (c : ascii) : option Z :=
  if is_ascii_digit c then Some (byte_val c - 48)
  else if (97 <=? byte_val c) && (byte_val c <=? 102) then Some (byte_val c - 97 + 10)
  else if (65 <=? byte_val c) && (byte_val c <=? 70) then Some (byte_val c - 65 + 10)
  else None.

(** [percent_decode_segment]. *)
Fixpoint percent_decode (l : list ascii) : option (list ascii) :=
  match l with
  | [] => Some []
  | c :: rest =>
      if ascii_eqb c "%" then
        match rest with
        | high :: low :: rest =>
            high ← hex high; low ← hex low;
            cons (Ascii.ascii_of_N (Z.to_N (Z.lor (Z.shiftl high 4) low))) <$> percent_decode rest
        | _ => None
        end
      else cons c <$> percent_decode rest
  end.
Definition percent_decode_segment (segment : string) : option (list ascii) := percent_decode (bytes segment).

(** [matches_metrics]. *)
Definition matches_metrics (path : string) : bool :=
  match strip_prefix "/" path with
  | None => false
  | Some segment =>
      negb (str_contains "/" segment) && bool_decide (percent_decode_segment segment = Some (bytes "metrics"))
  end.

(** The loop of [clean_path] over the segments; [segments] are kept in reverse. *)
Definition clean_step (segments : list string) (segment : string) : list string :=
  if String.eqb segment "" || String.eqb segment "." then segments
  else if String.eqb segment ".." then tail segments
  else segment :: segments.
Definition clean_segments (path : string) : list string := rev (fold_left clean_step (str_split "/" path) []).

Definition ends_with_slash (s : string) : bool := match last (bytes s) with Some c => ascii_eqb c "/" | None => false end.

(** [clean_path]. *)
Definition clean_path (path : string) : string :=
  if str_is_empty path then "/"
  else
    let cleaned := "/" +:+ str_join "/" (clean_segments path) in
    if ends_with_slash path && negb (String.eqb cleaned "/") then cleaned +:+ "/" else cleaned.

(** [route]. *)
Definition metrics_route (method : HttpMethod) (path : string) (query : option string) : MetricsRoute :=
  if bool_decide (method = M_OPTIONS) && String.eqb path "*" then R_OptionsStar
  else
    let cleaned := clean_path path in
    if negb (bool_decide (method = M_CONNECT)) && negb (String.eqb cleaned path) then
      R_Redirect (cleaned +:+ match query with Some q => "?" +:+ q | None => "" end)
    else if matches_metrics path then R_Metrics else R_NotFound.

(** ** A cleaned path is clean *)

(** The segments that survive. *)
Definition clean_segment (s : string) : Prop := s ≠ "" ∧ s ≠ "." ∧ s ≠ ".." ∧ str_contains "/" s = false.

Lemma fold_clean_segments l acc : Forall (fun s => str_contains "/" s = false) l → Forall clean_segment acc →
  Forall clean_segment (fold_left clean_step l acc).
Proof.
  revert acc. induction l as [|s l IH]; intros acc Hl Hacc; [done|]. apply Forall_cons in Hl as [Hs Hl].
  cbn [fold_left]. apply IH; [done|]. unfold clean_step.
  destruct (String.eqb_spec s ""), (String.eqb_spec s "."), (String.eqb_spec s ".."); cbn; try done;
    try (destruct acc; [constructor|by apply Forall_cons in Hacc as [_ ?]]).
  constructor; [by split_and!|done].
Qed.

Lemma clean_segments_clean path : Forall clean_segment (clean_segments path).
Proof.
  unfold clean_segments. apply Forall_rev. apply fold_clean_segments; [|constructor]. apply str_split_parts.
Qed.

(** Clean segments are kept as they are. *)
Lemma fold_clean_id l acc : Forall clean_segment l → fold_left clean_step l acc = rev l ++ acc.
Proof.
  revert acc. induction l as [|s l IH]; intros acc Hl; [done|]. apply Forall_cons in Hl as [(H1 & H2 & H3 & _) Hl].
  cbn [fold_left]. rewrite IH by done. unfold clean_step. apply String.eqb_neq in H1, H2, H3. rewrite H1, H2, H3.
  cbn. by rewrite <-app_assoc.
Qed.

(** A path from its segments, and whether it ends in a slash. *)
Definition path_of (segments : list string) (slash : bool) : string :=
  str_join "/" ("" :: segments ++ if slash then [""] else []).

Lemma join_cons s l : l ≠ [] → str_join "/" (s :: l) = s +:+ "/" +:+ str_join "/" l.
Proof. by destruct l. Qed.
Lemma join_snoc_empty l : l ≠ [] → str_join "/" (l ++ [""]) = str_join "/" l +:+ "/".
Proof.
  induction l as [|s l IH]; [done|]. intros _. destruct l as [|s' l]; [done|].
  change ((s :: s' :: l) ++ [""]) with (s :: ((s' :: l) ++ [""])). rewrite join_cons by done. rewrite IH by done.
  rewrite (join_cons s (s' :: l)) by done. rewrite <-!str_app_assoc. done.
Qed.

Lemma path_of_slash segments : segments ≠ [] → path_of segments true = "/" +:+ str_join "/" segments +:+ "/".
Proof.
  intros Hne. unfold path_of. rewrite join_cons by (by destruct segments). by rewrite join_snoc_empty.
Qed.
Lemma path_of_plain segments : segments ≠ [] → path_of segments false = "/" +:+ str_join "/" segments.
Proof. intros Hne. unfold path_of. rewrite app_nil_r. by rewrite join_cons. Qed.

Lemma path_of_segments segments slash : Forall clean_segment segments → segments ≠ [] →
  clean_segments (path_of segments slash) = segments.
Proof.
  intros Hc Hne. unfold clean_segments, path_of. rewrite str_split_join; [|done|].
  - cbn [fold_left]. change (clean_step [] "") with (@nil string). rewrite fold_left_app, (fold_clean_id segments) by done.
    rewrite app_nil_r. destruct slash; cbn; by rewrite rev_involutive.
  - constructor; [done|]. apply Forall_app_2; [|by destruct slash; repeat constructor].
    eapply Forall_impl; [done|]. by intros s (_ & _ & _ & ?).
Qed.

Lemma last_bytes_app a b : b ≠ "" → last (bytes (a +:+ b)) = last (bytes b).
Proof.
  intros Hb. rewrite bytes_app. rewrite last_app. destruct (bytes b) as [|c l] eqn:E; [by destruct b|].
  destruct (last (c :: l)) eqn:El; [done|]. by apply last_None in El.
Qed.

(** The last character of a clean path without a slash at the end. *)
Lemma join_ends segments : Forall clean_segment segments → segments ≠ [] →
  str_join "/" segments ≠ "" ∧ ends_with_slash (str_join "/" segments) = false.
Proof.
  induction segments as [|s l IH]; [done|]. intros Hc _. apply Forall_cons in Hc as [(Hne & _ & _ & Hs) Hc].
  destruct l as [|s' l].
  - split; [done|]. cbn. unfold ends_with_slash. destruct (last (bytes s)) as [c|] eqn:E; [|done].
    destruct (ascii_eqb c "/") eqn:Ec; [|done]. apply Ascii.eqb_eq in Ec as ->.
    apply last_Some in E as [l' E]. assert (s = of_bytes l' +:+ "/") as ->.
    { rewrite <-(String.string_of_list_ascii_of_string s). change (of_bytes (bytes s) = of_bytes l' +:+ "/"). rewrite E.
      clear. induction l' as [|a l IH]; [done|]. cbn. unfold of_bytes in IH. by rewrite IH. }
    rewrite str_contains_app, orb_true_r in Hs. done.
  - destruct IH as [Hn He]; [done..|]. rewrite join_cons by done. split.
    + intros E. apply (f_equal str_len) in E. rewrite !str_len_app in E. cbn in E. lia.
    + unfold ends_with_slash in *. rewrite last_bytes_app by done. by rewrite last_bytes_app.
Qed.

Lemma clean_path_of path : path ≠ "" → clean_segments path ≠ [] →
  clean_path path = path_of (clean_segments path) (ends_with_slash path).
Proof.
  intros Hne Hs. unfold clean_path. assert (str_is_empty path = false) as -> by (by destruct path).
  assert (String.eqb ("/" +:+ str_join "/" (clean_segments path)) "/" = false) as ->.
  { apply String.eqb_neq. intros E. destruct (join_ends _ (clean_segments_clean path) Hs) as [Hj _].
    apply Hj. by injection E. }
  destruct (ends_with_slash path); cbn [andb negb].
  - rewrite path_of_slash by done. by rewrite <-str_app_assoc.
  - by rewrite path_of_plain.
Qed.

Lemma clean_path_empty path : clean_segments path = [] → clean_path path = "/".
Proof. intros E. unfold clean_path. rewrite E. destruct (str_is_empty path); [done|]. by rewrite andb_false_r. Qed.

Lemma clean_path_idempotent path : clean_path (clean_path path) = clean_path path.
Proof.
  destruct (decide (clean_segments path = [])) as [E|Hne]; [by rewrite (clean_path_empty path E)|].
  assert (path ≠ "") as Hp by (intros ->; done).
  pose proof (clean_segments_clean path) as Hc. rewrite (clean_path_of path Hp Hne). set (slash := ends_with_slash path).
  assert (clean_segments (path_of (clean_segments path) slash) = clean_segments path) as Heq by (by apply path_of_segments).
  assert (path_of (clean_segments path) slash ≠ "" ∧ ends_with_slash (path_of (clean_segments path) slash) = slash) as [Hn He].
  { destruct slash; [rewrite path_of_slash by done|rewrite path_of_plain by done]; (split; [done|]).
    - unfold ends_with_slash. rewrite str_app_assoc. by rewrite last_bytes_app.
    - destruct (join_ends _ Hc Hne) as [Hj Hl]. unfold ends_with_slash in *. by rewrite last_bytes_app. }
  rewrite clean_path_of by (done || by rewrite Heq). by rewrite Heq, He.
Qed.

(** ** The accept loop *)

(** Durations are in nanoseconds. *)
Definition millis (n : Z) : Z := n * 1000000.
Definition SHUTDOWN_TIMEOUT : Z := millis 5000.

(** [io::ErrorKind], as far as [is_temporary_accept_error] tells them apart. *)
Inductive AcceptError : Set := AE_ConnectionReset | AE_ConnectionAborted | AE_Other (source : string).
(** [is_temporary_accept_error]. *)
Definition is_temporary_accept_error (error : AcceptError) : bool :=
  match error with AE_ConnectionReset | AE_ConnectionAborted => true | AE_Other _ => false end.

(** [next_retry_delay]. *)
Definition next_retry_delay (previous : Z) : Z :=
  if previous =? 0 then millis 5 else Z.min (previous * 2) (millis 1000).

(** [ServerError] and its [Display]. *)
Inductive ServerError : Set :=
| SE_Bind (address source : string) | SE_Accept (source : AcceptError) | SE_ShutdownTimeout.
Definition server_error_display (accept_error_display : AcceptError → string) (e : ServerError) : string :=
  match e with
  | SE_Bind address source => "listen metrics server on " +:+ address +:+ ": " +:+ source
  | SE_Accept source => "metrics server failed: " +:+ accept_error_display source
  | SE_ShutdownTimeout => "shut down metrics server: deadline exceeded"
  end.

(** What a turn of the loop of [Server::serve] selects. *)
Inductive ServeEvent : Set := SV_Cancelled | SV_Joined | SV_Accepted | SV_AcceptError (error : AcceptError).

(** The state of the loop: the connections that are served, the delay before the next
    attempt, and the delays slept so far. *)
Record ServeState := mk_ServeState { sv_connections : nat; sv_retry_delay : Z; sv_slept : list Z }.

(** A turn: the next state, or how the loop is left. *)
Inductive ServeTurn : Set := ST_Next (s : ServeState) | ST_Break (s : ServeState) | ST_Fail (e : ServerError).
Definition serve_turn (s : ServeState) (event : ServeEvent) : ServeTurn :=
  match event with
  | SV_Cancelled => ST_Break s
  | SV_Joined => ST_Next (mk_ServeState (sv_connections s - 1) (sv_retry_delay s) (sv_slept s))
  | SV_Accepted => ST_Next (mk_ServeState (sv_connections s + 1) 0 (sv_slept s))
  | SV_AcceptError error =>
      if is_temporary_accept_error error then
        let delay := next_retry_delay (sv_retry_delay s) in
        ST_Next (mk_ServeState (sv_connections s) delay (sv_slept s ++ [delay]))
      else ST_Fail (SE_Accept error)
  end.

(** The drain after cancellation: the times at which the connections end, from the
    cancellation on, in order. *)
Fixpoint drain_connections (connections : nat) (ends : list Z) : result ServerError () :=
  match connections with
  | O => Ok ()
  | S connections =>
      match ends with
      | t :: ends => if t <=? SHUTDOWN_TIMEOUT then drain_connections connections ends else Err SE_ShutdownTimeout
      | [] => Err SE_ShutdownTimeout
      end
  end.

(** [Server::serve] over the events: what it sleeps before further attempts, in order, and
    what it returns; [None] when the events end before the loop does. *)
Fixpoint serve_loop (s : ServeState) (events : list ServeEvent) (ends : list Z) :
    option (list Z * result ServerError ()) :=
  match events with
  | [] => None
  | event :: events =>
      match serve_turn s event with
      | ST_Next s => serve_loop s events ends
      | ST_Break s => Some (sv_slept s, drain_connections (sv_connections s) ends)
      | ST_Fail e => Some (sv_slept s, Err e)
      end
  end.
(** [Server::run]: the address is bound before cancellation is observed. *)
Definition server_run (address : string) (bound : result string ()) (events : list ServeEvent) (ends : list Z) :
    option (list Z * result ServerError ()) :=
  match bound with
  | Ok _ => serve_loop (mk_ServeState 0 0 []) events ends
  | Err source => Some ([], Err (SE_Bind address source))
  | Panic m => Some ([], Panic m)
  end.

(** ** Draining a request's body *)

(** [DrainPolicy] with [limit] and [rejects_exact_limit]. *)
Inductive DrainPolicy : Set := DP_IgnoredBody | DP_OptionsStar.
Definition drain_limit (policy : DrainPolicy) : Z :=
  match policy with DP_IgnoredBody => Z.shiftl 256 10 | DP_OptionsStar => Z.shiftl 4 10 end.
Definition rejects_exact_limit (policy : DrainPolicy) : bool :=
  match policy with DP_IgnoredBody => true | DP_OptionsStar => false end.

(** A frame of a body: data of a length, trailers, or an error. *)
Inductive BodyFrame : Set := BF_Data (length : Z) | BF_Trailers | BF_Error.
Record RequestBody := mk_RequestBody { rb_exact : option Z; rb_frames : list BodyFrame }.

Definition saturating_add_u64 (a b : Z) : Z := Z.min (a + b) (u_max 64).

Fixpoint drain_frames (limit drained : Z) (frames : list BodyFrame) : bool :=
  match frames with
  | [] => true
  | BF_Error :: _ => false
  | BF_Trailers :: frames => drain_frames limit drained frames
  | BF_Data length :: frames =>
      let drained := saturating_add_u64 drained length in
      if limit <? drained then false else drain_frames limit drained frames
  end.
(** [drain_ignored_body]. *)
Definition drain_ignored_body (body : RequestBody) (policy : DrainPolicy) : bool :=
  let limit := drain_limit policy in
  match rb_exact body with
  | Some length =>
      if (limit <? length) || ((length =? limit) && rejects_exact_limit policy) then false
      else drain_frames limit 0 (rb_frames body)
  | None => drain_frames limit 0 (rb_frames body)
  end.

(** ** The instrumentation of scrapes *)

(** The two metrics of [HANDLER_METRICS]; the counters of the codes are created with it. *)
Record HandlerMetrics := mk_HandlerMetrics { hm_requests : gmap string Z; hm_in_flight : Z }.
Definition handler_metrics_register : HandlerMetrics :=
  mk_HandlerMetrics (list_to_map (map (fun code => (code, 0)) ["200"; "500"; "503"])) 0.

(** [ScrapeInstrumentation], [new] and [drop]. *)
Record ScrapeInstrumentation := mk_ScrapeInstrumentation { si_status : option string }.
Definition scrape_new (m : HandlerMetrics) : HandlerMetrics * ScrapeInstrumentation :=
  (mk_HandlerMetrics (hm_requests m) (hm_in_flight m + 1), mk_ScrapeInstrumentation None).
Definition scrape_drop (self : ScrapeInstrumentation) (m : HandlerMetrics) : HandlerMetrics :=
  mk_HandlerMetrics
    (match si_status self with
     | Some status => <[status := default 0 (hm_requests m !! status) + 1]> (hm_requests m)
     | None => hm_requests m
     end) (hm_in_flight m - 1).

(** [CompletionBody] over a body that holds at most one frame; [cb_instrumentation] is
    dropped at the end of the stream or with the body. *)
Record CompletionBody := mk_CompletionBody { cb_inner : option string; cb_instrumentation : option ScrapeInstrumentation }.
Definition drop_option (instrumentation : option ScrapeInstrumentation) (m : HandlerMetrics) : HandlerMetrics :=
  match instrumentation with Some i => scrape_drop i m | None => m end.
(** [poll_frame]. *)
Definition poll_frame (body : CompletionBody) (m : HandlerMetrics) : option string * CompletionBody * HandlerMetrics :=
  match cb_inner body with
  | Some frame => (Some frame, mk_CompletionBody None (cb_instrumentation body), m)
  | None => (None, mk_CompletionBody None None, drop_option (cb_instrumentation body) m)
  end.
(** The drop of a body. *)
Definition drop_body (body : CompletionBody) (m : HandlerMetrics) : HandlerMetrics := drop_option (cb_instrumentation body) m.

(** ** The responses *)

Definition Headers : Type := list (string * string).
(** [HeaderMap::insert]. *)
Definition header_insert (name value : string) (headers : Headers) : Headers :=
  List.filter (fun '(n, _) => negb (String.eqb n name)) headers ++ [(name, value)].

Record ScrapeResponse := mk_ScrapeResponse { rs_status : Z; rs_headers : Headers; rs_body : CompletionBody; rs_exact_size : bool }.
Definition with_header (name value : string) (r : ScrapeResponse) : ScrapeResponse :=
  mk_ScrapeResponse (rs_status r) (header_insert name value (rs_headers r)) (rs_body r) (rs_exact_size r).

(** [response]: a body of known size has no frame when it is empty. *)
Definition response (status : Z) (payload : string) (exact_size : bool) : ScrapeResponse :=
  mk_ScrapeResponse status []
    (mk_CompletionBody (if exact_size && str_is_empty payload then None else Some payload) None) exact_size.
(** [close_response]. *)
Definition close_response (r : ScrapeResponse) : ScrapeResponse := with_header "connection" "close" r.
(** [instrument_response]. *)
Definition instrument_response (r : ScrapeResponse) (instrumentation : ScrapeInstrumentation) (status : string) : ScrapeResponse :=
  mk_ScrapeResponse (rs_status r) (rs_headers r)
    (mk_CompletionBody (cb_inner (rs_body r)) (Some (mk_ScrapeInstrumentation (Some status)))) (rs_exact_size r).

Definition error_headers (r : ScrapeResponse) : ScrapeResponse :=
  with_header "x-content-type-options" "nosniff" (with_header "content-type" "text/plain; charset=utf-8" r).
(** [internal_error]. *)
Definition internal_error (error : string) (instrumentation : option ScrapeInstrumentation) : ScrapeResponse :=
  let r := error_headers
    (response 500 ("An error has occurred while serving metrics:" +:+ line_end +:+ line_end +:+ error +:+ line_end) true) in
  match instrumentation with
  | Some i => instrument_response r i "500"
  | None => r
  end.

(** [str::replace] of a character, and [html_escape]. *)
Definition replace_char (c : ascii) (by_ : string) (s : string) : string :=
  String.concat "" (map (fun d => if ascii_eqb d c then by_ else String d "") (bytes s)).
Definition html_escape (value : string) : string :=
  replace_char "'" "&#39;"
    (replace_char quote_mark "&#34;" (replace_char ">" "&gt;" (replace_char "<" "&lt;" (replace_char "&" "&amp;" value)))).

(** ** The handler *)

(** hyper's header values, flate2's encoder, and how a failed task is shown. *)
Class MetricsHttp := {
  header_to_str : string → option string;
  header_value_valid : string → bool;
  gzip : string → result string string;
  join_error_display : string → string
}.

Record ScrapeRequest := mk_ScrapeRequest {
  rq_method : HttpMethod; rq_path : string; rq_query : option string; rq_headers : Headers; rq_body : RequestBody
}.
Definition header_values (name : string) (headers : Headers) : list string :=
  map snd (List.filter (fun '(n, _) => String.eqb n name) headers).

Section handler.
Context `{UnicodeLib} `{PrometheusLib} `{MetricsHttp} `{Powi}.

(** What the blocking task of [serve_metrics] computes: the payload, the content type and
    whether it is compressed. *)
Definition render (accept : string) (encodings : list string) (families : list MetricFamily) :
    result EncodeError (string * string * bool) :=
  '(format, escaping) ← map_err (fun _ => EE_Unsupported "") (negotiate_format accept);
  let use_gzip := accepts_gzip encodings in
  payload ← encode families format escaping;
  payload ← (if use_gzip then map_err EE_Compression (gzip payload) else Ok payload);
  Ok (payload, content_type format escaping, use_gzip).

Definition SMALL_RESPONSE_LIMIT : nat := 2048.

(** What the blocking task captures, and what comes of it: an error when it panicked or
    was cancelled, with the error's text; otherwise its result with the instrumentation. *)
Record ScrapeTask := mk_ScrapeTask {
  tk_accept : string; tk_encodings : list string; tk_instrumentation : ScrapeInstrumentation
}.
Definition Rendered : Type := string + result EncodeError (string * string * bool) * ScrapeInstrumentation.

(** [serve_metrics] up to the task: the headers are read and the scrape is in flight. *)
Definition scrape_begin (request : ScrapeRequest) (m : HandlerMetrics) : ScrapeTask * HandlerMetrics :=
  let accept := default "" (header_values "accept" (rq_headers request) !! 0%nat ≫= header_to_str) in
  let encodings := omap header_to_str (header_values "accept-encoding" (rq_headers request)) in
  let '(m, instrumentation) := scrape_new m in
  (mk_ScrapeTask accept encodings instrumentation, m).

(** The blocking task; when it panics, the instrumentation is dropped with it. *)
Definition scrape_render (task : ScrapeTask) (families : list MetricFamily) (m : HandlerMetrics) : Rendered * HandlerMetrics :=
  match render (tk_accept task) (tk_encodings task) families with
  | Panic message => (inl message, scrape_drop (tk_instrumentation task) m)
  | result => (inr (result, tk_instrumentation task), m)
  end.

(** The drop of a result that nobody awaits. *)
Definition drop_rendered (rendered : Rendered) (m : HandlerMetrics) : HandlerMetrics :=
  match rendered with inl _ => m | inr (_, instrumentation) => scrape_drop instrumentation m end.

(** [serve_metrics] after the task. *)
Definition scrape_finish (request : ScrapeRequest) (rendered : Rendered) : ScrapeResponse :=
  let is_head := bool_decide (rq_method request = M_HEAD) in
  match rendered with
  | inr (Ok (payload, content_type, use_gzip), instrumentation) =>
      let small := (str_len payload <=? SMALL_RESPONSE_LIMIT)%nat in
      let r := response 200 (if is_head then "" else payload) small in
      let r := if is_head && small then with_header "content-length" (dec (Z.of_nat (str_len payload))) r else r in
      let r := with_header "content-type" content_type r in
      let r := if use_gzip then with_header "content-encoding" "gzip" r else r in
      instrument_response r instrumentation "200"
  | inr (Err error, instrumentation) => internal_error (encode_error_display error) (Some instrumentation)
  | inr (Panic message, _) | inl message =>
      internal_error ("metrics rendering task failed: " +:+ join_error_display message) None
  end.

(** [serve_metrics] whose future is polled to its end.  A handler that is dropped on the
    way, and a task that the runtime cancels, are steps of their own in the account of the
    scrapes. *)
Definition serve_metrics (request : ScrapeRequest) (families : list MetricFamily) (m : HandlerMetrics) : ScrapeResponse * HandlerMetrics :=
  let '(task, m) := scrape_begin request m in
  let '(rendered, m) := scrape_render task families m in
  (scrape_finish request rendered, m).

(** The response to a request that is redirected. *)
Definition redirect_response (method : HttpMethod) (location : string) : result () ScrapeResponse :=
  let is_get := bool_decide (method = M_GET) in
  let is_head := bool_decide (method = M_HEAD) in
  let payload :=
    if is_get
    then "<a href=" +:+ double_quote +:+ html_escape location +:+ double_quote +:+ ">Temporary Redirect</a>."
           +:+ line_end +:+ line_end
    else "" in
  if header_value_valid location then
    let r := with_header "location" location (response 307 payload true) in
    Ok (if is_get || is_head then with_header "content-type" "text/html; charset=utf-8" r else r)
  else Panic "cleaned request path is a valid Location".

(** [handle_request]. *)
Definition handle_request (request : ScrapeRequest) (families : list MetricFamily) (m : HandlerMetrics) :
    result () (ScrapeResponse * HandlerMetrics) :=
  let target := metrics_route (rq_method request) (rq_path request) (rq_query request) in
  let policy := match target with R_OptionsStar => DP_OptionsStar | _ => DP_IgnoredBody end in
  '(r, m) ← match target with
            | R_OptionsStar => Ok (response 200 "" true, m)
            | R_Redirect location => r ← redirect_response (rq_method request) location; Ok (r, m)
            | R_NotFound => Ok (error_headers (response 404 ("404 page not found" +:+ line_end) true), m)
            | R_Metrics => Ok (serve_metrics request families m)
            end;
  Ok (if drain_ignored_body (rq_body request) policy then r else close_response r, m).
End handler.
