(* ===== verification/MetricsServerProps.v ===== *)
(** * The metrics server: theorems

    The delays of the accept loop, when a body may be reused, the escaping of redirects,
    and the account of the scrapes over every interleaving of handlers, rendering tasks
    and the sending of bodies. *)

From S2P Require Import Prelude.
From S2P Require Import RustStr MachineName Secret Chars Float PdqSort MetricsNegotiate MetricsNegotiateProps MetricsEncode MetricsEncodeTheorems.
From S2P Require Import MetricsServer.

Local Open Scope Z_scope.

(** ** The accept loop *)

(** The delay before the [n]th attempt in a row. *)
Definition backoff (n : nat) : Z := Z.min (millis 5 * 2 ^ Z.of_nat n) (millis 1000).

Lemma backoff_next n : next_retry_delay (backoff n) = backoff (S n).
Proof.
  unfold next_retry_delay, backoff, millis. rewrite Nat2Z.inj_succ, Z.pow_succ_r by lia.
  pose proof (Z.pow_pos_nonneg 2 (Z.of_nat n) ltac:(lia) ltac:(lia)).
  destruct (Z.eqb_spec (Z.min (5 * 1000000 * 2 ^ Z.of_nat n) (1000 * 1000000)) 0); lia.
Qed.

(** The reference for what the loop sleeps: from [errors] temporary errors since the last
    accepted connection on, up to the event that ends the loop. *)
Fixpoint delays (errors : nat) (events : list ServeEvent) : list Z :=
  match events with
  | [] | SV_Cancelled :: _ => []
  | SV_Joined :: events => delays errors events
  | SV_Accepted :: events => delays 0 events
  | SV_AcceptError error :: events =>
      if is_temporary_accept_error error then backoff errors :: delays (S errors) events else []
  end.

(** The events that end the loop. *)
Definition ends_loop (event : ServeEvent) : bool :=
  match event with
  | SV_Cancelled => true
  | SV_AcceptError error => negb (is_temporary_accept_error error)
  | SV_Joined | SV_Accepted => false
  end.

Lemma delays_bounded errors events : Forall (fun delay => millis 5 <= delay <= millis 1000) (delays errors events).
Proof.
  revert errors. induction events as [|[| | |e] events IH]; intros errors; cbn; try done.
  destruct (is_temporary_accept_error e); [|done]. constructor; [|apply IH]. unfold backoff, millis.
  pose proof (Z.pow_pos_nonneg 2 (Z.of_nat errors) ltac:(lia) ltac:(lia)). lia.
Qed.

(** The delay of a loop that has seen [errors] temporary errors in a row. *)
Definition delay_after (errors : nat) : Z := match errors with O => 0 | S n => backoff n end.
Lemma delay_after_next errors : next_retry_delay (delay_after errors) = backoff errors.
Proof. destruct errors; [done|apply backoff_next]. Qed.

Lemma serve_loop_delays errors s events ends : sv_retry_delay s = delay_after errors →
  match serve_loop s events ends with
  | Some (slept, _) => slept = sv_slept s ++ delays errors events
  | None => Forall (fun event => ends_loop event = false) events
  end.
Proof.
  revert errors s. induction events as [|event events IH]; intros errors s Hs; [by constructor|]. cbn [serve_loop].
  destruct event as [| | |e]; cbn [serve_turn delays].
  - by rewrite app_nil_r.
  - specialize (IH errors (mk_ServeState (sv_connections s - 1) (sv_retry_delay s) (sv_slept s)) Hs).
    destruct (serve_loop _ events ends) as [[slept r]|]; [done|by constructor].
  - specialize (IH 0%nat (mk_ServeState (sv_connections s + 1) 0 (sv_slept s)) eq_refl).
    destruct (serve_loop _ events ends) as [[slept r]|]; [done|by constructor].
  - destruct (is_temporary_accept_error e) eqn:He; [|by rewrite app_nil_r]. rewrite Hs, delay_after_next.
    specialize (IH (S errors) (mk_ServeState (sv_connections s) (backoff errors) (sv_slept s ++ [backoff errors])) eq_refl).
    destruct (serve_loop _ events ends) as [[slept r]|]; cbn in IH; [by rewrite IH, <-app_assoc|].
    constructor; [cbn; by rewrite He|done].
Qed.

(** C30: Whatever events a bound server meets, it sleeps exactly before the attempts that
    follow a temporary accept error: after the first one since the last accepted
    connection for 5 ms, after each further one for twice as long, up to one second, and
    connections that end change nothing of that; no sleep is shorter than 5 ms or longer
    than a second.  The server returns unless there was neither a cancellation nor a
    fatal accept error. *)
Theorem accept_backoff (address : string) (events : list ServeEvent) (ends : list Z) :
  match server_run address (Ok ()) events ends with
  | Some (slept, _) => slept = delays 0 events ∧ Forall (fun delay => millis 5 <= delay <= millis 1000) slept
  | None => Forall (fun event => ends_loop event = false) events
  end.
Proof.
  pose proof (serve_loop_delays 0 (mk_ServeState 0 0 []) events ends eq_refl) as Hl. unfold server_run.
  destruct (serve_loop _ events ends) as [[slept r]|]; [|done]. cbn in Hl. subst slept.
  split; [done|apply delays_bounded].
Qed.

Lemma accept_backoff_witness :
  delays 0 (replicate 9 (SV_AcceptError AE_ConnectionReset) ++ [SV_Accepted; SV_AcceptError AE_ConnectionAborted; SV_Cancelled]) =
    map millis [5; 10; 20; 40; 80; 160; 320; 640; 1000; 5] ∧
  server_run "127.0.0.1:51004" (Ok ())
    (replicate 9 (SV_AcceptError AE_ConnectionReset) ++ [SV_Accepted; SV_AcceptError AE_ConnectionAborted; SV_Cancelled]) [0] =
    Some (map millis [5; 10; 20; 40; 80; 160; 320; 640; 1000; 5], Ok ()) ∧
  match server_run "127.0.0.1:51004" (Ok ()) [SV_AcceptError AE_ConnectionReset; SV_Joined] [] with
  | Some (slept, _) => slept = delays 0 [SV_AcceptError AE_ConnectionReset; SV_Joined] ∧
      Forall (fun delay => millis 5 <= delay <= millis 1000) slept
  | None => Forall (fun event => ends_loop event = false) [SV_AcceptError AE_ConnectionReset; SV_Joined]
  end.
Proof.
  split; [by vm_compute|]. split; [by vm_compute|].
  apply (accept_backoff "127.0.0.1:51004" [SV_AcceptError AE_ConnectionReset; SV_Joined] []).
Defined.

(** ** Draining a body *)

(** The data of a body. *)
Fixpoint body_data (frames : list BodyFrame) : Z :=
  match frames with
  | [] => 0
  | BF_Data length :: frames => length + body_data frames
  | _ :: frames => body_data frames
  end.
Definition frame_ok (frame : BodyFrame) : Prop := match frame with BF_Data length => 0 <= length | _ => True end.

Lemma body_data_nonneg frames : Forall frame_ok frames → 0 <= body_data frames.
Proof. induction 1 as [|[n| |] l Hn Hl IH]; cbn in *; lia. Qed.

Lemma drain_frames_exact limit drained frames : 0 <= drained <= limit → limit < u_max 64 → Forall frame_ok frames →
  drain_frames limit drained frames = true ↔ BF_Error ∉ frames ∧ drained + body_data frames <= limit.
Proof.
  intros Hd Hlimit Hok. revert drained Hd. induction Hok as [|[n| |] frames Hn Hok IH]; intros drained Hd; cbn.
  - split; [|done]. intros _. split; [apply not_elem_of_nil|lia].
  - unfold saturating_add_u64. cbn in Hn. pose proof (body_data_nonneg frames Hok) as Hpos.
    destruct (Z.ltb_spec limit (Z.min (drained + n) (u_max 64))) as [Hlt|Hge].
    + split; [done|]. intros [_ ?]. lia.
    + rewrite IH by lia. rewrite not_elem_of_cons. replace (Z.min (drained + n) (u_max 64)) with (drained + n) by lia.
      split; [intros [? ?]; split; [done|lia]|intros [[_ ?] ?]; split; [done|lia]].
  - rewrite IH by done. rewrite not_elem_of_cons. naive_solver.
  - split; [done|]. intros [Hno _]. destruct Hno. by left.
Qed.

(** The connection of a request whose body is ignored is reused exactly when the body
    ends without an error, holds at most the limit, and does not announce more than the
    policy admits: less than the limit after a handler, at most the limit for the
    options of the server. *)
Theorem drain_exact (body : RequestBody) (policy : DrainPolicy) : Forall frame_ok (rb_frames body) →
  drain_ignored_body body policy = true ↔
    BF_Error ∉ rb_frames body ∧ body_data (rb_frames body) <= drain_limit policy ∧
    (∀ length, rb_exact body = Some length →
       length < drain_limit policy ∨ length = drain_limit policy ∧ policy = DP_OptionsStar).
Proof.
  intros Hok. unfold drain_ignored_body.
  assert (0 <= 0 <= drain_limit policy ∧ drain_limit policy < u_max 64) as [H1 H2] by (by destruct policy).
  pose proof (drain_frames_exact (drain_limit policy) 0 (rb_frames body) H1 H2 Hok) as Hd. rewrite Z.add_0_l in Hd.
  destruct (rb_exact body) as [n|]; [|rewrite Hd; naive_solver].
  destruct ((drain_limit policy <? n) || ((n =? drain_limit policy) && rejects_exact_limit policy)) eqn:E.
  - split; [done|]. intros (_ & _ & Hn). specialize (Hn n eq_refl). exfalso.
    apply orb_true_iff in E as [E%Z.ltb_lt|[E%Z.eqb_eq Er]%andb_true_iff]; [lia|].
    destruct Hn as [|[_ ->]]; [lia|done].
  - rewrite Hd. apply orb_false_iff in E as [E%Z.ltb_ge Er]. split; [|tauto]. intros [? ?]. split_and!; [done..|].
    intros k [= <-]. destruct (Z.eqb_spec n (drain_limit policy)) as [->|]; [|lia].
    right. split; [done|]. by destruct policy.
Qed.

Lemma drain_exact_witness :
  drain_ignored_body (mk_RequestBody (Some 4096) [BF_Data 4096]) DP_OptionsStar = true ∧
  (drain_ignored_body (mk_RequestBody (Some 262144) [BF_Data 262144]) DP_IgnoredBody = true ↔
     BF_Error ∉ [BF_Data 262144] ∧ body_data [BF_Data 262144] <= drain_limit DP_IgnoredBody ∧
     (∀ length, Some 262144 = Some length →
        length < drain_limit DP_IgnoredBody ∨ length = drain_limit DP_IgnoredBody ∧ DP_IgnoredBody = DP_OptionsStar)).
Proof.
  split; [by vm_compute|]. apply (drain_exact (mk_RequestBody (Some 262144) [BF_Data 262144]) DP_IgnoredBody).
  by repeat constructor.
Defined.

(** ** Redirects *)

(** The characters of a path survive its cleaning. *)
Lemma fold_clean_without c l acc : Forall (fun s => str_contains c s = false) l →
  Forall (fun s => str_contains c s = false) acc → Forall (fun s => str_contains c s = false) (fold_left clean_step l acc).
Proof.
  revert acc. induction l as [|s l IH]; intros acc Hl Hacc; [done|]. apply Forall_cons in Hl as [Hs Hl].
  cbn [fold_left]. apply IH; [done|]. unfold clean_step. destruct (_ || _); [done|].
  destruct (String.eqb s ".."); [|by constructor]. destruct acc; [done|by apply Forall_cons in Hacc as [_ ?]].
Qed.
Lemma clean_path_without c path : str_contains c "/" = false → str_contains c path = false → str_contains c (clean_path path) = false.
Proof.
  intros Hslash Hp. unfold clean_path. destruct (str_is_empty path); [done|].
  assert (str_contains c ("/" +:+ str_join "/" (clean_segments path)) = false) as Hj.
  { rewrite str_contains_app, Hslash. apply str_join_without; [done|]. unfold clean_segments. apply Forall_rev.
    apply fold_clean_without; [by apply str_split_without|constructor]. }
  destruct (_ && _); [|done]. by rewrite str_contains_app, Hj.
Qed.

(** The path of a location. *)
Definition location_path (location : string) : string :=
  match split_once "?" location with Some (path, _) => path | None => location end.

(** A redirect leads to the cleaned path and no further: no request for the path of
    its location is redirected again. *)
Theorem redirects_settle (method : HttpMethod) (path : string) (query : option string) (location : string) :
  str_contains "?" path = false → metrics_route method path query = R_Redirect location →
  location_path location = clean_path path ∧
  ∀ method' query' location', metrics_route method' (location_path location) query' ≠ R_Redirect location'.
Proof.
  intros Hq Hr. assert (location = clean_path path +:+ match query with Some q => "?" +:+ q | None => "" end) as ->.
  { unfold metrics_route in Hr. destruct (_ && _); [done|]. destruct (negb _ && negb _); [by injection Hr|].
    by destruct (matches_metrics path). }
  pose proof (clean_path_without "?" path eq_refl Hq) as Hc.
  assert (location_path (clean_path path +:+ match query with Some q => "?" +:+ q | None => "" end) = clean_path path) as ->.
  { unfold location_path. destruct query as [q|]; [|by rewrite str_app_nil, split_once_none].
    change ("?" +:+ q) with (String "?" q). by rewrite split_once_app. }
  split; [done|]. intros method' query' location'. unfold metrics_route. rewrite clean_path_idempotent, String.eqb_refl.
  destruct (_ && _); [done|]. rewrite andb_false_r. by destruct (matches_metrics _).
Qed.

Lemma redirects_settle_witness :
  metrics_route M_GET "/a/../metrics//x" (Some "b=1") = R_Redirect "/metrics/x?b=1" ∧
  (location_path "/metrics/x?b=1" = clean_path "/a/../metrics//x" ∧
   ∀ method' query' location', metrics_route method' (location_path "/metrics/x?b=1") query' ≠ R_Redirect location').
Proof. split; [by vm_compute|]. apply (redirects_settle M_GET "/a/../metrics//x" (Some "b=1")); by vm_compute. Defined.

(** The replacement of one character. *)
Definition html_char (c : ascii) : string :=
  if ascii_eqb c "&" then "&amp;" else if ascii_eqb c "<" then "&lt;" else if ascii_eqb c ">" then "&gt;"
  else if ascii_eqb c quote_mark then "&#34;" else if ascii_eqb c "'" then "&#39;" else String c "".

Lemma concat_app a b : String.concat "" (a ++ b) = String.concat "" a +:+ String.concat "" b.
Proof. induction a as [|x a IH]; [done|]. cbn [app]. by rewrite !concat_cons, IH, str_app_assoc. Qed.
Lemma replace_char_app c r a b : replace_char c r (a +:+ b) = replace_char c r a +:+ replace_char c r b.
Proof. unfold replace_char. by rewrite bytes_app, map_app, concat_app. Qed.
Lemma html_escape_app a b : html_escape (a +:+ b) = html_escape a +:+ html_escape b.
Proof. unfold html_escape. by rewrite !replace_char_app. Qed.
Lemma html_escape_char c : html_escape (String c "") = html_char c.
Proof. by destruct c as [[] [] [] [] [] [] [] []]. Qed.

Lemma html_char_safe c d : d ∈ bytes (html_char c) → d ≠ "<"%char ∧ d ≠ ">"%char ∧ d ≠ quote_mark ∧ d ≠ "'"%char.
Proof.
  intros Hd. unfold html_char in Hd.
  destruct (ascii_eqb c "&"), (ascii_eqb c "<") eqn:E1, (ascii_eqb c ">") eqn:E2, (ascii_eqb c quote_mark) eqn:E3,
    (ascii_eqb c "'") eqn:E4; cbn in Hd; rewrite ?elem_of_cons, ?elem_of_nil in Hd;
    repeat match goal with H : ascii_eqb _ _ = false |- _ => apply Ascii.eqb_neq in H end; naive_solver.
Qed.

(** The five replacements of [html_escape], one after the other, are the replacement
    of each character by itself; what they write has no angle bracket and no quote, so
    that a location stays inside the attribute that holds it. *)
Theorem html_escape_once (value : string) :
  html_escape value = String.concat "" (map html_char (bytes value)) ∧
  ∀ c, c ∈ bytes (html_escape value) → c ≠ "<"%char ∧ c ≠ ">"%char ∧ c ≠ quote_mark ∧ c ≠ "'"%char.
Proof.
  assert (html_escape value = String.concat "" (map html_char (bytes value))) as Heq.
  { induction value as [|c value IH]; [done|]. change (String c value) with (String c "" +:+ value).
    rewrite html_escape_app, IH, html_escape_char. cbn [bytes String.list_ascii_of_string map].
    change (bytes (String c "" +:+ value)) with (c :: bytes value). cbn [map]. by rewrite concat_cons. }
  split; [done|]. intros c. rewrite Heq, bytes_concat. intros Hc.
  apply list_elem_of_join in Hc as (l & Hin & Hl). apply list_elem_of_fmap in Hl as (s & -> & Hs).
  apply list_elem_of_fmap in Hs as (d & -> & _). by eapply html_char_safe.
Qed.

(** ** The account of the scrapes *)

(** A scrape on its way: its task is rendering, with the handler awaiting it or dropped
    meanwhile; the result waits for the handler; or the body is being sent, with the
    status of its response. *)
Inductive ScrapePhase : Type :=
| SP_Rendering (awaited : bool) (request : ScrapeRequest) (task : ScrapeTask)
| SP_Rendered (request : ScrapeRequest) (rendered : Rendered)
| SP_Sending (status : Z) (body : CompletionBody).

(** The instrumentation a scrape holds. *)
Definition phase_instrumentation (p : ScrapePhase) : option ScrapeInstrumentation :=
  match p with
  | SP_Rendering _ _ task => Some (tk_instrumentation task)
  | SP_Rendered _ (inl _) => None
  | SP_Rendered _ (inr (_, i)) => Some i
  | SP_Sending _ body => cb_instrumentation body
  end.
Definition held {A} (o : option A) : Z := match o with Some _ => 1 | None => 0 end.
Definition scrapes_held (live : gmap nat ScrapePhase) : Z :=
  map_fold (fun _ p n => held (phase_instrumentation p) + n) 0 live.
Definition counted (m : HandlerMetrics) (code : string) : Z := default 0 (hm_requests m !! code).

Lemma scrapes_held_insert live id p : live !! id = None →
  scrapes_held (<[id := p]> live) = held (phase_instrumentation p) + scrapes_held live.
Proof.
  intros Hid. unfold scrapes_held.
  apply (map_fold_insert_L (fun _ p n => held (phase_instrumentation p) + n)); [lia|done].
Qed.
Lemma scrapes_held_delete live id p : live !! id = Some p →
  scrapes_held live = held (phase_instrumentation p) + scrapes_held (delete id live).
Proof.
  intros Hid. rewrite <-(insert_delete_id live id p Hid) at 1. apply scrapes_held_insert, lookup_delete_eq.
Qed.
Lemma scrapes_held_update live id p q : live !! id = Some p →
  scrapes_held (<[id := q]> live) = held (phase_instrumentation q) - held (phase_instrumentation p) + scrapes_held live.
Proof.
  intros Hid. rewrite <-insert_delete_eq, scrapes_held_insert by apply lookup_delete_eq.
  rewrite (scrapes_held_delete _ _ _ Hid). lia.
Qed.

Section account.
Context `{UnicodeLib} `{PrometheusLib} `{MetricsHttp} `{Powi}.

(** The server as its scrapes see it: the metrics and the scrapes on their way; and, for
    the account, how many were begun, how many were given up by a handler that was dropped
    before it had a response, and of how many the rendering panicked or was cancelled. *)
Record Scrapes := mk_Scrapes {
  sc_metrics : HandlerMetrics; sc_live : gmap nat ScrapePhase;
  sc_begun : Z; sc_abandoned : Z; sc_failed : Z
}.
Definition scrapes_start : Scrapes := mk_Scrapes handler_metrics_register ∅ 0 0 0.

(** Whether the rendering itself failed. *)
Definition render_failed (rendered : Rendered) : Z := match rendered with inl _ => 1 | inr _ => 0 end.
(** Where a task leaves its result: with the handler, or nowhere. *)
Definition deliver (awaited : bool) (id : nat) (request : ScrapeRequest) (rendered : Rendered)
    (live : gmap nat ScrapePhase) : gmap nat ScrapePhase :=
  if awaited then <[id := SP_Rendered request rendered]> live else delete id live.

(** Handlers, tasks, and the connections that send and drop bodies, in any order.  Dropping
    the handler while its task renders leaves the task to end on its own; the runtime may
    also cancel the task.  The two updates of a drop of the instrumentation, of the gauge
    and of the counter, are one step. *)
Inductive scrape_step : Scrapes → Scrapes → Prop :=
| step_begin s id request task m :
    sc_live s !! id = None → scrape_begin request (sc_metrics s) = (task, m) →
    scrape_step s (mk_Scrapes m (<[id := SP_Rendering true request task]> (sc_live s))
                     (sc_begun s + 1) (sc_abandoned s) (sc_failed s))
| step_detach s id request task :
    sc_live s !! id = Some (SP_Rendering true request task) →
    scrape_step s (mk_Scrapes (sc_metrics s) (<[id := SP_Rendering false request task]> (sc_live s))
                     (sc_begun s) (sc_abandoned s) (sc_failed s))
| step_render s id request task families rendered m :
    sc_live s !! id = Some (SP_Rendering true request task) →
    scrape_render task families (sc_metrics s) = (rendered, m) →
    scrape_step s (mk_Scrapes m (<[id := SP_Rendered request rendered]> (sc_live s))
                     (sc_begun s) (sc_abandoned s) (sc_failed s + render_failed rendered))
| step_render_detached s id request task families rendered m :
    sc_live s !! id = Some (SP_Rendering false request task) →
    scrape_render task families (sc_metrics s) = (rendered, m) →
    scrape_step s (mk_Scrapes (drop_rendered rendered m) (delete id (sc_live s))
                     (sc_begun s) (sc_abandoned s + (1 - render_failed rendered)) (sc_failed s + render_failed rendered))
| step_cancel s id awaited request task message :
    sc_live s !! id = Some (SP_Rendering awaited request task) →
    scrape_step s (mk_Scrapes (scrape_drop (tk_instrumentation task) (sc_metrics s))
                     (deliver awaited id request (inl message) (sc_live s))
                     (sc_begun s) (sc_abandoned s) (sc_failed s + 1))
| step_answer s id request rendered :
    sc_live s !! id = Some (SP_Rendered request rendered) →
    scrape_step s (let r := scrape_finish request rendered in
                   mk_Scrapes (sc_metrics s) (<[id := SP_Sending (rs_status r) (rs_body r)]> (sc_live s))
                     (sc_begun s) (sc_abandoned s) (sc_failed s))
| step_abandon s id request rendered :
    sc_live s !! id = Some (SP_Rendered request rendered) →
    scrape_step s (mk_Scrapes (drop_rendered rendered (sc_metrics s)) (delete id (sc_live s))
                     (sc_begun s) (sc_abandoned s + (1 - render_failed rendered)) (sc_failed s))
| step_poll s id status body frame body' m :
    sc_live s !! id = Some (SP_Sending status body) → poll_frame body (sc_metrics s) = (frame, body', m) →
    scrape_step s (mk_Scrapes m (<[id := SP_Sending status body']> (sc_live s))
                     (sc_begun s) (sc_abandoned s) (sc_failed s))
| step_drop s id status body :
    sc_live s !! id = Some (SP_Sending status body) →
    scrape_step s (mk_Scrapes (drop_body body (sc_metrics s)) (delete id (sc_live s))
                     (sc_begun s) (sc_abandoned s) (sc_failed s)).

(** An instrumentation has no code until the response is made, and then the response's. *)
Definition phase_coded (p : ScrapePhase) : Prop :=
  match p with
  | SP_Rendering _ _ task => si_status (tk_instrumentation task) = None
  | SP_Rendered _ (inl _) => True
  | SP_Rendered _ (inr (result, i)) => si_status i = None ∧ ∀ message, result ≠ Panic message
  | SP_Sending status body => ∀ i, cb_instrumentation body = Some i →
      si_status i = Some (dec status) ∧ (status = 200 ∨ status = 500)
  end.
Definition counts (m : HandlerMetrics) : Z := hm_in_flight m + counted m "200" + counted m "500".
Record accounted (s : Scrapes) : Prop := {
  acc_in_flight : hm_in_flight (sc_metrics s) = scrapes_held (sc_live s);
  acc_begun : sc_begun s = counts (sc_metrics s) + sc_abandoned s + sc_failed s;
  acc_coded : map_Forall (fun _ p => phase_coded p) (sc_live s) }.

(** A drop takes a scrape out of flight, and counts it once if it has a code. *)
Lemma scrape_drop_uncoded i m : si_status i = None →
  hm_in_flight (scrape_drop i m) = hm_in_flight m - 1 ∧ counts (scrape_drop i m) = counts m - 1.
Proof. intros Hi. unfold counts, counted, scrape_drop. rewrite Hi. cbn. lia. Qed.
Lemma scrape_drop_coded i m status : si_status i = Some (dec status) → status = 200 ∨ status = 500 →
  hm_in_flight (scrape_drop i m) = hm_in_flight m - 1 ∧ counts (scrape_drop i m) = counts m.
Proof.
  intros Hi Hs. split; [done|]. unfold scrape_drop, counts, counted. rewrite Hi. cbn [hm_requests hm_in_flight].
  destruct Hs as [-> | ->]; [change (dec 200) with "200"|change (dec 500) with "500"];
    rewrite lookup_insert_eq, lookup_insert_ne by done; cbn; lia.
Qed.
Lemma drop_body_coded status body m : phase_coded (SP_Sending status body) →
  hm_in_flight (drop_body body m) = hm_in_flight m - held (cb_instrumentation body) ∧ counts (drop_body body m) = counts m.
Proof.
  intros Hc. unfold drop_body, drop_option. cbn in Hc. destruct (cb_instrumentation body) as [i|]; cbn; [|lia].
  destruct (Hc i eq_refl) as [Hi Hs]. by eapply scrape_drop_coded.
Qed.
Lemma drop_rendered_uncoded request rendered m : phase_coded (SP_Rendered request rendered) →
  hm_in_flight (drop_rendered rendered m) = hm_in_flight m - held (phase_instrumentation (SP_Rendered request rendered)) ∧
  counts (drop_rendered rendered m) = counts m - (1 - render_failed rendered).
Proof. destruct rendered as [|[r i]]; cbn; [lia|]. intros [Hi _]. by apply scrape_drop_uncoded. Qed.

(** A rendering keeps the instrumentation, or drops it without a code. *)
Lemma scrape_render_held task families m rendered m' request : si_status (tk_instrumentation task) = None →
  scrape_render task families m = (rendered, m') →
  phase_coded (SP_Rendered request rendered) ∧
  held (phase_instrumentation (SP_Rendered request rendered)) = 1 - render_failed rendered ∧
  hm_in_flight m' = hm_in_flight m - render_failed rendered ∧ counts m' = counts m - render_failed rendered.
Proof.
  intros Hi. unfold scrape_render. destruct (render _ _ _) as [x|e|message]; intros [= <- <-]; cbn; [by split_and!; [..|lia|lia]..|].
  destruct (scrape_drop_uncoded (tk_instrumentation task) m Hi). by split_and!.
Qed.

(** A response holds the instrumentation of its rendering, with its own status. *)
Lemma scrape_finish_coded request rendered : phase_coded (SP_Rendered request rendered) →
  let r := scrape_finish request rendered in
  phase_coded (SP_Sending (rs_status r) (rs_body r)) ∧
  held (cb_instrumentation (rs_body r)) = held (phase_instrumentation (SP_Rendered request rendered)).
Proof.
  destruct rendered as [message|[[[[payload ct] gz]|e|message] i]]; cbn; intros Hc.
  - done.
  - destruct (_ && _), gz; cbn; (split; [|done]); intros ? [= <-]; auto.
  - split; [|done]. intros ? [= <-]. auto.
  - destruct Hc as [_ Hc]. by destruct (Hc message).
Qed.

Lemma accounted_update s id p q m begun abandoned failed : accounted s → sc_live s !! id = Some p →
  phase_coded q →
  hm_in_flight m = hm_in_flight (sc_metrics s) - held (phase_instrumentation p) + held (phase_instrumentation q) →
  begun = counts m + abandoned + failed →
  accounted (mk_Scrapes m (<[id := q]> (sc_live s)) begun abandoned failed).
Proof.
  intros [Hf Hb Hc] Hid Hq Hfl Hbegun. split; cbn [sc_metrics sc_live sc_begun sc_abandoned sc_failed]; [|done|].
  - rewrite (scrapes_held_update _ _ _ _ Hid). lia.
  - by apply map_Forall_insert_2.
Qed.
Lemma accounted_delete s id p m begun abandoned failed : accounted s → sc_live s !! id = Some p →
  hm_in_flight m = hm_in_flight (sc_metrics s) - held (phase_instrumentation p) →
  begun = counts m + abandoned + failed →
  accounted (mk_Scrapes m (delete id (sc_live s)) begun abandoned failed).
Proof.
  intros [Hf Hb Hc] Hid Hfl Hbegun. split; cbn [sc_metrics sc_live sc_begun sc_abandoned sc_failed]; [|done|].
  - pose proof (scrapes_held_delete _ _ _ Hid). lia.
  - by apply map_Forall_delete.
Qed.

Lemma scrape_step_accounted s s' : scrape_step s s' → accounted s → accounted s'.
Proof.
  intros Hstep Hacc. pose proof Hacc as [Hf Hb Hc].
  destruct Hstep as [s id request task m Hid Hs|s id request task Hid|s id request task families rendered m Hid Hr
    |s id request task families rendered m Hid Hr|s id awaited request task message Hid|s id request rendered Hid
    |s id request rendered Hid|s id status body frame body' m Hid Hp|s id status body Hid];
    try pose proof (Hc id _ Hid) as Hp'; cbn beta in *.
  - unfold scrape_begin in Hs. cbn [scrape_new] in Hs. injection Hs as <- <-.
    split; cbn [sc_metrics sc_live sc_begun sc_abandoned sc_failed].
    + rewrite scrapes_held_insert by done. cbn. lia.
    + unfold counts, counted in *. cbn. lia.
    + by apply map_Forall_insert_2.
  - eapply accounted_update; [done|done|exact Hp'|cbn; lia|done].
  - destruct (scrape_render_held task families _ _ _ request Hp' Hr) as (Hq & Hh & Hfl & Hct).
    eapply accounted_update; [done|done|done| |lia]. rewrite Hh. cbn. lia.
  - destruct (scrape_render_held task families _ _ _ request Hp' Hr) as (Hq & Hh & Hfl & Hct).
    destruct (drop_rendered_uncoded request rendered m Hq) as [Hfl' Hct'].
    eapply accounted_delete; [done|done| |lia]. rewrite Hfl', Hh. cbn. lia.
  - destruct (scrape_drop_uncoded (tk_instrumentation task) (sc_metrics s) Hp') as [Hfl Hct].
    destruct awaited; cbn [deliver]; [eapply accounted_update; [done|done|done|cbn; lia|lia]|].
    eapply accounted_delete; [done|done|cbn; lia|lia].
  - destruct (scrape_finish_coded request rendered Hp') as [Hq Hh]. cbn zeta.
    eapply accounted_update; [done|done|exact Hq| |done]. cbn [phase_instrumentation] in *. lia.
  - destruct (drop_rendered_uncoded request rendered (sc_metrics s) Hp') as [Hfl Hct].
    eapply accounted_delete; [done|done|lia|lia].
  - unfold poll_frame in Hp. destruct (cb_inner body) as [f|]; injection Hp as <- <- <-.
    + eapply accounted_update; [done|done|exact Hp'|cbn; lia|done].
    + destruct (drop_body_coded status body (sc_metrics s) Hp') as [Hfl Hct]. unfold drop_body in Hfl, Hct.
      eapply accounted_update; [done|done|done|cbn; lia|lia].
  - destruct (drop_body_coded status body (sc_metrics s) Hp') as [Hfl Hct].
    eapply accounted_delete; [done|done|cbn; lia|lia].
Qed.

Lemma scrapes_accounted s : rtc scrape_step scrapes_start s → accounted s.
Proof.
  intros Hr. assert (accounted scrapes_start) as Hacc.
  { split; [done|by vm_compute|apply map_Forall_empty]. }
  revert Hacc. induction Hr as [|s1 s2 s3 Hs _ IH]; [done|]. intros Hacc. apply IH. by eapply scrape_step_accounted.
Qed.

(** C25: Over every interleaving of handlers, rendering tasks and the sending of bodies,
    in which handlers may be dropped at any point, tasks may panic or be cancelled, and
    bodies may be dropped half sent: the gauge of scrapes in flight is the number of
    renderings, results and bodies that hold an instrumentation; every scrape that was
    begun is in flight, or counted exactly once as a 200 or a 500, or one of those whose
    handler was dropped before it had a response or whose rendering failed, which are
    counted nowhere; a body counts under its response's own status; and when nothing is
    left on its way none is in flight. *)
Theorem scrapes_counted_once (s : Scrapes) : rtc scrape_step scrapes_start s →
  hm_in_flight (sc_metrics s) = scrapes_held (sc_live s) ∧
  sc_begun s = hm_in_flight (sc_metrics s) + counted (sc_metrics s) "200" + counted (sc_metrics s) "500"
               + sc_abandoned s + sc_failed s ∧
  (∀ id status body i, sc_live s !! id = Some (SP_Sending status body) → cb_instrumentation body = Some i →
     si_status i = Some (dec status) ∧ (status = 200 ∨ status = 500)) ∧
  (sc_live s = ∅ → hm_in_flight (sc_metrics s) = 0).
Proof.
  intros [Hf Hb Hc]%scrapes_accounted. split_and!; [done|done| |].
  - intros id status body i Hid. exact (Hc id _ Hid i).
  - intros E. by rewrite Hf, E.
Qed.
End account.

(** Libraries that accept and write everything. *)
Definition plain_http : MetricsHttp :=
  {| header_to_str := Some; header_value_valid _ := true; gzip := Ok; join_error_display := id |}.

(** Two scrapes: one is sent, the handler of the other is dropped while it renders. *)
Definition demo_request : ScrapeRequest := mk_ScrapeRequest M_GET "/metrics" None [("accept", "text/plain")] (mk_RequestBody (Some 0) []).
Definition demo_task : ScrapeTask := (@scrape_begin plain_http demo_request handler_metrics_register).1.
Definition demo_metrics (count in_flight : Z) : HandlerMetrics :=
  mk_HandlerMetrics (<["200" := count]> (hm_requests handler_metrics_register)) in_flight.

Definition demo_rendered : Rendered :=
  inr (Ok ("# EOF", "text/plain; version=0.0.4; charset=utf-8; escaping=underscores", false), mk_ScrapeInstrumentation None).

Lemma scrapes_counted_once_witness :
  hm_in_flight (demo_metrics 1 0) = scrapes_held ∅ ∧
  2 = hm_in_flight (demo_metrics 1 0) + counted (demo_metrics 1 0) "200" + counted (demo_metrics 1 0) "500" + 1 + 0.
Proof.
  destruct (@scrapes_counted_once plain_unicode strict_prometheus plain_http reference_powi
              (mk_Scrapes (demo_metrics 1 0) ∅ 2 1 0)) as (Hf & Hb & _); [|split; [exact Hf|exact Hb]].
  change scrapes_start with (mk_Scrapes (demo_metrics 0 0) ∅ 0 0 0).
  eapply rtc_l; [apply (step_begin _ 0%nat demo_request demo_task (demo_metrics 0 1)); done|].
  eapply rtc_l; [apply (step_render _ 0%nat demo_request demo_task [] demo_rendered (demo_metrics 0 1)); by vm_compute|].
  eapply rtc_l; [apply (step_answer _ 0%nat demo_request); done|].
  eapply rtc_l; [eapply (step_drop _ 0%nat 200); by vm_compute|].
  eapply rtc_l; [apply (step_begin _ 1%nat demo_request demo_task (demo_metrics 1 1)); by vm_compute|].
  eapply rtc_l; [apply (step_detach _ 1%nat demo_request demo_task); by vm_compute|].
  eapply rtc_l; [apply (step_render_detached _ 1%nat demo_request demo_task [] demo_rendered (demo_metrics 1 1)); by vm_compute|].
  apply rtc_refl.
Defined.
