(* ===== verification/CorroAdmin.v ===== *)
(** * The corrosion admin client

    admin.rs of ployz-internal-corrosion: commands and responses in frames over a socket
    whose reads may be cut and cancelled anywhere, membership states and round-trip
    times.  [serde_json]'s reader and the squares of [f64::powi] are parameters. *)

From Stdlib Require Import SpecFloat.
From S2P Require Import Prelude BTree RustStr NetAddr Chars ClusterDns Cluster Store CorroClient Float.
From S2P Require Import MetricsNegotiate.

Local Open Scope Z_scope.

(** ** Values *)

(** [serde_json::Value]; a number is an integer or an [f64]. *)
Inductive AdminNumber := AN_Int (z : Z) | AN_Float (x : float).
Inductive AdminValue :=
| AV_Null | AV_Bool (b : bool) | AV_Number (n : AdminNumber) | AV_String (s : string)
| AV_Array (l : list AdminValue) | AV_Object (entries : list (string * AdminValue)).
Definition AdminObject : Type := list (string * AdminValue).

(** [Map::get], and the accessors of a value. *)
Definition object_get (key : string) (object : AdminObject) : option AdminValue :=
  snd <$> List.find (fun '(k, _) => String.eqb k key) object.
Definition as_object (v : AdminValue) : option AdminObject := match v with AV_Object o => Some o | _ => None end.
Definition as_str (v : AdminValue) : option string := match v with AV_String s => Some s | _ => None end.
Definition as_array (v : AdminValue) : option (list AdminValue) := match v with AV_Array l => Some l | _ => None end.

(** An integer as an [f64]. *)
Definition f64_of_int (z : Z) : float := binary_normalize 53 1024 z 0 false.
Definition number_as_f64 (n : AdminNumber) : float := match n with AN_Int z => f64_of_int z | AN_Float x => x end.
Definition as_f64 (v : AdminValue) : option float := match v with AV_Number n => Some (number_as_f64 n) | _ => None end.

(** [normalize_numbers_to_f64]; [Number::from_f64] refuses what is not finite. *)
Fixpoint normalize_numbers_to_f64 (v : AdminValue) : AdminValue :=
  match v with
  | AV_Number n => if is_finite (number_as_f64 n) then AV_Number (AN_Float (number_as_f64 n)) else v
  | AV_Array l => AV_Array (map normalize_numbers_to_f64 l)
  | AV_Object entries => AV_Object (map (fun '(k, v) => (k, normalize_numbers_to_f64 v)) entries)
  | _ => v
  end.

(** ** Frames *)

(** [u32::to_be_bytes] and [u32::from_be_bytes]. *)
Definition be_byte (z : Z) : ascii := Ascii.ascii_of_N (Z.to_N (z mod 256)).
Definition to_be_bytes (z : Z) : Bytes := [be_byte (z / 16777216); be_byte (z / 65536); be_byte (z / 256); be_byte z].
Definition from_be_bytes (l : Bytes) : Z := fold_left (fun acc c => acc * 256 + byte_val c) l 0.

(** [encode_frame]. *)
Definition encode_frame (data : Bytes) : Bytes := to_be_bytes (Z.of_nat (length data) mod 2 ^ 32) ++ data.

(** What the socket's reads find: bytes that arrived together, of which a read takes what
    its buffer holds (none of them at the end of the stream), or an error. *)
Inductive SocketRead := SR_Data (chunk : Bytes) | SR_Error (error : string).

Inductive ReadEnd := RE_Done | RE_Eof | RE_Failed (error : string) | RE_Waiting.

(** A loop of [read_frame]: reads until the buffer holds [size] bytes.  Without further
    reads it waits, and a caller that gives up keeps what was read. *)
Fixpoint read_until (size : nat) (got : Bytes) (reads : list SocketRead) : ReadEnd * Bytes * list SocketRead :=
  if (size <=? length got)%nat then (RE_Done, got, reads)
  else match reads with
       | [] => (RE_Waiting, got, [])
       | SR_Error error :: reads => (RE_Failed error, got, reads)
       | SR_Data [] :: reads => (RE_Eof, got, reads)
       | SR_Data chunk :: reads =>
           let room := (size - length got)%nat in
           if (room <? length chunk)%nat
           then (RE_Done, got ++ take room chunk, SR_Data (drop room chunk) :: reads)
           else read_until size (got ++ chunk) reads
       end.

(** [AdminResponses]: whether it has ended, the bytes of the frame's head that were read,
    and, once the head is complete, the size of the frame and the bytes of it. *)
Record AdminResponses := mk_AdminResponses {
  ar_finished : bool; ar_head : Bytes; ar_data : option (nat * Bytes)
}.
Definition responses_new : AdminResponses := mk_AdminResponses false [] None.

(** A call that ended with a result, or that waits. *)
Inductive Polled A := Ready (a : A) | Pending.
Arguments Ready {A} a.
Arguments Pending {A}.

(** [read_frame]. *)
Definition read_frame (self : AdminResponses) (reads : list SocketRead) :
    Polled (result ClientError Bytes) * AdminResponses * list SocketRead :=
  let '(end_, head, reads) := read_until 4 (ar_head self) reads in
  let self := mk_AdminResponses (ar_finished self) head (ar_data self) in
  match end_ with
  | RE_Waiting => (Pending, self, reads)
  | RE_Eof => (Ready (Err (ce_new KAdmin "read frame head: unexpected EOF")), self, reads)
  | RE_Failed error => (Ready (Err (ce_foreign KAdmin "read frame head" error)), self, reads)
  | RE_Done =>
      let '(size, got) := match ar_data self with
                          | Some data => data
                          | None => (Z.to_nat (from_be_bytes head), [])
                          end in
      let '(end_, got, reads) := read_until size got reads in
      let self := mk_AdminResponses (ar_finished self) head (Some (size, got)) in
      match end_ with
      | RE_Waiting => (Pending, self, reads)
      | RE_Eof => (Ready (Err (ce_new KAdmin "read frame data: unexpected EOF")), self, reads)
      | RE_Failed error => (Ready (Err (ce_foreign KAdmin "read frame data" error)), self, reads)
      | RE_Done => (Ready (Ok got), mk_AdminResponses (ar_finished self) [] None, reads)
      end
  end.

(** [serde_json::from_slice] and the debug text of an object. *)
Class AdminJson := {
  admin_from_slice : Bytes → string + AdminValue;
  admin_object_debug : AdminObject → string
}.

(** What [next] makes of a frame: it returns an item or an error, ends, or reads on. *)
Inductive Decoded := D_Item (o : AdminObject) | D_Fail (e : ClientError) | D_End | D_Skip.
Definition decode_frame `{AdminJson} (data : Bytes) : Decoded :=
  match admin_from_slice data with
  | inl error => D_Fail (ce_foreign KJson "unmarshal response" error)
  | inr decoded =>
      match normalize_numbers_to_f64 decoded with
      | AV_String value => if String.eqb value "Success" then D_End else D_Skip
      | AV_Object object =>
          match object_get "Error" object with
          | Some (AV_Object error) =>
              match object_get "msg" error with
              | Some (AV_String message) => D_Fail (ce_new KAdmin message)
              | _ => D_Fail (ce_new KAdmin ("invalid error response: " +:+ admin_object_debug error))
              end
          | _ =>
              match object_get "Json" object with
              | Some (AV_Object json) => D_Item json
              | _ => D_Skip
              end
          end
      | _ => D_Skip
      end
  end.

Definition finish (self : AdminResponses) : AdminResponses := mk_AdminResponses true (ar_head self) (ar_data self).

(** [AdminResponses::next]: a turn of its loop reads a frame, so that the bytes and reads
    that are left bound the turns. *)
Fixpoint next_turns `{AdminJson} (fuel : nat) (self : AdminResponses) (reads : list SocketRead) :
    option (Polled (option (result ClientError AdminObject)) * AdminResponses * list SocketRead) :=
  match fuel with
  | O => None
  | S fuel =>
      match read_frame self reads with
      | (Pending, self, reads) => Some (Pending, self, reads)
      | (Ready (Ok data), self, reads) =>
          match decode_frame data with
          | D_Item json => Some (Ready (Some (Ok json)), self, reads)
          | D_Fail error => Some (Ready (Some (Err error)), finish self, reads)
          | D_End => Some (Ready None, finish self, reads)
          | D_Skip => next_turns fuel self reads
          end
      | (Ready (Err error), self, reads) => Some (Ready (Some (Err error)), finish self, reads)
      | (Ready (Panic m), self, reads) => Some (Ready (Some (Panic m)), finish self, reads)
      end
  end.
Definition reads_size (reads : list SocketRead) : nat :=
  sum_list_with (fun r => match r with SR_Data chunk => S (length chunk) | SR_Error _ => 1%nat end) reads.
Definition responses_next `{AdminJson} (self : AdminResponses) (reads : list SocketRead) :
    option (Polled (option (result ClientError AdminObject)) * AdminResponses * list SocketRead) :=
  if ar_finished self then Some (Ready None, self, reads) else next_turns (S (S (reads_size reads))) self reads.

(** ** Membership states *)

(** [NtpTimestamp::from_ntp64], as seconds and nanoseconds. *)
Definition from_ntp64 (value : Z) : Z * Z :=
  (Z.shiftr value 32 mod 2 ^ 32, Z.shiftr ((value mod 2 ^ 32) * 1000000000) 32 mod 2 ^ 32).
(** The derived order. *)
Definition timestamp_lt (a b : Z * Z) : bool := (a.1 <? b.1) || ((a.1 =? b.1) && (a.2 <? b.2)).

(** [as u64]: truncated, saturating, and 0 for NaN. *)
Definition float_to_u64 (x : float) : Z :=
  match x with
  | S754_infinity s => if s then 0 else u_max 64
  | S754_finite false m e =>
      Z.min (if 0 <=? e then Zpos m * 2 ^ e else Zpos m / 2 ^ (- e)) (u_max 64)
  | _ => 0
  end.

(** [SocketAddr::from_str]; a scope is read and left out. *)
Definition read_port (s : string) : option (Z * string) :=
  rest ← read_given_char ":" s; read_number 10 (str_len s) true 65535 rest.
Definition read_socket_v4 (s : string) : option (IpAddr * Z * string) :=
  '(ip, s) ← read_ipv4 s; '(port, s) ← read_port s; Some (V4 ip, port, s).
Definition read_socket_v6 (s : string) : option (IpAddr * Z * string) :=
  s ← read_given_char "[" s;
  '(ip, s) ← read_ipv6 s;
  let s := match read_given_char "%" s with
           | Some rest => match read_number 10 (str_len s) true (u_max 32) rest with Some (_, s) => s | None => s end
           | None => s
           end in
  s ← read_given_char "]" s;
  '(port, s) ← read_port s;
  Some (V6 ip, port, s).
Definition socket_addr_from_str (s : string) : string + IpAddr * Z :=
  match (match read_socket_v4 s with Some r => Some r | None => read_socket_v6 s end) with
  | Some (ip, port, EmptyString) => inr (ip, port)
  | _ => inl "invalid socket address syntax"
  end.

Definition protocol_error {A} (message : string) : result ClientError A := Err (ce_new KProtocol message).
Definition require {A} (message : string) (o : option A) : result ClientError A :=
  match o with Some a => Ok a | None => protocol_error message end.

(** [parse_cluster_membership_state]. *)
Definition parse_cluster_membership_state (object : AdminObject) : result ClientError ClusterMembershipState :=
  id_object ← require "missing or invalid 'id' field" (object_get "id" object ≫= as_object);
  id ← require "missing or invalid 'id' field" (object_get "id" id_object ≫= as_str);
  address ← require "missing or invalid 'addr' field" (object_get "addr" id_object ≫= as_str);
  address ← wrap KProtocol "parse 'addr' field" (socket_addr_from_str address);
  state ← match object_get "state" object ≫= as_str with
          | Some value =>
              if String.eqb value "Alive" then Ok AS_Alive
              else if String.eqb value "Suspect" then Ok AS_Suspect
              else if String.eqb value "Down" then Ok AS_Down
              else protocol_error ("invalid 'state' field: " +:+ value)
          | None => protocol_error "missing or invalid 'state' field"
          end;
  timestamp ← require "missing or invalid 'ts' field" (object_get "ts" id_object ≫= as_f64);
  Ok (mk_ClusterMembershipState id address state (from_ntp64 (float_to_u64 timestamp))).

(** [BatchError]. *)
Record BatchError (A : Type) := mk_BatchError { be_partial : list A; be_errors : list ClientError }.
Arguments mk_BatchError {A} _ _.
Arguments be_partial {A} _.
Arguments be_errors {A} _.
Definition batch_fatal {A} (error : ClientError) : BatchError A := mk_BatchError [] [error].
(** [Display for BatchError]. *)
Definition batch_error_display {A} (e : BatchError A) : string :=
  str_join (String (Ascii.ascii_of_nat 10) "") (map ce_display (be_errors e)).
(** The end of both commands. *)
Definition batch_result {A} (items : list A) (errors : list ClientError) : result (BatchError A) (list A) :=
  match errors with [] => Ok items | _ => Err (mk_BatchError items errors) end.

(** [AdminClient::send_command] on what the connection and the write of the frame answer. *)
Definition send_command (connected written : option string) : result ClientError AdminResponses :=
  match connected with
  | Some error => Err (ce_foreign KAdmin "connect to admin socket" error)
  | None =>
      match written with
      | Some error => Err (ce_foreign KAdmin "send command" error)
      | None => Ok responses_new
      end
  end.

(** The loop over the responses: an error of the connection ends it, one of an item is
    kept. *)
Fixpoint collect_responses `{AdminJson} {A B} (fuel : nat) (parse : AdminObject → result ClientError A)
    (keep : A → option B) (items : list B) (errors : list ClientError) (self : AdminResponses)
    (reads : list SocketRead) : option (Polled (result (BatchError B) (list B * list ClientError))) :=
  match fuel with
  | O => None
  | S fuel =>
      match responses_next self reads with
      | None => None
      | Some (Pending, _, _) => Some Pending
      | Some (Ready None, _, _) => Some (Ready (Ok (items, errors)))
      | Some (Ready (Some (Err error)), _, _) => Some (Ready (Err (batch_fatal error)))
      | Some (Ready (Some (Panic m)), _, _) => Some (Ready (Panic m))
      | Some (Ready (Some (Ok object)), self, reads) =>
          match parse object with
          | Ok a => collect_responses fuel parse keep (items ++ option_list (keep a)) errors self reads
          | Err error => collect_responses fuel parse keep items (errors ++ [error]) self reads
          | Panic m => Some (Ready (Panic m))
          end
      end
  end.
(** Both commands: every response takes bytes, so the reads bound the loop. *)
Definition run_command `{AdminJson} {A B} (parse : AdminObject → result ClientError A) (keep : A → option B)
    (order : list B → list B) (connected written : option string) (reads : list SocketRead) :
    option (Polled (result (BatchError B) (list B))) :=
  match send_command connected written with
  | Ok self =>
      match collect_responses (S (S (S (reads_size reads)))) parse keep [] [] self reads with
      | Some (Ready (Ok (items, errors))) => Some (Ready (batch_result (order items) errors))
      | Some (Ready (Err error)) => Some (Ready (Err error))
      | Some (Ready (Panic m)) => Some (Ready (Panic m))
      | Some Pending => Some Pending
      | None => None
      end
  | Err error => Some (Ready (Err (batch_fatal error)))
  | Panic m => Some (Ready (Panic m))
  end.

(** The states with the latest timestamp of every member. *)
Definition latest_step (by_id : gmap string ClusterMembershipState) (state : ClusterMembershipState) :
    gmap string ClusterMembershipState :=
  match by_id !! cms_id state with
  | Some existing =>
      if timestamp_lt (cms_timestamp existing) (cms_timestamp state) then <[cms_id state := state]> by_id else by_id
  | None => <[cms_id state := state]> by_id
  end.
Definition latest_states `{HashOrder} (states : list ClusterMembershipState) : list ClusterMembershipState :=
  map snd (hash_iter (fold_left latest_step states ∅)).

(** [cluster_membership_states]. *)
Definition cluster_membership_states `{AdminJson} `{HashOrder} (latest : bool) (connected written : option string)
    (reads : list SocketRead) : option (Polled (result (BatchError ClusterMembershipState) (list ClusterMembershipState))) :=
  run_command parse_cluster_membership_state Some (if latest then latest_states else id) connected written reads.

(** ** Round-trip times *)

(** [parse_cluster_member_rtt]. *)
Fixpoint rtt_samples (values : list AdminValue) : result ClientError (list float) :=
  match values with
  | [] => Ok []
  | value :: values =>
      sample ← require "invalid rtt value type" (as_f64 value);
      samples ← rtt_samples values;
      Ok (sample :: samples)
  end.
Definition parse_cluster_member_rtt (object : AdminObject) : result ClientError (IpAddr * Z * list float) :=
  state ← require "missing or invalid 'state' field" (object_get "state" object ≫= as_object);
  address ← require "missing or invalid 'addr' field in 'state'" (object_get "addr" state ≫= as_str);
  address ← wrap KProtocol "parse 'addr' field" (socket_addr_from_str address);
  match object_get "rtts" object with
  | None | Some AV_Null => Ok (address, [])
  | Some rtts =>
      rtts ← require "invalid 'rtts' field type" (as_array rtts);
      samples ← rtt_samples rtts;
      Ok (address, samples)
  end.

(** [f64::total_cmp] as a place in the order: a rank, an exponent and a mantissa. *)
Definition total_key (x : float) : Z * Z * Z :=
  match x with
  | S754_infinity s => (if s then -3 else 3, 0, 0)
  | S754_finite s m e => if s then (-2, - e, Zneg m) else (2, e, Zpos m)
  | S754_zero s => (if s then -1 else 1, 0, 0)
  | S754_nan => (4, 0, 0)
  end.
Definition total_leb (x y : float) : bool :=
  let '(a, b, c) := total_key x in
  let '(a', b', c') := total_key y in
  (a <? a') || ((a =? a') && ((b <? b') || ((b =? b') && (c <=? c')))).
Definition total_le (x y : float) : Prop := total_leb x y = true.
#[export] Instance total_le_dec : RelDecision total_le := fun x y => decide (total_leb x y = true).

Definition f64_sum (l : list float) : float := fold_left f64_add l (S754_zero true).
Definition f64_sub : float → float → float := SFsub 53 1024.
Definition f64_mul : float → float → float := SFmul 53 1024.
Definition f64_sqrt : float → float := SFsqrt 53 1024.

(** [compute_rtt_stats_ms]: the median and the standard deviation. *)
Definition compute_rtt_stats_ms `{Powi} {E} (samples : list float) : result E (float * float) :=
  if bool_decide (samples = []) then Ok (float_zero, float_zero)
  else
    let sorted := merge_sort total_le samples in
    let n := length sorted in
    let at_ i := match sorted !! i with Some x => Ok x | None => Panic "index out of bounds" end in
    median ← (if (n mod 2 =? 0)%nat
              then a ← at_ (n / 2 - 1)%nat; b ← at_ (n / 2)%nat; Ok (f64_div (f64_add a b) (f64_of_int 2))
              else at_ (n / 2)%nat);
    let average := f64_div (f64_sum sorted) (f64_of_int (Z.of_nat n)) in
    let variance := f64_div (f64_sum (map (fun sample => powi (f64_sub sample average) 2) sorted)) (f64_of_int (Z.of_nat n)) in
    Ok (median, f64_sqrt variance).

(** [MemberRttStats], in nanoseconds. *)
Record MemberRttStats := mk_MemberRttStats { mr_address : IpAddr * Z; mr_median : Z; mr_standard_deviation : Z }.
Definition to_nanos (ms : float) : Z := float_to_u64 (f64_mul ms (f64_of_int 1000000)).

Definition member_rtt_stats `{Powi} (object : AdminObject) : result ClientError (option MemberRttStats) :=
  '(address, samples) ← parse_cluster_member_rtt object;
  if bool_decide (samples = []) then Ok None
  else
    '(median, deviation) ← compute_rtt_stats_ms samples;
    Ok (Some (mk_MemberRttStats address (to_nanos median) (to_nanos deviation))).

(** [cluster_member_rtts]. *)
Definition cluster_member_rtts `{AdminJson} `{Powi} (connected written : option string) (reads : list SocketRead) :
    option (Polled (result (BatchError MemberRttStats) (list MemberRttStats))) :=
  run_command member_rtt_stats id id connected written reads.
