(* ===== verification/CorroAdminProps.v ===== *)
(** * What the admin client promises

    A call of [next] that is given up anywhere and made again reads what one call would
    have read; a stream of frames is read back however the socket cuts it; the commands
    answer what the frames say; the latest states are one per member, with its greatest
    timestamp; the round-trip statistics do not depend on the samples' order. *)

From Stdlib Require Import SpecFloat.
From S2P Require Import Prelude BTree RustStr NetAddr Chars ClusterDns Cluster Store CorroClient Float.
From S2P Require Import MetricsNegotiate CorroAdmin.

Local Open Scope Z_scope.

(** ** Reads that continue *)

(** Reads that are only waiting can be taken up again. *)
Lemma read_until_waits size got reads got' rest :
  read_until size got reads = (RE_Waiting, got', rest) →
  rest = [] ∧ ∀ more, read_until size got (reads ++ more) = read_until size got' more.
Proof.
  revert got. induction reads as [|r reads IH]; intros got; cbn [read_until app].
  - destruct (size <=? length got)%nat; intros [= <- <-]. done.
  - destruct (size <=? length got)%nat; [intros [=]|].
    destruct r as [[|c chunk]|error]; [intros [=]| |intros [=]].
    destruct (_ <? _)%nat; [intros [=]|]. apply IH.
Qed.

(** Reads that ended leave what follows. *)
Lemma read_until_ends size got reads e got' rest :
  read_until size got reads = (e, got', rest) → e ≠ RE_Waiting →
  ∀ more, read_until size got (reads ++ more) = (e, got', rest ++ more).
Proof.
  intros Hr He. revert got Hr. induction reads as [|r reads IH]; intros got Hr more; cbn [read_until app] in *.
  - destruct (size <=? length got)%nat eqn:E; injection Hr as <- <- <-; [|done].
    destruct more as [|r more]; cbn [read_until app]; rewrite E; done.
  - destruct (size <=? length got)%nat; [by injection Hr as <- <- <-|].
    destruct r as [[|c chunk]|error]; [by injection Hr as <- <- <-| |by injection Hr as <- <- <-].
    destruct (_ <? _)%nat; [by injection Hr as <- <- <-|]. by apply IH.
Qed.

Lemma read_until_full size got reads :
  (size ≤ length got)%nat → read_until size got reads = (RE_Done, got, reads).
Proof. intros H. apply Nat.leb_le in H. destruct reads; cbn [read_until]; by rewrite H. Qed.

(** A finished buffer holds its size, and bytes were read if it was not full before. *)
Lemma read_until_done size got reads got' rest :
  read_until size got reads = (RE_Done, got', rest) →
  (size ≤ length got')%nat ∧ (reads_size rest ≤ reads_size reads)%nat ∧
  ((length got < size)%nat → (reads_size rest < reads_size reads)%nat).
Proof.
  revert got. induction reads as [|r reads IH]; intros got; cbn [read_until].
  - destruct (size <=? length got)%nat eqn:E; intros [= <- <-]. apply Nat.leb_le in E. lia.
  - destruct (size <=? length got)%nat eqn:E; [intros [= <- <-]; apply Nat.leb_le in E; lia|].
    apply Nat.leb_gt in E. destruct r as [[|c chunk]|error]; [intros [=]| |intros [=]].
    destruct (size - length got <? length (c :: chunk))%nat eqn:Er.
    + apply Nat.ltb_lt in Er. intros [= <- <-]. unfold reads_size. cbn [sum_list_with].
      rewrite length_app, length_take, length_drop. lia.
    + intros Hr. apply IH in Hr. unfold reads_size in *. cbn [sum_list_with]. cbn [length] in *. lia.
Qed.

(** The same of [read_frame]. *)
Lemma read_frame_waits self reads self' rest :
  read_frame self reads = (Pending, self', rest) →
  rest = [] ∧ ar_finished self' = ar_finished self ∧
  ∀ more, read_frame self (reads ++ more) = read_frame self' more.
Proof.
  unfold read_frame. destruct (read_until 4 (ar_head self) reads) as [[e head] r1] eqn:E1.
  destruct e; [|intros [=]|intros [=]|].
  - cbn [ar_data ar_head ar_finished].
    destruct (match ar_data self with Some d => d | None => _ end) as [size got] eqn:Ed.
    destruct (read_until size got r1) as [[e2 got2] r2] eqn:E2.
    destruct e2; intros [= <- <-]. apply read_until_waits in E2 as [-> Hmore].
    split_and!; [done|done|]. intros more.
    pose proof (read_until_done _ _ _ _ _ E1) as (Hfull & _).
    rewrite (read_until_ends _ _ _ _ _ _ E1) by done. cbn [ar_data ar_head ar_finished].
    rewrite (read_until_full 4 head more) by done. rewrite Ed, Hmore. done.
  - intros [= <- <-]. apply read_until_waits in E1 as [-> Hmore].
    split_and!; [done|done|]. intros more. cbn [ar_data ar_head ar_finished]. rewrite Hmore. done.
Qed.

Lemma read_frame_ends self reads a self' rest :
  read_frame self reads = (Ready a, self', rest) →
  ar_finished self' = ar_finished self ∧ ∀ more, read_frame self (reads ++ more) = (Ready a, self', rest ++ more).
Proof.
  unfold read_frame. destruct (read_until 4 (ar_head self) reads) as [[e head] r1] eqn:E1.
  destruct e; [|intros [= <- <- <-]..|intros [=]].
  - cbn [ar_data ar_head ar_finished].
    destruct (match ar_data self with Some d => d | None => _ end) as [size got] eqn:Ed.
    destruct (read_until size got r1) as [[e2 got2] r2] eqn:E2.
    destruct e2; intros [= <- <- <-]; (split; [done|]); intros more;
      rewrite (read_until_ends _ _ _ _ _ _ E1) by done; cbn [ar_data ar_head ar_finished];
      rewrite Ed, (read_until_ends _ _ _ _ _ _ E2) by done; done.
  - split; [done|]. intros more. rewrite (read_until_ends _ _ _ _ _ _ E1) by done. done.
  - split; [done|]. intros more. rewrite (read_until_ends _ _ _ _ _ _ E1) by done. done.
Qed.

(** A frame that was read leaves the reader at a frame's start, and took bytes if it was
    there before. *)
Lemma read_frame_ok self reads data self' rest :
  read_frame self reads = (Ready (Ok data), self', rest) →
  ar_head self' = [] ∧ ar_data self' = None ∧ (reads_size rest ≤ reads_size reads)%nat ∧
  (ar_head self = [] → (reads_size rest < reads_size reads)%nat).
Proof.
  unfold read_frame. destruct (read_until 4 (ar_head self) reads) as [[e head] r1] eqn:E1.
  destruct e; try (intros [=]; fail).
  cbn [ar_data ar_head ar_finished].
  destruct (match ar_data self with Some d => d | None => _ end) as [size got] eqn:Ed.
  destruct (read_until size got r1) as [[e2 got2] r2] eqn:E2.
  destruct e2; intros [= <- <- <-]. cbn [ar_head ar_data].
  apply read_until_done in E1 as (_ & H1 & H1'). apply read_until_done in E2 as (_ & H2 & _).
  split_and!; [done|done|lia|]. intros Hh. rewrite Hh in H1'. specialize (H1' ltac:(cbn; lia)). lia.
Qed.

(** ** [next] *)

Section Next.
Context `{AdminJson}.

Lemma next_turns_mono fuel fuel' self reads answer :
  next_turns fuel self reads = Some answer → (fuel ≤ fuel')%nat → next_turns fuel' self reads = Some answer.
Proof.
  revert fuel' self reads. induction fuel as [|fuel IH]; intros [|fuel'] self reads Hn Hle; try done; [lia|].
  cbn [next_turns] in *. destruct (read_frame self reads) as [[[[data|e|m]|] self'] rest]; try done.
  destruct (decode_frame data); try done. apply IH; [done|lia].
Qed.

(** The bytes and reads that are left bound the turns. *)
Lemma next_turns_total fuel self reads :
  (reads_size reads + (if decide (ar_head self = []) then 0 else 1) < fuel)%nat →
  is_Some (next_turns fuel self reads).
Proof.
  revert self reads. induction fuel as [|fuel IH]; intros self reads Hf; [lia|]. cbn [next_turns].
  destruct (read_frame self reads) as [[[[data|e|m]|] self'] rest] eqn:E; try by eexists.
  destruct (decode_frame data); try by eexists.
  apply read_frame_ok in E as (Hh & _ & Hle & Hlt). apply IH.
  destruct (decide (ar_head self' = [])); [|done].
  destruct (decide (ar_head self = [])) as [Hs|]; [specialize (Hlt Hs); lia|lia].
Qed.

Lemma responses_next_total self reads : is_Some (responses_next self reads).
Proof.
  unfold responses_next. destruct (ar_finished self); [by eexists|].
  apply next_turns_total. destruct (decide _); lia.
Qed.

Lemma next_turns_resume fuel self reads self' rest :
  next_turns fuel self reads = Some (Pending, self', rest) →
  rest = [] ∧ ar_finished self' = ar_finished self ∧
  ∀ fuel' more answer, next_turns fuel' self' more = Some answer →
    next_turns (fuel + fuel') self (reads ++ more) = Some answer.
Proof.
  revert self reads. induction fuel as [|fuel IH]; intros self reads; [done|]. cbn [next_turns].
  destruct (read_frame self reads) as [[[[data|e|m]|] s1] r1] eqn:E; try done.
  - destruct (decode_frame data) eqn:Ed; try done. intros Hn.
    apply IH in Hn as (-> & Hf & Hmore). apply read_frame_ends in E as [Hf1 E].
    split_and!; [done|by rewrite Hf|]. intros fuel' more answer Ha.
    cbn [next_turns Nat.add]. rewrite E, Ed. by apply Hmore.
  - intros [= <- <-]. apply read_frame_waits in E as (-> & Hf & E). split_and!; [done|done|].
    intros fuel' more answer Ha. apply (next_turns_mono _ (S fuel + fuel')) in Ha; [|lia].
    cbn [next_turns Nat.add] in *. by rewrite E.
Qed.

(** C17: cancelling [next] loses nothing.  A call always comes to an end or waits; if it
    waits for the socket with reader [self'], it has taken all that arrived, and a later
    call from [self'] on what arrives then answers exactly what one uninterrupted call
    would have answered on all of it, and leaves the same reader and socket. *)
Theorem next_cancellation_safe (self self' : AdminResponses) (reads rest more : list SocketRead) :
  responses_next self reads = Some (Pending, self', rest) →
  rest = [] ∧ is_Some (responses_next self' more) ∧
  responses_next self (reads ++ more) = responses_next self' more.
Proof.
  intros Hn. pose proof (responses_next_total self' more) as Ht. unfold responses_next in *.
  destruct (ar_finished self) eqn:Ef; [done|].
  apply next_turns_resume in Hn as (-> & Hf & Hmore). rewrite Ef in Hf. rewrite Hf in *.
  split_and!; [done|done|]. destruct Ht as [answer Ha]. rewrite Ha.
  specialize (Hmore _ _ _ Ha).
  destruct (next_turns_total (S (S (reads_size (reads ++ more)))) self (reads ++ more)) as [answer' Ha'];
    [destruct (decide _); lia|].
  rewrite Ha'. apply (next_turns_mono _ (S (S (reads_size (reads ++ more))) + (S (S (reads_size reads)) + S (S (reads_size more))))) in Ha'; [|lia].
  apply (next_turns_mono _ (S (S (reads_size (reads ++ more))) + (S (S (reads_size reads)) + S (S (reads_size more))))) in Hmore; [|lia].
  congruence.
Qed.
End Next.

(** ** Streams that are cut anywhere *)

(** The reads deliver these bytes, in chunks that are cut anywhere. *)
Definition delivers (reads : list SocketRead) (bytes : Bytes) : Prop :=
  ∃ chunks, reads = map SR_Data chunks ∧ Forall (λ chunk, chunk ≠ []) chunks ∧ concat chunks = bytes.

Lemma delivers_cons c chunk reads bytes :
  delivers reads bytes → delivers (SR_Data (c :: chunk) :: reads) ((c :: chunk) ++ bytes).
Proof. intros (chunks & -> & Hf & <-). exists ((c :: chunk) :: chunks). by split_and!; [|constructor|]. Qed.

Lemma read_until_delivers size got reads bytes :
  delivers reads bytes → (size ≤ length got + length bytes)%nat →
  ∃ rest, read_until size got reads = (RE_Done, got ++ take (size - length got) bytes, rest) ∧
          delivers rest (drop (size - length got) bytes).
Proof.
  intros (chunks & -> & Hf & <-). revert got. induction Hf as [|chunk chunks Hne Hf IH]; intros got Hlen;
    cbn [read_until map concat] in *.
  - destruct (size <=? length got)%nat eqn:E; [|apply Nat.leb_gt in E; cbn in Hlen; lia].
    rewrite take_nil, drop_nil, app_nil_r. eexists. split; [done|]. by exists [].
  - destruct (size <=? length got)%nat eqn:E.
    { apply Nat.leb_le in E. replace (size - length got)%nat with 0%nat by lia.
      rewrite app_nil_r. eexists. split; [done|]. exists (chunk :: chunks). by split_and!; [|constructor|]. }
    destruct chunk as [|c chunk]; [done|]. apply Nat.leb_gt in E.
    destruct (size - length got <? length (c :: chunk))%nat eqn:Er.
    + apply Nat.ltb_lt in Er. rewrite take_app_le, drop_app_le by lia. eexists. split; [done|].
      destruct (drop (size - length got) (c :: chunk)) eqn:Ed.
      { apply (f_equal length) in Ed. rewrite length_drop in Ed. cbn [length] in *. lia. }
      apply delivers_cons. by exists chunks.
    + apply Nat.ltb_ge in Er. rewrite length_app in Hlen.
      destruct (IH (got ++ c :: chunk)) as (rest & Hr & Hd); [rewrite length_app; lia|].
      exists rest. rewrite Hr. rewrite take_app_ge, drop_app_ge by lia.
      rewrite length_app, Nat.sub_add_distr, <- app_assoc in *. done.
Qed.

Lemma be_byte_val z : byte_val (be_byte z) = z mod 256.
Proof.
  unfold byte_val, be_byte. pose proof (Z.mod_pos_bound z 256 ltac:(lia)).
  rewrite Ascii.N_ascii_embedding by lia. by rewrite Z2N.id by lia.
Qed.

Lemma be_round_trip z : 0 ≤ z < 2 ^ 32 → from_be_bytes (to_be_bytes z) = z.
Proof.
  intros Hz. unfold from_be_bytes, to_be_bytes. cbn [fold_left]. rewrite !be_byte_val.
  change (2 ^ 32) with 4294967296 in Hz.
  Z.div_mod_to_equations. lia.
Qed.

(** One frame of a stream. *)
Lemma read_frame_delivers finished data bytes reads :
  delivers reads (encode_frame data ++ bytes) → Z.of_nat (length data) < 2 ^ 32 →
  ∃ rest, read_frame (mk_AdminResponses finished [] None) reads =
          (Ready (Ok data), mk_AdminResponses finished [] None, rest) ∧ delivers rest bytes.
Proof.
  intros Hd Hlen. unfold read_frame, encode_frame in *. cbn [ar_head ar_data ar_finished].
  rewrite Z.mod_small in Hd by lia. rewrite <- app_assoc in Hd.
  destruct (read_until_delivers 4 [] _ _ Hd) as (r1 & -> & Hd1); [cbn; lia|].
  cbn [length Nat.sub] in *. rewrite app_nil_l in *.
  change 4%nat with (length (to_be_bytes (Z.of_nat (length data)))) in *.
  rewrite take_app_length in *. rewrite drop_app_length in Hd1.
  rewrite be_round_trip, Nat2Z.id by lia.
  destruct (read_until_delivers (length data) [] _ _ Hd1) as (r2 & -> & Hd2); [rewrite length_app; lia|].
  rewrite Nat.sub_0_r, take_app_length, app_nil_l. rewrite Nat.sub_0_r, drop_app_length in Hd2. eauto.
Qed.

Lemma delivers_size reads bytes : delivers reads bytes → (length bytes ≤ reads_size reads)%nat.
Proof.
  intros (chunks & -> & _ & <-). unfold reads_size.
  induction chunks as [|chunk chunks IH]; cbn [map concat sum_list_with]; [done|]. rewrite length_app. lia.
Qed.

Section Commands.
Context `{AdminJson}.

(** ** The commands return *)

Lemma next_turns_item fuel self reads object self' rest :
  next_turns fuel self reads = Some (Ready (Some (Ok object)), self', rest) →
  ar_head self' = [] ∧ (reads_size rest ≤ reads_size reads)%nat ∧
  (ar_head self = [] → (reads_size rest < reads_size reads)%nat).
Proof.
  revert self reads. induction fuel as [|fuel IH]; intros self reads; [done|]. cbn [next_turns].
  destruct (read_frame self reads) as [[[[data|e|m]|] s1] r1] eqn:E; try done.
  apply read_frame_ok in E as (Hh & _ & Hle & Hlt).
  destruct (decode_frame data); try done.
  - intros [= _ <- <-]. done.
  - intros Hn. apply IH in Hn as (Hh' & Hle' & Hlt'). specialize (Hlt' Hh). split_and!; [done|lia|lia].
Qed.

Lemma collect_responses_total {A B} (parse : AdminObject → result ClientError A) (keep : A → option B)
    fuel items errors self reads :
  (reads_size reads + (if decide (ar_head self = []) then 0 else 1) < fuel)%nat →
  is_Some (collect_responses fuel parse keep items errors self reads).
Proof.
  revert items errors self reads. induction fuel as [|fuel IH]; intros items errors self reads Hf; [lia|].
  cbn [collect_responses]. destruct (responses_next_total self reads) as [[[[[[object|e|m]|]|] s1] r1] Hn];
    rewrite Hn; try by eexists.
  unfold responses_next in Hn. destruct (ar_finished self); [done|].
  apply next_turns_item in Hn as (Hh & Hle & Hlt).
  assert (reads_size r1 + (if decide (ar_head s1 = []) then 0 else 1) < fuel)%nat as Hr.
  { destruct (decide (ar_head s1 = [])); [|done].
    destruct (decide (ar_head self = [])) as [Hs|]; [specialize (Hlt Hs); lia|lia]. }
  destruct (parse object); [by apply IH|by apply IH|by eexists].
Qed.

Lemma run_command_total {A B} (parse : AdminObject → result ClientError A) (keep : A → option B)
    order connected written reads :
  is_Some (run_command parse keep order connected written reads).
Proof.
  unfold run_command, send_command. destruct connected; [by eexists|]. destruct written; [by eexists|].
  destruct (collect_responses_total parse keep (S (S (S (reads_size reads)))) [] [] responses_new reads)
    as [[[[items errors]|e|m]|] ->]; [destruct (decide _); lia|by eexists..].
Qed.

(** ** What the frames say *)

Lemma next_delivers data bytes reads :
  delivers reads (encode_frame data ++ bytes) → Z.of_nat (length data) < 2 ^ 32 →
  ∃ rest, delivers rest bytes ∧ responses_next responses_new reads =
    match decode_frame data with
    | D_Item json => Some (Ready (Some (Ok json)), responses_new, rest)
    | D_Fail error => Some (Ready (Some (Err error)), finish responses_new, rest)
    | D_End => Some (Ready None, finish responses_new, rest)
    | D_Skip => responses_next responses_new rest
    end.
Proof.
  intros Hd Hlen. destruct (read_frame_delivers false data bytes reads Hd Hlen) as (rest & Hr & Hrest).
  exists rest. split; [done|]. unfold responses_next. cbn [ar_finished responses_new].
  remember (next_turns (S (S (reads_size rest))) responses_new rest) as tail eqn:Ht.
  cbn [next_turns]. fold responses_new in Hr. rewrite Hr.
  destruct (decode_frame data); try done. subst tail.
  apply read_frame_ok in Hr as (_ & _ & _ & Hlt). specialize (Hlt eq_refl).
  destruct (next_turns_total (S (S (reads_size rest))) responses_new rest) as [answer Ha]; [destruct (decide _); lia|].
  rewrite Ha. by apply (next_turns_mono _ (S (reads_size reads))) in Ha; [|lia].
Qed.

(** A frame that is read over. *)
Definition frame_item (data : Bytes) : option AdminObject :=
  match decode_frame data with D_Item json => Some json | _ => None end.
Definition frame_open (data : Bytes) : Prop :=
  Z.of_nat (length data) < 2 ^ 32 ∧ match decode_frame data with D_Item _ | D_Skip => True | _ => False end.

Definition parsed {A B} (parse : AdminObject → result ClientError A) (keep : A → option B)
    (object : AdminObject) : option B :=
  match parse object with Ok a => keep a | _ => None end.
Definition parse_error {A} (parse : AdminObject → result ClientError A) (object : AdminObject) : option ClientError :=
  match parse object with Err error => Some error | _ => None end.
Definition stream_of (frames : list Bytes) : Bytes := concat (map encode_frame frames).

Lemma omap_cons_app {A B} (f : A → option B) x l : omap f (x :: l) = option_list (f x) ++ omap f l.
Proof. cbn. by destruct (f x). Qed.

Lemma collect_delivers {A B} (parse : AdminObject → result ClientError A) (keep : A → option B)
    frames bytes fuel items errors reads :
  (∀ object m, parse object ≠ Panic m) → Forall frame_open frames →
  delivers reads (stream_of frames ++ bytes) → (length frames < fuel)%nat →
  ∃ fuel' rest, (0 < fuel')%nat ∧ delivers rest bytes ∧
    collect_responses fuel parse keep items errors responses_new reads =
    collect_responses fuel' parse keep (items ++ omap (parsed parse keep) (omap frame_item frames))
      (errors ++ omap (parse_error parse) (omap frame_item frames)) responses_new rest.
Proof.
  intros Hp Hf. revert fuel items errors reads.
  induction Hf as [|data frames [Hlen Hopen] Hf IH]; intros fuel items errors reads Hd Hfuel.
  - cbn. rewrite !app_nil_r. exists fuel, reads. auto.
  - cbn [stream_of map concat] in Hd. rewrite <- app_assoc in Hd.
    destruct (next_delivers _ _ _ Hd Hlen) as (rest & Hrest & Hn).
    destruct fuel as [|fuel]; [cbn in Hfuel; lia|]. cbn [length] in Hfuel.
    assert (frame_item data = match decode_frame data with D_Item json => Some json | _ => None end) as Hi by done.
    rewrite (omap_cons_app frame_item), Hi. cbn [collect_responses]. rewrite Hn.
    destruct (decode_frame data) as [json| | |]; try done; try change (option_list None ++ ?l) with l.
    + change (option_list (Some json) ++ ?l) with (json :: l). rewrite !omap_cons_app. unfold parsed at 1, parse_error at 1. specialize (Hp json).
      destruct (parse json) as [a|e|m]; [| |by destruct (Hp m)].
      * rewrite app_assoc. apply IH; [done|lia].
      * rewrite (app_assoc errors [e]). apply IH; [done|lia].
    + apply (IH (S fuel)); [done|lia].
Qed.

Lemma stream_length frames : (length frames ≤ length (stream_of frames))%nat.
Proof.
  unfold stream_of. induction frames as [|f frames IH]; cbn [map concat length]; [lia|].
  unfold encode_frame at 1, to_be_bytes. rewrite length_app. cbn [length app]. lia.
Qed.

(** What a command answers on a stream of frames that ends in a closing one. *)
Lemma run_command_frames {A B} (parse : AdminObject → result ClientError A) (keep : A → option B)
    order frames last extra reads :
  (∀ object m, parse object ≠ Panic m) → Forall frame_open frames → Z.of_nat (length last) < 2 ^ 32 →
  delivers reads (stream_of (frames ++ [last]) ++ extra) →
  (decode_frame last = D_End →
   run_command parse keep order None None reads =
   Some (Ready (batch_result (order (omap (parsed parse keep) (omap frame_item frames)))
                             (omap (parse_error parse) (omap frame_item frames))))) ∧
  (∀ error, decode_frame last = D_Fail error →
   run_command parse keep order None None reads = Some (Ready (Err (batch_fatal error)))).
Proof.
  intros Hp Hf Hlen Hd. pose proof (delivers_size _ _ Hd) as Hsize. unfold stream_of in Hd.
  rewrite map_app, concat_app, <- app_assoc in Hd. cbn [map concat] in Hd. rewrite app_nil_r in Hd.
  pose proof (stream_length frames) as Hcount.
  assert (length frames < S (S (S (reads_size reads))))%nat as Hfuel.
  { unfold stream_of in *. rewrite map_app, concat_app, !length_app in Hsize. lia. }
  destruct (collect_delivers parse keep frames _ _ [] [] reads Hp Hf Hd Hfuel) as (fuel & rest & Hpos & Hrest & Hc).
  unfold run_command, send_command. rewrite Hc. destruct fuel as [|fuel]; [lia|]. cbn [collect_responses].
  destruct (next_delivers _ _ _ Hrest Hlen) as (rest' & _ & ->).
  split; [intros ->|intros error ->]; done.
Qed.
End Commands.

(** ** Membership states *)

(** No response makes a parser panic. *)
Lemma bind_not_panic {A B} (x : result ClientError A) (f : A → result ClientError B) :
  (∀ m, x ≠ Panic m) → (∀ a m, f a ≠ Panic m) → ∀ m, (x ≫= f) ≠ Panic m.
Proof. intros Hx Hf m. destruct x as [a|e|m']; [apply Hf|done|by destruct (Hx m')]. Qed.
Lemma require_not_panic {A} message (o : option A) m : require message o ≠ Panic m.
Proof. by destruct o. Qed.
Lemma wrap_not_panic {A} kind context (x : string + A) m : wrap kind context x ≠ Panic m.
Proof. by destruct x. Qed.
Create HintDb not_panic.
#[export] Hint Resolve bind_not_panic require_not_panic wrap_not_panic : not_panic.

Lemma parse_membership_not_panic object m : parse_cluster_membership_state object ≠ Panic m.
Proof.
  unfold parse_cluster_membership_state.
  repeat (apply bind_not_panic; [eauto with not_panic|intros ?]); [|done..].
  destruct (_ ≫= as_str); [|done]. by repeat case_match.
Qed.

(** C18: the membership command reads back what corrosion sent, however the socket cuts it.
    When the stream holds frames that are responses or are read over, and then the one
    that closes it, the command answers the states of the responses that parse, in order
    (or, of every member, the latest), together with the errors of those that do not;
    when the closing frame is an error, it answers that error alone. *)
Theorem membership_reads_frames `{AdminJson} `{HashOrder} (latest : bool) (frames : list Bytes) (last extra : Bytes)
    (reads : list SocketRead) :
  Forall frame_open frames → Z.of_nat (length last) < 2 ^ 32 →
  delivers reads (stream_of (frames ++ [last]) ++ extra) →
  let objects := omap frame_item frames in
  let states := omap (parsed parse_cluster_membership_state Some) objects in
  (decode_frame last = D_End →
   cluster_membership_states latest None None reads =
   Some (Ready (batch_result (if latest then latest_states states else states)
                             (omap (parse_error parse_cluster_membership_state) objects)))) ∧
  (∀ error, decode_frame last = D_Fail error →
   cluster_membership_states latest None None reads = Some (Ready (Err (batch_fatal error)))).
Proof.
  intros Hf Hlen Hd objects states. unfold cluster_membership_states.
  pose proof (run_command_frames parse_cluster_membership_state Some (if latest then latest_states else id)
                frames last extra reads parse_membership_not_panic Hf Hlen Hd) as [Hend Hfail].
  split; [|exact Hfail]. intros He. rewrite (Hend He). by destruct latest.
Qed.

Lemma timestamp_lt_trans a b c :
  timestamp_lt a b = false → timestamp_lt a c = true → timestamp_lt c b = false.
Proof. unfold timestamp_lt. lia. Qed.

Lemma timestamp_lt_irrefl a : timestamp_lt a a = false.
Proof. unfold timestamp_lt. lia. Qed.

(** The map after some states: its entries are the latest states of their members. *)
Definition latest_inv (states : list ClusterMembershipState) (by_id : gmap string ClusterMembershipState) : Prop :=
  ∀ id, match by_id !! id with
        | Some s => cms_id s = id ∧ s ∈ states ∧
            ∀ t, t ∈ states → cms_id t = id → timestamp_lt (cms_timestamp s) (cms_timestamp t) = false
        | None => ∀ t, t ∈ states → cms_id t ≠ id
        end.

Lemma latest_step_inv states by_id state :
  latest_inv states by_id → latest_inv (states ++ [state]) (latest_step by_id state).
Proof.
  intros Hinv id. pose proof (Hinv id) as Hid. unfold latest_step.
  destruct (decide (cms_id state = id)) as [<-|Hne].
  - destruct (by_id !! cms_id state) as [s|] eqn:E.
    + destruct Hid as (Hs & Hin & Hmax). destruct (timestamp_lt _ _) eqn:Et.
      * rewrite lookup_insert_eq. split_and!; [done|set_solver|].
        intros t [Ht|Ht%list_elem_of_singleton]%elem_of_app Hti; [|subst t; apply timestamp_lt_irrefl].
        eapply timestamp_lt_trans; eauto.
      * rewrite E. split_and!; [done|set_solver|].
        intros t [Ht|Ht%list_elem_of_singleton]%elem_of_app Hti; [eauto|by subst t].
    + rewrite lookup_insert_eq. split_and!; [done|set_solver|].
      intros t [Ht|Ht%list_elem_of_singleton]%elem_of_app Hti; [by destruct (Hid _ Ht)|subst t; apply timestamp_lt_irrefl].
  - assert ((match by_id !! cms_id state with
             | Some existing => if timestamp_lt (cms_timestamp existing) (cms_timestamp state)
                                then <[cms_id state:=state]> by_id else by_id
             | None => <[cms_id state:=state]> by_id end) !! id = by_id !! id) as ->.
    { destruct (by_id !! cms_id state); [destruct (timestamp_lt _ _)|]; by rewrite ?lookup_insert_ne. }
    destruct (by_id !! id) as [s|].
    + destruct Hid as (Hs & Hin & Hmax). split_and!; [done|set_solver|].
      intros t [Ht|Ht%list_elem_of_singleton]%elem_of_app Hti; [eauto|by subst t].
    + intros t [Ht|Ht%list_elem_of_singleton]%elem_of_app; [eauto|by subst t].
Qed.

Lemma latest_fold_inv states : latest_inv states (fold_left latest_step states ∅).
Proof.
  induction states as [|state states IH] using rev_ind.
  - intros id. cbn [fold_left]. rewrite lookup_empty. set_solver.
  - rewrite fold_left_app. by apply latest_step_inv.
Qed.

(** asked for the latest states, the membership command keeps exactly one state of
    every member that answered: a state that was received, than which no received state of
    that member has a later timestamp. *)
Theorem latest_states_exact `{HashOrder} (states : list ClusterMembershipState) :
  NoDup (map cms_id (latest_states states)) ∧
  (∀ id, id ∈ map cms_id (latest_states states) ↔ id ∈ map cms_id states) ∧
  (∀ s, s ∈ latest_states states → s ∈ states ∧
     ∀ t, t ∈ states → cms_id t = cms_id s → timestamp_lt (cms_timestamp s) (cms_timestamp t) = false).
Proof.
  pose proof (latest_fold_inv states) as Hinv. unfold latest_states.
  set (by_id := fold_left latest_step states ∅) in *. clearbody by_id.
  assert (∀ k s, (k, s) ∈ hash_iter by_id ↔ by_id !! k = Some s) as Hiter.
  { intros k s. rewrite hash_iter_perm. apply elem_of_map_to_list. }
  assert (map cms_id (map snd (hash_iter by_id)) = map fst (hash_iter by_id)) as Hids.
  { rewrite map_map. apply map_ext_in. intros [k s] Hk%list_elem_of_In%Hiter. cbn.
    specialize (Hinv k). rewrite Hk in Hinv. by destruct Hinv. }
  rewrite Hids. split_and!.
  - rewrite hash_iter_perm. apply NoDup_fst_map_to_list.
  - intros id. specialize (Hinv id). rewrite !list_elem_of_fmap. split.
    + intros ([k s] & -> & Hk%Hiter). cbn in *. rewrite Hk in Hinv. destruct Hinv as (<- & Hs & _). eauto.
    + intros (t & -> & Ht). destruct (by_id !! cms_id t) as [s|] eqn:E; [|by destruct (Hinv t)].
      exists (cms_id t, s). by rewrite Hiter.
  - intros s Hs. apply list_elem_of_fmap in Hs as ([k s'] & -> & Hk%Hiter). cbn.
    specialize (Hinv k). rewrite Hk in Hinv. destruct Hinv as (-> & Hin & Hmax). auto.
Qed.

(** The nanoseconds of a timestamp are below a second, and no later value has an earlier
    timestamp. *)
Lemma from_ntp64_ordered v w :
  0 ≤ v ≤ w → w < 2 ^ 64 →
  0 ≤ (from_ntp64 v).2 < 1000000000 ∧ timestamp_lt (from_ntp64 w) (from_ntp64 v) = false.
Proof.
  intros Hv Hw. unfold from_ntp64, timestamp_lt. rewrite !Z.shiftr_div_pow2 by lia. cbn [fst snd].
  change (2 ^ 64) with 18446744073709551616 in *. change (2 ^ 32) with 4294967296 in *.
  pose proof (Z.mod_pos_bound v 4294967296 ltac:(lia)). pose proof (Z.mod_pos_bound w 4294967296 ltac:(lia)).
  pose proof (Z.div_mod v 4294967296 ltac:(lia)). pose proof (Z.div_mod w 4294967296 ltac:(lia)).
  assert (∀ x, 0 ≤ x < 18446744073709551616 → 0 ≤ x / 4294967296 < 4294967296) as Hq.
  { intros x Hx. split; [apply Z.div_pos; lia|apply Z.div_lt_upper_bound; lia]. }
  assert (∀ x, 0 ≤ x < 4294967296 → 0 ≤ x * 1000000000 / 4294967296 < 1000000000) as Hn.
  { intros x Hx. split; [apply Z.div_pos; lia|apply Z.div_lt_upper_bound; lia]. }
  pose proof (Hq v ltac:(lia)). pose proof (Hq w ltac:(lia)).
  pose proof (Hn (v mod 4294967296) ltac:(lia)). pose proof (Hn (w mod 4294967296) ltac:(lia)).
  rewrite !(Z.mod_small (_ / _)) by lia. split; [lia|].
  assert (v / 4294967296 = w / 4294967296 →
          v mod 4294967296 * 1000000000 / 4294967296 ≤ w mod 4294967296 * 1000000000 / 4294967296).
  { intros Heq. apply Z.div_le_mono; lia. }
  pose proof (Z.div_le_mono v w 4294967296). lia.
Qed.

(** ** Round-trip times *)

(** [total_cmp] orders the floats totally, and only equal ones tie. *)
#[export] Instance total_le_total : Total total_le.
Proof.
  intros x y. unfold total_le, total_leb. destruct (total_key x) as [[a b] c], (total_key y) as [[a' b'] c']. lia.
Qed.
#[export] Instance total_le_trans : Transitive total_le.
Proof.
  intros x y z. unfold total_le, total_leb.
  destruct (total_key x) as [[a b] c], (total_key y) as [[a' b'] c'], (total_key z) as [[a'' b''] c'']. lia.
Qed.
Lemma total_key_inj x y : total_key x = total_key y → x = y.
Proof.
  destruct x as [[]|[]| |[] m e], y as [[]|[]| |[] m' e']; cbn; intros [=]; try done; subst; f_equal; lia.
Qed.
#[export] Instance total_le_antisymm : AntiSymm (=) total_le.
Proof.
  intros x y Hxy Hyx. apply total_key_inj. unfold total_le, total_leb in *.
  destruct (total_key x) as [[a b] c], (total_key y) as [[a' b'] c'].
  assert (a = a' ∧ b = b' ∧ c = c') as (-> & -> & ->) by lia. done.
Qed.

Lemma merge_sort_unique (l l' : list float) : l ≡ₚ l' → merge_sort total_le l = merge_sort total_le l'.
Proof.
  intros Hp. apply (StronglySorted_unique total_le); [apply StronglySorted_merge_sort; apply _..|].
  by rewrite !merge_sort_Permutation.
Qed.

Lemma compute_rtt_returns `{Powi} {E} samples : ∃ stats, compute_rtt_stats_ms (E := E) samples = Ok stats.
Proof.
  unfold compute_rtt_stats_ms. case_bool_decide as Hs; [by eexists|].
  set (sorted := merge_sort total_le samples).
  assert (0 < length sorted)%nat as Hpos.
  { unfold sorted. rewrite merge_sort_Permutation. destruct samples; [done|cbn; lia]. }
  assert (∀ i, (i < length sorted)%nat → is_Some (sorted !! i)) as Hat by (intros i; apply lookup_lt_is_Some_2).
  assert (length sorted / 2 < length sorted)%nat as Hhalf by (apply Nat.div_lt; lia).
  destruct (Hat _ Hhalf) as [b Hb]. destruct (Hat (length sorted / 2 - 1)%nat) as [a Ha]; [lia|].
  rewrite Ha, Hb. destruct (_ =? _)%nat; by eexists.
Qed.

Lemma member_rtt_not_panic `{Powi} object m : member_rtt_stats object ≠ Panic m.
Proof.
  unfold member_rtt_stats. apply bind_not_panic.
  - unfold parse_cluster_member_rtt. repeat (apply bind_not_panic; [eauto with not_panic|intros ?]).
    assert (∀ values m, rtt_samples values ≠ Panic m) as Hs.
    { intros values. induction values as [|v values IH]; [done|]. cbn [rtt_samples].
      repeat (apply bind_not_panic; [eauto with not_panic|intros ?]). done. }
    destruct (object_get "rtts" object) as [[]|]; try done;
      repeat (apply bind_not_panic; [eauto with not_panic|intros ?]); done.
  - intros [address samples]. case_bool_decide; [done|].
    destruct (compute_rtt_returns (E := ClientError) samples) as [[? ?] ->]. done.
Qed.

(** the round-trip statistics are a function of the samples alone: they are computed
    for every list of samples, never indexing out of its bounds, and do not depend on the
    order in which corrosion lists them. *)
Theorem rtt_stats_order_free `{Powi} {E} (samples samples' : list float) :
  samples ≡ₚ samples' →
  compute_rtt_stats_ms (E := E) samples = compute_rtt_stats_ms samples' ∧
  ∃ median deviation, compute_rtt_stats_ms (E := E) samples = Ok (median, deviation).
Proof.
  intros Hp. split; [|destruct (compute_rtt_returns (E := E) samples) as [[? ?] ?]; eauto].
  unfold compute_rtt_stats_ms. rewrite (merge_sort_unique _ _ Hp).
  assert (bool_decide (samples = []) = bool_decide (samples' = [])) as ->; [|done].
  apply bool_decide_ext. split; intros ->; [by apply Permutation_nil_l in Hp|by apply Permutation_nil_r in Hp].
Qed.

(** ** The theorems at work *)

(** A socket where corrosion sends one state, twice, and then closes. *)
Definition demo_state (seconds : Z) : AdminValue :=
  AV_Object [("Json", AV_Object
    [("id", AV_Object [("id", AV_String "m1"); ("addr", AV_String "[fdcc::1]:51001");
                       ("ts", AV_Number (AN_Int (seconds * 2 ^ 32)))]);
     ("state", AV_String "Alive")])].
Definition demo_admin_json : AdminJson := {|
  admin_from_slice := fun data =>
    match data with
    | [c] => if Ascii.eqb c "o" then inr (AV_String "Success")
             else if Ascii.eqb c "a" then inr (demo_state 7)
             else if Ascii.eqb c "b" then inr (demo_state 9)
             else inl "expected value"
    | _ => inl "expected value"
    end;
  admin_object_debug := fun _ => ""
|}.
Definition demo_wire : Bytes := stream_of [["a"%char]; ["b"%char]; ["a"%char]] ++ encode_frame ["o"%char].
Definition demo_member : ClusterMembershipState :=
  mk_ClusterMembershipState "m1" (V6 (0xfdcc * 2 ^ 112 + 1), 51001) AS_Alive (9, 0).

Example membership_demo :
  let _ := demo_admin_json in let _ := sorted_hash_order in
  cluster_membership_states true None None (map (λ c, SR_Data [c]) demo_wire) = Some (Ready (Ok [demo_member])).
Proof. vm_compute. reflexivity. Qed.

Lemma next_cancellation_safe_witness :
  let _ := demo_admin_json in
  @responses_next demo_admin_json responses_new [SR_Data (take 3 demo_wire); SR_Data (take 5 (drop 3 demo_wire))] =
  @responses_next demo_admin_json responses_new [SR_Data (take 8 demo_wire)] ∧
  let rest := [SR_Data (drop 3 demo_wire)] in
  @responses_next demo_admin_json responses_new ([SR_Data (take 3 demo_wire)] ++ rest) =
  @responses_next demo_admin_json (mk_AdminResponses false (take 3 demo_wire) None) rest.
Proof.
  split; [vm_compute; reflexivity|].
  refine (proj2 (proj2 (@next_cancellation_safe demo_admin_json responses_new
    (mk_AdminResponses false (take 3 demo_wire) None) [SR_Data (take 3 demo_wire)] [] _ _))).
  vm_compute. reflexivity.
Defined.

Lemma membership_reads_frames_witness :
  @cluster_membership_states demo_admin_json sorted_hash_order false None None
    [SR_Data (take 7 (stream_of [["a"%char]; ["b"%char]; ["o"%char]])); SR_Data (drop 7 (stream_of [["a"%char]; ["b"%char]; ["o"%char]]))] =
  Some (Ready (Ok [mk_ClusterMembershipState "m1" (V6 (0xfdcc * 2 ^ 112 + 1), 51001) AS_Alive (7, 0); demo_member])).
Proof.
  refine (eq_trans (proj1 (@membership_reads_frames demo_admin_json sorted_hash_order false
    [["a"%char]; ["b"%char]] ["o"%char] [] _ _ _ _) _) _).
  - repeat constructor; vm_compute; done.
  - vm_compute. done.
  - exists [take 7 (stream_of [["a"%char]; ["b"%char]; ["o"%char]]); drop 7 (stream_of [["a"%char]; ["b"%char]; ["o"%char]])].
    split_and!; [done|repeat constructor; vm_compute; done|vm_compute; reflexivity].
  - vm_compute. reflexivity.
  - vm_compute. reflexivity.
Defined.

Definition demo_square : Powi := {| powi := fun x _ => f64_mul x x |}.
Lemma rtt_stats_order_free_witness :
  @compute_rtt_stats_ms demo_square ClientError [f64_of_int 30; f64_of_int 10; f64_of_int 20] =
  @compute_rtt_stats_ms demo_square ClientError [f64_of_int 10; f64_of_int 20; f64_of_int 30] ∧
  (fst <$> @compute_rtt_stats_ms demo_square ClientError [f64_of_int 10; f64_of_int 20; f64_of_int 30]) = Ok (f64_of_int 20).
Proof.
  split; [|vm_compute; reflexivity].
  refine (proj1 (@rtt_stats_order_free demo_square ClientError _ _ _)).
  by rewrite (Permutation_cons_append [f64_of_int 10; f64_of_int 20]).
Defined.
