(* ===== verification/Log.v ===== *)
(** * Logging: ployz-internal-log

    The text format of log records: attributes with Go's quoting and floats, the
    printable characters of its own table, levels, the handler with its two writes, the
    layer that collects the fields of spans and events, and the policy of [DEBUG].  The
    writer, the scopes of [tracing] and its reload handle are parameters. *)

From Stdlib Require Import SpecFloat.
From S2P Require Import Prelude RustStr NetAddr Port Secret MachineName GoQuote Chars ClusterDns Float.

Local Open Scope Z_scope.

(** ** Printable characters *)

Definition GO_1_26_PRINTABLE_BOUNDARIES : list Z := [
  32; 126; 161; 172; 174; 887; 890; 895; 900; 906; 908; 908; 910; 929; 931; 1327; 1329; 1366;
  1369; 1418; 1421; 1423; 1425; 1479; 1488; 1514; 1519; 1524; 1542; 1563; 1565; 1756; 1758;
  1805; 1808; 1866; 1869; 1969; 1984; 2042; 2045; 2093; 2096; 2110; 2112; 2139; 2142; 2142;
  2144; 2154; 2160; 2190; 2200; 2273; 2275; 2435; 2437; 2444; 2447; 2448; 2451; 2472; 2474;
  2480; 2482; 2482; 2486; 2489; 2492; 2500; 2503; 2504; 2507; 2510; 2519; 2519; 2524; 2525;
  2527; 2531; 2534; 2558; 2561; 2563; 2565; 2570; 2575; 2576; 2579; 2600; 2602; 2608; 2610;
  2611; 2613; 2614; 2616; 2617; 2620; 2620; 2622; 2626; 2631; 2632; 2635; 2637; 2641; 2641;
  2649; 2652; 2654; 2654; 2662; 2678; 2689; 2691; 2693; 2701; 2703; 2705; 2707; 2728; 2730;
  2736; 2738; 2739; 2741; 2745; 2748; 2757; 2759; 2761; 2763; 2765; 2768; 2768; 2784; 2787;
  2790; 2801; 2809; 2815; 2817; 2819; 2821; 2828; 2831; 2832; 2835; 2856; 2858; 2864; 2866;
  2867; 2869; 2873; 2876; 2884; 2887; 2888; 2891; 2893; 2901; 2903; 2908; 2909; 2911; 2915;
  2918; 2935; 2946; 2947; 2949; 2954; 2958; 2960; 2962; 2965; 2969; 2970; 2972; 2972; 2974;
  2975; 2979; 2980; 2984; 2986; 2990; 3001; 3006; 3010; 3014; 3016; 3018; 3021; 3024; 3024;
  3031; 3031; 3046; 3066; 3072; 3084; 3086; 3088; 3090; 3112; 3114; 3129; 3132; 3140; 3142;
  3144; 3146; 3149; 3157; 3158; 3160; 3162; 3165; 3165; 3168; 3171; 3174; 3183; 3191; 3212;
  3214; 3216; 3218; 3240; 3242; 3251; 3253; 3257; 3260; 3268; 3270; 3272; 3274; 3277; 3285;
  3286; 3293; 3294; 3296; 3299; 3302; 3311; 3313; 3315; 3328; 3340; 3342; 3344; 3346; 3396;
  3398; 3400; 3402; 3407; 3412; 3427; 3430; 3455; 3457; 3459; 3461; 3478; 3482; 3505; 3507;
  3515; 3517; 3517; 3520; 3526; 3530; 3530; 3535; 3540; 3542; 3542; 3544; 3551; 3558; 3567;
  3570; 3572; 3585; 3642; 3647; 3675; 3713; 3714; 3716; 3716; 3718; 3722; 3724; 3747; 3749;
  3749; 3751; 3773; 3776; 3780; 3782; 3782; 3784; 3790; 3792; 3801; 3804; 3807; 3840; 3911;
  3913; 3948; 3953; 3991; 3993; 4028; 4030; 4044; 4046; 4058; 4096; 4293; 4295; 4295; 4301;
  4301; 4304; 4680; 4682; 4685; 4688; 4694; 4696; 4696; 4698; 4701; 4704; 4744; 4746; 4749;
  4752; 4784; 4786; 4789; 4792; 4798; 4800; 4800; 4802; 4805; 4808; 4822; 4824; 4880; 4882;
  4885; 4888; 4954; 4957; 4988; 4992; 5017; 5024; 5109; 5112; 5117; 5120; 5759; 5761; 5788;
  5792; 5880; 5888; 5909; 5919; 5942; 5952; 5971; 5984; 5996; 5998; 6000; 6002; 6003; 6016;
  6109; 6112; 6121; 6128; 6137; 6144; 6157; 6159; 6169; 6176; 6264; 6272; 6314; 6320; 6389;
  6400; 6430; 6432; 6443; 6448; 6459; 6464; 6464; 6468; 6509; 6512; 6516; 6528; 6571; 6576;
  6601; 6608; 6618; 6622; 6683; 6686; 6750; 6752; 6780; 6783; 6793; 6800; 6809; 6816; 6829;
  6832; 6862; 6912; 6988; 6992; 7038; 7040; 7155; 7164; 7223; 7227; 7241; 7245; 7304; 7312;
  7354; 7357; 7367; 7376; 7418; 7424; 7957; 7960; 7965; 7968; 8005; 8008; 8013; 8016; 8023;
  8025; 8025; 8027; 8027; 8029; 8029; 8031; 8061; 8064; 8116; 8118; 8132; 8134; 8147; 8150;
  8155; 8157; 8175; 8178; 8180; 8182; 8190; 8208; 8231; 8240; 8286; 8304; 8305; 8308; 8334;
  8336; 8348; 8352; 8384; 8400; 8432; 8448; 8587; 8592; 9254; 9280; 9290; 9312; 11123; 11126;
  11157; 11159; 11507; 11513; 11557; 11559; 11559; 11565; 11565; 11568; 11623; 11631; 11632;
  11647; 11670; 11680; 11686; 11688; 11694; 11696; 11702; 11704; 11710; 11712; 11718; 11720;
  11726; 11728; 11734; 11736; 11742; 11744; 11869; 11904; 11929; 11931; 12019; 12032; 12245;
  12272; 12283; 12289; 12351; 12353; 12438; 12441; 12543; 12549; 12591; 12593; 12686; 12688;
  12771; 12784; 12830; 12832; 42124; 42128; 42182; 42192; 42539; 42560; 42743; 42752; 42954;
  42960; 42961; 42963; 42963; 42965; 42969; 42994; 43052; 43056; 43065; 43072; 43127; 43136;
  43205; 43214; 43225; 43232; 43347; 43359; 43388; 43392; 43469; 43471; 43481; 43486; 43518;
  43520; 43574; 43584; 43597; 43600; 43609; 43612; 43714; 43739; 43766; 43777; 43782; 43785;
  43790; 43793; 43798; 43808; 43814; 43816; 43822; 43824; 43883; 43888; 44013; 44016; 44025;
  44032; 55203; 55216; 55238; 55243; 55291; 63744; 64109; 64112; 64217; 64256; 64262; 64275;
  64279; 64285; 64310; 64312; 64316; 64318; 64318; 64320; 64321; 64323; 64324; 64326; 64450;
  64467; 64911; 64914; 64967; 64975; 64975; 65008; 65049; 65056; 65106; 65108; 65126; 65128;
  65131; 65136; 65140; 65142; 65276; 65281; 65470; 65474; 65479; 65482; 65487; 65490; 65495;
  65498; 65500; 65504; 65510; 65512; 65518; 65532; 65533; 65536; 65547; 65549; 65574; 65576;
  65594; 65596; 65597; 65599; 65613; 65616; 65629; 65664; 65786; 65792; 65794; 65799; 65843;
  65847; 65934; 65936; 65948; 65952; 65952; 66000; 66045; 66176; 66204; 66208; 66256; 66272;
  66299; 66304; 66339; 66349; 66378; 66384; 66426; 66432; 66461; 66463; 66499; 66504; 66517;
  66560; 66717; 66720; 66729; 66736; 66771; 66776; 66811; 66816; 66855; 66864; 66915; 66927;
  66938; 66940; 66954; 66956; 66962; 66964; 66965; 66967; 66977; 66979; 66993; 66995; 67001;
  67003; 67004; 67072; 67382; 67392; 67413; 67424; 67431; 67456; 67461; 67463; 67504; 67506;
  67514; 67584; 67589; 67592; 67592; 67594; 67637; 67639; 67640; 67644; 67644; 67647; 67669;
  67671; 67742; 67751; 67759; 67808; 67826; 67828; 67829; 67835; 67867; 67871; 67897; 67903;
  67903; 67968; 68023; 68028; 68047; 68050; 68099; 68101; 68102; 68108; 68115; 68117; 68119;
  68121; 68149; 68152; 68154; 68159; 68168; 68176; 68184; 68192; 68255; 68288; 68326; 68331;
  68342; 68352; 68405; 68409; 68437; 68440; 68466; 68472; 68497; 68505; 68508; 68521; 68527;
  68608; 68680; 68736; 68786; 68800; 68850; 68858; 68903; 68912; 68921; 69216; 69246; 69248;
  69289; 69291; 69293; 69296; 69297; 69373; 69415; 69424; 69465; 69488; 69513; 69552; 69579;
  69600; 69622; 69632; 69709; 69714; 69749; 69759; 69820; 69822; 69826; 69840; 69864; 69872;
  69881; 69888; 69940; 69942; 69959; 69968; 70006; 70016; 70111; 70113; 70132; 70144; 70161;
  70163; 70209; 70272; 70278; 70280; 70280; 70282; 70285; 70287; 70301; 70303; 70313; 70320;
  70378; 70384; 70393; 70400; 70403; 70405; 70412; 70415; 70416; 70419; 70440; 70442; 70448;
  70450; 70451; 70453; 70457; 70459; 70468; 70471; 70472; 70475; 70477; 70480; 70480; 70487;
  70487; 70493; 70499; 70502; 70508; 70512; 70516; 70656; 70747; 70749; 70753; 70784; 70855;
  70864; 70873; 71040; 71093; 71096; 71133; 71168; 71236; 71248; 71257; 71264; 71276; 71296;
  71353; 71360; 71369; 71424; 71450; 71453; 71467; 71472; 71494; 71680; 71739; 71840; 71922;
  71935; 71942; 71945; 71945; 71948; 71955; 71957; 71958; 71960; 71989; 71991; 71992; 71995;
  72006; 72016; 72025; 72096; 72103; 72106; 72151; 72154; 72164; 72192; 72263; 72272; 72354;
  72368; 72440; 72448; 72457; 72704; 72712; 72714; 72758; 72760; 72773; 72784; 72812; 72816;
  72847; 72850; 72871; 72873; 72886; 72960; 72966; 72968; 72969; 72971; 73014; 73018; 73018;
  73020; 73021; 73023; 73031; 73040; 73049; 73056; 73061; 73063; 73064; 73066; 73102; 73104;
  73105; 73107; 73112; 73120; 73129; 73440; 73464; 73472; 73488; 73490; 73530; 73534; 73561;
  73648; 73648; 73664; 73713; 73727; 74649; 74752; 74862; 74864; 74868; 74880; 75075; 77712;
  77810; 77824; 78895; 78912; 78933; 82944; 83526; 92160; 92728; 92736; 92766; 92768; 92777;
  92782; 92862; 92864; 92873; 92880; 92909; 92912; 92917; 92928; 92997; 93008; 93017; 93019;
  93025; 93027; 93047; 93053; 93071; 93760; 93850; 93952; 94026; 94031; 94087; 94095; 94111;
  94176; 94180; 94192; 94193; 94208; 100343; 100352; 101589; 101632; 101640; 110576; 110579;
  110581; 110587; 110589; 110590; 110592; 110882; 110898; 110898; 110928; 110930; 110933;
  110933; 110948; 110951; 110960; 111355; 113664; 113770; 113776; 113788; 113792; 113800;
  113808; 113817; 113820; 113823; 118528; 118573; 118576; 118598; 118608; 118723; 118784;
  119029; 119040; 119078; 119081; 119154; 119163; 119274; 119296; 119365; 119488; 119507;
  119520; 119539; 119552; 119638; 119648; 119672; 119808; 119892; 119894; 119964; 119966;
  119967; 119970; 119970; 119973; 119974; 119977; 119980; 119982; 119993; 119995; 119995;
  119997; 120003; 120005; 120069; 120071; 120074; 120077; 120084; 120086; 120092; 120094;
  120121; 120123; 120126; 120128; 120132; 120134; 120134; 120138; 120144; 120146; 120485;
  120488; 120779; 120782; 121483; 121499; 121503; 121505; 121519; 122624; 122654; 122661;
  122666; 122880; 122886; 122888; 122904; 122907; 122913; 122915; 122916; 122918; 122922;
  122928; 122989; 123023; 123023; 123136; 123180; 123184; 123197; 123200; 123209; 123214;
  123215; 123536; 123566; 123584; 123641; 123647; 123647; 124112; 124153; 124896; 124902;
  124904; 124907; 124909; 124910; 124912; 124926; 124928; 125124; 125127; 125142; 125184;
  125259; 125264; 125273; 125278; 125279; 126065; 126132; 126209; 126269; 126464; 126467;
  126469; 126495; 126497; 126498; 126500; 126500; 126503; 126503; 126505; 126514; 126516;
  126519; 126521; 126521; 126523; 126523; 126530; 126530; 126535; 126535; 126537; 126537;
  126539; 126539; 126541; 126543; 126545; 126546; 126548; 126548; 126551; 126551; 126553;
  126553; 126555; 126555; 126557; 126557; 126559; 126559; 126561; 126562; 126564; 126564;
  126567; 126570; 126572; 126578; 126580; 126583; 126585; 126588; 126590; 126590; 126592;
  126601; 126603; 126619; 126625; 126627; 126629; 126633; 126635; 126651; 126704; 126705;
  126976; 127019; 127024; 127123; 127136; 127150; 127153; 127167; 127169; 127183; 127185;
  127221; 127232; 127405; 127462; 127490; 127504; 127547; 127552; 127560; 127568; 127569;
  127584; 127589; 127744; 128727; 128732; 128748; 128752; 128764; 128768; 128886; 128891;
  128985; 128992; 129003; 129008; 129008; 129024; 129035; 129040; 129095; 129104; 129113;
  129120; 129159; 129168; 129197; 129200; 129201; 129280; 129619; 129632; 129645; 129648;
  129660; 129664; 129672; 129680; 129725; 129727; 129733; 129742; 129755; 129760; 129768;
  129776; 129784; 129792; 129938; 129940; 129994; 130032; 130041; 131072; 173791; 173824;
  177977; 177984; 178205; 178208; 183969; 183984; 191456; 194560; 195101; 196608; 201546;
  201552; 205743; 917760; 917999].

(** The pairs of the boundaries. *)
Fixpoint pairs_of (boundaries : list Z) : list (Z * Z) :=
  match boundaries with
  | start :: end_ :: rest => (start, end_) :: pairs_of rest
  | _ => []
  end.

(** [slice::partition_point] of the starts: the bisection of the standard library, which
    keeps the half that holds the last start that is not greater. *)
Definition partition_point (starts : list Z) (character : Z) : nat :=
  match starts with
  | [] => 0%nat
  | _ =>
      let base := bisect (length starts) starts character 0 (length starts) in
      if nth base starts 0 <=? character then S base else base
  end.

(** [is_printable]. *)
Definition is_printable (character : Z) : bool :=
  let ranges := pairs_of GO_1_26_PRINTABLE_BOUNDARIES in
  let index := partition_point (map fst ranges) character in
  (0 <? index)%nat && (character <=? snd (nth (index - 1) ranges (0, 0))).

(** ** Attributes *)

Inductive AttributeValue :=
| LV_String (value : string) | LV_Boolean (value : bool) | LV_Signed (value : Z) | LV_Unsigned (value : Z)
| LV_Float (value : float).
Record Attribute := mk_Attribute { at_key : string; at_value : AttributeValue }.

(** [is_reserved_attribute]. *)
Definition is_reserved_attribute (key : string) : bool :=
  String.eqb key "time" || String.eqb key "level" || String.eqb key "msg".

(** [char::is_whitespace] and [char::is_control]. *)
Definition char_is_whitespace (c : list ascii) : bool :=
  match map byte_val c with
  | [a] => is_ws1 a
  | [a; b] => is_ws2 a b
  | [a; b; d] => is_ws3 a b d
  | _ => false
  end.
Definition char_is_control (c : list ascii) : bool :=
  (code_point c <=? 31) || ((127 <=? code_point c) && (code_point c <=? 159)).

(** [needs_quoting]. *)
Definition quoting_char (c : list ascii) : bool :=
  let r := code_point c in
  char_is_whitespace c || (r =? 61) || (r =? 34) || (r =? 65533) || char_is_control c || negb (is_printable r).
Definition needs_quoting (value : string) : bool :=
  str_is_empty value || existsb quoting_char (str_chars value).

(** [append_go_quote]: the arms for one character, and the text it appends. *)
Definition log_quote_char (c : list ascii) : string :=
  let r := code_point c in
  if r =? 7 then "\a" else if r =? 8 then "\b" else if r =? 12 then "\f"
  else if r =? 10 then "\n" else if r =? 13 then "\r" else if r =? 9 then "\t"
  else if r =? 11 then "\v" else if r =? 92 then "\\" else if r =? 34 then "\" +:+ double_quote
  else if (r <=? 31) || (r =? 127) then "\x" +:+ hex_digits 2 r
  else if negb (is_printable r) then
    if r <=? 65535 then "\u" +:+ hex_digits 4 r else "\U" +:+ hex_digits 8 r
  else of_bytes c.
Definition append_go_quote (value : string) : string :=
  double_quote +:+ String.concat "" (map log_quote_char (str_chars value)) +:+ double_quote.

(** [append_quoted_if_needed]. *)
Definition append_quoted_if_needed (value : string) : string :=
  if needs_quoting value then append_go_quote value else value.

(** ** Floats *)

(** [trim_start_matches] and [trim_end_matches] of a character. *)
Fixpoint drop_char (c : ascii) (l : list ascii) : list ascii :=
  match l with
  | d :: rest => if ascii_eqb d c then drop_char c rest else l
  | [] => []
  end.
Definition trim_start_char (c : ascii) (s : string) : string := of_bytes (drop_char c (bytes s)).
Definition trim_end_char (c : ascii) (s : string) : string := of_bytes (rev (drop_char c (rev (bytes s)))).

(** [append_exponent]: at least two digits. *)
Definition append_exponent (exponent : Z) : string :=
  "e" +:+ (if exponent <? 0 then "-" else "+")
    +:+ (if Z.abs exponent <? 10 then "0" else "") +:+ dec_nat (Z.abs exponent).

(** [scientific_from_digits]. *)
Definition scientific_from_digits (negative : bool) (digits : string) (exponent : Z) : string :=
  let first := match digits with String c _ => String c "" | EmptyString => "0" end in
  let remainder := trim_end_char "0" (str_drop 1 digits) in
  (if negative then "-" else "") +:+ first
    +:+ (if str_is_empty remainder then "" else "." +:+ remainder) +:+ append_exponent exponent.

(** [normalize_exponent]. *)
Definition normalize_exponent {E} (value : string) : result E string :=
  match str_find_by (fun c => ascii_eqb c "e" || ascii_eqb c "E") value with
  | None => Panic "caller checked for exponent"
  | Some at_ =>
      match parse_i 32 (str_drop (at_ + 1) value) with
      | Ok exponent => Ok (str_take at_ value +:+ append_exponent exponent)
      | _ => Panic "float exponent is numeric"
      end
  end.

(** [format_go_float]; the branches after the special values. *)
Definition go_float_text {E} (shortest : string) : result E string :=
  if str_contains "e" shortest || str_contains "E" shortest then normalize_exponent shortest
  else
    let negative := starts_with "-" shortest in
    let unsigned := match strip_prefix "-" shortest with Some rest => rest | None => shortest end in
    match str_find "." unsigned with
    | None =>
        let digits := trim_start_char "0" unsigned in
        let exponent := Z.of_nat (str_len digits - 1) in
        Ok (if negb (String.eqb unsigned "0") && (6 <=? exponent)
            then scientific_from_digits negative digits exponent else shortest)
    | Some dot =>
        let integer := str_take dot unsigned in
        let fraction := str_drop (dot + 1) unsigned in
        if negb (String.eqb integer "0") then
          let digits := trim_end_char "0" (integer +:+ fraction) in
          let exponent := Z.of_nat (str_len integer) - 1 in
          Ok (if 6 <=? exponent then scientific_from_digits negative digits exponent else shortest)
        else
          let zeros := (str_len fraction - str_len (trim_start_char "0" fraction))%nat in
          let exponent := - Z.of_nat zeros - 1 in
          Ok (if exponent <? -4 then scientific_from_digits negative (str_drop zeros fraction) exponent else shortest)
    end.
Definition format_go_float {E} (value : float) : result E string :=
  match value with
  | S754_nan => Ok "NaN"
  | S754_infinity s => Ok (if s then "-Inf" else "+Inf")
  | _ => go_float_text (float_display F64 value)
  end.

(** ** Records *)

Definition attribute_value_text {E} (value : AttributeValue) : result E string :=
  match value with
  | LV_String value => Ok (append_quoted_if_needed value)
  | LV_Boolean value => Ok (if value then "true" else "false")
  | LV_Signed value | LV_Unsigned value => Ok (dec value)
  | LV_Float value => format_go_float value
  end.

(** [format_attributes]: the attributes that are not reserved, with spaces between them. *)
Definition attribute_text {E} (a : Attribute) : result E string :=
  text ← attribute_value_text (at_value a); Ok (append_quoted_if_needed (at_key a) +:+ "=" +:+ text).
Definition log_newline : string := String (Ascii.ascii_of_nat 10) "".
Definition format_attributes {E} (attributes : list Attribute) : result E string :=
  texts ← mapM attribute_text (List.filter (fun a => negb (is_reserved_attribute (at_key a))) attributes);
  Ok (str_join " " texts +:+ log_newline).

(** [tracing::Level], its text and [LevelFilter]. *)
Inductive Level := TRACE | DEBUG | INFO | WARN | ERROR.
Inductive LevelFilter := LF_OFF | LF_ERROR | LF_WARN | LF_INFO | LF_DEBUG | LF_TRACE.
Definition level_text (level : Level) : string :=
  match level with TRACE => "TRACE" | DEBUG => "DEBUG" | INFO => "INFO" | WARN => "WARN" | ERROR => "ERROR" end.
#[export] Instance Level_eq_dec : EqDecision Level. Proof. solve_decision. Defined.

(** [level_is_enabled]. *)
Definition level_is_enabled (level : Level) (minimum : LevelFilter) : bool :=
  match minimum with
  | LF_OFF => false
  | LF_ERROR => bool_decide (level = ERROR)
  | LF_WARN => match level with ERROR | WARN => true | _ => false end
  | LF_INFO => match level with ERROR | WARN | INFO => true | _ => false end
  | LF_DEBUG => negb (bool_decide (level = TRACE))
  | LF_TRACE => true
  end.

(** The prefix of a record: the level, padded to five characters, and the message. *)
Fixpoint spaces (n : nat) : string := match n with O => "" | S n => " " +:+ spaces n end.
Definition record_prefix (level : Level) (message : string) : string :=
  let text := level_text level in
  text +:+ spaces (5 - str_len text) +:+ " " +:+ message +:+ " ".

(** [Write::write]: an error, or how many bytes of the buffer were taken. *)
Class LogWriter (W : Type) := { write : string → W → (string + nat) * W }.

(** [TextHandler]: the writer behind its lock, and the least level. *)
Record TextHandler (W : Type) := mk_TextHandler { th_writer : W; th_minimum_level : LevelFilter }.
Arguments mk_TextHandler {W} _ _.
Arguments th_writer {W} _.
Arguments th_minimum_level {W} _.
Definition handler_new {W} (writer : W) (minimum_level : LevelFilter) : TextHandler W := mk_TextHandler writer minimum_level.
Definition with_default_level {W} (writer : W) : TextHandler W := handler_new writer LF_INFO.

(** [TextHandler::handle]: both writes are made with the lock held. *)
Definition handle {W} `{LogWriter W} (self : TextHandler W) (level : Level) (message : string)
    (attributes : list Attribute) : result string () * TextHandler W :=
  if negb (level_is_enabled level (th_minimum_level self)) then (Ok (), self)
  else
    let prefix := record_prefix level message in
    match format_attributes attributes with
    | Ok suffix =>
        match write prefix (th_writer self) with
        | (inl error, w) => (Err error, mk_TextHandler w (th_minimum_level self))
        | (inr _, w) =>
            match write suffix w with
            | (inl error, w) => (Err error, mk_TextHandler w (th_minimum_level self))
            | (inr _, w) => (Ok (), mk_TextHandler w (th_minimum_level self))
            end
        end
    | Err error => (Err error, self)
    | Panic m => (Panic m, self)
    end.

(** ** Spans and events *)

Definition GROUP_FIELD : string := "ployz.group".

(** What [tracing] records of a field; a [Debug] value is its text. *)
Inductive FieldValue :=
| FV_Bool (b : bool) | FV_I64 (z : Z) | FV_U64 (z : Z) | FV_F64 (x : float) | FV_Str (s : string) | FV_Debug (text : string).

Record SpanFields := mk_SpanFields { sf_group : option string; sf_attributes : list Attribute }.
Record FieldVisitor := mk_FieldVisitor {
  fv_message : option string; fv_group : option string; fv_attributes : list Attribute
}.
Definition visitor_default : FieldVisitor := mk_FieldVisitor None None [].

(** [FieldVisitor::push]. *)
Definition push (attribute : Attribute) (v : FieldVisitor) : FieldVisitor :=
  if is_reserved_attribute (at_key attribute) then v
  else mk_FieldVisitor (fv_message v) (fv_group v) (fv_attributes v ++ [attribute]).
(** [FieldVisitor::record_string]. *)
Definition record_string (field value : string) (v : FieldVisitor) : FieldVisitor :=
  if String.eqb field "message" then mk_FieldVisitor (Some value) (fv_group v) (fv_attributes v)
  else if String.eqb field GROUP_FIELD
       then mk_FieldVisitor (fv_message v) (if str_is_empty value then None else Some value) (fv_attributes v)
  else push (mk_Attribute field (LV_String value)) v.
(** The methods of [Visit], and all fields of a span, record or event. *)
Definition visit (v : FieldVisitor) (field : string * FieldValue) : FieldVisitor :=
  match field with
  | (name, FV_Bool b) => push (mk_Attribute name (LV_Boolean b)) v
  | (name, FV_I64 z) => push (mk_Attribute name (LV_Signed z)) v
  | (name, FV_U64 z) => push (mk_Attribute name (LV_Unsigned z)) v
  | (name, FV_F64 x) => push (mk_Attribute name (LV_Float x)) v
  | (name, FV_Str s) | (name, FV_Debug s) => record_string name s v
  end.
Definition record_fields (fields : list (string * FieldValue)) : FieldVisitor := fold_left visit fields visitor_default.

(** The layer: its handler, and the extensions of the registry's spans, by their ids. *)
Record TextLayer (W : Type) := mk_TextLayer { tl_handler : TextHandler W; tl_spans : gmap Z SpanFields }.
Arguments mk_TextLayer {W} _ _.
Arguments tl_handler {W} _.
Arguments tl_spans {W} _.
Definition layer_new {W} (writer : W) (minimum_level : LevelFilter) : TextLayer W :=
  mk_TextLayer (handler_new writer minimum_level) ∅.

(** [Layer::enabled]. *)
Definition layer_enabled {W} (self : TextLayer W) (is_event : bool) (level : Level) : bool :=
  negb is_event || level_is_enabled level (th_minimum_level (tl_handler self)).

(** [Layer::on_new_span]. *)
Definition on_new_span {W} (id : Z) (fields : list (string * FieldValue)) (self : TextLayer W) : TextLayer W :=
  let visitor := record_fields fields in
  mk_TextLayer (tl_handler self) (<[id := mk_SpanFields (fv_group visitor) (fv_attributes visitor)]> (tl_spans self)).

(** [Layer::on_record]. *)
Definition on_record {W} (id : Z) (values : list (string * FieldValue)) (self : TextLayer W) : TextLayer W :=
  match tl_spans self !! id with
  | None => self
  | Some fields =>
      let visitor := record_fields values in
      let group := match fv_group visitor with Some group => Some group | None => sf_group fields end in
      mk_TextLayer (tl_handler self)
        (<[id := mk_SpanFields group (sf_attributes fields ++ fv_attributes visitor)]> (tl_spans self))
  end.

(** The key of an attribute under the groups. *)
Definition prefixed (groups : list string) (a : Attribute) : Attribute :=
  match groups with
  | [] => a
  | _ => mk_Attribute (str_join "." groups +:+ "." +:+ at_key a) (at_value a)
  end.
(** The loop over the scope, from the root. *)
Definition scope_step (spans : gmap Z SpanFields) (acc : list Attribute * list string) (id : Z) :
    list Attribute * list string :=
  match spans !! id with
  | None => acc
  | Some fields =>
      let groups := acc.2 ++ option_list (sf_group fields) in
      (acc.1 ++ map (prefixed groups) (sf_attributes fields), groups)
  end.

(** The attributes of an event, and [Layer::on_event]. *)
Definition event_attributes (spans : gmap Z SpanFields) (scope : list Z) (fields : list (string * FieldValue)) :
    list Attribute :=
  let '(attributes, groups) := fold_left (scope_step spans) scope ([], []) in
  attributes ++ map (prefixed groups) (fv_attributes (record_fields fields)).
Definition on_event {W} `{LogWriter W} (level : Level) (scope : list Z) (fields : list (string * FieldValue))
    (self : TextLayer W) : TextLayer W :=
  let message := default "" (fv_message (record_fields fields)) in
  let '(_, handler) := handle (tl_handler self) level message (event_attributes (tl_spans self) scope fields) in
  mk_TextLayer handler (tl_spans self).

(** ** Configuration *)

(** [debug_value_is_truthy] of the bytes of a variable. *)
Definition debug_value_is_truthy (value : option (list ascii)) : bool :=
  match value with
  | None => false
  | Some value =>
      utf8_valid value &&
      (eq_ignore_ascii_case (of_bytes value) "1" || eq_ignore_ascii_case (of_bytes value) "true"
       || eq_ignore_ascii_case (of_bytes value) "yes")
  end.

(** [configure_from_debug_value]: [reload] answers an error when the subscriber is gone. *)
Definition configure_from_debug_value {E L} (reload : option E) (value : option (list ascii)) (debug_layer current : L) :
    result E bool * L :=
  let enabled := debug_value_is_truthy value in
  if enabled then match reload with Some error => (Err error, current) | None => (Ok enabled, debug_layer) end
  else (Ok enabled, current).
