(* ===== verification/LogProps.v ===== *)
(** * What the log promises

    The printable characters of this crate and of the cluster service agree, so that both
    quote texts alike; a record's attributes are read back from its line; a level passes
    a filter exactly when it is not below it; the fields of spans come under the groups of
    the spans around them. *)

From Stdlib Require Import SpecFloat.
From S2P Require Import Prelude RustStr NetAddr Port Secret MachineName GoQuote Chars ClusterDns Float Log.

Local Open Scope Z_scope.

(** ** The table of printable characters *)

(** The bisection ends at the last place that is not greater, if there is one. *)
Lemma bisect_last fuel l x base size :
  increasing l → (0 < size)%nat → (base + size <= length l)%nat → (size <= fuel)%nat →
  let i := bisect fuel l x base size in
  (i = base ∨ nth i l 0 <= x) ∧ ∀ j, (i < j < base + size)%nat → x < nth j l 0.
Proof.
  intros Hl. revert base size. induction fuel as [|fuel IH]; intros base size Hs Hlen Hf; cbn [bisect]; [lia|].
  destruct (Nat.leb_spec size 1); [split; [by left|lia]|]. cbv zeta.
  pose proof (Nat.div_lt size 2 ltac:(lia) ltac:(lia)) as Hh.
  assert (0 < size / 2)%nat by (apply Nat.div_str_pos; lia).
  assert (size / 2 * 2 <= size)%nat by (rewrite Nat.mul_comm; apply Nat.Div0.mul_div_le).
  set (mid := (base + size / 2)%nat) in *.
  destruct (Z.ltb_spec x (nth mid l 0)) as [Hx|Hx].
  - pose proof (bisect_range fuel l x base (size - size / 2) ltac:(lia)) as Hr.
    destruct (IH base (size - size / 2)%nat) as [Hbase Hafter]; [lia..|]. split; [done|]. intros j Hj.
    destruct (decide (j < mid)%nat) as [Hjm|Hjm]; [apply Hafter; lia|].
    destruct (decide (j = mid)) as [->|]; [done|].
    destruct (lookup_lt_is_Some_2 l mid ltac:(lia)) as [a Ha]. destruct (lookup_lt_is_Some_2 l j ltac:(lia)) as [b Hb].
    pose proof (Hl mid j a b ltac:(lia) Ha Hb). rewrite (nth_lookup_eq _ _ _ Ha) in Hx. rewrite (nth_lookup_eq _ _ _ Hb). lia.
  - destruct (IH mid (size - size / 2)%nat) as [Hbase Hafter]; [lia..|]. split.
    + right. by destruct Hbase as [->|].
    + intros j Hj. apply Hafter. lia.
Qed.

(** Ranges that follow one another, with a gap or none between them. *)
Fixpoint separated (ranges : list (Z * Z)) : bool :=
  match ranges with
  | (lo, hi) :: ((lo', _) :: _) as rest => (lo <=? hi) && (hi <? lo') && separated rest
  | [(lo, hi)] => lo <=? hi
  | [] => true
  end.

Lemma separated_lookup ranges i j a b :
  separated ranges = true → (i < j)%nat → ranges !! i = Some a → ranges !! j = Some b → a.1 <= a.2 < b.1.
Proof.
  revert i j a. induction ranges as [|[lo hi] ranges IH]; intros i j a Hs Hij Ha Hb; [done|].
  destruct ranges as [|[lo' hi'] ranges]; [destruct j as [|[|]]; cbn in Hb; [lia|done|done]|].
  cbn [separated] in Hs. apply andb_true_iff in Hs as [Hs Hrest]. apply andb_true_iff in Hs as [H1%Z.leb_le H2%Z.ltb_lt].
  destruct j as [|j]; [lia|]. destruct i as [|i].
  - injection Ha as <-. cbn [fst snd]. destruct j as [|j]; [injection Hb as <-; cbn; lia|].
    pose proof (IH 0%nat (S j) (lo', hi') Hrest ltac:(lia) eq_refl Hb) as H3. cbn in H3. lia.
  - apply (IH i j a Hrest); [lia|done|done].
Qed.

Lemma in_pairs_lookup boundaries r :
  in_pairs boundaries r ↔ ∃ i p, pairs_of boundaries !! i = Some p ∧ p.1 <= r <= p.2.
Proof.
  remember (length boundaries) as n eqn:Hn. assert (length boundaries <= n)%nat as Hle by lia. clear Hn.
  revert boundaries Hle. induction n as [|n IH]; intros [|lo [|hi rest]] Hle; cbn [length] in Hle; try lia;
    try (split; [done|intros (i & p & Hi & _); by destruct i]).
  cbn [in_pairs pairs_of]. rewrite IH by lia. split.
  - intros [H|(i & p & Hi & Hp)]; [by exists 0%nat, (lo, hi)|by exists (S i), p].
  - intros ([|i] & p & Hi & Hp); [injection Hi as <-; by left|right; by exists i, p].
Qed.

(** The look-up finds the range a character is in. *)
Lemma partition_point_ranges ranges r :
  separated ranges = true →
  (let index := partition_point (map fst ranges) r in
   (0 <? index)%nat && (r <=? snd (nth (index - 1) ranges (0, 0)))) = true ↔
  ∃ i p, ranges !! i = Some p ∧ p.1 <= r <= p.2.
Proof.
  intros Hs. cbv zeta. destruct ranges as [|q ranges]; [split; [done|intros (i & p & Hi & _); done]|].
  set (rs := q :: ranges) in *. set (starts := map fst rs).
  assert (increasing starts) as Hinc.
  { intros i j x y Hij Hx Hy. unfold starts in *. rewrite list_lookup_fmap in Hx, Hy.
    apply fmap_Some in Hx as (a & Ha & ->). apply fmap_Some in Hy as (b & Hb & ->).
    pose proof (separated_lookup rs i j a b Hs Hij Ha Hb). lia. }
  assert (length starts = length rs) as Hlen by apply length_map.
  assert (0 < length rs)%nat as Hpos by (cbn; lia).
  pose proof (bisect_range (length starts) starts r 0 (length starts) ltac:(lia)) as Hr.
  pose proof (bisect_last (length starts) starts r 0 (length starts) Hinc ltac:(lia) ltac:(lia) ltac:(lia)) as [H1 H2].
  change (partition_point starts r) with
    (let base := bisect (length starts) starts r 0 (length starts) in
     if nth base starts 0 <=? r then S base else base).
  cbv zeta. set (base := bisect (length starts) starts r 0 (length starts)) in *. clearbody base.
  destruct (lookup_lt_is_Some_2 rs base ltac:(lia)) as [p Hp].
  assert (∀ i p, rs !! i = Some p → nth i starts 0 = p.1) as Hnth.
  { intros i p' Hi. apply nth_lookup_eq. unfold starts. by rewrite list_lookup_fmap, Hi. }
  assert (nth base rs (0, 0) = p) as Hn by (by rewrite nth_lookup, Hp).
  rewrite (Hnth _ _ Hp) in *. destruct (Z.leb_spec p.1 r) as [Hpr|Hpr].
  - rewrite andb_true_iff. replace (S base - 1)%nat with base by lia. rewrite Hn, Z.leb_le. split.
    + intros [_ Hhi]. exists base, p. done.
    + intros (i & p' & Hi & Hp'). split; [apply Nat.ltb_lt; lia|].
      destruct (Nat.lt_trichotomy i base) as [Hlt|[->|Hgt]].
      * pose proof (separated_lookup rs i base p' p Hs Hlt Hi Hp). lia.
      * rewrite Hp in Hi. injection Hi as ->. lia.
      * assert (i < length rs)%nat by (by eapply lookup_lt_Some).
        pose proof (H2 i ltac:(lia)) as Hx. rewrite (Hnth _ _ Hi) in Hx. lia.
  - destruct H1 as [->|H1]; [|lia]. split; [done|]. intros (i & p' & Hi & Hp').
    destruct (decide (i = 0)%nat) as [->|]; [rewrite Hp in Hi; injection Hi as ->; lia|].
    assert (i < length rs)%nat by (by eapply lookup_lt_Some).
    pose proof (H2 i ltac:(lia)) as Hx. rewrite (Hnth _ _ Hi) in Hx. lia.
Qed.

Lemma boundaries_separated : separated (pairs_of GO_1_26_PRINTABLE_BOUNDARIES) = true.
Proof. vm_compute. reflexivity. Qed.

Lemma is_printable_ranges r : is_printable r = true ↔ in_pairs GO_1_26_PRINTABLE_BOUNDARIES r.
Proof. rewrite in_pairs_lookup. apply (partition_point_ranges _ r boundaries_separated). Qed.

(** A range without some of its characters, and a table of ranges without them. *)
Fixpoint punch (lo hi : Z) (exceptions : list Z) : list Z :=
  match exceptions with
  | [] => if lo <=? hi then [lo; hi] else []
  | e :: exceptions =>
      if (lo <=? e) && (e <=? hi) then punch lo (e - 1) exceptions ++ punch (e + 1) hi exceptions
      else punch lo hi exceptions
  end.
Definition punch_all (ranges : list (Z * Z)) (exceptions : list Z) : list Z :=
  mjoin (map (fun '(lo, hi) => punch lo hi exceptions) ranges).

Lemma punch_even lo hi exceptions : ∃ n, length (punch lo hi exceptions) = (2 * n)%nat.
Proof.
  revert lo hi. induction exceptions as [|e exceptions IH]; intros lo hi; cbn [punch].
  - destruct (lo <=? hi); [by exists 1%nat|by exists 0%nat].
  - destruct (_ && _); [|done]. destruct (IH lo (e - 1)) as [n Hn], (IH (e + 1) hi) as [n' Hn'].
    exists (n + n')%nat. rewrite length_app. lia.
Qed.

Lemma in_pairs_app l l' n r : length l = (2 * n)%nat → in_pairs (l ++ l') r ↔ in_pairs l r ∨ in_pairs l' r.
Proof.
  revert l. induction n as [|n IH]; intros l Hl; [destruct l; [|done]; cbn; tauto|].
  destruct l as [|lo [|hi l]]; cbn in Hl; [lia|lia|]. cbn [app in_pairs]. rewrite IH by lia. tauto.
Qed.

Lemma punch_exact lo hi exceptions r : in_pairs (punch lo hi exceptions) r ↔ lo <= r <= hi ∧ r ∉ exceptions.
Proof.
  revert lo hi. induction exceptions as [|e exceptions IH]; intros lo hi; cbn [punch].
  - destruct (Z.leb_spec lo hi); cbn [in_pairs]; rewrite elem_of_nil; intuition lia.
  - rewrite not_elem_of_cons. destruct ((lo <=? e) && (e <=? hi)) eqn:E.
    + destruct (punch_even lo (e - 1) exceptions) as [n Hn]. rewrite (in_pairs_app _ _ n) by done.
      rewrite !IH. rewrite andb_true_iff, !Z.leb_le in E. destruct (Z.lt_trichotomy r e) as [|[|]]; intuition lia.
    + rewrite IH. apply andb_false_iff in E. rewrite !Z.leb_gt in E. intuition lia.
Qed.

Lemma punch_all_even ranges exceptions : ∃ n, length (punch_all ranges exceptions) = (2 * n)%nat.
Proof.
  induction ranges as [|[lo hi] ranges [n IH]]; [by exists 0%nat|].
  destruct (punch_even lo hi exceptions) as [n' Hn']. exists (n' + n)%nat.
  change (punch_all ((lo, hi) :: ranges) exceptions) with (punch lo hi exceptions ++ punch_all ranges exceptions).
  rewrite length_app. lia.
Qed.

Lemma punch_all_exact boundaries exceptions r :
  in_pairs (punch_all (pairs_of boundaries) exceptions) r ↔ in_pairs boundaries r ∧ r ∉ exceptions.
Proof.
  remember (length boundaries) as n eqn:Hn. assert (length boundaries <= n)%nat as Hle by lia. clear Hn.
  revert boundaries Hle. induction n as [|n IH]; intros [|lo [|hi rest]] Hle; cbn [length] in Hle; try lia; try (cbn; tauto).
  cbn [pairs_of in_pairs].
  change (punch_all ((lo, hi) :: pairs_of rest) exceptions) with (punch lo hi exceptions ++ punch_all (pairs_of rest) exceptions).
  destruct (punch_even lo hi exceptions) as [k Hk]. rewrite (in_pairs_app _ _ k), punch_exact, IH by (done || lia). tauto.
Qed.

(** The table of the log is the one of the cluster service, with its exceptions taken out
    of the ranges. *)
Lemma tables_equal :
  GO_1_26_PRINTABLE_BOUNDARIES =
  punch_all (pairs_of PRINT_16) NOT_PRINT_16 ++ punch_all (pairs_of PRINT_32) (map (Z.add 65536) NOT_PRINT_32).
Proof. vm_compute. reflexivity. Qed.

Lemma in_pairs_bounds lo hi boundaries r :
  forallb (fun x => (lo <=? x) && (x <=? hi)) boundaries = true → in_pairs boundaries r → lo <= r <= hi.
Proof.
  rewrite forallb_forall, in_pairs_lookup. intros Hb (i & [a b] & Hi & Hr). cbn in Hr.
  assert (∀ l, (a, b) ∈ pairs_of l → a ∈ l ∧ b ∈ l) as Hin.
  { intros l. remember (length l) as n eqn:Hn. assert (length l <= n)%nat as Hle by lia. clear Hn.
    revert l Hle. induction n as [|n IH]; intros [|x [|y l]] Hle Hab; cbn in *; try lia; try (by apply elem_of_nil in Hab).
    apply elem_of_cons in Hab as [[= -> ->]|Hab]; [set_solver|]. destruct (IH l) as [? ?]; [lia|done|set_solver]. }
  apply list_elem_of_lookup_2, Hin in Hi as [Ha%list_elem_of_In%Hb Hb'%list_elem_of_In%Hb].
  rewrite andb_true_iff, !Z.leb_le in Ha, Hb'. lia.
Qed.

Lemma print_16_bounds r : in_pairs PRINT_16 r → 32 <= r <= 65533.
Proof. apply in_pairs_bounds. vm_compute. reflexivity. Qed.
Lemma print_32_bounds r : in_pairs PRINT_32 r → 65536 <= r <= 917999.
Proof. apply in_pairs_bounds. vm_compute. reflexivity. Qed.

Lemma not_print_32 r : r ∈ map (Z.add 65536) NOT_PRINT_32 ↔ r - 65536 ∈ NOT_PRINT_32 ∧ r < 131072.
Proof.
  rewrite list_elem_of_fmap. split.
  - intros (x & -> & Hx). replace (65536 + x - 65536) with x by lia. split; [done|].
    assert (forallb (fun x => x <? 65536) NOT_PRINT_32 = true) as Hb by (vm_compute; reflexivity).
    rewrite forallb_forall in Hb. apply list_elem_of_In, Hb, Z.ltb_lt in Hx. lia.
  - intros [Hr _]. exists (r - 65536). split; [lia|done].
Qed.

Lemma printable_split r :
  is_printable r = true ↔
  in_pairs PRINT_16 r ∧ r ∉ NOT_PRINT_16 ∨
  in_pairs PRINT_32 r ∧ (131072 <= r ∨ r - 65536 ∉ NOT_PRINT_32).
Proof.
  rewrite is_printable_ranges, tables_equal. destruct (punch_all_even (pairs_of PRINT_16) NOT_PRINT_16) as [n Hn].
  rewrite (in_pairs_app _ _ n), !punch_all_exact, not_print_32 by done.
  destruct (decide (r - 65536 ∈ NOT_PRINT_32)), (decide (131072 <= r)); intuition lia.
Qed.

(** The first plane's table on the first characters. *)
Lemma print_16_first r : r <= 255 →
  in_pairs PRINT_16 r ∧ r ∉ NOT_PRINT_16 ↔ 32 <= r <= 126 ∨ 161 <= r <= 255 ∧ r ≠ 173.
Proof.
  intros Hr. assert (in_pairs PRINT_16 r ↔ 32 <= r <= 126 ∨ 161 <= r) as ->.
  { change PRINT_16 with ([32; 126; 161; 887] ++ drop 4 PRINT_16).
    rewrite (in_pairs_app _ _ 2) by done. cbn [in_pairs].
    assert (in_pairs (drop 4 PRINT_16) r → 890 <= r <= 65533) as Hrest
      by (apply in_pairs_bounds; vm_compute; reflexivity).
    intuition lia. }
  assert (r ∈ NOT_PRINT_16 ↔ r = 173) as ->; [|intuition lia].
  change NOT_PRINT_16 with (173 :: drop 1 NOT_PRINT_16). rewrite elem_of_cons.
  assert (forallb (fun x => 255 <? x) (drop 1 NOT_PRINT_16) = true) as Hb by (vm_compute; reflexivity).
  rewrite forallb_forall in Hb. split; [|by left].
  intros [->|Hin]; [done|]. apply list_elem_of_In, Hb, Z.ltb_lt in Hin. lia.
Qed.

Lemma is_printable_print (rune : Z) : is_printable rune = is_print rune.
Proof.
  apply eq_true_iff_eq. rewrite printable_split.
  assert (in_pairs PRINT_16 rune → rune < 65536) as H16 by (intros H%print_16_bounds; lia).
  assert (in_pairs PRINT_32 rune → 65536 <= rune) as H32 by (intros H%print_32_bounds; lia).
  destruct (Z.lt_ge_cases 255 rune) as [Hr|Hr].
  - rewrite is_print_exact by done. tauto.
  - rewrite print_16_first by done. unfold is_print. rewrite (proj2 (Z.leb_le rune 255)) by lia.
    rewrite orb_true_iff, !andb_true_iff, negb_true_iff, Z.eqb_neq, !Z.leb_le. intuition lia.
Qed.

(** the log and the cluster service have the same printable characters, though each
    has a table of its own, in another form and searched another way: the log's ranges,
    searched by their starts, and the cluster service's ranges with exceptions. *)
Theorem printable_tables_agree (rune : Z) : is_printable rune = is_print rune.
Proof. apply is_printable_print. Qed.

(** Both crates quote a text alike. *)
Lemma log_quote_char_same c : log_quote_char c = quote_char c.
Proof.
  unfold log_quote_char, quote_char. cbv zeta. rewrite is_printable_print. generalize (code_point c) as r. intros r.
  repeat match goal with |- context [r =? ?k] => destruct (Z.eqb_spec r k) as [->|]; [reflexivity|] end.
  assert ((r <=? 31) = (r <? 32)) as -> by lia. done.
Qed.
Lemma append_go_quote_same value : append_go_quote value = go_quote value.
Proof. unfold append_go_quote, go_quote. by rewrite (map_ext _ _ log_quote_char_same). Qed.

(** ** Reading a line back *)

(** A token is a literal of Go, or goes on to the next equals sign, space or line end. *)
Definition ends_token (a : ascii) : bool := (byte_val a =? 10) || (byte_val a =? 32) || (byte_val a =? 61).
Fixpoint span_token (l : list ascii) : list ascii * list ascii :=
  match l with
  | a :: rest => if ends_token a then ([], l) else let '(t, rest) := span_token rest in (a :: t, rest)
  | [] => ([], [])
  end.
Definition read_token (l : list ascii) : option (list ascii * list ascii) :=
  match l with
  | a :: rest => if byte_val a =? 34 then read_literal rest else Some (span_token l)
  | [] => Some ([], [])
  end.
(** The pairs of a line, separated by spaces; the line ends after them. *)
Fixpoint read_pairs (fuel : nat) (l : list ascii) : option (list (list ascii * list ascii)) :=
  match fuel with
  | O => None
  | S fuel =>
      '(key, l) ← read_token l;
      match l with
      | a :: l =>
          if byte_val a =? 61 then
            '(value, l) ← read_token l;
            match l with
            | [b] => if byte_val b =? 10 then Some [(key, value)] else None
            | b :: l => if byte_val b =? 32 then pairs ← read_pairs fuel l; Some ((key, value) :: pairs) else None
            | [] => None
            end
          else None
      | [] => None
      end
  end.
Definition read_line (l : list ascii) : option (list (list ascii * list ascii)) :=
  match l with
  | [b] => if byte_val b =? 10 then Some [] else None
  | _ => read_pairs (length l) l
  end.

(** Bytes that may stand bare. *)
Definition plain_byte (a : ascii) : Prop := ends_token a = false ∧ byte_val a ≠ 34.
Definition bare (s : string) : Prop := Forall plain_byte (bytes s) ∧ s ≠ "".

Lemma span_bare l t : Forall plain_byte l → match t with a :: _ => ends_token a = true | [] => False end →
  span_token (l ++ t) = (l, t).
Proof.
  intros Hl Ht. induction Hl as [|a l [Ha _] Hl IH]; cbn [app span_token].
  - destruct t as [|a t]; [done|]. cbn [span_token]. by rewrite Ht.
  - by rewrite Ha, IH.
Qed.

Lemma read_bare s t : bare s → match t with a :: _ => ends_token a = true | [] => False end →
  read_token (bytes s ++ t) = Some (bytes s, t).
Proof.
  intros [Hs Hne] Ht. pose proof (span_bare _ _ Hs Ht) as Hspan. destruct s as [|a s]; [done|].
  change (bytes (String a s)) with (a :: bytes s) in *. cbn [app read_token] in *.
  apply Forall_cons in Hs as [[_ Ha] _]. rewrite (proj2 (Z.eqb_neq _ _)) by done. by rewrite <-Hspan.
Qed.

(** *** Quoted texts *)

Lemma read_log_char c t : char_shape c →
  read_literal (bytes (log_quote_char c) ++ t) = before c (read_literal t).
Proof.
  intros Hc. destruct (Z.lt_ge_cases (code_point c) 128) as [Hn|Hw].
  { destruct (narrow_char c Hc Hn) as (a & -> & Ha). clear Hc Hn.
    rewrite log_quote_char_same. destruct a as [[] [] [] [] [] [] [] []];
      try (exfalso; vm_compute in Ha; discriminate Ha); reflexivity. }
  destruct (wide_char c Hc Hw) as [Hb _]. pose proof (code_point_bound c Hc) as Hcb. unfold log_quote_char. cbv zeta.
  rewrite !(proj2 (Z.eqb_neq (code_point c) _)) by lia. rewrite (proj2 (Z.leb_gt (code_point c) 31)) by lia. cbn [orb].
  destruct (is_printable (code_point c)); cbn [negb]; [rewrite bytes_of_bytes; by apply read_copy|].
  destruct (Z.leb_spec (code_point c) 65535).
  - rewrite read_unicode4 by lia. by rewrite encode_code_point.
  - rewrite read_unicode8 by lia. by rewrite encode_code_point.
Qed.

(** A quoted text is read back, whatever follows it. *)
Lemma read_quoted value t : utf8_valid (bytes value) = true →
  read_token (bytes (append_go_quote value) ++ t) = Some (bytes value, t).
Proof.
  intros Hv. unfold append_go_quote.
  change (bytes (double_quote +:+ ?s)) with (Ascii.ascii_of_nat 34 :: bytes s). cbn [app read_token].
  change (byte_val (Ascii.ascii_of_nat 34) =? 34) with true. cbn iota.
  apply read_chars; [done|]. apply read_log_char.
Qed.

(** A text that needs no quotes is bare. *)
Lemma plain_char c : char_shape c → quoting_char c = false → Forall plain_byte c.
Proof.
  intros Hc Hq. unfold quoting_char in Hq. cbv zeta in Hq. rewrite !orb_false_iff in Hq.
  destruct Hq as [[[[[Hws Heq] Hquote] _] _] _].
  destruct (Z.lt_ge_cases (code_point c) 128) as [Hn|Hw].
  - destruct (narrow_char c Hc Hn) as (a & -> & Ha). repeat constructor; unfold ends_token;
      cbn in *; unfold is_ws1 in *; lia.
  - destruct (wide_char c Hc Hw) as [Hb _]. eapply Forall_impl; [exact Hb|]. cbn. intros a Ha.
    split; [|lia]. unfold ends_token. lia.
Qed.

Lemma unquoted_bare value : utf8_valid (bytes value) = true → needs_quoting value = false → bare value.
Proof.
  intros Hv Hq. unfold needs_quoting in Hq. apply orb_false_iff in Hq as [He Hc].
  split; [|by destruct value]. destruct (str_chars_valid value Hv) as [Hs <-].
  induction Hs as [|c l Hs Hl IH]; [constructor|]. cbn [existsb] in Hc. apply orb_false_iff in Hc as [Hc Hrest].
  change (mjoin (c :: l)) with (c ++ mjoin l). apply Forall_app. split; [by apply plain_char|by apply IH].
Qed.

Lemma read_text value t : utf8_valid (bytes value) = true →
  match t with a :: _ => ends_token a = true | [] => False end →
  read_token (bytes (append_quoted_if_needed value) ++ t) = Some (bytes value, t).
Proof.
  intros Hv Ht. unfold append_quoted_if_needed. destruct (needs_quoting value) eqn:E; [by apply read_quoted|].
  apply read_bare; [by apply unquoted_bare|done].
Qed.

(** *** Numbers *)

(** The bytes of a number without an exponent, and with one. *)
Definition decimal_byte (a : ascii) : bool := is_ascii_digit a || (byte_val a =? 45) || (byte_val a =? 46).
Definition decimal_text (l : list ascii) : Prop := Forall (fun a => decimal_byte a = true) l.

Lemma decimal_text_app a b : decimal_text (bytes a) → decimal_text (bytes b) → decimal_text (bytes (a +:+ b)).
Proof. intros. rewrite bytes_app. by apply Forall_app. Qed.
Lemma decimal_text_drop n s : decimal_text (bytes s) → decimal_text (bytes (str_drop n s)).
Proof. rewrite bytes_drop. apply Forall_drop. Qed.
Lemma bytes_take n s : bytes (str_take n s) = take n (bytes s).
Proof. revert s. induction n as [|n IH]; intros [|c s]; [done..|]. cbn. by f_equal. Qed.
Lemma decimal_text_take n s : decimal_text (bytes s) → decimal_text (bytes (str_take n s)).
Proof. rewrite bytes_take. apply Forall_take. Qed.
Lemma drop_char_suffix c l : ∃ p, l = p ++ drop_char c l.
Proof.
  induction l as [|a l [p IH]]; [by exists []|]. cbn [drop_char]. destruct (ascii_eqb a c); [|by exists []].
  exists (a :: p). cbn. by rewrite <-IH.
Qed.
Lemma decimal_text_trim_end c s : decimal_text (bytes s) → decimal_text (bytes (trim_end_char c s)).
Proof.
  unfold trim_end_char. rewrite bytes_of_bytes. intros Hs. apply Forall_rev in Hs.
  destruct (drop_char_suffix c (rev (bytes s))) as [p Hp]. apply Forall_rev. rewrite Hp in Hs. by apply Forall_app in Hs as [_ Hs].
Qed.
Lemma decimal_text_trim_start c s : decimal_text (bytes s) → decimal_text (bytes (trim_start_char c s)).
Proof.
  unfold trim_start_char. rewrite bytes_of_bytes. intros Hs.
  destruct (drop_char_suffix c (bytes s)) as [p Hp]. rewrite Hp in Hs. by apply Forall_app in Hs as [_ Hs].
Qed.
Lemma decimal_text_prefix p s rest : strip_prefix p s = Some rest → decimal_text (bytes s) → decimal_text (bytes rest).
Proof.
  revert s. induction p as [|c p IH]; intros s; [by intros [= <-]|]. cbn [strip_prefix].
  destruct s as [|d s]; [done|]. destruct (ascii_eqb c d); [|done]. intros Hr Hs.
  apply (IH s Hr). change (bytes (String d s)) with (d :: bytes s) in Hs. by apply Forall_cons in Hs as [_ Hs].
Qed.
Lemma decimal_digit d : 0 <= d < 10 → decimal_byte (dec_digit d) = true.
Proof.
  intros Hd. unfold decimal_byte, dec_digit, is_ascii_digit, byte_val. rewrite Ascii.N_ascii_embedding by lia.
  rewrite !orb_true_iff, andb_true_iff, !Z.leb_le. left; left. lia.
Qed.
Lemma decimal_text_dec_aux fuel n acc : decimal_text (bytes acc) → decimal_text (bytes (dec_aux fuel n acc)).
Proof.
  revert n acc. induction fuel as [|fuel IH]; intros n acc Ha; cbn [dec_aux]; [done|].
  assert (decimal_text (bytes (String (dec_digit (n mod 10)) acc))) as Hacc.
  { apply Forall_cons. split; [|done]. apply decimal_digit. apply Z.mod_pos_bound. lia. }
  destruct (n / 10 =? 0); [done|]. by apply IH.
Qed.
Lemma decimal_text_dec_nat n : decimal_text (bytes (dec_nat n)).
Proof. apply decimal_text_dec_aux. constructor. Qed.
Lemma decimal_text_zeros n : decimal_text (bytes (decimal_zeros n)).
Proof. induction n as [|n IH]; [constructor|]. cbn [decimal_zeros]. apply decimal_text_app; [by repeat constructor|done]. Qed.

Create HintDb decimal.
#[export] Hint Resolve decimal_text_app decimal_text_drop decimal_text_take decimal_text_trim_end decimal_text_trim_start
  decimal_text_dec_nat decimal_text_zeros : decimal.
#[export] Hint Extern 1 (decimal_text (bytes _)) => by repeat constructor : decimal.

Lemma dec_nat_nonempty n : dec_nat n ≠ "".
Proof.
  unfold dec_nat. assert (∀ fuel n acc, acc ≠ "" → dec_aux fuel n acc ≠ "") as Hne.
  { intros fuel. induction fuel as [|fuel IH]; intros m acc Ha; cbn [dec_aux]; [done|]. destruct (_ =? 0); [done|by apply IH]. }
  cbn [dec_aux]. destruct (_ =? 0); [done|by apply Hne].
Qed.

Lemma float_display_decimal x : is_finite x = true → decimal_text (bytes (float_display F64 x)) ∧ float_display F64 x ≠ "".
Proof.
  destruct x as [s|s| |s m e]; cbn [is_finite]; try done; intros _; cbn [float_display].
  - destruct s; split; try done; by repeat constructor.
  - destruct (shortest _ _ _ _ _ _) as [n k]. assert (decimal_text (bytes (plain_decimal n k)) ∧ plain_decimal n k ≠ "") as [Hd Hne].
    { unfold plain_decimal. cbv zeta. pose proof (dec_nat_nonempty n) as Hn. destruct (0 <=? k); [|destruct (0 <? _)%nat].
      - split; [eauto with decimal|by destruct (dec_nat n)].
      - split; [eauto 6 with decimal|by destruct (str_take _ _)].
      - split; [eauto 6 with decimal|done]. }
    split; [|by destruct s]. destruct s; [|done]. apply decimal_text_app; [by repeat constructor|done].
Qed.

Lemma decimal_no_letter c s : decimal_byte c = false → decimal_text (bytes s) → str_contains c s = false.
Proof.
  intros Hc. induction s as [|a s IH]; [done|]. change (bytes (String a s)) with (a :: bytes s).
  intros [Ha Hs]%Forall_cons. cbn [str_contains]. rewrite (IH Hs). unfold ascii_eqb.
  destruct (Ascii.eqb_spec c a) as [->|]; [congruence|]. by destruct (Ascii.eqb_spec a c).
Qed.

Lemma decimal_plain l : decimal_text l → Forall plain_byte l.
Proof.
  intros Hl. eapply Forall_impl; [exact Hl|]. cbn. intros a. unfold decimal_byte, is_ascii_digit, plain_byte, ends_token.
  rewrite !orb_true_iff, andb_true_iff, !Z.leb_le, !Z.eqb_eq, !orb_false_iff, !Z.eqb_neq. lia.
Qed.
Lemma bare_app a b : Forall plain_byte (bytes a) → Forall plain_byte (bytes b) → a ≠ "" ∨ b ≠ "" → bare (a +:+ b).
Proof.
  intros Ha Hb Hne. split; [rewrite bytes_app; by apply Forall_app|]. destruct a; [|done]. by destruct Hne.
Qed.

Ltac plain_const := repeat constructor; vm_compute; discriminate.

Lemma scientific_bare negative digits exponent : decimal_text (bytes digits) →
  bare (scientific_from_digits negative digits exponent).
Proof.
  intros Hd. unfold scientific_from_digits. cbv zeta.
  set (remainder := trim_end_char "0" (str_drop 1 digits)).
  assert (decimal_text (bytes remainder)) as Hr by (unfold remainder; eauto with decimal).
  apply bare_app; [destruct negative; plain_const| |right; by destruct digits].
  rewrite !bytes_app, !Forall_app. split_and!.
  - destruct digits as [|c digits]; [plain_const|]. apply Forall_cons in Hd as [Hc _]. by apply decimal_plain, Forall_singleton.
  - destruct (str_is_empty remainder); [constructor|]. rewrite bytes_app. apply Forall_app. split; [plain_const|by apply decimal_plain].
  - unfold append_exponent. rewrite !bytes_app, !Forall_app. split_and!; [plain_const|destruct (_ <? _); plain_const| |].
    + destruct (_ <? _); plain_const.
    + apply decimal_plain, decimal_text_dec_nat.
Qed.

(** A float is always formatted, as a bare text. *)
Lemma go_float_bare {E} x : ∃ text, format_go_float (E := E) x = Ok text ∧ bare text.
Proof.
  destruct (is_finite x) eqn:Hx.
  2:{ destruct x as [s|s| |s m e]; try done; [destruct s|]; eexists; (split; [done|split; [plain_const|done]]). }
  destruct (float_display_decimal x Hx) as [Hd Hne].
  assert (format_go_float (E := E) x = go_float_text (float_display F64 x)) as -> by (by destruct x).
  set (shortest := float_display F64 x) in *. clearbody shortest. clear Hx x. unfold go_float_text.
  rewrite !decimal_no_letter by done. cbn [orb].
  assert (bare shortest) as Hb by (split; [by apply decimal_plain|done]).
  set (unsigned := match strip_prefix "-" shortest with Some rest => rest | None => shortest end).
  assert (decimal_text (bytes unsigned)) as Hu.
  { unfold unsigned. destruct (strip_prefix "-" shortest) eqn:Ep; [|done]. by eapply decimal_text_prefix. }
  clearbody unsigned. destruct (str_find "." unsigned) as [dot|]; [destruct (negb _)|].
  - eexists. split; [done|]. destruct (6 <=? _); [|done]. apply scientific_bare. eauto 6 with decimal.
  - eexists. split; [done|]. destruct (_ <? -4); [|done]. apply scientific_bare. eauto 6 with decimal.
  - eexists. split; [done|]. destruct (_ && _); [|done]. apply scientific_bare. eauto with decimal.
Qed.

(** ** The line of a record *)

(** What an attribute says: its key and its value as texts. *)
Definition value_words (value : AttributeValue) : string :=
  match value with
  | LV_String value => value
  | LV_Boolean value => if value then "true" else "false"
  | LV_Signed value | LV_Unsigned value => dec value
  | LV_Float value => match format_go_float (E := ()) value with Ok text => text | _ => "" end
  end.
Definition attribute_valid (a : Attribute) : Prop :=
  utf8_valid (bytes (at_key a)) = true ∧
  match at_value a with LV_String value => utf8_valid (bytes value) = true | _ => True end.
Definition attribute_pair (a : Attribute) : list ascii * list ascii := (bytes (at_key a), bytes (value_words (at_value a))).

Lemma dec_bare z : bare (dec z).
Proof.
  unfold dec. destruct (z <? 0).
  - apply bare_app; [plain_const|apply decimal_plain, decimal_text_dec_nat|by left].
  - split; [apply decimal_plain, decimal_text_dec_nat|apply dec_nat_nonempty].
Qed.

Lemma go_float_result {E E'} x text : format_go_float (E := E) x = Ok text → format_go_float (E := E') x = Ok text.
Proof.
  destruct (go_float_bare (E := E') x) as (t & Ht & _). rewrite Ht. intros H. f_equal. revert H Ht.
  destruct x as [s|s| |s m e]; cbn [format_go_float]; try congruence;
    unfold go_float_text, normalize_exponent; repeat case_match; congruence.
Qed.

(** The text of a value is a token, read back as what the value says. *)
Lemma read_value {E} value t : match value with LV_String value => utf8_valid (bytes value) = true | _ => True end →
  match t with a :: _ => ends_token a = true | [] => False end →
  ∃ text, attribute_value_text (E := E) value = Ok text ∧
    read_token (bytes text ++ t) = Some (bytes (value_words value), t).
Proof.
  intros Hv Ht. destruct value as [s|b|z|z|x]; cbn [attribute_value_text value_words].
  - eexists. split; [done|]. by apply read_text.
  - eexists. split; [done|]. apply read_bare; [|done]. destruct b; (split; [plain_const|done]).
  - eexists. split; [done|]. apply read_bare; [apply dec_bare|done].
  - eexists. split; [done|]. apply read_bare; [apply dec_bare|done].
  - destruct (go_float_bare (E := E) x) as (text & Hx & Hb). exists text. split; [done|].
    rewrite (go_float_result x text Hx). by apply read_bare.
Qed.

Lemma attribute_text_reads {E} a t : attribute_valid a →
  match t with b :: _ => ends_token b = true | [] => False end →
  ∃ text, attribute_text (E := E) a = Ok text ∧ (0 < length (bytes text))%nat ∧
    ∃ rest b, read_token (bytes text ++ t) = Some ((attribute_pair a).1, b :: rest) ∧ byte_val b = 61 ∧
      read_token rest = Some ((attribute_pair a).2, t).
Proof.
  intros [Hk Hv] Ht. destruct (read_value (E := E) (at_value a) t Hv Ht) as (text & Htext & Hread).
  unfold attribute_text. rewrite Htext. cbn [mbind result_bind]. eexists. split; [done|]. rewrite !bytes_app, !length_app.
  split; [cbn; lia|]. exists (bytes text ++ t), "="%char. split_and!; [|done|done].
  rewrite <-!app_assoc. by apply read_text.
Qed.

Lemma read_joined {E} attributes : attributes ≠ [] → Forall attribute_valid attributes →
  ∃ texts, mapM (attribute_text (E := E)) attributes = Ok texts ∧
    (length attributes <= length (bytes (str_join " " texts +:+ log_newline)))%nat ∧
    (2 <= length (bytes (str_join " " texts +:+ log_newline)))%nat ∧
    ∀ fuel, (length attributes <= fuel)%nat →
      read_pairs fuel (bytes (str_join " " texts +:+ log_newline)) = Some (map attribute_pair attributes).
Proof.
  intros Hne Hv. induction Hv as [|a attributes Ha Hv IH]; [done|]. clear Hne.
  destruct attributes as [|a' attributes].
  - destruct (attribute_text_reads (E := E) a (bytes log_newline) Ha eq_refl) as (text & Ht & Hl & rest & b & H1 & Hb & H2).
    exists [text]. cbn [mapM]. rewrite Ht. split; [done|]. cbn [str_join]. rewrite bytes_app, length_app.
    split_and!; [cbn; lia|cbn; lia|]. intros [|fuel] Hf; [cbn in Hf; lia|]. cbn [read_pairs]. rewrite H1. cbn [mbind option_bind].
    rewrite Hb. cbn [Z.eqb Pos.eqb]. rewrite H2. change (bytes log_newline) with [Ascii.ascii_of_nat 10].
    cbn [mbind option_bind map]. change (byte_val (Ascii.ascii_of_nat 10) =? 10) with true. by destruct (attribute_pair a).
  - destruct (IH ltac:(done)) as (texts & Hts & Hlen & Hlen2 & Hread).
    destruct texts as [|t' texts].
    { change (2 <= 1)%nat in Hlen2. lia. }
    destruct (attribute_text_reads (E := E) a (" "%char :: bytes (str_join " " (t' :: texts) +:+ log_newline)) Ha eq_refl)
      as (text & Ht & Hl & rest & b & H1 & Hb & H2).
    exists (text :: t' :: texts). change (mapM attribute_text (a :: a' :: attributes)) with
      (y ← attribute_text (E := E) a; k ← mapM attribute_text (a' :: attributes); mret (y :: k)).
    rewrite Ht. cbn [mbind result_bind]. rewrite Hts. split; [done|].
    assert (bytes (str_join " " (text :: t' :: texts) +:+ log_newline) =
            bytes text ++ " "%char :: bytes (str_join " " (t' :: texts) +:+ log_newline)) as Heq.
    { change (str_join " " (text :: t' :: texts)) with (text +:+ " " +:+ str_join " " (t' :: texts)).
      rewrite !bytes_app, <-!app_assoc. done. }
    rewrite Heq, length_app. cbn [length] in *. split_and!; [lia|lia|]. intros [|fuel] Hf; [lia|]. cbn [read_pairs].
    rewrite H1. cbn [mbind option_bind]. rewrite Hb. cbn [Z.eqb Pos.eqb]. rewrite H2.
    destruct (bytes (str_join " " (t' :: texts) +:+ log_newline)) as [|c l] eqn:El; [cbn in Hlen2; lia|].
    cbn [mbind option_bind]. change (byte_val " " =? 32) with true. cbn iota. rewrite (Hread fuel) by lia.
    cbn [mbind option_bind map]. by destruct (attribute_pair a).
Qed.

Lemma log_line_reads {E} (attributes : list Attribute) : Forall attribute_valid attributes →
  ∃ line, format_attributes (E := E) attributes = Ok line ∧
    read_line (bytes line) =
      Some (map attribute_pair (List.filter (fun a => negb (is_reserved_attribute (at_key a))) attributes)).
Proof.
  intros Hv. unfold format_attributes.
  set (kept := List.filter (fun a => negb (is_reserved_attribute (at_key a))) attributes).
  assert (Forall attribute_valid kept) as Hk.
  { apply Forall_forall. intros a Ha%list_elem_of_In%filter_In. rewrite Forall_forall in Hv. apply Hv, list_elem_of_In, Ha. }
  clearbody kept. destruct (decide (kept = [])) as [->|Hne]; [by eexists|].
  destruct (read_joined (E := E) kept Hne Hk) as (texts & Hts & Hlen & Hlen2 & Hread).
  rewrite Hts. cbn [mbind result_bind]. eexists. split; [done|].
  specialize (Hread _ Hlen). unfold read_line.
  destruct (bytes (str_join " " texts +:+ log_newline)) as [|x [|y l]]; [cbn in Hlen2; lia|cbn in Hlen2; lia|done].
Qed.

(** C21: what is logged is read back.  For all attributes whose texts are valid, the line of
    a record is written without a panic, and a reader that takes it apart at the bare
    spaces and equals signs, and reads Go's literals, gets exactly the keys and values of
    the attributes that are not reserved, in order; so no key or value, whatever
    characters it holds, ends its line early or passes for another attribute. *)
Theorem log_line_read_back {E} (attributes : list Attribute) : Forall attribute_valid attributes →
  ∃ line, format_attributes (E := E) attributes = Ok line ∧
    read_line (bytes line) =
      Some (map attribute_pair (List.filter (fun a => negb (is_reserved_attribute (at_key a))) attributes)).
Proof. apply log_line_reads. Qed.

Definition demo_attributes : list Attribute :=
  [mk_Attribute "time" (LV_Signed 1); mk_Attribute "peer name" (LV_String ("a=b " +:+ double_quote +:+ log_newline));
   mk_Attribute "up" (LV_Boolean true); mk_Attribute "rtt" (LV_Float (S754_infinity false))].
Lemma log_line_read_back_witness :
  ∃ line, format_attributes (E := ()) demo_attributes = Ok line ∧
    read_line (bytes line) = Some [(bytes "peer name", bytes ("a=b " +:+ double_quote +:+ log_newline));
                                   (bytes "up", bytes "true"); (bytes "rtt", bytes "+Inf")].
Proof. apply (log_line_read_back demo_attributes). by repeat constructor. Defined.

(** ** The handler *)

Definition level_rank (level : Level) : Z :=
  match level with ERROR => 1 | WARN => 2 | INFO => 3 | DEBUG => 4 | TRACE => 5 end.
Definition filter_rank (filter : LevelFilter) : Z :=
  match filter with LF_OFF => 0 | LF_ERROR => 1 | LF_WARN => 2 | LF_INFO => 3 | LF_DEBUG => 4 | LF_TRACE => 5 end.
Lemma level_enabled_rank level minimum : level_is_enabled level minimum = (level_rank level <=? filter_rank minimum).
Proof. by destruct level, minimum. Qed.

(** A writer that takes at most so many bytes at once, and all that was written. *)
Definition Taking : Type := nat * string.
#[export] Instance taking_writer : LogWriter Taking := {
  write := fun text '(most, out) => (inr (Nat.min most (str_len text)), (most, out +:+ str_take most text))
}.

(** An accepted record is one call with both of its parts, an error of either is
    returned and ends it; a record that is filtered out is not written. *)
Theorem handle_exact {W} `{LogWriter W} (self : TextHandler W) level message attributes :
  Forall attribute_valid attributes →
  ∃ line, format_attributes (E := string) attributes = Ok line ∧
    handle self level message attributes =
    if level_rank level <=? filter_rank (th_minimum_level self) then
      match write (record_prefix level message) (th_writer self) with
      | (inl error, w) => (Err error, mk_TextHandler w (th_minimum_level self))
      | (inr _, w) =>
          (match (write line w).1 with inl error => Err error | inr _ => Ok () end,
           mk_TextHandler (write line w).2 (th_minimum_level self))
      end
    else (Ok (), self).
Proof.
  intros Hv. destruct (log_line_reads (E := string) attributes Hv) as (line & Hl & _). exists line. split; [done|].
  unfold handle. rewrite level_enabled_rank. destruct (_ <=? _); [|done]. cbn [negb]. rewrite Hl.
  destruct (write _ _) as [[error|n] w]; [done|]. by destruct (write line w) as [[error|k] w'].
Qed.

(** A writer may take only a part of a record; the rest is then lost, and the handler
    still answers that the record was written. *)
Theorem short_write_unnoticed :
  handle (W := Taking) (mk_TextHandler (4%nat, "") LF_INFO) INFO "started" [] =
  (Ok (), mk_TextHandler (4%nat, "INFO" +:+ log_newline) LF_INFO).
Proof. vm_compute. reflexivity. Qed.

(** ** Spans *)

(** The groups of the spans of a scope, from the root. *)
Definition groups_of (spans : gmap Z SpanFields) (scope : list Z) : list string :=
  omap (fun id => spans !! id ≫= sf_group) scope.
(** What a span of a scope contributes after the spans before it. *)
Definition span_part (spans : gmap Z SpanFields) (before : list Z) (id : Z) : list Attribute :=
  map (prefixed (groups_of spans (before ++ [id]))) (from_option sf_attributes [] (spans !! id)).

Lemma groups_of_snoc spans scope id :
  groups_of spans (scope ++ [id]) = groups_of spans scope ++ option_list (spans !! id ≫= sf_group).
Proof. unfold groups_of. by rewrite omap_app. Qed.

Lemma scope_fold spans scope id :
  fold_left (scope_step spans) (scope ++ [id]) ([], []) =
  ((fold_left (scope_step spans) scope ([], [])).1 ++ span_part spans scope id, groups_of spans (scope ++ [id])).
Proof.
  revert id. induction scope as [|last scope IH] using rev_ind; intros id.
  - cbn [app fold_left]. unfold scope_step, span_part. cbn [app]. unfold groups_of. cbn.
    destruct (spans !! id) as [f|]; cbn; [|done]. by destruct (sf_group f).
  - rewrite fold_left_app, IH. cbn [fold_left]. unfold scope_step at 1. cbn [fst snd].
    assert (span_part spans (scope ++ [last]) id =
            map (prefixed (groups_of spans (scope ++ [last]) ++ option_list (spans !! id ≫= sf_group)))
              (from_option sf_attributes [] (spans !! id))) as -> by (unfold span_part; by rewrite groups_of_snoc).
    rewrite (groups_of_snoc spans (scope ++ [last]) id).
    destruct (spans !! id) as [f|]; [done|]. cbn. by rewrite !app_nil_r.
Qed.

(** The attributes of an event are those of the spans around it, from the root, each under
    the groups of the spans down to its own, and then its own under all of them. *)
Theorem event_attributes_grouped spans scope fields :
  event_attributes spans scope fields =
  mjoin (imap (fun i id => span_part spans (take i scope) id) scope)
  ++ map (prefixed (groups_of spans scope)) (fv_attributes (record_fields fields)).
Proof.
  unfold event_attributes.
  assert (∀ scope, fold_left (scope_step spans) scope ([], []) =
            (mjoin (imap (fun i id => span_part spans (take i scope) id) scope), groups_of spans scope)) as ->; [|done].
  clear scope. intros scope. induction scope as [|id scope IH] using rev_ind; [done|].
  rewrite scope_fold, IH. cbn [fst]. rewrite imap_app, join_app. f_equal. f_equal.
  - f_equal. apply imap_ext. intros i x Hx. rewrite take_app_le; [done|]. apply lookup_lt_Some in Hx. lia.
  - cbn. rewrite Nat.add_0_r, take_app_length, app_nil_r. done.
Qed.

Example event_demo :
  let layer := on_event INFO [1; 2] [("message", FV_Str "received"); ("kind", FV_Str "A")]
    (on_new_span 2 [("msg", FV_Str "left out"); ("try", FV_U64 3)]
      (on_new_span 1 [("ployz.group", FV_Str "request"); ("id", FV_U64 7)]
        (layer_new ((100%nat, "") : Taking) LF_INFO))) in
  (th_writer (tl_handler layer)).2 = "INFO  received request.id=7 request.try=3 request.kind=A" +:+ log_newline.
Proof. vm_compute. reflexivity. Qed.
