(* ===== verification/WireGuard.v ===== *)
(** * The WireGuard network of a machine: ployz-internal-machine-network

    The configuration of the device, its addresses and routes (wireguard_linux.rs,
    config.rs, ip.rs), the tick that follows the device and rotates endpoints, the
    watchers of endpoint changes, MTU detection (mtu.rs), keys (wireguard.rs) and the
    machine's own addresses (address.rs).  The kernel, reached by netlink and the
    WireGuard protocol, and the crate [ipnet] are parameters. *)

From S2P Require Import Prelude BTree RustStr NetAddr Ipam Peer Secret MachineName.

Local Open Scope Z_scope.

(** ** Networks *)

(** [ipnet::IpNet] is an address with a prefix length.  [trunc] clears the host bits, a
    network contains another when it has all its addresses, the supernet is the network
    whose prefix is one bit shorter, and siblings are the networks of one supernet.
    [net_debug] and [net_parse] are the texts of [Debug] and [FromStr]. *)
Class IpNetLib := {
  trunc : IpPrefix → IpPrefix;
  net_contains : IpPrefix → IpPrefix → bool;
  is_sibling : IpPrefix → IpPrefix → bool;
  supernet : IpPrefix → option IpPrefix;
  net_error : string;
  net_debug : IpPrefix → string;
  net_parse : string → string + IpPrefix;
  trunc_network p : prefix_wf p → trunc p = mk_IpPrefix (ip_like (address p) (block_start p)) (bits p);
  net_contains_spec p q : prefix_wf p → prefix_wf q →
    net_contains p q = true ↔ ∀ a, ip_wf a → in_block q a → in_block p a;
  supernet_spec p :
    supernet p = if bits p =? 0 then None else Some (trunc (mk_IpPrefix (address p) (bits p - 1)));
  is_sibling_spec p q : prefix_wf p → prefix_wf q →
    is_sibling p q = true ↔
      same_family (address p) (address q) = true ∧ bits p = bits q ∧ is_Some (supernet p) ∧ supernet p = supernet q
}.

(** The order of [(prefix.addr(), prefix.prefix_len())]: addresses of version 4 first. *)
Definition net_key (p : IpPrefix) : Z * Z * Z :=
  (match address p with V4 _ => 0 | V6 _ => 1 end, to_u128 (address p), bits p).
Definition net_leb (p q : IpPrefix) : bool :=
  let '(a, b, c) := net_key p in
  let '(a', b', c') := net_key q in
  (a <? a') || ((a =? a') && ((b <? b') || ((b =? b') && (c <=? c')))).
Definition net_le (p q : IpPrefix) : Prop := net_leb p q = true.
#[export] Instance net_le_dec : RelDecision net_le := fun p q => decide (net_leb p q = true).

(** [Vec::dedup]. *)
Fixpoint dedup (l : list IpPrefix) : list IpPrefix :=
  match l with
  | p :: (q :: _) as rest => if bool_decide (p = q) then dedup rest else p :: dedup rest
  | _ => l
  end.

(** The first pair of siblings, by the places of its two prefixes. *)
Fixpoint sibling_of `{IpNetLib} (p : IpPrefix) (second : nat) (l : list IpPrefix) : option nat :=
  match l with
  | [] => None
  | q :: l => if is_sibling p q then Some second else sibling_of p (S second) l
  end.
Fixpoint sibling_pair `{IpNetLib} (first : nat) (l : list IpPrefix) : option (nat * nat) :=
  match l with
  | [] => None
  | p :: l => match sibling_of p (S first) l with
              | Some second => Some (first, second)
              | None => sibling_pair (S first) l
              end
  end.

(** [Vec::remove]. *)
Definition remove_at (i : nat) (l : list IpPrefix) : list IpPrefix := take i l ++ drop (S i) l.

(** The loop of [compact_prefixes]: every turn but the last leaves fewer prefixes. *)
Definition contained `{IpNetLib} (snapshot : list IpPrefix) (prefix : IpPrefix) : bool :=
  existsb (fun other => negb (bool_decide (other = prefix)) && net_contains other prefix) snapshot.
Fixpoint compact_prefixes_loop `{IpNetLib} (fuel : nat) (prefixes : list IpPrefix) : result string (list IpPrefix) :=
  match fuel with
  | O => Panic "out of fuel"
  | S fuel =>
      let prefixes := dedup (merge_sort net_le prefixes) in
      let changed := existsb (contained prefixes) prefixes in
      let prefixes := List.filter (fun prefix => negb (contained prefixes prefix)) prefixes in
      if changed then compact_prefixes_loop fuel prefixes
      else
        match sibling_pair 0 prefixes with
        | None => Ok prefixes
        | Some (first, second) =>
            prefix ← expect "index out of bounds" (prefixes !! first);
            compact_prefixes_loop fuel (remove_at first (remove_at second prefixes) ++ option_list (supernet prefix))
        end
  end.
Definition compact_prefixes `{IpNetLib} (prefixes : list IpPrefix) : result string (list IpPrefix) :=
  compact_prefixes_loop (S (length prefixes)) (map trunc prefixes).

(** ** Configuration *)

(** [NetworkError]; the errors of other crates are their texts, one of netlink has its
    code as well. *)
Record NlError := mk_NlError { nl_code : Z; nl_text : string }.
Inductive NetworkError :=
| NE_Io (context source : string)
| NE_Interface (context source : string)
| NE_Http (context source : string)
| NE_Netlink (context : string) (source : NlError)
| NE_Invalid (message : string).

Definition WIREGUARD_INTERFACE_NAME : string := "ployz".
Definition INTERFACE_DEBUG : string := double_quote +:+ WIREGUARD_INTERFACE_NAME +:+ double_quote.
Definition DEFAULT_WIREGUARD_PORT : Z := 51820.
Definition MIN_WIREGUARD_MTU : Z := 1280.
Definition WIREGUARD_ENCAP_OVERHEAD : Z := 80.
Definition MAX_WIREGUARD_MTU : Z := 1500 - WIREGUARD_ENCAP_OVERHEAD.
Definition WIREGUARD_KEEPALIVE_SECONDS : Z := 25.

(** The networks and keys of [PeerConfig]. *)
#[export] Instance wg_net_lib : NetLib := {| IpNet := IpPrefix; Peer.Secret := option (list byte) |}.

(** [Config]. *)
Record Config := mk_Config {
  cfg_subnet : option IpPrefix; cfg_management_ip : option IpAddr; cfg_wire_guard_port : Z; cfg_mtu : Z;
  cfg_private_key : option Secret; cfg_public_key : option Secret; cfg_endpoints : list SocketAddr;
  cfg_peers : list PeerConfig
}.
(** [is_configured], [effective_wire_guard_port] and [effective_mtu]. *)
Definition is_configured (self : Config) : bool :=
  bool_decide (is_Some (cfg_subnet self)) && bool_decide (is_Some (cfg_management_ip self))
  && bool_decide (is_Some (cfg_private_key self)) && bool_decide (is_Some (cfg_public_key self)).
Definition effective_wire_guard_port (self : Config) : Z :=
  if cfg_wire_guard_port self =? 0 then DEFAULT_WIREGUARD_PORT else cfg_wire_guard_port self.
Definition effective_mtu (self : Config) : Z := if cfg_mtu self =? 0 then MAX_WIREGUARD_MTU else cfg_mtu self.

(** The texts of optional fields in JSON: [optional_addr], [optional_prefix] and
    [optional_secret]; an error is its text. *)
Definition optional_addr_serialize (value : option IpAddr) : string := from_option ip_display "" value.
Definition optional_addr_deserialize (value : string) : result string (option IpAddr) :=
  if str_is_empty value then Ok None
  else address ← map_err (fun _ => "invalid IP address syntax") (ip_from_str value); Ok (Some address).
Definition optional_prefix_serialize (value : option IpPrefix) : string := from_option prefix_display "" value.
Definition optional_prefix_deserialize `{IpNetLib} (value : string) : result string (option IpPrefix) :=
  if str_is_empty value then Ok None
  else match net_parse value with inl error => Err error | inr prefix => Ok (Some prefix) end.
Definition optional_secret_serialize `{HexLib} (value : option Secret) : string := from_option to_hex_string "" value.
Definition optional_secret_deserialize (value : string) : result string (option Secret) :=
  secret ← map_err secret_error_display (from_hex_string value); Ok (Some secret).

(** [single_ip_prefix]: [IpNet::new] accepts the full length. *)
Definition single_ip_prefix (address : IpAddr) : IpPrefix := mk_IpPrefix address (bit_len address).

(** [PeerConfig::prefixes] and [PeerConfig::key_string]. *)
Definition peer_prefixes (self : PeerConfig) : result NetworkError (list IpPrefix) :=
  management_ip ← ok_or (NE_Invalid "parse management IP: invalid IP address") (pc_management_ip self);
  Ok (single_ip_prefix management_ip :: option_list (pc_subnet self)).
Definition key_string `{HexLib} (self : PeerConfig) : result NetworkError string :=
  match pc_public_key self with
  | Some key => Ok (to_hex_string key)
  | None => Err (NE_Invalid "peer public key is absent")
  end.

(** [key_from_secret], [secret_from_bytes] and [key_hex]. *)
Definition key_from_secret (secret : Secret) (name : string) : result NetworkError (list byte) :=
  if (length (as_bytes secret) =? 32)%nat then Ok (as_bytes secret)
  else Err (NE_Invalid ("parse " +:+ name +:+ ": WireGuard key must be 32 bytes")).
Definition key_hex (key : list byte) : string := String.concat "" (map lower_hex key).
Definition secret_from_bytes (key : list byte) : result NetworkError Secret :=
  map_err (fun e => NE_Invalid ("encode WireGuard key: " +:+ secret_error_display e)) (from_hex_string (key_hex key)).

(** [new_machine_keys], with the clamping of X25519; its public keys are a parameter. *)
Class X25519 := { x25519_public : list byte → list byte }.
Definition clamp (key : list byte) : list byte :=
  alter (fun b => byte_of (Z.lor (Z.land (u8 b) 127) 64)) 31%nat (alter (fun b => byte_of (Z.land (u8 b) 248)) 0%nat key).
Definition new_machine_keys `{X25519} (fill : nat → string + list byte) : result NetworkError (Secret * Secret) :=
  generated ← map_err (fun e => NE_Invalid ("generate WireGuard private key: " +:+ secret_error_display e)) (secret_new 32 fill);
  if (length (as_bytes generated) =? 32)%nat then
    let private := clamp (as_bytes generated) in
    private_key ← secret_from_bytes private;
    public_key ← secret_from_bytes (x25519_public private);
    Ok (private_key, public_key)
  else Err (NE_Invalid "generate WireGuard private key: wrong random key length").

(** ** The kernel *)

(** A peer of the device; a handshake is a duration since the epoch, zero for none. *)
Record WireGuardPeer := mk_WireGuardPeer {
  wp_public_key : list byte; wp_endpoint : option SocketAddr; wp_last_handshake_time : Z;
  wp_rx_bytes : Z; wp_tx_bytes : Z; wp_allowed_ips : list (IpAddr * Z); wp_keepalive : option Z
}.
Inductive PeerFlag := PF_ReplaceAllowedIps | PF_UpdateOnly | PF_RemoveMe.
#[export] Instance PeerFlag_eq_dec : EqDecision PeerFlag. Proof. solve_decision. Defined.
Record PeerUpdate := mk_PeerUpdate {
  pu_public_key : list byte; pu_flags : list PeerFlag; pu_endpoint : option SocketAddr;
  pu_keepalive : option Z; pu_allowed_ips : list (IpAddr * Z)
}.
Record DeviceUpdate := mk_DeviceUpdate {
  du_private_key : option (list byte); du_listen_port : option Z; du_peers : list PeerUpdate
}.

(** Messages of netlink, with the attributes that are read. *)
Inductive LinkAttribute := LA_IfName (name : string) | LA_Mtu (mtu : Z) | LA_Other.
Record LinkMessage := mk_LinkMessage { lm_index : Z; lm_up : bool; lm_attributes : list LinkAttribute }.
Inductive AddressAttribute := AA_Local (a : IpAddr) | AA_Address (a : IpAddr) | AA_Other.
Record AddressMessage := mk_AddressMessage { adm_index : Z; adm_prefix_len : Z; adm_attributes : list AddressAttribute }.
Inductive RouteAttribute :=
| RA_Table (table : Z) | RA_Oif (index : Z) | RA_Destination (a : IpAddr) | RA_Metrics (mtus : list (option Z)) | RA_Other.
Record RouteMessage := mk_RouteMessage {
  rm_destination_prefix_length : Z; rm_table : Z; rm_cloned : bool; rm_attributes : list RouteAttribute
}.
(** A route that is added: its destination, the address packets are sent from, the link. *)
Record NewRoute := mk_NewRoute { nr_destination : IpAddr; nr_prefix_len : Z; nr_source : option IpAddr; nr_link : Z }.

(** [EndpointChangeEvent], and how the delivery to a watcher ends. *)
Record EndpointChangeEvent := mk_EndpointChangeEvent { ev_public_key : Secret; ev_endpoint : SocketAddr }.
Inductive Delivery := D_Received | D_Closed | D_Timeout | D_Cancelled.

(** What the network asks of the system [W]: the clock, the identity of a new allocation,
    the WireGuard device, links, addresses and routes, and the watchers.  A listing gives
    messages one by one and may end in an error. *)
Class Kernel (W : Type) := {
  now : W → Z * W;
  allocate : W → nat * W;
  wg_connect : W → option string * W;
  wg_get_device : W → (string + list WireGuardPeer) * W;
  wg_set_device : DeviceUpdate → W → option string * W;
  nl_connect : W → option string * W;
  link_get : Z → W → (NlError + option LinkMessage) * W;
  link_find : string → W → (NlError + option LinkMessage) * W;
  link_add : string → W → option NlError * W;
  link_del : Z → W → option NlError * W;
  link_set_mtu : Z → Z → W → option NlError * W;
  link_set_up : Z → W → option NlError * W;
  address_add : Z → IpAddr → Z → W → option NlError * W;
  address_list : Z → W → (list AddressMessage * option NlError) * W;
  address_del : AddressMessage → W → option NlError * W;
  route_add : NewRoute → W → option NlError * W;
  route_list : bool → W → (list RouteMessage * option NlError) * W;
  route_del : RouteMessage → W → option NlError * W;
  route_get : IpAddr → W → (NlError + option RouteMessage) * W;
  deliver : nat → EndpointChangeEvent → W → Delivery * W
}.

(** [State], behind its lock; a watcher is a number. *)
Record State := mk_State {
  st_link_index : Z; st_peers : option (gmap string Peer); st_watchers : list nat; st_running : bool
}.

(** A computation on the state and the system, which an error leaves as they are. *)
Definition net (W A : Type) : Type := State * W → result NetworkError A * (State * W).
#[export] Instance net_ret W : MRet (net W) := fun A a s => (Ok a, s).
#[export] Instance net_bind W : MBind (net W) := fun A B f m s =>
  match m s with
  | (Ok a, s) => f a s
  | (Err e, s) => (Err e, s)
  | (Panic p, s) => (Panic p, s)
  end.
Definition of_result {W A} (r : result NetworkError A) : net W A := fun s => (r, s).
Definition get_state {W} : net W State := fun s => (Ok s.1, s).
Definition put_state {W} (state : State) : net W () := fun s => (Ok (), (state, s.2)).
Definition ask {W A} (f : W → A * W) : net W A := fun s => let '(a, w) := f s.2 in (Ok a, (s.1, w)).
(** A call whose error is wrapped. *)
Definition call_io {W} (context : string) (f : W → option string * W) : net W () :=
  error ← ask f; of_result (match error with Some e => Err (NE_Io context e) | None => Ok () end).
Definition call_nl {W} (context : string) (f : W → option NlError * W) : net W () :=
  error ← ask f; of_result (match error with Some e => Err (NE_Netlink context e) | None => Ok () end).
Definition call_get {W A} (context : string) (f : W → (NlError + A) * W) : net W A :=
  answer ← ask f; of_result (match answer with inl e => Err (NE_Netlink context e) | inr a => Ok a end).
Definition set_peers {W} (peers : gmap string Peer) : net W () :=
  state ← get_state;
  put_state (mk_State (st_link_index state) (Some peers) (st_watchers state) (st_running state)).
(** The peers, which a configuration sets. *)
Definition get_peers {W} : net W (gmap string Peer) :=
  state ← get_state; of_result (ok_or (NE_Invalid "peers are not configured") (st_peers state)).
Fixpoint for_each {W A} (f : A → net W ()) (l : list A) : net W () :=
  match l with [] => mret () | x :: l => _ ← f x; for_each f l end.

Section network.
Context `{IpNetLib} `{HexLib} `{HashOrder} {W : Type} `{!Kernel W}.

(** [wireguard_client], [get_wireguard_device] and [netlink_handle]. *)
Definition wireguard_client : net W () := call_io "create WireGuard client" wg_connect.
Definition get_wireguard_device : net W (list WireGuardPeer) :=
  answer ← ask wg_get_device;
  of_result (match answer with
             | inl e => Err (NE_Io ("get WireGuard device " +:+ INTERFACE_DEBUG) e)
             | inr peers => Ok peers
             end).
Definition netlink_handle : net W () := call_io "create route netlink client" nl_connect.

(** [is_errno] for [EEXIST]. *)
Definition is_eexist (e : NlError) : bool := Z.abs (nl_code e) =? 17.

(** ** Links *)

(** [find_map]. *)
Fixpoint find_map {A B} (f : A → option B) (l : list A) : option B :=
  match l with
  | [] => None
  | x :: l => match f x with Some b => Some b | None => find_map f l end
  end.

(** [find_link_by_name], [get_link_by_index], [link_name], [link_mtu]. *)
Definition find_link_by_name (name : string) : net W (option LinkMessage) :=
  call_get ("find WireGuard link " +:+ double_quote +:+ name +:+ double_quote) (link_find name).
Definition get_link_by_index (index : Z) : net W LinkMessage :=
  link ← call_get ("get network interface index " +:+ dec index) (link_get index);
  of_result (ok_or (NE_Invalid ("get network interface index " +:+ dec index +:+ ": not found")) link).
Definition link_name (link : LinkMessage) : option string :=
  find_map (fun a => match a with LA_IfName name => Some name | _ => None end) (lm_attributes link).
Definition link_mtu (link : LinkMessage) : option Z :=
  find_map (fun a => match a with LA_Mtu mtu => Some mtu | _ => None end) (lm_attributes link).

(** [create_or_get_link]. *)
Definition create_or_get_link (name : string) : net W LinkMessage :=
  link ← find_link_by_name name;
  match link with
  | Some link => mret link
  | None =>
      let quoted := double_quote +:+ name +:+ double_quote in
      _ ← call_nl ("create WireGuard link " +:+ quoted) (link_add name);
      link ← find_link_by_name name;
      of_result (ok_or (NE_Invalid ("find created WireGuard link " +:+ quoted +:+ ": link disappeared")) link)
  end.

(** ** Addresses and routes *)

(** [IpNet::new] and [trunc]. *)
Definition net_new (context : string) (address : IpAddr) (prefix_len : Z) : result NetworkError IpPrefix :=
  if prefix_len <=? bit_len address then Ok (trunc (mk_IpPrefix address prefix_len))
  else Err (NE_Invalid (context +:+ net_error)).

(** [address_message_prefix]. *)
Definition address_message_prefix (message : AddressMessage) : result NetworkError IpPrefix :=
  address ← ok_or (NE_Invalid "invalid IP network: address is absent")
              (find_map (fun a => match a with AA_Local a | AA_Address a => Some a | AA_Other => None end)
                 (adm_attributes message));
  net_new "invalid IP network: " address (adm_prefix_len message).

(** [update_addresses]: adds the addresses, then removes those that are listed and not
    wanted. *)
Definition add_address (index : Z) (address : IpPrefix) : net W () :=
  error ← ask (address_add index (Ipam.address address) (bits address));
  of_result (match error with
             | Some e => if is_eexist e then Ok ()
                         else Err (NE_Netlink ("add subnet address to WireGuard link " +:+ INTERFACE_DEBUG) e)
             | None => Ok ()
             end).
Definition remove_address (addresses : list IpPrefix) (message : AddressMessage) : net W () :=
  prefix ← of_result (address_message_prefix message);
  if bool_decide (prefix ∈ addresses) then mret ()
  else call_nl ("remove address " +:+ net_debug prefix +:+ " from WireGuard link " +:+ INTERFACE_DEBUG) (address_del message).
Definition update_addresses (index : Z) (addresses : list IpPrefix) : net W () :=
  _ ← for_each (add_address index) addresses;
  '(current, error) ← ask (address_list index);
  _ ← for_each (remove_address addresses) current;
  of_result (match error with
             | Some e => Err (NE_Netlink ("list addresses on WireGuard link " +:+ INTERFACE_DEBUG) e)
             | None => Ok ()
             end).

(** [route_output_interface] and [route_message_prefix]. *)
Definition route_output_interface (route : RouteMessage) : option Z :=
  find_map (fun a => match a with RA_Oif index => Some index | _ => None end) (rm_attributes route).
Definition route_message_prefix (route : RouteMessage) : result NetworkError IpPrefix :=
  address ← ok_or (NE_Invalid "parse route destination: invalid IP network")
              (find_map (fun a => match a with RA_Destination a => Some a | _ => None end) (rm_attributes route));
  net_new "parse route destination: " address (rm_destination_prefix_length route).

(** The routes of the main table that are not clones and lead to the link. *)
Definition RT_TABLE_MAIN : Z := 254.
Definition route_on_link (link_index : Z) (route : RouteMessage) : bool :=
  let table := find_map (fun a => match a with RA_Table table => Some table | _ => None end) (rm_attributes route) in
  (default (rm_table route) table =? RT_TABLE_MAIN) && negb (rm_cloned route)
  && bool_decide (route_output_interface route = Some link_index).

(** [update_peer_routes]: the prefixes of all peers, compacted; a route to each, and no
    other route on the link. *)
Fixpoint all_prefixes (peers : list (string * Peer)) : result NetworkError (list IpPrefix) :=
  match peers with
  | [] => Ok []
  | (_, peer) :: peers =>
      prefixes ← peer_prefixes (peer_config peer); rest ← all_prefixes peers; Ok (prefixes ++ rest)
  end.
Definition new_route (link_index : Z) (machine_ip : IpAddr) (prefix : IpPrefix) : result NetworkError NewRoute :=
  let network := address (trunc prefix) in
  match address prefix, machine_ip with
  | V4 _, V4 source => Ok (mk_NewRoute network (bits prefix) (Some (V4 source)) link_index)
  | V6 _, _ => Ok (mk_NewRoute network (bits prefix) None link_index)
  | V4 _, V6 _ => Err (NE_Invalid "IPv4 peer route requires an IPv4 machine IP")
  end.
Definition add_route (link_index : Z) (machine_ip : IpAddr) (prefix : IpPrefix) : net W () :=
  route ← of_result (new_route link_index machine_ip prefix);
  error ← ask (route_add route);
  of_result (match error with
             | Some e => if is_eexist e then Ok ()
                         else Err (NE_Netlink ("add route to WireGuard link " +:+ INTERFACE_DEBUG) e)
             | None => Ok ()
             end).
Definition remove_route (link_index : Z) (prefixes : list IpPrefix) (route : RouteMessage) : net W () :=
  if negb (route_on_link link_index route) then mret ()
  else
    prefix ← of_result (route_message_prefix route);
    if bool_decide (prefix ∈ prefixes) then mret ()
    else call_nl ("remove route " +:+ prefix_display prefix +:+ " from WireGuard link " +:+ INTERFACE_DEBUG) (route_del route).
Definition remove_routes (link_index : Z) (prefixes : list IpPrefix) (v6 : bool) : net W () :=
  '(routes, error) ← ask (route_list v6);
  _ ← for_each (remove_route link_index prefixes) routes;
  of_result (match error with
             | Some e => Err (NE_Netlink ("list routes on WireGuard link " +:+ INTERFACE_DEBUG) e)
             | None => Ok ()
             end).
Definition update_peer_routes (link_index : Z) (machine_ip : IpAddr) (peers : gmap string Peer) : net W () :=
  prefixes ← of_result (all_prefixes (hash_iter peers));
  prefixes ← of_result (map_err NE_Invalid (compact_prefixes prefixes));
  _ ← for_each (add_route link_index machine_ip) prefixes;
  _ ← remove_routes link_index prefixes false;
  remove_routes link_index prefixes true.

(** ** The device *)

(** [device_peer_snapshot]: a time beyond the range of [SystemTime] is none. *)
Definition device_peer_snapshot (peer : WireGuardPeer) : DevicePeerSnapshot :=
  mk_Snapshot (wp_endpoint peer)
    (if wp_last_handshake_time peer =? 0 then None
     else if wp_last_handshake_time peer / Peer.second <=? i_max 64 then Some (wp_last_handshake_time peer) else None)
    (wp_rx_bytes peer) (wp_tx_bytes peer).

(** [apply_wireguard_config]: an update for every configured peer, and the removal of
    every other peer of the device. *)
Definition allowed_ip_values (peer : PeerConfig) : result NetworkError (list (IpAddr * Z)) :=
  prefixes ← peer_prefixes peer; Ok (map (fun p => (address p, bits p)) prefixes).
Definition peer_update (peer : PeerConfig) (allowed_ips : list (IpAddr * Z)) : result NetworkError PeerUpdate :=
  public_key ← ok_or (NE_Invalid "parse peer public key: key is absent") (pc_public_key peer);
  public_key ← key_from_secret public_key "peer public key";
  Ok (mk_PeerUpdate public_key [PF_ReplaceAllowedIps] (arc_val <$> pc_endpoint peer)
        (Some WIREGUARD_KEEPALIVE_SECONDS) allowed_ips).
Definition peer_removals (updates : list PeerUpdate) (current_peers : list WireGuardPeer) : list PeerUpdate :=
  omap (fun peer =>
          if existsb (fun update => bool_decide (pu_public_key update = wp_public_key peer)) updates then None
          else Some (mk_PeerUpdate (wp_public_key peer) [PF_RemoveMe] None None []))
    current_peers.
Definition device_update (config : Config) (current_peers : list WireGuardPeer) : result NetworkError DeviceUpdate :=
  private_key ← ok_or (NE_Invalid "parse private key: key is absent") (cfg_private_key config);
  private_key ← key_from_secret private_key "private key";
  let port := effective_wire_guard_port config in
  if negb ((0 <=? port) && (port <=? u_max 16))
  then Err (NE_Invalid ("parse WireGuard listen port: invalid port " +:+ dec port))
  else
    allowed ← mapM allowed_ip_values (cfg_peers config);
    updates ← mapM (fun '(peer, allowed_ips) => peer_update peer allowed_ips) (zip (cfg_peers config) allowed);
    Ok (mk_DeviceUpdate (Some private_key) (Some port) (updates ++ peer_removals updates current_peers)).
Definition apply_wireguard_config (config : Config) (current_peers : list WireGuardPeer) : net W () :=
  update ← of_result (device_update config current_peers);
  call_io ("configure WireGuard device " +:+ INTERFACE_DEBUG) (wg_set_device update).

(** The peers of a first configuration, with what the device has of them. *)
Fixpoint initial_peers (device_peers : gmap string DevicePeerSnapshot) (peers : gmap string Peer) (l : list PeerConfig) :
    net W (gmap string Peer) :=
  match l with
  | [] => mret peers
  | peer_config :: l =>
      key ← of_result (key_string peer_config);
      time ← ask now;
      initial_peers device_peers (<[key := peer_new_at peer_config (device_peers !! key) time]> peers) l
  end.
(** The loop over the configured peers. *)
Fixpoint update_peer_configs (keys : list string) (l : list PeerConfig) : net W (list string) :=
  match l with
  | [] => mret keys
  | peer_config :: l =>
      key ← of_result (key_string peer_config);
      peers ← get_peers;
      time ← ask now;
      _ ← set_peers (<[key := match peers !! key with
                              | Some peer => update_config_at peer peer_config time
                              | None => peer_new_at peer_config None time
                              end]> peers);
      update_peer_configs (keys ++ [key]) l
  end.
(** [configure_device]. *)
Definition configure_device (config : Config) : net W () :=
  _ ← wireguard_client;
  device ← get_wireguard_device;
  state ← get_state;
  _ ← match st_peers state with
      | Some _ => mret ()
      | None =>
          let device_peers := list_to_map (reverse (map (fun peer => (key_hex (wp_public_key peer), device_peer_snapshot peer)) device)) in
          peers ← initial_peers device_peers ∅ (cfg_peers config);
          set_peers peers
      end;
  keys ← update_peer_configs [] (cfg_peers config);
  peers ← get_peers;
  _ ← set_peers (filter (fun '(key, _) => key ∈ keys) peers);
  apply_wireguard_config config device.

(** [configure]. *)
Definition set_link (index mtu : Z) (link : LinkMessage) : net W () :=
  _ ← (if bool_decide (link_mtu link = Some mtu) then mret ()
       else call_nl ("set MTU " +:+ dec mtu +:+ " on WireGuard link " +:+ INTERFACE_DEBUG) (link_set_mtu index mtu));
  if lm_up link then mret ()
  else call_nl ("set WireGuard link " +:+ INTERFACE_DEBUG +:+ " up") (link_set_up index).
Definition configure (config : Config) : net W () :=
  _ ← configure_device config;
  management_ip ← of_result (ok_or (NE_Invalid "parse management IP: invalid IP address") (cfg_management_ip config));
  _ ← netlink_handle;
  state ← get_state;
  _ ← update_addresses (st_link_index state) [single_ip_prefix management_ip];
  let mtu := effective_mtu config in
  _ ← of_result (if 0 <=? mtu then Ok ()
                 else Err (NE_Invalid ("set MTU " +:+ dec mtu +:+ " on WireGuard link: invalid MTU")));
  link ← get_link_by_index (st_link_index state);
  _ ← set_link (st_link_index state) mtu link;
  subnet ← of_result (ok_or (NE_Invalid "machine subnet is absent") (cfg_subnet config));
  source ← of_result (ok_or (NE_Invalid "machine subnet has no next IP address") (machine_ip subnet));
  peers ← get_peers;
  update_peer_routes (st_link_index state) source peers.

(** ** Watchers *)

(** [notify_watchers]: every event to every watcher; a watcher that is closed or does not
    answer in a second ends it with an error, a cancellation without one. *)
Fixpoint notify_watcher (watcher : nat) (events : list EndpointChangeEvent) : net W bool :=
  match events with
  | [] => mret true
  | event :: events =>
      delivery ← ask (deliver watcher event);
      match delivery with
      | D_Received => notify_watcher watcher events
      | D_Closed => of_result (Err (NE_Invalid "endpoint watcher is closed"))
      | D_Timeout => of_result (Err (NE_Invalid "timeout 1 second"))
      | D_Cancelled => mret false
      end
  end.
Fixpoint notify_watchers (watchers : list nat) (events : list EndpointChangeEvent) : net W () :=
  match watchers with
  | [] => mret ()
  | watcher :: watchers =>
      continue ← notify_watcher watcher events;
      if (continue : bool) then notify_watchers watchers events else mret ()
  end.
(** An error of the notification is only logged. *)
Definition logged (m : net W ()) : net W () := fun s =>
  match m s with (Err _, s) => (Ok (), s) | other => other end.

(** ** The tick *)

(** [update_peers_from_device]. *)
Fixpoint follow_device (events : list EndpointChangeEvent) (device : list WireGuardPeer) :
    net W (list EndpointChangeEvent) :=
  match device with
  | [] => mret events
  | device_peer :: device =>
      let key := key_hex (wp_public_key device_peer) in
      peers ← get_peers;
      match peers !! key with
      | None => follow_device events device
      | Some peer =>
          time ← ask now;
          fresh ← ask allocate;
          let '(peer, changed) := update_from_device peer (device_peer_snapshot device_peer) time fresh in
          _ ← set_peers (<[key := peer]> peers);
          if (changed : bool) then
            endpoint ← of_result (ok_or (NE_Invalid "updated peer endpoint is absent")
                                    (arc_val <$> pc_endpoint (peer_config peer)));
            public_key ← of_result (secret_from_bytes (wp_public_key device_peer));
            follow_device (events ++ [mk_EndpointChangeEvent public_key endpoint]) device
          else follow_device events device
      end
  end.
Definition update_peers_from_device : net W () :=
  _ ← wireguard_client;
  device ← get_wireguard_device;
  _ ← get_peers;
  events ← follow_device [] device;
  match events with
  | [] => mret ()
  | _ => state ← get_state; logged (notify_watchers (st_watchers state) events)
  end.

(** [change_wire_guard_endpoints]. *)
Fixpoint rotate_endpoints (events : list EndpointChangeEvent) (keys : list string) : net W (list EndpointChangeEvent) :=
  match keys with
  | [] => mret events
  | key :: keys =>
      peers ← get_peers;
      match peers !! key with
      | None => rotate_endpoints events keys
      | Some peer =>
          change ← of_result (map_err (fun _ => NE_Invalid "") (should_change_endpoint peer));
          match change with
          | None => rotate_endpoints events keys
          | Some endpoint =>
              fresh ← ask allocate;
              time ← ask now;
              let config := with_endpoint (peer_config peer) (Some (mk_Arc fresh endpoint)) in
              let peer := update_config_at peer config time in
              _ ← set_peers (<[key := peer]> peers);
              public_key ← of_result (ok_or (NE_Invalid "peer public key is absent") (pc_public_key (peer_config peer)));
              rotate_endpoints (events ++ [mk_EndpointChangeEvent public_key endpoint]) keys
          end
      end
  end.
Definition endpoint_update (event : EndpointChangeEvent) (key : list byte) : PeerUpdate :=
  mk_PeerUpdate key [PF_UpdateOnly] (Some (ev_endpoint event)) None [].
Definition missing_key (device : list WireGuardPeer) (key : list byte) : bool :=
  negb (existsb (fun peer => bool_decide (wp_public_key peer = key)) device).
Definition change_wire_guard_endpoints : net W () :=
  peers ← get_peers;
  events ← rotate_endpoints [] (map fst (hash_iter peers));
  match events with
  | [] => mret ()
  | _ =>
      _ ← wireguard_client;
      device ← get_wireguard_device;
      changed_keys ← of_result (mapM (fun event => key_from_secret (ev_public_key event) "peer public key") events);
      let context := "configure WireGuard device " +:+ INTERFACE_DEBUG +:+ " with endpoint changes" in
      match List.find (fun '(_, key) => missing_key device key) (zip events changed_keys) with
      | Some (missing, _) =>
          of_result (Err (NE_Invalid (context +:+ ": update-only peer " +:+ to_hex_string (ev_public_key missing)
                                        +:+ " does not exist")))
      | None =>
          _ ← call_io context (wg_set_device (mk_DeviceUpdate None None
                (map (fun '(event, key) => endpoint_update event key) (zip events changed_keys))));
          state ← get_state;
          logged (notify_watchers (st_watchers state) events)
      end
  end.

(** ** The network *)

(** [new], [watch_endpoints], [run] up to its loop, one turn of it, its end, and
    [cleanup]. *)
Definition network_new (s : W) : result NetworkError State * W :=
  let '(r, (_, w)) := (_ ← netlink_handle; create_or_get_link WIREGUARD_INTERFACE_NAME) (mk_State 0 None [] false, s) in
  ((link ← r; Ok (mk_State (lm_index link) None [] false)), w).
Definition watch_endpoints (watcher : nat) : net W () :=
  state ← get_state;
  put_state (mk_State (st_link_index state) (st_peers state) (st_watchers state ++ [watcher]) (st_running state)).
Definition run_start : net W () :=
  _ ← wireguard_client;
  state ← get_state;
  if st_running state then of_result (Err (NE_Invalid "network is already running"))
  else put_state (mk_State (st_link_index state) (st_peers state) (st_watchers state) true).
Definition run_tick : net W () :=
  _ ← logged update_peers_from_device; logged change_wire_guard_endpoints.
Definition run_stop : net W () :=
  state ← get_state; put_state (mk_State (st_link_index state) (st_peers state) [] false).
Definition cleanup : net W () :=
  state ← get_state;
  if st_running state then of_result (Err (NE_Invalid "network is still running, stop it before cleanup"))
  else
    _ ← netlink_handle;
    call_nl ("delete WireGuard link " +:+ INTERFACE_DEBUG) (link_del (st_link_index state)).

(** ** The size of packets *)

(** [detect_egress_mtu]: the MTU of the route to a public address, or of its link. *)
Definition route_mtu (route : RouteMessage) : option Z :=
  find_map (fun a => match a with
                     | RA_Metrics mtus => find_map (fun m => match m with Some mtu => if 0 <? mtu then Some mtu else None | None => None end) mtus
                     | _ => None
                     end) (rm_attributes route).
Definition detect_egress_mtu : net W Z :=
  _ ← netlink_handle;
  route ← call_get "get route to public address" (route_get (V4 0x01010101));
  route ← of_result (ok_or (NE_Invalid "no route to public address") route);
  link_index ← of_result (ok_or (NE_Invalid "get route to public address: route has no egress interface")
                            (route_output_interface route));
  link ← get_link_by_index link_index;
  if bool_decide (link_name link = Some WIREGUARD_INTERFACE_NAME)
  then of_result (Err (NE_Invalid ("egress interface is the WireGuard interface '" +:+ WIREGUARD_INTERFACE_NAME +:+ "'")))
  else
    match route_mtu route with
    | Some mtu => mret mtu
    | None => of_result (ok_or (NE_Invalid "get egress interface for route: interface has no MTU") (link_mtu link))
    end.
(** [detect_mtu]. *)
Definition clamp_mtu (egress_mtu : Z) : Z :=
  Z.min (Z.max (Z.max (egress_mtu - WIREGUARD_ENCAP_OVERHEAD) 0) MIN_WIREGUARD_MTU) MAX_WIREGUARD_MTU.
Definition detect_mtu (s : State * W) : Z * (State * W) :=
  match detect_egress_mtu s with
  | (Ok mtu, s) => (clamp_mtu mtu, s)
  | (_, s) => (MAX_WIREGUARD_MTU, s)
  end.
End network.

(** ** The machine's own addresses *)

(** [contains_docker_bridge_name]: [br-] and twelve hexadecimal digits anywhere. *)
Definition is_bridge_name (window : list ascii) : bool :=
  match window with
  | a :: b :: c :: rest =>
      ascii_eqb a "b" && ascii_eqb b "r" && ascii_eqb c "-"
      && (length rest =? 12)%nat && forallb (fun d => is_ascii_digit d || is_af d) rest
  | _ => false
  end.
Fixpoint contains_docker_bridge_name (name : list ascii) : bool :=
  match name with
  | [] => false
  | _ :: rest => is_bridge_name (take 15 name) || contains_docker_bridge_name rest
  end.
(** [should_skip_interface]. *)
Definition should_skip_interface (name : string) : bool :=
  String.eqb name WIREGUARD_INTERFACE_NAME || starts_with "docker" name || String.eqb name "tailscale0"
  || contains_docker_bridge_name (RustStr.bytes name).

(** [is_go_global_unicast], with the classes of the standard library. *)
Definition is_ipv6_link_local (a : Z) : bool := Z.land (Z.shiftr a 112) 0xffc0 =? 0xfe80.
Definition is_go_global_unicast (ip : IpAddr) : bool :=
  match ip with
  | V4 a => negb (a =? 0) && negb (Z.shiftr a 24 =? 127) && negb (Z.shiftr a 28 =? 14)
            && negb (a =? u_max 32) && negb (Z.shiftr a 16 =? 0xa9fe)
  | V6 a => negb (a =? 0) && negb (a =? 1) && negb (Z.shiftr a 120 =? 0xff) && negb (is_ipv6_link_local a)
  end.

(** An interface of [getifaddrs]; [list_routable_ips]. *)
Record Interface := mk_Interface { if_name : string; if_up : bool; if_running : bool; if_loopback : bool; if_ip : option IpAddr }.
Definition list_routable_ips (interfaces : string + list Interface) : result NetworkError (list IpAddr) :=
  match interfaces with
  | inl error => Err (NE_Interface "list network interfaces" error)
  | inr interfaces =>
      Ok (omap (fun i =>
             if should_skip_interface (if_name i) || negb (if_up i) || negb (if_running i) || if_loopback i then None
             else ip ← if_ip i; if is_go_global_unicast ip then Some ip else None) interfaces)
  end.

(** [query_ip], on the answer of the request, and [get_public_ip]. *)
Definition parse_plaintext_ip (utf8_error : string) (data : list ascii) : result NetworkError IpAddr :=
  if utf8_valid data then
    map_err (fun _ => NE_Invalid "invalid IP address: invalid IP address syntax") (ip_from_str (of_bytes data))
  else Err (NE_Invalid ("invalid IP address: " +:+ utf8_error)).
Definition query_ip (utf8_error : string) (answer : string + Z * (string + list ascii)) : result NetworkError IpAddr :=
  match answer with
  | inl error => Err (NE_Http "send request" error)
  | inr (status, body) =>
      if negb (status =? 200) then Err (NE_Invalid ("unexpected status code: " +:+ dec status))
      else match body with
           | inl error => Err (NE_Io "read response body" error)
           | inr data => parse_plaintext_ip utf8_error data
           end
  end.
Definition IP_SERVICES : list string := ["https://api.ipify.org"; "https://ipinfo.io/ip"; "http://ip-api.com/line/?fields=query"].
Fixpoint first_ip (query : string → result NetworkError IpAddr) (services : list string) : result NetworkError IpAddr :=
  match services with
  | [] => Err (NE_Invalid "failed to get public IP from all services")
  | service :: services =>
      match query service with Ok ip => Ok ip | _ => first_ip query services end
  end.
Definition get_public_ip (utf8_error : string) (http : string → string + Z * (string + list ascii)) :
    result NetworkError IpAddr :=
  first_ip (fun service => query_ip utf8_error (http service)) IP_SERVICES.
