(* ===== verification/WireGuardProps.v ===== *)
(** * What the WireGuard network promises

    Compacted prefixes have the same addresses and are the fewest of their kind; after a
    configuration the device has exactly the configured peers, the link exactly the
    configured address and routes exactly to the peers; a watcher that is gone keeps
    those after it from being notified. *)

From S2P Require Import Prelude BTree RustStr NetAddr Ipam Peer Secret MachineName WireGuard.

Local Open Scope Z_scope.

(** ** Prefixes *)

(** The address of a prefix is that of its network. *)
Definition truncated (p : IpPrefix) : Prop := prefix_wf p ∧ to_u128 (address p) = block_start p.
(** The addresses of some prefixes. *)
Definition covers (l : list IpPrefix) (a : IpAddr) : Prop := ∃ p, p ∈ l ∧ in_block p a.

Lemma truncated_eq p q :
  truncated p → truncated q → same_family (address p) (address q) = true → bits p = bits q →
  block_start p = block_start q → p = q.
Proof.
  intros [_ Hp] [_ Hq] Hf Hb Hs. destruct p as [pa pb], q as [qa qb]. cbn in *. subst qb. f_equal.
  rewrite <-Hp, <-Hq in Hs. destruct pa, qa; cbn in *; congruence.
Qed.

(** A block in which two prefixes meet is inside the one with the shorter prefix. *)
Lemma meets_nested p q :
  prefix_wf p → prefix_wf q → meets p q → bits p <= bits q → ∀ a, in_block q a → in_block p a.
Proof.
  intros Hp Hq (x & _ & [Hfp Hxp] & [Hfq Hxq]) Hb a [Hfa Ha].
  assert (same_family (address p) (address q) = true) as Hf.
  { rewrite same_family_sym in Hfq. by eapply same_family_trans. }
  split; [by eapply same_family_trans|]. pose proof (same_family_bit_len _ _ Hf) as HW.
  pose proof (block_size_pos q Hq) as Hs. destruct Hp as [_ Hbp], Hq as [_ Hbq].
  assert (block_size p = block_size q * 2 ^ (bits q - bits p)) as Hm.
  { unfold block_size. rewrite <-Z.pow_add_r by lia. f_equal. lia. }
  assert (0 < 2 ^ (bits q - bits p)) as Hmp by (apply Z.pow_pos_nonneg; lia).
  unfold block_end, block_start in *. rewrite Hm in *.
  set (s := block_size q) in *. set (m := 2 ^ (bits q - bits p)) in *.
  set (P := to_u128 (address p) / (s * m)) in *. set (Q := to_u128 (address q) / s) in *.
  assert (P * m <= Q < P * m + m) by nia. nia.
Qed.

Section compact.
Context `{IpNetLib}.

Lemma trunc_truncated p : prefix_wf p → truncated (trunc p) ∧ ∀ a, in_block (trunc p) a ↔ in_block p a.
Proof.
  intros Hp. rewrite trunc_network by done. set (q := mk_IpPrefix (ip_like (address p) (block_start p)) (bits p)).
  assert (block_size q = block_size p) as Hsize by (unfold block_size, q; cbn [address bits]; by rewrite ip_like_bit_len).
  pose proof (block_size_pos p Hp) as Hpos.
  assert (block_start q = block_start p) as Hstart.
  { unfold block_start at 1. rewrite Hsize. unfold q. cbn [address]. rewrite ip_like_value.
    unfold block_start. by rewrite Z.div_mul by lia. }
  pose proof (block_start_le p Hp) as Hle. destruct Hp as [Hw Hb].
  split; [split; [split|]|].
  - apply ip_like_wf. apply ip_wf_bound in Hw. lia.
  - unfold q. cbn [address bits]. by rewrite ip_like_bit_len.
  - rewrite Hstart. unfold q. cbn [address]. apply ip_like_value.
  - apply in_block_iff; [|done|done]. unfold q. cbn [address]. rewrite same_family_sym. apply ip_like_family.
Qed.

Lemma trunc_id p : truncated p → trunc p = p.
Proof.
  intros [Hw Ht]. rewrite trunc_network by done. destruct p as [a b]. cbn [address bits] in *. rewrite <-Ht.
  by rewrite ip_like_id by (by destruct a).
Qed.

(** A network that contains another has a shorter prefix. *)
Lemma contains_shorter p q :
  truncated p → truncated q → net_contains p q = true → p ≠ q → bits p < bits q.
Proof.
  intros Hp Hq Hc Hne. destruct (Hp) as [Hpw _], (Hq) as [Hqw _].
  rewrite net_contains_spec in Hc by done.
  pose proof (in_block_self q Hqw) as Hself. pose proof (Hc _ (proj1 Hqw) Hself) as [Hf _].
  pose proof (same_family_bit_len _ _ Hf) as HW. pose proof (block_size_pos q Hqw) as Hsq. pose proof (block_size_pos p Hpw) as Hsp.
  pose proof (block_start_le q Hqw) as Hle. pose proof (block_end_le q Hqw) as Hend.
  assert (∀ v, block_start q <= v < block_end q → block_start p <= v < block_end p) as Hsub.
  { intros v Hv. destruct (Hc (ip_like (address q) v)) as [_ Hin].
    - apply ip_like_wf. lia.
    - split; [apply ip_like_family|by rewrite ip_like_value].
    - by rewrite ip_like_value in Hin. }
  pose proof (Hsub (block_start q) ltac:(unfold block_end; lia)) as H1.
  pose proof (Hsub (block_end q - 1) ltac:(unfold block_end; lia)) as H2. unfold block_end in *.
  destruct (Z.lt_trichotomy (bits p) (bits q)) as [|[E|Hgt]]; [done| |].
  - exfalso. apply Hne. apply truncated_eq; [done..|]. unfold block_size in *. rewrite HW, E in *. lia.
  - exfalso. assert (block_size p < block_size q); [|lia]. unfold block_size. rewrite HW.
    apply Z.pow_lt_mono_r; [lia| |lia]. destruct Hpw as [_ ?], Hqw as [_ ?]. lia.
Qed.

(** Two siblings together are their supernet. *)
Lemma sibling_union p q :
  truncated p → truncated q → p ≠ q → is_sibling p q = true →
  ∃ s, supernet p = Some s ∧ truncated s ∧ ∀ a, in_block s a ↔ in_block p a ∨ in_block q a.
Proof.
  intros Hp Hq Hne Hs. destruct (Hp) as [Hpw Hpt], (Hq) as [Hqw Hqt].
  apply is_sibling_spec in Hs as (Hf & Hb & _ & Hsup); [|done..]. rewrite !supernet_spec in *. rewrite <-Hb in Hsup.
  destruct (Z.eqb_spec (bits p) 0) as [E0|E0].
  { exfalso. apply Hne. apply truncated_eq; [done..|]. pose proof (same_family_bit_len _ _ Hf) as HW.
    destruct Hpw as [Hpi _], Hqw as [Hqi _]. apply ip_wf_bound in Hpi. apply ip_wf_bound in Hqi.
    rewrite HW in Hpi. unfold block_start, block_size. rewrite <-Hb, E0, HW, Z.sub_0_r, !Z.div_small by lia. done. }
  eexists. split; [done|]. injection Hsup as Hsup.
  set (p' := mk_IpPrefix (address p) (bits p - 1)) in *. set (q' := mk_IpPrefix (address q) (bits p - 1)) in *.
  pose proof (same_family_bit_len _ _ Hf) as HW.
  assert (prefix_wf p') as Hpw' by (destruct Hpw; split; [done|unfold p'; cbn [address bits]; lia]).
  assert (prefix_wf q') as Hqw' by (destruct Hqw; split; [done|unfold q'; cbn [address bits]; lia]).
  destruct (trunc_truncated p' Hpw') as [Ht Hin]. rewrite <-Hsup. split; [done|]. intros a. rewrite Hin.
  assert (block_start p' = block_start q') as Hst.
  { rewrite !trunc_network in Hsup by done. injection Hsup as E.
    apply (f_equal to_u128) in E. by rewrite !ip_like_value in E. }
  assert (block_size p' = 2 * block_size p ∧ block_size q = block_size p ∧ block_size q' = 2 * block_size p) as (Hz1 & Hz2 & Hz3).
  { unfold block_size, p', q'. cbn [address bits]. rewrite <-HW, <-Hb. split_and!; [|done|];
      (replace (bit_len (address p) - (bits p - 1)) with (Z.succ (bit_len (address p) - bits p)) by lia;
       apply Z.pow_succ_r; destruct Hpw; lia). }
  assert (block_start p ≠ block_start q) as Hdiff.
  { intros E. apply Hne. by apply truncated_eq. }
  pose proof (block_size_pos p Hpw) as Hpos.
  assert (in_block p a ∨ in_block q a ↔ same_family (address p) a = true ∧
            (block_start p <= to_u128 a < block_end p ∨ block_start q <= to_u128 a < block_end q)) as ->.
  { unfold in_block. assert (same_family (address q) a = same_family (address p) a) as -> by (by destruct (address p), (address q), a).
    tauto. }
  unfold in_block. cbn [address]. apply and_iff_compat_l. unfold block_end.
  rewrite Hz1, Hz2. unfold block_start in Hst, Hdiff |- *. rewrite Hz1, Hz3 in Hst. rewrite Hz2 in Hdiff |- *.
  unfold p', q' in *. cbn [address] in *. rewrite Hz1. set (s := block_size p) in *.
  set (x := to_u128 (address p)) in *. set (y := to_u128 (address q)) in *.
  rewrite !(Z.mul_comm 2), <-!Z.div_div in * by lia.
  pose proof (Z.div_mod (x / s) 2 ltac:(lia)). pose proof (Z.mod_pos_bound (x / s) 2 ltac:(lia)).
  pose proof (Z.div_mod (y / s) 2 ltac:(lia)). pose proof (Z.mod_pos_bound (y / s) 2 ltac:(lia)).
  assert (x / s ≠ y / s) by congruence.
  assert (x / s / 2 = y / s / 2) as Hhalf by nia. rewrite Hhalf in *.
  set (u := x / s) in *. set (v := y / s) in *. set (h := v / 2) in *.
  assert (u = 2 * h ∧ v = 2 * h + 1 ∨ u = 2 * h + 1 ∧ v = 2 * h) as Huv by lia.
  clearbody h u v. destruct Huv as [[Hu Hv]|[Hu Hv]]; rewrite Hu, Hv; lia.
Qed.

(** *** Sorting and removing duplicates *)

Lemma dedup_cons p q l : dedup (p :: q :: l) = if bool_decide (p = q) then dedup (q :: l) else p :: dedup (q :: l).
Proof. done. Qed.

Lemma dedup_elem l p : p ∈ dedup l ↔ p ∈ l.
Proof.
  induction l as [|q [|r l] IH]; [done..|]. rewrite dedup_cons. case_bool_decide as E.
  - subst r. rewrite IH, !elem_of_cons. tauto.
  - rewrite elem_of_cons, IH. by rewrite (elem_of_cons (r :: l)).
Qed.

Lemma dedup_length l : (length (dedup l) <= length l)%nat.
Proof. induction l as [|q [|r l] IH]; [done..|]. rewrite dedup_cons. case_bool_decide; cbn [length] in *; lia. Qed.

#[local] Instance net_le_trans : Transitive net_le.
Proof.
  intros p q r. unfold net_le, net_leb.
  destruct (net_key p) as [[a b] c], (net_key q) as [[a' b'] c'], (net_key r) as [[a'' b''] c'']. lia.
Qed.
#[local] Instance net_le_total : Total net_le.
Proof. intros p q. unfold net_le, net_leb. destruct (net_key p) as [[a b] c], (net_key q) as [[a' b'] c']. lia. Qed.
#[local] Instance net_le_antisymm : AntiSymm (=) net_le.
Proof.
  intros p q. unfold net_le, net_leb, net_key. destruct p as [[x|x] b], q as [[y|y] c]; cbn; intros H1 H2;
    (assert (x = y ∧ b = c) as [-> ->] by lia; done) || lia.
Qed.

Lemma dedup_sorted_NoDup l : StronglySorted net_le l → NoDup (dedup l).
Proof.
  induction l as [|p [|q l] IH]; intros Hs; [constructor|apply NoDup_singleton|].
  apply StronglySorted_inv in Hs as [Hs Hp]. specialize (IH Hs). rewrite dedup_cons. case_bool_decide as E; [done|].
  constructor; [|done]. rewrite dedup_elem. intros Hin. apply E.
  apply elem_of_cons in Hin as [->|Hin]; [done|].
  apply StronglySorted_inv in Hs as [_ Hq]. rewrite Forall_forall in Hp, Hq.
  apply (anti_symm net_le); [apply Hp; left|by apply Hq].
Qed.

Definition tidy (l : list IpPrefix) : list IpPrefix := dedup (merge_sort net_le l).
Lemma tidy_elem l p : p ∈ tidy l ↔ p ∈ l.
Proof. unfold tidy. by rewrite dedup_elem, merge_sort_Permutation. Qed.
Lemma tidy_NoDup l : NoDup (tidy l).
Proof. apply dedup_sorted_NoDup. apply StronglySorted_merge_sort; apply _. Qed.
Lemma tidy_length l : (length (tidy l) <= length l)%nat.
Proof.
  unfold tidy. pose proof (dedup_length (merge_sort net_le l)) as Hd.
  by rewrite <-(Permutation_length (merge_sort_Permutation net_le l)).
Qed.

(** *** Contained prefixes *)

Lemma contained_spec l p : contained l p = true ↔ ∃ q, q ∈ l ∧ q ≠ p ∧ net_contains q p = true.
Proof.
  unfold contained. rewrite existsb_exists. split.
  - intros (q & Hq%list_elem_of_In & [Hne Hc]%andb_true_iff). exists q. split_and!; [done| |done].
    apply negb_true_iff, bool_decide_eq_false in Hne. done.
  - intros (q & Hq & Hne & Hc). exists q. rewrite <-list_elem_of_In, andb_true_iff, negb_true_iff, bool_decide_eq_false. done.
Qed.

(** The outermost prefix around an address stays. *)
Lemma outermost l p a : Forall truncated l → ip_wf a → p ∈ l → in_block p a →
  ∃ q, q ∈ l ∧ contained l q = false ∧ in_block q a.
Proof.
  intros Hl Ha. rewrite Forall_forall in Hl. remember (Z.to_nat (bits p)) as n eqn:Hn. revert p Hn.
  induction (lt_wf n) as [n _ IH]. intros p -> Hp Hin.
  destruct (contained l p) eqn:Hc; [|by exists p]. apply contained_spec in Hc as (q & Hq & Hne & Hc).
  pose proof (contains_shorter q p (Hl _ Hq) (Hl _ Hp) Hc Hne) as Hlt.
  destruct (Hl _ Hq) as [[_ Hqb] _], (Hl _ Hp) as [Hpw _].
  apply (IH (Z.to_nat (bits q)) ltac:(lia) q eq_refl Hq).
  apply (net_contains_spec q p (proj1 (Hl _ Hq)) Hpw); done.
Qed.

Lemma filter_covers l a : Forall truncated l → ip_wf a →
  covers (List.filter (fun p => negb (contained l p)) l) a ↔ covers l a.
Proof.
  intros Hl Ha. unfold covers. split.
  - intros (p & [Hp _]%list_elem_of_In%filter_In & Hin). exists p. by rewrite list_elem_of_In.
  - intros (p & Hp & Hin). destruct (outermost l p a Hl Ha Hp Hin) as (q & Hq & Hc & Hqa). exists q. split; [|done].
    apply list_elem_of_In, filter_In. rewrite <-list_elem_of_In, Hc. done.
Qed.

Lemma filter_shorter l : existsb (contained l) l = true →
  (length (List.filter (fun p => negb (contained l p)) l) < length l)%nat.
Proof.
  generalize (contained l) as f. intros f. clear. induction l as [|p l IH]; cbn; [done|].
  destruct (f p); cbn.
  - intros _. pose proof (List.filter_length_le (fun p => negb (f p)) l). lia.
  - intros Hl. apply IH in Hl. lia.
Qed.

Lemma filter_none l : existsb (contained l) l = false → List.filter (fun p => negb (contained l p)) l = l.
Proof.
  generalize (contained l) as f. intros f. clear. induction l as [|p l IH]; cbn; [done|].
  intros [Hp Hl]%orb_false_iff. by rewrite Hp, IH.
Qed.

(** Without contained prefixes, different ones are disjoint. *)
Lemma uncontained_disjoint l p q : Forall truncated l → existsb (contained l) l = false →
  p ∈ l → q ∈ l → p ≠ q → disjoint_blocks p q.
Proof.
  intros Hl Hc Hp Hq Hne. apply disjoint_not_meets. intros Hm. rewrite Forall_forall in Hl.
  destruct (Hl _ Hp) as [Hpw _], (Hl _ Hq) as [Hqw _].
  assert (∀ x, x ∈ l → contained l x = false) as Hnone.
  { intros x Hx. destruct (contained l x) eqn:E; [|done]. rewrite <-Hc. symmetry. apply existsb_exists. exists x.
    by rewrite <-list_elem_of_In. }
  destruct (Z.le_ge_cases (bits p) (bits q)) as [Hb|Hb].
  - pose proof (meets_nested p q Hpw Hqw Hm Hb) as Hn. specialize (Hnone _ Hq). rewrite <-not_true_iff_false, contained_spec in Hnone.
    apply Hnone. exists p. rewrite net_contains_spec by done. naive_solver.
  - pose proof (meets_nested q p Hqw Hpw (meets_sym _ _ Hm) Hb) as Hn. specialize (Hnone _ Hp). rewrite <-not_true_iff_false, contained_spec in Hnone.
    apply Hnone. exists q. rewrite net_contains_spec by done. naive_solver.
Qed.

(** *** Siblings *)

Lemma sibling_of_spec p k l :
  match sibling_of p k l with
  | Some j => ∃ q, (k <= j)%nat ∧ l !! (j - k)%nat = Some q ∧ is_sibling p q = true
  | None => ∀ q, q ∈ l → is_sibling p q = false
  end.
Proof.
  revert k. induction l as [|q l IH]; intros k; cbn [sibling_of]; [by intros q Hq%elem_of_nil|].
  destruct (is_sibling p q) eqn:E.
  - exists q. split_and!; [lia|by rewrite Nat.sub_diag|done].
  - specialize (IH (S k)). destruct (sibling_of p (S k) l) as [j|].
    + destruct IH as (r & Hj & Hr & Hs). exists r. split_and!; [lia| |done]. by replace (j - k)%nat with (S (j - S k)) by lia.
    + intros r [->|Hr]%elem_of_cons; [done|by apply IH].
Qed.

Lemma sibling_pair_spec k l : NoDup l →
  match sibling_pair k l with
  | Some (i, j) => ∃ p q, (k <= i < j)%nat ∧ l !! (i - k)%nat = Some p ∧ l !! (j - k)%nat = Some q ∧ is_sibling p q = true
  | None => ∀ i j p q, (i < j)%nat → l !! i = Some p → l !! j = Some q → is_sibling p q = false
  end.
Proof.
  revert k. induction l as [|p l IH]; intros k Hnd; cbn [sibling_pair]; [done|].
  apply NoDup_cons in Hnd as [_ Hnd]. pose proof (sibling_of_spec p (S k) l) as Hof.
  destruct (sibling_of p (S k) l) as [j|].
  - destruct Hof as (q & Hj & Hq & Hs). exists p, q. split_and!; [lia|lia|by rewrite Nat.sub_diag| |done].
    by replace (j - k)%nat with (S (j - S k)) by lia.
  - specialize (IH (S k) Hnd). destruct (sibling_pair (S k) l) as [[i j]|].
    + destruct IH as (p' & q & Hij & Hp & Hq & Hs). exists p', q. split_and!; [lia|lia| | |done].
      * by replace (i - k)%nat with (S (i - S k)) by lia.
      * by replace (j - k)%nat with (S (j - S k)) by lia.
    + intros [|i] [|j] p' q Hij Hp Hq; [lia| |lia|].
      * injection Hp as <-. apply Hof. by eapply list_elem_of_lookup_2.
      * apply (IH i j); [lia|done|done].
Qed.

Lemma remove_pair l i j p q : (i < j)%nat → l !! i = Some p → l !! j = Some q →
  l ≡ₚ p :: q :: remove_at i (remove_at j l).
Proof.
  intros Hij Hi Hj. unfold remove_at.
  assert (l = take j l ++ q :: drop (S j) l) as Hl by (by rewrite take_drop_middle).
  assert (take j l !! i = Some p) as Hi' by (by rewrite lookup_take_lt).
  pose proof (lookup_lt_Some _ _ _ Hi') as Hlt.
  rewrite take_app_le, drop_app_le by lia. rewrite Hl at 1.
  rewrite <-(take_drop_middle (take j l) i p Hi') at 1. rewrite <-app_assoc. cbn [app].
  rewrite <-Permutation_middle. f_equiv. rewrite app_assoc, <-Permutation_middle. by rewrite app_assoc.
Qed.

(** *** The loop *)

(** Prefixes that cannot be made fewer: different ones are disjoint and no siblings. *)
Record compacted (l : list IpPrefix) : Prop := {
  compacted_truncated : Forall truncated l;
  compacted_NoDup : NoDup l;
  compacted_apart p q : p ∈ l → q ∈ l → p ≠ q → disjoint_blocks p q ∧ is_sibling p q = false
}.

Lemma is_sibling_sym p q : prefix_wf p → prefix_wf q → is_sibling p q = is_sibling q p.
Proof.
  intros Hp Hq. apply eq_true_iff_eq. rewrite !is_sibling_spec by done. rewrite same_family_sym.
  split; intros (? & ? & Hs & E); split_and!; try done; by rewrite <-E.
Qed.

Lemma compact_step l : Forall truncated l → NoDup l → existsb (contained l) l = false →
  match sibling_pair 0 l with
  | None => compacted l
  | Some (i, j) => ∃ p s rest, l !! i = Some p ∧ supernet p = Some s ∧
      remove_at i (remove_at j l) = rest ∧ (length (rest ++ [s]) < length l)%nat ∧ Forall truncated (rest ++ [s]) ∧
      ∀ a, covers (rest ++ [s]) a ↔ covers l a
  end.
Proof.
  intros Hl Hnd Hc. pose proof (sibling_pair_spec 0 l Hnd) as Hp. destruct (sibling_pair 0 l) as [[i j]|].
  - destruct Hp as (p & q & Hij & Hi & Hj & Hs). rewrite !Nat.sub_0_r in *.
    pose proof (remove_pair l i j p q ltac:(lia) Hi Hj) as Hperm. set (rest := remove_at i (remove_at j l)) in *.
    assert (p ≠ q) as Hne.
    { intros ->. pose proof (NoDup_lookup _ _ _ _ Hnd Hi Hj). lia. }
    assert (truncated p ∧ truncated q) as [Htp Htq].
    { rewrite Forall_forall in Hl. split; apply Hl; by eapply list_elem_of_lookup_2. }
    destruct (sibling_union p q Htp Htq Hne Hs) as (s & Hsup & Hts & Hun).
    exists p, s, rest. split_and!; [done|done|done| | |].
    + rewrite length_app, (Permutation_length Hperm). cbn. lia.
    + apply Forall_app. split; [|by constructor]. rewrite Hperm in Hl. by do 2 apply Forall_cons in Hl as [_ Hl].
    + intros a. unfold covers. setoid_rewrite Hperm. setoid_rewrite elem_of_app. setoid_rewrite elem_of_cons.
      setoid_rewrite elem_of_cons. setoid_rewrite elem_of_nil. split.
      * intros (x & [Hx|[->|[]]] & Ha); [eauto 6|]. apply Hun in Ha as [Ha|Ha]; eauto 6.
      * intros (x & [->|[->|Hx]] & Ha); [exists s|exists s|exists x]; rewrite ?Hun; auto 6.
  - split; [done|done|]. intros p q Hpl Hql Hne. split; [by eapply uncontained_disjoint|].
    apply list_elem_of_lookup_1 in Hpl as [i Hi]. apply list_elem_of_lookup_1 in Hql as [j Hj].
    destruct (Nat.lt_trichotomy i j) as [Hij|[->|Hij]]; [by eapply Hp|congruence|].
    rewrite Forall_forall in Hl. rewrite is_sibling_sym; [by eapply Hp| |]; apply Hl; by eapply list_elem_of_lookup_2.
Qed.

Lemma compact_prefixes_loop_exact fuel l : Forall truncated l → (length l < fuel)%nat →
  ∃ out, compact_prefixes_loop fuel l = Ok out ∧ compacted out ∧ (length out <= length l)%nat ∧
    ∀ a, ip_wf a → covers out a ↔ covers l a.
Proof.
  revert l. induction fuel as [|fuel IH]; intros l Hl Hf; [lia|]. cbn [compact_prefixes_loop]. cbv zeta. fold (tidy l).
  pose proof (tidy_length l) as Hlen.
  assert (Forall truncated (tidy l)) as Ht.
  { apply Forall_forall. intros p Hp. rewrite tidy_elem in Hp. rewrite Forall_forall in Hl. exact (Hl p Hp). }
  assert (∀ a, covers (tidy l) a ↔ covers l a) as Hcov.
  { intros a. unfold covers. by setoid_rewrite tidy_elem. }
  destruct (existsb (contained (tidy l)) (tidy l)) eqn:Hc.
  - pose proof (filter_shorter _ Hc) as Hsh. destruct (IH (List.filter (λ p, negb (contained (tidy l) p)) (tidy l))) as (out & Ho & Hcomp & Hol & Hco).
    + apply Forall_forall. intros p [Hp _]%list_elem_of_In%filter_In. rewrite Forall_forall in Ht. by apply Ht, list_elem_of_In.
    + lia.
    + exists out. split_and!; [done|done|lia|]. intros a Ha. by rewrite Hco, filter_covers, Hcov.
  - rewrite filter_none by done. pose proof (compact_step _ Ht (tidy_NoDup l) Hc) as Hstep.
    destruct (sibling_pair 0 (tidy l)) as [[i j]|].
    + destruct Hstep as (p & s & rest & Hi & Hs & -> & Hlt & Htr & Hcv). rewrite Hi. cbn [expect mbind result_bind]. rewrite Hs. change (option_list (Some s)) with [s].
      destruct (IH (rest ++ [s]) Htr ltac:(lia)) as (out & Ho & Hcomp & Hol & Hco).
      exists out. split_and!; [done|done|lia|]. intros a Ha. by rewrite Hco, Hcv, Hcov.
    + exists (tidy l). split_and!; [done|done|lia|]. intros a _. apply Hcov.
Qed.

Lemma compact_prefixes_spec prefixes : Forall prefix_wf prefixes →
  ∃ out, compact_prefixes prefixes = Ok out ∧ compacted out ∧ (length out <= length prefixes)%nat ∧
    ∀ a, ip_wf a → covers out a ↔ covers prefixes a.
Proof.
  intros Hwf. unfold compact_prefixes. rewrite Forall_forall in Hwf.
  destruct (compact_prefixes_loop_exact (S (length prefixes)) (map trunc prefixes)) as (out & Ho & Hc & Hlen & Hcov).
  - apply Forall_forall. intros p (q & -> & Hq)%list_elem_of_fmap. by apply trunc_truncated, Hwf.
  - rewrite length_map. lia.
  - rewrite length_map in Hlen. exists out. split_and!; [done|done|done|].
    intros a Ha. rewrite Hcov by done. unfold covers. split.
    + intros (p & (q & -> & Hq)%list_elem_of_fmap & Hin). exists q. split; [done|]. by apply trunc_truncated; [apply Hwf|].
    + intros (p & Hp & Hin). exists (trunc p). split; [by apply list_elem_of_fmap_2|]. by apply trunc_truncated; [apply Hwf|].
Qed.

(** C20: [compact_prefixes] always ends, and returns prefixes with exactly the addresses of
    those given, no more of them than were given: every address of a peer is routed and no
    other.  They cannot be merged further: different ones have no address in common, and no
    two are the halves of one network. *)
Theorem compact_prefixes_exact (prefixes : list IpPrefix) : Forall prefix_wf prefixes →
  ∃ out, compact_prefixes prefixes = Ok out ∧ (∀ a, ip_wf a → covers out a ↔ covers prefixes a) ∧
    (length out <= length prefixes)%nat ∧ NoDup out ∧
    ∀ p q, p ∈ out → q ∈ out → p ≠ q → disjoint_blocks p q ∧ is_sibling p q = false.
Proof.
  intros Hwf. destruct (compact_prefixes_spec prefixes Hwf) as (out & Ho & [] & Hlen & Hcov). exists out. by split_and!.
Qed.
End compact.

(** ** Keys in JSON *)

(** A key that is absent comes back as one that is there and empty, so that after a
    reload [is_configured] no longer looks at the keys. *)
Lemma optional_secret_reload `{HexLib} (key : option Secret) :
  optional_secret_deserialize (optional_secret_serialize key) = Ok (Some (Some (from_option as_bytes [] key))).
Proof.
  destruct key as [key|]; [|done]. unfold optional_secret_deserialize, optional_secret_serialize. cbn [from_option].
  by rewrite (proj1 hex_text_exact).
Qed.

Definition with_keys (private_key public_key : option Secret) (c : Config) : Config :=
  mk_Config (cfg_subnet c) (cfg_management_ip c) (cfg_wire_guard_port c) (cfg_mtu c) private_key public_key (cfg_endpoints c) (cfg_peers c).

Lemma reloaded_is_configured `{HexLib} config private_key public_key :
  optional_secret_deserialize (optional_secret_serialize (cfg_private_key config)) = Ok private_key →
  optional_secret_deserialize (optional_secret_serialize (cfg_public_key config)) = Ok public_key →
  is_configured (with_keys private_key public_key config) =
    bool_decide (is_Some (cfg_subnet config)) && bool_decide (is_Some (cfg_management_ip config)).
Proof.
  rewrite !optional_secret_reload. intros [= <-] [= <-]. unfold is_configured. cbn.
  by rewrite !andb_true_r.
Qed.

(** ** Running *)

Section running.
Context {W : Type}.
Implicit Types s : State * W.

Lemma bind_ok {A B} (m : net W A) (k : A → net W B) s b s' :
  (m ≫= k) s = (Ok b, s') → ∃ a s1, m s = (Ok a, s1) ∧ k a s1 = (Ok b, s').
Proof. unfold mbind, net_bind. destruct (m s) as [[a|e|p] s1]; try done. eauto. Qed.

Lemma of_result_ok {A} (r : result NetworkError A) s a s' : of_result r s = (Ok a, s') → r = Ok a ∧ s' = s.
Proof. unfold of_result. by intros [= -> ->]. Qed.

Lemma ask_ok {A} (f : W → A * W) st w a s' : ask f (st, w) = (Ok a, s') → ∃ w', f w = (a, w') ∧ s' = (st, w').
Proof. unfold ask. cbn. destruct (f w) as [a' w'] eqn:E. intros [= <- <-]. eauto. Qed.

Lemma call_io_ok context (f : W → option string * W) st w u s' :
  call_io context f (st, w) = (Ok u, s') → ∃ w', f w = (None, w') ∧ s' = (st, w').
Proof.
  intros (error & s1 & (w' & Hf & ->)%ask_ok & Hr)%bind_ok. destruct error; apply of_result_ok in Hr as [Hr ->]; [done|]. eauto.
Qed.
Lemma call_nl_ok context (f : W → option NlError * W) st w u s' :
  call_nl context f (st, w) = (Ok u, s') → ∃ w', f w = (None, w') ∧ s' = (st, w').
Proof.
  intros (error & s1 & (w' & Hf & ->)%ask_ok & Hr)%bind_ok. destruct error; apply of_result_ok in Hr as [Hr ->]; [done|]. eauto.
Qed.

(** A sweep keeps the messages that are wanted and removes the others. *)
Lemma sweep {M} (V : W → list M) (F : W → W → Prop) (good : M → bool) (remove : M → net W ()) :
  (∀ w, F w w) → (∀ a b c, F a b → F b c → F a c) →
  (∀ m st w s', remove m (st, w) = (Ok (), s') → m ∈ V w →
     ∃ w', s' = (st, w') ∧ F w w' ∧ if good m then V w' ≡ₚ V w else V w ≡ₚ m :: V w') →
  ∀ l kept st w s', for_each remove l (st, w) = (Ok (), s') → V w ≡ₚ kept ++ l →
    ∃ w', s' = (st, w') ∧ F w w' ∧ V w' ≡ₚ kept ++ List.filter good l.
Proof.
  intros Hrefl Htrans Hstep l. induction l as [|m l IH]; intros kept st w s' Hr Hp; cbn [for_each] in Hr.
  - injection Hr as <-. cbn. eauto.
  - apply bind_ok in Hr as ([] & s1 & Hm & Hr).
    destruct (Hstep _ _ _ _ Hm) as (w1 & -> & HF & HV); [rewrite Hp; set_solver|]. cbn [List.filter].
    destruct (good m).
    + destruct (IH (kept ++ [m]) _ _ _ Hr) as (w2 & -> & HF2 & HV2).
      { rewrite HV, Hp, <-app_assoc. done. }
      exists w2. split_and!; [done|eauto|]. rewrite HV2, <-app_assoc. done.
    + destruct (IH kept _ _ _ Hr) as (w2 & -> & HF2 & HV2).
      { apply (Permutation_cons_inv (a := m)). rewrite <-HV, Hp. by rewrite Permutation_middle. }
      exists w2. split_and!; [done|eauto|done].
Qed.
End running.

(** ** What the kernel does *)

(** The peers of the device, the addresses of the links and the routes of both families. *)
Record KernelView := mk_KernelView {
  v_device : list WireGuardPeer; v_addresses : Z → list AddressMessage; v_routes : bool → list RouteMessage
}.

(** A network as the kernel keeps it: without host bits. *)
Definition masked (net : IpAddr * Z) : IpAddr * Z := (ip_like net.1 (block_start (mk_IpPrefix net.1 net.2)), net.2).

(** The effect of a device update whose peers are different: a removed peer is gone; a peer
    that may be created, and whose allowed networks no other peer is given, has exactly
    these networks, masked and in whatever order, and the keepalive and endpoint that are
    given; and no other peer appears. *)
Definition creates (x : PeerUpdate) : Prop := PF_RemoveMe ∉ pu_flags x ∧ PF_UpdateOnly ∉ pu_flags x.
Definition shares_allowed (x y : PeerUpdate) : Prop :=
  ∃ net, net ∈ map masked (pu_allowed_ips x) ∧ net ∈ map masked (pu_allowed_ips y).
Record device_updated (u : DeviceUpdate) (before after : list WireGuardPeer) : Prop := {
  updated_removed x p : x ∈ du_peers u → PF_RemoveMe ∈ pu_flags x → p ∈ after → wp_public_key p ≠ pu_public_key x;
  updated_created x : x ∈ du_peers u → creates x →
    (∀ y, y ∈ du_peers u → y ≠ x → ¬ shares_allowed x y) → PF_ReplaceAllowedIps ∈ pu_flags x →
    Forall (fun net => prefix_wf (mk_IpPrefix net.1 net.2)) (pu_allowed_ips x) →
    ∃ p, p ∈ after ∧ wp_public_key p = pu_public_key x ∧
      (∀ net, net ∈ wp_allowed_ips p ↔ net ∈ map masked (pu_allowed_ips x)) ∧
      (∀ k, pu_keepalive x = Some k → 0 < k → wp_keepalive p = Some k) ∧
      (is_Some (pu_endpoint x) → wp_endpoint p = pu_endpoint x);
  updated_only p : p ∈ after →
    (∃ q, q ∈ before ∧ wp_public_key q = wp_public_key p) ∨
    ∃ x, x ∈ du_peers u ∧ creates x ∧ pu_public_key x = wp_public_key p
}.

Definition main_table (route : RouteMessage) : bool :=
  default (rm_table route) (find_map (fun a => match a with RA_Table table => Some table | _ => None end) (rm_attributes route))
  =? RT_TABLE_MAIN.

(** What the calls that succeed do, as netlink and the WireGuard protocol document it.  A
    route that already exists may be one of another link; an MTU under the least of IPv6
    takes a link's addresses away, and so is not promised to keep them; the removal of an
    address promotes those that depend on it. *)
Class KernelLaws (W : Type) `{IpNetLib} `{!Kernel W} := {
  view : W → KernelView;
  now_view w : view (now w).2 = view w;
  wg_connect_view w : view (wg_connect w).2 = view w;
  nl_connect_view w : view (nl_connect w).2 = view w;
  link_get_view index w : view (link_get index w).2 = view w;
  wg_get_device_law w peers w' : wg_get_device w = (inr peers, w') → peers = v_device (view w) ∧ view w' = view w;
  wg_set_device_law u w w' : wg_set_device u w = (None, w') → NoDup (map pu_public_key (du_peers u)) →
    device_updated u (v_device (view w)) (v_device (view w'));
  device_keys w : NoDup (map wp_public_key (v_device (view w)));
  address_add_law index ip len w : prefix_wf (mk_IpPrefix ip len) →
    match address_add index ip len w with
    | (None, w') => v_device (view w') = v_device (view w) ∧
        ∃ m, v_addresses (view w') index ≡ₚ m :: v_addresses (view w) index ∧
          address_message_prefix m = Ok (trunc (mk_IpPrefix ip len))
    | (Some e, w') => is_eexist e = true → view w' = view w ∧
        ∃ m, m ∈ v_addresses (view w) index ∧ address_message_prefix m = Ok (trunc (mk_IpPrefix ip len))
    end;
  address_list_law index w l w' : address_list index w = ((l, None), w') →
    l ≡ₚ v_addresses (view w) index ∧ view w' = view w;
  address_index w index m : m ∈ v_addresses (view w) index → adm_index m = index;
  address_del_law m w w' : address_del m w = (None, w') → m ∈ v_addresses (view w) (adm_index m) →
    v_device (view w') = v_device (view w) ∧
    v_addresses (view w) (adm_index m) ≡ₚ m :: v_addresses (view w') (adm_index m);
  link_set_mtu_law index mtu w w' : link_set_mtu index mtu w = (None, w') → MIN_WIREGUARD_MTU <= mtu →
    v_device (view w') = v_device (view w) ∧ v_addresses (view w') = v_addresses (view w);
  link_set_up_law index w w' : link_set_up index w = (None, w') →
    v_device (view w') = v_device (view w) ∧ v_addresses (view w') = v_addresses (view w);
  route_add_law r w : prefix_wf (mk_IpPrefix (nr_destination r) (nr_prefix_len r)) →
    let family := is_ipv6 (nr_destination r) in
    let prefix := trunc (mk_IpPrefix (nr_destination r) (nr_prefix_len r)) in
    match route_add r w with
    | (None, w') => v_device (view w') = v_device (view w) ∧ v_addresses (view w') = v_addresses (view w) ∧
        v_routes (view w') (negb family) = v_routes (view w) (negb family) ∧
        ∃ m, v_routes (view w') family ≡ₚ m :: v_routes (view w) family ∧
          main_table m = true ∧ route_message_prefix m = Ok prefix
    | (Some e, w') => is_eexist e = true → view w' = view w ∧
        ∃ m, m ∈ v_routes (view w) family ∧ main_table m = true ∧ route_message_prefix m = Ok prefix
    end;
  route_list_law family w l w' : route_list family w = ((l, None), w') →
    l ≡ₚ v_routes (view w) family ∧ view w' = view w;
  route_del_law family m w w' : route_del m w = (None, w') → m ∈ v_routes (view w) family →
    v_device (view w') = v_device (view w) ∧ v_addresses (view w') = v_addresses (view w) ∧
    v_routes (view w') (negb family) = v_routes (view w) (negb family) ∧
    v_routes (view w) family ≡ₚ m :: v_routes (view w') family
}.

Section laws.
Context `{IpNetLib} `{HexLib} `{HashOrder} {W : Type} `{!Kernel W} `{!KernelLaws W}.

(** *** Addresses *)

Definition same_device (w w' : W) : Prop := v_device (view w') = v_device (view w).

Lemma add_address_ok index p st w s' : prefix_wf p → add_address index p (st, w) = (Ok (), s') →
  ∃ w', s' = (st, w') ∧ same_device w w' ∧
    (∀ m, m ∈ v_addresses (view w) index → m ∈ v_addresses (view w') index) ∧
    ∃ m, m ∈ v_addresses (view w') index ∧ address_message_prefix m = Ok (trunc p).
Proof.
  intros Hp (error & s1 & (w' & Hf & ->)%ask_ok & Hr)%bind_ok. destruct p as [ip len].
  pose proof (address_add_law index ip len w Hp) as Hlaw. cbn [Ipam.address bits] in Hf. rewrite Hf in Hlaw.
  destruct error as [e|]; apply of_result_ok in Hr as [Hr ->]; exists w'.
  - destruct (is_eexist e); [|done]. destruct (Hlaw eq_refl) as (Hv & m & Hm & Hpm).
    unfold same_device. rewrite Hv. eauto 6.
  - destruct Hlaw as (Hd & m & Hperm & Hpm). split_and!; [done|done| |].
    + intros m' Hm'. rewrite Hperm. set_solver.
    + exists m. split; [rewrite Hperm; set_solver|done].
Qed.

Lemma add_addresses_ok index l st w s' : Forall prefix_wf l → for_each (add_address index) l (st, w) = (Ok (), s') →
  ∃ w', s' = (st, w') ∧ same_device w w' ∧
    (∀ m, m ∈ v_addresses (view w) index → m ∈ v_addresses (view w') index) ∧
    ∀ p, p ∈ l → ∃ m, m ∈ v_addresses (view w') index ∧ address_message_prefix m = Ok (trunc p).
Proof.
  intros Hl. revert w. induction Hl as [|p l Hp Hl IH]; intros w Hr; cbn [for_each] in Hr.
  - injection Hr as <-. exists w. split_and!; [done|done|done|]. by intros p ?%elem_of_nil.
  - apply bind_ok in Hr as ([] & s1 & Ha & Hr). destruct (add_address_ok _ _ _ _ _ Hp Ha) as (w1 & -> & Hd1 & Hk1 & m & Hm & Hpm).
    destruct (IH w1 Hr) as (w2 & -> & Hd2 & Hk2 & Hall). exists w2. unfold same_device in *. split_and!; [done|congruence|eauto|].
    intros q [->|Hq]%elem_of_cons; [eauto|by apply Hall].
Qed.

(** The addresses of the link are those that were asked for. *)
Lemma update_addresses_exact index addresses st w s' : Forall truncated addresses →
  update_addresses index addresses (st, w) = (Ok (), s') →
  ∃ w', s' = (st, w') ∧ same_device w w' ∧
    (∀ m, m ∈ v_addresses (view w') index → ∃ p, address_message_prefix m = Ok p ∧ p ∈ addresses) ∧
    ∀ p, p ∈ addresses → ∃ m, m ∈ v_addresses (view w') index ∧ address_message_prefix m = Ok p.
Proof.
  intros Hl. assert (Forall prefix_wf addresses) as Hwf by (eapply Forall_impl; [exact Hl|]; by intros ? []).
  intros ([] & s1 & Hadd & Hr)%bind_ok. destruct (add_addresses_ok _ _ _ _ _ Hwf Hadd) as (w1 & -> & Hd1 & _ & Hall).
  apply bind_ok in Hr as ([l error] & s2 & (w2 & Hlist & ->)%ask_ok & Hr).
  apply bind_ok in Hr as ([] & s3 & Hsweep & Hr).
  destruct error as [e|]; apply of_result_ok in Hr as [Hr ->]; [done|].
  destruct (address_list_law _ _ _ _ Hlist) as [Hperm Hview].
  set (good m := match address_message_prefix m with Ok p => bool_decide (p ∈ addresses) | _ => false end).
  destruct (sweep (fun w => v_addresses (view w) index) same_device good (remove_address addresses))
    with (l := l) (kept := @nil AddressMessage) (st := st) (w := w2) (s' := s3) as (w3 & -> & Hd3 & Hv3).
  { done. }
  { unfold same_device. congruence. }
  { intros m st' w4 s' (p & s4 & [Hp ->]%of_result_ok & Hrun)%bind_ok Hin. unfold good. rewrite Hp. case_bool_decide as Hg.
    - injection Hrun as <-. exists w4. done.
    - apply call_nl_ok in Hrun as (w' & Hdel & ->). pose proof (address_index _ _ _ Hin) as Hi. rewrite <-Hi in Hin.
      destruct (address_del_law _ _ _ Hdel Hin) as [Hdv Hpm]. rewrite Hi in Hpm. exists w'. done. }
  { done. }
  { by rewrite Hview, Hperm. }
  cbn [app] in Hv3.
  exists w3. unfold same_device in *. split_and!; [done|congruence| |].
  - intros m Hm. rewrite Hv3 in Hm. apply list_elem_of_In, filter_In in Hm as [_ Hg]. unfold good in Hg.
    destruct (address_message_prefix m) as [p| |]; try done. exists p. split; [done|]. by apply bool_decide_eq_true in Hg.
  - intros p Hp. destruct (Hall p Hp) as (m & Hm & Hpm). exists m.
    rewrite Forall_forall in Hl. rewrite (trunc_id p (Hl p Hp)) in Hpm. split; [|done].
    rewrite Hv3. apply list_elem_of_In, filter_In. split; [apply list_elem_of_In; by rewrite Hperm|].
    unfold good. rewrite Hpm. by apply bool_decide_eq_true.
Qed.

(** *** Routes *)

Definition same_link (w w' : W) : Prop :=
  v_device (view w') = v_device (view w) ∧ v_addresses (view w') = v_addresses (view w).
Definition routed (w : W) (p : IpPrefix) : Prop :=
  ∃ m, m ∈ v_routes (view w) (is_ipv6 (address p)) ∧ main_table m = true ∧ route_message_prefix m = Ok p.

Lemma add_route_ok index source p st w s' : truncated p → add_route index source p (st, w) = (Ok (), s') →
  ∃ w', s' = (st, w') ∧ same_link w w' ∧ (∀ f m, m ∈ v_routes (view w) f → m ∈ v_routes (view w') f) ∧ routed w' p.
Proof.
  intros Ht (r & s1 & [Hnew ->]%of_result_ok & Hr)%bind_ok. apply bind_ok in Hr as (error & s2 & (w' & Hadd & ->)%ask_ok & Hr).
  assert (nr_destination r = address p ∧ nr_prefix_len r = bits p) as [Hdest Hlen].
  { unfold new_route in Hnew. rewrite (trunc_id p Ht) in Hnew. destruct (address p), source; try discriminate Hnew; injection Hnew as <-; done. }
  pose proof (route_add_law r w) as Hlaw. cbv zeta in Hlaw. rewrite Hdest, Hlen, Hadd in Hlaw.
  assert (mk_IpPrefix (address p) (bits p) = p) as Hp by (by destruct p). rewrite Hp, (trunc_id p Ht) in Hlaw.
  specialize (Hlaw (proj1 Ht)). destruct error as [e|]; apply of_result_ok in Hr as [Hr ->]; exists w'.
  - destruct (is_eexist e); [|done]. destruct (Hlaw eq_refl) as (Hv & m & Hm). unfold same_link, routed. rewrite Hv. eauto 7.
  - destruct Hlaw as (Hd & Ha & Hother & m & Hperm & Hm). split_and!; [done|done| |].
    + intros f m' Hm'. destruct (decide (f = is_ipv6 (address p))) as [->|Hf]; [rewrite Hperm; set_solver|].
      assert (f = negb (is_ipv6 (address p))) as -> by (by destruct f, (is_ipv6 (address p))). by rewrite Hother.
    + exists m. split; [rewrite Hperm; set_solver|done].
Qed.

Lemma add_routes_ok index source l st w s' : Forall truncated l → for_each (add_route index source) l (st, w) = (Ok (), s') →
  ∃ w', s' = (st, w') ∧ same_link w w' ∧ (∀ f m, m ∈ v_routes (view w) f → m ∈ v_routes (view w') f) ∧
    ∀ p, p ∈ l → routed w' p.
Proof.
  intros Hl. revert w. induction Hl as [|p l Hp Hl IH]; intros w Hr; cbn [for_each] in Hr.
  - injection Hr as <-. exists w. split_and!; [done|done|done|]. by intros p ?%elem_of_nil.
  - apply bind_ok in Hr as ([] & s1 & Ha & Hr). destruct (add_route_ok _ _ _ _ _ _ Hp Ha) as (w1 & -> & [Hd1 Hl1] & Hk1 & m & Hm & Hpm).
    destruct (IH w1 Hr) as (w2 & -> & [Hd2 Hl2] & Hk2 & Hall). exists w2. unfold same_link in *. split_and!; [done|congruence|congruence|eauto|].
    intros q [->|Hq]%elem_of_cons; [exists m; eauto|by apply Hall].
Qed.

(** A route may stay when it is not one of the link, or leads to one of the prefixes. *)
Definition route_wanted (index : Z) (prefixes : list IpPrefix) (m : RouteMessage) : bool :=
  negb (route_on_link index m)
  || match route_message_prefix m with Ok p => bool_decide (p ∈ prefixes) | _ => false end.

Lemma remove_routes_ok index prefixes family st w s' : remove_routes index prefixes family (st, w) = (Ok (), s') →
  ∃ w', s' = (st, w') ∧ same_link w w' ∧ v_routes (view w') (negb family) = v_routes (view w) (negb family) ∧
    v_routes (view w') family ≡ₚ List.filter (route_wanted index prefixes) (v_routes (view w) family).
Proof.
  intros ([l error] & s2 & (w2 & Hlist & ->)%ask_ok & Hr)%bind_ok. apply bind_ok in Hr as ([] & s3 & Hsweep & Hr).
  destruct error as [e|]; apply of_result_ok in Hr as [Hr ->]; [done|].
  destruct (route_list_law _ _ _ _ Hlist) as [Hperm Hview].
  set (F w w' := same_link w w' ∧ v_routes (view w') (negb family) = v_routes (view w) (negb family)).
  destruct (sweep (fun w => v_routes (view w) family) F (route_wanted index prefixes) (remove_route index prefixes))
    with (l := l) (kept := @nil RouteMessage) (st := st) (w := w2) (s' := s3) as (w3 & -> & [Hd3 Ho3] & Hv3).
  { done. }
  { unfold F, same_link. intros a b c ((? & ?) & ?) ((? & ?) & ?). split_and!; congruence. }
  { intros m st' w4 s' Hrun Hin. unfold remove_route in Hrun. unfold route_wanted.
    destruct (route_on_link index m); cbn [negb orb] in *; [|injection Hrun as <-; by exists w4].
    apply bind_ok in Hrun as (p & s5 & [Hp ->]%of_result_ok & Hrun). rewrite Hp. case_bool_decide.
    - injection Hrun as <-. by exists w4.
    - apply call_nl_ok in Hrun as (w' & Hdel & ->). destruct (route_del_law _ _ _ _ Hdel Hin) as (? & ? & ? & ?).
      exists w'. unfold F, same_link. eauto. }
  { done. }
  { by rewrite Hview, Hperm. }
  exists w3. unfold F, same_link in *. rewrite Hview in *. split_and!; [done|apply Hd3|apply Hd3|done|].
  rewrite Hv3. cbn [app]. clear -Hperm. induction Hperm as [|x l l' Hp IH|x y l|l l' l'' H1 IH1 H2 IH2]; cbn.
  - done.
  - destruct (route_wanted index prefixes x); by rewrite IH.
  - destruct (route_wanted index prefixes x), (route_wanted index prefixes y); done || apply perm_swap.
  - by rewrite IH1.
Qed.

Lemma update_peer_routes_exact index source peers st w s' l :
  all_prefixes (hash_iter peers) = Ok l → Forall prefix_wf l →
  update_peer_routes index source peers (st, w) = (Ok (), s') →
  ∃ w' out, s' = (st, w') ∧ same_link w w' ∧ Forall truncated out ∧ (∀ a, ip_wf a → covers out a ↔ covers l a) ∧
    (∀ p, p ∈ out → routed w' p) ∧
    ∀ f m, m ∈ v_routes (view w') f → route_on_link index m = true → ∃ p, route_message_prefix m = Ok p ∧ p ∈ out.
Proof.
  intros Hall Hwf Hrun. unfold update_peer_routes in Hrun. rewrite Hall in Hrun.
  apply bind_ok in Hrun as (l' & s1 & [[= <-] ->]%of_result_ok & Hrun).
  apply bind_ok in Hrun as (out & s1 & [Hout ->]%of_result_ok & Hrun).
  assert (compact_prefixes l = Ok out) as Hc by (by destruct (compact_prefixes l); [injection Hout as <-| |]).
  destruct (compact_prefixes_spec l Hwf) as (out' & Hc' & [Ht _ _] & _ & Hcov).
  assert (out' = out) as -> by congruence.
  apply bind_ok in Hrun as ([] & s1 & Hadd & Hrun). destruct (add_routes_ok _ _ _ _ _ _ Ht Hadd) as (w1 & -> & Hl1 & _ & Hr1).
  apply bind_ok in Hrun as ([] & s1 & H4 & H6).
  destruct (remove_routes_ok _ _ _ _ _ _ H4) as (w2 & -> & Hl2 & Ho2 & Hv2).
  destruct (remove_routes_ok _ _ _ _ _ _ H6) as (w3 & -> & Hl3 & Ho3 & Hv3). cbn [negb] in *.
  assert (∀ f, v_routes (view w3) f ≡ₚ List.filter (route_wanted index out) (v_routes (view w1) f)) as Hv.
  { intros []; [by rewrite Hv3, Ho2|by rewrite Ho3]. }
  exists w3, out. unfold same_link in *. split_and!; [done|destruct Hl1, Hl2, Hl3; congruence|destruct Hl1, Hl2, Hl3; congruence|done|done| |].
  - intros p Hp. destruct (Hr1 p Hp) as (m & Hm & Hmain & Hpm). exists m. split_and!; [|done|done].
    rewrite Hv. apply list_elem_of_In, filter_In. rewrite <-list_elem_of_In. split; [done|].
    unfold route_wanted. rewrite Hpm, (bool_decide_eq_true_2 (p ∈ out)) by done. apply orb_true_r.
  - intros f m Hm Hon. rewrite Hv in Hm. apply list_elem_of_In, filter_In in Hm as [_ Hw]. unfold route_wanted in Hw.
    rewrite Hon in Hw. cbn [negb orb] in Hw. destruct (route_message_prefix m) as [p| |]; try done.
    exists p. split; [done|]. by apply bool_decide_eq_true in Hw.
Qed.

(** *** The device *)

Lemma mapM_ok {E A B} (f : A → result E B) l l' : mapM f l = Ok l' → Forall2 (fun x y => f x = Ok y) l l'.
Proof.
  revert l'. induction l as [|x l IH]; intros l'; cbn [mapM]; [by intros [= <-]; constructor|].
  destruct (f x) as [y|e|m] eqn:Ef; cbn [mbind result_bind]; try done.
  change (mapM f l) with (mapM f l). destruct (mapM f l) as [k|e|m] eqn:Em; cbn [mbind result_bind]; try done.
  intros [= <-]. constructor; [done|by apply IH].
Qed.

(** What is set of a configured peer. *)
Definition peer_set (pc : PeerConfig) (x : PeerUpdate) : Prop :=
  ∃ key, pc_public_key pc = Some key ∧ pu_public_key x = as_bytes key ∧ pu_flags x = [PF_ReplaceAllowedIps] ∧
    pu_endpoint x = arc_val <$> pc_endpoint pc ∧ pu_keepalive x = Some WIREGUARD_KEEPALIVE_SECONDS ∧
    allowed_ip_values pc = Ok (pu_allowed_ips x).

Lemma peer_update_set pc allowed x : allowed_ip_values pc = Ok allowed → peer_update pc allowed = Ok x → peer_set pc x.
Proof.
  intros Ha Hx. unfold peer_update in Hx. destruct (pc_public_key pc) as [key|] eqn:Ek; [|done]. cbn in Hx.
  unfold key_from_secret in Hx. destruct (_ =? 32)%nat; [|done]. injection Hx as <-. exists key. by split_and!.
Qed.

Lemma device_update_ok config current u : device_update config current = Ok u →
  ∃ updates, Forall2 peer_set (cfg_peers config) updates ∧ du_peers u = updates ++ peer_removals updates current.
Proof.
  unfold device_update. destruct (cfg_private_key config) as [key|]; [|done]. cbn.
  destruct (key_from_secret key _) as [k| |]; try done. cbn. destruct (negb _); [done|].
  destruct (mapM allowed_ip_values (cfg_peers config)) as [allowed| |] eqn:Ea; try done. cbn.
  destruct (mapM _ (zip (cfg_peers config) allowed)) as [updates| |] eqn:Eu; try done. cbn. intros [= <-].
  exists updates. split; [|done]. apply mapM_ok in Ea. apply mapM_ok in Eu. clear -Ea Eu. revert updates Eu.
  induction Ea as [|pc a peers allowed Hpc Ha IH]; intros updates Hu; cbn [zip zip_with] in Hu.
  - by inversion Hu.
  - inversion Hu as [|? x ? updates' Hx Hrest]; subst. constructor; [by eapply peer_update_set|by apply IH].
Qed.

Lemma removals_spec updates current x : x ∈ peer_removals updates current →
  pu_flags x = [PF_RemoveMe] ∧ pu_allowed_ips x = [] ∧ pu_public_key x ∈ map wp_public_key current ∧
  pu_public_key x ∉ map pu_public_key updates.
Proof.
  unfold peer_removals. rewrite list_elem_of_omap. intros (p & Hp & Hx).
  destruct (existsb _ updates) eqn:E; [done|]. injection Hx as <-. cbn. split_and!; [done|done|by apply list_elem_of_fmap_2|].
  intros (y & Hk & Hy)%list_elem_of_fmap. rewrite <-not_true_iff_false in E. apply E, existsb_exists. exists y.
  rewrite <-list_elem_of_In. split; [done|]. apply bool_decide_eq_true. done.
Qed.

Lemma removals_keys updates current : map pu_public_key (peer_removals updates current) `sublist_of` map wp_public_key current.
Proof.
  induction current as [|p current IH]; [done|]. cbn [peer_removals omap list_omap map].
  destruct (existsb _ updates); cbn [map]; [by apply sublist_cons|by apply sublist_skip].
Qed.

Lemma removals_complete updates current p : p ∈ current → wp_public_key p ∉ map pu_public_key updates →
  ∃ x, x ∈ peer_removals updates current ∧ pu_public_key x = wp_public_key p.
Proof.
  intros Hp Hn. exists (mk_PeerUpdate (wp_public_key p) [PF_RemoveMe] None None []). split; [|done].
  unfold peer_removals. apply list_elem_of_omap. exists p. split; [done|].
  destruct (existsb _ updates) eqn:E; [|done]. exfalso. apply Hn. apply existsb_exists in E as (y & Hy & Hk%bool_decide_eq_true).
  rewrite <-Hk. apply list_elem_of_fmap_2. by rewrite list_elem_of_In.
Qed.

(** The key of a configured peer. *)
Definition config_key (pc : PeerConfig) : option (list byte) := as_bytes <$> pc_public_key pc.
(** Different peers share no allowed network. *)
Definition allowed_apart (peers : list PeerConfig) : Prop :=
  ∀ pc pc' l l' net, pc ∈ peers → pc' ∈ peers → pc ≠ pc' → allowed_ip_values pc = Ok l → allowed_ip_values pc' = Ok l' →
    net ∈ map masked l → net ∉ map masked l'.
(** The addresses of a peer are in range. *)
Definition peer_wf (pc : PeerConfig) : Prop :=
  (∀ ip, pc_management_ip pc = Some ip → ip_wf ip) ∧ ∀ p, pc_subnet pc = Some p → prefix_wf p.
(** A device has exactly the configured peers, each with exactly its allowed networks. *)
Definition device_matches (peers : list PeerConfig) (device : list WireGuardPeer) : Prop :=
  (∀ p, p ∈ device → ∃ pc, pc ∈ peers ∧ config_key pc = Some (wp_public_key p)) ∧
  (∀ pc, pc ∈ peers → ∃ p, p ∈ device ∧ config_key pc = Some (wp_public_key p) ∧
     (∃ l, allowed_ip_values pc = Ok l ∧ ∀ net, net ∈ wp_allowed_ips p ↔ net ∈ map masked l) ∧
     wp_keepalive p = Some WIREGUARD_KEEPALIVE_SECONDS ∧
     (is_Some (pc_endpoint pc) → wp_endpoint p = arc_val <$> pc_endpoint pc)).

Lemma single_ip_truncated ip : ip_wf ip → truncated (single_ip_prefix ip).
Proof.
  intros Hip. unfold single_ip_prefix. split; [split; [done|]|].
  - cbn [address bits]. destruct ip; cbn; lia.
  - unfold block_start, block_size. cbn [address bits]. by rewrite Z.sub_diag, Z.div_1_r, Z.mul_1_r.
Qed.

Lemma peer_prefixes_wf pc l : peer_wf pc → peer_prefixes pc = Ok l → Forall prefix_wf l.
Proof.
  intros [Hm Hs] Hl. unfold peer_prefixes in Hl. destruct (pc_management_ip pc) as [ip|]; [|done]. injection Hl as <-.
  constructor; [by apply single_ip_truncated, Hm|]. destruct (pc_subnet pc) as [p|]; [|constructor]. constructor; [by apply Hs|constructor].
Qed.

Lemma allowed_values_wf pc l : peer_wf pc → allowed_ip_values pc = Ok l →
  Forall (fun net => prefix_wf (mk_IpPrefix net.1 net.2)) l.
Proof.
  intros Hpc Hl. unfold allowed_ip_values in Hl. destruct (peer_prefixes pc) as [ps| |] eqn:Ep; [|done|done].
  injection Hl as <-. apply Forall_fmap. eapply Forall_impl; [by eapply peer_prefixes_wf|]. by intros [].
Qed.

Lemma apply_config_matches config w u w' updates :
  NoDup (map config_key (cfg_peers config)) → allowed_apart (cfg_peers config) → (∀ pc, pc ∈ cfg_peers config → peer_wf pc) →
  Forall2 peer_set (cfg_peers config) updates → du_peers u = updates ++ peer_removals updates (v_device (view w)) →
  wg_set_device u w = (None, w') → device_matches (cfg_peers config) (v_device (view w')).
Proof.
  intros Hnd Hapart Hwf Hset Hpeers Hrun.
  assert (map config_key (cfg_peers config) = map Some (map pu_public_key updates)) as Hkeys.
  { clear -Hset. induction Hset as [|pc x l l' (key & Hk & Hx & _) Hset IH]; [done|]. cbn. rewrite IH. unfold config_key at 1.
    rewrite Hk. cbn. by rewrite Hx. }
  assert (NoDup (map pu_public_key updates)) as Hnd'.
  { apply (NoDup_fmap_1 Some). by rewrite Hkeys in Hnd. }
  assert (NoDup (map pu_public_key (du_peers u))) as Hndu.
  { rewrite Hpeers, map_app. apply NoDup_app. split_and!; [done| |].
    - intros k Hk (x & -> & Hx)%list_elem_of_fmap. by apply removals_spec in Hx as (_ & _ & _ & Hn).
    - eapply sublist_NoDup; [apply device_keys|apply removals_keys]. }
  destruct (wg_set_device_law _ _ _ Hrun Hndu) as [Hrem Hcre Honly]. split.
  - intros p Hp.
    assert (wp_public_key p ∈ map pu_public_key updates) as Hin.
    { destruct (Honly p Hp) as [(q & Hq & Hk)|(x & Hx & [Hf _] & Hk)].
      - destruct (decide (wp_public_key p ∈ map pu_public_key updates)) as [|Hn]; [done|]. exfalso.
        rewrite <-Hk in Hn. destruct (removals_complete updates _ q Hq Hn) as (x & Hx & Hxk).
        apply (Hrem x p); [rewrite Hpeers; set_solver| |done|congruence].
        apply removals_spec in Hx as (-> & _). set_solver.
      - rewrite <-Hk. rewrite Hpeers in Hx. apply elem_of_app in Hx as [Hx|Hx]; [by apply list_elem_of_fmap_2|].
        apply removals_spec in Hx as (Hfl & _). rewrite Hfl in Hf. set_solver. }
    assert (Some (wp_public_key p) ∈ map config_key (cfg_peers config)) as Hc.
    { rewrite Hkeys. by apply list_elem_of_fmap_2. }
    apply list_elem_of_fmap in Hc as (pc & Hk & Hpc). eauto.
  - intros pc Hpc. apply list_elem_of_lookup_1 in Hpc as [i Hi].
    destruct (Forall2_lookup_l _ _ _ _ _ Hset Hi) as (x & Hxi & key & Hk & Hxk & Hfl & Hend & Hka & Hal).
    assert (x ∈ updates) as Hx by (by eapply list_elem_of_lookup_2).
    destruct (Hcre x) as (p & Hp & Hpk & Hpa & Hpka & Hpe).
    + rewrite Hpeers. set_solver.
    + unfold creates. rewrite Hfl. set_solver.
    + intros y Hy Hne (ip & Hip & Hip'). rewrite Hpeers in Hy. apply elem_of_app in Hy as [Hy|Hy].
      * apply list_elem_of_lookup_1 in Hy as [j Hj].
        destruct (Forall2_lookup_r _ _ _ _ _ Hset Hj) as (pc' & Hpcj & key' & Hk' & Hyk & _ & _ & _ & Hal').
        apply (Hapart pc pc' _ _ ip) with (6 := Hip) (4 := Hal) (5 := Hal'); [| | |done]; try by eapply list_elem_of_lookup_2.
        intros ->. assert (i = j) as <-; [|congruence].
        apply (NoDup_lookup (map config_key (cfg_peers config)) i j (config_key pc') Hnd);
          change (map config_key (cfg_peers config)) with (config_key <$> cfg_peers config); by rewrite list_lookup_fmap, ?Hi, ?Hpcj.
      * apply removals_spec in Hy as (_ & Hal' & _). rewrite Hal' in Hip'. by apply elem_of_nil in Hip'.
    + rewrite Hfl. set_solver.
    + eapply allowed_values_wf; [|done]. apply Hwf. by eapply list_elem_of_lookup_2.
    + exists p. unfold config_key. rewrite Hk, Hpk, Hxk. split_and!; [done|done|by eauto|by apply Hpka|].
      intros Hs. rewrite Hpe, Hend; [done|]. rewrite Hend. by destruct (pc_endpoint pc).
Qed.

(** *** The peers of the state *)

Lemma get_peers_ok st (w : W) ps s' : get_peers (st, w) = (Ok ps, s') → st_peers st = Some ps ∧ s' = (st, w).
Proof.
  intros (st' & s1 & [= <- <-] & Hr)%bind_ok. cbn [fst] in Hr. apply of_result_ok in Hr as [Hr ->].
  destruct (st_peers st); [|done]. by injection Hr as ->.
Qed.
Definition with_peers (st : State) (ps : gmap string Peer) : State :=
  mk_State (st_link_index st) (Some ps) (st_watchers st) (st_running st).
Lemma set_peers_ok ps st (w : W) u s' : set_peers ps (st, w) = (Ok u, s') → s' = (with_peers st ps, w).
Proof. by intros [= _ <-]. Qed.
Lemma now_ok st w t s' : ask now (st, w) = (Ok t, s') → ∃ w', s' = (st, w') ∧ view w' = view w.
Proof. intros (w' & Hn & ->)%ask_ok. exists w'. split; [done|]. rewrite <-(now_view w). by rewrite Hn. Qed.

Lemma initial_peers_ok device_peers l ps st w ps' s' : initial_peers device_peers ps l (st, w) = (Ok ps', s') →
  ∃ w', s' = (st, w') ∧ view w' = view w.
Proof.
  revert ps w. induction l as [|pc l IH]; intros ps w Hr; cbn [initial_peers] in Hr; [injection Hr as <- <-; eauto|].
  apply bind_ok in Hr as (key & s1 & [_ ->]%of_result_ok & Hr). apply bind_ok in Hr as (t & s1 & (w1 & -> & Hv)%now_ok & Hr).
  apply IH in Hr as (w' & -> & Hv'). exists w'. split; [done|congruence].
Qed.

(** A peer under the key of its configuration, which is one of those given. *)
Definition peer_under (all : list PeerConfig) (key : string) (peer : Peer) : Prop :=
  peer_config peer ∈ all ∧ key_string (peer_config peer) = Ok key.

Lemma update_peer_configs_ok all l keys ps st w keys' s' :
  st_peers st = Some ps → (∀ pc, pc ∈ l → pc ∈ all) → (∀ k, k ∈ keys → ∃ peer, ps !! k = Some peer ∧ peer_under all k peer) →
  update_peer_configs keys l (st, w) = (Ok keys', s') →
  ∃ ps' w', s' = (with_peers st ps', w') ∧ view w' = view w ∧
    (∀ k, k ∈ keys' ↔ k ∈ keys ∨ ∃ pc, pc ∈ l ∧ key_string pc = Ok k) ∧
    ∀ k, k ∈ keys' → ∃ peer, ps' !! k = Some peer ∧ peer_under all k peer.
Proof.
  revert keys ps st w. induction l as [|pc l IH]; intros keys ps st w Hst Hall Hinv Hr; cbn [update_peer_configs] in Hr.
  - injection Hr as <- <-. exists ps, w. split_and!; [destruct st; cbn in *; by subst|done| |done].
    intros k. split; [by left|]. intros [|(pc & ?%elem_of_nil & _)]; done.
  - apply bind_ok in Hr as (key & s1 & [Hkey ->]%of_result_ok & Hr).
    apply bind_ok in Hr as (ps1 & s1 & [Hps ->]%get_peers_ok & Hr). assert (ps1 = ps) as -> by congruence.
    apply bind_ok in Hr as (t & s1 & (w1 & -> & Hv1)%now_ok & Hr). apply bind_ok in Hr as (u & s1 & ->%set_peers_ok & Hr).
    eapply IH in Hr as (ps' & w' & -> & Hv & Hk & Hp); [|reflexivity|set_solver|].
    + exists ps', w'. split_and!; [done|congruence| |done]. intros k. rewrite Hk, elem_of_app, list_elem_of_singleton.
      split.
      * intros [[Hin| ->]|(pc' & Hpc & Hk')]; [by left| |]; right; [exists pc|exists pc']; set_solver.
      * intros [Hin|(pc' & [->|Hpc]%elem_of_cons & Hk')]; [by left; left| |right; eauto].
        left; right. congruence.
    + intros k Hk. cbn [st_peers with_peers]. destruct (decide (key = k)) as [->|Hne].
      * eexists. rewrite lookup_insert_eq. split; [done|].
        assert (∀ peer, peer_config peer = pc → peer_under all k peer) as Hpc.
        { intros peer Hp. unfold peer_under. rewrite Hp. split; [apply Hall; set_solver|done]. }
        destruct (ps !! k) as [peer|]; apply Hpc; [|done]. unfold update_config_at. by destruct (same_endpoint_pointer _ _).
      * rewrite lookup_insert_ne by done. apply Hinv. set_solver.
Qed.

Lemma all_prefixes_covers (l : list (string * Peer)) out : all_prefixes l = Ok out →
  ∀ a, covers out a ↔ ∃ k peer ps, (k, peer) ∈ l ∧ peer_prefixes (peer_config peer) = Ok ps ∧ covers ps a.
Proof.
  revert out. induction l as [|[k peer] l IH]; intros out; cbn [all_prefixes].
  - intros [= <-] a. unfold covers. split; [intros (p & ?%elem_of_nil & _); done|intros (? & ? & ? & ?%elem_of_nil & _); done].
  - destruct (peer_prefixes (peer_config peer)) as [ps| |] eqn:Ep; try done. cbn.
    destruct (all_prefixes l) as [rest| |]; try done. cbn. intros [= <-] a. specialize (IH rest eq_refl a).
    assert (covers (ps ++ rest) a ↔ covers ps a ∨ covers rest a) as ->.
    { unfold covers. setoid_rewrite elem_of_app. naive_solver. }
    rewrite IH. split.
    + intros [Hc|(k' & peer' & ps' & Hin & Hrest)]; [exists k, peer, ps|exists k', peer', ps']; set_solver.
    + intros (k' & peer' & ps' & [[= -> ->]|Hin]%elem_of_cons & Hp & Hc); [left; congruence|right; eauto 6].
Qed.

(** *** The configuration *)

Lemma to_hex_string_inj (k k' : Secret) : to_hex_string k = to_hex_string k' → as_bytes k = as_bytes k'.
Proof. intros E. pose proof (proj1 hex_text_exact k) as Hk. rewrite E, (proj1 hex_text_exact k') in Hk. by injection Hk. Qed.

(** Keys are the bytes of public keys. *)
Lemma key_string_inj pc pc' k : key_string pc = Ok k → key_string pc' = Ok k → config_key pc = config_key pc'.
Proof.
  unfold key_string, config_key. destruct (pc_public_key pc), (pc_public_key pc'); try done. intros [= <-] [= E].
  cbn. f_equal. symmetry. by apply to_hex_string_inj.
Qed.

Lemma config_key_inj all pc pc' : NoDup (map config_key all) → pc ∈ all → pc' ∈ all →
  config_key pc = config_key pc' → pc = pc'.
Proof.
  intros Hnd [i Hi]%list_elem_of_lookup_1 [j Hj]%list_elem_of_lookup_1 E.
  assert (i = j) as <-; [|congruence].
  apply (NoDup_lookup (config_key <$> all) i j (config_key pc) Hnd); rewrite list_lookup_fmap, ?Hi, ?Hj; cbn; congruence.
Qed.

(** The state has exactly the configured peers, under their keys. *)
Definition peers_match (all : list PeerConfig) (ps : gmap string Peer) : Prop :=
  (∀ k peer, ps !! k = Some peer → peer_under all k peer) ∧
  ∀ pc, pc ∈ all → ∃ k peer, ps !! k = Some peer ∧ peer_config peer = pc ∧ key_string pc = Ok k.

Lemma retained_match all (keys : list string) ps : NoDup (map config_key all) →
  (∀ k, k ∈ keys ↔ ∃ pc, pc ∈ all ∧ key_string pc = Ok k) →
  (∀ k, k ∈ keys → ∃ peer, ps !! k = Some peer ∧ peer_under all k peer) →
  (∀ pc, pc ∈ all → ∃ k, key_string pc = Ok k) →
  peers_match all (filter (fun '(key, _) => key ∈ keys) ps).
Proof.
  intros Hnd Hkeys Hps Hall. split.
  - intros k peer [Hp Hk]%map_lookup_filter_Some. destruct (Hps k Hk) as (peer' & Hp' & Hu). by assert (peer' = peer) as -> by congruence.
  - intros pc Hpc. destruct (Hall pc Hpc) as [k Hk]. assert (k ∈ keys) as Hin by (apply Hkeys; eauto).
    destruct (Hps k Hin) as (peer & Hp & Hpa & Hpk). exists k, peer. split_and!; [by apply map_lookup_filter_Some| |done].
    apply (config_key_inj all); [done..|]. by eapply key_string_inj.
Qed.

Lemma update_peer_configs_keyed l keys st w keys' s' : update_peer_configs keys l (st, w) = (Ok keys', s') →
  ∀ pc, pc ∈ l → ∃ k, key_string pc = Ok k.
Proof.
  revert keys st w. induction l as [|pc l IH]; intros keys st w Hr pc' Hpc; [by apply elem_of_nil in Hpc|].
  cbn [update_peer_configs] in Hr. apply bind_ok in Hr as (key & s1 & [Hkey ->]%of_result_ok & Hr).
  apply bind_ok in Hr as (ps1 & s1 & [Hps ->]%get_peers_ok & Hr).
  apply bind_ok in Hr as (t & s1 & (w1 & -> & Hv1)%now_ok & Hr). apply bind_ok in Hr as (u & s1 & ->%set_peers_ok & Hr).
  apply elem_of_cons in Hpc as [->|Hpc]; [eauto|]. by eapply IH.
Qed.

Lemma configure_device_ok config st w s' :
  NoDup (map config_key (cfg_peers config)) → allowed_apart (cfg_peers config) → (∀ pc, pc ∈ cfg_peers config → peer_wf pc) →
  configure_device config (st, w) = (Ok (), s') →
  ∃ ps w', s' = (with_peers st ps, w') ∧ peers_match (cfg_peers config) ps ∧
    device_matches (cfg_peers config) (v_device (view w')).
Proof.
  intros Hnd Hapart Hwf ([] & s1 & (w1 & Hc & ->)%call_io_ok & Hr)%bind_ok.
  apply bind_ok in Hr as (device & s1 & Hdev & Hr).
  apply bind_ok in Hdev as (answer & s2 & (w2 & Hget & ->)%ask_ok & Hdev). destruct answer as [e|device']; apply of_result_ok in Hdev as [Hdev ->]; [done|].
  injection Hdev as ->. destruct (wg_get_device_law _ _ _ Hget) as [Hdevice Hv2]. rewrite <-Hv2 in Hdevice.
  apply bind_ok in Hr as (st' & s2 & [= <- <-] & Hr). cbn [fst] in Hr. apply bind_ok in Hr as ([] & s2 & Hinit & Hr).
  assert (∃ ps0 w3, s2 = (with_peers st ps0, w3) ∧ view w3 = view w2) as (ps0 & w3 & -> & Hv3).
  { destruct (st_peers st) as [ps0|] eqn:Est.
    - injection Hinit as <-. exists ps0, w2. split; [|done]. destruct st. cbn in *. by subst.
    - apply bind_ok in Hinit as (ps0 & s3 & (w3 & -> & Hv3)%initial_peers_ok & ->%set_peers_ok). eauto. }
  apply bind_ok in Hr as (keys & s2 & Hupd & Hr).
  pose proof (update_peer_configs_keyed _ _ _ _ _ _ Hupd) as Hkeyed.
  destruct (update_peer_configs_ok (cfg_peers config) _ _ ps0 (with_peers st ps0) _ _ _ eq_refl (fun _ x => x) (fun k Hk => match not_elem_of_nil k Hk with end) Hupd)
    as (ps1 & w4 & -> & Hv4 & Hkeys & Hps1).
  apply bind_ok in Hr as (ps & s2 & [Hps ->]%get_peers_ok & Hr). injection Hps as <-.
  apply bind_ok in Hr as (u & s2 & ->%set_peers_ok & Hr). apply bind_ok in Hr as (update & s2 & [Hdu ->]%of_result_ok & Hr).
  apply call_io_ok in Hr as (w5 & Hset & ->). destruct (device_update_ok _ _ _ Hdu) as (updates & Hall & Hpeers).
  eexists _, w5. split_and!; [done| |].
  - apply retained_match; [done| |done|done]. intros k. rewrite Hkeys. split; [|by right]. by intros [?%elem_of_nil|].
  - eapply (apply_config_matches config w4 update); [done..| |done]. rewrite Hpeers. f_equal. f_equal. congruence.
Qed.

Lemma set_link_ok index mtu link st w s' : MIN_WIREGUARD_MTU <= mtu → set_link index mtu link (st, w) = (Ok (), s') →
  ∃ w', s' = (st, w') ∧ same_link w w'.
Proof.
  intros Hm ([] & s1 & Hset1 & Hset2)%bind_ok.
  assert (∃ w1, s1 = (st, w1) ∧ same_link w w1) as (w1 & -> & Hl1).
  { case_bool_decide; [injection Hset1 as <-; exists w; done|]. apply call_nl_ok in Hset1 as (w1 & Hset & ->). exists w1.
    split; [done|]. by eapply link_set_mtu_law. }
  destruct (lm_up link); [injection Hset2 as <-; eauto|]. apply call_nl_ok in Hset2 as (w2 & Hset & ->). exists w2. split; [done|].
  apply link_set_up_law in Hset as [Hd Ha]. destruct Hl1. split; congruence.
Qed.

(** A configuration whose peers have different keys and share no allowed network, whose
    addresses are in range, and whose MTU is one IPv6 works with. *)
Record config_wf (config : Config) : Prop := {
  wf_keys : NoDup (map config_key (cfg_peers config));
  wf_apart : allowed_apart (cfg_peers config);
  wf_peers pc : pc ∈ cfg_peers config → peer_wf pc;
  wf_management ip : cfg_management_ip config = Some ip → ip_wf ip;
  wf_mtu : MIN_WIREGUARD_MTU <= effective_mtu config
}.

Lemma all_prefixes_wf (l : list (string * Peer)) out : (∀ k peer, (k, peer) ∈ l → peer_wf (peer_config peer)) →
  all_prefixes l = Ok out → Forall prefix_wf out.
Proof.
  revert out. induction l as [|[k peer] l IH]; intros out Hl; cbn [all_prefixes]; [by intros [= <-]; constructor|].
  destruct (peer_prefixes (peer_config peer)) as [ps| |] eqn:Ep; try done. cbn.
  destruct (all_prefixes l) as [rest| |]; try done. cbn. intros [= <-]. apply Forall_app. split.
  - eapply peer_prefixes_wf; [|done]. apply (Hl k). set_solver.
  - apply IH; [|done]. intros k' peer' Hin. apply (Hl k'). set_solver.
Qed.

(** The routes of a link lead to exactly the addresses of some peers. *)
Definition routes_match (all : list PeerConfig) (index : Z) (w : W) : Prop :=
  ∃ out, (∀ a, ip_wf a → covers out a ↔ ∃ pc ps, pc ∈ all ∧ peer_prefixes pc = Ok ps ∧ covers ps a) ∧
    (∀ p, p ∈ out → routed w p) ∧
    ∀ f m, m ∈ v_routes (view w) f → route_on_link index m = true → ∃ p, route_message_prefix m = Ok p ∧ p ∈ out.

Lemma update_peer_routes_match all index source ps st w s' :
  peers_match all ps → (∀ pc, pc ∈ all → peer_wf pc) → update_peer_routes index source ps (st, w) = (Ok (), s') →
  ∃ w', s' = (st, w') ∧ same_link w w' ∧ routes_match all index w'.
Proof.
  intros [Hunder Hall] Hwf Hrun. destruct (all_prefixes (hash_iter ps)) as [l| |] eqn:Hl;
    [|unfold update_peer_routes in Hrun; by rewrite Hl in Hrun..].
  destruct (update_peer_routes_exact index source ps st w s' l Hl) as (w' & out & -> & Hsame & _ & Hcov & Hrouted & Hon).
  - eapply all_prefixes_wf; [|done]. intros k peer Hin%elem_of_hash_iter. by apply Hwf, (Hunder k peer).
  - done.
  - exists w'. split_and!; [done|done|]. exists out. split_and!; [|done|done]. intros a Ha.
    rewrite (Hcov a Ha), (all_prefixes_covers _ _ Hl). split.
    + intros (k & peer & ps' & Hin%elem_of_hash_iter & Hp & Hc). exists (peer_config peer), ps'. by split_and!; [eapply Hunder|..].
    + intros (pc & ps' & Hpc & Hp & Hc). destruct (Hall pc Hpc) as (k & peer & Hlk & <- & _).
      exists k, peer, ps'. by rewrite elem_of_hash_iter.
Qed.

(** What a configuration establishes. *)
Record configured (config : Config) (st : State) (w : W) : Prop := {
  configured_peers : ∃ ps, st_peers st = Some ps ∧ peers_match (cfg_peers config) ps;
  configured_device : device_matches (cfg_peers config) (v_device (view w));
  configured_address : ∃ ip, cfg_management_ip config = Some ip ∧
    (∀ m, m ∈ v_addresses (view w) (st_link_index st) → address_message_prefix m = Ok (single_ip_prefix ip)) ∧
    ∃ m, m ∈ v_addresses (view w) (st_link_index st);
  configured_routes : routes_match (cfg_peers config) (st_link_index st) w
}.

Lemma configure_establishes config st w s' : config_wf config → configure config (st, w) = (Ok (), s') →
  configured config s'.1 s'.2.
Proof.
  intros [Hnd Hapart Hpeers Hman Hmtu] ([] & s1 & Hdev & Hr)%bind_ok.
  destruct (configure_device_ok _ _ _ _ Hnd Hapart Hpeers Hdev) as (ps & w1 & -> & Hps & Hmatch).
  apply bind_ok in Hr as (ip & s1 & [Hip ->]%of_result_ok & Hr).
  assert (cfg_management_ip config = Some ip) as Hm by (destruct (cfg_management_ip config); [by injection Hip as ->|done]).
  apply bind_ok in Hr as ([] & s1 & (w2 & Hnl & ->)%call_io_ok & Hr).
  pose proof (nl_connect_view w1) as Hv2. rewrite Hnl in Hv2. cbn [snd] in Hv2.
  apply bind_ok in Hr as (st' & s2 & [= <- <-] & Hr). cbn [fst] in Hr. apply bind_ok in Hr as ([] & s1 & Haddr & Hr).
  destruct (update_addresses_exact _ _ _ _ _ ltac:(constructor; [by apply single_ip_truncated, Hman|constructor]) Haddr)
    as (w3 & -> & Hd3 & Honly & Hthere).
  apply bind_ok in Hr as ([] & s1 & [_ ->]%of_result_ok & Hr). apply bind_ok in Hr as (link & s1 & Hlink & Hr).
  apply bind_ok in Hlink as (answer & s2 & Hlink & [_ ->]%of_result_ok).
  apply bind_ok in Hlink as (answer' & s3 & (w4 & Hget & ->)%ask_ok & [_ ->]%of_result_ok).
  pose proof (link_get_view (st_link_index (with_peers st ps)) w3) as Hv4. rewrite Hget in Hv4. cbn [snd] in Hv4.
  apply bind_ok in Hr as ([] & s1 & (w5 & -> & [Hd5 Ha5])%(set_link_ok _ _ _ _ _ _ Hmtu) & Hr).
  apply bind_ok in Hr as (subnet & s1 & [_ ->]%of_result_ok & Hr). apply bind_ok in Hr as (source & s1 & [_ ->]%of_result_ok & Hr).
  apply bind_ok in Hr as (ps' & s1 & [Hps' ->]%get_peers_ok & Hr). injection Hps' as <-.
  destruct (update_peer_routes_match _ _ _ _ _ _ _ Hps Hpeers Hr) as (w6 & -> & [Hd6 Ha6] & Hroutes).
  cbn [fst snd]. unfold same_device in Hd3. split.
  - by exists ps.
  - rewrite Hd6, Hd5, Hv4, Hd3, Hv2. done.
  - exists ip. rewrite Ha6, Ha5, Hv4. split_and!; [done| |].
    + intros m Hin. destruct (Honly m Hin) as (p & Hp & ->%list_elem_of_singleton). done.
    + destruct (Hthere (single_ip_prefix ip)) as (m & Hin & _); [set_solver|eauto].
  - done.
Qed.
End laws.
