(* ===== verification/WireGuardTheorems.v ===== *)
(** * The WireGuard network configured, and its watchers

    A configuration succeeds whenever the kernel answers, and establishes what it
    describes; the MTU it is given is one that the tunnel can carry; a watcher that is
    gone keeps those after it from being notified.  Networks and a kernel are given as
    concrete instances. *)

From S2P Require Import Prelude BTree RustStr NetAddr Ipam Peer Secret MachineName WireGuard WireGuardProps.

Local Open Scope Z_scope.

(** ** Success *)

Section progress.
Context `{IpNetLib} `{HexLib} `{HashOrder} {W : Type} `{!Kernel W} `{!KernelLaws W}.

(** A kernel that answers: no call fails, but for an address or a route that exists; the
    link is there, and its addresses and routes are networks. *)
Definition accepted (e : option NlError) : Prop := match e with Some e => is_eexist e = true | None => True end.
Record Answering : Prop := {
  ans_wg_connect w : (wg_connect w).1 = None;
  ans_nl_connect w : (nl_connect w).1 = None;
  ans_get_device w : ∃ peers, (wg_get_device w).1 = inr peers;
  ans_set_device u w : (wg_set_device u w).1 = None;
  ans_link_get index w : ∃ link, (link_get index w).1 = inr (Some link);
  ans_set_mtu index mtu w : (link_set_mtu index mtu w).1 = None;
  ans_set_up index w : (link_set_up index w).1 = None;
  ans_address_add index ip len w : accepted (address_add index ip len w).1;
  ans_address_list index w : (address_list index w).1.2 = None ∧
    ∀ m, m ∈ (address_list index w).1.1 → ∃ p, address_message_prefix m = Ok p;
  ans_address_del m w : (address_del m w).1 = None;
  ans_route_add r w : accepted (route_add r w).1;
  ans_route_list v6 w : (route_list v6 w).1.2 = None ∧
    ∀ m index, m ∈ (route_list v6 w).1.1 → route_on_link index m = true → ∃ p, route_message_prefix m = Ok p;
  ans_route_del m w : (route_del m w).1 = None
}.
Context (Hans : Answering).

(** A computation that always succeeds, and leaves the state as it is. *)
Definition reads {A} (m : net W A) : Prop := ∀ st w, ∃ a w', m (st, w) = (Ok a, (st, w')).

Lemma reads_bind {A B} (m : net W A) (k : A → net W B) : reads m → (∀ a, reads (k a)) → reads (m ≫= k).
Proof. intros Hm Hk st w. unfold mbind, net_bind. destruct (Hm st w) as (a & w' & ->). apply Hk. Qed.
Lemma reads_ret {A} (a : A) : reads (mret a : net W A).
Proof. intros st w. by exists a, w. Qed.
Lemma reads_ok {A} (r : result NetworkError A) : (∃ a, r = Ok a) → reads (of_result r : net W A).
Proof. intros [a ->] st w. by exists a, w. Qed.
Lemma reads_ok_bind {A B} (r : result NetworkError A) a (k : A → net W B) : r = Ok a → reads (k a) → reads (of_result r ≫= k).
Proof. by intros ->. Qed.
Lemma reads_call_io context (f : W → option string * W) : (∀ w, (f w).1 = None) → reads (call_io context f).
Proof.
  intros Hf st w. unfold call_io, ask, mbind, net_bind. cbn. specialize (Hf w). destruct (f w) as [e w']. cbn in *. subst e.
  by exists (), w'.
Qed.
Lemma reads_call_nl context (f : W → option NlError * W) : (∀ w, (f w).1 = None) → reads (call_nl context f).
Proof.
  intros Hf st w. unfold call_nl, ask, mbind, net_bind. cbn. specialize (Hf w). destruct (f w) as [e w']. cbn in *. subst e.
  by exists (), w'.
Qed.
Lemma reads_call_get {A} context (f : W → (NlError + A) * W) : (∀ w, ∃ a, (f w).1 = inr a) → reads (call_get context f).
Proof.
  intros Hf st w. unfold call_get, ask, mbind, net_bind. cbn. destruct (Hf w) as [a' Ha]. destruct (f w) as [e w']. cbn in *. subst e.
  by exists a', w'.
Qed.
Lemma reads_for_each {A} (f : A → net W ()) l : (∀ x, x ∈ l → reads (f x)) → reads (for_each f l).
Proof.
  induction l as [|x l IH]; intros Hf; cbn [for_each]; [apply reads_ret|].
  apply reads_bind; [apply Hf; set_solver|]. intros _. apply IH. set_solver.
Qed.

Lemma reads_ask_bind {A B} (f : W → A * W) (k : A → net W B) (P : A → Prop) :
  (∀ w, P (f w).1) → (∀ a, P a → reads (k a)) → reads (ask f ≫= k).
Proof.
  intros Hf Hk st w. unfold ask, mbind, net_bind. cbn. specialize (Hf w). destruct (f w) as [a w']. by apply Hk.
Qed.

Lemma reads_update_addresses index addresses : reads (update_addresses index addresses).
Proof.
  apply reads_bind.
  { apply reads_for_each. intros p _. apply (reads_ask_bind _ _ accepted); [intros w; apply (ans_address_add Hans)|].
    intros [e|] He; apply reads_ok; [|eauto]. cbn in He. rewrite He. eauto. }
  intros _. apply (reads_ask_bind _ _ (fun a => a.2 = None ∧ ∀ m, m ∈ a.1 → ∃ p, address_message_prefix m = Ok p)).
  { intros w. apply (ans_address_list Hans). }
  intros [l e] [He Hl]. cbn in He, Hl. subst e. apply reads_bind; [|intros _; apply reads_ok; eauto].
  apply reads_for_each. intros m Hm. apply reads_bind; [by apply reads_ok, Hl|]. intros p.
  case_bool_decide; [apply reads_ret|]. apply reads_call_nl, (ans_address_del Hans).
Qed.

Lemma reads_remove_routes index prefixes v6 : reads (remove_routes index prefixes v6).
Proof.
  apply (reads_ask_bind _ _ (fun a => a.2 = None ∧ ∀ m i, m ∈ a.1 → route_on_link i m = true → ∃ p, route_message_prefix m = Ok p)).
  { intros w. apply (ans_route_list Hans). }
  intros [l e] [He Hl]. cbn in He, Hl. subst e. apply reads_bind; [|intros _; apply reads_ok; eauto].
  apply reads_for_each. intros m Hm. unfold remove_route. destruct (route_on_link index m) eqn:Eon; [|apply reads_ret].
  cbn [negb]. apply reads_bind; [by apply reads_ok, (Hl m index)|]. intros p.
  case_bool_decide; [apply reads_ret|]. apply reads_call_nl, (ans_route_del Hans).
Qed.

Lemma reads_update_peer_routes index source ps l :
  all_prefixes (hash_iter ps) = Ok l → Forall prefix_wf l → reads (update_peer_routes index (V4 source) ps).
Proof.
  intros Hl Hwf. destruct (compact_prefixes_spec l Hwf) as (out & Hc & _).
  apply (reads_ok_bind _ l); [done|]. apply (reads_ok_bind _ out); [by rewrite Hc|].
  apply reads_bind; [|intros _; apply reads_bind; intros; apply reads_remove_routes].
  apply reads_for_each. intros p _. apply reads_bind; [apply reads_ok; unfold new_route; destruct (address p); eauto|].
  intros r. apply (reads_ask_bind _ _ accepted); [intros w; apply (ans_route_add Hans)|].
  intros [e|] He; apply reads_ok; [|eauto]. cbn in He. rewrite He. eauto.
Qed.

(** A configuration in which nothing is missing. *)
Definition key_ok (key : option Secret) : Prop := ∃ k, key = Some k ∧ length (as_bytes k) = 32%nat.
Record config_complete (config : Config) : Prop := {
  complete_private_key : key_ok (cfg_private_key config);
  complete_port : 0 <= effective_wire_guard_port config <= u_max 16;
  complete_management : is_Some (cfg_management_ip config);
  complete_subnet : ∃ subnet source, cfg_subnet config = Some subnet ∧ machine_ip subnet = Some (V4 source);
  complete_peers pc : pc ∈ cfg_peers config → is_Some (pc_management_ip pc) ∧ key_ok (pc_public_key pc)
}.

Lemma peer_prefixes_total pc : is_Some (pc_management_ip pc) → ∃ l, peer_prefixes pc = Ok l.
Proof. intros [ip Hip]. unfold peer_prefixes. rewrite Hip. cbn. eauto. Qed.

Lemma key_string_total pc : key_ok (pc_public_key pc) → ∃ k, key_string pc = Ok k.
Proof. intros (k & Hk & _). unfold key_string. rewrite Hk. eauto. Qed.

Lemma mapM_total {A B} (f : A → result NetworkError B) l : (∀ x, x ∈ l → ∃ y, f x = Ok y) → ∃ l', mapM f l = Ok l'.
Proof.
  induction l as [|x l IH]; intros Hf; [by exists []|]. destruct (Hf x) as [y Hy]; [set_solver|].
  destruct IH as [l' Hl']; [set_solver|]. exists (y :: l'). cbn [mapM]. rewrite Hy. cbn [mbind result_bind].
  change (mapM f l) with (mapM f l). rewrite Hl'. done.
Qed.

Lemma device_update_total config current : config_complete config → ∃ u, device_update config current = Ok u.
Proof.
  intros [(key & Hkey & Hlen) Hport _ _ Hpeers]. unfold device_update. rewrite Hkey. cbn [ok_or mbind result_bind].
  unfold key_from_secret at 1. rewrite Hlen, Nat.eqb_refl. cbn [mbind result_bind].
  assert ((0 <=? effective_wire_guard_port config) && (effective_wire_guard_port config <=? u_max 16) = true) as -> by lia.
  cbn [negb]. destruct (mapM_total allowed_ip_values (cfg_peers config)) as [allowed Ha].
  { intros pc Hpc. destruct (peer_prefixes_total pc) as [l Hl]; [by apply Hpeers|]. unfold allowed_ip_values. rewrite Hl. cbn. eauto. }
  rewrite Ha. cbn [mbind result_bind].
  destruct (mapM_total (fun '(peer, allowed_ips) => peer_update peer allowed_ips) (zip (cfg_peers config) allowed)) as [updates Hu].
  { intros [pc l] Hin. apply elem_of_zip_l in Hin. destruct (Hpeers pc Hin) as [_ (k & Hk & Hkl)].
    unfold peer_update. rewrite Hk. cbn. unfold key_from_secret. rewrite Hkl, Nat.eqb_refl. cbn. eauto. }
  rewrite Hu. cbn. eauto.
Qed.

(** A computation that succeeds once there are peers, and leaves some. *)
Definition proceeds {A} (m : net W A) : Prop :=
  ∀ st w, is_Some (st_peers st) → ∃ a st' w', m (st, w) = (Ok a, (st', w')) ∧ is_Some (st_peers st').
Lemma proceeds_bind {A B} (m : net W A) (k : A → net W B) : proceeds m → (∀ a, proceeds (k a)) → proceeds (m ≫= k).
Proof. intros Hm Hk st w Hst. unfold mbind, net_bind. destruct (Hm st w Hst) as (a & st' & w' & -> & Hst'). by apply Hk. Qed.
Lemma proceeds_reads {A} (m : net W A) : reads m → proceeds m.
Proof. intros Hm st w Hst. destruct (Hm st w) as (a & w' & ->). eauto. Qed.
Lemma proceeds_get_peers : proceeds (get_peers (W := W)).
Proof. intros st w [ps Hps]. exists ps, st, w. split; [|eauto]. unfold get_peers, get_state, mbind, net_bind, of_result. cbn. by rewrite Hps. Qed.
Lemma proceeds_set_peers ps : proceeds (set_peers (W := W) ps).
Proof. intros st w _. eexists (), _, w. split; [done|]. cbn. eauto. Qed.
Lemma reads_now : reads (ask (W := W) now).
Proof. intros st w. unfold ask. cbn. destruct (now w) as [t w']. eauto. Qed.

Lemma proceeds_update_peer_configs l keys : (∀ pc, pc ∈ l → key_ok (pc_public_key pc)) → proceeds (update_peer_configs keys l).
Proof.
  revert keys. induction l as [|pc l IH]; intros keys Hl; cbn [update_peer_configs]; [apply proceeds_reads, reads_ret|].
  apply proceeds_bind; [apply proceeds_reads, reads_ok, key_string_total, Hl; set_solver|]. intros key.
  apply proceeds_bind; [apply proceeds_get_peers|]. intros ps. apply proceeds_bind; [apply proceeds_reads, reads_now|]. intros t.
  apply proceeds_bind; [apply proceeds_set_peers|]. intros _. apply IH. set_solver.
Qed.
Lemma reads_initial_peers device_peers l ps : (∀ pc, pc ∈ l → key_ok (pc_public_key pc)) → reads (initial_peers device_peers ps l).
Proof.
  revert ps. induction l as [|pc l IH]; intros ps Hl; cbn [initial_peers]; [apply reads_ret|].
  apply reads_bind; [apply reads_ok, key_string_total, Hl; set_solver|]. intros key.
  apply reads_bind; [apply reads_now|]. intros t. apply IH. set_solver.
Qed.

Lemma bind_runs {A B} (m : net W A) (k : A → net W B) s a s1 b s' :
  m s = (Ok a, s1) → k a s1 = (Ok b, s') → (m ≫= k) s = (Ok b, s').
Proof. intros Hm Hk. unfold mbind, net_bind. by rewrite Hm. Qed.

Lemma configure_device_total config st w : config_complete config → ∃ s', configure_device config (st, w) = (Ok (), s').
Proof.
  intros Hc. assert (∀ pc, pc ∈ cfg_peers config → key_ok (pc_public_key pc)) as Hkeys.
  { intros pc Hpc. by apply (complete_peers _ Hc). }
  destruct (reads_call_io "create WireGuard client" wg_connect (ans_wg_connect Hans) st w) as ([] & w1 & Hw1).
  assert (reads get_wireguard_device) as Hread.
  { apply (reads_ask_bind _ _ (fun a => ∃ peers, a = inr peers)); [apply (ans_get_device Hans)|].
    intros a (peers & ->). apply reads_ok. eauto. }
  destruct (Hread st w1) as (device & w2 & Hw2).
  match eval unfold configure_device in (configure_device config) with
    _ ≫= (fun _ => _ ≫= (fun d => _ ≫= (fun x => @?init d x ≫= @?rest d x))) =>
    assert (∃ st' w3, init device st (st, w2) = (Ok (), (st', w3)) ∧ is_Some (st_peers st')) as (st' & w3 & Hw3 & Hst);
    [|assert (proceeds (rest device st ())) as Hrest]
  end.
  - destruct (st_peers st) as [ps|] eqn:Est; [exists st, w2; rewrite Est; eauto|].
    match goal with |- context [initial_peers ?d ?p ?l] => destruct (reads_initial_peers d l p Hkeys st w2) as (ps & w3 & Hi) end.
    eexists _, w3. split; [by eapply bind_runs|]. cbn. eauto.
  - apply proceeds_bind; [by apply proceeds_update_peer_configs|]. intros keys. apply proceeds_bind; [apply proceeds_get_peers|].
    intros ps. apply proceeds_bind; [apply proceeds_set_peers|]. intros _. apply proceeds_reads, reads_bind.
    + apply reads_ok. by apply device_update_total.
    + intros u. apply reads_call_io, (ans_set_device Hans).
  - destruct (Hrest st' w3 Hst) as ([] & st'' & w' & Hr & _). eexists. eapply bind_runs; [exact Hw1|].
    eapply bind_runs; [exact Hw2|]. eapply bind_runs; [reflexivity|]. eapply bind_runs; [exact Hw3|exact Hr].
Qed.

Lemma reads_set_link index mtu link : reads (set_link index mtu link).
Proof.
  apply reads_bind.
  - case_bool_decide; [apply reads_ret|apply reads_call_nl, (ans_set_mtu Hans)].
  - intros _. destruct (lm_up link); [apply reads_ret|apply reads_call_nl, (ans_set_up Hans)].
Qed.

Lemma all_prefixes_total (l : list (string * Peer)) :
  (∀ k peer, (k, peer) ∈ l → is_Some (pc_management_ip (peer_config peer))) → ∃ out, all_prefixes l = Ok out.
Proof.
  induction l as [|[k peer] l IH]; intros Hl; cbn [all_prefixes]; [eauto|].
  destruct (peer_prefixes_total (peer_config peer)) as [ps ->]; [apply (Hl k); set_solver|].
  destruct IH as [rest ->]; [intros k' peer' Hin; apply (Hl k'); set_solver|]. cbn. eauto.
Qed.

Lemma configure_total config st w : config_wf config → config_complete config →
  ∃ s', configure config (st, w) = (Ok (), s').
Proof.
  intros Hwf Hc. destruct (configure_device_total config st w Hc) as [s1 Hdev].
  destruct (configure_device_ok _ _ _ _ (wf_keys _ Hwf) (wf_apart _ Hwf) (wf_peers _ Hwf) Hdev) as (ps & w1 & -> & [Hunder _] & _).
  destruct (Hc) as [_ _ [ip Hip] (subnet & source & Hsub & Hsource) Hpeers].
  destruct (all_prefixes_total (hash_iter ps)) as [l Hl].
  { intros k peer Hin%elem_of_hash_iter. by apply Hpeers, (Hunder k). }
  assert (Forall prefix_wf l) as Hlwf.
  { eapply all_prefixes_wf; [|done]. intros k peer Hin%elem_of_hash_iter. by apply (wf_peers _ Hwf), (Hunder k). }
  pose proof (wf_mtu _ Hwf) as Hmtu.
  destruct (reads_call_io "create route netlink client" nl_connect (ans_nl_connect Hans) (with_peers st ps) w1) as ([] & w2 & Hw2).
  match eval unfold configure in (configure config) with
    _ ≫= (fun _ => _ ≫= (fun y => _ ≫= (fun _ => _ ≫= (fun x => @?rest y x)))) =>
    assert (∃ s', rest ip (with_peers st ps) (with_peers st ps, w2) = (Ok (), s')) as [s' Hr]
  end.
  - cbv zeta beta. destruct (reads_update_addresses (st_link_index (with_peers st ps)) [single_ip_prefix ip] (with_peers st ps) w2) as ([] & w3 & Hw3).
    assert (reads (get_link_by_index (st_link_index (with_peers st ps)))) as Hread.
    { unfold get_link_by_index. intros st' w'. destruct (ans_link_get Hans (st_link_index (with_peers st ps)) w') as [link Hlink].
      destruct (link_get (st_link_index (with_peers st ps)) w') as [answer w''] eqn:E. cbn in Hlink. subst answer. exists link, w''.
      apply (bind_runs _ _ _ (Some link) (st', w'')); [|done].
      apply (bind_runs _ _ _ (inr (Some link)) (st', w'')); [|done]. unfold ask. cbn [snd fst]. by rewrite E. }
    destruct (Hread (with_peers st ps) w3) as (link & w4 & Hw4).
    destruct (reads_set_link (st_link_index (with_peers st ps)) (effective_mtu config) link (with_peers st ps) w4) as ([] & w5 & Hw5).
    destruct (reads_update_peer_routes (st_link_index (with_peers st ps)) source ps l Hl Hlwf (with_peers st ps) w5) as ([] & w6 & Hw6).
    eexists. eapply bind_runs; [exact Hw3|]. eapply bind_runs.
    { assert (0 <=? effective_mtu config = true) as -> by (unfold MIN_WIREGUARD_MTU in Hmtu; lia). reflexivity. }
    eapply bind_runs; [exact Hw4|]. eapply bind_runs; [exact Hw5|].
    eapply bind_runs; [by rewrite Hsub|]. eapply bind_runs; [by rewrite Hsource|].
    eapply bind_runs; [reflexivity|exact Hw6].
  - eexists. eapply bind_runs; [exact Hdev|]. eapply bind_runs; [by rewrite Hip|].
    eapply bind_runs; [exact Hw2|]. eapply bind_runs; [reflexivity|exact Hr].
Qed.

End progress.

Section configuration.
Context `{IpNetLib} `{HexLib} `{HashOrder} {W : Type} `{!Kernel W} `{!KernelLaws W}.

End configuration.

(** ** Watchers *)

Section watchers.
Context `{IpNetLib} `{HexLib} `{HashOrder} {W : Type} `{!Kernel W}.

Definition with_watchers (watchers : list nat) (st : State) : State :=
  mk_State (st_link_index st) (st_peers st) watchers (st_running st).
Definition relabel {A} (watchers : list nat) (r : result NetworkError A * (State * W)) : result NetworkError A * (State * W) :=
  (r.1, (with_watchers watchers r.2.1, r.2.2)).

Context (long short : list nat).

(** A computation that does the same whichever of two lists of watchers there is. *)
Definition blind {A} (m : net W A) : Prop :=
  ∀ st w, m (with_watchers long st, w) = relabel long (m (with_watchers short st, w)) ∧
    st_watchers (m (with_watchers short st, w)).2.1 = short.

Lemma blind_of_result {A} (r : result NetworkError A) : blind (of_result r).
Proof. intros st w. done. Qed.
Lemma blind_ask {A} (f : W → A * W) : blind (ask f).
Proof. intros st w. unfold ask, relabel. cbn. by destruct (f w). Qed.
Lemma blind_bind {A B} (m : net W A) (k : A → net W B) : blind m → (∀ a, blind (k a)) → blind (m ≫= k).
Proof.
  intros Hm Hk st w. unfold mbind, net_bind. destruct (Hm st w) as [Heq Hw]. rewrite Heq. unfold relabel at 1.
  destruct (m (with_watchers short st, w)) as [[a|e|p] [st' w']]; cbn in Hw |- *; [|done..].
  destruct (Hk a st' w') as [Heq' Hw']. assert (with_watchers short st' = st') as E by (destruct st'; cbn in *; by subst).
  rewrite E in *. done.
Qed.
Lemma blind_ret {A} (a : A) : blind (mret a : net W A).
Proof. done. Qed.
Lemma blind_get_peers : blind (get_peers (W := W)).
Proof. intros st w. unfold get_peers, get_state, mbind, net_bind, of_result, relabel. cbn. by destruct (st_peers st). Qed.
Lemma blind_set_peers ps : blind (set_peers (W := W) ps).
Proof. done. Qed.
Lemma blind_logged m : blind m → blind (logged m).
Proof.
  intros Hm st w. unfold logged. destruct (Hm st w) as [-> Hw]. unfold relabel.
  by destruct (m (with_watchers short st, w)) as [[|e|p] [st' w']].
Qed.
Lemma blind_call_io context f : blind (call_io (W := W) context f).
Proof. apply blind_bind; [apply blind_ask|]. intros e. apply blind_of_result. Qed.
Lemma blind_get_device : blind get_wireguard_device.
Proof. apply blind_bind; [apply blind_ask|]. intros a. apply blind_of_result. Qed.
End watchers.

Create HintDb blind discriminated.
#[export] Hint Resolve blind_of_result blind_ask blind_bind blind_ret blind_get_peers blind_set_peers blind_logged
  blind_call_io blind_get_device : blind.

Section starved.
Context `{IpNetLib} `{HexLib} `{HashOrder} {W : Type} `{!Kernel W}.

Lemma blind_follow_device long short events device : blind (W := W) long short (follow_device events device).
Proof.
  revert events. induction device as [|p device IH]; intros events; cbn [follow_device]; [auto with blind|].
  apply blind_bind; [auto with blind|]. intros ps. destruct (ps !! _) as [peer|]; [|done].
  apply blind_bind; [auto with blind|]. intros t. apply blind_bind; [auto with blind|]. intros fresh.
  destruct (update_from_device _ _ _ _) as [peer' []]; auto 6 with blind.
Qed.

Lemma blind_rotate long short events keys : blind (W := W) long short (rotate_endpoints events keys).
Proof.
  revert events. induction keys as [|k keys IH]; intros events; cbn [rotate_endpoints]; [auto with blind|].
  apply blind_bind; [auto with blind|]. intros ps. destruct (ps !! _) as [peer|]; [|done].
  apply blind_bind; [auto with blind|]. intros [endpoint|]; [|done]. auto 9 with blind.
Qed.

Lemma notify_watcher_state watcher events st (w : W) r s' : notify_watcher watcher events (st, w) = (r, s') → s'.1 = st.
Proof.
  revert w. induction events as [|e events IH]; intros w; cbn [notify_watcher]; [by intros [= _ <-]|].
  unfold mbind, net_bind, ask. cbn. destruct (deliver watcher e w) as [[] w']; [apply IH|by intros [= _ <-]..].
Qed.

Lemma notify_watchers_state watchers events st (w : W) r s' : notify_watchers watchers events (st, w) = (r, s') → s'.1 = st.
Proof.
  revert w. induction watchers as [|x watchers IH]; intros w; cbn [notify_watchers]; [by intros [= _ <-]|].
  unfold mbind, net_bind. destruct (notify_watcher x events (st, w)) as [[[]|e|p] s1] eqn:E; pose proof (notify_watcher_state _ _ _ _ _ _ E) as Hs;
    destruct s1 as [st1 w1]; cbn in Hs; subst st1; [apply IH|by intros [= _ <-]..].
Qed.

(** A notification does not read the state. *)
Lemma notify_watcher_any watcher events st st' (w : W) :
  notify_watcher watcher events (st, w) = ((notify_watcher watcher events (st', w)).1, (st, (notify_watcher watcher events (st', w)).2.2)).
Proof.
  revert w. induction events as [|e events IH]; intros w; cbn [notify_watcher]; [done|].
  unfold mbind, net_bind, ask. cbn. destruct (deliver watcher e w) as [[] w']; [apply IH|done..].
Qed.
Lemma notify_watchers_any watchers events st st' (w : W) :
  notify_watchers watchers events (st, w) = ((notify_watchers watchers events (st', w)).1, (st, (notify_watchers watchers events (st', w)).2.2)).
Proof.
  revert w. induction watchers as [|x watchers IH]; intros w; cbn [notify_watchers]; [done|].
  unfold mbind, net_bind. rewrite (notify_watcher_any x events st st').
  destruct (notify_watcher x events (st', w)) as [[[]|e|p] [st1 w1]] eqn:E; cbn; [|done..].
  apply notify_watcher_state in E. cbn in E. subst st1. apply IH.
Qed.

(** A watcher whose receiver is gone. *)
Definition closed (gone : nat) : Prop := ∀ event w, (deliver gone event w).1 = D_Closed.

Lemma closed_ends gone before after events s : closed gone → events ≠ [] →
  notify_watchers (before ++ gone :: after) events s = notify_watchers (before ++ [gone]) events s.
Proof.
  intros Hc He. destruct events as [|e events]; [done|]. revert s. induction before as [|x before IH]; intros s; cbn [notify_watchers app].
  - unfold mbind, net_bind. cbn [notify_watcher]. unfold mbind, net_bind, ask. specialize (Hc e s.2).
    destruct (deliver gone e s.2) as [d w']. cbn in Hc. subst d. done.
  - unfold mbind, net_bind. destruct (notify_watcher x (e :: events) s) as [[[]|?|?] s1]; [apply IH|done..].
Qed.

Section tick.
Context (gone : nat) (before after : list nat) (Hgone : closed gone).
Notation long := (before ++ gone :: after).
Notation short := (before ++ [gone]).

Lemma blind_notify events : events ≠ [] →
  blind (W := W) long short (state ← get_state; logged (notify_watchers (st_watchers state) events)).
Proof.
  intros He st w. unfold mbind, net_bind, get_state, logged. cbn [fst st_watchers with_watchers].
  rewrite closed_ends by done. rewrite (notify_watchers_any _ _ (with_watchers long st) (with_watchers short st)).
  destruct (notify_watchers short events (with_watchers short st, w)) as [[|e|p] s1] eqn:E; cbn;
    apply notify_watchers_state in E; destruct s1 as [st1 w1]; cbn in E; subst st1; done.
Qed.

Lemma blind_update_peers : blind (W := W) long short update_peers_from_device.
Proof.
  unfold update_peers_from_device. apply blind_bind; [apply blind_call_io|]. intros _. apply blind_bind; [apply blind_get_device|].
  intros device. apply blind_bind; [apply blind_get_peers|]. intros _. apply blind_bind; [apply blind_follow_device|].
  intros [|e events]; [apply blind_ret|by apply blind_notify].
Qed.

Lemma blind_change_endpoints : blind (W := W) long short change_wire_guard_endpoints.
Proof.
  unfold change_wire_guard_endpoints. apply blind_bind; [apply blind_get_peers|]. intros ps.
  apply blind_bind; [apply blind_rotate|]. intros [|e events]; [apply blind_ret|].
  apply blind_bind; [apply blind_call_io|]. intros _. apply blind_bind; [apply blind_get_device|]. intros device.
  apply blind_bind; [apply blind_of_result|]. intros keys. destruct (List.find _ _) as [[missing ?]|]; [apply blind_of_result|].
  apply blind_bind; [apply blind_call_io|]. intros _. by apply blind_notify.
Qed.
End tick.

(** Some turns of the loop of [run]. *)
Fixpoint run_ticks (n : nat) : net W () := match n with O => mret () | S n => _ ← run_tick; run_ticks n end.

(** C39: a watcher whose receiver is gone silences those after it for good: however often
    the network turns, it does exactly what it would do if they had never registered, none
    of them is told of an endpoint that changed, and the one that is gone is not removed. *)
Theorem closed_watcher_starves gone before after n st w : closed gone →
  run_ticks n (with_watchers (before ++ gone :: after) st, w) =
    relabel (before ++ gone :: after) (run_ticks n (with_watchers (before ++ [gone]) st, w)).
Proof.
  intros Hgone. assert (blind (W := W) (before ++ gone :: after) (before ++ [gone]) (run_ticks n)) as Hb; [|apply Hb].
  induction n as [|n IH]; cbn [run_ticks]; [apply blind_ret|]. apply blind_bind; [|done].
  apply blind_bind; [by apply blind_logged, blind_update_peers|]. intros _. by apply blind_logged, blind_change_endpoints.
Qed.

(** *** The size of packets *)

(** The MTU is one that IPv6 needs and the overhead of the tunnel leaves of Ethernet's, and
    is the egress MTU less that overhead where these bounds allow. *)
Lemma detect_mtu_bounds (s : State * W) :
  MIN_WIREGUARD_MTU <= (detect_mtu s).1 <= MAX_WIREGUARD_MTU ∧
  ∀ mtu s', detect_egress_mtu s = (Ok mtu, s') → MIN_WIREGUARD_MTU + WIREGUARD_ENCAP_OVERHEAD <= mtu <= 1500 →
    (detect_mtu s).1 + WIREGUARD_ENCAP_OVERHEAD = mtu.
Proof.
  unfold detect_mtu, clamp_mtu, MIN_WIREGUARD_MTU, MAX_WIREGUARD_MTU, WIREGUARD_ENCAP_OVERHEAD.
  destruct (detect_egress_mtu s) as [[mtu| |] s']; cbn; (split; [lia|]); intros mtu' s'' [= <- <-] ?; lia.
Qed.
End starved.

(** ** A simulated kernel

    Networks as blocks of addresses, and a kernel that keeps peers, addresses and routes:
    one instance of what the network relies on, on which it runs. *)

Definition block_trunc (p : IpPrefix) : IpPrefix := mk_IpPrefix (ip_like (address p) (block_start p)) (bits p).
Definition block_contains (p q : IpPrefix) : bool :=
  same_family (address p) (address q) && (block_start p <=? block_start q) && (block_end q <=? block_end p).
Definition block_supernet (p : IpPrefix) : option IpPrefix :=
  if bits p =? 0 then None else Some (block_trunc (mk_IpPrefix (address p) (bits p - 1))).
Definition block_sibling (p q : IpPrefix) : bool :=
  same_family (address p) (address q) && (bits p =? bits q) && negb (bits p =? 0)
  && bool_decide (block_supernet p = block_supernet q).

Lemma block_contains_spec p q : prefix_wf p → prefix_wf q →
  block_contains p q = true ↔ ∀ a, ip_wf a → in_block q a → in_block p a.
Proof.
  intros Hp Hq. unfold block_contains. rewrite !andb_true_iff, !Z.leb_le.
  pose proof (block_size_pos q Hq) as Hs. pose proof (block_start_le q Hq) as Hle. pose proof (block_end_le q Hq) as Hend. split.
  - intros [[Hf H1] H2] a _ [Hfa Ha]. split; [by eapply same_family_trans|lia].
  - intros Hin. pose proof (Hin _ (proj1 Hq) (in_block_self q Hq)) as [Hf _].
    assert (∀ v, block_start q <= v < block_end q → block_start p <= v < block_end p) as Hsub.
    { intros v Hv. destruct (Hin (ip_like (address q) v)) as [_ Hv'].
      - apply ip_like_wf. lia.
      - split; [apply ip_like_family|by rewrite ip_like_value].
      - by rewrite ip_like_value in Hv'. }
    unfold block_end in *. pose proof (Hsub (block_start q) ltac:(lia)). pose proof (Hsub (block_start q + block_size q - 1) ltac:(lia)).
    split; [split; [done|lia]|lia].
Qed.

#[export] Instance block_networks : IpNetLib.
Proof.
  refine {| trunc := block_trunc; net_contains := block_contains; is_sibling := block_sibling; supernet := block_supernet;
            net_error := "invalid IP prefix length"; net_debug := prefix_display;
            net_parse s := match prefix_from_str s with Ok p => inr p | _ => inl "invalid IP address syntax" end |}.
  - done.
  - exact block_contains_spec.
  - done.
  - intros p q _ _. unfold block_sibling. rewrite !andb_true_iff, Z.eqb_eq, negb_true_iff, Z.eqb_neq, bool_decide_eq_true.
    unfold block_supernet at 3. destruct (Z.eqb_spec (bits p) 0) as [E|E]; rewrite ?is_Some_alt; naive_solver.
Defined.

#[export] Instance byte_eq_dec' : EqDecision byte := Byte.byte_eq_dec.
#[export] Instance byte_countable : Countable byte := inj_countable Byte.to_N Byte.of_N Byte.of_to_N.
#[export] Instance AddressAttribute_eq_dec : EqDecision AddressAttribute. Proof. solve_decision. Defined.
#[export] Instance AddressMessage_eq_dec : EqDecision AddressMessage. Proof. solve_decision. Defined.
#[export] Instance RouteAttribute_eq_dec : EqDecision RouteAttribute. Proof. solve_decision. Defined.
#[export] Instance RouteMessage_eq_dec : EqDecision RouteMessage. Proof. solve_decision. Defined.

Record Sim := mk_Sim {
  sim_clock : Z; sim_device : gmap (list byte) WireGuardPeer; sim_addresses : list AddressMessage; sim_routes : list RouteMessage;
  sim_told : list nat
}.

Definition keyed (k : list byte) (p : WireGuardPeer) : WireGuardPeer :=
  mk_WireGuardPeer k (wp_endpoint p) (wp_last_handshake_time p) (wp_rx_bytes p) (wp_tx_bytes p) (wp_allowed_ips p) (wp_keepalive p).
Definition sim_peers (m : gmap (list byte) WireGuardPeer) : list WireGuardPeer := map (uncurry keyed) (map_to_list m).
Definition has_flag (f : PeerFlag) (x : PeerUpdate) : bool := bool_decide (f ∈ pu_flags x).

(** One peer of an update. *)
Definition sim_apply (x : PeerUpdate) (old : option WireGuardPeer) : option WireGuardPeer :=
  if has_flag PF_RemoveMe x then None
  else if has_flag PF_UpdateOnly x && negb (bool_decide (is_Some old)) then None
  else
    let p := default (mk_WireGuardPeer [] None 0 0 0 [] None) old in
    Some (mk_WireGuardPeer (pu_public_key x)
            (match pu_endpoint x with Some e => Some e | None => wp_endpoint p end)
            (wp_last_handshake_time p) (wp_rx_bytes p) (wp_tx_bytes p)
            ((if has_flag PF_ReplaceAllowedIps x then [] else wp_allowed_ips p) ++ map masked (pu_allowed_ips x))
            (match pu_keepalive x with Some k => Some k | None => wp_keepalive p end)).
Definition sim_update (l : list PeerUpdate) (m : gmap (list byte) WireGuardPeer) : gmap (list byte) WireGuardPeer :=
  foldr (fun x m => partial_alter (sim_apply x) (pu_public_key x) m) m l.

Lemma sim_update_cons x l m : sim_update (x :: l) m = partial_alter (sim_apply x) (pu_public_key x) (sim_update l m).
Proof. done. Qed.
Lemma sim_update_other l m k : k ∉ map pu_public_key l → sim_update l m !! k = m !! k.
Proof.
  induction l as [|x l IH]; [done|]. cbn [map]. intros [Hne Hk]%not_elem_of_cons.
  rewrite sim_update_cons, lookup_partial_alter_ne by congruence. by apply IH.
Qed.
Lemma sim_update_at l m x : NoDup (map pu_public_key l) → x ∈ l →
  sim_update l m !! pu_public_key x = sim_apply x (m !! pu_public_key x).
Proof.
  induction l as [|y l IH]; [by intros _ ?%elem_of_nil|]. cbn [map]. intros [Hy Hnd]%NoDup_cons Hx. rewrite sim_update_cons.
  apply elem_of_cons in Hx as [->|Hx].
  - rewrite lookup_partial_alter_eq. by rewrite sim_update_other.
  - rewrite lookup_partial_alter_ne; [by apply IH|]. intros E. apply Hy. rewrite E. by apply list_elem_of_fmap_2.
Qed.

Lemma elem_of_sim_peers m p : p ∈ sim_peers m ↔ ∃ q, m !! wp_public_key p = Some q ∧ p = keyed (wp_public_key p) q.
Proof.
  unfold sim_peers. rewrite list_elem_of_fmap. split.
  - intros ([k q] & -> & Hin%elem_of_map_to_list). exists q. done.
  - intros (q & Hq & E). exists (wp_public_key p, q). split; [done|]. by apply elem_of_map_to_list.
Qed.

Lemma sim_peers_keys m : NoDup (map wp_public_key (sim_peers m)).
Proof.
  unfold sim_peers. rewrite map_map. assert (map (λ x, wp_public_key (uncurry keyed x)) (map_to_list m) = (map_to_list m).*1) as ->.
  { apply map_ext. by intros []. }
  apply NoDup_fst_map_to_list.
Qed.

Lemma sim_update_law u m : NoDup (map pu_public_key (du_peers u)) →
  device_updated u (sim_peers m) (sim_peers (sim_update (du_peers u) m)).
Proof.
  intros Hnd. split.
  - intros x p Hx Hf (q & Hq & _)%elem_of_sim_peers E. rewrite E, sim_update_at in Hq by done. unfold sim_apply, has_flag in Hq.
    by rewrite bool_decide_eq_true_2 in Hq.
  - intros x Hx [Hr Hu] _ Hrep _. pose proof (sim_update_at _ m _ Hnd Hx) as Hl. unfold sim_apply, has_flag in Hl.
    rewrite (bool_decide_eq_false_2 _ Hr), (bool_decide_eq_false_2 _ Hu), (bool_decide_eq_true_2 _ Hrep) in Hl. cbn [andb] in Hl.
    eexists (keyed (pu_public_key x) _). rewrite elem_of_sim_peers. cbn [wp_public_key keyed]. split; [by eexists; split; [exact Hl|]|].
    cbn. split_and!; [done|done|by intros k ->|]. by intros [e ->].
  - intros p (q & Hq & E)%elem_of_sim_peers. destruct (decide (wp_public_key p ∈ map pu_public_key (du_peers u))) as [Hin|Hout].
    + apply list_elem_of_fmap in Hin as (x & Hk & Hx). rewrite Hk, sim_update_at in Hq by done. unfold sim_apply, has_flag in Hq.
      case_bool_decide as Hrem; [done|]. destruct (m !! pu_public_key x) as [o|] eqn:Eo.
      * left. exists (keyed (pu_public_key x) o). rewrite elem_of_sim_peers. cbn. split; [eauto|congruence].
      * right. exists x. split_and!; [done| |done]. split; [done|]. intros Hup. by rewrite bool_decide_eq_true_2 in Hq.
    + left. rewrite sim_update_other in Hq by done. exists p. split; [|done]. apply elem_of_sim_peers. eauto.
Qed.

(** *** Addresses and routes *)

Fixpoint remove_first `{EqDecision A} (x : A) (l : list A) : list A :=
  match l with [] => [] | y :: l => if decide (x = y) then l else y :: remove_first x l end.

Lemma filter_remove_first `{EqDecision A} (f : A → bool) x l : x ∈ l → f x = true →
  List.filter f l ≡ₚ x :: List.filter f (remove_first x l).
Proof.
  intros Hx Hf. induction l as [|y l IH]; [by apply elem_of_nil in Hx|]. cbn [remove_first].
  destruct (decide (x = y)) as [<-|Hne]; cbn [List.filter]; [by rewrite Hf|].
  apply elem_of_cons in Hx as [|Hx]; [done|]. specialize (IH Hx). destruct (f y); [|done].
  rewrite IH. apply perm_swap.
Qed.
Lemma filter_remove_other `{EqDecision A} (f : A → bool) x l : f x = false →
  List.filter f (remove_first x l) = List.filter f l.
Proof.
  intros Hf. induction l as [|y l IH]; [done|]. cbn [remove_first].
  destruct (decide (x = y)) as [<-|Hne]; cbn [List.filter]; [by rewrite Hf|]. by rewrite IH.
Qed.
Lemma elem_of_filter_bool {A} (f : A → bool) x l : x ∈ List.filter f l ↔ x ∈ l ∧ f x = true.
Proof. by rewrite !list_elem_of_In, filter_In. Qed.

Definition is_ok {E A} (r : result E A) : bool := match r with Ok _ => true | _ => false end.
Definition address_of (index : Z) (m : AddressMessage) : bool := (adm_index m =? index) && is_ok (address_message_prefix m).
Definition route_family (m : RouteMessage) : bool :=
  default false (find_map (fun a => match a with RA_Destination a => Some (is_ipv6 a) | _ => None end) (rm_attributes m)).
Definition route_of (v6 : bool) (m : RouteMessage) : bool := Bool.eqb (route_family m) v6 && is_ok (route_message_prefix m).

Definition sim_view (w : Sim) : KernelView :=
  mk_KernelView (sim_peers (sim_device w)) (fun index => List.filter (address_of index) (sim_addresses w))
    (fun v6 => List.filter (route_of v6) (sim_routes w)).

Definition with_addresses (l : list AddressMessage) (w : Sim) : Sim := mk_Sim (sim_clock w) (sim_device w) l (sim_routes w) (sim_told w).
Definition with_routes (l : list RouteMessage) (w : Sim) : Sim := mk_Sim (sim_clock w) (sim_device w) (sim_addresses w) l (sim_told w).
Definition new_address (index : Z) (ip : IpAddr) (len : Z) : AddressMessage := mk_AddressMessage index len [AA_Local ip].
Definition new_route_message (r : NewRoute) : RouteMessage :=
  mk_RouteMessage (nr_prefix_len r) RT_TABLE_MAIN false [RA_Oif (nr_link r); RA_Destination (nr_destination r)].
Definition EEXIST : NlError := mk_NlError (-17) "File exists".

#[export] Instance sim_kernel : Kernel Sim := {|
  now w := (sim_clock w, mk_Sim (sim_clock w + 1) (sim_device w) (sim_addresses w) (sim_routes w) (sim_told w));
  allocate w := (Z.to_nat (sim_clock w), mk_Sim (sim_clock w + 1) (sim_device w) (sim_addresses w) (sim_routes w) (sim_told w));
  wg_connect w := (None, w);
  wg_get_device w := (inr (sim_peers (sim_device w)), w);
  wg_set_device u w := (None, mk_Sim (sim_clock w) (sim_update (du_peers u) (sim_device w)) (sim_addresses w) (sim_routes w) (sim_told w));
  nl_connect w := (None, w);
  link_get index w := (inr (Some (mk_LinkMessage index false [LA_IfName WIREGUARD_INTERFACE_NAME])), w);
  link_find name w := (inr (Some (mk_LinkMessage 7 false [LA_IfName name])), w);
  link_add name w := (None, w);
  link_del index w := (None, w);
  link_set_mtu index mtu w := (None, w);
  link_set_up index w := (None, w);
  address_add index ip len w :=
    if existsb (fun m => bool_decide (m = new_address index ip len)) (List.filter (address_of index) (sim_addresses w)) then (Some EEXIST, w)
    else (None, with_addresses (new_address index ip len :: sim_addresses w) w);
  address_list index w := ((List.filter (address_of index) (sim_addresses w), None), w);
  address_del m w := (None, with_addresses (remove_first m (sim_addresses w)) w);
  route_add r w :=
    if existsb (fun m => bool_decide (m = new_route_message r)) (List.filter (route_of (is_ipv6 (nr_destination r))) (sim_routes w)) then (Some EEXIST, w)
    else (None, with_routes (new_route_message r :: sim_routes w) w);
  route_list v6 w := ((List.filter (route_of v6) (sim_routes w), None), w);
  route_del m w := (None, with_routes (remove_first m (sim_routes w)) w);
  route_get ip w := (inr None, w);
  deliver watcher event w :=
    if (watcher =? 1)%nat then (D_Closed, w)
    else (D_Received, mk_Sim (sim_clock w) (sim_device w) (sim_addresses w) (sim_routes w) (sim_told w ++ [watcher]))
|}.

Lemma net_new_ok context ip len : prefix_wf (mk_IpPrefix ip len) → net_new context ip len = Ok (trunc (mk_IpPrefix ip len)).
Proof. intros [_ Hb]. cbn [address bits] in Hb. unfold net_new. by rewrite (proj2 (Z.leb_le _ _)) by lia. Qed.
Lemma new_address_prefix index ip len : prefix_wf (mk_IpPrefix ip len) →
  address_message_prefix (new_address index ip len) = Ok (trunc (mk_IpPrefix ip len)).
Proof. apply net_new_ok. Qed.
Lemma new_route_prefix r : prefix_wf (mk_IpPrefix (nr_destination r) (nr_prefix_len r)) →
  route_message_prefix (new_route_message r) = Ok (trunc (mk_IpPrefix (nr_destination r) (nr_prefix_len r))).
Proof. apply net_new_ok. Qed.
Lemma existsb_elem {A} `{EqDecision A} (x : A) l : existsb (fun m => bool_decide (m = x)) l = true → x ∈ l.
Proof. intros (y & Hy & ->%bool_decide_eq_true)%existsb_exists. by apply list_elem_of_In. Qed.

#[export] Instance sim_laws : KernelLaws Sim.
Proof.
  refine {| view := sim_view |}; try done.
  - intros w peers w' [= <- <-]. done.
  - intros u w w' [= <-] Hnd. by apply sim_update_law.
  - intros w. apply sim_peers_keys.
  - intros index ip len w Hp. cbn [address_add sim_kernel]. destruct (existsb _ _) eqn:E.
    + intros _. split; [done|]. exists (new_address index ip len). split; [by apply existsb_elem|]. by apply new_address_prefix.
    + split; [done|]. exists (new_address index ip len). split; [|by apply new_address_prefix].
      cbn [v_addresses sim_view with_addresses sim_addresses List.filter]. unfold address_of at 1. rewrite new_address_prefix by done.
      by rewrite Z.eqb_refl.
  - intros index w l w' [= <- <-]. done.
  - intros w index m (_ & [Hi _]%andb_true_iff)%elem_of_filter_bool. by apply Z.eqb_eq.
  - intros m w w' [= <-] (Hin & Hm)%elem_of_filter_bool. split; [done|]. by apply filter_remove_first.
  - intros index mtu w w' [= <-] _. done.
  - intros index w w' [= <-]. done.
  - intros r w Hp. cbv zeta. cbn [route_add sim_kernel]. destruct (existsb _ _) eqn:E.
    + intros _. split; [done|]. exists (new_route_message r). split_and!; [by apply existsb_elem|done|]. by apply new_route_prefix.
    + split_and!; [done|done| |exists (new_route_message r); split_and!; [|done|by apply new_route_prefix]];
        cbn [v_routes sim_view with_routes sim_routes List.filter]; unfold route_of at 1; rewrite new_route_prefix by done;
        unfold route_family; cbn; by destruct (is_ipv6 (nr_destination r)).
  - intros v6 w l w' [= <- <-]. done.
  - intros v6 m w w' [= <-] (Hin & Hm)%elem_of_filter_bool. split_and!; [done|done| |by apply filter_remove_first].
    cbn [v_routes sim_view with_routes sim_routes]. apply filter_remove_other. unfold route_of in *.
    apply andb_true_iff in Hm as [<-%eqb_prop _]. by destruct (route_family m).
Defined.

Lemma is_ok_spec {E A} (r : result E A) : is_ok r = true → ∃ a, r = Ok a.
Proof. destruct r; [eauto|done..]. Qed.

Lemma sim_answers : Answering (W := Sim).
Proof.
  split; cbn; try done; try by eauto.
  - intros index ip len w. by destruct (existsb _ _).
  - intros index w. split; [done|]. intros m (_ & [_ Hm%is_ok_spec]%andb_true_iff)%elem_of_filter_bool. done.
  - intros r w. by destruct (existsb _ _).
  - intros v6 w. split; [done|]. intros m index (_ & [_ Hm%is_ok_spec]%andb_true_iff)%elem_of_filter_bool _. done.
Qed.

(** Addresses of three networks, two of them halves of one, and a fourth inside of it. *)
Definition example_prefixes : list IpPrefix :=
  [mk_IpPrefix (V4 0x0AD20100) 24; mk_IpPrefix (V4 0x0AD20000) 24; mk_IpPrefix (V4 0x0AD20305) 24; mk_IpPrefix (V4 0x0AD20007) 32].

Lemma compact_prefixes_exact_witness :
  compact_prefixes example_prefixes = Ok [mk_IpPrefix (V4 0x0AD20000) 23; mk_IpPrefix (V4 0x0AD20300) 24] ∧
  ∀ a, ip_wf a → covers [mk_IpPrefix (V4 0x0AD20000) 23; mk_IpPrefix (V4 0x0AD20300) 24] a ↔ covers example_prefixes a.
Proof.
  assert (compact_prefixes example_prefixes = Ok [mk_IpPrefix (V4 0x0AD20000) 23; mk_IpPrefix (V4 0x0AD20300) 24]) as E
    by (vm_compute; reflexivity).
  split; [exact E|].
  destruct (compact_prefixes_exact example_prefixes) as (out & Hout & Hcov & _).
  - repeat (constructor; [split; vm_compute; repeat split; discriminate|]). constructor.
  - rewrite E in Hout. injection Hout as <-. exact Hcov.
Defined.

(** A machine with two peers. *)
Definition example_key (n : Z) : Secret := Some (replicate 32 (byte_of n)).
Definition example_peer (n : Z) : PeerConfig :=
  mk_PeerConfig (H := wg_net_lib) (Some (mk_IpPrefix (V4 (0x0AD20000 + 256 * n)) 24)) (Some (V6 (2 ^ 120 + n)))
    (Some (mk_Arc 0 (mk_SocketAddr (V4 n) 51820))) [] (Some (example_key n)).
Definition example_config : Config :=
  mk_Config (Some (mk_IpPrefix (V4 0x0AD20900) 24)) (Some (V6 (2 ^ 120 + 9))) 0 0 (Some (example_key 9)) (Some (example_key 8)) []
    [example_peer 1; example_peer 2].

Lemma example_config_wf : config_wf example_config.
Proof.
  split.
  - apply NoDup_cons. split; [|apply NoDup_singleton]. rewrite list_elem_of_singleton. intros [=].
  - intros pc pc' l l' net Hpc Hpc' Hne Hl Hl' Hip Hip'.
    change (cfg_peers example_config) with [example_peer 1; example_peer 2] in *.
    apply elem_of_cons in Hpc as [->| ->%list_elem_of_singleton]; apply elem_of_cons in Hpc' as [->| ->%list_elem_of_singleton];
      try done; injection Hl as <-; injection Hl' as <-; cbn [map] in Hip, Hip';
      apply elem_of_cons in Hip as [->| ->%list_elem_of_singleton];
      apply elem_of_cons in Hip' as [E|E%list_elem_of_singleton]; vm_compute in E; discriminate E.
  - intros pc Hpc. change (cfg_peers example_config) with [example_peer 1; example_peer 2] in *.
    apply elem_of_cons in Hpc as [->| ->%list_elem_of_singleton]; split; intros ? [= <-]; split; cbn; lia.
  - intros ip [= <-]. cbn. lia.
  - vm_compute. discriminate.
Qed.

Lemma example_config_complete : config_complete example_config.
Proof.
  split.
  - by exists (example_key 9).
  - vm_compute. split; discriminate.
  - by eexists.
  - by eexists _, _.
  - intros pc Hpc. change (cfg_peers example_config) with [example_peer 1; example_peer 2] in *.
    apply elem_of_cons in Hpc as [->| ->%list_elem_of_singleton]; (split; [by eexists|by eexists]).
Qed.

(** A link with a stale address and a stale route, and a device with a stale peer. *)
Definition example_sim : Sim :=
  mk_Sim 100 {[ replicate 32 (byte_of 5) := mk_WireGuardPeer [] None 0 0 0 [] None ]} [new_address 7 (V4 77) 32]
    [new_route_message (mk_NewRoute (V4 0) 8 None 7)] [].
Definition example_state : State := mk_State 7 None [] false.


(** A peer whose endpoint changes on the device; watcher 1 of the simulated kernel is gone,
    and watcher 2 comes after it. *)
Definition watched_state : State :=
  mk_State 7 (Some {[ key_hex (replicate 32 (byte_of 1)) := peer_new_at (example_peer 1) None 0 ]}) [0; 1; 2]%nat true.
Definition watched_sim : Sim :=
  mk_Sim 100 {[ replicate 32 (byte_of 1) := mk_WireGuardPeer [] (Some (mk_SocketAddr (V4 99) 51820)) 50 0 0 [] None ]} [] [] [].

Lemma closed_watcher_starves_witness :
  let tick := run_ticks (H0 := reference_hex) (H1 := sorted_hash_order) 3 in
  let after := tick (with_watchers [0; 1; 2]%nat watched_state, watched_sim) in
  after = relabel [0; 1; 2]%nat (tick (with_watchers [0; 1]%nat watched_state, watched_sim)) ∧
  sim_told after.2.2 = [0%nat].
Proof.
  cbv zeta. split.
  - apply (closed_watcher_starves (H0 := reference_hex) (H1 := sorted_hash_order) 1 [0%nat] [2%nat]). intros event w. reflexivity.
  - vm_compute. reflexivity.
Defined.
